(* ===== verification/_CoqProject ===== *)
-Q . S2P
Prelude.v
GoTime.v
Provider.v
Receipts.v
GovTypes.v
Ledger.v
GovState.v
Circuit.v
Admission.v
Permits.v
Persist.v
Frames.v
Admissible.v
CircuitLaws.v
Grants.v
PermitLaws.v
Execute.v
ExecuteLaws.v
System.v
Safety.v
PersistLaws.v
Wakeups.v
Scenarios.v
Text.v
Policy.v
Patch.v
Cycles.v
Database.v
WorkUnits.v
UnitLaws.v
UnitReady.v
Paths.v
Driver.v
Scheduler.v
SchedulerLaws.v
SchedulerStore.v
UnitScenarios.v
Actions.v
ActionLaws.v
AttemptLaws.v
ActionScenarios.v
Verifier.v
VerifierLaws.v
VerifierScenarios.v
Json.v
JsonLaws.v
Protocol.v
ProtocolLaws.v
ProtocolScenarios.v
Recipe.v
RecipeLaws.v
Observations.v
Workspace.v
ToolArguments.v
Writing.v
Reading.v
Search.v
Tools.v
PathLaws.v
WritingLaws.v
ReconcileLaws.v
ToolScenarios.v
TimeText.v
ProviderStore.v
ProviderLaws.v
ProviderScenarios.v
Encode.v
RecoveryStore.v
Outcomes.v
LoopTypes.v
Loop.v
LoopLaws.v
LoopEffects.v
LoopReports.v
LoopBudgets.v
LoopScenarios.v
Context.v
Recovery.v
ResumeLaws.v
RecoveryScenarios.v
