(* ===== verification/Prelude.v ===== *)
(** * Runstead: a verification library of the governor, the work units and durable effects

    Runstead runs coding tasks against one account of a language model provider.
    This library models the parts of it that decide whether something may happen:
    the governor, through which every provider call passes (internal/governor),
    the provider contract it relies on (internal/provider), the durable work
    units a task is divided into, their store, driver and scheduler
    (internal/state/workunits.go, internal/workunit), and what stands around an
    effect of the task: the policy, the patch engine and the durable record of
    actions, attempts, approvals and tasks (internal/policy, internal/tools,
    internal/state); the run of the agent that puts these together
    (internal/agent); and the recovery of an interrupted task with the context it
    starts from (internal/recovery, internal/context).  Names of definitions are
    the names of the source; a definition that models a part of a function says
    so in its comment.

    ** How the program fits together

    A run of the agent asks the model for one action at a time until the verifier
    accepts its completion or a limit is reached.  It asks the governor for a permit ([Admit]), starts the permit, calls the
    provider and finishes the permit with the outcome ([Execute] composes these).
    The governor keeps one lane, rolling budgets, per-task budgets, pacing, a
    circuit breaker, remaining-usage telemetry and an unsafe latch, and persists
    them.  A task with work units hands the definitions to the driver, which
    creates them in the store in dependency order; the scheduler dispatches ready
    units to workers, read-only ones side by side and others alone, and settles
    their outcomes in the store; the parent task may complete only when all units
    have.  Every effect is recorded as an action, decided by the policy and
    perhaps by the operator, prepared in one transaction before it happens and
    completed in another afterwards; only then is its observation evidence.  When
    the process died, a resumption settles what is open, asks for a human or the
    account where it must, and gives the next run a seed: the counters, the evidence
    and a context compiled from what is stored.

    ** Files: the governor

    - GoTime: time stamps and durations with the zero time, saturation and the
      wrap-around of 64-bit integers; trimming of text.
    - Provider, Receipts: provider/provider.go, delivery_state.go,
      failure_class.go and attempt_receipts.go.
    - GovTypes, Ledger, GovState, Circuit: governor/types.go, ledger.go; the
      record [Governor], retention.go, events.go, telemetry.go; circuit.go.
    - Admission, Permits, Execute: admission.go (one definition per critical
      section, [checkLocked] with its guards in order), permit.go (start, both
      cancellations, both finish paths, refresh), execute.go.
    - Persist: persistence.go, state.go, snapshot.go.
    - System: the governor as a transition system.  A [World] is a governor with
      its outstanding permits and its history; a [label] is one critical section
      of one goroutine together with what the environment answered (the clock,
      the jitter, telemetry).  The mutex makes critical sections atomic; any
      interleaving of goroutines is a sequence of labels.
    - Frames, Admissible, CircuitLaws, Grants, PermitLaws,
      ExecuteLaws, Safety, PersistLaws, Wakeups: the theorems; Scenarios: concrete
      runs and the witnesses.

    ** Files: the work units

    - Text: splitting, joining, sorting and trimming of texts.
    - Database: the tables of the schema as rows, [DB], the monad of database
      calls of which each may fail ([Disk]), [transaction], which restores the
      tables unless it commits, the journal (events.go), and the laws of running
      calls: [within] lifts a relation on tables over a call.  A statement that
      breaks a constraint of the schema fails.
    - Cycles: [findWorkUnitCycle], the search for a cycle.
    - WorkUnits: state/workunits.go.
    - Paths: [NormalizeWorkspacePath] of tools/workspace.go.
    - Driver: workunit/driver.go and lane.go, with theorems.
    - Scheduler: workunit/scheduler.go as a step relation.  A [Sched] holds the
      store, the variables of the main loop and its place in it, the channel and
      the workers; [label] says who moves; [foreign] steps change the tables that
      others own.
    - UnitLaws, UnitReady, SchedulerLaws, SchedulerStore: the theorems;
      UnitScenarios: concrete runs and the witnesses.

    ** Files: effects

    - Policy: policy/policy.go, decisions and the texts of policies, with theorems.
    - Patch: tools/patch.go, the strict unified diff, with theorems.
    - Actions: the transactions of state/actions.go, tool_attempts.go,
      write_policy.go, approval_flow.go, tasks.go, verification.go and of tool
      attempts and tasks in recovery.go.  [next_of] is COALESCE(MAX, 0) + 1; an
      insertion tests the keys, references and admitted values of its table.
    - Verifier: internal/verifier, with the answers of the environment as a record
      ([Observer]); VerifierLaws: the theorems; VerifierScenarios:
      concrete verifications and the witnesses.
    - ActionLaws: the operations as one alphabet ([Operation], [perform]);
      AttemptLaws: identities, attempts, evidence, approvals; ActionScenarios: one
      write from proposal to the end of its task, and the witnesses.

    ** Files: the model and its tools

    - Json: encoding/json as far as the program uses it: reader, compact writer,
      decoding into structs, the scan for duplicate keys; JsonLaws: what is
      written is read back.
    - Protocol: protocol/parser.go, guidance.go, version.go; ProtocolLaws: the
      theorems; ProtocolScenarios: concrete responses and the witnesses.
    - Recipe: recipe/recipe.go without the process itself; RecipeLaws: the theorems.
    - Observations: tools/observation.go and the evidence types of write.go.
    - Workspace: tools/workspace.go and the resolution of write.go over a file
      system.  A tool is a computation of [Cmd], a sequence of calls to the
      operating system; before each call other processes may act
      ([interfere]), and this process may die at it ([crashes]).  A [Machine]
      remembers the renames that took place.
    - ToolArguments, Writing, Reading, Search, Tools: tools/registry.go, write.go and
      write_file.go, read_file.go and list_files.go, search_text.go, git.go with
      run_recipe.go, execute.go and describe.go.
    - PathLaws: lexical paths; WritingLaws: what an execution may change;
      ReconcileLaws: interrupted writes; ToolScenarios: a concrete file system,
      executions on it and the witnesses.

    Interfaces are classes: [Env] (clock and jitter of the governor), [MapOrder]
    (the order in which Go ranges over a map or the database returns unordered
    rows), [Disk], [Codec] (redaction and JSON), [Plans] (verifier plans), [Sorter]
    (the order that sort.Slice gives equal keys), [Decoder] (JSON of
    evidence), [Prose] (two regular expressions over prose), [ToolCatalog], [Hash],
    [FileSystem] with its laws [FileLaws], [Environment] (what happens between calls),
    [Reads] (the pieces in which a file is read), [Stored] (stored observations
    as values), [Commands] (git, ripgrep,
    recipe processes, directory walks), [WallClock] and [LenientParse] (texts of
    times the store did not write).
    Theorems hold for every instance unless they say otherwise.

    ** Files: what survives a restart

    - TimeText: the text of time stamps (store.go formatTime, parseTime): RFC 3339
      and the Gregorian calendar; what is written is read back.
    - ProviderStore: state/provider_attempts.go and governor_state.go, the
      transactions around a provider call and the tables of the governor;
      ProviderLaws: the theorems; ProviderScenarios: one call and a restart.
    - Encode: observations and their data as JSON.
    - RecoveryStore: what a resumed task needs of the store: state/recovery.go,
      write_reconcile.go, execution_contract.go, the creation of a task (tasks.go),
      verification attempts (verification.go) and units (workunits.go).

    ** Files: the agent

    - Outcomes: agent/outcome.go, trace.go, transcript.go, grounding.go, guard.go.
    - LoopTypes: the configuration of a run ([Loop], with limits, policy, plan and
      seed), its own state ([Locals]) and the [World] it acts on: the machine, the
      store, the clock, the trace.  A run is a computation [Run] that gives no
      value when the process dies.  The attempt runner ([AttemptRunner]), the other
      goroutines of the program between database calls ([Colleagues]), the clock,
      the walk of the workspace ([Surveys]) and texts that the standard library
      words ([Texts]) are classes.
    - Loop: agent/loop.go, from [NewLoop]'s limits to [RunTask]; one definition for
      each handler and each transaction of a handler, in the order of the source.
    - LoopLaws: what every computation of a run may do to the world ([moves]) and
      what it keeps ([kept]), for colleagues and runners that are [Considerate]:
      they keep attempts, decisions and tasks, and add approvals with their event.
      LoopEffects, LoopReports,
      LoopBudgets: the theorems; LoopScenarios: concrete runs and the witnesses.

    ** Files: recovery

    - Context: [ParsePlan], the strict decoder of verifier/plan.go; internal/context and
      [BuildContext] of recovery/context.go: one [Part] for each stretch of [extract], in
      its order, and the rendering under the budget with the bytes reserved for pinned
      lines that follow; the theorems on plans and contexts.
    - Recovery: recovery/recovery.go as a computation over the [World] of a run:
      classification, the two loops over attempts, the three endings of [Resume], the
      seed, and [GovernorBlocks]; [Stored] decodes observations into values of any type.
    - ResumeLaws: what the transactions of a recovery do to the statuses of attempts,
      and what the pipeline does; RecoveryScenarios: a run that dies after its
      write, its resumption, the run that follows, and the witnesses.

    ** What the theorems show

    - Safety of the account, on every interleaving: a single lane, the unsafe latch,
      and, when one permit is one attempt (RequireAttemptReceipts = false), rolling
      budgets over every window, task budgets and pacing; the windows and pacing also
      over a restart (Safety, PersistLaws).  Refinement of an abstract lane
      (System), liveness of the queue (Wakeups).
    - Functional behaviour of admission, circuit, acknowledgement, receipts and
      validation (Admissible, CircuitLaws, Receipts).
    - Execution: at most one provider call, between its durable intent and its
      durable outcome; the intent of an attempt without receipts charges it; unsafe
      routes are refused (ExecuteLaws).
    - Persistence: what is persisted restores the protection state up to retention;
      circuit, upstream state, windows, pacing and latch admit as before (PersistLaws).
    - Work units: every operation of the store is all or nothing and moves units
      along the lifecycle only (UnitLaws); the ready list is exact, and work goes
      on as long as nothing needs attention (UnitReady); definitions are created
      in an order that exists whenever there is one, re-supply, and the gate of the
      parent (Driver).
    - Scheduling: the exclusive lane and the bound, durable running, completion
      only after a passed verification, no lost worker at the end, no deadlock
      (SchedulerLaws, SchedulerStore).
    - Effects: a failed operation changes nothing and one that succeeds appends
      one event and loses nothing; only finalization through the gates completes
      a task (ActionLaws); an approval ends every pending proposal
      of its effect, recovery settles an attempt once (AttemptLaws).  The policy
      allows only what is configured or approved, and the texts of policies are
      read back (Policy).  A completion proposal passes exactly when it is
      acceptable as observed, and its report accounts for every write
      (VerifierLaws).  Patches apply exactly when they are in the grammar
      and their hunks stand in the file, and can be undone (Patch).
    - Responses: what is accepted is the only envelope of the response and carries what
      its block says, an action that the catalog accepts; an ASCII action that is
      written is read back, and its fingerprint identifies it up to the order of
      members (ProtocolLaws).
    - Tools: whatever is proposed and whoever interferes, an execution renames at
      most one file, inside the workspace, in the expected state, with the
      proposed content, and reports it (WritingLaws); reconciliation tells exactly whether
      an interrupted write took place (ReconcileLaws).
    - Recipes: catalogs hold normal forms; the child of any recipe sees no credential
      and exactly the variables that are inherited (RecipeLaws).
    - Restarts: the intent of a provider call and its outcome are each one
      transaction with the protection state, and the governor restored from the
      tables is the one that was saved (ProviderLaws).
    - Runs of the agent with a store: no file changes but by an action that was
      recorded, prepared, and cleared by the configured mode, with the approval of its
      fingerprint where that mode asks for one (LoopEffects); what a run reports is what
      the database says, and completion is completion verified on what the database
      held (LoopReports); a run ends, within its limits, and asks the provider once a
      turn (LoopBudgets).
    - Resumption: it executes nothing; a task goes on only when nothing of it is open,
      and with the provider attempts it has made counted against its budget; an
      interrupted marking cannot be repeated (ResumeLaws).  The context has every
      pinned line, within the budget, names all that is open, and leaves out only what
      does not fit (Context).
    - Cycles shows what the search returns, when it ends, and inputs on which it
      never does.

    ** Bounds and fuel

    Loops of the source are recursions on lists or have explicit fuel.  The
    search for cycles takes fuel from its caller and returns [None] when it runs
    out: [find_cycle_ends] gives a bound that is enough when no unit is required
    twice, [find_cycle_endless] gives two graphs for which none is enough; creation
    reports [NotEnded] then.  The loop of [topologicalDefinitions] has one turn
    more than there are definitions, which is shown to be enough.  The parser of
    patches has a turn for every line and one more, shown to be enough by
    [applyPatch_spec].  A run of the agent has one turn more than its limit of
    steps, which [RunTask_bounded] shows to be enough.  The queue of
    admission repeats as long as the environment keeps it waiting, so its fuel
    is the number of rounds observed.  Durations and counters of the governor
    are 64-bit where the source computes on them.

    ** Not modelled

    Provider adapters over HTTP, the start and the termination of
    processes, the rest of the durable state (improvements, inspection, profiles,
    migrations), the text of the system contract (agent/system.go) and the
    retries behind the attempt runner (agent/executor.go), the
    command line, credentials and tracing.  The
    crash and fault points of the tests are left out.  SQLite,
    regular expressions of the redactor and the file system are outside
    the source and appear as parameters where the modelled code uses them.  The
    Go memory model is not modelled below the granularity of critical sections
    and channel operations. *)

From Corelib Require Export ssreflect.
From stdpp Require Export base gmap strings list fin_maps sorting.

#[export] Set Warnings "-clear-no-such-hyp".

(** ** Notations of the development *)

Declare Scope runstead_scope.
Delimit Scope runstead_scope with runstead.

(** ** Record update

    Go assigns one field of a struct at a time.  [Settable] names the
    eta-expansion of a record once; a [Setter] for each field is then derived
    from it, so that [r <| p := v |>] is the record [r] with field [p] set. *)

Class Settable (R : Type) := eta_record : R → R.
Class Setter {R T : Type} (p : R → T) := upd : (T → T) → R → R.

Ltac derive_setter p :=
  lazymatch type of p with
  | ?R → ?T =>
    let inst := constr:(ltac:(typeclasses eauto) : Settable R) in
    let eta := eval hnf in inst in
    lazymatch eval pattern p in eta with
    | ?F _ =>
      let t := eval cbv beta in (fun (f : T → T) (r : R) => F (fun x => f (p x)) r) in
      exact t
    end
  end.

#[export] Hint Extern 0 (Setter ?p) => derive_setter p : typeclass_instances.

Notation "r <| p := v |>" := (upd (p:=p) (λ _, v) r)
  (at level 1, left associativity, p constr, v at level 200) : runstead_scope.
Notation "r <| p ::= f |>" := (upd (p:=p) f r)
  (at level 1, left associativity, p constr, f at level 200) : runstead_scope.

(** ** The state monad

    A method that runs under the mutex of its object is a function from the
    state before to its result and the state after. *)

Definition State (S A : Type) : Type := S → A * S.

#[export] Instance State_ret {S} : MRet (State S) := λ A a s, (a, s).
#[export] Instance State_bind {S} : MBind (State S) :=
  λ A B k m s, let '(a, s') := m s in k a s'.

Definition gets {S A} (f : S → A) : State S A := λ s, (f s, s).
Definition modify {S} (f : S → S) : State S unit := λ s, (tt, f s).
Definition exec {S A} (m : State S A) (s : S) : S := (m s).2.
Definition eval_st {S A} (m : State S A) (s : S) : A := (m s).1.

Section monad_laws.
Context {S : Type}.

Lemma bind_run {A B} (m : State S A) (k : A → State S B) s :
  (x ← m; k x) s = k (m s).1 (m s).2.
Proof. rw /mbind /State_bind. by destruct (m s). Qed.

Lemma bind_pair {A B} (m : State S A) (k : A → State S B) s a s' :
  m s = (a, s') → (x ← m; k x) s = k a s'.
Proof. intros H. by rw bind_run H. Qed.
End monad_laws.

(** Hoare triples over the state monad. *)

Definition hoare {S A} (P : S → Prop) (m : State S A) (Q : A → S → Prop) : Prop :=
  ∀ s, P s → Q (m s).1 (m s).2.

Section hoare_rules.
Context {S : Type}.
Implicit Types P : S → Prop.

Lemma hoare_ret {A} (a : A) (Q : A → S → Prop) : hoare (Q a) (mret a) Q.
Proof. by intros s. Qed.

Lemma hoare_gets {A} (f : S → A) (Q : A → S → Prop) :
  hoare (λ s, Q (f s) s) (gets f) Q.
Proof. by intros s. Qed.

Lemma hoare_modify (f : S → S) (Q : unit → S → Prop) :
  hoare (λ s, Q tt (f s)) (modify f) Q.
Proof. by intros s. Qed.

Lemma hoare_bind {A B} P (m : State S A) (k : A → State S B) R Q :
  hoare P m R → (∀ a, hoare (R a) (k a) Q) → hoare P (x ← m; k x) Q.
Proof. intros Hm Hk s Hs. rw bind_run. by apply Hk, Hm. Qed.

Lemma hoare_consequence {A} P P' (m : State S A) Q Q' :
  hoare P m Q → (∀ s, P' s → P s) → (∀ a s, Q a s → Q' a s) → hoare P' m Q'.
Proof. intros H HP HQ s Hs. by apply HQ, H, HP. Qed.
End hoare_rules.

(** [preserves I m]: the method [m] keeps the invariant [I]. *)
Definition preserves {S A} (I : S → Prop) (m : State S A) : Prop :=
  hoare I m (λ _, I).

Section preserves_rules.
Context {S : Type} (I : S → Prop).

Lemma preserves_ret {A} (a : A) : preserves I (mret a).
Proof. by intros s. Qed.

Lemma preserves_gets {A} (f : S → A) : preserves I (gets f).
Proof. by intros s. Qed.

Lemma preserves_bind {A B} (m : State S A) (k : A → State S B) :
  preserves I m → (∀ a, preserves I (k a)) → preserves I (x ← m; k x).
Proof. intros Hm Hk. by eapply hoare_bind. Qed.

Lemma preserves_if {A} (b : bool) (m n : State S A) :
  preserves I m → preserves I n → preserves I (if b then m else n).
Proof. by destruct b. Qed.
End preserves_rules.

Create HintDb runstead.
#[export] Hint Resolve preserves_ret preserves_gets preserves_bind preserves_if : runstead.

(** ** Go maps

    [range] over a Go map visits every entry once, in an order the language
    leaves unspecified.  [MapOrder] is that order; a theorem proved for every
    instance holds whatever order the runtime picks. *)

Class MapOrder := {
  range : ∀ {A : Type}, gmap string A → list (string * A);
  range_perm : ∀ {A : Type} (m : gmap string A), range m ≡ₚ map_to_list m
}.

(** The order of [map_to_list], for concrete evaluations. *)
Definition canonical_order : MapOrder := {|
  range := λ A m, map_to_list m;
  range_perm := λ A m, reflexivity (map_to_list m) |}.

Section map_order.
Context `{MapOrder} {A : Type}.
Implicit Types m : gmap string A.

Lemma elem_of_range m k x : (k, x) ∈ range m ↔ m !! k = Some x.
Proof. by rw range_perm elem_of_map_to_list. Qed.

Lemma length_range m : length (range m) = size m.
Proof. by rw range_perm length_map_to_list. Qed.

Lemma NoDup_range m : NoDup (range m).*1.
Proof. rw range_perm. apply NoDup_fst_map_to_list. Qed.
End map_order.

(** ** Lists *)

(** Go's [for _, x := range xs] that returns on the first error. *)
Fixpoint first_error {A E} (f : A → option E) (xs : list A) : option E :=
  match xs with
  | [] => None
  | x :: xs' => match f x with Some e => Some e | None => first_error f xs' end
  end.

Lemma first_error_None {A E} (f : A → option E) xs :
  first_error f xs = None ↔ Forall (λ x, f x = None) xs.
Proof.
  induction xs as [|x xs IH]; simpl; [by split|].
  rw Forall_cons -IH. destruct (f x) eqn:?; naive_solver.
Qed.

(** A chain of guards, each of which returns an error, ends without one exactly
    when every guard lets it pass. *)
Lemma guard_None {E} (b : bool) (e : E) (k : option E) :
  (if b then Some e else k) = None ↔ b = false ∧ k = None.
Proof. destruct b; naive_solver. Qed.

Lemma chain_None {E} (m k : option E) :
  match m with Some e => Some e | None => k end = None ↔ m = None ∧ k = None.
Proof. destruct m; naive_solver. Qed.

(** Drop the longest prefix whose elements satisfy [p]. *)
Fixpoint drop_while {A} (p : A → bool) (xs : list A) : list A :=
  match xs with
  | [] => []
  | x :: xs' => if p x then drop_while p xs' else xs
  end.

Definition count_if {A} (p : A → bool) (xs : list A) : nat := length (filter p xs).

Section counting.
Context {A : Type}.
Implicit Types p q : A → bool.

Lemma count_if_nil p : count_if p [] = 0.
Proof. done. Qed.

Lemma count_if_app p xs ys : count_if p (xs ++ ys) = count_if p xs + count_if p ys.
Proof. by rw /count_if filter_app length_app. Qed.

Lemma count_if_cons p x xs :
  count_if p (x :: xs) = (if p x then 1 else 0) + count_if p xs.
Proof. rw /count_if filter_cons. by destruct (p x). Qed.

Lemma count_if_mono p q xs :
  (∀ x, x ∈ xs → p x = true → q x = true) → count_if p xs ≤ count_if q xs.
Proof.
  induction xs as [|x xs IH]; [done|]. intros Hpq. rw !count_if_cons.
  assert (count_if p xs ≤ count_if q xs) by (apply IH; set_solver).
  specialize (Hpq x ltac:(set_solver)). destruct (p x), (q x); simpl in *; naive_solver lia.
Qed.

Lemma count_if_zero p xs : (∀ x, x ∈ xs → p x = false) → count_if p xs = 0.
Proof.
  induction xs as [|x xs IH]; [done|]. intros Hp. rw count_if_cons.
  rw (Hp x) ?IH; set_solver.
Qed.

Lemma count_if_suffix p xs ys :
  (∀ x, x ∈ xs → p x = false) → count_if p (xs ++ ys) = count_if p ys.
Proof. intros H. by rw count_if_app count_if_zero. Qed.

Lemma drop_while_suffix p xs :
  ∃ pre, xs = pre ++ drop_while p xs ∧ Forall (λ x, p x = true) pre.
Proof.
  induction xs as [|x xs (pre & Hx & Hpre)]; [by exists []|]. simpl.
  destruct (p x) eqn:E; [|by exists []].
  exists (x :: pre). split; [by rw {1}Hx|by constructor].
Qed.
End counting.

(** The element [find] returns is the first that satisfies the test. *)
Lemma find_split {A} (p : A → bool) (xs : list A) x :
  List.find p xs = Some x →
  ∃ pre post, xs = pre ++ x :: post ∧ (∀ y, y ∈ pre → p y = false) ∧ p x = true.
Proof.
  induction xs as [|y xs IH]; [done|]. simpl. destruct (p y) eqn:E.
  - intros [= <-]. exists [], xs. split_and!; [done|set_solver|done].
  - intros (pre & post & -> & Hpre & Hx)%IH. exists (y :: pre), post.
    split_and!; [done| |done]. intros z [->|?]%elem_of_cons; eauto.
Qed.

(** ** Tactics *)

(** Split every conjunction and existential of the context. *)
Ltac destruct_hyps := repeat match goal with
  | H : _ ∧ _ |- _ => destruct H
  | H : ∃ _, _ |- _ => destruct H
  end.

(** Case analysis on every [if] and [match] left in the goal. *)
Ltac case_all := repeat (case_match; simplify_eq/=).
