(* ===== verification/GoTime.v ===== *)
(** * Go time, clocks and text

    What the modelled code uses of the Go language and its standard library:
    [time.Time] and [time.Duration], the clock and jitter interfaces, UTF-8
    validity and the size of the JSON text of a string or an integer. *)

From S2P Require Import Prelude.

Local Open Scope Z_scope.
Local Open Scope runstead_scope.

(** ** Instants and durations

    A [time.Time] is the number of nanoseconds since Go's zero time; the zero
    value of the type is [zeroTime].  A [time.Duration] is a signed 64-bit
    number of nanoseconds.  [Time.Sub] saturates, as [time.Time.Sub] does. *)

Abbreviation Time := Z.
Abbreviation Duration := Z.

Definition zeroTime : Time := 0.
Definition IsZero (t : Time) : bool := t =? zeroTime.
Definition After (t u : Time) : bool := u <? t.
Definition Before (t u : Time) : bool := t <? u.
Definition Add (t : Time) (d : Duration) : Time := t + d.

Definition minDuration : Duration := - 2 ^ 63.
Definition maxDuration : Duration := 2 ^ 63 - 1.
Definition Sub (t u : Time) : Duration := Z.max minDuration (Z.min maxDuration (t - u)).

Definition Nanosecond : Duration := 1.
Definition Microsecond : Duration := 1000.
Definition Millisecond : Duration := 1000000.
Definition Second : Duration := 1000000000.
Definition Minute : Duration := 60 * Second.
Definition Hour : Duration := 60 * Minute.

(** Two's-complement wrap-around of a signed 64-bit result. *)
Definition wrap64 (x : Z) : Z := (x + 2 ^ 63) mod 2 ^ 64 - 2 ^ 63.

Lemma wrap64_id x : minDuration ≤ x ≤ maxDuration → wrap64 x = x.
Proof.
  rw /wrap64 /minDuration /maxDuration => H.
  rw Z.mod_small; lia.
Qed.

Section instants.
Implicit Types t u : Time.

Lemma After_spec t u : After t u = true ↔ u < t.
Proof. apply Z.ltb_lt. Qed.
Lemma Before_spec t u : Before t u = true ↔ t < u.
Proof. apply Z.ltb_lt. Qed.
Lemma After_false t u : After t u = false ↔ t ≤ u.
Proof. apply Z.ltb_ge. Qed.
Lemma Before_false t u : Before t u = false ↔ u ≤ t.
Proof. apply Z.ltb_ge. Qed.
Lemma IsZero_spec t : IsZero t = true ↔ t = zeroTime.
Proof. apply Z.eqb_eq. Qed.
Lemma IsZero_false t : IsZero t = false ↔ t ≠ zeroTime.
Proof. apply Z.eqb_neq. Qed.

Lemma Sub_pos t u : 0 < Sub t u ↔ u < t.
Proof. rw /Sub /minDuration /maxDuration. lia. Qed.

Lemma Sub_exact t u : minDuration ≤ t - u ≤ maxDuration → Sub t u = t - u.
Proof. rw /Sub. lia. Qed.
End instants.

(** Turn the boolean tests on instants of the context into inequalities. *)
Ltac time_spec := repeat match goal with
  | H : After _ _ = true |- _ => apply After_spec in H
  | H : After _ _ = false |- _ => apply After_false in H
  | H : Before _ _ = true |- _ => apply Before_spec in H
  | H : Before _ _ = false |- _ => apply Before_false in H
  | H : IsZero _ = true |- _ => apply IsZero_spec in H
  | H : IsZero _ = false |- _ => apply IsZero_false in H
  | H : (_ <? _) = true |- _ => apply Z.ltb_lt in H
  | H : (_ <? _) = false |- _ => apply Z.ltb_ge in H
  | H : (_ <=? _) = true |- _ => apply Z.leb_le in H
  | H : (_ <=? _) = false |- _ => apply Z.leb_gt in H
  | H : (_ =? _) = true |- _ => apply Z.eqb_eq in H
  | H : (_ =? _) = false |- _ => apply Z.eqb_neq in H
  | H : (_ || _)%bool = true |- _ => apply orb_true_iff in H
  | H : (_ || _)%bool = false |- _ => apply orb_false_iff in H; destruct H
  | H : (_ && _)%bool = true |- _ => apply andb_true_iff in H; destruct H
  | H : (_ && _)%bool = false |- _ => apply andb_false_iff in H
  | H : negb _ = true |- _ => apply negb_true_iff in H
  | H : negb _ = false |- _ => apply negb_false_iff in H
  end.

(** ** The clock and jitter interfaces

    The [n]-th reading of the injected clock is [clock n]; every call of
    [Now] consumes one reading.  [jitter n base attempt] is what the injected
    jitter returns when it is asked after [n] readings. *)

Class Env := {
  clock : nat → Time;
  jitter : nat → Duration → Z → Duration
}.

(** Documented behaviour of [time.Now]: readings never go back (they carry a
    monotonic reading) and are later than the zero time. *)
Class MonotoneClock `{Env} : Prop := {
  clock_mono : ∀ i j : nat, (i ≤ j)%nat → clock i ≤ clock j;
  clock_pos : ∀ i : nat, zeroTime < clock i
}.

(** A clock that advances one second per reading from [start], and a jitter
    that adds nothing, for concrete evaluations. *)
Definition steady (start : Time) : Env :=
  {| clock := λ n, start + Z.of_nat n * Second; jitter := λ _ base _, base |}.

Lemma steady_monotone start : zeroTime < start → @MonotoneClock (steady start).
Proof. intros H. split; simpl; rw /Second; lia. Qed.

(** ** UTF-8

    [decode_rune] is [utf8.DecodeRuneInString]: the first rune and the number
    of bytes it takes; an invalid sequence is [RuneError] of size one. *)

Definition RuneError : Z := 65533.

Definition byte_of (c : Ascii.ascii) : Z := Z.of_nat (Ascii.nat_of_ascii c).

Fixpoint bytes_of (s : string) : list Z :=
  match s with
  | EmptyString => []
  | String c s' => byte_of c :: bytes_of s'
  end.

Definition continuation (lo hi b : Z) : bool := (lo <=? b) && (b <=? hi).

Definition decode_rune (bs : list Z) : Z * nat :=
  let cont := continuation 128 191 in
  match bs with
  | [] => (RuneError, 0%nat)
  | b0 :: rest =>
    if b0 <? 128 then (b0, 1%nat)
    else match rest with
    | b1 :: rest1 =>
      if (194 <=? b0) && (b0 <=? 223) && cont b1 then
        (Z.land b0 31 * 64 + Z.land b1 63, 2%nat)
      else match rest1 with
      | b2 :: rest2 =>
        let lo := if b0 =? 224 then 160 else 128 in
        let hi := if b0 =? 237 then 159 else 191 in
        if (224 <=? b0) && (b0 <=? 239) && continuation lo hi b1 && cont b2 then
          (Z.land b0 15 * 4096 + Z.land b1 63 * 64 + Z.land b2 63, 3%nat)
        else match rest2 with
        | b3 :: _ =>
          let lo := if b0 =? 240 then 144 else 128 in
          let hi := if b0 =? 244 then 143 else 191 in
          if (240 <=? b0) && (b0 <=? 244) && continuation lo hi b1 && cont b2 && cont b3 then
            (Z.land b0 7 * 262144 + Z.land b1 63 * 4096 + Z.land b2 63 * 64 + Z.land b3 63, 4%nat)
          else (RuneError, 1%nat)
        | [] => (RuneError, 1%nat)
        end
      | [] => (RuneError, 1%nat)
      end
    | [] => (RuneError, 1%nat)
    end
  end.

(** The runes of a string with the bytes each takes; the fuel is the number of
    bytes, and every rune takes at least one. *)
Fixpoint runes_fuel (fuel : nat) (bs : list Z) : list (Z * nat) :=
  match fuel, bs with
  | S fuel', _ :: _ =>
    let '(r, n) := decode_rune bs in (r, n) :: runes_fuel fuel' (drop n bs)
  | _, _ => []
  end.

Definition runes (s : string) : list (Z * nat) :=
  runes_fuel (length (bytes_of s)) (bytes_of s).

Definition ValidString (s : string) : bool :=
  forallb (λ '(r, n), negb ((r =? RuneError) && (n =? 1)%nat)) (runes s).

Lemma decode_rune_progress b bs : (1 ≤ (decode_rune (b :: bs)).2)%nat.
Proof. rw /decode_rune. repeat case_match; simpl; lia. Qed.

(** ** JSON sizes

    The number of bytes [encoding/json] writes for a string (with HTML
    escaping, as [json.Marshal] does) and for an integer. *)

Definition json_rune_size (r : Z) (n : nat) : Z :=
  if (r =? RuneError) && (n =? 1)%nat then 6
  else if (r =? 34) || (r =? 92) || (r =? 8) || (r =? 9) || (r =? 10) || (r =? 12) || (r =? 13) then 2
  else if (r <? 32) || (r =? 60) || (r =? 62) || (r =? 38) || (r =? 8232) || (r =? 8233) then 6
  else Z.of_nat n.

Definition json_string_size (s : string) : Z :=
  2 + foldr (λ '(r, n) acc, json_rune_size r n + acc) 0 (runes s).

(** Number of decimal digits, by repeated division; 20 digits cover 64 bits. *)
Fixpoint decimal_size (fuel : nat) (z : Z) : Z :=
  match fuel with
  | O => 0
  | S fuel' => if z <? 10 then 1 else 1 + decimal_size fuel' (z / 10)
  end.

Definition json_int_size (z : Z) : Z :=
  if z <? 0 then 1 + decimal_size 20 (- z) else decimal_size 20 z.

Example json_string_size_escapes :
  json_string_size "a<b" = 10 ∧ ValidString "caf" = true.
Proof. by vm_compute. Qed.

(** ** Renderings of an instant

    [Time.Year] and the JSON text of a time depend on the location the value
    carries, which an instant of the model does not: both are parameters.
    [time_json_size t] is [None] when [Time.MarshalJSON] fails. *)

Class Rendering := {
  Year : Time → Z;
  time_json_size : Time → option Z
}.

(** A rendering for concrete evaluations: years of the average length, and the
    text of an instant without a fraction of a second. *)
Definition plain_rendering : Rendering :=
  {| Year := λ t, 1 + t / (31556952 * Second); time_json_size := λ _, Some 22 |}.

(** ** White space

    [unicode.IsSpace], and [blank s] for [strings.TrimSpace s == ""]. *)

Definition is_space (r : Z) : bool :=
  ((9 <=? r) && (r <=? 13)) || (r =? 32) || (r =? 133) || (r =? 160) || (r =? 5760)
  || ((8192 <=? r) && (r <=? 8202)) || (r =? 8232) || (r =? 8233) || (r =? 8239)
  || (r =? 8287) || (r =? 12288).

Definition blank (s : string) : bool := forallb (λ '(r, _), is_space r) (runes s).

Example blank_examples : blank "" = true ∧ blank "  " = true ∧ blank " x " = false.
Proof. by vm_compute. Qed.

(** [strings.TrimSpace], on the runes of the string with their bytes. *)
Fixpoint rune_texts (rs : list (Z * nat)) (s : string) : list (Z * string) :=
  match rs with
  | [] => []
  | (r, n) :: rs' =>
    (r, String.substring 0 n s)
      :: rune_texts rs' (String.substring n (String.length s - n) s)
  end.

Definition TrimSpace (s : string) : string :=
  let space (c : Z * string) := is_space c.1 in
  let kept := List.rev (drop_while space (List.rev (drop_while space (rune_texts (runes s) s)))) in
  String.concat "" (snd <$> kept).

Example TrimSpace_examples : TrimSpace "  a b " = "a b"%string ∧ TrimSpace "   " = ""%string.
Proof. by vm_compute. Qed.
