(* ===== verification/Provider.v ===== *)
(** * The provider-neutral contract (internal/provider)

    Route safety, delivery states, gateway health and the sanitized failure
    taxonomy: the declarations of a provider that the governor relies on. *)

From S2P Require Import Prelude GoTime.

Local Open Scope Z_scope.
Local Open Scope runstead_scope.

(** ** Errors of the package *)

Inductive AttemptReceiptErrorCode :=
  | AttemptReceiptMissing | AttemptReceiptMalformed | AttemptReceiptUnknownVersion
  | AttemptReceiptNotFinalized | AttemptReceiptEmpty | AttemptReceiptTooMany
  | AttemptReceiptTooLarge | AttemptReceiptInvalidField | AttemptReceiptDuplicateID
  | AttemptReceiptSequence | AttemptReceiptCorrelation | AttemptReceiptRouteMismatch
  | AttemptReceiptTimestamp | AttemptReceiptUnknownOutcome | AttemptReceiptUnknownTrigger
  | AttemptReceiptTriggerMismatch | AttemptReceiptAmplification.

#[export] Instance AttemptReceiptErrorCode_eq_dec : EqDecision AttemptReceiptErrorCode.
Proof. solve_decision. Defined.

(** [ErrUnsafeRoute] is wrapped with the reason the route was refused. *)
Inductive ProviderError :=
  | ErrUnsafeRoute (reason : string)
  | ErrGatewayContractUnhealthy
  | ErrInvalidAttemptReceipts
  | AttemptReceiptError (code : AttemptReceiptErrorCode).

#[export] Instance ProviderError_eq_dec : EqDecision ProviderError.
Proof. solve_decision. Defined.

(** [errors.Is err ErrInvalidAttemptReceipts]: [AttemptReceiptError] unwraps to it. *)
Definition is_invalid_receipts (e : ProviderError) : bool :=
  match e with ErrInvalidAttemptReceipts | AttemptReceiptError _ => true | _ => false end.

(** ** Gateway contract health *)

Inductive GatewayContractHealth :=
  | GatewayContractHealthUnknown | GatewayContractHealthHealthy
  | GatewayContractHealthDegraded | GatewayContractHealthProtocolChanged.

#[export] Instance GatewayContractHealth_eq_dec : EqDecision GatewayContractHealth.
Proof. solve_decision. Defined.

Record GatewayContractHealthResult := {
  gch_State : GatewayContractHealth;
  gch_ReasonCode : string;
  gch_Endpoint : string;
  gch_CheckedAt : Time
}.

Definition Healthy (r : GatewayContractHealthResult) : bool :=
  bool_decide (gch_State r = GatewayContractHealthHealthy).

(** ** Route safety *)

Inductive SingleAttemptGuarantee := SingleAttemptUnknown | SingleAttemptGuaranteed.

Inductive AmplificationStatus :=
  | AmplificationUnknown | AmplificationDisabled | AmplificationEnabled.

Inductive AttemptAccounting :=
  | AttemptAccountingUnknown | AttemptAccountingSingle | AttemptAccountingReceipts.

#[export] Instance SingleAttemptGuarantee_eq_dec : EqDecision SingleAttemptGuarantee.
Proof. solve_decision. Defined.
#[export] Instance AmplificationStatus_eq_dec : EqDecision AmplificationStatus.
Proof. solve_decision. Defined.
#[export] Instance AttemptAccounting_eq_dec : EqDecision AttemptAccounting.
Proof. solve_decision. Defined.

Record RouteSafety := {
  rs_AttemptAccounting : AttemptAccounting;
  rs_SingleAttempt : SingleAttemptGuarantee;
  rs_InternalRetries : AmplificationStatus;
  rs_CooldownReplay : AmplificationStatus;
  rs_AccountPooling : AmplificationStatus;
  rs_AutomaticFallback : AmplificationStatus;
  rs_ComboRouting : AmplificationStatus
}.

#[export] Instance RouteSafety_eq_dec : EqDecision RouteSafety.
Proof. solve_decision. Defined.

Definition SafeRouteSafety : RouteSafety := {|
  rs_AttemptAccounting := AttemptAccountingSingle;
  rs_SingleAttempt := SingleAttemptGuaranteed;
  rs_InternalRetries := AmplificationDisabled;
  rs_CooldownReplay := AmplificationDisabled;
  rs_AccountPooling := AmplificationDisabled;
  rs_AutomaticFallback := AmplificationDisabled;
  rs_ComboRouting := AmplificationDisabled
|}.

Definition ReceiptRouteSafety : RouteSafety := {|
  rs_AttemptAccounting := AttemptAccountingReceipts;
  rs_SingleAttempt := SingleAttemptUnknown;
  rs_InternalRetries := AmplificationDisabled;
  rs_CooldownReplay := AmplificationDisabled;
  rs_AccountPooling := AmplificationDisabled;
  rs_AutomaticFallback := AmplificationDisabled;
  rs_ComboRouting := AmplificationDisabled
|}.

(** The map literal of amplification switches that [Validate] ranges over. *)
Definition amplification_switches (s : RouteSafety) : gmap string AmplificationStatus :=
  list_to_map [
    ("internal retries"%string, rs_InternalRetries s);
    ("cooldown replay"%string, rs_CooldownReplay s);
    ("account pooling"%string, rs_AccountPooling s);
    ("automatic fallback"%string, rs_AutomaticFallback s);
    ("combo routing"%string, rs_ComboRouting s)].

Section route.
Context `{MapOrder}.

Definition RouteSafety_Validate (s : RouteSafety) : option ProviderError :=
  match rs_AttemptAccounting s with
  | AttemptAccountingSingle =>
    if negb (bool_decide (rs_SingleAttempt s = SingleAttemptGuaranteed)) then
      Some (ErrUnsafeRoute "single-attempt guarantee is unknown")
    else
      first_error (λ '(name, value),
        if bool_decide (value = AmplificationDisabled) then None
        else Some (ErrUnsafeRoute (name +:+ " is not explicitly disabled")))
        (range (amplification_switches s))
  | AttemptAccountingReceipts =>
    if negb (bool_decide (rs_SingleAttempt s = SingleAttemptUnknown)) then
      Some (ErrUnsafeRoute "receipt-aware route must not claim single-attempt execution")
    else
      first_error (λ '(name, value),
        if bool_decide (value = AmplificationDisabled) then None
        else Some (ErrUnsafeRoute ("M1 receipt route cannot amplify through " +:+ name)))
        (range (amplification_switches s))
  | AttemptAccountingUnknown => Some (ErrUnsafeRoute "attempt accounting mode is unknown")
  end.

Definition RouteSafety_Equal (s other : RouteSafety) : bool := bool_decide (s = other).
End route.

(** ** Delivery evidence *)

(** The byte a [DeliveryState] is: zero is unobserved and bytes above five are
    invalid values of the Go type. *)
Inductive DeliveryState :=
  | DeliveryUnobserved
  | DeliveryNotSent | DeliverySentConfirmed | DeliverySentUnconfirmed
  | DeliveryResponseStarted | DeliveryCompleted
  | DeliveryInvalid (byte : Z).

#[export] Instance DeliveryState_eq_dec : EqDecision DeliveryState.
Proof. solve_decision. Defined.

Definition DeliveryState_Valid (s : DeliveryState) : bool :=
  match s with
  | DeliveryUnobserved | DeliveryInvalid _ => false
  | _ => true
  end.

Definition DeliveryState_String (s : DeliveryState) : string :=
  match s with
  | DeliveryNotSent => "not_sent"
  | DeliverySentConfirmed => "sent_confirmed"
  | DeliverySentUnconfirmed => "sent_unconfirmed"
  | DeliveryResponseStarted => "response_started"
  | DeliveryCompleted => "completed"
  | _ => "unobserved"
  end.

Definition ReplaySafe (s : DeliveryState) : bool := bool_decide (s = DeliveryNotSent).

(** ** The failure taxonomy of the adapters *)

Inductive ProviderFailureClass :=
  | FailureNone
  | FailureConfigRefused | FailureAuthUnavailable | FailureAuthenticationDenied
  | FailurePermissionDenied | FailureRateCapacity | FailureTimeout | FailureCancelled
  | FailureMalformedResponse | FailureInvalidEnvelope | FailureEmptyResponse
  | FailureUnsupportedResponseFormat | FailureIncompleteCompletion | FailureRefusal
  | FailureResponseTooLarge | FailureRequestTooLarge | FailureUpstreamServer
  | FailureUpstreamHTTP | FailureUnsafeRedirect | FailureTransport
  | FailureResponseFailed | FailureResponseIncomplete | FailureStreamIncomplete
  | FailureSubscriptionUserNotEligible | FailureSubscriptionUsageLimitExceeded
  | FailureSubscriptionUsageUnavailable | FailureSubscriptionUnsupportedCapability
  | FailureSubscriptionRouteNotSupported | FailureSubscriptionInvalidUser
  | FailureSubscriptionUserUnavailable | FailureChatGPTScopeNotAuthorized
  | FailureChatGPTInvalidAuthorizationContext.

#[export] Instance ProviderFailureClass_eq_dec : EqDecision ProviderFailureClass.
Proof. solve_decision. Defined.

(** The documented vocabulary: every class with the string it is. *)
Definition failure_vocabulary : list (string * ProviderFailureClass) := [
  ("config_refused", FailureConfigRefused);
  ("auth_unavailable", FailureAuthUnavailable);
  ("authentication_denied", FailureAuthenticationDenied);
  ("permission_denied", FailurePermissionDenied);
  ("rate_or_capacity", FailureRateCapacity);
  ("timeout", FailureTimeout);
  ("cancelled", FailureCancelled);
  ("malformed_response", FailureMalformedResponse);
  ("invalid_envelope", FailureInvalidEnvelope);
  ("empty_response", FailureEmptyResponse);
  ("unsupported_response_format", FailureUnsupportedResponseFormat);
  ("incomplete_completion", FailureIncompleteCompletion);
  ("refusal", FailureRefusal);
  ("response_too_large", FailureResponseTooLarge);
  ("request_too_large", FailureRequestTooLarge);
  ("upstream_server_failure", FailureUpstreamServer);
  ("upstream_http_failure", FailureUpstreamHTTP);
  ("unsafe_redirect", FailureUnsafeRedirect);
  ("transport", FailureTransport);
  ("response_failed", FailureResponseFailed);
  ("response_incomplete", FailureResponseIncomplete);
  ("stream_incomplete", FailureStreamIncomplete);
  ("subscription_sharing_user_not_eligible", FailureSubscriptionUserNotEligible);
  ("subscription_sharing_usage_limit_exceeded", FailureSubscriptionUsageLimitExceeded);
  ("subscription_sharing_usage_unavailable", FailureSubscriptionUsageUnavailable);
  ("subscription_sharing_unsupported_capability", FailureSubscriptionUnsupportedCapability);
  ("subscription_sharing_route_not_supported", FailureSubscriptionRouteNotSupported);
  ("subscription_sharing_invalid_user", FailureSubscriptionInvalidUser);
  ("subscription_sharing_user_unavailable", FailureSubscriptionUserUnavailable);
  ("chatpass_v2_scope_not_authorized", FailureChatGPTScopeNotAuthorized);
  ("chatpass_v2_invalid_authorization_context", FailureChatGPTInvalidAuthorizationContext)
]%string.

(** [Valid] is the membership test of the vocabulary. *)
Definition ProviderFailureClass_Valid (value : string) : bool :=
  existsb (λ '(s, _), String.eqb s value) failure_vocabulary.

Definition ParseProviderFailureClass (value : string) : ProviderFailureClass :=
  match List.find (λ '(s, _), String.eqb s value) failure_vocabulary with
  | Some (_, class) => class
  | None => FailureNone
  end.

Definition ProviderFailureClass_String (c : ProviderFailureClass) : string :=
  match List.find (λ '(_, d), bool_decide (d = c)) failure_vocabulary with
  | Some (s, _) => s
  | None => ""
  end.

(** ** Lemmas *)

Section route_lemmas.
Context `{MapOrder}.

Definition all_disabled (s : RouteSafety) : Prop :=
  rs_InternalRetries s = AmplificationDisabled ∧
  rs_CooldownReplay s = AmplificationDisabled ∧
  rs_AccountPooling s = AmplificationDisabled ∧
  rs_AutomaticFallback s = AmplificationDisabled ∧
  rs_ComboRouting s = AmplificationDisabled.

Lemma switches_error_free (f : string → ProviderError) (s : RouteSafety) :
  first_error (λ '(name, value),
    if bool_decide (value = AmplificationDisabled) then None else Some (f name))
    (range (amplification_switches s)) = None ↔ all_disabled s.
Proof.
  rw first_error_None range_perm /amplification_switches map_to_list_to_map.
  { apply (bool_decide_unpack _). by vm_compute. }
  rw !Forall_cons /all_disabled. repeat case_bool_decide; naive_solver.
Qed.
End route_lemmas.
