(* ===== verification/Receipts.v ===== *)
(** * Attempt receipts (internal/provider/attempt_receipts.go)

    The authoritative evidence of the upstream attempts behind one protected
    completion, and the structural validation every set must pass before the
    governor debits it. *)

From S2P Require Import Prelude GoTime Provider.

Local Open Scope Z_scope.
Local Open Scope runstead_scope.

Definition AttemptReceiptSchemaVersion : Z := 1.
Definition MaxAttemptReceipts : nat := 16.
Definition MaxAttemptReceiptSerializedBytes : Z := 8192.
Definition MaxAttemptReceiptIdentifierBytes : nat := 256.
Definition MaxAttemptReceiptDuration : Duration := 24 * Hour.
Definition MaxAttemptReceiptClockSkew : Duration := 5 * Minute.

Inductive AttemptTrigger :=
  | AttemptTriggerInitial | AttemptTriggerExecutorRetry | AttemptTriggerCredentialRefresh
  | AttemptTriggerFallback | AttemptTriggerCombo | AttemptTriggerCooldownReplay
  | AttemptTriggerOther (s : string).

#[export] Instance AttemptTrigger_eq_dec : EqDecision AttemptTrigger.
Proof. solve_decision. Defined.

Definition AttemptTrigger_String (t : AttemptTrigger) : string :=
  match t with
  | AttemptTriggerInitial => "initial"
  | AttemptTriggerExecutorRetry => "executor_retry"
  | AttemptTriggerCredentialRefresh => "credential_refresh"
  | AttemptTriggerFallback => "fallback"
  | AttemptTriggerCombo => "combo"
  | AttemptTriggerCooldownReplay => "cooldown_replay"
  | AttemptTriggerOther s => s
  end.

Inductive AttemptOutcome :=
  | AttemptOutcomeSuccess | AttemptOutcomeError | AttemptOutcomeHTTPError
  | AttemptOutcomeTransportError | AttemptOutcomeRateCapacity
  | AttemptOutcomeAuthenticationExpired | AttemptOutcomeAuthenticationDenied
  | AttemptOutcomeHTTP403 | AttemptOutcomeLoginChallenge | AttemptOutcomeCAPTCHA
  | AttemptOutcomeSuspiciousActivity | AttemptOutcomeAccountWarning
  | AttemptOutcomeFeatureRestriction | AttemptOutcomeConnectionReset
  | AttemptOutcomeTimeout | AttemptOutcomeEmptyResponse | AttemptOutcomeMalformedUpstream
  | AttemptOutcomeUpstreamServerFailure | AttemptOutcomeCancelled | AttemptOutcomeUncertain
  | AttemptOutcomeOther (s : string).

#[export] Instance AttemptOutcome_eq_dec : EqDecision AttemptOutcome.
Proof. solve_decision. Defined.

Definition AttemptOutcome_String (o : AttemptOutcome) : string :=
  match o with
  | AttemptOutcomeSuccess => "success"
  | AttemptOutcomeError => "error"
  | AttemptOutcomeHTTPError => "http_error"
  | AttemptOutcomeTransportError => "transport_error"
  | AttemptOutcomeRateCapacity => "rate_or_capacity"
  | AttemptOutcomeAuthenticationExpired => "authentication_expired"
  | AttemptOutcomeAuthenticationDenied => "authentication_denied"
  | AttemptOutcomeHTTP403 => "http_403"
  | AttemptOutcomeLoginChallenge => "login_challenge"
  | AttemptOutcomeCAPTCHA => "captcha"
  | AttemptOutcomeSuspiciousActivity => "suspicious_activity"
  | AttemptOutcomeAccountWarning => "account_warning"
  | AttemptOutcomeFeatureRestriction => "feature_restriction"
  | AttemptOutcomeConnectionReset => "connection_reset"
  | AttemptOutcomeTimeout => "timeout"
  | AttemptOutcomeEmptyResponse => "empty_response"
  | AttemptOutcomeMalformedUpstream => "malformed_upstream_response"
  | AttemptOutcomeUpstreamServerFailure => "upstream_server_failure"
  | AttemptOutcomeCancelled => "cancelled"
  | AttemptOutcomeUncertain => "uncertain"
  | AttemptOutcomeOther s => s
  end.

Record AttemptReceipt := {
  rc_SchemaVersion : Z;
  rc_AttemptID : string;
  rc_ClientRequestID : string;
  rc_Sequence : Z;
  rc_Provider : string;
  rc_Model : string;
  rc_AccountLaneHash : string;
  rc_StartedAt : Time;
  rc_CompletedAt : Time;
  rc_Outcome : AttemptOutcome;
  rc_Trigger : AttemptTrigger;
  rc_UpstreamReached : bool
}.

Record AttemptReceiptSet := {
  rset_SchemaVersion : Z;
  rset_ClientRequestID : string;
  rset_Finalized : bool;
  rset_Receipts : list AttemptReceipt
}.

Record AttemptReceiptExpectation := {
  ex_ClientRequestID : string;
  ex_Provider : string;
  ex_Model : string;
  ex_AccountLaneHash : string;
  ex_RequestStartedAt : Time;
  ex_RequestCompletedAt : Time;
  ex_SingleAttempt : bool;
  ex_Now : Time
}.

#[export] Instance eta_Expectation : Settable AttemptReceiptExpectation := λ r,
  Build_AttemptReceiptExpectation (ex_ClientRequestID r) (ex_Provider r) (ex_Model r)
    (ex_AccountLaneHash r) (ex_RequestStartedAt r) (ex_RequestCompletedAt r)
    (ex_SingleAttempt r) (ex_Now r).

Definition receiptError (code : AttemptReceiptErrorCode) : option ProviderError :=
  Some (AttemptReceiptError code).

(** ** Field validation *)

Definition validateIdentifier (value : string) : option ProviderError :=
  if (String.eqb value "") || (MaxAttemptReceiptIdentifierBytes <? String.length value)%nat
     || negb (ValidString value)
  then receiptError AttemptReceiptInvalidField
  else if existsb (λ '(char, _), (char <? 32) || (char =? 127)) (runes value)
  then receiptError AttemptReceiptInvalidField
  else None.

Definition validOutcome (outcome : AttemptOutcome) : bool :=
  match outcome with AttemptOutcomeOther _ => false | _ => true end.

Definition validTrigger (trigger : AttemptTrigger) : bool :=
  match trigger with AttemptTriggerOther _ => false | _ => true end.

Section validate.
Context `{Rendering}.

Definition validateTimestamps (started completed : Time)
    (expected : AttemptReceiptExpectation) : option ProviderError :=
  if IsZero started || IsZero completed || Before completed started
     || (MaxAttemptReceiptDuration <? Sub completed started)
  then receiptError AttemptReceiptTimestamp
  else if (Year started <? 2000) || (Year completed <? 2000)
  then receiptError AttemptReceiptTimestamp
  else if negb (IsZero (ex_RequestStartedAt expected))
     && Before started (Add (ex_RequestStartedAt expected) (- MaxAttemptReceiptClockSkew))
  then receiptError AttemptReceiptTimestamp
  else
    let latest := Add (ex_RequestCompletedAt expected) MaxAttemptReceiptClockSkew in
    if negb (IsZero (ex_RequestCompletedAt expected))
       && (After started latest || After completed latest)
    then receiptError AttemptReceiptTimestamp
    else if negb (IsZero (ex_Now expected))
       && (Before started (Add (ex_Now expected) (- MaxAttemptReceiptDuration))
           || Before completed (Add (ex_Now expected) (- MaxAttemptReceiptDuration))
           || After started (Add (ex_Now expected) MaxAttemptReceiptDuration)
           || After completed (Add (ex_Now expected) MaxAttemptReceiptDuration))
    then receiptError AttemptReceiptTimestamp
    else None.

(** The loop over the receipts: [index] counts from zero, [seen] holds the
    attempt ids met so far and [prev] the previous receipt. *)
Definition receipt_check (cid : string) (expected : AttemptReceiptExpectation)
    (index : nat) (seen : list string) (prev : option AttemptReceipt)
    (receipt : AttemptReceipt) : option ProviderError :=
  if negb (rc_SchemaVersion receipt =? AttemptReceiptSchemaVersion)
  then receiptError AttemptReceiptUnknownVersion else
  match validateIdentifier (rc_AttemptID receipt) with Some e => Some e | None =>
  if bool_decide (rc_AttemptID receipt ∈ seen)
  then receiptError AttemptReceiptDuplicateID else
  if negb (String.eqb (rc_ClientRequestID receipt) cid)
  then receiptError AttemptReceiptCorrelation else
  if negb (rc_UpstreamReached receipt)
  then receiptError AttemptReceiptInvalidField else
  if negb (rc_Sequence receipt =? Z.of_nat index + 1)
  then receiptError AttemptReceiptSequence else
  match validateIdentifier (rc_Provider receipt) with Some e => Some e | None =>
  match validateIdentifier (rc_Model receipt) with Some e => Some e | None =>
  match validateIdentifier (rc_AccountLaneHash receipt) with Some e => Some e | None =>
  if negb (String.eqb (ex_Provider expected) "")
     && negb (String.eqb (rc_Provider receipt) (ex_Provider expected))
  then receiptError AttemptReceiptRouteMismatch else
  if negb (String.eqb (ex_Model expected) "")
     && negb (String.eqb (rc_Model receipt) (ex_Model expected))
  then receiptError AttemptReceiptRouteMismatch else
  if negb (String.eqb (ex_AccountLaneHash expected) "")
     && negb (String.eqb (rc_AccountLaneHash receipt) (ex_AccountLaneHash expected))
  then receiptError AttemptReceiptRouteMismatch else
  if negb (validOutcome (rc_Outcome receipt))
  then receiptError AttemptReceiptUnknownOutcome else
  if negb (validTrigger (rc_Trigger receipt))
  then receiptError AttemptReceiptUnknownTrigger else
  if ((index =? 0)%nat && negb (bool_decide (rc_Trigger receipt = AttemptTriggerInitial)))
     || (negb (index =? 0)%nat && bool_decide (rc_Trigger receipt = AttemptTriggerInitial))
  then receiptError AttemptReceiptTriggerMismatch else
  if ex_SingleAttempt expected
     && negb (bool_decide (rc_Trigger receipt = AttemptTriggerInitial))
  then receiptError AttemptReceiptTriggerMismatch else
  match validateTimestamps (rc_StartedAt receipt) (rc_CompletedAt receipt) expected with
  | Some e => Some e
  | None =>
    match prev with
    | Some p =>
      if Before (rc_StartedAt receipt) (rc_CompletedAt p)
      then receiptError AttemptReceiptTimestamp else None
    | None => None
    end
  end end end end end.

Fixpoint receipts_check (cid : string) (expected : AttemptReceiptExpectation)
    (index : nat) (seen : list string) (prev : option AttemptReceipt)
    (receipts : list AttemptReceipt) : option ProviderError :=
  match receipts with
  | [] => None
  | receipt :: rest =>
    match receipt_check cid expected index seen prev receipt with
    | Some e => Some e
    | None =>
      receipts_check cid expected (S index) (rc_AttemptID receipt :: seen) (Some receipt) rest
    end
  end.

(** *** The size of [json.Marshal] of a set; [None] when it fails *)

Definition object_size (fields : list (string * Z)) : Z :=
  1 + Z.of_nat (length fields)
  + foldr (λ '(key, size) acc, json_string_size key + 1 + size + acc) 0 fields.

Definition json_bool_size (b : bool) : Z := if b then 4 else 5.

Definition receipt_json_size (r : AttemptReceipt) : option Z :=
  started ← time_json_size (rc_StartedAt r);
  completed ← time_json_size (rc_CompletedAt r);
  Some (object_size [
    ("schema_version"%string, json_int_size (rc_SchemaVersion r));
    ("attempt_id"%string, json_string_size (rc_AttemptID r));
    ("client_request_id"%string, json_string_size (rc_ClientRequestID r));
    ("sequence"%string, json_int_size (rc_Sequence r));
    ("provider"%string, json_string_size (rc_Provider r));
    ("model"%string, json_string_size (rc_Model r));
    ("account_lane_hash"%string, json_string_size (rc_AccountLaneHash r));
    ("started_at"%string, started);
    ("completed_at"%string, completed);
    ("outcome"%string, json_string_size (AttemptOutcome_String (rc_Outcome r)));
    ("trigger"%string, json_string_size (AttemptTrigger_String (rc_Trigger r)));
    ("upstream_reached"%string, json_bool_size (rc_UpstreamReached r))]).

Definition receipts_json_size (rs : list AttemptReceipt) : option Z :=
  sizes ← mapM receipt_json_size rs;
  Some (1 + Z.of_nat (length sizes) + foldr Z.add 0 sizes).

Definition set_json_size (set : AttemptReceiptSet) : option Z :=
  receipts ← receipts_json_size (rset_Receipts set);
  Some (object_size [
    ("schema_version"%string, json_int_size (rset_SchemaVersion set));
    ("client_request_id"%string, json_string_size (rset_ClientRequestID set));
    ("finalized"%string, json_bool_size (rset_Finalized set));
    ("receipts"%string, receipts)]).

Definition ValidateAttemptReceiptSet (set : AttemptReceiptSet)
    (expected : AttemptReceiptExpectation) : option ProviderError :=
  if negb (rset_SchemaVersion set =? AttemptReceiptSchemaVersion)
  then receiptError AttemptReceiptUnknownVersion else
  if negb (rset_Finalized set) then receiptError AttemptReceiptNotFinalized else
  if (length (rset_Receipts set) =? 0)%nat then receiptError AttemptReceiptEmpty else
  if (MaxAttemptReceipts <? length (rset_Receipts set))%nat
  then receiptError AttemptReceiptTooMany else
  match validateIdentifier (rset_ClientRequestID set) with Some e => Some e | None =>
  if negb (String.eqb (ex_ClientRequestID expected) "")
     && negb (String.eqb (rset_ClientRequestID set) (ex_ClientRequestID expected))
  then receiptError AttemptReceiptCorrelation else
  if ex_SingleAttempt expected && negb (length (rset_Receipts set) =? 1)%nat
  then receiptError AttemptReceiptAmplification else
  match receipts_check (rset_ClientRequestID set) expected 0 [] None (rset_Receipts set) with
  | Some e => Some e
  | None =>
    match set_json_size set with
    | Some size =>
      if MaxAttemptReceiptSerializedBytes <? size
      then receiptError AttemptReceiptTooLarge else None
    | None => receiptError AttemptReceiptTooLarge
    end
  end end.
End validate.

Definition ContainsUncertain (s : AttemptReceiptSet) : bool :=
  existsb (λ receipt,
    match rc_Outcome receipt with
    | AttemptOutcomeError | AttemptOutcomeHTTPError | AttemptOutcomeTransportError
    | AttemptOutcomeConnectionReset | AttemptOutcomeTimeout | AttemptOutcomeCancelled
    | AttemptOutcomeUncertain => true
    | _ => false
    end) (rset_Receipts s).

(** ** What a valid set is *)

Definition identifier_ok (value : string) : Prop :=
  value ≠ "" ∧ (String.length value ≤ MaxAttemptReceiptIdentifierBytes)%nat
  ∧ ValidString value = true
  ∧ ∀ char n, (char, n) ∈ runes value → 32 ≤ char ∧ char ≠ 127.

(** A field of the expectation constrains the receipt only when it is set. *)
Definition matches (expected actual : string) : Prop := expected = "" ∨ actual = expected.

Section spec.
Context `{Rendering}.

Definition timestamps_ok (started completed : Time) (ex : AttemptReceiptExpectation) : Prop :=
  started ≠ zeroTime ∧ completed ≠ zeroTime ∧ started ≤ completed
  ∧ Sub completed started ≤ MaxAttemptReceiptDuration
  ∧ 2000 ≤ Year started ∧ 2000 ≤ Year completed
  ∧ (ex_RequestStartedAt ex ≠ zeroTime →
     ex_RequestStartedAt ex - MaxAttemptReceiptClockSkew ≤ started)
  ∧ (ex_RequestCompletedAt ex ≠ zeroTime →
     completed ≤ ex_RequestCompletedAt ex + MaxAttemptReceiptClockSkew)
  ∧ (ex_Now ex ≠ zeroTime →
     ex_Now ex - MaxAttemptReceiptDuration ≤ started
     ∧ completed ≤ ex_Now ex + MaxAttemptReceiptDuration).

Record receipt_ok (cid : string) (ex : AttemptReceiptExpectation) (i : nat)
    (r : AttemptReceipt) : Prop := {
  ok_schema : rc_SchemaVersion r = AttemptReceiptSchemaVersion;
  ok_id : identifier_ok (rc_AttemptID r);
  ok_cid : rc_ClientRequestID r = cid;
  ok_reached : rc_UpstreamReached r = true;
  ok_sequence : rc_Sequence r = Z.of_nat i + 1;
  ok_provider_id : identifier_ok (rc_Provider r);
  ok_model_id : identifier_ok (rc_Model r);
  ok_lane_id : identifier_ok (rc_AccountLaneHash r);
  ok_provider : matches (ex_Provider ex) (rc_Provider r);
  ok_model : matches (ex_Model ex) (rc_Model r);
  ok_lane : matches (ex_AccountLaneHash ex) (rc_AccountLaneHash r);
  ok_outcome : validOutcome (rc_Outcome r) = true;
  ok_trigger : validTrigger (rc_Trigger r) = true;
  ok_initial : rc_Trigger r = AttemptTriggerInitial ↔ i = 0%nat;
  ok_times : timestamps_ok (rc_StartedAt r) (rc_CompletedAt r) ex
}.

(** The abstract contract of a receipt set: every receipt is well formed in
    its position, ids do not repeat and the attempts do not overlap. *)
Record receipt_set_ok (set : AttemptReceiptSet) (ex : AttemptReceiptExpectation) : Prop := {
  set_schema : rset_SchemaVersion set = AttemptReceiptSchemaVersion;
  set_final : rset_Finalized set = true;
  set_count : (1 ≤ length (rset_Receipts set) ≤ MaxAttemptReceipts)%nat;
  set_id : identifier_ok (rset_ClientRequestID set);
  set_correlates : matches (ex_ClientRequestID ex) (rset_ClientRequestID set);
  set_single : ex_SingleAttempt ex = true → length (rset_Receipts set) = 1%nat;
  set_each : ∀ i r, rset_Receipts set !! i = Some r →
    receipt_ok (rset_ClientRequestID set) ex i r;
  set_ids : NoDup (rc_AttemptID <$> rset_Receipts set);
  set_serial : ∀ i r r', rset_Receipts set !! i = Some r → rset_Receipts set !! S i = Some r' →
    rc_CompletedAt r ≤ rc_StartedAt r';
  set_size : ∃ n, set_json_size set = Some n ∧ n ≤ MaxAttemptReceiptSerializedBytes
}.

Lemma validateIdentifier_None value : validateIdentifier value = None ↔ identifier_ok value.
Proof.
  rw /validateIdentifier /receiptError !guard_None !orb_false_iff negb_false_iff.
  rw String.eqb_neq Nat.ltb_ge /identifier_ok.
  enough (existsb (λ '(char, _), (char <? 32) || (char =? 127)) (runes value) = false ↔
    ∀ char n, (char, n) ∈ runes value → 32 ≤ char ∧ char ≠ 127) by naive_solver.
  induction (runes value) as [|[c n] l IH]; simpl.
  { split; [set_solver|done]. }
  rw !orb_false_iff IH Z.ltb_ge Z.eqb_neq. split.
  - intros [[??] Hl] c' n' [[= -> ->]|?]%elem_of_cons; eauto.
  - intros Hl. split; [apply (Hl c n)|intros c' n' ?; apply (Hl c' n')]; set_solver.
Qed.

Lemma validateTimestamps_None s c ex :
  validateTimestamps s c ex = None ↔ timestamps_ok s c ex.
Proof.
  rw /validateTimestamps /receiptError !guard_None /timestamps_ok.
  rw /IsZero /Before /After /Add /zeroTime /MaxAttemptReceiptClockSkew.
  rw !orb_false_iff !andb_false_iff !negb_false_iff !orb_false_iff.
  rw !Z.eqb_eq !Z.eqb_neq !Z.ltb_ge.
  split; intros; split_and!; try done; lia.
Qed.

Lemma matches_bool expected actual :
  negb (String.eqb expected "") && negb (String.eqb actual expected) = false
  ↔ matches expected actual.
Proof.
  rw andb_false_iff !negb_false_iff !String.eqb_eq. done.
Qed.

Lemma receipt_check_None cid ex i seen prev r :
  (ex_SingleAttempt ex = true → i = 0%nat) →
  (receipt_check cid ex i seen prev r = None) ↔
    receipt_ok cid ex i r ∧ (rc_AttemptID r ∉ seen)
    ∧ (∀ p, prev = Some p → rc_CompletedAt p ≤ rc_StartedAt r).
Proof.
  intros Hsingle.
  assert (Hprev : match prev with
    | Some p => if Before (rc_StartedAt r) (rc_CompletedAt p)
                then receiptError AttemptReceiptTimestamp else None
    | None => None end = None ↔ ∀ p, prev = Some p → rc_CompletedAt p ≤ rc_StartedAt r).
  { destruct prev as [p|]; [|naive_solver].
    rw /receiptError guard_None Before_false. naive_solver. }
  rw /receiptError in Hprev.
  unfold receipt_check, receiptError.
  rw !(validateIdentifier_None, validateTimestamps_None, matches_bool, guard_None, chain_None).
  rw Hprev.
  rw !negb_false_iff !orb_false_iff !andb_false_iff !negb_false_iff.
  rw !Z.eqb_eq !String.eqb_eq !bool_decide_eq_false !bool_decide_eq_true.
  rw !Nat.eqb_eq !Nat.eqb_neq.
  split.
  - intros H'. destruct_and! H'. split_and!; [constructor; try done|done|done].
    clear Hprev Hsingle. tauto.
  - intros [Hok [Hid Hp]]. pose proof (ok_initial _ _ _ _ Hok) as Hin. destruct Hok.
    split_and!; try done; clear -Hin Hsingle;
      destruct (ex_SingleAttempt ex), (decide (i = 0%nat)); naive_solver.
Qed.

Lemma receipts_check_None cid ex rs : ∀ i seen prev,
  (ex_SingleAttempt ex = true → i = 0%nat ∧ (length rs ≤ 1)%nat) →
  (receipts_check cid ex i seen prev rs = None) ↔
    (∀ j r, rs !! j = Some r → receipt_ok cid ex (i + j) r)
    ∧ (∀ j r, rs !! j = Some r → rc_AttemptID r ∉ seen)
    ∧ NoDup (rc_AttemptID <$> rs)
    ∧ (∀ p r, prev = Some p → rs !! 0%nat = Some r → rc_CompletedAt p ≤ rc_StartedAt r)
    ∧ (∀ j r r', rs !! j = Some r → rs !! S j = Some r' → rc_CompletedAt r ≤ rc_StartedAt r').
Proof.
  induction rs as [|r rs IH]; intros i seen prev Hsingle; simpl.
  { split; [|done]. intros _. split_and!; try done. constructor. }
  rw chain_None receipt_check_None; [naive_solver|].
  destruct (decide (ex_SingleAttempt ex = true)) as [Hs|Hs].
  { destruct (Hsingle Hs) as [-> Hlen]. simpl in Hlen.
    destruct rs; [|simpl in *; lia]. simpl. split.
    - intros [(? & ? & ?) _]. split_and!.
      + intros [|j] ? [=]; by subst.
      + intros [|j] ? [=]; by subst.
      + constructor; [set_solver|constructor].
      + intros p ? -> [=<-]. eauto.
      + intros [|j] ? ? ? [=].
    - intros (Hok & Hseen & _ & Hp & _). split; [|done]. split_and!.
      + apply (Hok 0%nat). done.
      + by apply (Hseen 0%nat).
      + eauto. }
  rw IH; [done|]. split.
  - intros [(Hok & Hid & Hp) (Hoks & Hids & Hnd & H0 & Hch)]. split_and!.
    + intros [|j] r' Hj; simplify_eq/=; [by rw Nat.add_0_r|].
      rw -Nat.add_succ_comm. eauto.
    + intros [|j] r' Hj; simplify_eq/=; [done|]. specialize (Hids _ _ Hj). set_solver.
    + constructor; [|done]. intros (r' & Heq & Hin)%list_elem_of_fmap.
      apply list_elem_of_lookup in Hin as [j Hj]. specialize (Hids _ _ Hj). set_solver.
    + intros p r' -> [=<-]. eauto.
    + intros [|j] r1 r2 H1 H2; simplify_eq/=; eauto.
  - intros (Hoks & Hids & Hnd & H0 & Hch). inversion Hnd as [|?? Hnin Hnd']; subst.
    split_and!.
    + specialize (Hoks 0%nat r eq_refl). by rw Nat.add_0_r in Hoks.
    + by apply (Hids 0%nat).
    + intros p ->. eauto.
    + intros j r' Hj. rw Nat.add_succ_comm. eauto.
    + intros j r' Hj [Heq|Hin]%elem_of_cons; [|by apply (Hids (S j) r')].
      apply Hnin. rw -Heq. by eapply list_elem_of_fmap_2, list_elem_of_lookup_2.
    + done.
    + intros p r' [=->] Hr'. by apply (Hch 0%nat).
    + intros j r1 r2 ??. by apply (Hch (S j)).
Qed.

(** C13: validation accepts a receipt set exactly when it is a finalized,
    correlated, bounded sequence of well-formed attempts with distinct ids,
    consecutive sequence numbers, one initial trigger and no overlap in time:
    the code's chain of checks is equivalent to that specification. *)
Theorem ValidateAttemptReceiptSet_spec (set : AttemptReceiptSet)
    (ex : AttemptReceiptExpectation) :
  ValidateAttemptReceiptSet set ex = None ↔ receipt_set_ok set ex.
Proof.
  assert (Hsize : match set_json_size set with
    | Some size => if MaxAttemptReceiptSerializedBytes <? size
                   then receiptError AttemptReceiptTooLarge else None
    | None => receiptError AttemptReceiptTooLarge end = None ↔
    ∃ n, set_json_size set = Some n ∧ n ≤ MaxAttemptReceiptSerializedBytes).
  { destruct (set_json_size set) as [n|]; [|naive_solver].
    rw /receiptError guard_None Z.ltb_ge. naive_solver. }
  unfold receiptError in Hsize. unfold ValidateAttemptReceiptSet, receiptError.
  rw !(validateIdentifier_None, matches_bool, guard_None, chain_None) Hsize.
  rw !negb_false_iff !andb_false_iff !negb_false_iff !Z.eqb_eq !Nat.eqb_eq !Nat.eqb_neq.
  rw Nat.ltb_ge. split.
  - intros (Hv & Hf & Hne & Hmax & Hid & Hm & Hs & Hc & Hn).
    apply receipts_check_None in Hc as (Hok & _ & Hnd & _ & Hch).
    { constructor; try done; [lia|]. intros E. destruct Hs; [congruence|done]. }
    intros Hsingle. split; [done|]. destruct Hs as [Hs|Hs]; [congruence|lia].
  - intros []. split_and!; try done; [lia|lia| |].
    + destruct (ex_SingleAttempt ex) eqn:E; [right|left]; auto.
    + apply receipts_check_None; [intros E; specialize (set_single0 E); lia|].
      split_and!; try done. set_solver.
Qed.
End spec.
