(* ===== verification/GovTypes.v ===== *)
(** * Data of the account governor (internal/governor/types.go, permit.go)

    Configurations and their validation, admission codes, outcomes and the
    delivery-evidence rule, telemetry, events, permits. *)

From S2P Require Import Prelude GoTime Provider Receipts.

Local Open Scope Z_scope.
Local Open Scope runstead_scope.

(** ** Allowance semantics *)

Inductive AllowanceProfile :=
  | AllowanceProfileInstant | AllowanceProfileReasoning
  | AllowanceProfileUnknown | AllowanceProfileLunaUnlimitedText
  | AllowanceProfileOther (s : string).

(** [AllowanceKindEmpty] is the empty string, the value of a configuration
    that predates the typed kind. *)
Inductive AllowanceKind :=
  | AllowanceKindEmpty
  | AllowanceKindPublishedQuota | AllowanceKindUnlimitedText | AllowanceKindUnknown
  | AllowanceKindOther (s : string).

#[export] Instance AllowanceProfile_eq_dec : EqDecision AllowanceProfile.
Proof. solve_decision. Defined.
#[export] Instance AllowanceKind_eq_dec : EqDecision AllowanceKind.
Proof. solve_decision. Defined.

Definition AllowanceKindForProfile (profile : AllowanceProfile) : AllowanceKind :=
  match profile with
  | AllowanceProfileInstant | AllowanceProfileReasoning => AllowanceKindPublishedQuota
  | AllowanceProfileLunaUnlimitedText => AllowanceKindUnlimitedText
  | AllowanceProfileUnknown => AllowanceKindUnknown
  | AllowanceProfileOther _ => AllowanceKindEmpty
  end.

Definition AllowanceKind_Valid (k : AllowanceKind) : bool :=
  match k with
  | AllowanceKindPublishedQuota | AllowanceKindUnlimitedText | AllowanceKindUnknown => true
  | _ => false
  end.

(** ** Configuration *)

Record Config := {
  AccountPolicyID : string;
  ProviderID : string;
  ModelPool : string;
  Model : string;
  cfg_AllowanceProfile : AllowanceProfile;
  cfg_AllowanceKind : AllowanceKind;
  Rolling3h : Z;
  ManualReserve : Z;
  Rolling1h : Z;
  Rolling10m : Z;
  TaskBudget : Z;
  RetryBudget : Z;
  QueueCapacity : Z;
  FairnessQuantum : Z;
  MinimumStartInterval : Duration;
  BurstCapacity : Z;
  MaxInFlight : Z;
  RequireSingleAttempt : bool;
  RequireAttemptReceipts : bool;
  cfg_ProtocolFamily : string;
  ConfigIdentity : string;
  AttemptProviderID : string;
  AccountLaneHash : string;
  RateResponseThreshold : Z;
  RateResponseWindow : Duration;
  ResetSafetyMargin : Duration;
  cfg_RouteSafety : RouteSafety
}.

#[export] Instance eta_Config : Settable Config := λ c,
  Build_Config (AccountPolicyID c) (ProviderID c) (ModelPool c) (Model c)
    (cfg_AllowanceProfile c) (cfg_AllowanceKind c) (Rolling3h c) (ManualReserve c)
    (Rolling1h c) (Rolling10m c) (TaskBudget c) (RetryBudget c) (QueueCapacity c)
    (FairnessQuantum c) (MinimumStartInterval c) (BurstCapacity c) (MaxInFlight c)
    (RequireSingleAttempt c) (RequireAttemptReceipts c) (cfg_ProtocolFamily c)
    (ConfigIdentity c) (AttemptProviderID c) (AccountLaneHash c) (RateResponseThreshold c)
    (RateResponseWindow c) (ResetSafetyMargin c) (cfg_RouteSafety c).

Definition EffectiveAllowanceKind (c : Config) : AllowanceKind :=
  if AllowanceKind_Valid (cfg_AllowanceKind c) then cfg_AllowanceKind c
  else AllowanceKindForProfile (cfg_AllowanceProfile c).

Definition DefaultInstantConfig (accountPolicyID providerID modelPool : string)
    (safety : RouteSafety) : Config := {|
  AccountPolicyID := accountPolicyID;
  ProviderID := providerID;
  ModelPool := modelPool;
  Model := "";
  cfg_AllowanceProfile := AllowanceProfileInstant;
  cfg_AllowanceKind := AllowanceKindPublishedQuota;
  Rolling3h := 140;
  ManualReserve := 20;
  Rolling1h := 80;
  Rolling10m := 25;
  TaskBudget := 80;
  RetryBudget := 2;
  QueueCapacity := 16;
  FairnessQuantum := 1;
  MinimumStartInterval := 5 * Second;
  BurstCapacity := 1;
  MaxInFlight := 1;
  RequireSingleAttempt := true;
  RequireAttemptReceipts := false;
  cfg_ProtocolFamily := "";
  ConfigIdentity := "";
  AttemptProviderID := "";
  AccountLaneHash := "";
  RateResponseThreshold := 3;
  RateResponseWindow := Hour;
  ResetSafetyMargin := 5 * Minute;
  cfg_RouteSafety := safety
|}.

Definition DefaultLunaUnlimitedTextConfig (accountPolicyID providerID modelPool : string)
    (safety : RouteSafety) : Config :=
  (DefaultInstantConfig accountPolicyID providerID modelPool safety)
    <| cfg_AllowanceProfile := AllowanceProfileLunaUnlimitedText |>
    <| cfg_AllowanceKind := AllowanceKindUnlimitedText |>
    <| Rolling3h := 0 |> <| Rolling1h := 0 |> <| Rolling10m := 0 |>
    <| ManualReserve := 0 |>.

Definition DefaultUnknownConfig (accountPolicyID providerID modelPool : string)
    (safety : RouteSafety) : Config :=
  (DefaultInstantConfig accountPolicyID providerID modelPool safety)
    <| cfg_AllowanceProfile := AllowanceProfileUnknown |>
    <| cfg_AllowanceKind := AllowanceKindUnknown |>.

(** ** Admission codes *)

Inductive AdmissionCode :=
  | AdmissionAdmitted | AdmissionDelayed | AdmissionContextCancelled | AdmissionQueueFull
  | AdmissionTaskDeadlineExceeded | AdmissionTaskBudgetExhausted
  | AdmissionRollingBudgetExhausted | AdmissionUpstreamAllowanceExhausted
  | AdmissionCooldownActive | AdmissionCircuitOpen | AdmissionUnsafeProviderAmplification
  | AdmissionUnsafeConfiguration | AdmissionHumanAcknowledgementRequired
  | AdmissionRetryBudgetExhausted | AdmissionAuthenticationRefreshRequired
  | AdmissionDuplicateClientRequest | AdmissionGovernorClosed
  | AdmissionMissingAttemptReceipts | AdmissionGatewayContractUnhealthy.

#[export] Instance AdmissionCode_eq_dec : EqDecision AdmissionCode.
Proof. solve_decision. Defined.

(** ** Errors

    The sentinels of the package, the context errors, the errors of the
    provider package and [AdmissionError] without and with a cause. *)
Inductive error :=
  | ErrText (msg : string)
  | ErrPermitCompleted | ErrPermitNotStarted | ErrPermitStarted | ErrGovernorClosed
  | ErrAttemptReceiptsRequired | ErrAttemptReceiptReplayed
  | ErrProviderOutcomePersist (cause : error)
  | ErrIntentNotPersisted (cause : error)
  | ContextCanceled | ContextDeadlineExceeded
  | ErrProvider (e : ProviderError)
  | AdmissionError (code : AdmissionCode)
  | AdmissionErrorCause (code : AdmissionCode) (cause : error).

#[export] Instance error_eq_dec : EqDecision error.
Proof. solve_decision. Defined.

(** [errors.Is err target]: the error or one it unwraps to is the target. *)
Fixpoint error_is (target e : error) : bool :=
  bool_decide (e = target) ||
  match e with
  | AdmissionErrorCause _ c | ErrIntentNotPersisted c => error_is target c
  | _ => false
  end.

(** [errors.As err *AdmissionError]. *)
Fixpoint is_admission_error (e : error) : bool :=
  match e with
  | AdmissionError _ | AdmissionErrorCause _ _ => true
  | ErrIntentNotPersisted c => is_admission_error c
  | _ => false
  end.

(** ** Validation of a configuration *)

Definition validate_rolling (c : Config) (msg : string) : option error :=
  if (Rolling3h c <=? 0) || (Rolling1h c <=? 0) || (Rolling10m c <=? 0)
  then Some (ErrText msg)
  else if (Rolling1h c <=? Rolling10m c) || (Rolling3h c <=? Rolling1h c)
  then Some (ErrText "rolling windows require 10m < 1h < 3h ceilings")
  else if (ManualReserve c <? 0) || (Rolling3h c <=? ManualReserve c)
  then Some (ErrText "manual reserve must be non-negative and below the 3h ceiling")
  else None.

Section config.
Context `{MapOrder}.

Definition identifiers (c : Config) : gmap string string := list_to_map [
  ("account policy identifier"%string, AccountPolicyID c);
  ("provider identifier"%string, ProviderID c);
  ("model pool"%string, ModelPool c)].

Definition validate_allowance (c : Config) (kind : AllowanceKind) : option error :=
  match kind with
  | AllowanceKindPublishedQuota =>
    validate_rolling c "published-quota allowances require positive rolling ceilings"
  | AllowanceKindUnlimitedText =>
    if negb (Rolling3h c =? 0) || negb (Rolling1h c =? 0) || negb (Rolling10m c =? 0)
    then Some (ErrText "unlimited-text allowances must not fabricate numeric rolling ceilings")
    else if negb (ManualReserve c =? 0)
    then Some (ErrText "unlimited-text allowances have no shared numeric allowance to protect with a manual reserve")
    else None
  | AllowanceKindUnknown =>
    validate_rolling c "unknown allowances require explicit conservative local rolling ceilings"
  | _ => Some (ErrText "unsupported allowance kind")
  end.

Definition Config_Validate (c : Config) : option error :=
  match first_error (λ '(name, value),
      if blank value then Some (ErrText (name +:+ " must not be empty")) else None)
      (range (identifiers c)) with
  | Some e => Some e
  | None =>
    if match cfg_AllowanceProfile c with AllowanceProfileOther _ => true | _ => false end
    then Some (ErrText "unsupported allowance profile")
    else
      let kind := cfg_AllowanceKind c in
      let derived := AllowanceKindForProfile (cfg_AllowanceProfile c) in
      if negb (bool_decide (kind = AllowanceKindEmpty)) && negb (AllowanceKind_Valid kind)
      then Some (ErrText "unsupported allowance kind")
      else if negb (bool_decide (kind = AllowanceKindEmpty))
              && negb (bool_decide (derived = kind))
      then Some (ErrText "allowance kind does not match profile")
      else
        let kind := if bool_decide (kind = AllowanceKindEmpty) then derived else kind in
        match validate_allowance c kind with
        | Some e => Some e
        | None =>
          if (TaskBudget c <=? 0) || (RetryBudget c <? 0) || (QueueCapacity c <=? 0)
             || (FairnessQuantum c <=? 0)
          then Some (ErrText "task, queue and fairness budgets are invalid")
          else if MinimumStartInterval c <=? 0
          then Some (ErrText "minimum start interval must be positive")
          else if negb (BurstCapacity c =? 1)
          then Some (ErrText "burst capacity must be exactly one")
          else if negb (MaxInFlight c =? 1)
          then Some (ErrText "max_in_flight must be exactly one for a personal ChatGPT Web account")
          else if eqb (RequireSingleAttempt c) (RequireAttemptReceipts c)
          then Some (ErrText "exactly one attempt-accounting requirement must be enabled")
          else if RequireSingleAttempt c && negb (bool_decide
              (rs_AttemptAccounting (cfg_RouteSafety c) = AttemptAccountingSingle))
          then Some (ErrText "single-attempt requirement requires single-attempt route safety")
          else if RequireAttemptReceipts c && negb (bool_decide
              (rs_AttemptAccounting (cfg_RouteSafety c) = AttemptAccountingReceipts))
          then Some (ErrText "receipt requirement requires receipt-aware route safety")
          else if RequireAttemptReceipts c && blank (AccountLaneHash c)
          then Some (ErrText "receipt requirement requires an account lane hash")
          else if RequireAttemptReceipts c && blank (Model c)
          then Some (ErrText "receipt requirement requires a concrete model identity")
          else if (RateResponseThreshold c <=? 0) || (RateResponseWindow c <=? 0)
                  || (ResetSafetyMargin c <=? 0)
          then Some (ErrText "circuit thresholds are invalid")
          else ErrProvider <$> RouteSafety_Validate (cfg_RouteSafety c)
        end
  end.
End config.

(** ** Requests, outcomes and delivery evidence *)

(** The [Request] of the provider package: the text turn handed to the client. *)
Record Request := {
  req_Protocol : string;
  req_Prompt : string;
  req_Model : string;
  req_ClientRequestID : string
}.

#[export] Instance eta_Request : Settable Request := λ r,
  Build_Request (req_Protocol r) (req_Prompt r) (req_Model r) (req_ClientRequestID r).

Record AttemptRequest := {
  TaskID : string;
  WorkUnitID : string;
  ClientRequestID : string;
  ar_ModelPool : string;
  Retry : bool;
  ProviderRequest : Request
}.

#[export] Instance eta_AttemptRequest : Settable AttemptRequest := λ r,
  Build_AttemptRequest (TaskID r) (WorkUnitID r) (ClientRequestID r) (ar_ModelPool r)
    (Retry r) (ProviderRequest r).

(** [OutcomeUnset] is the empty string; a classifier may return any string. *)
Inductive OutcomeClass :=
  | OutcomeUnset
  | OutcomeSuccess | OutcomeRateCapacity | OutcomeAuthenticationExpired
  | OutcomeAuthenticationDenied | OutcomeHTTP403 | OutcomeLoginChallenge | OutcomeCAPTCHA
  | OutcomeSuspiciousActivity | OutcomeAccountWarning | OutcomeFeatureRestriction
  | OutcomeConnectionReset | OutcomeTimeout | OutcomeEmptyResponse | OutcomeMalformedUpstream
  | OutcomeUpstreamServerFailure | OutcomeCancelledBeforeUpstream | OutcomeUncertainReached
  | OutcomeOther (s : string).

#[export] Instance OutcomeClass_eq_dec : EqDecision OutcomeClass.
Proof. solve_decision. Defined.

Record RateLimitObservation := {
  ObservedRetryAfter : Duration;
  LimitRequests : option Z;
  RemainingRequests : option Z;
  ResetRequests : Duration;
  LimitTokens : option Z;
  RemainingTokens : option Z;
  ResetTokens : Duration
}.

Definition zeroRateLimitObservation : RateLimitObservation := {|
  ObservedRetryAfter := 0; LimitRequests := None; RemainingRequests := None;
  ResetRequests := 0; LimitTokens := None; RemainingTokens := None; ResetTokens := 0 |}.

Record ResponseMetadata := {
  md_StatusCode : Z;
  md_RequestID : string;
  md_SessionID : string;
  md_Duration : Duration;
  md_RetryAfter : Duration;
  md_ResetAt : Time;
  md_RateLimitObservation : RateLimitObservation;
  md_Endpoint : string;
  md_Model : string;
  md_DeliveryState : DeliveryState;
  md_AttemptReceipts : option AttemptReceiptSet;
  md_AdapterVersion : string;
  md_Transport : string;
  md_FirstByteLatency : Duration;
  md_RetryCount : Z;
  md_Fallback : bool;
  md_UsageEstimated : bool
}.

Definition zeroMetadata : ResponseMetadata := {|
  md_StatusCode := 0; md_RequestID := ""; md_SessionID := ""; md_Duration := 0;
  md_RetryAfter := 0; md_ResetAt := zeroTime;
  md_RateLimitObservation := zeroRateLimitObservation; md_Endpoint := ""; md_Model := "";
  md_DeliveryState := DeliveryUnobserved; md_AttemptReceipts := None; md_AdapterVersion := "";
  md_Transport := ""; md_FirstByteLatency := 0; md_RetryCount := 0; md_Fallback := false;
  md_UsageEstimated := false |}.

Record Response := { resp_Text : string; resp_Metadata : ResponseMetadata }.

Record Outcome := {
  Class : OutcomeClass;
  oc_ProviderFailureClass : ProviderFailureClass;
  RetryAfter : Duration;
  ResetAt : Time;
  UpstreamReached : bool;
  oc_DeliveryState : DeliveryState;
  Metadata : ResponseMetadata
}.

#[export] Instance eta_Outcome : Settable Outcome := λ o,
  Build_Outcome (Class o) (oc_ProviderFailureClass o) (RetryAfter o) (ResetAt o)
    (UpstreamReached o) (oc_DeliveryState o) (Metadata o).

Definition zeroOutcome : Outcome := {|
  Class := OutcomeUnset; oc_ProviderFailureClass := FailureNone; RetryAfter := 0;
  ResetAt := zeroTime; UpstreamReached := false; oc_DeliveryState := DeliveryUnobserved;
  Metadata := zeroMetadata |}.

Definition effectiveDeliveryState (state : DeliveryState) : DeliveryState :=
  if DeliveryState_Valid state then state else DeliverySentUnconfirmed.

Definition deliveryUpstreamReached (state : DeliveryState) : bool :=
  negb (bool_decide (effectiveDeliveryState state = DeliveryNotSent)).

Definition applyDeliveryEvidence (outcome : Outcome) : Outcome :=
  if negb (DeliveryState_Valid (oc_DeliveryState outcome)) then outcome
  else
    let effective := effectiveDeliveryState (oc_DeliveryState outcome) in
    let outcome := outcome <| UpstreamReached :=
      deliveryUpstreamReached (oc_DeliveryState outcome) |> in
    match effective with
    | DeliverySentUnconfirmed | DeliveryResponseStarted =>
      outcome <| Class := OutcomeUncertainReached |>
    | _ => outcome
    end.

Definition defaultOutcome (response : Response) (err : option error) : Outcome :=
  let delivered := zeroOutcome
    <| oc_DeliveryState := md_DeliveryState (resp_Metadata response) |> in
  match err with
  | Some e =>
    if error_is ContextCanceled e
    then delivered <| Class := OutcomeCancelledBeforeUpstream |>
    else if error_is ContextDeadlineExceeded e
    then delivered <| Class := OutcomeTimeout |>
    else delivered <| Class := OutcomeUncertainReached |> <| UpstreamReached := true |>
  | None =>
    if blank (resp_Text response)
    then delivered <| Class := OutcomeEmptyResponse |> <| UpstreamReached := true |>
    else delivered <| Class := OutcomeSuccess |> <| UpstreamReached := true |>
  end.

(** ** Circuits and telemetry *)

Inductive CircuitState :=
  | CircuitNone | CircuitClosed | CircuitOpenUntil | CircuitHumanReviewRequired.

#[export] Instance CircuitState_eq_dec : EqDecision CircuitState.
Proof. solve_decision. Defined.

Inductive UpstreamCircuitState :=
  | UpstreamCircuitNone | UpstreamCircuitUnknown | UpstreamCircuitClosed | UpstreamCircuitOpen.

#[export] Instance UpstreamCircuitState_eq_dec : EqDecision UpstreamCircuitState.
Proof. solve_decision. Defined.

Record TelemetrySnapshot := {
  ts_Remaining : option Z;
  ts_ResetAt : Time;
  ts_CooldownUntil : Time;
  ts_RetryAfter : Duration;
  ts_RateLimited : bool;
  ts_CapacityExhausted : bool;
  ts_UpstreamCircuit : UpstreamCircuitState;
  ts_RouteSafety : option RouteSafety
}.

(** [randomJitter.Apply] for the draw [r] its generator makes, which
    [rand.Int63n] keeps in [0 <= r <= base / 2]. *)
Definition randomJitter_Apply (r : Z) (base : Duration) : Duration :=
  if base <=? 0 then 0 else wrap64 (base + r mod (Z.quot base 2 + 1)).

Record CircuitSnapshot := {
  cs_State : CircuitState;
  cs_Reason : OutcomeClass;
  cs_OpenUntil : Time;
  cs_RefreshRequired : bool
}.

Record TelemetrySummary := {
  tsum_Available : bool;
  tsum_Remaining : option Z;
  tsum_ResetAt : Time;
  tsum_CooldownUntil : Time;
  tsum_RateLimited : bool;
  tsum_CapacityExhausted : bool;
  tsum_UpstreamCircuit : UpstreamCircuitState;
  tsum_Unsafe : bool
}.

Definition zeroTelemetrySummary : TelemetrySummary := {|
  tsum_Available := false; tsum_Remaining := None; tsum_ResetAt := zeroTime;
  tsum_CooldownUntil := zeroTime; tsum_RateLimited := false; tsum_CapacityExhausted := false;
  tsum_UpstreamCircuit := UpstreamCircuitNone; tsum_Unsafe := false |}.

Record BudgetSnapshot := {
  Rolling3hUsed : Z; Rolling3hCeiling : Z; Automated3hCeiling : Z;
  Rolling1hUsed : Z; Rolling1hCeiling : Z;
  Rolling10mUsed : Z; Rolling10mCeiling : Z;
  TaskUsed : Z; TaskCeiling : Z;
  RetriesUsed : Z; RetryCeiling : Z;
  bs_ManualReserve : Z; ManualReserveRemaining : Z
}.

Definition zeroBudgets : BudgetSnapshot := {|
  Rolling3hUsed := 0; Rolling3hCeiling := 0; Automated3hCeiling := 0; Rolling1hUsed := 0;
  Rolling1hCeiling := 0; Rolling10mUsed := 0; Rolling10mCeiling := 0; TaskUsed := 0;
  TaskCeiling := 0; RetriesUsed := 0; RetryCeiling := 0; bs_ManualReserve := 0;
  ManualReserveRemaining := 0 |}.

(** ** Permits, admission results and finish results

    [attached] is false for a nil permit or a permit without a governor. *)

Record Permit := {
  attached : bool;
  request : AttemptRequest;
  telemetryHealthy : bool;
  started : bool;
  completed : bool;
  attemptSequence : Z;
  receiptAware : bool;
  startedAt : Time
}.

#[export] Instance eta_Permit : Settable Permit := λ p,
  Build_Permit (attached p) (request p) (telemetryHealthy p) (started p) (completed p)
    (attemptSequence p) (receiptAware p) (startedAt p).

Record AdmissionResult := {
  Code : AdmissionCode;
  Reason : option AdmissionCode;
  RetryAt : Time;
  Delay : Duration;
  res_Permit : option Permit;
  Err : option error;
  TelemetryHealthy : bool;
  res_GatewayContractHealth : option GatewayContractHealthResult
}.

#[export] Instance eta_AdmissionResult : Settable AdmissionResult := λ r,
  Build_AdmissionResult (Code r) (Reason r) (RetryAt r) (Delay r) (res_Permit r) (Err r)
    (TelemetryHealthy r) (res_GatewayContractHealth r).

Definition Admitted_ (r : AdmissionResult) : bool :=
  bool_decide (Code r = AdmissionAdmitted) &&
  match res_Permit r with Some _ => true | None => false end.

Record FinishResult := {
  fr_Outcome : OutcomeClass;
  RetryEligible : bool;
  fr_SelectedBackoff : Duration;
  AttemptDebited : Z;
  fr_Circuit : CircuitSnapshot;
  fr_DeliveryState : DeliveryState;
  fr_Err : option error
}.

#[export] Instance eta_FinishResult : Settable FinishResult := λ r,
  Build_FinishResult (fr_Outcome r) (RetryEligible r) (fr_SelectedBackoff r)
    (AttemptDebited r) (fr_Circuit r) (fr_DeliveryState r) (fr_Err r).

Definition zeroFinishResult : FinishResult := {|
  fr_Outcome := OutcomeUnset; RetryEligible := false; fr_SelectedBackoff := 0;
  AttemptDebited := 0;
  fr_Circuit := {| cs_State := CircuitNone; cs_Reason := OutcomeUnset;
                   cs_OpenUntil := zeroTime; cs_RefreshRequired := false |};
  fr_DeliveryState := DeliveryUnobserved; fr_Err := None |}.

(** ** Events *)

Inductive EventKind :=
  | EventAdmission | EventAttemptStarted | EventAttemptFinished
  | EventUpstreamAttempt | EventUncertainAttempt | EventCircuit.

#[export] Instance EventKind_eq_dec : EqDecision EventKind.
Proof. solve_decision. Defined.

Record Event := {
  Kind : EventKind;
  ev_AccountPolicyID : string;
  ev_ProviderID : string;
  ev_ModelPool : string;
  ev_Model : string;
  ev_AllowanceProfile : AllowanceProfile;
  ev_AllowanceKind : AllowanceKind;
  ev_TaskID : string;
  ev_ClientRequestID : string;
  ev_AttemptSequence : Z;
  ev_AttemptID : string;
  ev_AttemptTrigger : option AttemptTrigger;
  ev_AttemptReceiptOutcome : option AttemptOutcome;
  ev_UpstreamReached : bool;
  ev_DeliveryState : DeliveryState;
  ev_Admission : option AdmissionCode;
  ev_Reason : option AdmissionCode;
  ev_Delay : Duration;
  ev_RetryAt : Time;
  BudgetsBefore : BudgetSnapshot;
  BudgetsAfter : BudgetSnapshot;
  ev_Telemetry : TelemetrySummary;
  ev_Outcome : OutcomeClass;
  ev_CooldownUntil : Time;
  SelectedBackoff : Duration;
  CircuitFrom : CircuitState;
  CircuitTo : CircuitState;
  CircuitReason : OutcomeClass;
  ev_TelemetryHealthy : bool;
  ev_GatewayContractHealth : option GatewayContractHealthResult;
  AttemptMetadata : ResponseMetadata
}.

#[export] Instance eta_Event : Settable Event := λ e,
  Build_Event (Kind e) (ev_AccountPolicyID e) (ev_ProviderID e) (ev_ModelPool e) (ev_Model e)
    (ev_AllowanceProfile e) (ev_AllowanceKind e) (ev_TaskID e) (ev_ClientRequestID e)
    (ev_AttemptSequence e) (ev_AttemptID e) (ev_AttemptTrigger e)
    (ev_AttemptReceiptOutcome e) (ev_UpstreamReached e) (ev_DeliveryState e)
    (ev_Admission e) (ev_Reason e) (ev_Delay e) (ev_RetryAt e) (BudgetsBefore e)
    (BudgetsAfter e) (ev_Telemetry e) (ev_Outcome e) (ev_CooldownUntil e)
    (SelectedBackoff e) (CircuitFrom e) (CircuitTo e) (CircuitReason e)
    (ev_TelemetryHealthy e) (ev_GatewayContractHealth e) (AttemptMetadata e).

(** The identity fields every event carries; the rest are zero values. *)
Definition identityEvent (c : Config) (kind : EventKind) : Event := {|
  Kind := kind;
  ev_AccountPolicyID := AccountPolicyID c; ev_ProviderID := ProviderID c;
  ev_ModelPool := ModelPool c; ev_Model := Model c;
  ev_AllowanceProfile := cfg_AllowanceProfile c; ev_AllowanceKind := cfg_AllowanceKind c;
  ev_TaskID := ""; ev_ClientRequestID := ""; ev_AttemptSequence := 0; ev_AttemptID := "";
  ev_AttemptTrigger := None; ev_AttemptReceiptOutcome := None; ev_UpstreamReached := false;
  ev_DeliveryState := DeliveryUnobserved; ev_Admission := None; ev_Reason := None;
  ev_Delay := 0; ev_RetryAt := zeroTime; BudgetsBefore := zeroBudgets;
  BudgetsAfter := zeroBudgets; ev_Telemetry := zeroTelemetrySummary;
  ev_Outcome := OutcomeUnset; ev_CooldownUntil := zeroTime; SelectedBackoff := 0;
  CircuitFrom := CircuitNone; CircuitTo := CircuitNone; CircuitReason := OutcomeUnset;
  ev_TelemetryHealthy := false; ev_GatewayContractHealth := None;
  AttemptMetadata := zeroMetadata |}.
