(* ===== verification/Ledger.v ===== *)
(** * The rolling usage ledger (internal/governor/ledger.go)

    An append-only log of attempt starts with a moving head and occasional
    compaction.  The lemmas relate it to the list of its live events. *)

From S2P Require Import Prelude GoTime.

Local Open Scope Z_scope.
Local Open Scope runstead_scope.

Record ledgerEvent := { at_ : Time; le_taskID : string }.

Record rollingLedger := { events : list ledgerEvent; head : nat }.

Definition emptyLedger : rollingLedger := {| events := []; head := 0 |}.

(** [l.events[l.head:]] *)
Definition live (l : rollingLedger) : list ledgerEvent := drop (head l) (events l).

Definition ledger_add (at_ : Time) (taskID : string) (l : rollingLedger) : rollingLedger :=
  {| events := events l ++ [{| at_ := at_; le_taskID := taskID |}]; head := head l |}.

(** The loop that advances the head past the events that are not after the
    cutoff: it stops at the first event that is. *)
Fixpoint advance_head (cutoff : Time) (rest : list ledgerEvent) (h : nat) : nat :=
  match rest with
  | e :: rest' => if After (at_ e) cutoff then h else advance_head cutoff rest' (S h)
  | [] => h
  end.

Definition ledger_expire (now : Time) (maxWindow : Duration) (l : rollingLedger) : rollingLedger :=
  let cutoff := Add now (- maxWindow) in
  let h := advance_head cutoff (live l) (head l) in
  if (0 <? h)%nat && ((256 <=? h)%nat || (length (events l) <=? h * 2)%nat)
  then {| events := drop h (events l); head := 0 |}
  else {| events := events l; head := h |}.

Definition ledger_count (now : Time) (window : Duration) (l : rollingLedger) : Z :=
  let cutoff := Add now (- window) in
  Z.of_nat (count_if (λ e, After (at_ e) cutoff) (live l)).

Definition ledger_next (now : Time) (window : Duration) (ceiling : Z) (l : rollingLedger) : Time :=
  if ledger_count now window l <? ceiling then zeroTime
  else
    let cutoff := Add now (- window) in
    match List.find (λ e, After (at_ e) cutoff) (live l) with
    | Some e => Add (at_ e) window
    | None => zeroTime
    end.

Definition copyEvents (l : rollingLedger) : list ledgerEvent := live l.

(** ** Lemmas *)

Definition ledger_wf (l : rollingLedger) : Prop := (head l ≤ length (events l))%nat.

(** Events are recorded in time order. *)
Definition ledger_sorted (l : rollingLedger) : Prop :=
  StronglySorted (λ e f, at_ e ≤ at_ f) (live l).

Lemma live_add t k l :
  ledger_wf l → live (ledger_add t k l) = live l ++ [{| at_ := t; le_taskID := k |}].
Proof. intros Hwf. rw /live /= drop_app_le //. Qed.

Lemma advance_head_spec cutoff rest h :
  ∃ n, advance_head cutoff rest h = (h + n)%nat ∧ (n ≤ length rest)%nat
    ∧ drop n rest = drop_while (λ e, negb (After (at_ e) cutoff)) rest.
Proof.
  revert h. induction rest as [|e rest IH]; intros h; simpl.
  { exists 0%nat. split_and!; [lia|lia|done]. }
  destruct (After (at_ e) cutoff); simpl.
  { exists 0%nat. split_and!; [lia|lia|done]. }
  destruct (IH (S h)) as (n & -> & Hn & Hd). exists (S n). split_and!; [lia|lia|done].
Qed.

Lemma live_expire now w l :
  live (ledger_expire now w l)
  = drop_while (λ e, negb (After (at_ e) (Add now (- w)))) (live l).
Proof.
  destruct (advance_head_spec (Add now (- w)) (live l) (head l)) as (n & Hh & Hn & Hd).
  rw -Hd /ledger_expire Hh. case_match; rw /live /=; by rw ?drop_0 drop_drop.
Qed.

Lemma ledger_wf_add t k l : ledger_wf l → ledger_wf (ledger_add t k l).
Proof. rw /ledger_wf /= length_app /=. lia. Qed.

Lemma ledger_wf_expire now w l : ledger_wf l → ledger_wf (ledger_expire now w l).
Proof.
  rw /ledger_wf /ledger_expire => Hwf.
  destruct (advance_head_spec (Add now (- w)) (live l) (head l)) as (n & -> & Hn & _).
  rw /live length_drop in Hn. case_match; simpl; lia.
Qed.

Lemma ledger_wf_empty : ledger_wf emptyLedger.
Proof. rw /ledger_wf /=. lia. Qed.

#[export] Hint Resolve ledger_wf_add ledger_wf_expire ledger_wf_empty : runstead.

(** What expiry drops is older than the window, at the time and later. *)
Lemma expire_drops now w l :
  ∃ old, live l = old ++ live (ledger_expire now w l)
    ∧ ∀ e, e ∈ old → at_ e ≤ now - w.
Proof.
  rw live_expire.
  destruct (drop_while_suffix (λ e, negb (After (at_ e) (Add now (- w)))) (live l))
    as (old & Hl & Hold).
  exists old. split; [done|]. intros e He.
  rw Forall_forall in Hold. specialize (Hold e He). time_spec. rw /Add in Hold. lia.
Qed.

(** Expiry is invisible to every later query of a window it covers. *)
Lemma count_expire now now' w w' l :
  now ≤ now' → w' ≤ w →
  ledger_count now' w' (ledger_expire now w l) = ledger_count now' w' l.
Proof.
  intros Hnow Hw. rw /ledger_count. destruct (expire_drops now w l) as (old & -> & Hold).
  rw [in RHS]count_if_suffix //. intros e He. specialize (Hold e He).
  apply After_false. rw /Add. lia.
Qed.

(** An earlier instant counts at least the events of a later one. *)
Lemma count_antitone now now' w l :
  now ≤ now' → ledger_count now' w l ≤ ledger_count now w l.
Proof.
  intros H. rw /ledger_count. apply inj_le, count_if_mono. intros e _.
  rw !After_spec /Add. lia.
Qed.

(** A longer window counts at least the events of a shorter one. *)
Lemma count_window_mono now w w' l :
  w ≤ w' → ledger_count now w l ≤ ledger_count now w' l.
Proof.
  intros H. rw /ledger_count. apply inj_le, count_if_mono. intros e _.
  rw !After_spec /Add. lia.
Qed.

Lemma count_add now w t k l :
  ledger_wf l →
  ledger_count now w (ledger_add t k l)
  = ledger_count now w l + (if now - w <? t then 1 else 0).
Proof.
  intros Hwf. rw /ledger_count live_add // count_if_app count_if_cons count_if_nil /= /After /Add.
  replace (now + - w) with (now - w) by lia. destruct (now - w <? t); simpl; lia.
Qed.

Lemma count_nonneg now w l : 0 ≤ ledger_count now w l.
Proof. rw /ledger_count. lia. Qed.

Lemma next_zero now w c l :
  0 < c → (∀ e, e ∈ live l → zeroTime < at_ e + w) →
  ledger_next now w c l = zeroTime ↔ ledger_count now w l < c.
Proof.
  intros Hc Hpos. rw /ledger_next. case_match; time_spec; [done|].
  destruct (List.find _ _) as [e|] eqn:Hf.
  - apply List.find_some in Hf as [Hin _].
    apply list_elem_of_In in Hin. specialize (Hpos e Hin). rw /Add. lia.
  - split; [|lia]. intros _. rw /ledger_count. rw count_if_zero; [|lia].
    intros e He. apply (List.find_none _ _ Hf). by apply list_elem_of_In.
Qed.

Lemma live_expire_sorted now w l : ledger_sorted l → ledger_sorted (ledger_expire now w l).
Proof.
  rw /ledger_sorted. destruct (expire_drops now w l) as (old & -> & _).
  apply StronglySorted_app_1_r.
Qed.

Section next_exact.
Context (now : Time) (w : Duration) (l : rollingLedger).
Context (Hsorted : ledger_sorted l).

(** The events of the window, split at the first one. *)
Lemma window_split :
  0 < ledger_count now w l →
  ∃ pre e post, live l = pre ++ e :: post
    ∧ List.find (λ e, After (at_ e) (Add now (- w))) (live l) = Some e
    ∧ now - w < at_ e
    ∧ (∀ x, x ∈ pre → at_ x ≤ now - w) ∧ (∀ x, x ∈ post → at_ e ≤ at_ x).
Proof.
  intros Hpos. destruct (List.find _ (live l)) as [e|] eqn:Hf.
  - apply find_split in Hf as (pre & post & Hl & Hpre & He).
    exists pre, e, post. apply After_spec in He. rw /Add in He. split_and!; [done|done|lia| |].
    + intros x Hx%Hpre. time_spec. rw /Add in Hx. lia.
    + intros x Hx. pose proof Hsorted as Hs. rw /ledger_sorted Hl in Hs.
      apply StronglySorted_app_1_r, StronglySorted_inv in Hs as [_ Hall].
      rw Forall_forall in Hall. by apply Hall.
  - rw /ledger_count count_if_zero in Hpos; [|lia].
    intros x Hx. apply (List.find_none _ _ Hf). by apply list_elem_of_In.
Qed.

Lemma count_after_first pre e post t :
  live l = pre ++ e :: post → (∀ x, x ∈ pre → at_ x ≤ now - w) → now ≤ t →
  ledger_count t w l = (if t - w <? at_ e then 1 else 0)
    + Z.of_nat (count_if (λ x, After (at_ x) (Add t (- w))) post).
Proof.
  intros Hl Hpre Ht. rw /ledger_count Hl count_if_suffix.
  - intros x Hx%Hpre. apply After_false. rw /Add. lia.
  - rw count_if_cons /After /Add. replace (t + - w) with (t - w) by lia.
    destruct (_ <? _); lia.
Qed.

(** When the window is exactly full, [ledger_next] is the first instant at
    which it is not. *)
Lemma next_exact c :
  0 < c → ledger_count now w l = c →
  now < ledger_next now w c l ∧
  ∀ t, now ≤ t → ledger_count t w l < c ↔ ledger_next now w c l ≤ t.
Proof.
  intros Hc Hfull. destruct window_split as (pre & e & post & Hl & Hf & He & Hpre & Hpost); [lia|].
  assert (Hnext : ledger_next now w c l = at_ e + w).
  { rw /ledger_next Hf Hfull. case_match; time_spec; [lia|done]. }
  rw Hnext. split; [lia|]. intros t Ht.
  pose proof (count_after_first _ _ _ now Hl Hpre ltac:(lia)) as Hnow.
  pose proof (count_after_first _ _ _ t Hl Hpre Ht) as Hthen.
  rw (proj2 (Z.ltb_lt _ _) He) Hfull in Hnow.
  rw Hthen. destruct (Z.ltb_spec (t - w) (at_ e)) as [Hlt|Hge].
  - enough (c - 1 ≤ Z.of_nat (count_if (λ x, After (at_ x) (Add t (- w))) post)) by lia.
    enough (count_if (λ x, After (at_ x) (Add now (- w))) post
      ≤ count_if (λ x, After (at_ x) (Add t (- w))) post)%nat by lia.
    apply count_if_mono. intros x Hx _. apply After_spec. specialize (Hpost x Hx). rw /Add. lia.
  - enough (count_if (λ x, After (at_ x) (Add t (- w))) post
      ≤ count_if (λ x, After (at_ x) (Add now (- w))) post)%nat by lia.
    apply count_if_mono. intros x _. rw !After_spec /Add. lia.
Qed.
End next_exact.
