(* ===== verification/GovState.v ===== *)
(** * State of the account governor

    The [Governor] record and the helpers that run under its mutex:
    retention (retention.go), event queue (events.go), budgets, telemetry and
    expiry (telemetry.go), construction and closing (governor.go). *)

From S2P Require Import Prelude GoTime Provider Receipts GovTypes Ledger.

Local Open Scope Z_scope.
Local Open Scope runstead_scope.

(** ** The record *)

Record taskState := { attempts : Z; retries : Z; lastTouched : Time }.

#[export] Instance eta_taskState : Settable taskState := λ t,
  Build_taskState (attempts t) (retries t) (lastTouched t).

Definition newTaskState : taskState :=
  {| attempts := 0; retries := 0; lastTouched := zeroTime |}.

Inductive requestState := requestNone | requestPending | requestActive | requestCompleted.

#[export] Instance requestState_eq_dec : EqDecision requestState.
Proof. solve_decision. Defined.

Record requestRecord := { rr_state : requestState; rr_completedAt : Time }.

Record completedRequest := { cr_id : string; cr_completedAt : Time }.

(** A waiter of the admission queue.  [notify] counts the channels the field
    has held: signalling closes the current one and installs the next. *)
Record waiter := {
  w_request : AttemptRequest;
  notify : nat;
  checking : bool;
  removed : bool
}.

#[export] Instance eta_waiter : Settable waiter := λ w,
  Build_waiter (w_request w) (notify w) (checking w) (removed w).

Record circuitData := {
  cd_state : CircuitState;
  cd_reason : OutcomeClass;
  openUntil : Time;
  refreshRequired : bool;
  refreshInFlight : bool;
  lastRateReset : Time;
  rateEvents : list Time
}.

#[export] Instance eta_circuitData : Settable circuitData := λ c,
  Build_circuitData (cd_state c) (cd_reason c) (openUntil c) (refreshRequired c)
    (refreshInFlight c) (lastRateReset c) (rateEvents c).

Record telemetryState := {
  available : option Z;
  t_resetAt : Time;
  t_cooldownUntil : Time;
  rateLimited : bool;
  capacityExhausted : bool;
  upstreamCircuit : UpstreamCircuitState;
  unsafe : bool
}.

#[export] Instance eta_telemetryState : Settable telemetryState := λ t,
  Build_telemetryState (available t) (t_resetAt t) (t_cooldownUntil t) (rateLimited t)
    (capacityExhausted t) (upstreamCircuit t) (unsafe t).

Definition zeroTelemetryState : telemetryState := {|
  available := None; t_resetAt := zeroTime; t_cooldownUntil := zeroTime;
  rateLimited := false; capacityExhausted := false;
  upstreamCircuit := UpstreamCircuitNone; unsafe := false |}.

(** [queue] holds the addresses of the queued waiters, [waiters] the store they
    point into; [readings] counts the clock readings made so far.
    [hasTelemetry] and [hasEvents] say whether the optional source and sink are
    installed. *)
Record Governor := {
  config : Config;
  hasTelemetry : bool;
  hasEvents : bool;
  closed : bool;
  inFlight : bool;
  queue : list nat;
  waiters : gmap nat waiter;
  currentTask : string;
  consecutiveTurns : Z;
  lastStart : Time;
  nextAttempt : Z;
  ledger : rollingLedger;
  tasks : gmap string taskState;
  requestIDs : gmap string requestRecord;
  attemptIDs : gmap string Time;
  completedRequestIDs : list completedRequest;
  activeTaskID : string;
  circuit : circuitData;
  cooldownUntil : Time;
  telemetry : telemetryState;
  pendingEvents : list Event;
  drainingEvents : bool;
  readings : nat
}.

#[export] Instance eta_Governor : Settable Governor := λ g,
  Build_Governor (config g) (hasTelemetry g) (hasEvents g) (closed g) (inFlight g) (queue g)
    (waiters g) (currentTask g) (consecutiveTurns g) (lastStart g) (nextAttempt g) (ledger g)
    (tasks g) (requestIDs g) (attemptIDs g) (completedRequestIDs g) (activeTaskID g)
    (circuit g) (cooldownUntil g) (telemetry g) (pendingEvents g) (drainingEvents g)
    (readings g).

Abbreviation M := (State Governor).

(** ** Retention limits *)

Definition requestRetentionWindow : Duration := 3 * Hour.
Definition maxCompletedRequestIDs : nat := 4096.
Definition attemptIDRetentionWindow : Duration := 3 * Hour.
Definition maxRetainedAttemptIDs : nat := 4096.
Definition taskRetentionWindow : Duration := 3 * Hour.
Definition maxRetainedTaskStates : nat := 1024.

(** [taskProtectedLocked]: the task owns the lane or a live queued waiter. *)
Definition taskProtected (g : Governor) (taskID : string) : bool :=
  (inFlight g && String.eqb (activeTaskID g) taskID)
  || existsb (λ w, match waiters g !! w with
       | Some entry => String.eqb (TaskID (w_request entry)) taskID && negb (removed entry)
       | None => false
       end) (queue g).

Section retention.
Context `{MapOrder}.

(** The scan for the oldest entry that may be evicted; the empty id marks
    that none was found yet. *)
Definition oldest_step {A} (time : A → Time) (protect : string → bool)
    (best : string * Time) (entry : string * A) : string * Time :=
  if protect entry.1 then best
  else if String.eqb best.1 "" || Before (time entry.2) best.2
  then (entry.1, time entry.2) else best.

Definition oldest {A} (time : A → Time) (protect : string → bool)
    (m : gmap string A) : string :=
  (foldl (oldest_step time protect) (""%string, zeroTime) (range m)).1.

(** [for len(m) > max { ...; delete(m, oldestID) }]; every iteration that
    does not break removes an entry, so [size m] iterations are enough. *)
Fixpoint evict {A} (time : A → Time) (protect : string → bool) (max : nat)
    (fuel : nat) (m : gmap string A) : gmap string A :=
  match fuel with
  | O => m
  | S fuel' =>
    if (max <? size m)%nat then
      let oldestID := oldest time protect m in
      if String.eqb oldestID "" then m
      else evict time protect max fuel' (delete oldestID m)
    else m
  end.

Definition prune_attempts (now : Time) (m : gmap string Time) : gmap string Time :=
  let cutoff := Add now (- attemptIDRetentionWindow) in
  let m := filter (λ '(_, seenAt), Before seenAt cutoff = false) m in
  evict id (λ _, false) maxRetainedAttemptIDs (size m) m.

(** The in-place filter over the completed requests: returns the request
    records and the entries kept. *)
Fixpoint prune_completed (cutoff : Time) (entries : list completedRequest)
    (ids : gmap string requestRecord)
    : gmap string requestRecord * list completedRequest :=
  match entries with
  | [] => (ids, [])
  | entry :: rest =>
    match ids !! cr_id entry with
    | Some record =>
      if negb (bool_decide (rr_state record = requestCompleted))
         || negb (rr_completedAt record =? cr_completedAt entry)
      then prune_completed cutoff rest ids
      else if negb (After (cr_completedAt entry) cutoff)
      then prune_completed cutoff rest (delete (cr_id entry) ids)
      else let '(ids', kept) := prune_completed cutoff rest ids in (ids', entry :: kept)
    | None => prune_completed cutoff rest ids
    end
  end.

(** [for len(completed) > max]: drop the oldest completion and its record. *)
Fixpoint trim_completed (max : nat) (entries : list completedRequest)
    (ids : gmap string requestRecord)
    : gmap string requestRecord * list completedRequest :=
  match entries with
  | entry :: rest =>
    if (max <? length entries)%nat then
      match ids !! cr_id entry with
      | Some record =>
        if bool_decide (rr_state record = requestCompleted)
           && (rr_completedAt record =? cr_completedAt entry)
        then trim_completed max rest (delete (cr_id entry) ids)
        else trim_completed max rest ids
      | None => trim_completed max rest ids
      end
    else (ids, entries)
  | [] => (ids, [])
  end.

Definition prune_requests (now : Time) (entries : list completedRequest)
    (ids : gmap string requestRecord)
    : gmap string requestRecord * list completedRequest :=
  let '(ids, kept) := prune_completed (Add now (- requestRetentionWindow)) entries ids in
  trim_completed maxCompletedRequestIDs kept ids.

Definition prune_tasks (now : Time) (protect : string → bool)
    (m : gmap string taskState) : gmap string taskState :=
  let cutoff := Add now (- taskRetentionWindow) in
  let m := filter (λ '(taskID, state),
    protect taskID || After (lastTouched state) cutoff = true) m in
  evict lastTouched protect maxRetainedTaskStates (size m) m.

Definition pruneAttemptIDsLocked (now : Time) (g : Governor) : Governor :=
  g <| attemptIDs ::= prune_attempts now |>.

Definition pruneRetentionLocked (now : Time) (g : Governor) : Governor :=
  let g := pruneAttemptIDsLocked now g in
  let pruned := prune_requests now (completedRequestIDs g) (requestIDs g) in
  g <| requestIDs := pruned.1 |> <| completedRequestIDs := pruned.2 |>
    <| tasks ::= prune_tasks now (taskProtected g) |>.
End retention.

(** ** Events *)

Definition queueEventLocked (event : Event) (g : Governor) : Governor :=
  if hasEvents g then g <| pendingEvents ::= (λ es, es ++ [event]) |> else g.

(** [DrainEvents] hands batches to the sink outside the lock.  [drain_begin]
    and [drain_take] are its two critical sections; [drain_take] returns the
    batch to emit, or [None] when the queue is empty and the drain ends. *)
Definition drain_begin : M bool := λ g,
  if negb (hasEvents g) || drainingEvents g || (length (pendingEvents g) =? 0)%nat
  then (false, g) else (true, g <| drainingEvents := true |>).

Definition drain_take : M (option (list Event)) := λ g,
  if (length (pendingEvents g) =? 0)%nat
  then (None, g <| drainingEvents := false |>)
  else (Some (pendingEvents g), g <| pendingEvents := [] |>).

(** The whole of [DrainEvents] against a sink that runs [during n] on the
    governor while the [n]-th batch is emitted (re-entrant sinks and other
    goroutines may enqueue more).  Returns the emitted events in order; [fuel]
    bounds the number of batches. *)
Fixpoint drain_loop (during : nat → Governor → Governor) (fuel n : nat) : M (list Event) :=
  λ g, match fuel with
  | O => ([], g)
  | S fuel' =>
    match drain_take g with
    | (None, g) => ([], g)
    | (Some batch, g) =>
      let '(rest, g) := drain_loop during fuel' (S n) (during n g) in (batch ++ rest, g)
    end
  end.

Definition DrainEvents (during : nat → Governor → Governor) (fuel : nat) : M (list Event) :=
  begun ← drain_begin;
  if begun : bool then drain_loop during fuel 0 else mret [].

Section state.
Context `{MapOrder} `{Env}.

(** [g.clock.Now()] *)
Definition Now : M Time := λ g, (clock (readings g), g <| readings ::= S |>).

(** ** Request records *)

Definition requestSeenLocked (requestID : string) : M bool :=
  now ← Now;
  _ ← modify (pruneRetentionLocked now);
  gets (λ g, bool_decide (is_Some (requestIDs g !! requestID))).

Definition reserveRequestLocked (requestID : string) (g : Governor) : Governor :=
  g <| requestIDs ::= <[requestID := {| rr_state := requestPending;
                                        rr_completedAt := zeroTime |}]> |>.

Definition markRequestActiveLocked (requestID : string) (g : Governor) : Governor :=
  match requestIDs g !! requestID with
  | None => g
  | Some record =>
    g <| requestIDs ::= <[requestID := {| rr_state := requestActive;
                                          rr_completedAt := rr_completedAt record |}]> |>
  end.

Definition completeRequestLocked (requestID : string) (completedAt : Time)
    (g : Governor) : Governor :=
  match requestIDs g !! requestID with
  | None => g
  | Some record =>
    g <| requestIDs ::= <[requestID := {| rr_state := requestCompleted;
                                          rr_completedAt := completedAt |}]> |>
      <| completedRequestIDs ::= (λ es, es ++ [{| cr_id := requestID;
                                                  cr_completedAt := completedAt |}]) |>
  end.

Definition releaseRequestLocked (requestID : string) (g : Governor) : Governor :=
  g <| requestIDs ::= delete requestID |>.

(** ** Task usage

    [taskLocked] creates the record when it is missing and touches it; the
    caller mutates it through the returned pointer, here [updateTask]. *)

Definition task_of (g : Governor) (taskID : string) : taskState :=
  default newTaskState (tasks g !! taskID).

Definition taskLocked (taskID : string) : M taskState :=
  now ← Now;
  _ ← modify (λ g, g <| tasks ::=
    <[taskID := (task_of g taskID) <| lastTouched := now |>]> |>);
  gets (λ g, task_of g taskID).

Definition updateTask (taskID : string) (f : taskState → taskState) (g : Governor) : Governor :=
  g <| tasks ::= alter f taskID |>.

Definition countAttempt (t : taskState) : taskState := t <| attempts ::= Z.succ |>.
Definition countRetry (t : taskState) : taskState := t <| retries ::= Z.succ |>.

(** ** Expiry *)

(** [sort.Search]: binary search for the first index that satisfies [f]. *)
Fixpoint sort_Search (f : nat → bool) (fuel i j : nat) : nat :=
  match fuel with
  | O => i
  | S fuel' =>
    if (i <? j)%nat then
      let h := ((i + j) / 2)%nat in
      if negb (f h) then sort_Search f fuel' (h + 1)%nat j
      else sort_Search f fuel' i h
    else i
  end.

Definition expire_rate_events (cutoff : Time) (rates : list Time) : list Time :=
  let index := sort_Search (λ i, After (nth i rates zeroTime) cutoff)
    (length rates) 0 (length rates) in
  if (0 <? index)%nat then drop index rates else rates.

Definition expire_telemetry (now : Time) (t : telemetryState) : telemetryState :=
  if negb (IsZero (t_resetAt t)) && negb (Before now (t_resetAt t)) then
    t <| available := None |> <| t_resetAt := zeroTime |> <| rateLimited := false |>
      <| capacityExhausted := false |> <| t_cooldownUntil := zeroTime |>
  else t.

Definition expireLocked (now : Time) (g : Governor) : Governor :=
  let g := pruneRetentionLocked now (g <| ledger ::= ledger_expire now (3 * Hour) |>) in
  let cutoff := Add now (- RateResponseWindow (config g)) in
  g <| circuit ::= (λ c, c <| rateEvents ::= expire_rate_events cutoff |>) |>
    <| telemetry ::= expire_telemetry now |>.

(** ** The numeric local layer *)

Definition localNumericLayerApplies (g : Governor) : bool :=
  negb (bool_decide (cfg_AllowanceKind (config g) = AllowanceKindUnlimitedText)).
Definition rollingBudgetsApply (g : Governor) : bool := localNumericLayerApplies g.
Definition manualReserveApplies (g : Governor) : bool := localNumericLayerApplies g.
Definition remainingSignalApplies (g : Governor) : bool := localNumericLayerApplies g.

Definition taskRetryCountLocked (taskID : string) : M Z :=
  if String.eqb taskID "" then mret 0
  else state ← taskLocked taskID; mret (retries state).

Definition budgetLocked (now : Time) (taskID : string) : M BudgetSnapshot :=
  _ ← modify (expireLocked now);
  taskUsed ← (if String.eqb taskID "" then mret 0
              else state ← taskLocked taskID; mret (attempts state));
  retriesUsed ← taskRetryCountLocked taskID;
  gets (λ g,
    let numeric := localNumericLayerApplies g in
    let ceiling (z : Z) := if numeric then z else 0 in
    {| Rolling3hUsed := ledger_count now (3 * Hour) (ledger g);
       Rolling3hCeiling := ceiling (Rolling3h (config g));
       Automated3hCeiling := ceiling (Rolling3h (config g));
       Rolling1hUsed := ledger_count now Hour (ledger g);
       Rolling1hCeiling := ceiling (Rolling1h (config g));
       Rolling10mUsed := ledger_count now (10 * Minute) (ledger g);
       Rolling10mCeiling := ceiling (Rolling10m (config g));
       TaskUsed := taskUsed;
       TaskCeiling := TaskBudget (config g);
       RetriesUsed := retriesUsed;
       RetryCeiling := RetryBudget (config g);
       bs_ManualReserve := ceiling (ManualReserve (config g));
       ManualReserveRemaining := ceiling
         (match available (telemetry g) with
          | Some value => if value <? ManualReserve (config g) then value
                          else ManualReserve (config g)
          | None => ManualReserve (config g)
          end) |}).

(** One upstream attempt spends one unit of the observed remaining counter. *)
Definition debitRemaining (g : Governor) : Governor :=
  match available (telemetry g) with
  | Some value =>
    if remainingSignalApplies g then
      g <| telemetry ::= (λ t, t <| available :=
        Some (if 0 <? value then value - 1 else value) |>) |>
    else g
  | None => g
  end.

Definition telemetrySummaryLocked (g : Governor) : TelemetrySummary := {|
  tsum_Available := hasTelemetry g;
  tsum_Remaining := available (telemetry g);
  tsum_ResetAt := t_resetAt (telemetry g);
  tsum_CooldownUntil := t_cooldownUntil (telemetry g);
  tsum_RateLimited := rateLimited (telemetry g);
  tsum_CapacityExhausted := capacityExhausted (telemetry g);
  tsum_UpstreamCircuit := upstreamCircuit (telemetry g);
  tsum_Unsafe := unsafe (telemetry g) |}.

Definition circuitSnapshotLocked (g : Governor) : CircuitSnapshot := {|
  cs_State := cd_state (circuit g);
  cs_Reason := cd_reason (circuit g);
  cs_OpenUntil := openUntil (circuit g);
  cs_RefreshRequired := refreshRequired (circuit g) |}.

(** [transitionCircuitLocked] (circuit.go) *)
Definition transitionCircuitLocked (state : CircuitState) (reason : OutcomeClass)
    (until : Time) (g : Governor) : Governor :=
  let from := cd_state (circuit g) in
  let g := g <| circuit ::= (λ c, c <| cd_state := state |> <| cd_reason := reason |>
                                    <| openUntil := until |>) |> in
  if negb (bool_decide (from = state)) then
    queueEventLocked ((identityEvent (config g) EventCircuit)
      <| CircuitFrom := from |> <| CircuitTo := state |> <| CircuitReason := reason |>
      <| ev_CooldownUntil := until |>) g
  else g.

Definition emitAdmissionLocked (request : AttemptRequest) (result : AdmissionResult)
    (healthy : bool) : M unit :=
  events_on ← gets hasEvents;
  if negb events_on then mret tt else
  now ← Now;
  budgets ← budgetLocked now (TaskID request);
  modify (λ g, queueEventLocked ((identityEvent (config g) EventAdmission)
    <| ev_TaskID := TaskID request |> <| ev_ClientRequestID := ClientRequestID request |>
    <| ev_Admission := Some (Code result) |> <| ev_Reason := Reason result |>
    <| ev_Delay := Delay result |> <| ev_RetryAt := RetryAt result |>
    <| BudgetsBefore := budgets |> <| BudgetsAfter := budgets |>
    <| ev_Telemetry := telemetrySummaryLocked g |> <| ev_TelemetryHealthy := healthy |>
    <| ev_GatewayContractHealth := res_GatewayContractHealth result |>) g).
End state.

(** ** Telemetry *)

Section telemetry.
Context `{MapOrder} `{Env}.

(** The remaining counter after a snapshot. *)
Definition merge_remaining (snapshot : TelemetrySnapshot) (now : Time)
    (t : telemetryState) : telemetryState :=
  let lower := match ts_Remaining snapshot, available t with
               | Some r, Some a => r <? a
               | Some _, None => true
               | None, _ => false
               end in
  if After (ts_ResetAt snapshot) now then
    let t :=
      if IsZero (t_resetAt t) || negb (t_resetAt t =? ts_ResetAt snapshot)
         || negb (Before now (t_resetAt t))
      then t <| available := ts_Remaining snapshot |>
      else if lower then t <| available := ts_Remaining snapshot |> else t in
    t <| t_resetAt := ts_ResetAt snapshot |>
  else if lower then t <| available := ts_Remaining snapshot |> else t.

Definition unsafe_route (snapshot : TelemetrySnapshot) (g : Governor) : bool :=
  match ts_RouteSafety snapshot with
  | Some safety =>
    match RouteSafety_Validate safety with
    | Some _ => true
    | None => negb (RouteSafety_Equal safety (cfg_RouteSafety (config g)))
    end
  | None => false
  end.

(** [if cond { g.cooldownUntil = until }] for the two later-of updates. *)
Definition raiseTelemetryCooldown (until : Time) (g : Governor) : Governor :=
  if After until (t_cooldownUntil (telemetry g))
  then g <| telemetry ::= (λ t, t <| t_cooldownUntil := until |>) |> else g.

Definition raiseCooldown (until : Time) (g : Governor) : Governor :=
  if After until (cooldownUntil g) then g <| cooldownUntil := until |> else g.

Definition applyTelemetryLocked (snapshot : TelemetrySnapshot) (now : Time) : M unit :=
  previousReset ← gets (λ g, t_resetAt (telemetry g));
  _ ← modify (λ g, if unsafe_route snapshot g
                   then g <| telemetry ::= (λ t, t <| unsafe := true |>) |> else g);
  _ ← modify (λ g, g <| telemetry ::= merge_remaining snapshot now |>);
  _ ← modify (raiseTelemetryCooldown (ts_CooldownUntil snapshot));
  _ ← (if 0 <? ts_RetryAfter snapshot then
         let until := Add now (ts_RetryAfter snapshot) in
         _ ← modify (raiseTelemetryCooldown until);
         modify (raiseCooldown until)
       else mret tt);
  _ ← modify (raiseCooldown (ts_CooldownUntil snapshot));
  _ ← modify (λ g, g <| telemetry ::= (λ t, t <| rateLimited := ts_RateLimited snapshot |>
                                 <| capacityExhausted := ts_CapacityExhausted snapshot |>) |>);
  _ ← modify (λ g,
    if negb (bool_decide (ts_UpstreamCircuit snapshot = UpstreamCircuitUnknown))
    then g <| telemetry ::= (λ t, t <| upstreamCircuit := ts_UpstreamCircuit snapshot |>) |>
    else g);
  _ ← (if (ts_RateLimited snapshot || ts_CapacityExhausted snapshot)
          && After previousReset now && After (ts_ResetAt snapshot) now
       then
         let until := if After (ts_ResetAt snapshot) previousReset
                      then ts_ResetAt snapshot else previousReset in
         modify (λ g, transitionCircuitLocked CircuitOpenUntil OutcomeRateCapacity
                        (Add until (ResetSafetyMargin (config g))) g)
       else mret tt);
  let upstreamOpen := bool_decide (ts_UpstreamCircuit snapshot = UpstreamCircuitOpen) in
  _ ← (if upstreamOpen then modify (raiseTelemetryCooldown (ts_ResetAt snapshot)) else mret tt);
  if upstreamOpen then modify (raiseCooldown (ts_CooldownUntil snapshot)) else mret tt.
End telemetry.

(** ** Signals, construction and closing *)

(** [signalLocked]: close the waiter's channel and give it a fresh one. *)
Definition signalLocked (w : nat) (g : Governor) : Governor :=
  g <| waiters ::= alter (λ entry, entry <| notify ::= S |>) w |>.

Definition signalAllLocked (g : Governor) : Governor :=
  foldl (λ g w, signalLocked w g) g (queue g).

Definition newCircuit : circuitData := {|
  cd_state := CircuitClosed; cd_reason := OutcomeUnset; openUntil := zeroTime;
  refreshRequired := false; refreshInFlight := false; lastRateReset := zeroTime;
  rateEvents := [] |}.

(** The governor [New] builds before it restores persisted state; [telemetry]
    and [events] say which optional parts are installed. *)
Definition freshGovernor (c : Config) (source sink : bool) : Governor := {|
  config := c <| cfg_AllowanceKind := EffectiveAllowanceKind c |>;
  hasTelemetry := source; hasEvents := sink; closed := false; inFlight := false;
  queue := []; waiters := ∅; currentTask := ""; consecutiveTurns := 0;
  lastStart := zeroTime; nextAttempt := 1; ledger := emptyLedger; tasks := ∅;
  requestIDs := ∅; attemptIDs := ∅; completedRequestIDs := []; activeTaskID := "";
  circuit := newCircuit; cooldownUntil := zeroTime; telemetry := zeroTelemetryState;
  pendingEvents := []; drainingEvents := false; readings := 0 |}.

Definition Close (g : Governor) : Governor :=
  if closed g then g
  else
    let g := g <| closed := true |> in
    let g := foldl (λ g w, signalLocked w
      (g <| waiters ::= alter (λ entry, entry <| removed := true |>) w |>)) g (queue g) in
    g <| queue := [] |>.
