(* ===== verification/Circuit.v ===== *)
(** * The circuit breaker (internal/governor/circuit.go)

    What one classified outcome does to cooldown, circuit and retry
    eligibility, and the operator's acknowledgement. *)

From S2P Require Import Prelude GoTime Provider Receipts GovTypes Ledger GovState.

Local Open Scope Z_scope.
Local Open Scope runstead_scope.

(** The backoff baselines, the last of which repeats. *)
Definition backoff_bases : list Duration := [15 * Second; 30 * Second; 60 * Second; 120 * Second].

Definition min (left right : Z) : Z := if left <? right then left else right.

Definition baseline_of (sequence : Z) : Duration :=
  nth (Z.to_nat (min (sequence - 1) (Z.of_nat (length backoff_bases) - 1))) backoff_bases 0.

Definition is_security (class : OutcomeClass) : bool :=
  match class with
  | OutcomeAuthenticationDenied | OutcomeHTTP403 | OutcomeLoginChallenge | OutcomeCAPTCHA
  | OutcomeSuspiciousActivity | OutcomeAccountWarning | OutcomeFeatureRestriction => true
  | _ => false
  end.

Definition isRecoverableOutcome (class : OutcomeClass) : bool :=
  match class with
  | OutcomeRateCapacity | OutcomeConnectionReset | OutcomeTimeout | OutcomeEmptyResponse
  | OutcomeMalformedUpstream | OutcomeUpstreamServerFailure => true
  | _ => false
  end.

(** The class that is recorded: an unset class, and a cancellation the
    delivery evidence does not confirm, are uncertain. *)
Definition effective_class (outcome : Outcome) : OutcomeClass :=
  let class := if bool_decide (Class outcome = OutcomeUnset) then OutcomeUncertainReached
               else Class outcome in
  if bool_decide (class = OutcomeCancelledBeforeUpstream)
     && negb (bool_decide (effectiveDeliveryState (oc_DeliveryState outcome) = DeliveryNotSent))
  then OutcomeUncertainReached else class.

(** The instant the upstream asked to wait until; zero when it gave none. *)
Definition authoritative_until (now : Time) (outcome : Outcome) : Time :=
  let until := if 0 <? RetryAfter outcome then Add now (RetryAfter outcome) else zeroTime in
  if After (ResetAt outcome) until then ResetAt outcome else until.

Section circuit.
Context `{MapOrder} `{Env}.

(** The backoff for the [sequence]-th rate response of the window: the
    jittered baseline, never below it, unless the upstream named an instant. *)
Definition select_backoff (now : Time) (outcome : Outcome) (sequence : Z) (g : Governor)
    : Duration :=
  let baseline := baseline_of sequence in
  let jittered := jitter (readings g) baseline sequence in
  let selected := if jittered <? baseline then baseline else jittered in
  let authoritativeUntil := authoritative_until now outcome in
  if negb (IsZero authoritativeUntil) then Sub authoritativeUntil now else selected.

(** A second rate response before the previous reset opens the circuit
    through the later of the two resets plus the safety margin. *)
Definition open_before_reset (now : Time) (outcome : Outcome) (g : Governor) : Governor :=
  let previous := lastRateReset (circuit g) in
  let margin := ResetSafetyMargin (config g) in
  if negb (IsZero previous) && After (ResetAt outcome) now && Before now previous then
    let until := if After (Add (ResetAt outcome) margin) (Add previous margin)
                 then Add (ResetAt outcome) margin else Add previous margin in
    transitionCircuitLocked CircuitOpenUntil OutcomeRateCapacity until g
  else g.

(** Expire, and append the response to the window. *)
Definition note_response (now : Time) (g : Governor) : Governor :=
  (expireLocked now g) <| circuit ::= (λ c, c <| rateEvents ::= (λ es, es ++ [now]) |>) |>.

Definition note_reset (outcome : Outcome) (g : Governor) : Governor :=
  if negb (IsZero (ResetAt outcome))
  then g <| circuit ::= (λ c, c <| lastRateReset := ResetAt outcome |>) |>
  else g.

Definition review_threshold (g : Governor) : Governor :=
  if RateResponseThreshold (config g) <=? Z.of_nat (length (rateEvents (circuit g)))
  then transitionCircuitLocked CircuitHumanReviewRequired OutcomeRateCapacity zeroTime g
  else g.

(** The branch of [recordOutcomeLocked] for a rate or capacity response;
    returns the selected backoff. *)
Definition record_rate (now : Time) (outcome : Outcome) : M Duration :=
  _ ← modify (note_response now);
  sequence ← gets (λ g, Z.of_nat (length (rateEvents (circuit g))));
  selected ← gets (select_backoff now outcome sequence);
  _ ← (if 0 <? selected then modify (raiseCooldown (Add now selected)) else mret tt);
  _ ← modify (open_before_reset now outcome);
  _ ← modify (note_reset outcome);
  _ ← modify review_threshold;
  mret selected.

Definition recordOutcomeLocked (now : Time) (permit : Permit) (outcome : Outcome)
    : M FinishResult :=
  let class := effective_class outcome in
  selected ←
    (if bool_decide (class = OutcomeRateCapacity) then record_rate now outcome
     else if bool_decide (class = OutcomeAuthenticationExpired) then
       _ ← modify (λ g, g <| circuit ::= (λ c, c <| refreshRequired := true |>) |>);
       _ ← modify (transitionCircuitLocked CircuitOpenUntil class zeroTime);
       mret 0
     else if is_security class then
       _ ← modify (transitionCircuitLocked CircuitHumanReviewRequired class zeroTime);
       mret 0
     else mret 0);
  circuit ← gets circuitSnapshotLocked;
  state ← taskLocked (TaskID (request permit));
  gets (λ g, {|
    fr_Outcome := class;
    RetryEligible := isRecoverableOutcome class
      && (retries state <? RetryBudget (config g))
      && bool_decide (cd_state (GovState.circuit g) = CircuitClosed);
    fr_SelectedBackoff := selected;
    AttemptDebited := 1;
    fr_Circuit := circuit;
    fr_DeliveryState := oc_DeliveryState outcome;
    fr_Err := None |}).

Definition AcknowledgeHuman : M (option error) := λ g,
  if negb (bool_decide (cd_state (circuit g) = CircuitHumanReviewRequired))
  then (Some (ErrText "human acknowledgement is not required"), g)
  else
    let g := g <| circuit ::= (λ c, c <| rateEvents := [] |> <| lastRateReset := zeroTime |>
                                      <| refreshRequired := false |>) |> in
    (None, transitionCircuitLocked CircuitClosed OutcomeUnset zeroTime g).
End circuit.
