(* ===== verification/Admission.v ===== *)
(** * Admission (internal/governor/admission.go)

    [checkLocked] decides whether an attempt may start; [tryAdmit] and
    [queueAdmit] run it inside critical sections separated by a telemetry read
    that happens without the lock.  Each critical section is one definition. *)

From S2P Require Import Prelude GoTime Provider Receipts GovTypes Ledger GovState.

Local Open Scope Z_scope.
Local Open Scope runstead_scope.

(** ** Contexts and results *)

(** What one look at a [context.Context] sees. *)
Record Ctx := {
  ctx_nil : bool;
  ctx_Err : option error;
  ctx_Deadline : option Time
}.

Definition contextAdmissionCode (ctx : Ctx) : AdmissionCode :=
  match ctx_Err ctx with
  | Some e => if error_is ContextDeadlineExceeded e then AdmissionTaskDeadlineExceeded
              else AdmissionContextCancelled
  | None => AdmissionContextCancelled
  end.

Definition result_ (code reason : AdmissionCode) (retryAt : Time) (err : option error)
    : AdmissionResult :=
  let err :=
    match err with
    | None =>
      if negb (bool_decide (code = AdmissionAdmitted)) && negb (bool_decide (code = AdmissionDelayed))
      then Some (AdmissionError code) else None
    | Some e => if is_admission_error e then Some e else Some (AdmissionErrorCause code e)
    end in
  {| Code := code; Reason := Some reason; RetryAt := retryAt; Delay := 0; res_Permit := None;
     Err := err; TelemetryHealthy := false; res_GatewayContractHealth := None |}.

Definition contextResult (ctx : Ctx) : AdmissionResult :=
  match ctx_Err ctx with
  | None => result_ AdmissionContextCancelled AdmissionContextCancelled zeroTime (Some ContextCanceled)
  | Some e => result_ (contextAdmissionCode ctx) (contextAdmissionCode ctx) zeroTime (Some e)
  end.

(** [code = None] is the zero [admissionCheck]: the attempt may start. *)
Record admissionCheck := { ck_code : option AdmissionCode; until : Time; delayed : bool }.

Definition refuse (code : AdmissionCode) : admissionCheck :=
  {| ck_code := Some code; until := zeroTime; delayed := false |}.
Definition defer (code : AdmissionCode) (until : Time) : admissionCheck :=
  {| ck_code := Some code; until := until; delayed := true |}.
Definition pass : admissionCheck :=
  {| ck_code := None; until := zeroTime; delayed := false |}.

(** ** The queue *)

Fixpoint index_where (p : nat → bool) (ws : list nat) (i : nat) : option nat :=
  match ws with
  | [] => None
  | w :: ws' => if p w then Some i else index_where p ws' (S i)
  end.

Definition waiter_task (g : Governor) (w : nat) : string :=
  match waiters g !! w with Some entry => TaskID (w_request entry) | None => "" end.

(** The index of the waiter whose turn it is; [None] stands for -1. *)
Definition eligibleIndexLocked (g : Governor) : option nat :=
  match queue g with
  | [] => None
  | _ =>
    if negb (String.eqb (currentTask g) "") && (FairnessQuantum (config g) <=? consecutiveTurns g)
    then match index_where (λ w, negb (String.eqb (waiter_task g w) (currentTask g))) (queue g) 0 with
         | Some index => Some index
         | None => Some 0%nat
         end
    else Some 0%nat
  end.

Definition indexOfLocked (g : Governor) (target : nat) : option nat :=
  index_where (λ w, (w =? target)%nat) (queue g) 0.

Definition removeWaiterLocked (target : nat) (g : Governor) : Governor :=
  match waiters g !! target with
  | None => g
  | Some entry =>
    if removed entry then g
    else
      let mark g := g <| waiters ::= alter (λ e, e <| removed := true |>) target |> in
      let release := releaseRequestLocked (ClientRequestID (w_request entry)) in
      match indexOfLocked g target with
      | None => signalLocked target (release (mark g))
      | Some index =>
        let g := release (mark g) in
        let g := g <| queue ::= (λ ws, take index ws ++ drop (S index) ws) |> in
        signalAllLocked (signalLocked target g)
      end
  end.

Section admission.
Context `{MapOrder} `{Env}.

Definition nextAvailableLocked (now : Time) (g : Governor) : Time :=
  if negb (IsZero (lastStart g)) then Add (lastStart g) (MinimumStartInterval (config g))
  else now.

Definition delayedLocked (request : AttemptRequest) (reason : AdmissionCode) (retryAt : Time)
    (healthy : bool) : M AdmissionResult :=
  now ← Now;
  let delay := if negb (IsZero retryAt) && After retryAt now then Sub retryAt now else 0 in
  let result := {| Code := AdmissionDelayed; Reason := Some reason; RetryAt := retryAt;
                   Delay := delay; res_Permit := None; Err := None;
                   TelemetryHealthy := healthy; res_GatewayContractHealth := None |} in
  _ ← emitAdmissionLocked request result healthy;
  mret result.

Definition grantLocked (request : AttemptRequest) (healthy : bool) : M Permit := λ g,
  ({| attached := true; request := request; telemetryHealthy := healthy; started := false;
      completed := false; attemptSequence := 0; receiptAware := false; startedAt := zeroTime |},
   g <| inFlight := true |> <| activeTaskID := TaskID request |>).

(** ** The decision *)

(** The tests after the circuit: upstream breaker, cooldown, observed
    allowance, task and retry budgets, rolling windows and pacing. *)
Definition check_allowance (now : Time) (g : Governor) : option admissionCheck :=
  let t := telemetry g in
  if bool_decide (upstreamCircuit t = UpstreamCircuitOpen) then
    Some (if After (t_cooldownUntil t) now then defer AdmissionCircuitOpen (t_cooldownUntil t)
          else refuse AdmissionCircuitOpen)
  else if Before now (cooldownUntil g) then
    Some (defer AdmissionCooldownActive (cooldownUntil g))
  else
    let exhausted :=
      if After (t_resetAt t) now
      then defer AdmissionUpstreamAllowanceExhausted (t_resetAt t)
      else refuse AdmissionUpstreamAllowanceExhausted in
    if rateLimited t || capacityExhausted t then Some exhausted
    else match available t with
    | Some value =>
      if remainingSignalApplies g then
        let left := if manualReserveApplies g then value - ManualReserve (config g) else value in
        if left <=? 0 then Some exhausted else None
      else None
    | None => None
    end.

Definition check_rolling (now : Time) (g : Governor) : option admissionCheck :=
  if rollingBudgetsApply g then
    let next3h := ledger_next now (3 * Hour) (Rolling3h (config g)) (ledger g) in
    let next1h := ledger_next now Hour (Rolling1h (config g)) (ledger g) in
    let next10m := ledger_next now (10 * Minute) (Rolling10m (config g)) (ledger g) in
    if negb (IsZero next3h) then Some (defer AdmissionRollingBudgetExhausted next3h)
    else if negb (IsZero next1h) then Some (defer AdmissionRollingBudgetExhausted next1h)
    else if negb (IsZero next10m) then Some (defer AdmissionRollingBudgetExhausted next10m)
    else None
  else None.

Definition check_pacing (now : Time) (g : Governor) : option admissionCheck :=
  if negb (IsZero (lastStart g)) then
    let next := Add (lastStart g) (MinimumStartInterval (config g)) in
    if Before now next then Some (defer AdmissionDelayed next) else None
  else None.

(** The tests before the allowance: lane, safety and circuit. *)
Definition check_lane (now : Time) (g : Governor) : option admissionCheck :=
  let c := circuit g in
  if inFlight g then Some (defer AdmissionDelayed zeroTime)
  else if unsafe (telemetry g) then Some (refuse AdmissionUnsafeProviderAmplification)
  else if refreshRequired c then Some (refuse AdmissionAuthenticationRefreshRequired)
  else if bool_decide (cd_state c = CircuitHumanReviewRequired)
  then Some (refuse AdmissionHumanAcknowledgementRequired)
  else if bool_decide (cd_state c = CircuitOpenUntil) then
    if IsZero (openUntil c) then Some (refuse AdmissionCircuitOpen)
    else if Before now (openUntil c) then Some (defer AdmissionCircuitOpen (openUntil c))
    else None
  else None.

Definition checkLocked (now : Time) (request : AttemptRequest) : M admissionCheck :=
  _ ← modify (expireLocked now);
  lane ← gets (check_lane now);
  match lane with
  | Some check => mret check
  | None =>
    _ ← modify (λ g, if bool_decide (cd_state (circuit g) = CircuitOpenUntil)
                     then transitionCircuitLocked CircuitClosed OutcomeUnset zeroTime g
                     else g);
    allowance ← gets (check_allowance now);
    match allowance with
    | Some check => mret check
    | None =>
      state ← taskLocked (TaskID request);
      budget ← gets (λ g, TaskBudget (config g) <=? attempts state);
      retry ← gets (λ g, Retry request && (RetryBudget (config g) <=? retries state));
      if budget : bool then mret (refuse AdmissionTaskBudgetExhausted)
      else if retry : bool then mret (refuse AdmissionRetryBudgetExhausted)
      else
        rolling ← gets (check_rolling now);
        match rolling with
        | Some check => mret check
        | None =>
          pacing ← gets (check_pacing now);
          mret (default pass pacing)
        end
    end
  end.

(** ** Before the lock *)

Definition validateAdmissionContext (ctx : Ctx) (request : AttemptRequest)
    : M (option AdmissionResult) :=
  if String.eqb (TaskID request) "" || String.eqb (ClientRequestID request) "" then
    mret (Some (result_ AdmissionUnsafeConfiguration AdmissionUnsafeConfiguration zeroTime
      (Some (ErrText "task and client request identifiers are required"))))
  else if ctx_nil ctx then
    mret (Some (result_ AdmissionUnsafeConfiguration AdmissionUnsafeConfiguration zeroTime
      (Some (ErrText "context is required"))))
  else match ctx_Err ctx with
  | Some e =>
    mret (Some (result_ (contextAdmissionCode ctx) (contextAdmissionCode ctx) zeroTime (Some e)))
  | None =>
    match ctx_Deadline ctx with
    | Some deadline =>
      now ← Now;
      mret (if negb (Before now deadline)
            then Some (result_ AdmissionTaskDeadlineExceeded AdmissionTaskDeadlineExceeded
                         deadline (Some ContextDeadlineExceeded))
            else None)
    | None => mret None
    end
  end.

(** ** [tryAdmit] *)

(** The gate both critical sections start with: closed, duplicate, full
    queue, occupied lane.  [emitted] is the health the refusals are emitted
    with, [delay] the one of the delayed result. *)
Definition try_gate (request : AttemptRequest) (emitted delay : bool)
    : M (option AdmissionResult) :=
  closed ← gets closed;
  if closed : bool then
    mret (Some (result_ AdmissionGovernorClosed AdmissionGovernorClosed zeroTime
                  (Some ErrGovernorClosed)))
  else
    seen ← requestSeenLocked (ClientRequestID request);
    if seen : bool then
      let result := result_ AdmissionDuplicateClientRequest AdmissionDuplicateClientRequest
                      zeroTime None in
      _ ← emitAdmissionLocked request result emitted; mret (Some result)
    else
      full ← gets (λ g, QueueCapacity (config g) <=? Z.of_nat (length (queue g)));
      if full : bool then
        let result := result_ AdmissionQueueFull AdmissionQueueFull zeroTime None in
        _ ← emitAdmissionLocked request result emitted; mret (Some result)
      else
        busy ← gets (λ g, negb (length (queue g) =? 0)%nat || inFlight g);
        if busy : bool then
          now ← Now;
          retryAt ← gets (nextAvailableLocked now);
          result ← delayedLocked request AdmissionDelayed retryAt delay;
          mret (Some result)
        else mret None.

Definition tryAdmit_enter (request : AttemptRequest) : M (option AdmissionResult) :=
  try_gate request true false.

Definition admit_grant (request : AttemptRequest) (healthy : bool) : M AdmissionResult :=
  _ ← modify (reserveRequestLocked (ClientRequestID request));
  permit ← grantLocked request healthy;
  let result := {| Code := AdmissionAdmitted; Reason := None; RetryAt := zeroTime; Delay := 0;
                   res_Permit := Some permit; Err := None; TelemetryHealthy := healthy;
                   res_GatewayContractHealth := None |} in
  _ ← emitAdmissionLocked request result healthy;
  mret result.

Definition tryAdmit_decide (ctx : Ctx) (request : AttemptRequest)
    (snapshot : option TelemetrySnapshot) (healthy : bool) : M AdmissionResult :=
  gate ← try_gate request healthy healthy;
  match gate with
  | Some result => mret result
  | None =>
    match ctx_Err ctx with
    | Some e =>
      let result := result_ (contextAdmissionCode ctx) (contextAdmissionCode ctx) zeroTime
                      (Some e) in
      _ ← emitAdmissionLocked request result healthy; mret result
    | None =>
      _ ← (match snapshot with
           | Some snapshot => now ← Now; applyTelemetryLocked snapshot now
           | None => mret tt
           end);
      now ← Now;
      check ← checkLocked now request;
      match ck_code check with
      | Some code =>
        if delayed check then delayedLocked request code (until check) healthy
        else
          let result := result_ code code (until check) None in
          _ ← emitAdmissionLocked request result healthy; mret result
      | None => admit_grant request healthy
      end
    end
  end.

(** ** [queueAdmit]

    [queue_enter] is the first critical section.  One iteration of the loop
    is [queue_validate] (no lock), [queue_turn] (first critical section),
    an unlocked telemetry and clock read, and [queue_decide].  A waiter that
    has to wait keeps the channel it saw ([notify] at that moment) and an
    optional instant; when the wait ends with the context done instead,
    [queue_abandon] leaves the queue. *)

Definition queue_enter (request : AttemptRequest) : M (AdmissionResult + nat) :=
  closed ← gets closed;
  if closed : bool then
    mret (inl (result_ AdmissionGovernorClosed AdmissionGovernorClosed zeroTime
                 (Some ErrGovernorClosed)))
  else
    seen ← requestSeenLocked (ClientRequestID request);
    if seen : bool then
      let result := result_ AdmissionDuplicateClientRequest AdmissionDuplicateClientRequest
                      zeroTime None in
      _ ← emitAdmissionLocked request result true; mret (inl result)
    else
      full ← gets (λ g, QueueCapacity (config g) <=? Z.of_nat (length (queue g)));
      if full : bool then
        let result := result_ AdmissionQueueFull AdmissionQueueFull zeroTime None in
        _ ← emitAdmissionLocked request result true; mret (inl result)
      else
        w ← gets (λ g, fresh (dom (waiters g)));
        _ ← modify (λ g, g <| waiters ::= <[w := {| w_request := request; notify := 0;
                                                    checking := false; removed := false |}]> |>);
        _ ← modify (reserveRequestLocked (ClientRequestID request));
        _ ← modify (λ g, g <| queue ::= (λ ws, ws ++ [w]) |>);
        mret (inr w).

Definition queue_validate (ctx : Ctx) (request : AttemptRequest) (w : nat)
    : M (option AdmissionResult) :=
  invalid ← validateAdmissionContext ctx request;
  match invalid with
  | Some result =>
    _ ← modify (removeWaiterLocked w);
    _ ← emitAdmissionLocked request result true;
    mret (Some result)
  | None => mret None
  end.

(** What a waiter does after a critical section. *)
Inductive QueueStep :=
  | QReturn (result : AdmissionResult)
  | QWait (channel : nat) (until : Time)
  | QReadTelemetry.

Definition waiter_of (g : Governor) (w : nat) : waiter :=
  default {| w_request := {| TaskID := ""; WorkUnitID := ""; ClientRequestID := "";
               ar_ModelPool := ""; Retry := false;
               ProviderRequest := {| req_Protocol := ""; req_Prompt := ""; req_Model := "";
                                     req_ClientRequestID := "" |} |};
             notify := 0; checking := false; removed := true |} (waiters g !! w).

Definition queue_turn (ctx : Ctx) (w : nat) : M QueueStep :=
  entry ← gets (λ g, waiter_of g w);
  closed ← gets closed;
  if removed entry then
    let code := if closed : bool then AdmissionGovernorClosed else AdmissionContextCancelled in
    mret (QReturn (result_ code code zeroTime (ctx_Err ctx)))
  else if closed : bool then
    _ ← modify (removeWaiterLocked w);
    mret (QReturn (result_ AdmissionGovernorClosed AdmissionGovernorClosed zeroTime
                     (Some ErrGovernorClosed)))
  else
    turn ← gets (λ g, bool_decide (eligibleIndexLocked g = indexOfLocked g w));
    if negb turn || checking entry then mret (QWait (notify entry) zeroTime)
    else
      _ ← modify (λ g, g <| waiters ::= alter (λ e, e <| checking := true |>) w |>);
      mret QReadTelemetry.

(** The decision of a waiter that is still queued. *)
Definition queue_check (ctx : Ctx) (request : AttemptRequest)
    (snapshot : option TelemetrySnapshot) (healthy : bool) (now : Time) (w : nat)
    : M QueueStep :=
  _ ← (match snapshot with
       | Some snapshot => applyTelemetryLocked snapshot now
       | None => mret tt
       end);
  match ctx_Err ctx with
  | Some _ =>
    _ ← modify (removeWaiterLocked w);
    let result := contextResult ctx in
    _ ← emitAdmissionLocked request result healthy; mret (QReturn result)
  | None =>
    check ← checkLocked now request;
    match ck_code check with
    | Some code =>
      if delayed check then
        channel ← gets (λ g, notify (waiter_of g w));
        _ ← delayedLocked request code (until check) healthy;
        mret (QWait channel (until check))
      else
        _ ← modify (removeWaiterLocked w);
        let result := result_ code code (until check) None in
        _ ← emitAdmissionLocked request result healthy; mret (QReturn result)
    | None =>
      _ ← modify (removeWaiterLocked w);
      result ← admit_grant request healthy;
      mret (QReturn result)
    end
  end.

Definition queue_decide (ctx : Ctx) (request : AttemptRequest)
    (snapshot : option TelemetrySnapshot) (healthy : bool) (now : Time) (w : nat)
    : M QueueStep :=
  _ ← modify (λ g, g <| waiters ::= alter (λ e, e <| checking := false |>) w |>);
  entry ← gets (λ g, waiter_of g w);
  if removed entry then
    mret (QReturn (result_ AdmissionGovernorClosed AdmissionGovernorClosed zeroTime
                     (Some ErrGovernorClosed)))
  else queue_check ctx request snapshot healthy now w.

Definition queue_abandon (ctx : Ctx) (request : AttemptRequest) (healthy : bool) (w : nat)
    : M AdmissionResult :=
  _ ← modify (removeWaiterLocked w);
  let result := contextResult ctx in
  _ ← emitAdmissionLocked request result healthy;
  mret result.

(** [waitForChange] returns true once the channel is closed (a newer one has
    been installed) or, when there is an instant to wait for, it has come. *)
Definition wait_over (g : Governor) (w channel : nat) (until now : Time) : bool :=
  (channel <? notify (waiter_of g w))%nat
  || (negb (IsZero until) && (Sub until now <=? 0)).
End admission.
