(* ===== verification/Permits.v ===== *)
(** * Permits (internal/governor/permit.go)

    The life of an admitted attempt: start, cancellation and the two finish
    paths, and the credential-refresh permit.  A method returns its result and
    the permit it leaves behind, in the governor's state monad. *)

From S2P Require Import Prelude GoTime Provider Receipts GovTypes Ledger GovState Circuit.

Local Open Scope Z_scope.
Local Open Scope runstead_scope.

(** ** Credential refresh *)

Record RefreshPermit := { rp_attached : bool; finished : bool }.

Record RefreshAdmission := {
  ra_Code : AdmissionCode;
  ra_Permit : option RefreshPermit;
  ra_Err : option error
}.

Definition BeginCredentialRefresh : M RefreshAdmission := λ g,
  if negb (refreshRequired (circuit g)) then
    ({| ra_Code := AdmissionCircuitOpen; ra_Permit := None;
        ra_Err := Some (AdmissionError AdmissionCircuitOpen) |}, g)
  else if refreshInFlight (circuit g) || inFlight g || negb (length (queue g) =? 0)%nat then
    ({| ra_Code := AdmissionDelayed; ra_Permit := None;
        ra_Err := Some (AdmissionError AdmissionDelayed) |}, g)
  else
    ({| ra_Code := AdmissionAdmitted;
        ra_Permit := Some {| rp_attached := true; finished := false |}; ra_Err := None |},
     g <| circuit ::= (λ c, c <| refreshInFlight := true |>) |>).

Definition RefreshPermit_Finish (p : RefreshPermit) (success : bool)
    : M (option error * RefreshPermit) := λ g,
  if negb (rp_attached p) || finished p then ((Some ErrPermitCompleted, p), g)
  else
    let p := {| rp_attached := true; finished := true |} in
    let g := g <| circuit ::= (λ c, c <| refreshInFlight := false |>) |> in
    let g := if success
      then transitionCircuitLocked CircuitClosed OutcomeUnset zeroTime
             (g <| circuit ::= (λ c, c <| refreshRequired := false |>) |>)
      else transitionCircuitLocked CircuitHumanReviewRequired OutcomeAuthenticationExpired
             zeroTime g in
    ((None, p), g).

(** ** Outcomes of receipts *)

Definition receiptOutcome (outcome : AttemptOutcome) : OutcomeClass :=
  match outcome with
  | AttemptOutcomeSuccess => OutcomeSuccess
  | AttemptOutcomeRateCapacity => OutcomeRateCapacity
  | AttemptOutcomeAuthenticationExpired => OutcomeAuthenticationExpired
  | AttemptOutcomeAuthenticationDenied => OutcomeAuthenticationDenied
  | AttemptOutcomeHTTP403 => OutcomeHTTP403
  | AttemptOutcomeLoginChallenge => OutcomeLoginChallenge
  | AttemptOutcomeCAPTCHA => OutcomeCAPTCHA
  | AttemptOutcomeSuspiciousActivity => OutcomeSuspiciousActivity
  | AttemptOutcomeAccountWarning => OutcomeAccountWarning
  | AttemptOutcomeFeatureRestriction => OutcomeFeatureRestriction
  | AttemptOutcomeConnectionReset => OutcomeConnectionReset
  | AttemptOutcomeTimeout => OutcomeTimeout
  | AttemptOutcomeEmptyResponse => OutcomeEmptyResponse
  | AttemptOutcomeMalformedUpstream => OutcomeMalformedUpstream
  | AttemptOutcomeUpstreamServerFailure => OutcomeUpstreamServerFailure
  | _ => OutcomeUncertainReached
  end.

Definition outcomePriority (outcome : OutcomeClass) : Z :=
  match outcome with
  | OutcomeAuthenticationDenied | OutcomeHTTP403 | OutcomeLoginChallenge | OutcomeCAPTCHA
  | OutcomeSuspiciousActivity | OutcomeAccountWarning | OutcomeFeatureRestriction => 100
  | OutcomeAuthenticationExpired => 95
  | OutcomeRateCapacity => 90
  | OutcomeUncertainReached => 80
  | OutcomeConnectionReset | OutcomeTimeout => 70
  | OutcomeMalformedUpstream | OutcomeEmptyResponse | OutcomeUpstreamServerFailure => 60
  | OutcomeSuccess => 0
  | _ => 50
  end.

Definition strongerOutcome (current candidate : OutcomeClass) : OutcomeClass :=
  if outcomePriority current <? outcomePriority candidate then candidate else current.

Definition normalizeReceiptProtectionTime (remote localStart localNow : Time) : Time :=
  if Before remote localStart then localStart
  else if After remote localNow then localNow
  else remote.

Section permits.
Context `{MapOrder} `{Env} `{Rendering}.

(** The lane is released and every queued waiter is woken. *)
Definition releaseLane (g : Governor) : Governor :=
  signalAllLocked (g <| inFlight := false |> <| activeTaskID := "" |>).

Definition failed (err : error) : FinishResult := zeroFinishResult <| fr_Err := Some err |>.

Definition Permit_start (aware : bool) (p : Permit) : M (option error * Permit) :=
  if negb (attached p) || completed p then mret (Some ErrPermitCompleted, p)
  else if started p then mret (Some ErrPermitStarted, p)
  else
    held ← gets inFlight;
    if negb held then mret (Some (ErrText "permit is not held by the governor"), p) else
    now ← Now;
    let taskID := TaskID (request p) in
    before ← budgetLocked now taskID;
    sequence ← gets nextAttempt;
    let p := p <| started := true |> <| receiptAware := aware |> <| startedAt := now |>
               <| attemptSequence := sequence |> in
    _ ← modify (λ g, g <| nextAttempt ::= Z.succ |>);
    _ ← modify (markRequestActiveLocked (ClientRequestID (request p)));
    _ ← modify (λ g, if aware then g else g <| lastStart := now |>);
    _ ← modify (λ g, if String.eqb (currentTask g) taskID
                     then g <| consecutiveTurns ::= Z.succ |>
                     else g <| currentTask := taskID |> <| consecutiveTurns := 1 |>);
    if aware then mret (None, p) else
    _ ← taskLocked taskID;
    _ ← modify (updateTask taskID countAttempt);
    _ ← modify (λ g, if Retry (request p) then updateTask taskID countRetry g else g);
    _ ← modify (λ g, g <| ledger ::= ledger_add now taskID |>);
    _ ← modify debitRemaining;
    after ← budgetLocked now taskID;
    _ ← modify (λ g, queueEventLocked ((identityEvent (config g) EventAttemptStarted)
      <| ev_TaskID := taskID |> <| ev_ClientRequestID := ClientRequestID (request p) |>
      <| ev_AttemptSequence := sequence |> <| ev_Admission := Some AdmissionAdmitted |>
      <| BudgetsBefore := before |> <| BudgetsAfter := after |>
      <| ev_Telemetry := telemetrySummaryLocked g |>
      <| ev_TelemetryHealthy := telemetryHealthy p |>) g);
    mret (None, p).

Definition Start : Permit → M (option error * Permit) := Permit_start false.
Definition StartReceiptAware : Permit → M (option error * Permit) := Permit_start true.

Definition CancelBeforeStart (p : Permit) : M (option error * Permit) :=
  if negb (attached p) || completed p then mret (Some ErrPermitCompleted, p)
  else if started p then mret (Some ErrPermitStarted, p)
  else
    _ ← modify (releaseRequestLocked (ClientRequestID (request p)));
    _ ← modify (λ g, g <| inFlight := false |> <| activeTaskID := "" |>);
    _ ← emitAdmissionLocked (request p)
      {| Code := AdmissionContextCancelled; Reason := Some AdmissionContextCancelled;
         RetryAt := zeroTime; Delay := 0; res_Permit := None; Err := None;
         TelemetryHealthy := telemetryHealthy p; res_GatewayContractHealth := None |}
      (telemetryHealthy p);
    _ ← modify signalAllLocked;
    mret (None, p <| completed := true |>).

Definition CancelAfterStart (p : Permit) : M (FinishResult * Permit) :=
  if negb (attached p) || completed p then mret (failed ErrPermitCompleted, p)
  else if negb (started p) then mret (failed ErrPermitNotStarted, p)
  else
    now ← Now;
    _ ← modify (completeRequestLocked (ClientRequestID (request p)) now);
    _ ← modify releaseLane;
    _ ← modify (λ g, queueEventLocked ((identityEvent (config g) EventAttemptFinished)
      <| ev_TaskID := TaskID (request p) |>
      <| ev_ClientRequestID := ClientRequestID (request p) |>
      <| ev_AttemptSequence := attemptSequence p |>
      <| ev_Outcome := OutcomeCancelledBeforeUpstream |>
      <| CircuitTo := cd_state (circuit g) |>
      <| ev_TelemetryHealthy := telemetryHealthy p |>) g);
    circuit ← gets circuitSnapshotLocked;
    mret (zeroFinishResult <| fr_Outcome := OutcomeCancelledBeforeUpstream |>
            <| fr_Circuit := circuit |>, p <| completed := true |>).

(** The event both finish paths end with. *)
Definition finishedEvent (p : Permit) (result : FinishResult) (before after : BudgetSnapshot)
    (metadata : ResponseMetadata) (g : Governor) : Event :=
  (identityEvent (config g) EventAttemptFinished)
    <| ev_TaskID := TaskID (request p) |>
    <| ev_ClientRequestID := ClientRequestID (request p) |>
    <| ev_AttemptSequence := attemptSequence p |>
    <| ev_Outcome := fr_Outcome result |>
    <| ev_DeliveryState := fr_DeliveryState result |>
    <| ev_CooldownUntil := cooldownUntil g |>
    <| SelectedBackoff := fr_SelectedBackoff result |>
    <| CircuitTo := cs_State (fr_Circuit result) |>
    <| BudgetsBefore := before |> <| BudgetsAfter := after |>
    <| ev_Telemetry := telemetrySummaryLocked g |>
    <| ev_TelemetryHealthy := telemetryHealthy p |>
    <| AttemptMetadata := metadata |>.

(** Complete the request, release the lane and queue the finish event. *)
Definition settle (p : Permit) (now : Time) (result : FinishResult)
    (before : BudgetSnapshot) (metadata : ResponseMetadata) : M unit :=
  _ ← modify (completeRequestLocked (ClientRequestID (request p)) now);
  _ ← modify releaseLane;
  later ← Now;
  after ← budgetLocked later (TaskID (request p));
  modify (λ g, queueEventLocked (finishedEvent p result before after metadata g) g).

Definition Finish (p : Permit) (outcome : Outcome) : M (FinishResult * Permit) :=
  if negb (attached p) || completed p then mret (failed ErrPermitCompleted, p)
  else if negb (started p) then mret (failed ErrPermitNotStarted, p)
  else if receiptAware p then mret (failed ErrAttemptReceiptsRequired, p)
  else
    now ← Now;
    before ← budgetLocked now (TaskID (request p));
    result ← recordOutcomeLocked now p outcome;
    _ ← settle p now result before (Metadata outcome);
    mret (result, p <| completed := true |>).

(** ** The receipt-aware finish *)

(** [finishReceiptFailureLocked] *)
Definition finishReceiptFailureLocked (p : Permit) (err : error) (debit : bool)
    (delivery : DeliveryState) : M (FinishResult * Permit) :=
  let taskID := TaskID (request p) in
  _ ← modify (λ g, g <| telemetry ::= (λ t, t <| unsafe := true |>) |>);
  now ← Now;
  before ← budgetLocked now taskID;
  circuit ← gets circuitSnapshotLocked;
  let result := zeroFinishResult <| fr_Outcome := OutcomeUncertainReached |>
    <| fr_Err := Some err |> <| fr_Circuit := circuit |> <| fr_DeliveryState := delivery |> in
  result ←
    (if debit then
      _ ← taskLocked taskID;
      _ ← modify (updateTask taskID countAttempt);
      _ ← modify (λ g, if Retry (request p) then updateTask taskID countRetry g else g);
      let debitAt := if IsZero (startedAt p) then now else startedAt p in
      _ ← modify (λ g, g <| ledger ::= ledger_add debitAt taskID |>);
      _ ← modify debitRemaining;
      _ ← modify (λ g, g <| lastStart := debitAt |>);
      _ ← modify (λ g, queueEventLocked ((identityEvent (config g) EventUncertainAttempt)
        <| ev_TaskID := taskID |> <| ev_ClientRequestID := ClientRequestID (request p) |>
        <| ev_AttemptSequence := attemptSequence p |>
        <| ev_Outcome := OutcomeUncertainReached |> <| ev_UpstreamReached := true |>
        <| ev_DeliveryState := delivery |>
        <| ev_TelemetryHealthy := telemetryHealthy p |>) g);
      mret (result <| AttemptDebited := 1 |>)
    else mret result);
  _ ← modify (completeRequestLocked (ClientRequestID (request p)) now);
  _ ← modify releaseLane;
  after ← budgetLocked now taskID;
  _ ← modify (λ g, queueEventLocked ((identityEvent (config g) EventAttemptFinished)
    <| ev_TaskID := taskID |> <| ev_ClientRequestID := ClientRequestID (request p) |>
    <| ev_AttemptSequence := attemptSequence p |> <| ev_Outcome := fr_Outcome result |>
    <| ev_DeliveryState := fr_DeliveryState result |>
    <| BudgetsBefore := before |> <| BudgetsAfter := after |>
    <| ev_Telemetry := telemetrySummaryLocked g |>
    <| CircuitTo := cs_State (fr_Circuit result) |>
    <| ev_TelemetryHealthy := telemetryHealthy p |>) g);
  mret (result, p <| completed := true |>).

(** Debit one new receipt; returns when the attempt is protected to start. *)
Definition debitReceipt (p : Permit) (now : Time) (receipt : AttemptReceipt) : M Time :=
  let taskID := TaskID (request p) in
  let protectedAt := normalizeReceiptProtectionTime (rc_StartedAt receipt) (startedAt p) now in
  _ ← modify (λ g, g <| ledger ::= ledger_add protectedAt taskID |>);
  _ ← modify (updateTask taskID countAttempt);
  _ ← modify (λ g, if (1 <? rc_Sequence receipt) || Retry (request p)
                   then updateTask taskID countRetry g else g);
  _ ← modify (λ g, if 1 <? rc_Sequence receipt then g <| nextAttempt ::= Z.succ |> else g);
  _ ← modify debitRemaining;
  _ ← modify (λ g, queueEventLocked ((identityEvent (config g) EventUpstreamAttempt)
    <| ev_Model := rc_Model receipt |> <| ev_TaskID := taskID |>
    <| ev_ClientRequestID := ClientRequestID (request p) |>
    <| ev_AttemptSequence := rc_Sequence receipt |>
    <| ev_AttemptID := rc_AttemptID receipt |>
    <| ev_AttemptTrigger := Some (rc_Trigger receipt) |>
    <| ev_AttemptReceiptOutcome := Some (rc_Outcome receipt) |>
    <| ev_UpstreamReached := rc_UpstreamReached receipt |>
    <| ev_Outcome := receiptOutcome (rc_Outcome receipt) |>
    <| ev_TelemetryHealthy := telemetryHealthy p |>) g);
  mret protectedAt.

(** Debit every new receipt; returns the latest protected start. *)
Fixpoint debitReceipts (p : Permit) (now : Time) (receipts : list AttemptReceipt)
    (latest : Time) : M Time :=
  match receipts with
  | [] => mret latest
  | receipt :: rest =>
    protectedAt ← debitReceipt p now receipt;
    debitReceipts p now rest (if After protectedAt latest then protectedAt else latest)
  end.

Definition receipt_outcome_of (receipt : AttemptReceipt) : Outcome :=
  zeroOutcome <| Class := receiptOutcome (rc_Outcome receipt) |>
              <| UpstreamReached := rc_UpstreamReached receipt |>.

(** The logical outcome lends its timing to the last receipt when both have
    the same class, which is neither unset nor a success. *)
Definition lend_timing (outcome : Outcome) (last : bool) (value : Outcome) : Outcome :=
  if last && negb (bool_decide (Class outcome = OutcomeUnset))
     && negb (bool_decide (Class outcome = OutcomeSuccess))
     && bool_decide (Class outcome = Class value)
  then value <| RetryAfter := RetryAfter outcome |> <| ResetAt := ResetAt outcome |>
  else value.

Definition max_backoff (selected backoff : Duration) : Duration :=
  if selected <? backoff then backoff else selected.

(** Record the outcome of every new receipt in order; returns the result of
    the last one, the aggregate class and the longest backoff. *)
Fixpoint recordReceipts (p : Permit) (now : Time) (outcome : Outcome)
    (receipts : list AttemptReceipt) (result : FinishResult) (aggregate : OutcomeClass)
    (backoff : Duration) : M (FinishResult * OutcomeClass * Duration) :=
  match receipts with
  | [] => mret (result, aggregate, backoff)
  | receipt :: rest =>
    let last := (length rest =? 0)%nat in
    let value := lend_timing outcome last (receipt_outcome_of receipt) in
    record ← recordOutcomeLocked now p value;
    recordReceipts p now outcome rest (if last then record else result)
      (strongerOutcome aggregate (Class value))
      (max_backoff backoff (fr_SelectedBackoff record))
  end.

Definition receiptExpectation (p : Permit) (now : Time) (c : Config)
    : AttemptReceiptExpectation := {|
  ex_ClientRequestID := ClientRequestID (request p);
  ex_Provider := if String.eqb (AttemptProviderID c) "" then ProviderID c
                 else AttemptProviderID c;
  ex_Model := Model c;
  ex_AccountLaneHash := AccountLaneHash c;
  ex_RequestStartedAt := startedAt p;
  ex_RequestCompletedAt := now;
  ex_SingleAttempt := false;
  ex_Now := now |}.

(** The class of the logical outcome once a cancellation is checked against
    the delivery evidence. *)
Definition checkedOutcome (outcome : Outcome) : Outcome :=
  if bool_decide (Class outcome = OutcomeCancelledBeforeUpstream)
     && negb (bool_decide (effectiveDeliveryState (oc_DeliveryState outcome) = DeliveryNotSent))
  then outcome <| Class := OutcomeUncertainReached |> else outcome.

(** The part of [FinishWithAttemptReceipts] after structural validation,
    for a non-empty list of receipts that were not seen before. *)
Definition reconcileReceipts (p : Permit) (now : Time) (outcome : Outcome)
    (set : AttemptReceiptSet) (newReceipts : list AttemptReceipt) (policyErr : option error)
    : M (FinishResult * Permit) :=
  let taskID := TaskID (request p) in
  before ← budgetLocked now taskID;
  _ ← taskLocked taskID;
  latestStart ← debitReceipts p now newReceipts zeroTime;
  let outcome := checkedOutcome outcome in
  let aggregate := if bool_decide (Class outcome = OutcomeUnset) then OutcomeSuccess
                   else Class outcome in
  recorded ← recordReceipts p now outcome newReceipts zeroFinishResult aggregate 0;
  let '(result, aggregate, backoff) := recorded in
  let lastClass := match List.rev newReceipts with
                   | receipt :: _ =>
                     Class (lend_timing outcome true (receipt_outcome_of receipt))
                   | [] => OutcomeUnset
                   end in
  logical ←
    (if negb (bool_decide (Class outcome = OutcomeUnset))
        && negb (bool_decide (Class outcome = OutcomeSuccess))
        && negb (bool_decide (Class outcome = lastClass))
     then record ← recordOutcomeLocked now p outcome;
          mret (record, max_backoff backoff (fr_SelectedBackoff record))
     else mret (result, backoff));
  let '(result, backoff) := logical in
  let aggregate := if ContainsUncertain set
                   then strongerOutcome aggregate OutcomeUncertainReached else aggregate in
  let class := strongerOutcome OutcomeSuccess aggregate in
  circuit ← gets circuitSnapshotLocked;
  eligible ← gets (λ g, isRecoverableOutcome class
    && (retries (task_of g taskID) <? RetryBudget (config g))
    && bool_decide (cd_state (GovState.circuit g) = CircuitClosed));
  let result := result <| fr_Outcome := class |>
    <| AttemptDebited := Z.of_nat (length newReceipts) |>
    <| fr_SelectedBackoff := backoff |> <| fr_Circuit := circuit |>
    <| fr_DeliveryState := oc_DeliveryState outcome |> <| RetryEligible := eligible |> in
  result ←
    match policyErr with
    | Some err =>
      _ ← modify (λ g, g <| telemetry ::= (λ t, t <| unsafe := true |>) |>);
      mret (result <| fr_Err := Some err |>
        <| fr_Outcome := strongerOutcome class OutcomeUncertainReached |>
        <| RetryEligible := false |>)
    | None => mret result
    end;
  _ ← modify (λ g, if After latestStart (lastStart g) then g <| lastStart := latestStart |>
                   else g);
  _ ← settle p now result before (Metadata outcome);
  mret (result, p <| completed := true |>).

Definition FinishWithAttemptReceipts (p : Permit) (outcome : Outcome)
    (set : option AttemptReceiptSet) : M (FinishResult * Permit) :=
  if negb (attached p) || completed p then mret (failed ErrPermitCompleted, p)
  else if negb (started p) then mret (failed ErrPermitNotStarted, p)
  else if negb (receiptAware p) then mret (failed ErrAttemptReceiptsRequired, p)
  else
    now ← Now;
    expected ← gets (λ g, receiptExpectation p now (config g));
    match set with
    | None =>
      finishReceiptFailureLocked p (ErrProvider ErrInvalidAttemptReceipts) true
        (oc_DeliveryState outcome)
    | Some set =>
      match ValidateAttemptReceiptSet set expected with
      | Some e =>
        finishReceiptFailureLocked p (ErrProvider e) true (oc_DeliveryState outcome)
      | None =>
        _ ← modify (pruneAttemptIDsLocked now);
        seen ← gets attemptIDs;
        let fresh receipt := bool_decide (seen !! rc_AttemptID receipt = None) in
        let newReceipts := List.filter fresh (rset_Receipts set) in
        let replayed := negb (forallb fresh (rset_Receipts set)) in
        _ ← modify (λ g, foldl (λ g receipt,
              g <| attemptIDs ::= <[rc_AttemptID receipt := now]> |>) g newReceipts);
        let policyErr :=
          if (1 <? length (rset_Receipts set))%nat
          then ErrProvider <$> ValidateAttemptReceiptSet set (expected <| ex_SingleAttempt := true |>)
          else None in
        let policyErr := match policyErr with
                         | Some e => Some e
                         | None => if replayed then Some ErrAttemptReceiptReplayed else None
                         end in
        if (length newReceipts =? 0)%nat then
          finishReceiptFailureLocked p (default ErrAttemptReceiptReplayed policyErr) false
            (oc_DeliveryState outcome)
        else reconcileReceipts p now outcome set newReceipts policyErr
      end
    end.
End permits.
