(* ===== verification/Persist.v ===== *)
(** * Persisted protection state (internal/governor/state.go, persistence.go,
    snapshot.go, and [New] of governor.go)

    The projection a governor hands to its store, the restoration of a new
    governor from one, and the read-only snapshot. *)

From S2P Require Import Prelude GoTime Provider Receipts GovTypes Ledger GovState.

Local Open Scope Z_scope.
Local Open Scope runstead_scope.

Record TaskStateRecord := {
  tr_TaskID : string; tr_Attempts : Z; tr_Retries : Z; tr_LastTouched : Time }.
Record RequestRecordState := {
  rr_RequestID : string; rr_State : string; rr_CompletedAt : Time }.
Record AttemptIDRecord := { ar_AttemptID : string; ar_SeenAt : Time }.

Record BudgetCeilings := {
  bc_Rolling3h : Z; bc_Rolling1h : Z; bc_Rolling10m : Z; bc_TaskBudget : Z;
  bc_RetryBudget : Z; bc_ManualReserve : Z }.

Record PersistedTelemetry := {
  pt_Available : option Z; pt_ResetAt : Time; pt_CooldownUntil : Time;
  pt_RateLimited : bool; pt_CapacityExhausted : bool;
  pt_UpstreamCircuit : UpstreamCircuitState; pt_Unsafe : bool }.

(** A ledger event is persisted as the pair of its time and task. *)
Record PersistedState := {
  ps_AccountPolicyID : string;
  ps_ProviderID : string;
  ps_ModelPool : string;
  ps_Model : string;
  ps_AllowanceProfile : AllowanceProfile;
  ps_AllowanceKind : AllowanceKind;
  ps_NextAttempt : Z;
  ps_LastStart : Time;
  ps_CooldownUntil : Time;
  ps_Circuit : CircuitSnapshot;
  ps_RateEvents : list Time;
  ps_LastRateReset : Time;
  ps_Telemetry : PersistedTelemetry;
  ps_RollingEvents : list ledgerEvent;
  ps_TaskStates : list TaskStateRecord;
  ps_RequestRecords : list RequestRecordState;
  ps_AttemptIDs : list AttemptIDRecord;
  ps_Ceilings : BudgetCeilings
}.

#[export] Instance eta_PersistedState : Settable PersistedState := λ s,
  Build_PersistedState (ps_AccountPolicyID s) (ps_ProviderID s) (ps_ModelPool s) (ps_Model s)
    (ps_AllowanceProfile s) (ps_AllowanceKind s) (ps_NextAttempt s) (ps_LastStart s)
    (ps_CooldownUntil s) (ps_Circuit s) (ps_RateEvents s) (ps_LastRateReset s)
    (ps_Telemetry s) (ps_RollingEvents s) (ps_TaskStates s) (ps_RequestRecords s)
    (ps_AttemptIDs s) (ps_Ceilings s).

Definition requestStateName (state : requestState) : string :=
  match state with
  | requestPending => "pending"
  | requestActive => "active"
  | requestCompleted => "completed"
  | requestNone => ""
  end.

Definition requestStateFromName (name : string) : requestState :=
  if String.eqb name "pending" then requestPending
  else if String.eqb name "active" then requestActive
  else if String.eqb name "completed" then requestCompleted
  else requestNone.

Definition normalizeAllowanceKind (kind : AllowanceKind) (profile : AllowanceProfile)
    : AllowanceKind :=
  if AllowanceKind_Valid kind && bool_decide (kind = AllowanceKindForProfile profile)
  then kind else AllowanceKindForProfile profile.

Record TaskSnapshot := { tsn_TaskID : string; tsn_Attempts : Z; tsn_Retries : Z }.

Record GovernorSnapshot := {
  sn_AccountPolicyID : string;
  sn_ProviderID : string;
  sn_ModelPool : string;
  sn_Model : string;
  sn_AllowanceProfile : AllowanceProfile;
  sn_AllowanceKind : AllowanceKind;
  sn_InFlight : bool;
  sn_QueueLength : nat;
  sn_NextAttempt : Z;
  sn_LastStart : Time;
  sn_CooldownUntil : Time;
  sn_Budgets : BudgetSnapshot;
  sn_Circuit : CircuitSnapshot;
  sn_Telemetry : TelemetrySummary;
  sn_PendingEvents : nat;
  sn_Tasks : gmap string TaskSnapshot;
  sn_RetainedRequestIDs : nat;
  sn_RetainedAttemptIDs : nat;
  sn_RetainedTaskStates : nat
}.

Section persist.
Context `{MapOrder} `{Env}.

(** ** Persisting *)

Definition attemptIDRecords (m : gmap string Time) : list AttemptIDRecord :=
  (λ '(attemptID, seenAt), {| ar_AttemptID := attemptID; ar_SeenAt := seenAt |}) <$> range m.

Definition taskStateRecords (m : gmap string taskState) : list TaskStateRecord :=
  (λ '(taskID, record), {| tr_TaskID := taskID; tr_Attempts := attempts record;
     tr_Retries := retries record; tr_LastTouched := lastTouched record |}) <$> range m.

Definition requestRecords (m : gmap string requestRecord) : list RequestRecordState :=
  (λ '(requestID, record), {| rr_RequestID := requestID;
     rr_State := requestStateName (rr_state record);
     rr_CompletedAt := rr_completedAt record |}) <$> range m.

Definition persistedTelemetry (g : Governor) : PersistedTelemetry :=
  let summary := telemetrySummaryLocked g in {|
    pt_Available := tsum_Remaining summary;
    pt_ResetAt := tsum_ResetAt summary;
    pt_CooldownUntil := tsum_CooldownUntil summary;
    pt_RateLimited := tsum_RateLimited summary;
    pt_CapacityExhausted := tsum_CapacityExhausted summary;
    pt_UpstreamCircuit := tsum_UpstreamCircuit summary;
    pt_Unsafe := unsafe (telemetry g) |}.

Definition persistedStateLocked (g : Governor) : PersistedState := {|
  ps_AccountPolicyID := AccountPolicyID (config g);
  ps_ProviderID := ProviderID (config g);
  ps_ModelPool := ModelPool (config g);
  ps_Model := Model (config g);
  ps_AllowanceProfile := cfg_AllowanceProfile (config g);
  ps_AllowanceKind := cfg_AllowanceKind (config g);
  ps_NextAttempt := nextAttempt g;
  ps_LastStart := lastStart g;
  ps_CooldownUntil := cooldownUntil g;
  ps_Circuit := circuitSnapshotLocked g;
  ps_RateEvents := rateEvents (circuit g);
  ps_LastRateReset := lastRateReset (circuit g);
  ps_Telemetry := persistedTelemetry g;
  ps_RollingEvents := copyEvents (ledger g);
  ps_TaskStates := taskStateRecords (tasks g);
  ps_RequestRecords := requestRecords (requestIDs g);
  ps_AttemptIDs := attemptIDRecords (attemptIDs g);
  ps_Ceilings := {|
    bc_Rolling3h := Rolling3h (config g); bc_Rolling1h := Rolling1h (config g);
    bc_Rolling10m := Rolling10m (config g); bc_TaskBudget := TaskBudget (config g);
    bc_RetryBudget := RetryBudget (config g); bc_ManualReserve := ManualReserve (config g) |} |}.

(** [PersistedState] *)
Definition PersistState : M PersistedState :=
  now ← Now;
  _ ← modify (expireLocked now);
  gets persistedStateLocked.

(** ** Restoring *)

Definition restore_circuit (state : PersistedState) (c : circuitData) : circuitData :=
  let s := ps_Circuit state in
  let c := if negb (bool_decide (cs_State s = CircuitNone)) then
      c <| cd_state := cs_State s |> <| cd_reason := cs_Reason s |>
        <| openUntil := cs_OpenUntil s |> <| refreshRequired := cs_RefreshRequired s |>
    else c in
  c <| rateEvents := ps_RateEvents state |> <| lastRateReset := ps_LastRateReset state |>.

Definition restore_telemetry (pt : PersistedTelemetry) (t : telemetryState) : telemetryState :=
  let t := match pt_Available pt with
           | Some value => t <| available := Some value |>
           | None => t
           end in
  t <| t_resetAt := pt_ResetAt pt |> <| t_cooldownUntil := pt_CooldownUntil pt |>
    <| rateLimited := pt_RateLimited pt |> <| capacityExhausted := pt_CapacityExhausted pt |>
    <| upstreamCircuit := pt_UpstreamCircuit pt |> <| unsafe := pt_Unsafe pt |>.

Definition restore_event (l : rollingLedger) (event : ledgerEvent) : rollingLedger :=
  if negb (IsZero (at_ event)) then ledger_add (at_ event) (le_taskID event) l else l.

Definition restore_task (m : gmap string taskState) (record : TaskStateRecord)
    : gmap string taskState :=
  <[tr_TaskID record := {| attempts := tr_Attempts record; retries := tr_Retries record;
                           lastTouched := tr_LastTouched record |}]> m.

Definition restore_request (m : gmap string requestRecord) (record : RequestRecordState)
    : gmap string requestRecord :=
  <[rr_RequestID record := {| rr_state := requestStateFromName (rr_State record);
                              rr_completedAt := rr_CompletedAt record |}]> m.

Definition restore_attempt (m : gmap string Time) (record : AttemptIDRecord)
    : gmap string Time :=
  if negb (IsZero (ar_SeenAt record)) then <[ar_AttemptID record := ar_SeenAt record]> m else m.

(** An open window that has passed is restored closed. *)
Definition normalize_circuit (now : Time) (c : circuitData) : circuitData :=
  if bool_decide (cd_state c = CircuitOpenUntil) && negb (IsZero (openUntil c))
     && negb (Before now (openUntil c))
  then c <| cd_state := CircuitClosed |> <| cd_reason := OutcomeUnset |>
         <| openUntil := zeroTime |>
  else c.

(** The state's allowance kind is normalised and then not used: the
    configured kind stays authoritative. *)
Definition RestorePersistedState (state : PersistedState) : M unit :=
  now ← Now;
  let state := state <| ps_AllowanceKind :=
    normalizeAllowanceKind (ps_AllowanceKind state) (ps_AllowanceProfile state) |> in
  _ ← modify (λ g, if nextAttempt g <? ps_NextAttempt state
                   then g <| nextAttempt := ps_NextAttempt state |> else g);
  _ ← modify (λ g, g <| lastStart := ps_LastStart state |>);
  _ ← modify (λ g, g <| cooldownUntil := ps_CooldownUntil state |>);
  _ ← modify (λ g, g <| circuit ::= restore_circuit state |>);
  _ ← modify (λ g, g <| telemetry ::= restore_telemetry (ps_Telemetry state) |>);
  _ ← modify (λ g, g <| ledger ::= (λ l, foldl restore_event l (ps_RollingEvents state)) |>);
  _ ← modify (λ g, g <| tasks ::= (λ m, foldl restore_task m (ps_TaskStates state)) |>);
  _ ← modify (λ g, g <| requestIDs ::= (λ m, foldl restore_request m (ps_RequestRecords state)) |>);
  _ ← modify (λ g, g <| attemptIDs ::= (λ m, foldl restore_attempt m (ps_AttemptIDs state)) |>);
  _ ← modify (λ g, g <| circuit ::= normalize_circuit now |>);
  modify (pruneRetentionLocked now).

(** [New]: the optional telemetry source and event sink are [source] and
    [sink]. *)
Definition New (c : Config) (source sink : bool) (restore : option PersistedState)
    : error + Governor :=
  match Config_Validate c with
  | Some e => inl e
  | None =>
    let g := freshGovernor c source sink in
    inr (match restore with
         | Some state => exec (RestorePersistedState state) g
         | None => g
         end)
  end.

(** ** The snapshot *)

Definition Snapshot : M GovernorSnapshot :=
  now ← Now;
  _ ← modify (expireLocked now);
  tasks ← gets (λ g, map_imap (λ taskID state, Some {| tsn_TaskID := taskID;
    tsn_Attempts := attempts state; tsn_Retries := retries state |}) (tasks g));
  before ← gets id;
  budgets ← budgetLocked now "";
  gets (λ g, {|
    sn_AccountPolicyID := AccountPolicyID (config g);
    sn_ProviderID := ProviderID (config g);
    sn_ModelPool := ModelPool (config g);
    sn_Model := Model (config g);
    sn_AllowanceProfile := cfg_AllowanceProfile (config g);
    sn_AllowanceKind := cfg_AllowanceKind (config g);
    sn_InFlight := inFlight before;
    sn_QueueLength := length (queue before);
    sn_NextAttempt := nextAttempt before;
    sn_LastStart := lastStart before;
    sn_CooldownUntil := cooldownUntil before;
    sn_Budgets := budgets;
    sn_Circuit := circuitSnapshotLocked g;
    sn_Telemetry := telemetrySummaryLocked g;
    sn_PendingEvents := length (pendingEvents g);
    sn_Tasks := tasks;
    sn_RetainedRequestIDs := size (requestIDs g);
    sn_RetainedAttemptIDs := size (attemptIDs g);
    sn_RetainedTaskStates := size (GovState.tasks g) |}).
End persist.
