(* ===== verification/Frames.v ===== *)
(** * Frames: what the governor's helpers leave alone

    [calm g g'] and [quiet g g'] are preorders on states.  A calm transition
    keeps the configuration, the lane and the safety latch; a quiet one also keeps the usage
    accounting, up to expiry and pruning.  A method whose every step is calm
    or quiet is so itself, by the [bind] rules, so each helper is proved once
    and the methods built from it follow by [eauto with calm quiet]. *)

From S2P Require Import Prelude GoTime Provider Receipts GovTypes Ledger GovState Circuit.
From S2P Require Import Admission.

Local Open Scope Z_scope.
Local Open Scope runstead_scope.

Create HintDb calm.
Create HintDb quiet.

Section frames.
Context {MO : MapOrder} {EV : Env} {MC : MonotoneClock}.

Record calm (g g' : Governor) : Prop := {
  calm_config : config g' = config g;
  calm_inFlight : inFlight g' = inFlight g;
  calm_active : activeTaskID g' = activeTaskID g;
  calm_events : hasEvents g' = hasEvents g;
  calm_readings : (readings g ≤ readings g')%nat;
  calm_unsafe : unsafe (telemetry g) = true → unsafe (telemetry g') = true
}.

(** The usage a task has, missing records counting as zero. *)
Definition usage (g : Governor) (taskID : string) : Z * Z :=
  (attempts (task_of g taskID), retries (task_of g taskID)).

Record mild (g g' : Governor) : Prop := {
  mild_calm : calm g g';
  mild_task : currentTask g' = currentTask g;
  mild_turns : consecutiveTurns g' = consecutiveTurns g;
  mild_start : lastStart g' = lastStart g;
  mild_next : nextAttempt g' = nextAttempt g;
  mild_ledger : ∃ old, live (ledger g) = old ++ live (ledger g')
    ∧ ∀ e, e ∈ old → at_ e ≤ clock (readings g') - 3 * Hour;
  mild_wf : ledger_wf (ledger g) → ledger_wf (ledger g');
  mild_usage : ∀ id, usage g' id = usage g id ∨
    (usage g' id = (0, 0) ∧ ¬ (inFlight g = true ∧ activeTaskID g = id))
}.

(** A quiet transition also leaves the queue, its waiters and the closed flag. *)
Record quiet (g g' : Governor) : Prop := {
  quiet_mild : mild g g';
  quiet_queue : queue g' = queue g;
  quiet_waiters : waiters g' = waiters g;
  quiet_closed : closed g' = closed g
}.

(** A serene transition is calm and leaves the queue, whatever it does to the
    accounting. *)
Record serene (g g' : Governor) : Prop := {
  serene_calm : calm g g';
  serene_queue : queue g' = queue g;
  serene_waiters : waiters g' = waiters g;
  serene_closed : closed g' = closed g
}.

#[export] Instance calm_preorder : PreOrder calm.
Proof.
  split.
  - by intros g.
  - intros g1 g2 g3 [] []. split; try congruence; [lia|auto].
Qed.

#[export] Instance mild_preorder : PreOrder mild.
Proof.
  split.
  - intros g. split; try done; [by exists []; set_solver|by left].
  - intros g1 g2 g3 [] []. split; try congruence; [by etrans| |auto|].
    + destruct mild_ledger0 as (o1 & Hl1 & Ho1), mild_ledger1 as (o2 & Hl2 & Ho2).
      exists (o1 ++ o2). split; [by rw Hl1 Hl2 app_assoc|].
      pose proof (clock_mono _ _ (calm_readings _ _ mild_calm1)).
      intros e [He|He]%elem_of_app; [specialize (Ho1 _ He); lia|auto].
    + intros id. destruct (mild_usage0 id) as [U1|[U1 P1]], (mild_usage1 id) as [U2|[U2 P2]].
      * left. congruence.
      * right. split; [done|]. rw -(calm_inFlight _ _ mild_calm0) -(calm_active _ _ mild_calm0) //.
      * right. split; [congruence|done].
      * right. done.
Qed.

#[export] Instance quiet_preorder : PreOrder quiet.
Proof.
  split.
  - by intros g.
  - intros g1 g2 g3 [] []. split; [by etrans|congruence..].
Qed.

#[export] Instance serene_preorder : PreOrder serene.
Proof.
  split.
  - by intros g.
  - intros g1 g2 g3 [] []. split; [by etrans|congruence..].
Qed.

Lemma quiet_is_serene g g' : quiet g g' → serene g g'.
Proof. intros [[]]. by split. Qed.

Lemma mild_is_calm g g' : mild g g' → calm g g'.
Proof. by intros []. Qed.
Lemma quiet_is_calm g g' : quiet g g' → calm g g'.
Proof. intros [[]]. done. Qed.

(** ** Rules for methods *)

(** From states whose clock has reached [t], the method only makes
    transitions of [R]. *)
Definition keeps {A} (R : Governor → Governor → Prop) (t : Time) (m : M A) : Prop :=
  ∀ g, t ≤ clock (readings g) → R g (m g).2.

Section rules.
Context (R : Governor → Governor → Prop) `{!PreOrder R}.
Context (R_readings : ∀ g g', R g g' → (readings g ≤ readings g')%nat).
Context (R_tick : ∀ g, R g (g <| readings ::= S |>)).

Lemma keeps_ret {A} t (a : A) : keeps R t (mret a).
Proof. by intros g _. Qed.

Lemma keeps_gets {A} t (f : Governor → A) : keeps R t (gets f).
Proof. by intros g _. Qed.

Lemma keeps_modify t (f : Governor → Governor) :
  (∀ g, t ≤ clock (readings g) → R g (f g)) → keeps R t (modify f).
Proof. done. Qed.

Lemma keeps_bind {A B} t (m : M A) (k : A → M B) :
  keeps R t m → (∀ a, keeps R t (k a)) → keeps R t (x ← m; k x).
Proof.
  intros Hm Hk g Hg. rw bind_run. etrans; [by apply Hm|]. apply Hk.
  pose proof (clock_mono _ _ (R_readings _ _ (Hm g Hg))). lia.
Qed.

(** After a clock reading, the bound is that reading. *)
Lemma keeps_Now {B} t (k : Time → M B) :
  (∀ now, t ≤ now → keeps R now (k now)) → keeps R t (x ← Now; k x).
Proof.
  intros Hk g Hg. rw bind_run /=. etrans; [apply R_tick|].
  apply Hk; simpl; [done|]. apply clock_mono. lia.
Qed.

Lemma keeps_weaken {A} t t' (m : M A) : t' ≤ t → keeps R t' m → keeps R t m.
Proof. intros Ht Hm g Hg. apply Hm. lia. Qed.

Lemma keeps_if {A} t (b : bool) (m n : M A) :
  keeps R t m → keeps R t n → keeps R t (if b then m else n).
Proof. by destruct b. Qed.

Lemma keeps_match_option {A B} t (o : option B) (m : B → M A) (n : M A) :
  (∀ x, keeps R t (m x)) → keeps R t n →
  keeps R t (match o with Some x => m x | None => n end).
Proof. destruct o; auto. Qed.
End rules.

(** ** The two frames *)

(** A transition that leaves the lane, the accounting and the tasks alone is
    quiet, whatever it does to request records, queue, circuit or events. *)
Lemma mild_same g g' :
  config g' = config g → inFlight g' = inFlight g →
  activeTaskID g' = activeTaskID g → hasEvents g' = hasEvents g →
  (readings g ≤ readings g')%nat →
  (unsafe (telemetry g) = true → unsafe (telemetry g') = true) →
  currentTask g' = currentTask g →
  consecutiveTurns g' = consecutiveTurns g → lastStart g' = lastStart g →
  nextAttempt g' = nextAttempt g → ledger g' = ledger g → tasks g' = tasks g →
  mild g g'.
Proof.
  intros ?????????? Hl Ht. split; try done.
  - exists []. rw Hl. split; [done|set_solver].
  - by rw Hl.
  - intros id. left. by rw /usage /task_of Ht.
Qed.

Lemma quiet_same g g' :
  config g' = config g → inFlight g' = inFlight g →
  activeTaskID g' = activeTaskID g → hasEvents g' = hasEvents g →
  (readings g ≤ readings g')%nat →
  (unsafe (telemetry g) = true → unsafe (telemetry g') = true) →
  currentTask g' = currentTask g →
  consecutiveTurns g' = consecutiveTurns g → lastStart g' = lastStart g →
  nextAttempt g' = nextAttempt g → ledger g' = ledger g → tasks g' = tasks g →
  queue g' = queue g → waiters g' = waiters g → closed g' = closed g →
  quiet g g'.
Proof. intros. split; [by apply mild_same|done..]. Qed.

Lemma quiet_tick g : quiet g (g <| readings ::= S |>).
Proof. apply quiet_same; simpl; auto. Qed.

Lemma calm_tick g : calm g (g <| readings ::= S |>).
Proof. apply quiet_is_calm, quiet_tick. Qed.

Lemma quiet_readings g g' : quiet g g' → (readings g ≤ readings g')%nat.
Proof. intros [[[]]]. done. Qed.

Definition calmly {A} : Time → M A → Prop := keeps calm.
Definition quietly {A} : Time → M A → Prop := keeps quiet.

Lemma quietly_calmly {A} t (m : M A) : quietly t m → calmly t m.
Proof. intros Hm g Hg. by apply quiet_is_calm, Hm. Qed.

Lemma quietly_bind {A B} t (m : M A) (k : A → M B) :
  quietly t m → (∀ a, quietly t (k a)) → quietly t (x ← m; k x).
Proof. apply keeps_bind; [apply _|apply quiet_readings]. Qed.

Lemma calmly_bind {A B} t (m : M A) (k : A → M B) :
  calmly t m → (∀ a, calmly t (k a)) → calmly t (x ← m; k x).
Proof. apply keeps_bind; [apply _|apply calm_readings]. Qed.

Lemma quietly_Now {B} t (k : Time → M B) :
  (∀ now, t ≤ now → quietly now (k now)) → quietly t (x ← Now; k x).
Proof. apply keeps_Now; [apply _|apply quiet_tick]. Qed.

Lemma calmly_Now {B} t (k : Time → M B) :
  (∀ now, t ≤ now → calmly now (k now)) → calmly t (x ← Now; k x).
Proof. apply keeps_Now; [apply _|apply calm_tick]. Qed.

Lemma quietly_ret {A} t (a : A) : quietly t (mret a).
Proof. apply keeps_ret, _. Qed.
Lemma calmly_ret {A} t (a : A) : calmly t (mret a).
Proof. apply keeps_ret, _. Qed.
Lemma quietly_gets {A} t (f : Governor → A) : quietly t (gets f).
Proof. apply keeps_gets, _. Qed.
Lemma quietly_modify t (f : Governor → Governor) :
  (∀ g, t ≤ clock (readings g) → quiet g (f g)) → quietly t (modify f).
Proof. done. Qed.
Lemma calmly_modify t (f : Governor → Governor) :
  (∀ g, t ≤ clock (readings g) → calm g (f g)) → calmly t (modify f).
Proof. done. Qed.
Lemma quietly_weaken {A} t t' (m : M A) : t' ≤ t → quietly t' m → quietly t m.
Proof. apply keeps_weaken. Qed.

(** ** Pure helpers *)

Lemma quiet_queueEvent e g : quiet g (queueEventLocked e g).
Proof. rw /queueEventLocked. case_match; [|reflexivity]. by apply quiet_same. Qed.

Lemma quiet_transition state reason until g :
  quiet g (transitionCircuitLocked state reason until g).
Proof.
  rw /transitionCircuitLocked. case_match; [etrans; [|apply quiet_queueEvent]|];
    by apply quiet_same.
Qed.

Lemma quiet_debitRemaining g : quiet g (debitRemaining g).
Proof. rw /debitRemaining. do 2 (case_match; [|reflexivity]). by apply quiet_same. Qed.

Lemma quiet_reserve id g : quiet g (reserveRequestLocked id g).
Proof. by apply quiet_same. Qed.
Lemma quiet_release id g : quiet g (releaseRequestLocked id g).
Proof. by apply quiet_same. Qed.
Lemma quiet_markActive id g : quiet g (markRequestActiveLocked id g).
Proof. rw /markRequestActiveLocked. case_match; [by apply quiet_same|reflexivity]. Qed.
Lemma quiet_complete id t g : quiet g (completeRequestLocked id t g).
Proof. rw /completeRequestLocked. case_match; [by apply quiet_same|reflexivity]. Qed.

(** Eviction only deletes entries that are not protected. *)
Lemma evict_lookup {A} (time : A → Time) protect max fuel (m : gmap string A) id :
  evict time protect max fuel m !! id = m !! id
  ∨ (evict time protect max fuel m !! id = None ∧ protect id = false).
Proof.
  assert (Hold : ∀ l best, (foldl (oldest_step time protect) best l).1 = best.1 ∨
    protect (foldl (oldest_step time protect) best l).1 = false).
  { induction l as [|[k x] l IH]; intros best; simpl; [by left|].
    destruct (IH (oldest_step time protect best (k, x))) as [->|?]; [|by right].
    rw /oldest_step /=. destruct (protect k) eqn:?; [by left|].
    case_match; [by right|by left]. }
  revert m. induction fuel as [|fuel IH]; intros m; simpl; [by left|].
  case_match; [|by left]. case_match; [by left|].
  assert (protect (oldest time protect m) = false) as Hp.
  { destruct (Hold (range m) (""%string, zeroTime)) as [E|E]; [|done].
    match goal with Hne : String.eqb _ _ = false |- _ => rw /oldest E in Hne end. done. }
  destruct (IH (delete (oldest time protect m) m)) as [E|[E ?]]; [|by right]. rw E.
  destruct (decide (oldest time protect m = id)) as [<-|Hne].
  - right. by rw lookup_delete_eq.
  - left. by rw lookup_delete_ne.
Qed.

Lemma prune_tasks_lookup now protect m id :
  prune_tasks now protect m !! id = m !! id
  ∨ (prune_tasks now protect m !! id = None ∧ protect id = false).
Proof.
  rw /prune_tasks. set (m' := filter _ m).
  assert (m' !! id = m !! id ∨ (m' !! id = None ∧ protect id = false)) as Hm'.
  { destruct (m !! id) as [st|] eqn:E; [|left; by apply map_lookup_filter_None; left].
    destruct (protect id || After (lastTouched st) (Add now (- taskRetentionWindow))) eqn:F.
    - left. by apply map_lookup_filter_Some.
    - right. split; [|by apply orb_false_iff in F as []]. apply map_lookup_filter_None.
      right. intros st' Hst' HP. simplify_eq/=. congruence. }
  destruct (evict_lookup lastTouched protect maxRetainedTaskStates (size m') m' id) as [->|[-> ?]];
    [done|by right].
Qed.

Lemma quiet_prune now g : quiet g (pruneRetentionLocked now g).
Proof.
  split; [split; try done; [by exists []; set_solver|]|done..].
  - intros id. rw /usage /task_of.
    destruct (prune_tasks_lookup now (taskProtected (pruneAttemptIDsLocked now g)) (tasks g) id)
      as [E|[E P]].
    + left. by rw /pruneRetentionLocked /= E.
    + right. rw /pruneRetentionLocked /= E /=. split; [done|]. intros [Hin Hact].
      rw /taskProtected /= Hin Hact String.eqb_refl in P. done.
Qed.

Lemma quiet_expire_ledger now g :
  now ≤ clock (readings g) → quiet g (g <| ledger ::= ledger_expire now (3 * Hour) |>).
Proof.
  intros Hnow. split; [split; try done|done..].
  - simpl. destruct (expire_drops now (3 * Hour) (ledger g)) as (old & Hl & Hold).
    exists old. split; [done|]. intros e He. specialize (Hold e He). lia.
  - simpl. apply ledger_wf_expire.
  - by left.
Qed.

Lemma unsafe_expire now t : unsafe (expire_telemetry now t) = unsafe t.
Proof. rw /expire_telemetry. by case_match. Qed.

Lemma quiet_expire now g : now ≤ clock (readings g) → quiet g (expireLocked now g).
Proof.
  intros Hnow. rw /expireLocked. etrans; [by apply (quiet_expire_ledger now)|].
  etrans; [apply (quiet_prune now)|]. apply quiet_same; simpl; auto. by rw unsafe_expire.
Qed.
End frames.

(** ** Methods *)

#[export] Hint Resolve quiet_queueEvent quiet_transition quiet_debitRemaining quiet_reserve
  quiet_release quiet_markActive quiet_complete quiet_prune quiet_is_calm : quiet.
#[export] Hint Extern 2 (quiet _ (expireLocked _ _)) => apply quiet_expire; lia : quiet.
#[export] Hint Extern 4 (quiet ?g ?g) => reflexivity : quiet.

(** Walk through a method, one [bind] at a time, reducing it to its helpers. *)
Ltac quiet_step :=
  lazymatch goal with
  | |- quietly _ (mbind _ Now) => apply quietly_Now; intros ? ?
  | |- quietly _ (mbind _ _) => apply quietly_bind; [|intros ?]
  | |- quietly _ (mret _) => apply quietly_ret
  | |- quietly _ (gets _) => apply quietly_gets
  | |- quietly _ (modify _) => apply quietly_modify; intros ? ?
  | |- quietly _ (match _ with _ => _ end) => case_match
  | |- quietly _ _ => solve [eauto 3 with quiet]
  | |- quiet _ (match _ with _ => _ end) => case_match
  | |- quiet _ _ => solve [eauto 3 with quiet]
  end.
Ltac quiet_auto := repeat quiet_step.

Section methods.
Context {MO : MapOrder} {EV : Env} {MC : MonotoneClock}.

Lemma quietly_taskLocked t id : quietly t (taskLocked id).
Proof.
  apply quietly_Now. intros now _. apply quietly_bind; [|intros; apply quietly_gets].
  apply quietly_modify. intros g _. split; [split; try done|done..].
  - exists []. set_solver.
  - intros id'. left. rw /usage /task_of /=. destruct (decide (id = id')) as [<-|].
    + by rw lookup_insert_eq.
    + by rw lookup_insert_ne.
Qed.

#[local] Hint Resolve quietly_taskLocked : quiet.

Lemma quietly_taskRetryCount t id : quietly t (taskRetryCountLocked id).
Proof. rw /taskRetryCountLocked. quiet_auto. Qed.

#[local] Hint Resolve quietly_taskRetryCount : quiet.

Lemma quietly_budget t now id : now ≤ t → quietly t (budgetLocked now id).
Proof.
  intros Hnow. apply quietly_bind.
  { apply quietly_modify. intros g Hg. apply quiet_expire. lia. }
  intros _. quiet_auto.
Qed.

#[local] Hint Extern 2 (quietly _ (budgetLocked _ _)) => apply quietly_budget; lia : quiet.

Lemma quietly_emitAdmission t request result healthy :
  quietly t (emitAdmissionLocked request result healthy).
Proof. rw /emitAdmissionLocked. quiet_auto. Qed.

Lemma quietly_requestSeen t id : quietly t (requestSeenLocked id).
Proof. rw /requestSeenLocked. quiet_auto. Qed.

#[local] Hint Resolve quietly_emitAdmission quietly_requestSeen : quiet.

Lemma unsafe_merge snapshot now t : unsafe (merge_remaining snapshot now t) = unsafe t.
Proof. rw /merge_remaining. by repeat case_match. Qed.

(** An update whose other fields are unchanged by computation. *)
#[local] Hint Extern 5 (quiet _ (upd _ _)) =>
  by apply quiet_same; simpl; rw ?unsafe_merge; auto : quiet.

Lemma quiet_raiseTelemetryCooldown until g : quiet g (raiseTelemetryCooldown until g).
Proof. rw /raiseTelemetryCooldown. quiet_auto. Qed.

Lemma quiet_raiseCooldown until g : quiet g (raiseCooldown until g).
Proof. rw /raiseCooldown. quiet_auto. Qed.

#[local] Hint Resolve quiet_raiseTelemetryCooldown quiet_raiseCooldown : quiet.

Lemma quietly_applyTelemetry t snapshot now : quietly t (applyTelemetryLocked snapshot now).
Proof. rw /applyTelemetryLocked. quiet_auto. Qed.

Lemma quiet_open_before_reset now outcome g : quiet g (open_before_reset now outcome g).
Proof. rw /open_before_reset. quiet_auto. Qed.

#[local] Hint Resolve quietly_applyTelemetry quiet_open_before_reset : quiet.

Lemma quiet_note_response now g :
  now ≤ clock (readings g) → quiet g (note_response now g).
Proof.
  intros Hnow. rw /note_response. etrans; [by apply quiet_expire|].
  generalize (expireLocked now g). intros h. by apply quiet_same; simpl.
Qed.

Lemma quiet_note_reset outcome g : quiet g (note_reset outcome g).
Proof. rw /note_reset. quiet_auto. Qed.

Lemma quiet_review_threshold g : quiet g (review_threshold g).
Proof. rw /review_threshold. quiet_auto. Qed.

#[local] Hint Resolve quiet_note_reset quiet_review_threshold : quiet.
#[local] Hint Extern 2 (quiet _ (note_response _ _)) => apply quiet_note_response; lia : quiet.

Lemma quietly_record_rate t now outcome : now ≤ t → quietly t (record_rate now outcome).
Proof. intros Hnow. rw /record_rate. quiet_auto. Qed.

#[local] Hint Extern 2 (quietly _ (record_rate _ _)) => apply quietly_record_rate; lia : quiet.

Lemma quietly_recordOutcome t now p outcome :
  now ≤ t → quietly t (recordOutcomeLocked now p outcome).
Proof. intros Hnow. rw /recordOutcomeLocked. quiet_auto. Qed.

Lemma quietly_delayed t request reason retryAt healthy :
  quietly t (delayedLocked request reason retryAt healthy).
Proof. rw /delayedLocked. quiet_auto. Qed.

#[local] Hint Resolve quietly_delayed : quiet.

Lemma quietly_try_gate t request emitted delay : quietly t (try_gate request emitted delay).
Proof. rw /try_gate. quiet_auto. Qed.

Lemma quietly_checkLocked t now request : now ≤ t → quietly t (checkLocked now request).
Proof. intros Hnow. rw /checkLocked. quiet_auto. Qed.

Lemma quietly_validateContext t ctx request : quietly t (validateAdmissionContext ctx request).
Proof. rw /validateAdmissionContext. quiet_auto. Qed.
End methods.

#[export] Hint Resolve quietly_taskLocked quietly_taskRetryCount quietly_emitAdmission
  quietly_requestSeen quietly_applyTelemetry quietly_delayed quietly_try_gate
  quietly_validateContext quiet_open_before_reset quiet_raiseCooldown
  quiet_raiseTelemetryCooldown : quiet.
#[export] Hint Extern 2 (quietly _ (budgetLocked _ _)) => apply quietly_budget; lia : quiet.
#[export] Hint Extern 2 (quietly _ (record_rate _ _)) => apply quietly_record_rate; lia : quiet.
#[export] Hint Extern 2 (quietly _ (recordOutcomeLocked _ _ _)) =>
  apply quietly_recordOutcome; lia : quiet.
#[export] Hint Extern 2 (quietly _ (checkLocked _ _)) => apply quietly_checkLocked; lia : quiet.
#[export] Hint Extern 5 (quiet _ (upd _ _)) => by apply quiet_same; simpl; auto : quiet.
