(* ===== verification/Admissible.v ===== *)
(** * What admission promises

    [admissible now request g] is the contract of [checkLocked]: the
    conditions under which the account policy lets an attempt start.  The
    check passes exactly when it holds, and a permit is only ever granted in
    such a state. *)

From S2P Require Import Prelude GoTime Provider Receipts GovTypes Ledger GovState Circuit.
From S2P Require Import Admission Frames.

Local Open Scope Z_scope.
Local Open Scope runstead_scope.

(** The circuit lets an attempt through at [now]: it is closed, or it was open
    until an instant that has come. *)
Definition circuit_admits (now : Time) (c : circuitData) : Prop :=
  refreshRequired c = false ∧ cd_state c ≠ CircuitHumanReviewRequired
  ∧ (cd_state c = CircuitOpenUntil → openUntil c ≠ zeroTime ∧ openUntil c ≤ now).

(** The observed upstream state lets an attempt through. *)
Definition upstream_admits (now : Time) (g : Governor) : Prop :=
  upstreamCircuit (telemetry g) ≠ UpstreamCircuitOpen
  ∧ cooldownUntil g ≤ now
  ∧ rateLimited (telemetry g) = false ∧ capacityExhausted (telemetry g) = false
  ∧ (cfg_AllowanceKind (config g) ≠ AllowanceKindUnlimitedText →
     ∀ value, available (telemetry g) = Some value → 0 < value - ManualReserve (config g)).

(** The three rolling windows have room, when the policy is numeric. *)
Definition windows_admit (now : Time) (g : Governor) : Prop :=
  cfg_AllowanceKind (config g) ≠ AllowanceKindUnlimitedText →
  ledger_count now (3 * Hour) (ledger g) < Rolling3h (config g)
  ∧ ledger_count now Hour (ledger g) < Rolling1h (config g)
  ∧ ledger_count now (10 * Minute) (ledger g) < Rolling10m (config g).

(** What the numeric layer assumes: positive ceilings, and starts recorded at
    instants after the zero time. *)
Record accountable (g : Governor) : Prop := {
  acc_ceilings : cfg_AllowanceKind (config g) ≠ AllowanceKindUnlimitedText →
    0 < Rolling3h (config g) ∧ 0 < Rolling1h (config g) ∧ 0 < Rolling10m (config g);
  acc_events : ∀ e, e ∈ live (ledger g) → zeroTime < at_ e
}.

Definition pacing_admits (now : Time) (g : Governor) : Prop :=
  lastStart g ≠ zeroTime → lastStart g + MinimumStartInterval (config g) ≤ now.

Definition budgets_admit (request : AttemptRequest) (g : Governor) : Prop :=
  attempts (task_of g (TaskID request)) < TaskBudget (config g)
  ∧ (Retry request = true → retries (task_of g (TaskID request)) < RetryBudget (config g)).

Record admissible (now : Time) (request : AttemptRequest) (g : Governor) : Prop := {
  adm_free : inFlight g = false;
  adm_safe : unsafe (telemetry g) = false;
  adm_circuit : circuit_admits now (circuit g);
  adm_upstream : upstream_admits now g;
  adm_budgets : budgets_admit request g;
  adm_windows : windows_admit now g;
  adm_pacing : pacing_admits now g
}.

Section admissible.
Context {MO : MapOrder} {EV : Env}.

(** ** The tests, one group at a time *)

Lemma check_lane_None now g :
  check_lane now g = None ↔
    inFlight g = false ∧ unsafe (telemetry g) = false ∧ circuit_admits now (circuit g).
Proof.
  rw /check_lane !guard_None /circuit_admits bool_decide_eq_false.
  enough ((if bool_decide (cd_state (circuit g) = CircuitOpenUntil) then
      if IsZero (openUntil (circuit g)) then Some (refuse AdmissionCircuitOpen)
      else if Before now (openUntil (circuit g))
           then Some (defer AdmissionCircuitOpen (openUntil (circuit g))) else None
    else None) = None ↔
    (cd_state (circuit g) = CircuitOpenUntil →
     openUntil (circuit g) ≠ zeroTime ∧ openUntil (circuit g) ≤ now)) by tauto.
  case_bool_decide; [|naive_solver].
  rw !guard_None IsZero_false Before_false. naive_solver.
Qed.

Lemma numeric_spec g :
  localNumericLayerApplies g = true ↔ cfg_AllowanceKind (config g) ≠ AllowanceKindUnlimitedText.
Proof. by rw /localNumericLayerApplies negb_true_iff bool_decide_eq_false. Qed.

Lemma check_allowance_None now g : check_allowance now g = None ↔ upstream_admits now g.
Proof.
  rw /check_allowance /upstream_admits /remainingSignalApplies /manualReserveApplies.
  rw !guard_None bool_decide_eq_false Before_false orb_false_iff.
  pose proof (numeric_spec g) as Hn.
  enough (match available (telemetry g) with
    | Some value => if localNumericLayerApplies g then
        (if (if localNumericLayerApplies g then value - ManualReserve (config g) else value) <=? 0
         then Some (if After (t_resetAt (telemetry g)) now
                    then defer AdmissionUpstreamAllowanceExhausted (t_resetAt (telemetry g))
                    else refuse AdmissionUpstreamAllowanceExhausted) else None) else None
    | None => None end = None ↔
    (cfg_AllowanceKind (config g) ≠ AllowanceKindUnlimitedText →
     ∀ value, available (telemetry g) = Some value → 0 < value - ManualReserve (config g)))
    by tauto.
  destruct (available (telemetry g)) as [value|]; [|naive_solver].
  destruct (localNumericLayerApplies g).
  - rw guard_None Z.leb_gt. split; [naive_solver|].
    intros Hv. split; [apply Hv; naive_solver|done].
  - split; [|done]. intros _ Hk. by apply Hn in Hk.
Qed.

Lemma check_rolling_None now g :
  accountable g → check_rolling now g = None ↔ windows_admit now g.
Proof.
  intros [Hc He].
  rw /check_rolling /windows_admit /rollingBudgetsApply. pose proof (numeric_spec g) as Hn.
  destruct (localNumericLayerApplies g).
  - destruct Hc as (?&?&?); [by apply Hn|].
    assert (∀ w, 0 ≤ w → ∀ e, e ∈ live (ledger g) → zeroTime < at_ e + w) as Hw.
    { intros w Hw e Hin. specialize (He e Hin). lia. }
    rw !guard_None !negb_false_iff !IsZero_spec !next_zero //.
    all: try (apply Hw; rw /Hour /Minute /Second; lia). naive_solver.
  - split; [|done]. intros _ Hk. by apply Hn in Hk.
Qed.

Lemma check_pacing_None now g : check_pacing now g = None ↔ pacing_admits now g.
Proof.
  rw /check_pacing /pacing_admits /Add. destruct (IsZero (lastStart g)) eqn:E; time_spec; simpl.
  - naive_solver.
  - rw guard_None Before_false. naive_solver.
Qed.

(** No test that fails returns a check without a code. *)
Lemma check_code now g :
  (∀ c, check_lane now g = Some c → ck_code c ≠ None) ∧
  (∀ c, check_allowance now g = Some c → ck_code c ≠ None) ∧
  (∀ c, check_rolling now g = Some c → ck_code c ≠ None) ∧
  (∀ c, check_pacing now g = Some c → ck_code c ≠ None).
Proof.
  rw /check_lane /check_allowance /check_rolling /check_pacing.
  split_and!; intros c Hc; repeat (case_match; simplify_eq/=; try done).
Qed.

(** ** Running the check *)

Lemma transition_run state reason until g : ∃ es,
  transitionCircuitLocked state reason until g =
    g <| circuit ::= (λ c, c <| cd_state := state |> <| cd_reason := reason |>
                           <| openUntil := until |>) |>
      <| pendingEvents := es |>.
Proof.
  rw /transitionCircuitLocked /queueEventLocked. destruct g. simpl.
  repeat case_match; by eexists.
Qed.

Definition touched (g : Governor) (id : string) : taskState :=
  (task_of g id) <| lastTouched := clock (readings g) |>.

Lemma taskLocked_run id g :
  taskLocked id g
  = (touched g id, g <| readings ::= S |> <| tasks ::= <[id := touched g id]> |>).
Proof.
  unfold taskLocked. rw !bind_run. unfold Now, modify, gets, touched, task_of. simpl.
  by rw lookup_insert_eq.
Qed.

Lemma upstream_admits_same now g g' :
  telemetry g' = telemetry g → cooldownUntil g' = cooldownUntil g → config g' = config g →
  upstream_admits now g' ↔ upstream_admits now g.
Proof. rw /upstream_admits. by intros -> -> ->. Qed.

Lemma windows_admit_same now g g' :
  ledger g' = ledger g → config g' = config g → windows_admit now g' ↔ windows_admit now g.
Proof. rw /windows_admit. by intros -> ->. Qed.

Lemma pacing_admits_same now g g' :
  lastStart g' = lastStart g → config g' = config g → pacing_admits now g' ↔ pacing_admits now g.
Proof. rw /pacing_admits. by intros -> ->. Qed.

Lemma tail_admits_same g g' now request :
  telemetry g' = telemetry g → cooldownUntil g' = cooldownUntil g → config g' = config g →
  ledger g' = ledger g → lastStart g' = lastStart g → tasks g' = tasks g →
  (upstream_admits now g' ∧ budgets_admit request g' ∧ windows_admit now g' ∧ pacing_admits now g')
  ↔ (upstream_admits now g ∧ budgets_admit request g ∧ windows_admit now g ∧ pacing_admits now g).
Proof.
  rw /upstream_admits /budgets_admit /windows_admit /pacing_admits /task_of.
  by intros -> -> -> -> -> ->.
Qed.

Lemma accountable_same g g' :
  ledger g' = ledger g → config g' = config g → accountable g → accountable g'.
Proof. intros El Ec [Hc He]. split; by rw ?El ?Ec. Qed.

Lemma accountable_expire now g : accountable g → accountable (expireLocked now g).
Proof.
  intros [Hc He]. split; [done|]. simpl. intros e Hin. apply He.
  destruct (expire_drops now (3 * Hour) (ledger g)) as (old & -> & _). set_solver.
Qed.

(** The rest of the check once the lane tests have passed. *)
Lemma check_tail_None now request g :
  accountable g →
  let tail :=
    allowance ← gets (check_allowance now);
    match allowance with
    | Some check => mret check
    | None =>
      state ← taskLocked (TaskID request);
      budget ← gets (λ g, TaskBudget (config g) <=? attempts state);
      retry ← gets (λ g, Retry request && (RetryBudget (config g) <=? retries state));
      if budget : bool then mret (refuse AdmissionTaskBudgetExhausted)
      else if retry : bool then mret (refuse AdmissionRetryBudgetExhausted)
      else
        rolling ← gets (check_rolling now);
        match rolling with
        | Some check => mret check
        | None => pacing ← gets (check_pacing now); mret (default pass pacing)
        end
    end in
  ck_code (tail g).1 = None ↔
    upstream_admits now g ∧ budgets_admit request g ∧ windows_admit now g
    ∧ pacing_admits now g.
Proof.
  intros Hacc tail. rw /tail bind_run /=. destruct (check_code now g) as (_ & Ha & _).
  pose proof (check_allowance_None now g) as Hal.
  destruct (check_allowance now g) as [c|]; simpl.
  { split; [intros Hc; by apply Ha in Hc|]. intros (?%Hal & _). done. }
  rw bind_run taskLocked_run /=. rw bind_run /= bind_run /=.
  rw /budgets_admit /touched /=. set (g1 := g <| readings ::= _ |> <| tasks ::= _ |>).
  destruct (check_code now g1) as (_ & _ & Hr & Hp).
  pose proof (check_rolling_None now g1 (accountable_same g g1 eq_refl eq_refl Hacc)) as Hro. pose proof (check_pacing_None now g1) as Hpa.
  rw (windows_admit_same _ g g1) // in Hro. rw (pacing_admits_same _ g g1) // in Hpa.
  destruct (Z.leb_spec (TaskBudget (config g)) (attempts (task_of g (TaskID request)))).
  { split; [done|]. naive_solver lia. }
  destruct (Retry request) eqn:Er; simpl.
  1: destruct (Z.leb_spec (RetryBudget (config g)) (retries (task_of g (TaskID request))));
    [split; [done|naive_solver lia]|].
  all: rw bind_run /=; destruct (check_rolling now g1) as [c|]; simpl;
    [split; [intros Hc; by apply Hr in Hc|naive_solver]|].
  all: destruct (check_pacing now g1) as [c|]; simpl;
    [split; [intros Hc; by apply Hp in Hc|naive_solver]|].
  all: split; [intros _; split_and!; naive_solver|done].
Qed.

(** The check passes exactly in admissible states. *)
Lemma checkLocked_passes (now : Time) (request : AttemptRequest) (g : Governor) :
  accountable g →
  ck_code (checkLocked now request g).1 = None ↔ admissible now request (expireLocked now g).
Proof.
  intros Hacc%(accountable_expire now). rw /checkLocked bind_run.
  change ((modify (expireLocked now) g).2) with (expireLocked now g).
  generalize dependent (expireLocked now g). intros g0 Hacc. rw bind_run /=.
  destruct (check_code now g0) as (Hl & _). pose proof (check_lane_None now g0) as Hlane.
  destruct (check_lane now g0) as [c|]; simpl.
  { split; [intros Hc; by apply Hl in Hc|]. intros []. naive_solver. }
  rw bind_run [(modify _ _).2]/=. set (g1 := if bool_decide _ then _ else _).
  assert (∃ c es, g1 = g0 <| circuit := c |> <| pendingEvents := es |>) as (c & es & E1).
  { rw /g1. case_bool_decide.
    - destruct (transition_run CircuitClosed OutcomeUnset zeroTime g0) as [es ->].
      by eexists _, es.
    - exists (circuit g0), (pendingEvents g0). by destruct g0. }
  rw E1 check_tail_None; first by apply (accountable_same g0).
  pose proof (tail_admits_same g0 (g0 <| circuit := c |> <| pendingEvents := es |>) now request
    eq_refl eq_refl eq_refl eq_refl eq_refl eq_refl) as Hsame.
  etrans; [exact Hsame|]. clear Hsame E1 g1.
  split.
  - intros (?&?&?&?). destruct Hlane as [(?&?&?) _]; [done|]. constructor; assumption.
  - intros []. split_and!; assumption.
Qed.

(** A check that passes has passed the lane tests, whatever the accounting. *)
Lemma checkLocked_lane now request g :
  ck_code (checkLocked now request g).1 = None →
  inFlight g = false ∧ unsafe (telemetry g) = false ∧ circuit_admits now (circuit (expireLocked now g)).
Proof.
  rw /checkLocked bind_run bind_run [(modify _ _).2]/= [(gets _ _).1]/= [(gets _ _).2]/=.
  destruct (check_code now (expireLocked now g)) as (Hl & _).
  pose proof (check_lane_None now (expireLocked now g)) as Hlane.
  destruct (check_lane now (expireLocked now g)) as [c|]; [intros Hc; by apply Hl in Hc|].
  intros _. destruct Hlane as [(H1 & H2 & H3) _]; [done|]. split_and!; [done| |done].
  by rw -(unsafe_expire now).
Qed.

(** C11: the admission check passes exactly in the states the account policy
    declares admissible: lane free, safety latch unset, circuit closed or
    expired, upstream breaker, cooldown and allowance clear, task and retry
    budgets left, room in every rolling window and the pacing interval over. *)
Theorem checkLocked_admissible (now : Time) (request : AttemptRequest) (g : Governor) :
  accountable g →
  ck_code (checkLocked now request g).1 = None ↔ admissible now request (expireLocked now g).
Proof. apply checkLocked_passes. Qed.
End admissible.
