(* ===== verification/CircuitLaws.v ===== *)
(** * Configuration and circuit

    Which account policies and routes are accepted and what a new governor holds; and
    how outcomes move the circuit and set the cooldown. *)

From S2P Require Import Prelude GoTime Provider Receipts GovTypes Ledger GovState Circuit Admission Frames Admissible.

Local Open Scope Z_scope.
Local Open Scope runstead_scope.

Record rolling_ok (c : Config) : Prop := {
  ro_positive : 0 < Rolling10m c;
  ro_hour : Rolling10m c < Rolling1h c;
  ro_window : Rolling1h c < Rolling3h c;
  ro_reserve : 0 ≤ ManualReserve c < Rolling3h c
}.

(** An allowance without a shared counter has no numbers at all. *)
Definition unlimited_ok (c : Config) : Prop :=
  Rolling3h c = 0 ∧ Rolling1h c = 0 ∧ Rolling10m c = 0 ∧ ManualReserve c = 0.

(** Exactly one kind of attempt accounting, with the one route that is safe for
    it; receipts need a lane hash and a model to be checked against. *)
Definition accounting_ok (c : Config) : Prop :=
  (RequireSingleAttempt c = true ∧ RequireAttemptReceipts c = false
   ∧ cfg_RouteSafety c = SafeRouteSafety)
  ∨ (RequireSingleAttempt c = false ∧ RequireAttemptReceipts c = true
     ∧ cfg_RouteSafety c = ReceiptRouteSafety
     ∧ blank (AccountLaneHash c) = false ∧ blank (Model c) = false).

Record config_ok (c : Config) : Prop := {
  co_policy : blank (AccountPolicyID c) = false;
  co_provider : blank (ProviderID c) = false;
  co_pool : blank (ModelPool c) = false;
  co_kind : AllowanceKind_Valid (AllowanceKindForProfile (cfg_AllowanceProfile c)) = true
    ∧ (cfg_AllowanceKind c = AllowanceKindEmpty
       ∨ cfg_AllowanceKind c = AllowanceKindForProfile (cfg_AllowanceProfile c));
  co_allowance : if bool_decide (EffectiveAllowanceKind c = AllowanceKindUnlimitedText)
    then unlimited_ok c else rolling_ok c;
  co_budgets : 0 < TaskBudget c ∧ 0 ≤ RetryBudget c ∧ 0 < QueueCapacity c ∧ 0 < FairnessQuantum c;
  co_interval : 0 < MinimumStartInterval c;
  co_lane : BurstCapacity c = 1 ∧ MaxInFlight c = 1;
  co_accounting : accounting_ok c;
  co_thresholds : 0 < RateResponseThreshold c ∧ 0 < RateResponseWindow c ∧ 0 < ResetSafetyMargin c
}.

Section laws.
Context {MO : MapOrder}.

Lemma identifiers_None c :
  first_error (λ '(name, value),
    if blank value then Some (ErrText (name +:+ " must not be empty")) else None)
    (range (identifiers c)) = None ↔
  blank (AccountPolicyID c) = false ∧ blank (ProviderID c) = false ∧ blank (ModelPool c) = false.
Proof.
  rw first_error_None range_perm /identifiers map_to_list_to_map.
  { apply (bool_decide_unpack _). by vm_compute. }
  rw !Forall_cons. repeat case_match; naive_solver.
Qed.

Lemma validate_rolling_None c msg : validate_rolling c msg = None ↔ rolling_ok c.
Proof.
  rw /validate_rolling !guard_None !orb_false_iff !Z.leb_gt !Z.ltb_ge.
  split; [intros (?&?&?&_); split; lia|]. intros []. split_and!; first [lia|done].
Qed.

Lemma validate_allowance_None c kind :
  AllowanceKind_Valid kind = true →
  validate_allowance c kind = None ↔
  (if bool_decide (kind = AllowanceKindUnlimitedText) then unlimited_ok c else rolling_ok c).
Proof.
  destruct kind; try done; intros _; simpl; rw ?validate_rolling_None //.
  rw !guard_None !orb_false_iff !negb_false_iff !Z.eqb_eq /unlimited_ok. naive_solver.
Qed.

(** ** Route safety *)

(** Exactly two route declarations pass validation. *)
Lemma route_safe_iff (s : RouteSafety) :
  RouteSafety_Validate s = None ↔ s = SafeRouteSafety ∨ s = ReceiptRouteSafety.
Proof.
  rw /RouteSafety_Validate. destruct s as [acc single r1 r2 r3 r4 r5]. simpl.
  destruct acc; simpl; [naive_solver| |];
    rw guard_None negb_false_iff bool_decide_eq_true switches_error_free /all_disabled /=;
    rw /SafeRouteSafety /ReceiptRouteSafety; naive_solver.
Qed.

Lemma accounting_None c :
  eqb (RequireSingleAttempt c) (RequireAttemptReceipts c) = false
  ∧ RequireSingleAttempt c && negb (bool_decide
      (rs_AttemptAccounting (cfg_RouteSafety c) = AttemptAccountingSingle)) = false
  ∧ RequireAttemptReceipts c && negb (bool_decide
      (rs_AttemptAccounting (cfg_RouteSafety c) = AttemptAccountingReceipts)) = false
  ∧ RequireAttemptReceipts c && blank (AccountLaneHash c) = false
  ∧ RequireAttemptReceipts c && blank (Model c) = false
  ∧ (RateResponseThreshold c <=? 0) || (RateResponseWindow c <=? 0)
      || (ResetSafetyMargin c <=? 0) = false
  ∧ ErrProvider <$> RouteSafety_Validate (cfg_RouteSafety c) = None ↔
  accounting_ok c ∧
  0 < RateResponseThreshold c ∧ 0 < RateResponseWindow c ∧ 0 < ResetSafetyMargin c.
Proof.
  rw !orb_false_iff !Z.leb_gt fmap_None route_safe_iff /accounting_ok.
  destruct (RequireSingleAttempt c), (RequireAttemptReceipts c); simpl; try naive_solver.
  - split.
    + rw negb_false_iff bool_decide_eq_true. intros H. destruct_hyps. destruct_or!; [naive_solver|].
      exfalso.
      match goal with E : cfg_RouteSafety c = _, H : rs_AttemptAccounting _ = _ |- _ =>
        by rw E in H end.
    + intros [[(? & ? & ->)|(? & ? & -> & ? & ?)] (? & ? & ?)]; try done; split_and!; auto.
  - split.
    + rw negb_false_iff bool_decide_eq_true. intros H. destruct_hyps. destruct_or!; [|naive_solver].
      exfalso.
      match goal with E : cfg_RouteSafety c = _, H : rs_AttemptAccounting _ = _ |- _ =>
        by rw E in H end.
    + intros [[(? & ? & ->)|(? & ? & -> & ? & ?)] (? & ? & ?)]; try done; split_and!; auto.
Qed.

(** ** The whole configuration *)

Lemma effective_kind c :
  (cfg_AllowanceKind c = AllowanceKindEmpty ∨
   cfg_AllowanceKind c = AllowanceKindForProfile (cfg_AllowanceProfile c)) →
  AllowanceKind_Valid (AllowanceKindForProfile (cfg_AllowanceProfile c)) = true →
  EffectiveAllowanceKind c = AllowanceKindForProfile (cfg_AllowanceProfile c)
  ∧ (if bool_decide (cfg_AllowanceKind c = AllowanceKindEmpty)
     then AllowanceKindForProfile (cfg_AllowanceProfile c) else cfg_AllowanceKind c)
    = EffectiveAllowanceKind c.
Proof.
  rw /EffectiveAllowanceKind. intros [E|E] Hv; rw E; [done|]. rw Hv.
  by case_bool_decide.
Qed.

Lemma kind_None c :
  (match cfg_AllowanceProfile c with AllowanceProfileOther _ => true | _ => false end) = false
  ∧ negb (bool_decide (cfg_AllowanceKind c = AllowanceKindEmpty))
    && negb (AllowanceKind_Valid (cfg_AllowanceKind c)) = false
  ∧ negb (bool_decide (cfg_AllowanceKind c = AllowanceKindEmpty))
    && negb (bool_decide (AllowanceKindForProfile (cfg_AllowanceProfile c) = cfg_AllowanceKind c))
    = false ↔
  AllowanceKind_Valid (AllowanceKindForProfile (cfg_AllowanceProfile c)) = true
  ∧ (cfg_AllowanceKind c = AllowanceKindEmpty
     ∨ cfg_AllowanceKind c = AllowanceKindForProfile (cfg_AllowanceProfile c)).
Proof.
  rw !andb_false_iff !negb_false_iff !bool_decide_eq_true.
  destruct (cfg_AllowanceProfile c), (cfg_AllowanceKind c); simpl; naive_solver.
Qed.

(** Validation accepts exactly the well-formed configurations. *)
Lemma config_valid_iff (c : Config) : Config_Validate c = None ↔ config_ok c.
Proof.
  pose proof (effective_kind c) as Heff. pose proof (kind_None c) as Hkind.
  pose proof (validate_allowance_None c (EffectiveAllowanceKind c)) as Hall.
  rw /Config_Validate chain_None identifiers_None !guard_None chain_None !guard_None accounting_None.
  rw !orb_false_iff !Z.leb_gt !Z.ltb_ge !negb_false_iff !Z.eqb_eq. split.
  - intros ((?&?&?)&K1&K2&K3&A&B). destruct Hkind as [[Hv Hk] _]; [done|].
    destruct Heff as [He Hif]; [done|done|]. rw Hif Hall in A; [by rw He|].
    destruct_hyps. by split.
  - intros [? ? ? [Hv Hk] A B I L C T]. destruct Heff as [He Hif]; [done|done|].
    rw Hif Hall; [by rw He|]. destruct Hkind as [_ (?&?&?)]; [done|]. destruct_hyps. done.
Qed.

(** Exactly two route declarations pass validation: the documented safe
    single-attempt route and the receipt-aware one. *)
Theorem RouteSafety_Validate_spec (s : RouteSafety) :
  RouteSafety_Validate s = None ↔ s = SafeRouteSafety ∨ s = ReceiptRouteSafety.
Proof. apply route_safe_iff. Qed.

(** Validation accepts a configuration exactly when it is well-formed:
    identities present, an allowance kind its profile implies with ceilings
    that fit it, positive budgets, one lane, one accounting mode with its safe
    route, and positive breaker thresholds. *)
Theorem Config_Validate_spec (c : Config) : Config_Validate c = None ↔ config_ok c.
Proof. apply config_valid_iff. Qed.
End laws.

(** ** [sort.Search] *)

Section search.
Context (f : nat → bool) (n : nat).
Context (Hmono : ∀ i j, (i ≤ j < n)%nat → f i = true → f j = true).

(** With enough fuel the search ends at the first index of the range that
    satisfies [f], or at its end. *)
Lemma sort_Search_spec fuel i j :
  (i ≤ j ≤ n)%nat → (j - i ≤ fuel)%nat → ∀ r, r = sort_Search f fuel i j →
  (i ≤ r ≤ j)%nat ∧ (∀ k, (i ≤ k < r)%nat → f k = false) ∧ ((r < j)%nat → f r = true).
Proof.
  revert i j. induction fuel as [|fuel IH]; intros i j Hij Hf r ->; cbn -[Nat.div Nat.ltb].
  { split_and!; [lia|lia|intros k Hk; lia|lia]. }
  destruct (Nat.ltb_spec i j) as [Hlt|Hge]; [|split_and!; [lia|lia|intros k Hk; lia|lia]].
  set (h := ((i + j) / 2)%nat). assert (i ≤ h < j)%nat as Hh.
  { pose proof (Nat.div_mod_eq (i + j) 2). pose proof (Nat.mod_upper_bound (i + j) 2 ltac:(done)). lia. }
  clearbody h. destruct (f h) eqn:E; simpl.
  - destruct (IH i h ltac:(lia) ltac:(lia) _ eq_refl) as (Hr & Hlo & Hhi). split_and!; [lia|lia|done|].
    intros _. destruct (decide (sort_Search f fuel i h = h)) as [->|?]; [done|apply Hhi; lia].
  - destruct (IH (h + 1)%nat j ltac:(lia) ltac:(lia) _ eq_refl) as (Hr & Hlo & Hhi). split_and!; [lia|lia| |done].
    intros k Hk. destruct (decide (k ≤ h)%nat) as [Hle|?]; [|apply Hlo; lia].
    destruct (f k) eqn:Ek; [|done]. by rw (Hmono k h ltac:(lia) Ek) in E.
Qed.
End search.

Lemma filter_nil_of {A} (p : A → bool) (xs : list A) :
  (∀ x, x ∈ xs → p x = false) → List.filter p xs = [].
Proof. induction xs as [|x xs IH]; [done|]. intros H. simpl. rw (H x); [set_solver|]. apply IH. set_solver. Qed.

(** What a binary search for a predicate that holds from some index on cuts off
    is what the predicate rejects. *)
Lemma search_filter {A} (p : A → bool) (d : A) (xs : list A) :
  (∀ i j x y, (i ≤ j)%nat → xs !! i = Some x → xs !! j = Some y → p x = true → p y = true) →
  drop (sort_Search (λ i, p (nth i xs d)) (length xs) 0 (length xs)) xs = List.filter p xs.
Proof.
  intros Hmono.
  assert (∀ i x, xs !! i = Some x → nth i xs d = x) as Hnth.
  { intros i x Hx. by rw nth_lookup Hx. }
  assert (∀ i j, (i ≤ j < length xs)%nat → p (nth i xs d) = true → p (nth j xs d) = true) as Hm.
  { intros i j Hij. destruct (lookup_lt_is_Some_2 xs i) as [x Hx]; [lia|].
    destruct (lookup_lt_is_Some_2 xs j) as [y Hy]; [lia|].
    rw (Hnth _ _ Hx) (Hnth _ _ Hy). apply (Hmono i j); [lia|done|done]. }
  destruct (sort_Search_spec _ (length xs) Hm (length xs) 0 (length xs) ltac:(lia) ltac:(lia)
    _ eq_refl) as (Hr & Hlo & Hhi).
  set (r := sort_Search _ _ _ _) in *. clearbody r.
  rw -{2}(take_drop r xs) List.filter_app.
  assert (List.filter p (take r xs) = []) as ->.
  { apply filter_nil_of. intros x (i & Hi)%list_elem_of_lookup.
    apply lookup_take_Some in Hi as [Hi ?]. rw -(Hnth _ _ Hi). apply Hlo. lia. }
  symmetry. simpl. apply List.forallb_filter_id, List.forallb_forall. intros x Hx.
  apply list_elem_of_In, list_elem_of_lookup in Hx as (i & Hi). rw lookup_drop in Hi.
  pose proof (lookup_lt_Some _ _ _ Hi). rw -(Hnth _ _ Hi).
  apply (Hm r); [lia|]. apply Hhi. lia.
Qed.

Lemma StronglySorted_before {A} (R : A → A → Prop) (xs : list A) i j x y :
  StronglySorted R xs → (i < j)%nat → xs !! i = Some x → xs !! j = Some y → R x y.
Proof.
  intros Hs Hij Hx Hy. rw -(take_drop (S i) xs) in Hs.
  eapply (StronglySorted_app_1_elem_of _ _ _ x y Hs).
  - apply list_elem_of_lookup. exists i. apply lookup_take_Some. split; [done|lia].
  - apply list_elem_of_lookup. exists (j - S i)%nat. rw lookup_drop. by replace (S i + (j - S i))%nat with j by lia.
Qed.

Lemma expire_rate_events_sorted (cutoff : Time) (rates : list Time) :
  StronglySorted Z.le rates →
  expire_rate_events cutoff rates = List.filter (λ t, After t cutoff) rates.
Proof.
  intros Hs. rw /expire_rate_events -(search_filter _ zeroTime).
  - intros i j x y Hij Hx Hy. rw !After_spec.
    destruct (decide (i = j)) as [->|?]; [by simplify_eq|].
    pose proof (StronglySorted_before _ _ i j _ _ Hs ltac:(lia) Hx Hy). lia.
  - by destruct (sort_Search _ _ _ _).
Qed.

(** Expiry of rate responses.  The binary search of the code drops exactly
    the responses that are not after the cutoff, whenever the responses were
    recorded in time order. *)
Theorem expire_rate_events_spec (cutoff : Time) (rates : list Time) :
  StronglySorted Z.le rates →
  expire_rate_events cutoff rates = List.filter (λ t, After t cutoff) rates.
Proof. apply expire_rate_events_sorted. Qed.

(** ** Rate responses *)

Section rate.
Context {MO : MapOrder} {EV : Env}.

(** The rate responses of the window that ends now, the new one included. *)
Definition rate_sequence (now : Time) (g : Governor) : Z :=
  1 + Z.of_nat (length (List.filter (λ t, After t (Add now (- RateResponseWindow (config g))))
                          (rateEvents (circuit g)))).

(** A reset announced while the previous one has not passed. *)
Definition second_reset (now : Time) (outcome : Outcome) (g : Governor) : Prop :=
  lastRateReset (circuit g) ≠ zeroTime ∧ now < lastRateReset (circuit g) ∧ now < ResetAt outcome.

Lemma raiseCooldown_spec until g :
  cooldownUntil (raiseCooldown until g) = Z.max (cooldownUntil g) until
  ∧ circuit (raiseCooldown until g) = circuit g ∧ config (raiseCooldown until g) = config g.
Proof. rw /raiseCooldown. case_match; time_spec; simpl; split_and!; try done; lia. Qed.

Lemma transition_circuit state reason until g :
  circuit (transitionCircuitLocked state reason until g)
  = (circuit g) <| cd_state := state |> <| cd_reason := reason |> <| openUntil := until |>.
Proof. rw /transitionCircuitLocked /queueEventLocked. by repeat case_match. Qed.

Lemma transition_rest state reason until g :
  cooldownUntil (transitionCircuitLocked state reason until g) = cooldownUntil g
  ∧ config (transitionCircuitLocked state reason until g) = config g.
Proof. rw /transitionCircuitLocked /queueEventLocked. by repeat case_match. Qed.

Lemma expire_circuit now g :
  circuit (expireLocked now g)
  = (circuit g) <| rateEvents ::= expire_rate_events (Add now (- RateResponseWindow (config g))) |>
  ∧ cooldownUntil (expireLocked now g) = cooldownUntil g
  ∧ config (expireLocked now g) = config g ∧ readings (expireLocked now g) = readings g.
Proof. split_and!; by simpl. Qed.

Lemma taskLocked_circuit id g :
  circuit (taskLocked id g).2 = circuit g ∧ cooldownUntil (taskLocked id g).2 = cooldownUntil g.
Proof. done. Qed.

(** The reset that [open_before_reset] waits for, with its margin. *)
Definition later_reset (outcome : Outcome) (g : Governor) : Time :=
  Z.max (ResetAt outcome) (lastRateReset (circuit g)) + ResetSafetyMargin (config g).

Lemma second_reset_bool now outcome g :
  negb (IsZero (lastRateReset (circuit g))) && After (ResetAt outcome) now
    && Before now (lastRateReset (circuit g)) = true ↔ second_reset now outcome g.
Proof.
  rw /second_reset !andb_true_iff negb_true_iff IsZero_false After_spec Before_spec. tauto.
Qed.

Lemma open_before_reset_spec now outcome g :
  cooldownUntil (open_before_reset now outcome g) = cooldownUntil g
  ∧ config (open_before_reset now outcome g) = config g
  ∧ lastRateReset (circuit (open_before_reset now outcome g)) = lastRateReset (circuit g)
  ∧ rateEvents (circuit (open_before_reset now outcome g)) = rateEvents (circuit g)
  ∧ (second_reset now outcome g →
       cd_state (circuit (open_before_reset now outcome g)) = CircuitOpenUntil
       ∧ openUntil (circuit (open_before_reset now outcome g)) = later_reset outcome g)
  ∧ (¬ second_reset now outcome g →
       circuit (open_before_reset now outcome g) = circuit g).
Proof.
  rw -!second_reset_bool /open_before_reset. case_match eqn:E; [|by split_and!].
  destruct (transition_rest CircuitOpenUntil OutcomeRateCapacity
    (if After (Add (ResetAt outcome) (ResetSafetyMargin (config g)))
          (Add (lastRateReset (circuit g)) (ResetSafetyMargin (config g)))
     then Add (ResetAt outcome) (ResetSafetyMargin (config g))
     else Add (lastRateReset (circuit g)) (ResetSafetyMargin (config g))) g) as [-> ->].
  rw !transition_circuit. split_and!; try done. intros _. split; [done|].
  simpl. rw /later_reset /Add. case_match; time_spec; lia.
Qed.

(** What [record_rate] leaves, in terms of the state before it. *)
Record rate_effect (now : Time) (outcome : Outcome) (g : Governor)
    (selected : Duration) (g' : Governor) : Prop := {
  re_selected : selected =
    (if IsZero (authoritative_until now outcome)
     then Z.max (baseline_of (rate_sequence now g))
            (jitter (readings g) (baseline_of (rate_sequence now g)) (rate_sequence now g))
     else Sub (authoritative_until now outcome) now);
  re_cooldown : cooldownUntil g' =
    (if 0 <? selected then Z.max (cooldownUntil g) (now + selected) else cooldownUntil g);
  re_config : config g' = config g;
  re_reset : lastRateReset (circuit g') =
    (if IsZero (ResetAt outcome) then lastRateReset (circuit g) else ResetAt outcome);
  re_review : RateResponseThreshold (config g) ≤ rate_sequence now g →
    cd_state (circuit g') = CircuitHumanReviewRequired
    ∧ cd_reason (circuit g') = OutcomeRateCapacity;
  re_open : rate_sequence now g < RateResponseThreshold (config g) →
    second_reset now outcome g →
    cd_state (circuit g') = CircuitOpenUntil ∧ openUntil (circuit g') = later_reset outcome g;
  re_same : rate_sequence now g < RateResponseThreshold (config g) →
    ¬ second_reset now outcome g →
    cd_state (circuit g') = cd_state (circuit g) ∧ openUntil (circuit g') = openUntil (circuit g)
}.

Lemma select_backoff_spec now outcome sequence g :
  select_backoff now outcome sequence g =
    (if IsZero (authoritative_until now outcome)
     then Z.max (baseline_of sequence) (jitter (readings g) (baseline_of sequence) sequence)
     else Sub (authoritative_until now outcome) now).
Proof. rw /select_backoff. destruct (IsZero _); [|done]. simpl. case_match; time_spec; lia. Qed.

Lemma note_response_spec now g :
  StronglySorted Z.le (rateEvents (circuit g)) →
  Z.of_nat (length (rateEvents (circuit (note_response now g)))) = rate_sequence now g
  ∧ cooldownUntil (note_response now g) = cooldownUntil g
  ∧ config (note_response now g) = config g ∧ readings (note_response now g) = readings g
  ∧ circuit (note_response now g)
    = (circuit g) <| rateEvents := rateEvents (circuit (note_response now g)) |>.
Proof.
  intros Hs. split_and!; try by simpl.
  change (rateEvents (circuit (note_response now g))) with
    (expire_rate_events (Add now (- RateResponseWindow (config g))) (rateEvents (circuit g))
     ++ [now]).
  rw /rate_sequence (expire_rate_events_sorted _ _ Hs) List.length_app. simpl. lia.
Qed.

Lemma record_rate_run now outcome g :
  record_rate now outcome g =
    let g2 := note_response now g in
    let selected := select_backoff now outcome (Z.of_nat (length (rateEvents (circuit g2)))) g2 in
    let g3 := if 0 <? selected then raiseCooldown (Add now selected) g2 else g2 in
    (selected, review_threshold (note_reset outcome (open_before_reset now outcome g3))).
Proof.
  rw /record_rate bind_run. cbn [modify fst snd]. generalize (note_response now g). intros g2.
  rw !bind_run. cbn [modify gets fst snd]. cbn zeta.
  by destruct (0 <? select_backoff _ _ _ _).
Qed.

Lemma record_rate_effect now outcome g :
  StronglySorted Z.le (rateEvents (circuit g)) →
  rate_effect now outcome g (record_rate now outcome g).1 (record_rate now outcome g).2.
Proof.
  intros Hs. destruct (note_response_spec now g Hs) as (Hlen & Hcd & Hcfg & Hread & Hcirc).
  rw record_rate_run. cbv zeta. cbn [fst snd].
  generalize dependent (note_response now g). intros g2 Hlen Hcd Hcfg Hread Hcirc.
  rw Hlen. set (sel := select_backoff now outcome (rate_sequence now g) g2).
  set (g3 := if 0 <? sel then raiseCooldown (Add now sel) g2 else g2).
  set (g4 := open_before_reset now outcome g3). set (g5 := note_reset outcome g4).
  cbn [fst snd].
  assert (cooldownUntil g3 = (if 0 <? sel then Z.max (cooldownUntil g) (now + sel)
    else cooldownUntil g) ∧ circuit g3 = circuit g2 ∧ config g3 = config g2) as (Hcd3 & Hc3 & Hf3).
  { rw /g3. destruct (0 <? sel); [|done].
    destruct (raiseCooldown_spec (Add now sel) g2) as (-> & -> & ->). by rw Hcd. }
  destruct (open_before_reset_spec now outcome g3) as (Hcd4 & Hf4 & Hl4 & Hr4 & Hopen & Hsame).
  fold g4 in Hcd4, Hf4, Hl4, Hr4, Hopen, Hsame.
  assert (lastRateReset (circuit g3) = lastRateReset (circuit g)) as Hl3.
  { by rw Hc3 Hcirc. }
  assert (second_reset now outcome g3 ↔ second_reset now outcome g) as Hsr.
  { by rw /second_reset Hl3. }
  assert (later_reset outcome g3 = later_reset outcome g) as Hlr.
  { by rw /later_reset Hl3 Hf3 Hcfg. }
  assert (cooldownUntil g5 = cooldownUntil g3 ∧ config g5 = config g
    ∧ rateEvents (circuit g5) = rateEvents (circuit g2)
    ∧ cd_state (circuit g5) = cd_state (circuit g4)
    ∧ openUntil (circuit g5) = openUntil (circuit g4)
    ∧ lastRateReset (circuit g5) = (if IsZero (ResetAt outcome) then lastRateReset (circuit g)
                                    else ResetAt outcome)) as (Hcd5 & Hf5 & Hr5 & Hs5 & Ho5 & Hl5).
  { rw /g5 /note_reset. clearbody g4. destruct (IsZero (ResetAt outcome)); cbn [negb];
      split_and!; try done; simpl; congruence. }
  rw /review_threshold Hr5 Hf5 Hlen.
  destruct (transition_rest CircuitHumanReviewRequired OutcomeRateCapacity zeroTime g5)
    as [Hcd6 Hf6].
  pose proof (transition_circuit CircuitHumanReviewRequired OutcomeRateCapacity zeroTime g5) as Hc6.
  assert (cd_state (circuit g2) = cd_state (circuit g) ∧ openUntil (circuit g2) = openUntil (circuit g))
    as [Hs2 Ho2]. { by rw Hcirc. }
  split.
  - by rw /sel select_backoff_spec Hread.
  - rw -Hcd3 -Hcd5. by case: (RateResponseThreshold (config g) <=? rate_sequence now g).
  - case: (RateResponseThreshold (config g) <=? rate_sequence now g); [by rw Hf6 Hf5|done].
  - rw -Hl5. case: (RateResponseThreshold (config g) <=? rate_sequence now g); [by rw Hc6|done].
  - intros Hle. rw (proj2 (Z.leb_le _ _) Hle) Hc6. done.
  - intros Hlt H2. rw (proj2 (Z.leb_gt _ _) Hlt) Hs5 Ho5 -Hlr. apply Hopen. tauto.
  - intros Hlt H2. rw (proj2 (Z.leb_gt _ _) Hlt) Hs5 Ho5 Hsame; [tauto|]. by rw Hc3 Hs2 Ho2.
Qed.

Lemma baseline_bounds n : 1 ≤ n → 15 * Second ≤ baseline_of n ≤ 120 * Second.
Proof.
  intros Hn. rw /baseline_of /min.
  assert (∀ i, i < 4 → 0 ≤ i → 15 * Second ≤ nth (Z.to_nat i) backoff_bases 0 ≤ 120 * Second) as Hall.
  { intros i Hi Hi0. assert (i = 0 ∨ i = 1 ∨ i = 2 ∨ i = 3) as [->|[->|[->| ->]]] by lia;
      by vm_compute. }
  apply Hall; change (Z.of_nat (length backoff_bases) - 1) with 3; case_match; time_spec; lia.
Qed.

Lemma baseline_mono n m : 1 ≤ n → n ≤ m → baseline_of n ≤ baseline_of m.
Proof.
  intros Hn Hm. rw /baseline_of /min. change (Z.of_nat (length backoff_bases) - 1) with 3.
  assert (∀ i j, 0 ≤ i → i ≤ j → j ≤ 3 →
    nth (Z.to_nat i) backoff_bases 0 ≤ nth (Z.to_nat j) backoff_bases 0) as Hall.
  { intros i j Hi Hij Hj. assert (i = 0 ∨ i = 1 ∨ i = 2 ∨ i = 3) as [->|[->|[->| ->]]] by lia;
    (assert (j = 0 ∨ j = 1 ∨ j = 2 ∨ j = 3) as [->|[->|[->| ->]]] by lia); by vm_compute. }
  apply Hall; repeat case_match; time_spec; lia.
Qed.

Lemma rate_sequence_pos now g : 1 ≤ rate_sequence now g.
Proof. rw /rate_sequence. lia. Qed.

Lemma recordOutcome_circuit now p outcome g :
  let class := effective_class outcome in
  let r := recordOutcomeLocked now p outcome g in
  fr_Outcome r.1 = class ∧
  (class = OutcomeRateCapacity → ∃ g1, record_rate now outcome g = (fr_SelectedBackoff r.1, g1)
    ∧ circuit r.2 = circuit g1 ∧ cooldownUntil r.2 = cooldownUntil g1) ∧
  (class ≠ OutcomeRateCapacity →
    fr_SelectedBackoff r.1 = 0 ∧ cooldownUntil r.2 = cooldownUntil g ∧
    circuit r.2 =
      (if bool_decide (class = OutcomeAuthenticationExpired)
       then (circuit g) <| refreshRequired := true |> <| cd_state := CircuitOpenUntil |>
              <| cd_reason := class |> <| openUntil := zeroTime |>
       else if is_security class
       then (circuit g) <| cd_state := CircuitHumanReviewRequired |> <| cd_reason := class |>
              <| openUntil := zeroTime |>
       else circuit g)).
Proof.
  cbn zeta. rw /recordOutcomeLocked bind_run.
  set (m := if bool_decide (effective_class outcome = OutcomeRateCapacity) then _ else _).
  assert (∀ x : Duration * Governor, m g = x →
    let r := (circuit0 ← gets circuitSnapshotLocked; state ← taskLocked (TaskID (request p));
      gets (λ g, {|
        fr_Outcome := effective_class outcome;
        RetryEligible := isRecoverableOutcome (effective_class outcome)
          && (retries state <? RetryBudget (config g))
          && bool_decide (cd_state (circuit g) = CircuitClosed);
        fr_SelectedBackoff := x.1;
        AttemptDebited := 1;
        fr_Circuit := circuit0;
        fr_DeliveryState := oc_DeliveryState outcome;
        fr_Err := None |})) x.2 in
    fr_Outcome r.1 = effective_class outcome ∧ fr_SelectedBackoff r.1 = x.1
    ∧ circuit r.2 = circuit x.2 ∧ cooldownUntil r.2 = cooldownUntil x.2) as Htail.
  { intros [d h] _. by cbn [fst snd]. }
  specialize (Htail (m g) eq_refl). cbv zeta in Htail. destruct Htail as (-> & -> & -> & ->).
  split; [done|]. rw /m. split; intros E.
  { rw bool_decide_eq_true_2 //. exists (record_rate now outcome g).2. by destruct (record_rate _ _ _). }
  rw (bool_decide_eq_false_2 (_ = OutcomeRateCapacity)) //.
  case_bool_decide; [|destruct (is_security _)]; rw ?bind_run; cbn [modify fst snd mret State_ret];
    rw ?transition_circuit ?(proj1 (transition_rest _ _ _ _)); done.
Qed.

(** Backoff after a rate or capacity response.  Without an instant from
    the upstream the selected backoff is the jittered baseline of the number of
    responses in the window, never below that baseline (15 to 120 seconds);
    with one it is the distance to that instant.  A positive backoff is added
    to the cooldown, which is never shortened. *)
Theorem rate_backoff now p outcome g :
  effective_class outcome = OutcomeRateCapacity →
  StronglySorted Z.le (rateEvents (circuit g)) →
  let r := recordOutcomeLocked now p outcome g in
  let baseline := baseline_of (rate_sequence now g) in
  fr_SelectedBackoff r.1 =
    (if IsZero (authoritative_until now outcome)
     then Z.max baseline (jitter (readings g) baseline (rate_sequence now g))
     else Sub (authoritative_until now outcome) now)
  ∧ 15 * Second ≤ baseline ≤ 120 * Second
  ∧ cooldownUntil g ≤ cooldownUntil r.2
  ∧ (0 < fr_SelectedBackoff r.1 →
       cooldownUntil r.2 = Z.max (cooldownUntil g) (now + fr_SelectedBackoff r.1))
  ∧ (IsZero (authoritative_until now outcome) = true →
       now + baseline ≤ cooldownUntil r.2).
Proof.
  intros Hc Hs r baseline.
  destruct (recordOutcome_circuit now p outcome g) as (_ & Hrate & _).
  destruct (Hrate Hc) as (g1 & Hr & _ & Hcd). fold r in Hr, Hcd.
  pose proof (record_rate_effect now outcome g Hs) as Heff. rw Hr in Heff. cbn [fst snd] in Heff.
  pose proof (baseline_bounds _ (rate_sequence_pos now g)) as Hb. fold baseline in Hb.
  destruct Heff as [Hsel Hcool _ _ _ _ _]. rw Hcd Hcool. split; [done|]. split; [done|].
  fold baseline in Hsel. rw /Second in Hb.
  destruct (Z.ltb_spec 0 (fr_SelectedBackoff r.1)) as [Hp|Hp]; (split; [lia|split; [lia|]]);
    intros Hz; rw Hz in Hsel; lia.
Qed.

(** Circuit after a rate or capacity response.  At the threshold of
    responses in the window the circuit waits for a human; below it, a reset
    announced while the previous one has not passed opens the circuit until
    the later of the two resets plus the safety margin; otherwise the circuit
    keeps its state. *)
Theorem rate_circuit now p outcome g :
  effective_class outcome = OutcomeRateCapacity →
  StronglySorted Z.le (rateEvents (circuit g)) →
  let c := circuit (recordOutcomeLocked now p outcome g).2 in
  (RateResponseThreshold (config g) ≤ rate_sequence now g →
     cd_state c = CircuitHumanReviewRequired ∧ cd_reason c = OutcomeRateCapacity)
  ∧ (rate_sequence now g < RateResponseThreshold (config g) → second_reset now outcome g →
     cd_state c = CircuitOpenUntil ∧ openUntil c = later_reset outcome g)
  ∧ (rate_sequence now g < RateResponseThreshold (config g) → ¬ second_reset now outcome g →
     cd_state c = cd_state (circuit g) ∧ openUntil c = openUntil (circuit g))
  ∧ lastRateReset c = (if IsZero (ResetAt outcome) then lastRateReset (circuit g)
                       else ResetAt outcome).
Proof.
  intros Hc Hs c.
  destruct (recordOutcome_circuit now p outcome g) as (_ & Hrate & _).
  destruct (Hrate Hc) as (g1 & Hr & Hcirc & _).
  pose proof (record_rate_effect now outcome g Hs) as Heff. rw Hr in Heff. cbn [fst snd] in Heff.
  rw /c Hcirc. destruct Heff. split_and!; done.
Qed.

(** Every other outcome.  The class is the effective class of the outcome;
    an expired authentication opens the circuit without an instant and asks for
    a refresh, a security class asks for a human with that reason, and any
    other class leaves cooldown and circuit as they are. *)
Theorem other_outcomes now p outcome g :
  let class := effective_class outcome in
  let r := recordOutcomeLocked now p outcome g in
  fr_Outcome r.1 = class ∧
  (class ≠ OutcomeRateCapacity →
    fr_SelectedBackoff r.1 = 0 ∧ cooldownUntil r.2 = cooldownUntil g ∧
    circuit r.2 =
      (if bool_decide (class = OutcomeAuthenticationExpired)
       then (circuit g) <| refreshRequired := true |> <| cd_state := CircuitOpenUntil |>
              <| cd_reason := class |> <| openUntil := zeroTime |>
       else if is_security class
       then (circuit g) <| cd_state := CircuitHumanReviewRequired |> <| cd_reason := class |>
              <| openUntil := zeroTime |>
       else circuit g)).
Proof. destruct (recordOutcome_circuit now p outcome g) as (H1 & _ & H2). by split. Qed.

(** Acknowledgement.  It succeeds exactly when a human is awaited; it then
    closes the circuit and forgets the recorded rate responses, the last reset
    and a pending refresh, and otherwise changes nothing. *)
Theorem AcknowledgeHuman_spec g :
  let r := AcknowledgeHuman g in
  (r.1 = None ↔ cd_state (circuit g) = CircuitHumanReviewRequired)
  ∧ (r.1 ≠ None → r.2 = g)
  ∧ (r.1 = None → circuit r.2 = newCircuit <| refreshInFlight := refreshInFlight (circuit g) |>
       ∧ cooldownUntil r.2 = cooldownUntil g ∧ ledger r.2 = ledger g).
Proof.
  cbn zeta. rw /AcknowledgeHuman. case_bool_decide as E; cbn [negb fst snd]; [|done].
  split; [done|]. split; [done|]. intros _. split; [by rw transition_circuit|].
  split; [by rw (proj1 (transition_rest _ _ _ _))|].
  rw /transitionCircuitLocked /queueEventLocked. by repeat case_match.
Qed.
End rate.
