(* ===== verification/Grants.v ===== *)
(** * Granting the lane

    Every method that may return a permit either leaves the lane and the
    accounting alone, or grants: it passed the admission check and occupied the
    lane.  [grants] is that judgement, with rules that follow the shape of the
    methods; the critical sections of [tryAdmit] and [queueAdmit] satisfy it. *)

From S2P Require Import Prelude GoTime Provider Receipts GovTypes Ledger GovState Circuit.
From S2P Require Import Admission Frames Admissible.

Local Open Scope Z_scope.
Local Open Scope runstead_scope.

Definition newPermit (request : AttemptRequest) (healthy : bool) : Permit :=
  {| attached := true; request := request; telemetryHealthy := healthy; started := false;
     completed := false; attemptSequence := 0; receiptAware := false; startedAt := zeroTime |}.

Definition occupy (request : AttemptRequest) (g : Governor) : Governor :=
  g <| inFlight := true |> <| activeTaskID := TaskID request |>.

(** What a permit holder relies on until it starts: budgets, windows and
    pacing still allow the attempt. *)
Record may_start (now : Time) (request : AttemptRequest) (g : Governor) : Prop := {
  ms_budgets : budgets_admit request g;
  ms_windows : windows_admit now g;
  ms_pacing : pacing_admits now g
}.

Definition usage_nonneg (g : Governor) : Prop :=
  ∀ id, 0 ≤ attempts (task_of g id) ∧ 0 ≤ retries (task_of g id).

Section queue_frames.
Context {MO : MapOrder} {EV : Env} {MC : MonotoneClock}.

Lemma quiet_is_mild g g' : quiet g g' → mild g g'.
Proof. by intros []. Qed.

Lemma mild_signal w g : mild g (signalLocked w g).
Proof. by apply mild_same. Qed.

Lemma mild_foldl {A} (f : Governor → A → Governor) xs g :
  (∀ g x, mild g (f g x)) → mild g (foldl f g xs).
Proof.
  intros Hf. revert g. induction xs as [|x xs IH]; intros g; simpl; [done|].
  etrans; [apply Hf|apply IH].
Qed.

Lemma mild_signalAll g : mild g (signalAllLocked g).
Proof. apply mild_foldl. intros. apply mild_signal. Qed.

Lemma mild_removeWaiter w g : mild g (removeWaiterLocked w g).
Proof.
  rw /removeWaiterLocked. repeat case_match; try done.
  - etrans; [|apply mild_signalAll]. etrans; [|apply mild_signal]. by apply mild_same.
  - etrans; [|apply mild_signal]. by apply mild_same.
Qed.

Lemma mild_Close g : mild g (Close g).
Proof.
  rw /Close. case_match; [done|].
  match goal with |- context [foldl ?f ?g0 _] =>
    assert (mild g0 (foldl f g0 (queue g))) as Hf end.
  { apply mild_foldl. intros g1 w. etrans; [|apply mild_signal]. by apply mild_same. }
  etrans; [by apply (mild_same _ (g <| closed := true |>))|]. etrans; [exact Hf|].
  by apply mild_same.
Qed.

(** ** Transport of the permit holder's conditions *)

Lemma windows_admit_mild now now' g g' :
  mild g g' → now ≤ now' → windows_admit now g → windows_admit now' g'.
Proof.
  intros Hm Hnow Hw. rw /windows_admit (calm_config _ _ (mild_calm _ _ Hm)). intros Hk.
  destruct (mild_ledger _ _ Hm) as (old & Hl & _). specialize (Hw Hk).
  assert (∀ w, ledger_count now' w (ledger g') ≤ ledger_count now w (ledger g)) as Hc.
  { intros w. etrans; [by apply count_antitone|]. rw /ledger_count Hl count_if_app. lia. }
  destruct Hw as (?&?&?). split_and!; (eapply Z.le_lt_trans; [apply Hc|done]).
Qed.

Lemma budgets_admit_mild request g g' :
  mild g g' → usage_nonneg g → budgets_admit request g → budgets_admit request g'.
Proof.
  intros Hm Hn [Ha Hr]. specialize (Hn (TaskID request)) as [? ?].
  rw /budgets_admit (calm_config _ _ (mild_calm _ _ Hm)).
  destruct (mild_usage _ _ Hm (TaskID request)) as [[= -> ->]|[[= -> ->] _]]; [done|].
  split; [lia|]. intros Hretry%Hr. lia.
Qed.

Lemma may_start_mild now now' request g g' :
  mild g g' → now ≤ now' → usage_nonneg g → may_start now request g → may_start now' request g'.
Proof.
  intros Hm Hnow Hn [Hb Hw Hp]. split.
  - by eapply budgets_admit_mild.
  - by eapply windows_admit_mild.
  - rw /pacing_admits (mild_start _ _ Hm) (calm_config _ _ (mild_calm _ _ Hm)).
    intros ?%Hp. lia.
Qed.

Lemma usage_nonneg_mild g g' : mild g g' → usage_nonneg g → usage_nonneg g'.
Proof.
  intros Hm Hn id. destruct (mild_usage _ _ Hm id) as [[= -> ->]|[[= -> ->] _]]; [done|lia].
Qed.

Lemma accountable_mild g g' : mild g g' → accountable g → accountable g'.
Proof.
  intros Hm [Hc He]. split.
  - by rw (calm_config _ _ (mild_calm _ _ Hm)).
  - destruct (mild_ledger _ _ Hm) as (old & Hl & _). rw Hl in He. set_solver.
Qed.

(** The check touches nothing the holder relies on after the expiry. *)
Lemma quiet_check_rest now request g :
  now ≤ clock (readings g) → quiet (expireLocked now g) (checkLocked now request g).2.
Proof.
  intros Hnow. rw /checkLocked bind_run /=. generalize (expireLocked now g). intros g0.
  match goal with |- quiet g0 (?m g0).2 =>
    enough (quietly (clock (readings g0)) m) as Hm by (by apply Hm) end.
  quiet_auto.
Qed.
End queue_frames.

#[export] Hint Resolve mild_signal mild_signalAll mild_removeWaiter mild_Close quiet_is_mild : quiet.

(** ** The judgement *)

Section grants.
Context {MO : MapOrder} {EV : Env} {MC : MonotoneClock}.

(** From [g] to [g'] the permit [p] was granted: the check of [request] passed
    at [now] in the state [g1], and the lane was occupied in [g2]. *)
Definition granted (request : AttemptRequest) (p : Permit) (g g' : Governor) : Prop :=
  ∃ now g1 g2 healthy, mild g g1 ∧ now ≤ clock (readings g1)
    ∧ ck_code (checkLocked now request g1).1 = None
    ∧ mild (expireLocked now g1) g2
    ∧ p = newPermit request healthy ∧ mild (occupy request g2) g'.

Definition grants {A} (permit_of : A → option Permit) (request : AttemptRequest)
    (t : Time) (m : M A) : Prop :=
  ∀ g, t ≤ clock (readings g) →
  match permit_of (m g).1 with
  | None => mild g (m g).2
  | Some p => granted request p g (m g).2
  end.

(** A method that occupies the lane and returns the permit. *)
Definition occupies {A} (permit_of : A → option Permit) (request : AttemptRequest)
    (t : Time) (m : M A) : Prop :=
  ∀ g, t ≤ clock (readings g) → ∃ g' healthy,
    mild g g' ∧ permit_of (m g).1 = Some (newPermit request healthy)
    ∧ mild (occupy request g') (m g).2.

Definition mildly {A} : Time → M A → Prop := keeps mild.

Lemma quietly_mildly {A} t (m : M A) : quietly t m → mildly t m.
Proof. intros Hm g Hg. by apply quiet_is_mild, Hm. Qed.

Lemma mild_readings g g' : mild g g' → (readings g ≤ readings g')%nat.
Proof. intros [[]]. done. Qed.

Lemma mildly_bind {A B} t (m : M A) (k : A → M B) :
  mildly t m → (∀ a, mildly t (k a)) → mildly t (x ← m; k x).
Proof. apply keeps_bind; [apply _|apply mild_readings]. Qed.

Lemma mildly_modify t (f : Governor → Governor) :
  (∀ g, t ≤ clock (readings g) → mild g (f g)) → mildly t (modify f).
Proof. done. Qed.

Lemma mildly_Now {B} t (k : Time → M B) :
  (∀ now, t ≤ now → mildly now (k now)) → mildly t (x ← Now; k x).
Proof. apply keeps_Now; [apply _|intros; apply quiet_is_mild, quiet_tick]. Qed.

(** The method only returns values of [Q]. *)
Definition returns {A} (Q : A → Prop) (m : M A) : Prop := ∀ g, Q (m g).1.

Lemma returns_bind {A B} (Q : B → Prop) (m : M A) (k : A → M B) :
  (∀ a, returns Q (k a)) → returns Q (x ← m; k x).
Proof. intros Hk g. rw bind_run. apply Hk. Qed.

Lemma returns_bind_post {A B} (P : A → Prop) (Q : B → Prop) (m : M A) (k : A → M B) :
  returns P m → (∀ a, P a → returns Q (k a)) → returns Q (x ← m; k x).
Proof. intros Hm Hk g. rw bind_run. apply Hk, Hm. Qed.

Lemma returns_ret {A} (Q : A → Prop) a : Q a → returns Q (mret a : M A).
Proof. by intros Ha g. Qed.

Lemma returns_True {A} (m : M A) : returns (λ _, True) m.
Proof. done. Qed.

Section rules.
Context {A : Type} (permit_of : A → option Permit) (request : AttemptRequest).
Implicit Types m : M A.

Lemma grants_mild t m :
  mildly t m → (∀ g, permit_of (m g).1 = None) → grants permit_of request t m.
Proof. intros Hm Hp g Hg. rw Hp. by apply Hm. Qed.

Lemma grants_ret t a : permit_of a = None → grants permit_of request t (mret a).
Proof. intros Ha g Hg. by rw /= Ha. Qed.

Lemma granted_mild p g g0 g' : mild g g0 → granted request p g0 g' → granted request p g g'.
Proof. intros Hm (now & g1 & g2 & h & H1 & H2). exists now, g1, g2, h. split; [by etrans|done]. Qed.

Lemma grants_bind_returns {B} (Q : B → Prop) t (m : M B) (k : B → M A) :
  mildly t m → returns Q m → (∀ b, Q b → grants permit_of request t (k b)) →
  grants permit_of request t (x ← m; k x).
Proof.
  intros Hm HQ Hk g Hg. rw bind_run. specialize (Hm g Hg).
  assert (t ≤ clock (readings (m g).2)).
  { pose proof (clock_mono _ _ (mild_readings _ _ Hm)). lia. }
  specialize (Hk (m g).1 (HQ g) (m g).2 ltac:(done)).
  case_match; [by eapply granted_mild|by etrans].
Qed.

Lemma grants_bind {B} t (m : M B) (k : B → M A) :
  mildly t m → (∀ b, grants permit_of request t (k b)) →
  grants permit_of request t (x ← m; k x).
Proof. intros Hm Hk. eapply grants_bind_returns; [done|apply returns_True|auto]. Qed.

Lemma grants_Now t (k : Time → M A) :
  (∀ now, t ≤ now → grants permit_of request now (k now)) →
  grants permit_of request t (x ← Now; k x).
Proof.
  intros Hk g Hg. rw bind_run /=. pose proof (quiet_is_mild _ _ (quiet_tick g)) as Ht.
  assert (clock (readings g) ≤ clock (readings (g <| readings ::= S |>))) as Hc.
  { simpl. apply clock_mono. lia. }
  specialize (Hk (clock (readings g)) Hg _ Hc).
  case_match; [by eapply granted_mild|by etrans].
Qed.

(** The check decides: a refusal is handled by a method that grants nothing,
    and a pass by one that occupies the lane. *)
Lemma grants_check t now (k : admissionCheck → M A) :
  now ≤ t →
  (∀ check, ck_code check ≠ None → grants permit_of request t (k check)) →
  (∀ check, ck_code check = None → occupies permit_of request t (k check)) →
  grants permit_of request t (check ← checkLocked now request; k check).
Proof.
  intros Hnow Hno Hyes g Hg. rw bind_run.
  assert (now ≤ clock (readings g)) as Hng by lia.
  pose proof (quietly_checkLocked t now request Hnow g Hg) as Hq%quiet_is_mild.
  pose proof (quiet_is_mild _ _ (quiet_check_rest now request g Hng)) as Hrest.
  set (check := (checkLocked now request g).1) in *.
  set (g2 := (checkLocked now request g).2) in *.
  assert (t ≤ clock (readings g2)) as Hg2.
  { pose proof (clock_mono _ _ (mild_readings _ _ Hq)). lia. }
  destruct (ck_code check) eqn:E.
  - specialize (Hno check ltac:(congruence) g2 Hg2).
    case_match; [by eapply granted_mild|by etrans].
  - destruct (Hyes check E g2 Hg2) as (g3 & h & Hg3 & -> & Hocc).
    exists now, g, g3, h. split_and!; [done|lia|done|by etrans|done|done].
Qed.

Lemma occupies_bind {B} t (m : M B) (k : B → M A) :
  mildly t m → (∀ b, occupies permit_of request t (k b)) →
  occupies permit_of request t (x ← m; k x).
Proof.
  intros Hm Hk g Hg. rw bind_run. specialize (Hm g Hg).
  assert (t ≤ clock (readings (m g).2)) as Hg2.
  { pose proof (clock_mono _ _ (mild_readings _ _ Hm)). lia. }
  destruct (Hk (m g).1 (m g).2 Hg2) as (g' & h & Hg' & Hp & Ho).
  exists g', h. split_and!; [by etrans|done|done].
Qed.
End rules.
End grants.

(** Walk through a method that may grant. *)
Ltac mild_step :=
  lazymatch goal with
  | |- mildly _ (mbind _ Now) => apply mildly_Now; intros ? ?
  | |- mildly _ (mbind _ (modify _)) => apply mildly_bind; [apply mildly_modify; intros|intros ?]
  | |- mildly _ (mbind _ _) => apply mildly_bind; [|intros ?]
  | |- mildly _ (match _ with _ => _ end) => case_match
  | |- mildly _ (modify _) => apply mildly_modify; intros
  | |- mildly _ _ => apply quietly_mildly; solve [quiet_auto]
  | |- mild _ (upd _ _) => by apply mild_same
  | |- mild _ _ => solve [eauto 3 with quiet]
  end.
Ltac mild_auto := repeat mild_step.

Ltac grant_step :=
  lazymatch goal with
  | |- grants _ _ _ (mbind _ Now) => apply grants_Now; intros ? ?
  | |- grants _ _ _ (mbind _ (checkLocked _ _)) => apply grants_check; [lia|intros ? ?|intros ? ?]
  | |- grants _ _ _ (mbind _ (modify _)) => apply grants_bind; [apply mildly_modify; intros|intros ?]
  | |- grants _ _ _ (mbind _ _) => apply grants_bind; [|intros ?]
  | |- grants _ _ _ (match ck_code _ with _ => _ end) => case_match; [|done]
  | |- grants _ _ _ (match _ with _ => _ end) => case_match
  | |- grants _ _ _ (mret _) => apply grants_ret
  | |- occupies _ _ _ (match ck_code _ with _ => _ end) => case_match; [done|]
  | |- _ => mild_step
  end.

(** Walk through a method to its results. *)
Ltac return_step :=
  lazymatch goal with
  | |- returns _ (mbind _ _) => apply returns_bind; intros ?
  | |- returns _ (match _ with _ => _ end) => case_match
  | |- returns _ (mret _) => apply returns_ret; try done
  end.
Ltac return_auto := repeat return_step.

Section methods.
Context {MO : MapOrder} {EV : Env} {MC : MonotoneClock}.

Lemma occupies_admit_grant t request healthy :
  occupies res_Permit request t (admit_grant request healthy).
Proof.
  intros g Hg. exists (reserveRequestLocked (ClientRequestID request) g), healthy.
  split; [apply quiet_is_mild, quiet_reserve|]. rw /admit_grant bind_run /= bind_run /= bind_run.
  split; [done|]. apply quiet_is_mild.
  by apply (quietly_emitAdmission t).
Qed.

Lemma mildly_delayed_result t request reason retryAt healthy :
  grants res_Permit request t (delayedLocked request reason retryAt healthy).
Proof.
  apply grants_mild; [by apply quietly_mildly, quietly_delayed|].
  intros g. by rw /delayedLocked bind_run /= bind_run.
Qed.

Definition no_permit (r : AdmissionResult) : Prop := res_Permit r = None.

Lemma returns_delayed request reason retryAt healthy :
  returns no_permit (delayedLocked request reason retryAt healthy).
Proof. rw /delayedLocked. return_auto. Qed.

Lemma returns_try_gate request emitted delay :
  returns (λ o, ∀ r, o = Some r → no_permit r) (try_gate request emitted delay).
Proof.
  rw /try_gate. repeat lazymatch goal with
    | |- returns _ (mbind _ (delayedLocked _ _ _ _)) =>
      eapply returns_bind_post; [apply returns_delayed|intros ? ?]
    | _ => return_step
    end; by intros r [= <-].
Qed.

Lemma returns_validateContext ctx request :
  returns (λ o, ∀ r, o = Some r → no_permit r) (validateAdmissionContext ctx request).
Proof. rw /validateAdmissionContext. return_auto; intros r Hr; try case_match; by simplify_eq. Qed.

(** ** [tryAdmit] *)

Lemma mildly_try_enter t request : mildly t (tryAdmit_enter request).
Proof. apply quietly_mildly, quietly_try_gate. Qed.

Lemma tryAdmit_decide_grants t ctx request snapshot healthy :
  grants res_Permit request t (tryAdmit_decide ctx request snapshot healthy).
Proof.
  rw /tryAdmit_decide. eapply grants_bind_returns;
    [apply quietly_mildly, quietly_try_gate|apply returns_try_gate|].
  intros [r|] Hr; [by apply grants_ret, Hr|].
  repeat grant_step; try done.
  - apply mildly_delayed_result.
  - apply occupies_admit_grant.
Qed.

(** ** [queueAdmit] *)

Definition step_permit (s : QueueStep) : option Permit :=
  match s with QReturn r => res_Permit r | _ => None end.

Lemma occupies_return t request (m : M AdmissionResult) :
  occupies res_Permit request t m → occupies step_permit request t (r ← m; mret (QReturn r)).
Proof.
  intros Hm g Hg. destruct (Hm g Hg) as (g' & h & ?&?&?).
  exists g', h. by rw bind_run.
Qed.

Lemma queue_decide_grants t ctx request snapshot healthy now w :
  now ≤ t → grants step_permit request t (queue_decide ctx request snapshot healthy now w).
Proof.
  intros Hnow. rw /queue_decide /queue_check. repeat grant_step; try done.
  - rw /contextResult. by case_match.
  - apply occupies_bind; [mild_auto|]. intros _. apply occupies_return, occupies_admit_grant.
Qed.

Lemma mildly_queue_enter t request : mildly t (queue_enter request).
Proof. rw /queue_enter. mild_auto. Qed.

Lemma mildly_queue_validate t ctx request w : mildly t (queue_validate ctx request w).
Proof. rw /queue_validate. mild_auto. Qed.

Lemma mildly_queue_turn t ctx w : mildly t (queue_turn ctx w).
Proof. rw /queue_turn. mild_auto. Qed.

Lemma mildly_queue_abandon t ctx request healthy w :
  mildly t (queue_abandon ctx request healthy w).
Proof. rw /queue_abandon. mild_auto. Qed.

(** ** What a grant gives its holder *)

Lemma granted_free request p g g' :
  granted request p g g' → inFlight g = false ∧ unsafe (telemetry g) = false.
Proof.
  intros (now & g1 & g2 & h & Hm%mild_is_calm & _ & (Hf & Hu & _)%checkLocked_lane & _).
  rw -(calm_inFlight _ _ Hm). split; [done|].
  destruct (unsafe (telemetry g)) eqn:E; [|done]. by rw (calm_unsafe _ _ Hm E) in Hu.
Qed.

Lemma granted_may_start request p g g' :
  accountable g → usage_nonneg g → granted request p g g' →
  ∃ now g2 healthy, mild g g2 ∧ now ≤ clock (readings g2) ∧ may_start now request g2
    ∧ p = newPermit request healthy ∧ mild (occupy request g2) g'.
Proof.
  intros Hacc Hn (now & g1 & g2 & h & H1 & Hnow & Hadm & H2 & -> & Hg').
  apply checkLocked_passes in Hadm; [|by eapply accountable_mild].
  assert (mild g (expireLocked now g1)) as He.
  { etrans; [done|]. apply quiet_is_mild, quiet_expire. done. }
  exists now, g2, h. split_and!; [by etrans| | |done|done].
  - pose proof (clock_mono _ _ (mild_readings _ _ H2)). simpl in *. lia.
  - apply (may_start_mild now now request (expireLocked now g1)); [done|lia| |].
    + by eapply usage_nonneg_mild.
    + by destruct Hadm.
Qed.
End methods.
