(* ===== verification/PermitLaws.v ===== *)
(** * What the permit methods do to the lane and to the accounting

    A successful start moves the turn and charges exactly one attempt; every
    way to end a permit vacates the lane.  Both are stated as an exact state
    function between two frames, so that the step relation of the whole
    governor only has to compose them. *)

From S2P Require Import Prelude GoTime Provider Receipts GovTypes Ledger GovState Circuit.
From S2P Require Import Admission Permits Frames Admissible Grants.

Local Open Scope Z_scope.
Local Open Scope runstead_scope.
Local Open Scope general_if_scope.

(** The lane is given back. *)
Definition vacate (g : Governor) : Governor := g <| inFlight := false |> <| activeTaskID := "" |>.

(** The bookkeeping of a start that belongs to the turn. *)
Definition move (aware : bool) (now : Time) (taskID : string) (g : Governor) : Governor :=
  let g := g <| nextAttempt ::= Z.succ |> in
  let g := if aware then g else g <| lastStart := now |> in
  if String.eqb (currentTask g) taskID then g <| consecutiveTurns ::= Z.succ |>
  else g <| currentTask := taskID |> <| consecutiveTurns := 1 |>.

(** One attempt charged to its task and to the ledger. *)
Definition charge (now : Time) (request : AttemptRequest) (g : Governor) : Governor :=
  let taskID := TaskID request in
  let g := updateTask taskID countAttempt g in
  let g := if Retry request then updateTask taskID countRetry g else g in
  g <| ledger ::= ledger_add now taskID |>.

Section laws.
Context {MO : MapOrder} {EV : Env} {MC : MonotoneClock} {RD : Rendering}.

(** ** Start *)

Definition start_ready (p : Permit) (g : Governor) : bool :=
  attached p && negb (completed p) && negb (started p) && inFlight g.

Definition started_permit (aware : bool) (now : Time) (sequence : Z) (p : Permit) : Permit :=
  p <| started := true |> <| receiptAware := aware |> <| startedAt := now |>
    <| attemptSequence := sequence |>.

Lemma markActive_next id g :
  markRequestActiveLocked id (g <| nextAttempt ::= Z.succ |>)
  = (markRequestActiveLocked id g) <| nextAttempt ::= Z.succ |>.
Proof. rw /markRequestActiveLocked /=. by case_match. Qed.

Lemma readings_move aware now taskID g : readings (move aware now taskID g) = readings g.
Proof. rw /move. destruct aware; by case_match. Qed.

Lemma readings_charge now request g : readings (charge now request g) = readings g.
Proof. rw /charge. by case_match. Qed.

Lemma quietly_run {A} t (m : M A) g : quietly t m → t ≤ clock (readings g) → quiet g (m g).2.
Proof. intros Hm. apply Hm. Qed.

(** A start that is refused changes nothing. *)
Lemma start_refused aware p g :
  start_ready p g = false →
  (Permit_start aware p g).2 = g ∧ (Permit_start aware p g).1.2 = p
  ∧ (Permit_start aware p g).1.1 ≠ None.
Proof.
  rw /start_ready /Permit_start => H. destruct (attached p); [|done]. destruct (completed p); [done|].
  destruct (started p); [done|]. simpl in *. rw bind_run /= H. done.
Qed.

Lemma start_accepted aware p g :
  start_ready p g = true →
  let now := clock (readings g) in
  let m := Permit_start aware p g in
  m.1 = (None, started_permit aware now (nextAttempt g) p) ∧
  ∃ g1 g2, quiet g g1 ∧ quiet (move aware now (TaskID (request p)) g1) g2 ∧
    if aware then m.2 = g2
    else (∃ s, tasks g2 !! TaskID (request p) = Some s) ∧ quiet (charge now (request p) g2) m.2.
Proof.
  intros H now m. rw /start_ready in H.
  destruct (attached p) eqn:Ha; [|done]. destruct (completed p) eqn:Hc; [done|].
  destruct (started p) eqn:Hs; [done|]. simpl in H.
  rw /m /Permit_start Ha Hc Hs /= bind_run /= H /= bind_run /=. fold now.
  set (g0 := g <| readings ::= S |>). set (taskID := TaskID (request p)).
  assert (now ≤ clock (readings g0)) as Ht by (apply clock_mono; simpl; lia).
  rw bind_run. set (gb := (budgetLocked now taskID g0).2).
  assert (quiet g0 gb) as Hb0 by by apply (quietly_budget now).
  assert (quiet g gb) as Hb by (etrans; [apply quiet_tick|done]).
  rw bind_run /=. rw (mild_next _ _ (quiet_mild _ _ Hb)).
  fold (started_permit aware now (nextAttempt g) p).
  rw bind_run /= bind_run /= markActive_next bind_run.
  set (g1 := markRequestActiveLocked _ gb).
  assert (quiet g g1) as H1 by (etrans; [done|apply quiet_markActive]).
  rw bind_run. set (gm := (modify _ _).2).
  assert (gm = move aware now taskID g1) as Hm.
  { rw /gm /move /=. by destruct aware. }
  destruct aware; simpl.
  { split; [done|]. exists g1, gm. by rw Hm. }
  assert (now ≤ clock (readings gm)) as Htm.
  { rw Hm readings_move. etrans; [exact Ht|]. apply clock_mono, quiet_readings.
    etrans; [done|apply quiet_markActive]. }
  rw bind_run. set (g2 := (taskLocked taskID gm).2).
  assert (quiet gm g2) as H2 by by apply (quietly_taskLocked now).
  assert (∃ s, tasks g2 !! taskID = Some s) as Hs2.
  { rw /g2 taskLocked_run /=. eexists. apply lookup_insert_eq. }
  rw bind_run bind_run bind_run. set (gc := (modify _ _).2).
  assert (gc = charge now (request p) g2) as Hgc by done.
  assert (now ≤ clock (readings gc)) as Htc.
  { rw Hgc readings_charge. etrans; [exact Htm|]. by apply clock_mono, quiet_readings. }
  match goal with |- context [(mbind ?k ?m) gc] =>
    assert (quietly now (mbind k m)) as Hrest by quiet_auto end.
  split; [by rw !bind_run|]. exists g1, g2. rw -Hm -Hgc. split_and!; [done|done|done|].
  by apply Hrest.
Qed.
(** What a successful start amounts to: the turn moves, the last start becomes
    [start] and, when [charged], one attempt is accounted at [now]. *)
Record start_effect (charged : bool) (start now : Time) (request : AttemptRequest)
    (g g' : Governor) : Prop := {
  se_calm : calm g g';
  se_next : nextAttempt g' = Z.succ (nextAttempt g);
  se_turn : currentTask g' = TaskID request;
  se_queue : queue g' = queue g;
  se_waiters : waiters g' = waiters g;
  se_closed : closed g' = closed g;
  se_start : lastStart g' = start;
  se_wf : ledger_wf (ledger g) → ledger_wf (ledger g');
  se_ledger : ledger_wf (ledger g) → ∃ old,
    live (ledger g) ++ (if charged then [{| at_ := now; le_taskID := TaskID request |}] else [])
    = old ++ live (ledger g') ∧ ∀ e, e ∈ old → at_ e ≤ clock (readings g') - 3 * Hour;
  se_usage : inFlight g = true → activeTaskID g = TaskID request → ∀ id,
    if decide (id = TaskID request) then
      usage g' id = if charged
        then ((usage g id).1 + 1, (usage g id).2 + if Retry request then 1 else 0)
        else usage g id
    else usage g' id = usage g id ∨ usage g' id = (0, 0)
}.

Lemma move_next aware now id g : nextAttempt (move aware now id g) = Z.succ (nextAttempt g).
Proof. rw /move. destruct aware; by case_match. Qed.
Lemma move_turn aware now id g : currentTask (move aware now id g) = id.
Proof. rw /move. destruct aware; case_match eqn:E; try done; by apply String.eqb_eq in E. Qed.
Lemma move_lastStart aware now id g :
  lastStart (move aware now id g) = if aware then lastStart g else now.
Proof. rw /move. destruct aware; by case_match. Qed.

(** A move of the turn is calm and leaves the accounting and the queue. *)
Lemma move_frame aware now id g :
  let g' := move aware now id g in
  calm g g' ∧ queue g' = queue g ∧ waiters g' = waiters g ∧ closed g' = closed g
  ∧ ledger g' = ledger g ∧ tasks g' = tasks g.
Proof. rw /move. destruct aware; case_match; by split_and!. Qed.

Lemma charge_frame now request g :
  let g' := charge now request g in
  calm g g' ∧ queue g' = queue g ∧ waiters g' = waiters g ∧ closed g' = closed g
  ∧ ledger g' = ledger_add now (TaskID request) (ledger g) ∧ lastStart g' = lastStart g
  ∧ nextAttempt g' = nextAttempt g ∧ currentTask g' = currentTask g.
Proof. rw /charge. case_match; by split_and!. Qed.

Lemma charge_usage now request g id :
  is_Some (tasks g !! TaskID request) →
  usage (charge now request g) id =
    if decide (id = TaskID request)
    then ((usage g id).1 + 1, (usage g id).2 + if Retry request then 1 else 0)
    else usage g id.
Proof.
  intros [s Hs]. rw /usage /task_of /charge /updateTask.
  destruct (decide (id = TaskID request)) as [->|Hne]; case_match; simpl.
  - rw !lookup_alter_eq Hs /=. f_equal; lia.
  - rw !lookup_alter_eq Hs /=. f_equal; lia.
  - by rw !lookup_alter_ne.
  - by rw !lookup_alter_ne.
Qed.

Lemma charge_effect now request g g' :
  is_Some (tasks g !! TaskID request) → quiet (charge now request g) g' →
  calm g g' ∧ queue g' = queue g ∧ waiters g' = waiters g ∧ closed g' = closed g
  ∧ lastStart g' = lastStart g ∧ nextAttempt g' = nextAttempt g ∧ currentTask g' = currentTask g.
Proof.
  intros Hs [Hm Hq Hw Hc]. destruct (charge_frame now request g) as (F1&F2&F3&F4&_&F6&F7&F8).
  split_and!; [|congruence..|by rw (mild_start _ _ Hm)|by rw (mild_next _ _ Hm)|by rw (mild_task _ _ Hm)].
  etrans; [exact F1|by apply mild_is_calm].
Qed.
Lemma mild_old g g' : mild g g' →
  ∃ old, live (ledger g) = old ++ live (ledger g')
    ∧ ∀ e, e ∈ old → at_ e ≤ clock (readings g') - 3 * Hour.
Proof. by intros []. Qed.

Lemma old_later (old : list ledgerEvent) g g' : calm g g' →
  (∀ e, e ∈ old → at_ e ≤ clock (readings g) - 3 * Hour) →
  ∀ e, e ∈ old → at_ e ≤ clock (readings g') - 3 * Hour.
Proof.
  intros Hc%calm_readings Ho e He. specialize (Ho e He).
  pose proof (clock_mono _ _ Hc). lia.
Qed.

Lemma usage_protected g g' id : mild g g' →
  inFlight g = true → activeTaskID g = id → usage g' id = usage g id.
Proof. intros Hm Hi Ha. destruct (mild_usage _ _ Hm id) as [?|[_ []]]; [done|by split]. Qed.

Lemma usage_kept g g' id : mild g g' → usage g' id = usage g id ∨ usage g' id = (0, 0).
Proof. intros Hm. destruct (mild_usage _ _ Hm id) as [?|[? _]]; auto. Qed.

Lemma move_effect aware now p g g1 g2 :
  quiet g g1 → quiet (move aware now (TaskID (request p)) g1) g2 →
  start_effect false (if aware then lastStart g else now) now (request p) g g2.
Proof.
  intros [H1 Q1 W1 C1] [H2 Q2 W2 C2].
  destruct (move_frame aware now (TaskID (request p)) g1) as (F1&F2&F3&F4&F5&F6).
  set (gm := move aware now (TaskID (request p)) g1) in *.
  assert (calm g gm) as Hgm by (etrans; [by apply mild_is_calm|done]).
  assert (calm g g2) as Hg2 by (etrans; [done|by apply mild_is_calm]).
  split; [done| | |congruence..| | | |].
  - rw (mild_next _ _ H2) move_next (mild_next _ _ H1). done.
  - by rw (mild_task _ _ H2) move_turn.
  - by rw (mild_start _ _ H2) move_lastStart (mild_start _ _ H1).
  - intros Hwf%(mild_wf _ _ H1). apply (mild_wf _ _ H2). by rw F5.
  - intros Hwf. destruct (mild_old _ _ H1) as (o1 & L1 & O1), (mild_old _ _ H2) as (o2 & L2 & O2).
    rw F5 in L2. exists (o1 ++ o2). rw app_nil_r -app_assoc -L2. split; [done|].
    intros e [He|He]%elem_of_app; [|by apply O2].
    apply (old_later o1 g1 g2); [|done|done]. etrans; [done|by apply mild_is_calm].
  - intros Hi Ha id. assert (usage gm id = usage g1 id) as Um by by rw /usage /task_of F6.
    assert (inFlight gm = true) as Him by by rw (calm_inFlight _ _ Hgm).
    assert (activeTaskID gm = TaskID (request p)) as Ham by by rw (calm_active _ _ Hgm).
    case_match; subst.
    + rw (usage_protected gm g2) // Um. by apply usage_protected.
    + destruct (usage_kept _ _ id H2) as [->|?]; [|by right]. rw Um. by apply usage_kept.
Qed.

(** The charge adds one event and one attempt. *)
Lemma charge_start_effect start now p g gm g' :
  start_effect false start now (request p) g gm →
  is_Some (tasks gm !! TaskID (request p)) → quiet (charge now (request p) gm) g' →
  start_effect true start now (request p) g g'.
Proof.
  intros [] Hs [H Q W C].
  destruct (charge_frame now (request p) gm) as (F1&F2&F3&F4&F5&F6&F7&F8).
  pose proof (charge_usage now (request p) gm) as Hu.
  set (gc := charge now (request p) gm) in *.
  assert (calm g gc) as Hgc by (etrans; done).
  split; [by etrans; [done|by apply mild_is_calm]| | |congruence..| | | |].
  - by rw (mild_next _ _ H) F7.
  - by rw (mild_task _ _ H) F8.
  - by rw (mild_start _ _ H) F6.
  - intros Hwf%se_wf0. apply (mild_wf _ _ H). rw F5. by apply ledger_wf_add.
  - intros Hwf. destruct (se_ledger0 Hwf) as (o1 & L1 & O1), (mild_old _ _ H) as (o2 & L2 & O2).
    rw F5 live_add in L2; first by apply se_wf0. rw app_nil_r in L1.
    exists (o1 ++ o2). rw L1 -!app_assoc L2. split; [done|].
    intros e [He|He]%elem_of_app; [|by apply O2].
    apply (old_later o1 gm g'); [|done|done]. etrans; [done|by apply mild_is_calm].
  - intros Hi Ha id. specialize (Hu id Hs). specialize (se_usage0 Hi Ha id).
    case_match; subst.
    + assert (inFlight gc = true) as Hic by by rw (calm_inFlight _ _ Hgc).
      assert (activeTaskID gc = TaskID (request p)) as Hac by by rw (calm_active _ _ Hgc).
      by rw (usage_protected gc g') // Hu se_usage0.
    + destruct (usage_kept _ _ id H) as [->|?]; [|by right]. by rw Hu.
Qed.

Lemma start_effects aware p g g1 g2 g' :
  let now := clock (readings g) in
  quiet g g1 → quiet (move aware now (TaskID (request p)) g1) g2 →
  (if aware then g' = g2
   else (∃ s, tasks g2 !! TaskID (request p) = Some s) ∧ quiet (charge now (request p) g2) g') →
  start_effect (negb aware) (if aware then lastStart g else now) now (request p) g g'.
Proof.
  intros now H1 H2 H3. pose proof (move_effect _ _ _ _ _ _ H1 H2) as He.
  destruct aware; simpl; [by subst|]. destruct H3 as [Hs Hc].
  by eapply charge_start_effect.
Qed.

(** ** Ending a permit *)

(** Between transitions of the frame [R] the lane is vacated and then every
    queued waiter is signalled. *)
Definition ended (R : Governor → Governor → Prop) (g g' : Governor) : Prop :=
  ∃ g1 g2, R g g1 ∧ R (vacate g1) g2 ∧ R (signalAllLocked g2) g'.

Definition frees {A} (R : Governor → Governor → Prop) (t : Time) (m : M A) : Prop :=
  ∀ g, t ≤ clock (readings g) → ended R g (m g).2.

Lemma readings_signalAll g : readings (signalAllLocked g) = readings g.
Proof.
  rw /signalAllLocked. generalize (queue g). intros ws. revert g.
  induction ws as [|w ws IH]; intros g; simpl; [done|]. by rw IH.
Qed.

Section frees.
Context (R : Governor → Governor → Prop) `{!PreOrder R}.
Context (R_readings : ∀ g g', R g g' → (readings g ≤ readings g')%nat).
Context (R_tick : ∀ g, R g (g <| readings ::= S |>)).

Lemma clock_after g g' t : R g g' → t ≤ clock (readings g) → t ≤ clock (readings g').
Proof. intros HR%R_readings Ht. etrans; [exact Ht|by apply clock_mono]. Qed.

Lemma ended_before g g1 g' : R g g1 → ended R g1 g' → ended R g g'.
Proof. intros H (g2 & g3 & H1 & H2). exists g2, g3. split; [by etrans|done]. Qed.

Lemma ended_after g g1 g' : ended R g g1 → R g1 g' → ended R g g'.
Proof. intros (g2 & g3 & H1 & H2 & H3) H. exists g2, g3. split_and!; [done..|by etrans]. Qed.

Lemma ended_readings g g' : ended R g g' → (readings g ≤ readings g')%nat.
Proof.
  intros (g1 & g2 & H1%R_readings & H2%R_readings & H3%R_readings).
  rw readings_signalAll in H3. simpl in *. lia.
Qed.

Lemma frees_bind {A B} t (m : M A) (k : A → M B) :
  keeps R t m → (∀ a, frees R t (k a)) → frees R t (x ← m; k x).
Proof.
  intros Hm Hk g Hg. rw bind_run. specialize (Hm g Hg).
  eapply ended_before; [exact Hm|]. apply Hk. by eapply clock_after.
Qed.

Lemma frees_bind_post {A B} t (m : M A) (k : A → M B) :
  frees R t m → (∀ a, keeps R t (k a)) → frees R t (x ← m; k x).
Proof.
  intros Hm Hk g Hg. rw bind_run. eapply ended_after; [by apply Hm|]. apply Hk.
  etrans; [exact Hg|]. by apply clock_mono, ended_readings, Hm.
Qed.

Lemma frees_Now {B} t (k : Time → M B) :
  (∀ now, t ≤ now → frees R now (k now)) → frees R t (x ← Now; k x).
Proof.
  intros Hk g Hg. rw bind_run /=. eapply ended_before; [apply R_tick|].
  apply Hk; [done|]. simpl. apply clock_mono. lia.
Qed.

Lemma frees_release {A} t (k : unit → M A) :
  (∀ a, keeps R t (k a)) → frees R t (x ← modify releaseLane; k x).
Proof. intros Hk. apply frees_bind_post; [|done]. intros g Hg. by exists g, (vacate g). Qed.

(** A cancellation signals after it has emitted its event. *)
Lemma frees_vacate {A B} t (m : M A) (b : B) :
  keeps R t m →
  frees R t (_ ← modify vacate; _ ← m; _ ← modify signalAllLocked; mret b).
Proof. intros Hm g Hg. rw !bind_run /=. eexists g, _. split_and!; [done|by apply Hm|done]. Qed.
End frees.

Lemma frees_quiet_bind {A B} t (m : M A) (k : A → M B) :
  quietly t m → (∀ a, frees quiet t (k a)) → frees quiet t (x ← m; k x).
Proof. apply frees_bind; [apply _|apply quiet_readings]. Qed.

Lemma frees_quiet_Now {B} t (k : Time → M B) :
  (∀ now, t ≤ now → frees quiet now (k now)) → frees quiet t (x ← Now; k x).
Proof. apply frees_Now; [apply _|apply quiet_tick]. Qed.

Lemma frees_quiet_release {A} t (k : unit → M A) :
  (∀ a, quietly t (k a)) → frees quiet t (x ← modify releaseLane; k x).
Proof. apply frees_release; [apply _|apply quiet_readings]. Qed.

Lemma frees_settle t p now result before metadata :
  frees quiet t (settle p now result before metadata).
Proof.
  rw /settle. apply frees_quiet_bind; [quiet_auto|]. intros _.
  apply frees_quiet_release. intros _. quiet_auto.
Qed.

(** A permit that can be cancelled before its start. *)
Definition pending (p : Permit) : bool := attached p && negb (completed p) && negb (started p).
(** A permit that is running. *)
Definition running (p : Permit) : bool := attached p && negb (completed p) && started p.

Definition complete (p : Permit) : Permit := p <| completed := true |>.

Lemma cancel_before_spec p g :
  if pending p
  then (CancelBeforeStart p g).1 = (None, complete p)
       ∧ ended quiet g (CancelBeforeStart p g).2
  else ∃ e, CancelBeforeStart p g = ((Some e, p), g).
Proof.
  rw /pending /CancelBeforeStart. destruct (attached p), (completed p), (started p);
    cbn [negb orb andb]; try by eexists.
  split; [by rw !bind_run|]. match goal with |- ended _ _ (?m g).2 =>
    enough (frees quiet (clock (readings g)) m) as Hm by by apply Hm end.
  apply frees_quiet_bind; [quiet_auto|]. intros _.
  apply (frees_vacate quiet), quietly_emitAdmission.
Qed.

Lemma cancel_after_spec p g :
  if running p
  then (CancelAfterStart p g).1.2 = complete p ∧ fr_Err (CancelAfterStart p g).1.1 = None
       ∧ ended quiet g (CancelAfterStart p g).2
  else ∃ e, CancelAfterStart p g = ((failed e, p), g).
Proof.
  rw /running /CancelAfterStart. destruct (attached p), (completed p), (started p);
    cbn [negb orb andb]; try by eexists.
  split_and!; [by rw !bind_run|by rw !bind_run|]. match goal with |- ended _ _ (?m g).2 =>
    enough (frees quiet (clock (readings g)) m) as Hm by by apply Hm end.
  apply frees_quiet_Now. intros now _. apply frees_quiet_bind; [quiet_auto|]. intros _.
  apply frees_quiet_release. intros _. quiet_auto.
Qed.

Lemma finish_spec p outcome g :
  if running p && negb (receiptAware p)
  then (Finish p outcome g).1.2 = complete p ∧ ended quiet g (Finish p outcome g).2
  else ∃ e, Finish p outcome g = ((failed e, p), g).
Proof.
  rw /running /Finish. destruct (attached p), (completed p), (started p), (receiptAware p);
    cbn [negb orb andb]; try by eexists.
  split; [by rw !bind_run|]. match goal with |- ended _ _ (?m g).2 =>
    enough (frees quiet (clock (readings g)) m) as Hm by by apply Hm end.
  apply frees_quiet_Now. intros now _. apply frees_quiet_bind; [quiet_auto|]. intros before.
  apply frees_quiet_bind; [quiet_auto|]. intros result.
  apply frees_bind_post; [apply _|apply quiet_readings|apply frees_settle|].
  intros _. apply keeps_ret, _.
Qed.

(** ** The receipt-aware finish *)

Lemma serene_same g g' :
  config g' = config g → inFlight g' = inFlight g → activeTaskID g' = activeTaskID g →
  hasEvents g' = hasEvents g → readings g' = readings g →
  (unsafe (telemetry g) = true → unsafe (telemetry g') = true) →
  queue g' = queue g → waiters g' = waiters g → closed g' = closed g → serene g g'.
Proof. intros. split; [split; try done; lia|done..]. Qed.

Lemma serene_readings g g' : serene g g' → (readings g ≤ readings g')%nat.
Proof. intros [[]]. done. Qed.

Lemma serene_tick g : serene g (g <| readings ::= S |>).
Proof. apply quiet_is_serene, quiet_tick. Qed.

Definition serenely {A} : Time → M A → Prop := keeps serene.

Lemma quietly_serenely {A} t (m : M A) : quietly t m → serenely t m.
Proof. intros Hm g Hg. by apply quiet_is_serene, Hm. Qed.

Lemma serenely_bind {A B} t (m : M A) (k : A → M B) :
  serenely t m → (∀ a, serenely t (k a)) → serenely t (x ← m; k x).
Proof. apply keeps_bind; [apply _|apply serene_readings]. Qed.

Lemma serenely_Now {B} t (k : Time → M B) :
  (∀ now, t ≤ now → serenely now (k now)) → serenely t (x ← Now; k x).
Proof. apply keeps_Now; [apply _|apply serene_tick]. Qed.

Lemma serenely_modify t (f : Governor → Governor) :
  (∀ g, t ≤ clock (readings g) → serene g (f g)) → serenely t (modify f).
Proof. done. Qed.

Lemma frees_serene_bind {A B} t (m : M A) (k : A → M B) :
  serenely t m → (∀ a, frees serene t (k a)) → frees serene t (x ← m; k x).
Proof. apply frees_bind; [apply _|apply serene_readings]. Qed.

Lemma frees_serene_Now {B} t (k : Time → M B) :
  (∀ now, t ≤ now → frees serene now (k now)) → frees serene t (x ← Now; k x).
Proof. apply frees_Now; [apply _|apply serene_tick]. Qed.

Lemma frees_serene_release {A} t (k : unit → M A) :
  (∀ a, serenely t (k a)) → frees serene t (x ← modify releaseLane; k x).
Proof. apply frees_release; [apply _|apply serene_readings]. Qed.

Lemma frees_serene_post {A B} t (m : M A) (k : A → M B) :
  frees quiet t m → (∀ a, serenely t (k a)) → frees serene t (x ← m; k x).
Proof.
  intros Hm. apply frees_bind_post; [apply _|apply serene_readings|]. intros g Hg.
  destruct (Hm g Hg) as (g1 & g2 & H). exists g1, g2. split_and!; apply quiet_is_serene, H.
Qed.

(** ** What the end of a permit means for the lane *)

Lemma ended_mild g g' : ended quiet g g' → ∃ g1, mild g g1 ∧ mild (vacate g1) g'.
Proof.
  intros (g1 & g2 & H1 & H2 & H3). exists g1. split; [by apply quiet_is_mild|].
  etrans; [by apply quiet_is_mild|]. etrans; [apply mild_signalAll|by apply quiet_is_mild].
Qed.

Lemma ended_calm g g' : ended serene g g' → ∃ g1, calm g g1 ∧ calm (vacate g1) g'.
Proof.
  intros (g1 & g2 & [H1] & [H2] & [H3]). exists g1. split; [done|]. etrans; [done|].
  etrans; [apply mild_is_calm, mild_signalAll|done].
Qed.

Lemma ended_serene g g' : ended quiet g g' → ended serene g g'.
Proof. intros (g1 & g2 & H). exists g1, g2. split_and!; apply quiet_is_serene, H. Qed.
End laws.

(** Walk through a serene method. *)
Ltac serene_step :=
  lazymatch goal with
  | |- serenely _ (mbind _ Now) => apply serenely_Now; intros ? ?
  | |- serenely _ (mbind _ (modify _)) => apply serenely_bind; [apply serenely_modify; intros|intros ?]
  | |- serenely _ (mbind _ _) => apply serenely_bind; [|intros ?]
  | |- serenely _ (modify _) => apply serenely_modify; intros
  | |- serenely _ (match _ with _ => _ end) => case_match
  | |- serenely _ _ => first [solve [eauto 3 with calm] | apply quietly_serenely; solve [quiet_auto]]
  | |- serene _ (match _ with _ => _ end) => case_match
  | |- serene _ (upd _ _) => apply serene_same; done
  | |- serene ?g ?g => reflexivity
  | |- serene _ _ => first [solve [eauto 3 with calm] | apply quiet_is_serene; solve [quiet_auto]]
  end.
Ltac serene_auto := repeat serene_step.

Ltac frees_step :=
  lazymatch goal with
  | |- frees _ _ (mbind _ Now) => apply frees_serene_Now; intros ? ?
  | |- frees _ _ (mbind _ (modify releaseLane)) => apply frees_serene_release; intros ?
  | |- frees _ _ (mbind _ (modify _)) =>
    apply frees_serene_bind; [apply serenely_modify; intros|intros ?]
  | |- frees _ _ (mbind _ (settle _ _ _ _ _)) =>
    apply frees_serene_post; [apply frees_settle|intros ?]
  | |- frees _ _ (mbind _ _) => apply frees_serene_bind; [|intros ?]
  | |- frees _ _ (match _ with _ => _ end) => case_match
  | _ => serene_step
  end.

Section receipts.
Context {MO : MapOrder} {EV : Env} {MC : MonotoneClock} {RD : Rendering}.

Lemma serene_updateTask id f g : serene g (updateTask id f g).
Proof. by apply serene_same. Qed.

#[local] Hint Resolve serene_updateTask : calm.

Lemma serenely_debitReceipt t p now receipt : serenely t (debitReceipt p now receipt).
Proof. rw /debitReceipt. serene_auto. Qed.

#[local] Hint Resolve serenely_debitReceipt : calm.

Lemma serenely_debitReceipts t p now receipts latest :
  serenely t (debitReceipts p now receipts latest).
Proof. revert latest. induction receipts as [|r rs IH]; intros latest; simpl; serene_auto. Qed.

Lemma serenely_recordReceipts t p now outcome receipts result aggregate backoff :
  now ≤ t → serenely t (recordReceipts p now outcome receipts result aggregate backoff).
Proof.
  intros Hnow. revert result aggregate backoff.
  induction receipts as [|r rs IH]; intros; simpl; serene_auto.
Qed.

#[local] Hint Resolve serenely_debitReceipts : calm.
#[local] Hint Extern 2 (serenely _ (recordReceipts _ _ _ _ _ _ _)) =>
  apply serenely_recordReceipts; lia : calm.

Lemma frees_receiptFailure t p err debit delivery :
  frees serene t (finishReceiptFailureLocked p err debit delivery).
Proof. rw /finishReceiptFailureLocked. repeat frees_step. Qed.

Lemma frees_reconcile t p now outcome set newReceipts policyErr :
  now ≤ t → frees serene t (reconcileReceipts p now outcome set newReceipts policyErr).
Proof. intros Hnow. rw /reconcileReceipts. repeat frees_step. Qed.

(** Every way to finish a receipt-aware permit completes it. *)
Lemma returns_receiptFailure p err debit delivery :
  returns (λ r, r.2 = complete p) (finishReceiptFailureLocked p err debit delivery).
Proof. rw /finishReceiptFailureLocked. return_auto. Qed.

Lemma returns_reconcile p now outcome set newReceipts policyErr :
  returns (λ r, r.2 = complete p) (reconcileReceipts p now outcome set newReceipts policyErr).
Proof. rw /reconcileReceipts. return_auto. Qed.

Lemma serene_attemptIDs (rs : list AttemptReceipt) now g :
  serene g (foldl (λ g r, g <| attemptIDs ::= <[rc_AttemptID r := now]> |>) g rs).
Proof.
  revert g. induction rs as [|r rs IH]; intros g; simpl; [done|].
  etrans; [|apply IH]. by apply serene_same.
Qed.

Lemma serene_pruneAttempts now g : serene g (pruneAttemptIDsLocked now g).
Proof. by apply serene_same. Qed.

#[local] Hint Resolve serene_attemptIDs serene_pruneAttempts : calm.

Lemma receipts_spec p outcome set g :
  if running p && receiptAware p
  then (FinishWithAttemptReceipts p outcome set g).1.2 = complete p
       ∧ ended serene g (FinishWithAttemptReceipts p outcome set g).2
  else ∃ e, FinishWithAttemptReceipts p outcome set g = ((failed e, p), g).
Proof.
  rw /running /FinishWithAttemptReceipts.
  destruct (attached p), (completed p), (started p), (receiptAware p);
    cbn [negb orb andb]; try by eexists.
  match goal with |- (?m g).1.2 = _ ∧ _ =>
    enough (returns (λ r, r.2 = complete p) m ∧ frees serene (clock (readings g)) m) as [Hr Hm]
      by (split; [apply Hr|by apply Hm]) end.
  split.
  - repeat lazymatch goal with
    | |- returns _ (finishReceiptFailureLocked _ _ _ _) => apply returns_receiptFailure
    | |- returns _ (reconcileReceipts _ _ _ _ _ _) => apply returns_reconcile
    | _ => return_step
    end.
  - repeat first [frees_step | apply frees_receiptFailure | apply frees_reconcile; lia].
Qed.
End receipts.
