(* ===== verification/Execute.v ===== *)
(** * Governed execution (internal/governor/execute.go, admission.go, persistence.go)

    [Admit] and [TryAdmit] as whole calls, and [Execute]: admission, start,
    durable intent, the provider call, classification, finish and durable
    outcome.  Whatever happens outside the lock is a parameter that may change
    the governor: the telemetry source, the wait of a queued call, the store,
    the provider call, and the other goroutines that run between two critical
    sections. *)

From S2P Require Import Prelude GoTime Provider Receipts GovTypes Ledger GovState Circuit.
From S2P Require Import Admission Permits Persist.

Local Open Scope Z_scope.
Local Open Scope runstead_scope.

(** ** What is persisted around a provider call *)

Record ProviderPrepared := {
  pp_TaskID : string;
  pp_WorkUnitID : string;
  pp_ClientRequestID : string;
  pp_ProviderID : string;
  pp_ModelPool : string;
  pp_Model : string;
  pp_ProtocolFamily : string;
  pp_ConfigIdentity : string;
  pp_AllowanceProfile : AllowanceProfile;
  pp_AttemptSequence : Z;
  pp_StartedAt : Time;
  pp_ReceiptAware : bool;
  pp_TelemetryHealthy : bool;
  pp_State : PersistedState
}.

Record ProviderFinished := {
  pf_TaskID : string;
  pf_WorkUnitID : string;
  pf_ClientRequestID : string;
  pf_Outcome : OutcomeClass;
  pf_ProviderFailureClass : ProviderFailureClass;
  pf_ProtocolFamily : string;
  pf_ConfigIdentity : string;
  pf_RequestID : string;
  pf_UpstreamReached : bool;
  pf_Uncertain : bool;
  pf_DeliveryState : DeliveryState;
  pf_StatusCode : Z;
  pf_ObservedResetAt : Time;
  pf_RateLimitObservation : RateLimitObservation;
  pf_AttemptDebited : Z;
  pf_SelectedBackoff : Duration;
  pf_Circuit : CircuitSnapshot;
  pf_RetryEligible : bool;
  pf_Receipts : list AttemptReceipt;
  pf_ReceiptErrorCode : option AttemptReceiptErrorCode;
  pf_State : PersistedState
}.

(** A nil set and an empty one are flattened alike. *)
Definition receiptEvidence (set : option AttemptReceiptSet) : list AttemptReceipt :=
  match set with Some set => rset_Receipts set | None => [] end.

(** [None] is the empty code. *)
Fixpoint receiptErrorCode_of (e : error) : option AttemptReceiptErrorCode :=
  match e with
  | ErrProvider (AttemptReceiptError code) => Some code
  | ErrProvider ErrInvalidAttemptReceipts => Some AttemptReceiptMalformed
  | AdmissionErrorCause _ c | ErrIntentNotPersisted c => receiptErrorCode_of c
  | _ => None
  end.

Definition receiptErrorCode (err : option error) : option AttemptReceiptErrorCode :=
  e ← err; receiptErrorCode_of e.

(** ** The surroundings of a call *)

(** An interface value: a client that does not implement one of the optional
    interfaces has [None] there. *)
Record Client := {
  cl_RouteSafety : option RouteSafety;
  cl_GatewayContractHealth : option GatewayContractHealthResult;
  cl_AttemptReceiptsEnabled : option bool;
  cl_Complete : Request → M (Response * option error)
}.

Record Persistence := {
  RecordProviderPrepared : ProviderPrepared → M (option error);
  RecordProviderFinished : ProviderFinished → M (option error)
}.

(** What a call sees from outside: the context at its [n]-th look, the
    telemetry source ([None] is an error), the [n]-th wait for a change (true
    when it ends without the context being done) and what other goroutines do
    between two critical sections. *)
Record Surroundings := {
  look : nat → Ctx;
  source : M (option TelemetrySnapshot);
  waitForChange : nat → nat → Time → M bool;
  others : M unit
}.

(** Effects outside the governor, in order. *)
Inductive Effect :=
  | Prepared (record : ProviderPrepared) (err : option error)
  | Completed (request : Request)
  | Finished (record : ProviderFinished) (err : option error).

Record ExecutionResult := {
  ex_Admission : AdmissionResult;
  ex_Response : option Response;
  ex_Completion : option FinishResult;
  ex_Err : option error
}.

Definition refused (admission : AdmissionResult) (err : option error) : ExecutionResult :=
  {| ex_Admission := admission; ex_Response := None; ex_Completion := None; ex_Err := err |}.

Abbreviation X := (State (Governor * list Effect)).

Definition lift {A} (m : M A) : X A := λ s, let r := m s.1 in (r.1, (r.2, s.2)).
Definition effect (e : Effect) : X unit := λ s, (tt, (s.1, s.2 ++ [e])).

Section execute.
Context `{MapOrder} `{Env} `{Rendering}.
Context (around : Surroundings).

Definition readTelemetry : M (option TelemetrySnapshot * bool) :=
  installed ← gets hasTelemetry;
  if negb installed then mret (None, true)
  else
    snapshot ← source around;
    mret (snapshot, match snapshot with Some _ => true | None => false end).

Definition tryAdmit (request : AttemptRequest) : M AdmissionResult :=
  gate ← tryAdmit_enter request;
  match gate with
  | Some result => mret result
  | None =>
    read ← readTelemetry;
    tryAdmit_decide (look around 0) request read.1 read.2
  end.

(** The loop of [queueAdmit]; the [n]-th iteration looks at the context at most
    four times.  [None] when the fuel ends. *)
Fixpoint queue_loop (fuel n : nat) (request : AttemptRequest) (w : nat)
    : M (option AdmissionResult) :=
  match fuel with
  | O => mret None
  | S fuel' =>
    let wait_for healthy channel until :=
      changed ← waitForChange around n channel until;
      if changed : bool then queue_loop fuel' (S n) request w
      else
        result ← queue_abandon (look around (4 * n + 3)) request healthy w;
        mret (Some result) in
    invalid ← queue_validate (look around (4 * n)) request w;
    match invalid with
    | Some result => mret (Some result)
    | None =>
      _ ← others around;
      turn ← queue_turn (look around (4 * n + 1)) w;
      match turn with
      | QReturn result => mret (Some result)
      | QWait channel until => wait_for true channel until
      | QReadTelemetry =>
        read ← readTelemetry;
        now ← Now;
        decision ← queue_decide (look around (4 * n + 2)) request read.1 read.2 now w;
        match decision with
        | QReturn result => mret (Some result)
        | QWait channel until => wait_for read.2 channel until
        | QReadTelemetry => mret None
        end
      end
    end
  end.

Definition queueAdmit (fuel : nat) (request : AttemptRequest) : M (option AdmissionResult) :=
  entered ← queue_enter request;
  match entered with
  | inl result => mret (Some result)
  | inr w => _ ← others around; queue_loop fuel 0 request w
  end.

Definition admit_ (fuel : nat) (ctx : Ctx) (request : AttemptRequest) (wait : bool)
    : M (option AdmissionResult) :=
  invalid ← validateAdmissionContext ctx request;
  match invalid with
  | Some result => mret (Some result)
  | None =>
    pool ← gets (λ g, ModelPool (config g));
    let request := if String.eqb (ar_ModelPool request) ""
                   then request <| ar_ModelPool := pool |> else request in
    if negb (String.eqb (ar_ModelPool request) pool) then
      mret (Some (result_ AdmissionUnsafeConfiguration AdmissionUnsafeConfiguration zeroTime
        (Some (ErrText "request model pool differs from account policy"))))
    else if wait then queueAdmit fuel request
    else result ← tryAdmit request; mret (Some result)
  end.

Definition Admit (fuel : nat) (ctx : Ctx) (request : AttemptRequest) : M (option AdmissionResult) :=
  admit_ fuel ctx request true.

Definition TryAdmit (ctx : Ctx) (request : AttemptRequest) : M (option AdmissionResult) :=
  admit_ 0 ctx request false.

Definition gatewayContractHealthAdmission (request : AttemptRequest)
    (health : GatewayContractHealthResult) : M AdmissionResult :=
  let result := (result_ AdmissionGatewayContractUnhealthy AdmissionGatewayContractUnhealthy
    zeroTime (Some (ErrProvider ErrGatewayContractUnhealthy)))
      <| res_GatewayContractHealth := Some health |> in
  _ ← emitAdmissionLocked request result false;
  mret result.

(** ** The steps of [Execute] *)

(** The tests before admission; [ErrUnsafeRoute] with the empty reason is the
    bare sentinel. *)
Definition unsafe_refusal : AdmissionResult :=
  result_ AdmissionUnsafeProviderAmplification AdmissionUnsafeProviderAmplification zeroTime
    (Some (ErrProvider (ErrUnsafeRoute ""))).

Definition route_accepted (c : Config) (safety : option RouteSafety) : bool :=
  match safety with
  | None => false
  | Some safety =>
    match RouteSafety_Validate safety with
    | Some _ => false
    | None => RouteSafety_Equal safety (cfg_RouteSafety c)
    end
  end.

(** The model the provider request names after the account policy is applied. *)
Definition resolve_model (c : Config) (request : AttemptRequest) : AttemptRequest + error :=
  let model := TrimSpace (req_Model (ProviderRequest request)) in
  if String.eqb model "" then
    inl (request <| ProviderRequest := (ProviderRequest request) <| req_Model := Model c |> |>)
  else if negb (String.eqb (Model c) "") && negb (String.eqb model (Model c))
  then inr (ErrText "request model differs from account policy")
  else inl request.

(** What [Execute] decides before it asks for admission. *)
Definition preflight (request : AttemptRequest) (client : option Client)
    : M (ExecutionResult + (Client * AttemptRequest * bool)) :=
  match client with
  | None =>
    mret (inl (refused (result_ AdmissionUnsafeConfiguration AdmissionUnsafeConfiguration zeroTime
      (Some (ErrText "provider client is required"))) None))
  | Some client =>
    c ← gets config;
    if negb (route_accepted c (cl_RouteSafety client)) then mret (inl (refused unsafe_refusal None))
    else
      unhealthy ←
        match cl_GatewayContractHealth client with
        | Some health =>
          if negb (Healthy health)
          then admission ← gatewayContractHealthAdmission request health; mret (Some admission)
          else mret None
        | None => mret None
        end;
      match unhealthy with
      | Some admission => mret (inl (refused admission (Err admission)))
      | None =>
        if RequireAttemptReceipts c && negb (default false (cl_AttemptReceiptsEnabled client)) then
          mret (inl (refused (result_ AdmissionMissingAttemptReceipts
            AdmissionMissingAttemptReceipts zeroTime
            (Some (ErrProvider ErrInvalidAttemptReceipts))) None))
        else
          mret (match resolve_model c request with
            | inr e => inl (refused (result_ AdmissionUnsafeConfiguration
                AdmissionUnsafeConfiguration zeroTime (Some e)) None)
            | inl request => inr (client, request, RequireAttemptReceipts c)
            end)
      end
  end.

Definition preparedRecord (c : Config) (request : AttemptRequest) (p : Permit) (aware healthy : bool)
    (state : PersistedState) : ProviderPrepared := {|
  pp_TaskID := TaskID request;
  pp_WorkUnitID := WorkUnitID request;
  pp_ClientRequestID := ClientRequestID request;
  pp_ProviderID := ProviderID c;
  pp_ModelPool := ModelPool c;
  pp_Model := Model c;
  pp_ProtocolFamily := cfg_ProtocolFamily c;
  pp_ConfigIdentity := ConfigIdentity c;
  pp_AllowanceProfile := cfg_AllowanceProfile c;
  pp_AttemptSequence := attemptSequence p;
  pp_StartedAt := startedAt p;
  pp_ReceiptAware := aware;
  pp_TelemetryHealthy := healthy;
  pp_State := state |}.

Definition finishedRecord (c : Config) (request : AttemptRequest) (outcome : Outcome)
    (response : Response) (completion : FinishResult) (state : PersistedState)
    : ProviderFinished :=
  let metadata := resp_Metadata response in {|
  pf_TaskID := TaskID request;
  pf_WorkUnitID := WorkUnitID request;
  pf_ClientRequestID := ClientRequestID request;
  pf_Outcome := fr_Outcome completion;
  pf_ProviderFailureClass := oc_ProviderFailureClass outcome;
  pf_ProtocolFamily := cfg_ProtocolFamily c;
  pf_ConfigIdentity := ConfigIdentity c;
  pf_RequestID := md_RequestID metadata;
  pf_UpstreamReached := UpstreamReached outcome;
  pf_Uncertain := bool_decide (fr_Outcome completion = OutcomeUncertainReached);
  pf_DeliveryState := md_DeliveryState metadata;
  pf_StatusCode := md_StatusCode metadata;
  pf_ObservedResetAt := md_ResetAt metadata;
  pf_RateLimitObservation := md_RateLimitObservation metadata;
  pf_AttemptDebited := AttemptDebited completion;
  pf_SelectedBackoff := fr_SelectedBackoff completion;
  pf_Circuit := fr_Circuit completion;
  pf_RetryEligible := RetryEligible completion;
  pf_Receipts := receiptEvidence (md_AttemptReceipts metadata);
  pf_ReceiptErrorCode := receiptErrorCode (fr_Err completion);
  pf_State := state |}.

(** The classified outcome, with the delivery evidence of the response. *)
Definition classify (classifier : option (Response → option error → Outcome))
    (response : Response) (err : option error) : Outcome :=
  let outcome := match classifier with Some f => f response err | None => defaultOutcome response err end in
  applyDeliveryEvidence (outcome <| oc_DeliveryState := md_DeliveryState (resp_Metadata response) |>
                                 <| Metadata := resp_Metadata response |>).

(** The result shares the permit of its admission, which the call mutates. *)
Definition with_permit (admission : AdmissionResult) (p : Permit) : AdmissionResult :=
  admission <| res_Permit := Some p |>.

(** The provider call and everything after it. *)
Definition dispatch (persistence : option Persistence)
    (classifier : option (Response → option error → Outcome)) (client : Client)
    (request : AttemptRequest) (aware : bool) (admission : AdmissionResult) (p : Permit)
    : X ExecutionResult :=
  called ← lift (cl_Complete client (ProviderRequest request));
  _ ← effect (Completed (ProviderRequest request));
  let '(response, callErr) := called in
  let outcome := classify classifier response callErr in
  done ← lift (if aware
               then FinishWithAttemptReceipts p outcome (md_AttemptReceipts (resp_Metadata response))
               else Finish p outcome);
  let '(completion, p) := done in
  let callErr := match callErr with
                 | None => if aware then fr_Err completion else None
                 | Some e => Some e
                 end in
  let result err := {| ex_Admission := with_permit admission p; ex_Response := Some response;
                       ex_Completion := Some completion; ex_Err := err |} in
  match persistence with
  | None => mret (result callErr)
  | Some store =>
    _ ← lift (others around);
    state ← lift PersistState;
    c ← lift (gets config);
    let record := finishedRecord c request outcome response completion state in
    err ← lift (RecordProviderFinished store record);
    _ ← effect (Finished record err);
    mret (result (match err with Some e => Some (ErrProviderOutcomePersist e) | None => callErr end))
  end.

(** From the admitted permit on: a context that is done by now cancels the
    permit; otherwise it starts, its intent is made durable, and the provider is
    called. *)
Definition proceed (persistence : option Persistence)
    (classifier : option (Response → option error → Outcome)) (ctx : Ctx) (client : Client)
    (request : AttemptRequest) (aware : bool) (admission : AdmissionResult) (p : Permit)
    : X ExecutionResult :=
  match ctx_Err ctx with
  | Some e =>
    cancelled ← lift (CancelBeforeStart p);
    let err := Some (AdmissionErrorCause (contextAdmissionCode ctx) e) in
    mret (refused ((with_permit admission cancelled.2)
      <| Code := contextAdmissionCode ctx |> <| Err := err |>) err)
  | None =>
    let request := request <| ProviderRequest :=
      (ProviderRequest request) <| req_ClientRequestID := ClientRequestID request |> |> in
    start ← lift (if aware then StartReceiptAware p else Start p);
    let '(startErr, p) := start in
    match startErr with
    | Some e => mret (refused (with_permit admission p) (Some e))
    | None =>
      _ ← lift (others around);
      match persistence with
      | None => dispatch persistence classifier client request aware admission p
      | Some store =>
        state ← lift PersistState;
        c ← lift (gets config);
        let record := preparedRecord c request p aware (TelemetryHealthy admission) state in
        err ← lift (RecordProviderPrepared store record);
        _ ← effect (Prepared record err);
        match err with
        | Some e =>
          cancelled ← lift (CancelAfterStart p);
          mret {| ex_Admission := with_permit admission cancelled.2; ex_Response := None;
                  ex_Completion := Some cancelled.1; ex_Err := Some (ErrIntentNotPersisted e) |}
        | None => dispatch persistence classifier client request aware admission p
        end
      end
    end
  end.

(** [now_ctx] is the context as it looks after admission. *)
Definition Execute (persistence : option Persistence) (fuel : nat) (ctx now_ctx : Ctx)
    (request : AttemptRequest) (client : option Client)
    (classifier : option (Response → option error → Outcome)) : X (option ExecutionResult) :=
  ready ← lift (preflight request client);
  match ready with
  | inl result => mret (Some result)
  | inr (client, request, aware) =>
    admission ← lift (Admit fuel ctx request);
    match admission with
    | None => mret None
    | Some admission =>
      match res_Permit admission with
      | Some p =>
        if Admitted_ admission then
          _ ← lift (others around);
          result ← proceed persistence classifier now_ctx client request aware admission p;
          mret (Some result)
        else mret (Some (refused admission (Err admission)))
      | None => mret (Some (refused admission (Err admission)))
      end
    end
  end.
End execute.
