(* ===== verification/ExecuteLaws.v ===== *)
(** * What a governed execution does outside the governor

    The order of its effects, the permit it leaves behind, and the durable
    intent it writes before the provider call. *)

From S2P Require Import Prelude GoTime Provider Receipts GovTypes Ledger GovState Circuit.
From S2P Require Import Admission Permits Persist Frames Admissible Grants PermitLaws Execute.

Local Open Scope Z_scope.
Local Open Scope runstead_scope.

(** ** The effect monad *)

(** [yields Q m]: whatever the state, the result of [m] and the effects it adds
    satisfy [Q]. *)
Definition yields {A} (Q : A → list Effect → Prop) (m : X A) : Prop :=
  ∀ s, ∃ new, (m s).2.2 = s.2 ++ new ∧ Q (m s).1 new.

Section rules.

Lemma yields_ret {A} (Q : A → list Effect → Prop) a : Q a [] → yields Q (mret a).
Proof. intros HQ s. exists []. by rw app_nil_r. Qed.

Lemma yields_lift {A B} (P : A → Prop) (m : M A) (k : A → X B) Q :
  returns P m → (∀ a, P a → yields Q (k a)) → yields Q (x ← lift m; k x).
Proof. intros Hm Hk s. rw bind_run. apply (Hk _ (Hm s.1) ((m s.1).2, s.2)). Qed.

Lemma yields_effect {B} e (k : X B) Q :
  yields (λ b new, Q b (e :: new)) k → yields Q (_ ← effect e; k).
Proof.
  intros Hk s. rw bind_run. destruct (Hk (s.1, s.2 ++ [e])) as (new & Hnew & HQ).
  exists (e :: new). split; [|done]. simpl in Hnew |- *. by rw Hnew -app_assoc.
Qed.

Lemma yields_mono {A} (P Q : A → list Effect → Prop) (m : X A) :
  yields P m → (∀ a new, P a new → Q a new) → yields Q m.
Proof. intros Hm HPQ s. destruct (Hm s) as (new & ? & ?). exists new. auto. Qed.

Lemma yields_fmap {A B} (f : A → B) (m : X A) Q :
  yields (λ a, Q (f a)) m → yields Q (x ← m; mret (f x)).
Proof. intros Hm s. rw bind_run. destruct (Hm s) as (new & Hn & HQ). by exists new. Qed.
End rules.

Section laws.
Context {MO : MapOrder} {EV : Env} {RD : Rendering}.
Context (around : Surroundings).

(** ** Permits that come out of admission *)

(** An admission result carries a permit only when it admits, and then a new
    one. *)
Definition fresh_permit (p : Permit) : Prop :=
  attached p = true ∧ started p = false ∧ completed p = false.

Definition admits_fresh (r : AdmissionResult) : Prop :=
  ∀ p, res_Permit r = Some p → Code r = AdmissionAdmitted ∧ fresh_permit p.

Lemma no_permit_admits r : no_permit r → admits_fresh r.
Proof. rw /no_permit /admits_fresh. intros -> p [=]. Qed.

Lemma returns_admit_grant request healthy : returns admits_fresh (admit_grant request healthy).
Proof. intros g. rw /admit_grant !bind_run. intros p [= <-]. done. Qed.

(** Walk to the results, using what each call returns. *)
Ltac admits_step :=
  lazymatch goal with
  | |- returns _ (mbind _ (delayedLocked _ _ _ _)) =>
    eapply returns_bind_post; [apply returns_delayed|intros ? ?]
  | |- returns _ (mbind _ (try_gate _ _ _)) =>
    eapply returns_bind_post; [apply returns_try_gate|intros ? ?]
  | |- returns _ (mbind _ (validateAdmissionContext _ _)) =>
    eapply returns_bind_post; [apply returns_validateContext|intros ? ?]
  | |- returns _ (mbind _ (admit_grant _ _)) =>
    eapply returns_bind_post; [apply returns_admit_grant|intros ? ?]
  | |- returns _ (admit_grant _ _) => apply returns_admit_grant
  | |- returns _ (delayedLocked _ _ _ _) =>
    intros g; apply no_permit_admits; apply returns_delayed
  | _ => return_step
  end.
Ltac admits_auto := repeat admits_step; try (by apply no_permit_admits; auto).

Lemma returns_tryAdmit_decide ctx request snapshot healthy :
  returns admits_fresh (tryAdmit_decide ctx request snapshot healthy).
Proof. rw /tryAdmit_decide. admits_auto. Qed.

Lemma returns_tryAdmit request : returns admits_fresh (tryAdmit around request).
Proof.
  rw /tryAdmit. eapply returns_bind_post; [apply returns_try_gate|]. intros gate Hg.
  destruct gate; [apply returns_ret, no_permit_admits; auto|].
  apply returns_bind. intros read. apply returns_tryAdmit_decide.
Qed.

Lemma returns_contextResult ctx : no_permit (contextResult ctx).
Proof. rw /contextResult. by case_match. Qed.

Lemma returns_queue_decide ctx request snapshot healthy now w :
  returns (λ s, ∀ r, s = QReturn r → admits_fresh r)
    (queue_decide ctx request snapshot healthy now w).
Proof.
  rw /queue_decide /queue_check. admits_auto;
    intros r [= <-]; try done; apply no_permit_admits; try apply returns_contextResult; done.
Qed.

Definition admits_opt (o : option AdmissionResult) : Prop := ∀ r, o = Some r → admits_fresh r.

Lemma returns_validate ctx request w :
  returns (λ o, ∀ r, o = Some r → no_permit r) (queue_validate ctx request w).
Proof.
  rw /queue_validate. eapply returns_bind_post; [apply returns_validateContext|].
  intros [r|] Hr; [|by apply returns_ret]. do 2 (apply returns_bind; intros _).
  apply returns_ret. intros r' [= <-]. by apply Hr.
Qed.

Lemma returns_turn ctx w :
  returns (λ s, ∀ r, s = QReturn r → no_permit r) (queue_turn ctx w).
Proof. rw /queue_turn. return_auto; intros r Hr; by simplify_eq. Qed.

Lemma returns_abandon ctx request healthy w : returns no_permit (queue_abandon ctx request healthy w).
Proof.
  rw /queue_abandon. do 2 (apply returns_bind; intros _). apply returns_ret, returns_contextResult.
Qed.

Lemma returns_wait fuel n request w healthy channel until :
  (∀ n, returns admits_opt (queue_loop around fuel n request w)) →
  returns admits_opt (changed ← waitForChange around n channel until;
    if changed : bool then queue_loop around fuel (S n) request w
    else result ← queue_abandon (look around (4 * n + 3)) request healthy w; mret (Some result)).
Proof.
  intros IH. apply returns_bind. intros []; [apply IH|].
  eapply returns_bind_post; [apply returns_abandon|]. intros r Hr. apply returns_ret.
  intros r' [= <-]. by apply no_permit_admits.
Qed.

Lemma returns_queue_loop fuel n request w :
  returns admits_opt (queue_loop around fuel n request w).
Proof.
  revert n. induction fuel as [|fuel IH]; intros n; cbn [queue_loop]; [by apply returns_ret|].
  eapply returns_bind_post; [apply returns_validate|]. intros [r|] Hv.
  { apply returns_ret. intros r' [= <-]. apply no_permit_admits. by apply Hv. }
  apply returns_bind. intros _. eapply returns_bind_post; [apply returns_turn|]. intros [r|channel until|] Ht.
  - apply returns_ret. intros r' [= <-]. apply no_permit_admits. by apply Ht.
  - by apply returns_wait.
  - do 2 (apply returns_bind; intros ?). eapply returns_bind_post; [apply returns_queue_decide|].
    intros [r|channel until|] Hd; [|by apply returns_wait|by apply returns_ret].
    apply returns_ret. intros r' [= <-]. by apply Hd.
Qed.

Lemma returns_Admit fuel ctx request : returns admits_opt (Admit around fuel ctx request).
Proof.
  rw /Admit /admit_. eapply returns_bind_post; [apply returns_validateContext|]. intros [r|] Hv.
  { apply returns_ret. intros r' [= <-]. apply no_permit_admits. by apply Hv. }
  apply returns_bind. intros pool. case_match.
  { apply returns_ret. by intros r [= <-] p [=]. }
  rw /queueAdmit. eapply returns_bind_post.
  - instantiate (1 := λ e, ∀ r, e = inl r → no_permit r). rw /queue_enter.
    return_auto; intros r Hr; by simplify_eq.
  - intros [r|w] He; [|apply returns_bind; intros _; apply returns_queue_loop].
    apply returns_ret. intros r' [= <-]. apply no_permit_admits. by apply He.
Qed.

(** ** Permits after each method *)

Lemma returns_start aware p :
  fresh_permit p →
  returns (λ r, match r.1 with
    | None => running r.2 = true ∧ receiptAware r.2 = aware ∧ request r.2 = request p
    | Some _ => r.2 = p end) (Permit_start aware p).
Proof.
  intros (Ha & Hs & Hc). rw /Permit_start Ha Hc Hs. cbn [negb orb].
  apply returns_bind. intros []; [|by apply returns_ret]. cbn [negb].
  do 3 (apply returns_bind; intros ?). do 4 (apply returns_bind; intros ?).
  destruct aware; [by apply returns_ret; simpl; rw /running /= Ha Hc|].
  do 7 (apply returns_bind; intros ?). by apply returns_ret; simpl; rw /running /= Ha Hc.
Qed.

Lemma returns_cancel_before p :
  fresh_permit p → returns (λ r, r.2 = complete p) (CancelBeforeStart p).
Proof.
  intros (Ha & Hs & Hc). rw /CancelBeforeStart Ha Hc Hs. cbn [negb orb].
  do 4 (apply returns_bind; intros _). by apply returns_ret.
Qed.

Lemma returns_cancel_after p :
  running p = true → returns (λ r, r.2 = complete p) (CancelAfterStart p).
Proof.
  rw /running. intros [[Ha Hc%negb_true_iff]%andb_true_iff Hs]%andb_true_iff.
  rw /CancelAfterStart Ha Hc Hs. cbn [negb orb]. return_auto.
Qed.

Lemma returns_finish p outcome :
  running p = true → receiptAware p = false → returns (λ r, r.2 = complete p) (Finish p outcome).
Proof.
  rw /running. intros [[Ha Hc%negb_true_iff]%andb_true_iff Hs]%andb_true_iff Hr.
  rw /Finish Ha Hc Hs Hr. cbn [negb orb]. return_auto.
Qed.

Lemma returns_receipts p outcome set :
  running p = true → receiptAware p = true →
  returns (λ r, r.2 = complete p) (FinishWithAttemptReceipts p outcome set).
Proof.
  rw /running. intros [[Ha Hc%negb_true_iff]%andb_true_iff Hs]%andb_true_iff Hr.
  rw /FinishWithAttemptReceipts Ha Hc Hs Hr. cbn [negb orb].
  do 2 (apply returns_bind; intros ?). case_match; [case_match|]; try apply returns_receiptFailure.
  do 3 (apply returns_bind; intros ?). case_match; [apply returns_receiptFailure|apply returns_reconcile].
Qed.

(** ** The effects of a governed execution *)

(** The order of the effects: without a store at most the provider call; with
    one, the durable intent first, the call only after it was committed, and the
    outcome of the same request last. *)
Inductive governed (store : bool) : list Effect → Prop :=
  | Governed_none : governed store []
  | Governed_refused record e : store = true → governed store [Prepared record (Some e)]
  | Governed_bare req : store = false → governed store [Completed req]
  | Governed_full record req record' err :
      store = true →
      pp_ClientRequestID record = req_ClientRequestID req →
      pf_ClientRequestID record' = req_ClientRequestID req →
      pf_TaskID record' = pp_TaskID record →
      governed store [Prepared record None; Completed req; Finished record' err].

(** The permit of the result is used up, or was never started. *)
Definition settled (r : ExecutionResult) (new : list Effect) : Prop :=
  ∀ p, res_Permit (ex_Admission r) = Some p →
  completed p = true ∨ (started p = false ∧ new = [] ∧ ex_Err r ≠ None).

(** The provider was called exactly when the result has a response. *)
Definition answered (r : ExecutionResult) (new : list Effect) : Prop :=
  (∃ req, Completed req ∈ new) ↔ ex_Response r ≠ None.

Definition has_store (persistence : option Persistence) : bool :=
  match persistence with Some _ => true | None => false end.

(** What the provider call adds: itself and, with a store, the durable outcome
    of the same request. *)
Definition dispatched (persistence : option Persistence) (request : AttemptRequest)
    (new : list Effect) : Prop :=
  match persistence with
  | None => new = [Completed (ProviderRequest request)]
  | Some _ => ∃ record err, new = [Completed (ProviderRequest request); Finished record err]
      ∧ pf_ClientRequestID record = ClientRequestID request ∧ pf_TaskID record = TaskID request
  end.

Lemma yields_dispatch persistence classifier client request aware admission p :
  running p = true → receiptAware p = aware →
  yields (λ r new, res_Permit (ex_Admission r) = Some (complete p) ∧ ex_Response r ≠ None
      ∧ dispatched persistence request new)
    (dispatch around persistence classifier client request aware admission p).
Proof.
  intros Hrun Haware. rw /dispatch. apply (yields_lift (λ _, True)); [apply returns_True|].
  intros [response callErr] _. apply yields_effect.
  apply (yields_lift (λ r, r.2 = complete p)).
  { rw -Haware. destruct (receiptAware p) eqn:E; [by apply returns_receipts|].
    by apply returns_finish. }
  intros [completion q] Hq. simpl in Hq. subst q. destruct persistence as [store|].
  - do 4 (apply (yields_lift (λ _, True)); [apply returns_True|intros ? _]).
    apply yields_effect, yields_ret. simpl. split_and!; [done|done|]. by do 2 eexists.
  - by apply yields_ret.
Qed.

Lemma yields_proceed persistence classifier ctx client request aware admission p :
  fresh_permit p →
  yields (λ r new, governed (has_store persistence) new ∧ settled r new ∧ answered r new)
    (proceed around persistence classifier ctx client request aware admission p).
Proof.
  intros Hfresh. rw /proceed. destruct (ctx_Err ctx) as [e|].
  { apply (yields_lift (λ r, r.2 = complete p)); [by apply returns_cancel_before|].
    intros r Hr. apply yields_ret. rw Hr. split_and!; [constructor| |].
    - intros q [= <-]. by left.
    - split; [intros [req ?%elem_of_nil]|]; done. }
  set (req := request <| ProviderRequest := _ |>).
  apply (yields_lift (λ r : option error * Permit, match r.1 with
    | None => running r.2 = true ∧ receiptAware r.2 = aware ∧ GovTypes.request r.2 = GovTypes.request p
    | Some _ => r.2 = p end)); [destruct aware; by apply returns_start|].
  intros [[e|] q] Hq; cbn [fst snd] in Hq.
  { subst q. apply yields_ret. split_and!; [constructor| |].
    - intros q [= <-]. right. destruct Hfresh as (_ & ? & _). done.
    - split; [intros [? ?%elem_of_nil]|]; done. }
  destruct Hq as (Hrun & Haware & _).
  apply (yields_lift (λ _, True)); [apply returns_True|intros _ _].
  destruct persistence as [store|].
  - do 3 (apply (yields_lift (λ _, True)); [apply returns_True|intros ? _]).
    apply yields_effect. case_match.
    + apply (yields_lift (λ r, r.2 = complete q)); [by apply returns_cancel_after|].
      intros r Hr. apply yields_ret. rw Hr. split_and!; [by constructor| |].
      * intros ? [= <-]. by left.
      * split; [|done]. intros [x Hx]. apply list_elem_of_singleton in Hx. done.
    + eapply yields_mono; [by apply yields_dispatch|].
      intros r new (Hp & Hresp & record & err & -> & Hid & Htask). split_and!.
      * by apply Governed_full.
      * intros ? Hp'. rw Hp in Hp'. injection Hp' as <-. by left.
      * split; [done|]. intros _. eexists. by do 2 constructor.
  - eapply yields_mono; [by apply yields_dispatch|]. intros r new (Hp & Hresp & ->). split_and!.
    + by apply Governed_bare.
    + intros ? Hp'. rw Hp in Hp'. injection Hp' as <-. by left.
    + split; [done|]. intros _. eexists. constructor.
Qed.

Lemma returns_preflight request client :
  returns (λ r, match r with
    | inl res => res_Permit (ex_Admission res) = None ∧ ex_Response res = None
    | inr _ => True end) (preflight request client).
Proof.
  rw /preflight. destruct client as [client|]; [|by apply returns_ret].
  apply returns_bind. intros c. case_match; [by apply returns_ret|].
  eapply returns_bind_post.
  - instantiate (1 := λ o, ∀ r, o = Some r → res_Permit r = None).
    destruct (cl_GatewayContractHealth client) as [health|]; [|by apply returns_ret].
    case_match; [|by apply returns_ret].
    eapply (returns_bind_post (λ a, res_Permit a = None)).
    + rw /gatewayContractHealthAdmission. apply returns_bind. intros _. by apply returns_ret.
    + intros a Ha. apply returns_ret. by intros r [= <-].
  - intros [r|] Hr; [by apply returns_ret; split; [apply Hr|]|].
    case_match; [by apply returns_ret|]. apply returns_ret. by destruct (resolve_model c request).
Qed.

Lemma yields_Execute persistence fuel ctx now_ctx request client classifier :
  yields (λ o new, governed (has_store persistence) new ∧
      ∀ r, o = Some r → settled r new ∧ answered r new)
    (Execute around persistence fuel ctx now_ctx request client classifier).
Proof.
  assert (∀ r, res_Permit (ex_Admission r) = None → ex_Response r = None →
    settled r [] ∧ answered r []) as Hnone.
  { intros r Hp Hr. split; [intros p; by rw Hp|]. rw /answered Hr.
    split; [intros [? H%elem_of_nil]; done|done]. }
  rw /Execute. eapply yields_lift; [apply returns_preflight|]. intros [res|[[cl req] aware]] Hpre.
  { destruct Hpre. apply yields_ret. split; [constructor|]. intros r [= <-]. by apply Hnone. }
  eapply yields_lift; [apply returns_Admit|]. intros [admission|] Hadm.
  2:{ apply yields_ret. by split; [constructor|]. }
  destruct (res_Permit admission) as [p|] eqn:Hp.
  2:{ apply yields_ret. split; [constructor|]. intros r [= <-]. by apply Hnone. }
  destruct (Hadm _ eq_refl _ Hp) as [Hcode Hfresh].
  rw /Admitted_ Hp Hcode. simpl.
  apply (yields_lift (λ _, True)); [apply returns_True|intros _ _].
  apply (yields_fmap Some). eapply yields_mono; [by apply yields_proceed|].
  intros r new (Hg & Hs & Ha). split; [done|]. by intros r' [= <-].
Qed.

(** Order of effects.  Whatever the client, the store, the telemetry source
    and the other goroutines do, a governed execution calls the provider at most
    once; with a store the call comes after the durable intent of the same
    request was committed and before its durable outcome, and a refused intent
    means no call.  A permit that was handed out is used up at the end, or its
    start was refused and nothing was done; the result has a response exactly
    when the provider was called. *)
Theorem Execute_effects persistence fuel ctx now_ctx request client classifier s :
  let r := Execute around persistence fuel ctx now_ctx request client classifier s in
  ∃ new, r.2.2 = s.2 ++ new ∧ governed (has_store persistence) new
    ∧ ∀ res, r.1 = Some res → settled res new ∧ answered res new.
Proof. apply yields_Execute. Qed.

(** Unsafe routes.  A client that does not declare a route, or declares one
    that is not safe or not the one of the account policy, is refused before
    admission: neither the governor nor the outside world changes. *)
Theorem Execute_unsafe_route persistence fuel ctx now_ctx request client classifier s :
  route_accepted (config s.1) (cl_RouteSafety client) = true ∨
  Execute around persistence fuel ctx now_ctx request (Some client) classifier s
  = (Some (refused unsafe_refusal None), s).
Proof.
  destruct (route_accepted _ _) eqn:E; [by left|right].
  rw /Execute bind_run /lift /preflight /= bind_run /= E /=. by destruct s.
Qed.
End laws.

Section intent.
Context {MO : MapOrder} {EV : Env} {MC : MonotoneClock} {RD : Rendering}.
Context (around : Surroundings) (Hquiet : ∀ g, quiet g (others around g).2).

(** What a committed intent says: the attempt that is about to be made is
    already the last start, is already counted, and is on the persisted ledger
    unless it is older than the longest window. *)
Definition charged_intent (p : Permit) (record : ProviderPrepared) (now : Time) : Prop :=
  let state := pp_State record in
  ps_LastStart state = pp_StartedAt record
  ∧ ps_NextAttempt state = pp_AttemptSequence record + 1
  ∧ ({| at_ := pp_StartedAt record; le_taskID := TaskID (request p) |} ∈ ps_RollingEvents state
     ∨ pp_StartedAt record ≤ now - 3 * Hour).

Lemma persisted_charge now p g g' :
  quiet (charge now (request p) g) g' → ledger_wf (ledger g) →
  {| at_ := now; le_taskID := TaskID (request p) |} ∈ ps_RollingEvents (persistedStateLocked g')
  ∨ now ≤ clock (readings g') - 3 * Hour.
Proof.
  intros [[_ _ _ _ _ (old & Hl & Hold) _ _] _ _ _] Hwf.
  assert (ledger (charge now (request p) g) = ledger_add now (TaskID (request p)) (ledger g)) as Hc.
  { rw /charge. by destruct (Retry (request p)). }
  rw Hc live_add // in Hl.
  assert ({| at_ := now; le_taskID := TaskID (request p) |} ∈ old ++ live (ledger g')) as Hin.
  { rw -Hl. apply elem_of_app. right. by apply list_elem_of_singleton. }
  apply elem_of_app in Hin as [Hin|Hin]; [right|by left]. by apply Hold in Hin.
Qed.

Lemma start_persisted p g :
  start_ready p g = true → ledger_wf (ledger g) →
  let started := Permit_start false p g in
  let q := started.1.2 in
  let persisted := PersistState (others around started.2).2 in
  started.1.1 = None ∧ startedAt q = clock (readings g) ∧
  ps_LastStart persisted.1 = startedAt q
  ∧ ps_NextAttempt persisted.1 = attemptSequence q + 1
  ∧ ({| at_ := startedAt q; le_taskID := TaskID (request p) |} ∈ ps_RollingEvents persisted.1
     ∨ startedAt q ≤ clock (readings persisted.2) - 3 * Hour).
Proof.
  intros Hready Hwf started q persisted.
  destruct (start_accepted false p g Hready) as (Hres & g1 & g2 & H1 & H2 & _ & H3).
  fold started in Hres, H3.
  assert (q = started_permit false (clock (readings g)) (nextAttempt g) p) as Hq by by rw /q Hres.
  assert (quiet (charge (clock (readings g)) (request p) g2) persisted.2) as Hall.
  { etrans; [exact H3|]. etrans; [apply Hquiet|].
    apply (quietly_run (clock (readings (others around started.2).2))); [|done].
    rw /PersistState. quiet_auto. }
  assert (persisted.1 = persistedStateLocked persisted.2) as Hp.
  { rw /persisted /PersistState !bind_run. done. }
  split; [by rw Hres|]. rw Hp Hq. cbn [startedAt attemptSequence started_permit upd].
  split; [done|].
  assert (lastStart persisted.2 = clock (readings g)) as Hl.
  { rw (mild_start _ _ (quiet_mild _ _ Hall)).
    assert (∀ h, lastStart (charge (clock (readings g)) (request p) h) = lastStart h) as ->.
    { intros h. rw /charge. by destruct (Retry (request p)). }
    by rw (mild_start _ _ (quiet_mild _ _ H2)) move_lastStart. }
  assert (nextAttempt persisted.2 = nextAttempt g + 1) as Hn.
  { rw (mild_next _ _ (quiet_mild _ _ Hall)).
    assert (∀ h, nextAttempt (charge (clock (readings g)) (request p) h) = nextAttempt h) as ->.
    { intros h. rw /charge. by destruct (Retry (request p)). }
    rw (mild_next _ _ (quiet_mild _ _ H2)) move_next (mild_next _ _ (quiet_mild _ _ H1)). lia. }
  split_and!; [exact Hl|exact Hn|]. apply (persisted_charge _ p g2); [exact Hall|].
  apply (mild_wf _ _ (quiet_mild _ _ H2)). rw /move. cbn.
  by destruct (String.eqb _ _); apply (mild_wf _ _ (quiet_mild _ _ H1)).
Qed.

(** C14: durable intent.  When the store commits the intent of an attempt that is made
    without receipts, the protection state committed with it already counts that
    attempt: it is the last start, it has taken its sequence number, and it is on the
    rolling ledger unless, at the instant when the state was taken for the
    transaction, three hours had passed since its start.  A crash during the provider
    call therefore leaves the attempt charged. *)
Theorem intent_is_charged store classifier ctx client req admission p g es :
  ctx_Err ctx = None → start_ready p g = true → ledger_wf (ledger g) →
  let taken := PersistState (others around (Permit_start false p g).2).2 in
  ∃ record err rest,
    (proceed around (Some store) classifier ctx client req false admission p (g, es)).2.2
      = es ++ Prepared record err :: rest
    ∧ pp_State record = taken.1 ∧ charged_intent p record (clock (readings taken.2)) ∧ pp_StartedAt record = clock (readings g).
Proof.
  intros Hctx Hready Hwf taken. rw /proceed Hctx.
  destruct (start_persisted p g Hready Hwf) as (Hok & Hat & Hlast & Hnext & Hledger).
  rw bind_run /lift. cbn [fst snd].
  rw /Start. rw /taken. destruct (Permit_start false p g) as [[startErr q] g1] eqn:E.
  cbn [fst snd] in Hok, Hat, Hlast, Hnext, Hledger |- *. rw Hok.
  do 4 (rw bind_run; cbn [fst snd gets]). set (g2 := (others around g1).2) in *.
  set (record := preparedRecord _ _ q _ _ _).
  rw bind_run /effect. cbn [fst snd]. set (err := (RecordProviderPrepared store record _).1).
  assert (fresh_permit p) as Hfresh.
  { move: Hready. rw /start_ready /fresh_permit.
    intros [[[Ha Hc%negb_true_iff]%andb_true_iff Hs%negb_true_iff]%andb_true_iff _]%andb_true_iff.
    done. }
  pose proof (returns_start false p Hfresh g) as Hq. rw E Hok in Hq.
  destruct Hq as (Hrun & Haware & Hreq). cbn [fst snd] in Hrun, Haware, Hreq.
  match goal with |- context [(?k (?h, es ++ [Prepared record err])).2.2] =>
    enough (yields (λ _ _, True) k) as Hy;
    [destruct (Hy (h, es ++ [Prepared record err])) as (rest & Hrest & _)|] end.
  - exists record, err, rest.
    split; [rw Hrest; cbn [snd]; by rw -app_assoc|]. split; [done|]. split; [|done].
    rw /charged_intent. cbn [pp_State record preparedRecord pp_StartedAt pp_AttemptSequence]. done.
  - destruct err.
    + apply (yields_lift (λ _, True) (CancelAfterStart q)); [apply returns_True|].
      intros r _. by apply yields_ret.
    + eapply yields_mono; [by apply yields_dispatch|done].
Qed.
End intent.
