(* ===== verification/System.v ===== *)
(** * The governor and its clients as one transition system

    Every critical section of the governor is one step, so an interleaving of
    goroutines is a sequence of steps.  The world holds the governor, the
    permits and refresh permits it handed out, and one call of [queueAdmit] per
    queued waiter, with the point of the loop it has reached.  [lane_step] is
    the abstract specification: what a step may do to the lane and to the
    accounting.  [step_refines] shows that every step of the code is one of its
    moves; the safety theorems are proved on the moves. *)

From S2P Require Import Prelude GoTime Provider Receipts GovTypes Ledger GovState Circuit.
From S2P Require Import Admission Permits Persist Frames Admissible Grants PermitLaws.

Local Open Scope Z_scope.
Local Open Scope runstead_scope.

(** ** The world *)

(** Where a goroutine inside [queueAdmit] is: at the top of its loop, about to
    take its turn, reading telemetry, about to decide with what it read, waiting
    on a channel and possibly an instant, or returned. *)
Inductive phase :=
  | PTop
  | PTurn
  | PRead
  | PDecide (snapshot : option TelemetrySnapshot) (healthy : bool) (now : Time)
  | PWait (healthy : bool) (channel : nat) (until : Time)
  | PReturned (result : AdmissionResult).

Record call := { c_request : AttemptRequest; c_phase : phase }.

(** [starts] is a ghost: the instants at which attempts were charged. *)
Record World := {
  gov : Governor;
  permits : list Permit;
  refreshes : list RefreshPermit;
  calls : gmap nat call;
  starts : list Time
}.

#[export] Instance eta_World : Settable World := λ w,
  Build_World (gov w) (permits w) (refreshes w) (calls w) (starts w).

Inductive label :=
  | LTryEnter (request : AttemptRequest)
  | LTryDecide (ctx : Ctx) (request : AttemptRequest) (snapshot : option TelemetrySnapshot)
      (healthy : bool)
  | LQueueEnter (request : AttemptRequest)
  | LValidate (w : nat) (ctx : Ctx)
  | LTurn (w : nat) (ctx : Ctx)
  | LRead (w : nat) (snapshot : option TelemetrySnapshot) (healthy : bool)
  | LDecide (w : nat) (ctx : Ctx)
  | LWake (w : nat)
  | LTick
  | LAbandon (w : nat) (ctx : Ctx)
  | LStart (h : nat)
  | LCancelBefore (h : nat)
  | LCancelAfter (h : nat)
  | LFinish (h : nat) (outcome : Outcome)
  | LFinishReceipts (h : nat) (outcome : Outcome) (set : option AttemptReceiptSet)
  | LRefreshBegin
  | LRefreshFinish (r : nat) (success : bool)
  | LAcknowledge
  | LClose
  | LPersist
  | LSnapshot
  | LDrainBegin
  | LDrainTake.

Section system.
Context {MO : MapOrder} {EV : Env} {RD : Rendering}.

Definition keep_permit (o : option Permit) (ps : list Permit) : list Permit :=
  match o with Some p => ps ++ [p] | None => ps end.

(** Run a method that may grant, and keep the permit it returns. *)
Definition run_grant {A} (permit_of : A → option Permit) (m : M A) (w : World) : A * World :=
  let r := m (gov w) in
  (r.1, w <| gov := r.2 |> <| permits ::= keep_permit (permit_of r.1) |>).

Definition run_plain {A} (m : M A) (w : World) : A * World :=
  let r := m (gov w) in (r.1, w <| gov := r.2 |>).

(** Run a method of the permit [h]; a start charges the ghost. *)
Definition run_permit {A} (m : Permit → M (A * Permit)) (h : nat) (w : World) : option World :=
  p ← permits w !! h;
  let r := m p (gov w) in
  Some (w <| gov := r.2 |> <| permits ::= <[h := r.1.2]> |>).

Definition set_phase (i : nat) (ph : phase) (w : World) : World :=
  w <| calls ::= alter (λ c, {| c_request := c_request c; c_phase := ph |}) i |>.

Definition charged (before : World) (w : World) : World :=
  if (nextAttempt (gov before) <? nextAttempt (gov w))
     && negb (RequireAttemptReceipts (config (gov w)))
  then w <| starts ::= (λ ts, ts ++ [lastStart (gov w)]) |> else w.

Definition after_step (i : nat) (healthy : bool) (s : QueueStep) (w : World) : World :=
  set_phase i (match s with
    | QReturn r => PReturned r
    | QWait channel until => PWait healthy channel until
    | QReadTelemetry => PRead
    end) w.

Definition run (l : label) (w : World) : option World :=
  match l with
  | LTryEnter request => Some (run_plain (tryAdmit_enter request) w).2
  | LTryDecide ctx request snapshot healthy =>
    Some (run_grant res_Permit (tryAdmit_decide ctx request snapshot healthy) w).2
  | LQueueEnter request =>
    let '(r, w) := run_plain (queue_enter request) w in
    Some (match r with
      | inl _ => w
      | inr i => w <| calls ::= <[i := {| c_request := request; c_phase := PTop |}]> |>
      end)
  | LValidate i ctx =>
    c ← calls w !! i;
    match c_phase c with
    | PTop =>
      let '(r, w) := run_plain (queue_validate ctx (c_request c) i) w in
      Some (set_phase i (match r with Some r => PReturned r | None => PTurn end) w)
    | _ => None
    end
  | LTurn i ctx =>
    c ← calls w !! i;
    match c_phase c with
    | PTurn => let '(s, w) := run_plain (queue_turn ctx i) w in Some (after_step i true s w)
    | _ => None
    end
  | LRead i snapshot healthy =>
    c ← calls w !! i;
    match c_phase c with
    | PRead => let '(now, w) := run_plain Now w in
               Some (set_phase i (PDecide snapshot healthy now) w)
    | _ => None
    end
  | LDecide i ctx =>
    c ← calls w !! i;
    match c_phase c with
    | PDecide snapshot healthy now =>
      let '(s, w) := run_grant step_permit
        (queue_decide ctx (c_request c) snapshot healthy now i) w in
      Some (after_step i healthy s w)
    | _ => None
    end
  | LWake i =>
    c ← calls w !! i;
    match c_phase c with
    | PWait _ channel until =>
      if wait_over (gov w) i channel until (clock (readings (gov w)))
      then Some (set_phase i PTop w) else None
    | _ => None
    end
  | LTick => Some (run_plain Now w).2
  | LAbandon i ctx =>
    c ← calls w !! i;
    match c_phase c with
    | PWait healthy _ _ =>
      let '(r, w) := run_plain (queue_abandon ctx (c_request c) healthy i) w in
      Some (set_phase i (PReturned r) w)
    | _ => None
    end
  | LStart h =>
    w' ← run_permit (Permit_start (RequireAttemptReceipts (config (gov w)))) h w;
    Some (charged w w')
  | LCancelBefore h => run_permit CancelBeforeStart h w
  | LCancelAfter h => run_permit CancelAfterStart h w
  | LFinish h outcome => run_permit (λ p, Finish p outcome) h w
  | LFinishReceipts h outcome set => run_permit (λ p, FinishWithAttemptReceipts p outcome set) h w
  | LRefreshBegin =>
    let '(r, w) := run_plain BeginCredentialRefresh w in
    Some (match ra_Permit r with
      | Some p => w <| refreshes ::= (λ ps, ps ++ [p]) |> | None => w end)
  | LRefreshFinish r success =>
    p ← refreshes w !! r;
    let '(res, w) := run_plain (RefreshPermit_Finish p success) w in
    Some (w <| refreshes ::= <[r := res.2]> |>)
  | LAcknowledge => Some (run_plain AcknowledgeHuman w).2
  | LClose => Some (w <| gov ::= Close |>)
  | LPersist => Some (run_plain PersistState w).2
  | LSnapshot => Some (run_plain Snapshot w).2
  | LDrainBegin => Some (run_plain drain_begin w).2
  | LDrainTake => Some (run_plain drain_take w).2
  end.

Definition step (w w' : World) : Prop := ∃ l, run l w = Some w'.

(** The world a new governor starts in, after the attempts [ts] of the past. *)
Definition initial (g : Governor) (ts : list Time) : World :=
  {| gov := g; permits := []; refreshes := []; calls := ∅; starts := ts |}.

Fixpoint run_all (ls : list label) (w : World) : option World :=
  match ls with [] => Some w | l :: ls' => w' ← run l w; run_all ls' w' end.

Lemma run_all_steps ls w w' : run_all ls w = Some w' → rtc step w w'.
Proof.
  revert w. induction ls as [|l ls IH]; intros w; simpl; [by intros [= ->]|].
  intros (w1 & H1 & H2)%bind_Some. eapply rtc_l; [by exists l|eauto].
Qed.
End system.

(** ** The abstract specification *)

Section spec.
Context {MO : MapOrder} {EV : Env} {MC : MonotoneClock} {RD : Rendering}.

(** What a step may do to the lane and to the accounting: nothing, grant the
    lane, start the attempt of a permit, or end a permit. *)
Inductive lane_step (w w' : World) : Prop :=
  | Move_none :
      mild (gov w) (gov w') → permits w' = permits w → starts w' = starts w → lane_step w w'
  | Move_grant request p :
      granted request p (gov w) (gov w') →
      permits w' = permits w ++ [p] → starts w' = starts w → lane_step w w'
  | Move_start aware h p g1 g2 :
      aware = RequireAttemptReceipts (config (gov w)) →
      permits w !! h = Some p → start_ready p (gov w) = true →
      let now := clock (readings (gov w)) in
      quiet (gov w) g1 → quiet (move aware now (TaskID (request p)) g1) g2 →
      (if aware then gov w' = g2
       else (∃ s, tasks g2 !! TaskID (request p) = Some s)
            ∧ quiet (charge now (request p) g2) (gov w')) →
      permits w' = <[h := started_permit aware now (nextAttempt (gov w)) p]> (permits w) →
      starts w' = (if aware then starts w else starts w ++ [now]) → lane_step w w'
  | Move_end (exact : bool) h p g1 :
      permits w !! h = Some p → attached p = true → completed p = false →
      (exact = false → receiptAware p = true) →
      (if exact then mild else calm) (gov w) g1 →
      (if exact then mild else calm) (vacate g1) (gov w') →
      permits w' = <[h := complete p]> (permits w) → starts w' = starts w → lane_step w w'.

(** A goroutine about to decide holds an instant that has passed. *)
Definition phases_ok (w : World) : Prop :=
  ∀ i c snapshot healthy now, calls w !! i = Some c → c_phase c = PDecide snapshot healthy now →
  zeroTime < now ≤ clock (readings (gov w)).

Lemma mildly_run {A} (m : M A) g : mildly (clock (readings g)) m → mild g (m g).2.
Proof. intros Hm. apply Hm. done. Qed.

(** *** The steps that leave the lane alone *)

Lemma quietly_persist t : quietly t PersistState.
Proof. rw /PersistState. quiet_auto. Qed.

Lemma quietly_snapshot t : quietly t Snapshot.
Proof. rw /Snapshot. quiet_auto. Qed.

Lemma quiet_begin_refresh g : quiet g (BeginCredentialRefresh g).2.
Proof. rw /BeginCredentialRefresh. repeat case_match; by apply quiet_same. Qed.

Lemma quiet_finish_refresh p success g : quiet g (RefreshPermit_Finish p success g).2.
Proof.
  rw /RefreshPermit_Finish. repeat case_match; simpl; [done| |].
  all: etrans; [|apply quiet_transition]; by apply quiet_same.
Qed.

Lemma quiet_acknowledge g : quiet g (AcknowledgeHuman g).2.
Proof.
  rw /AcknowledgeHuman. case_match; simpl; [done|].
  etrans; [|apply quiet_transition]; by apply quiet_same.
Qed.

Lemma quiet_drain_begin g : quiet g (drain_begin g).2.
Proof. rw /drain_begin. case_match; by apply quiet_same. Qed.

Lemma quiet_drain_take g : quiet g (drain_take g).2.
Proof. rw /drain_take. case_match; by apply quiet_same. Qed.

(** *** Permits *)

Lemma run_permit_inv {A} (m : Permit → M (A * Permit)) h w w' :
  run_permit m h w = Some w' →
  ∃ p, permits w !! h = Some p
    ∧ w' = w <| gov := (m p (gov w)).2 |> <| permits ::= <[h := (m p (gov w)).1.2]> |>.
Proof. rw /run_permit. intros (p & Hp & [= <-])%bind_Some. by exists p. Qed.

(** A method that did nothing is no move. *)
Lemma move_refused h p w :
  permits w !! h = Some p →
  lane_step w (w <| gov := gov w |> <| permits ::= <[h := p]> |>).
Proof. intros Hp. apply Move_none; simpl; [done| |done]. by rw list_insert_id. Qed.

Lemma move_start h w w' :
  run (LStart h) w = Some w' → lane_step w w'.
Proof.
  simpl. intros (w1 & (p & Hp & ->)%run_permit_inv & [= <-])%bind_Some.
  set (aware := RequireAttemptReceipts (config (gov w))).
  destruct (start_ready p (gov w)) eqn:Hr.
  - destruct (start_accepted aware p (gov w) Hr) as (Hret & g1 & g2 & H1 & H2 & H3).
    rw Hret /=.
    assert (nextAttempt (Permit_start aware p (gov w)).2 = Z.succ (nextAttempt (gov w))
      ∧ config (Permit_start aware p (gov w)).2 = config (gov w)
      ∧ (aware = false → lastStart (Permit_start aware p (gov w)).2 = clock (readings (gov w))))
      as (Hn & Hc & Hl).
    { pose proof (start_effects aware p _ _ _ _ H1 H2 H3) as He. split_and!.
      - apply He.
      - by apply calm_config, He.
      - intros Ha. rw (se_start _ _ _ _ _ _ He). by rw Ha. }
    rw /charged /= Hn Hc. fold aware.
    rw (proj2 (Z.ltb_lt (nextAttempt (gov w)) (Z.succ (nextAttempt (gov w))))); first lia.
    eapply (Move_start _ _ aware h p g1 g2); [done|done|done|done|done| |..].
    all: by destruct aware; simpl; rw ?Hl.
  - destruct (start_refused aware p (gov w) Hr) as (Hs & -> & _). rw Hs.
    rw /charged /= Z.ltb_irrefl. by apply move_refused.
Qed.

Lemma move_end_mild h p (g1 : Governor) w w' :
  permits w !! h = Some p → attached p = true → completed p = false →
  mild (gov w) g1 → mild (vacate g1) (gov w') →
  permits w' = <[h := complete p]> (permits w) → starts w' = starts w → lane_step w w'.
Proof. intros. by eapply (Move_end _ _ true h p g1). Qed.

Lemma move_cancel_before h w w' : run (LCancelBefore h) w = Some w' → lane_step w w'.
Proof.
  simpl. intros (p & Hp & ->)%run_permit_inv. pose proof (cancel_before_spec p (gov w)) as Hs.
  destruct (pending p) eqn:E.
  - destruct Hs as (Hr & (g1 & H1 & H2)%ended_mild). rw /pending in E. time_spec.
    eapply (move_end_mild h p g1); simpl; rw ?Hr //.
  - destruct Hs as [e ->]. by apply move_refused.
Qed.

Lemma move_cancel_after h w w' : run (LCancelAfter h) w = Some w' → lane_step w w'.
Proof.
  simpl. intros (p & Hp & ->)%run_permit_inv. pose proof (cancel_after_spec p (gov w)) as Hs.
  destruct (running p) eqn:E.
  - destruct Hs as (Hr & _ & (g1 & H1 & H2)%ended_mild). rw /running in E. time_spec.
    eapply (move_end_mild h p g1); simpl; rw ?Hr //.
  - destruct Hs as [e ->]. by apply move_refused.
Qed.

Lemma move_finish h outcome w w' : run (LFinish h outcome) w = Some w' → lane_step w w'.
Proof.
  simpl. intros (p & Hp & ->)%run_permit_inv. pose proof (finish_spec p outcome (gov w)) as Hs.
  destruct (running p && negb (receiptAware p)) eqn:E.
  - destruct Hs as (Hr & (g1 & H1 & H2)%ended_mild). rw /running in E. time_spec.
    eapply (move_end_mild h p g1); simpl; rw ?Hr //.
  - destruct Hs as [e ->]. by apply move_refused.
Qed.

Lemma move_receipts h outcome set w w' :
  run (LFinishReceipts h outcome set) w = Some w' → lane_step w w'.
Proof.
  simpl. intros (p & Hp & ->)%run_permit_inv.
  pose proof (receipts_spec p outcome set (gov w)) as Hs.
  destruct (running p && receiptAware p) eqn:E.
  - destruct Hs as (Hr & (g1 & H1 & H2)%ended_calm). rw /running in E. time_spec.
    eapply (Move_end _ _ false h p g1); simpl; rw ?Hr //.
  - destruct Hs as [e ->]. by apply move_refused.
Qed.

Lemma move_grant {A} (permit_of : A → option Permit) request (m : M A) w w' :
  grants permit_of request (clock (readings (gov w))) m →
  gov w' = (m (gov w)).2 → permits w' = keep_permit (permit_of (m (gov w)).1) (permits w) →
  starts w' = starts w → lane_step w w'.
Proof.
  intros Hm Hg Hp Hs. specialize (Hm (gov w) ltac:(done)).
  destruct (permit_of (m (gov w)).1) as [p|]; simpl in Hp.
  - eapply (Move_grant _ _ request p); [by rw Hg|done|done].
  - eapply Move_none; [by rw Hg|done|done].
Qed.

Lemma move_plain w w' :
  mild (gov w) (gov w') → permits w' = permits w → starts w' = starts w → lane_step w w'.
Proof. apply Move_none. Qed.

(** Every step of the code is a move. *)
Lemma step_moves w w' : phases_ok w → step w w' → lane_step w w'.
Proof.
  intros Hph [l Hl]. destruct l; try first [by eapply move_start, Hl
    | by eapply move_cancel_before, Hl | by eapply move_cancel_after, Hl
    | by eapply move_finish, Hl | by eapply move_receipts, Hl];
    simpl in Hl; unfold run_plain, run_grant in Hl; simplify_eq/=;
    try (apply bind_Some in Hl as (c & Hc & Hl); repeat case_match; simplify_eq/=);
    try (by apply move_plain; simpl; eauto using mildly_run, mildly_try_enter, quiet_tick,
      mildly_queue_validate, mildly_queue_turn, mildly_queue_abandon, quiet_is_mild,
      quiet_finish_refresh, quiet_acknowledge, mild_Close, quiet_drain_begin, quiet_drain_take).
  - eapply move_grant; [apply tryAdmit_decide_grants|done..].
  - case_match; apply move_plain; simpl; try done; apply mildly_run, mildly_queue_enter.
  - eapply move_grant; [eapply queue_decide_grants; by eapply Hph|done..].
  - case_match; apply move_plain; simpl; try done; apply quiet_is_mild, quiet_begin_refresh.
  - apply move_plain; [|done..]. apply (mildly_run PersistState), quietly_mildly, quietly_persist.
  - apply move_plain; [|done..]. apply (mildly_run Snapshot), quietly_mildly, quietly_snapshot.
Qed.

(** ** What every move keeps *)

Lemma lane_step_frame w w' : lane_step w w' →
  config (gov w') = config (gov w) ∧ (readings (gov w) ≤ readings (gov w'))%nat
  ∧ (unsafe (telemetry (gov w)) = true → unsafe (telemetry (gov w')) = true).
Proof.
  assert (∀ g g', calm g g' → config g' = config g ∧ (readings g ≤ readings g')%nat
    ∧ (unsafe (telemetry g) = true → unsafe (telemetry g') = true)) as Hcalm by by intros g g' [].
  intros [Hm _ _|r p (now & g1 & g2 & h & H1 & Hn & _ & H2 & _ & H3) _ _
    |aware h p g1 g2 _ _ _ now H1 H2 H3 _ _|exact h p g1 _ _ _ _ H1 H2 _ _].
  - by apply Hcalm, mild_is_calm.
  - apply mild_is_calm, Hcalm in H1 as (C1&R1&U1). apply mild_is_calm, Hcalm in H2 as (C2&R2&U2).
    apply mild_is_calm, Hcalm in H3 as (C3&R3&U3). simpl in *.
    split_and!; [congruence|lia|]. intros Hu%U1. apply U3. simpl. apply U2. by rw unsafe_expire.
  - by apply Hcalm, (start_effects aware p _ _ _ _ H1 H2 H3).
  - assert (calm (gov w) g1 ∧ calm (vacate g1) (gov w')) as [(C1&R1&U1)%Hcalm (C2&R2&U2)%Hcalm]
      by (destruct exact; [split; by apply mild_is_calm|done]).
    simpl in *. split_and!; [congruence|lia|auto].
Qed.

Lemma alter_lookup_phase (m : gmap nat call) i j ph c :
  alter (λ c, {| c_request := c_request c; c_phase := ph |}) i m !! j = Some c →
  c_phase c = ph ∨ m !! j = Some c.
Proof.
  destruct (decide (i = j)) as [->|].
  - rw lookup_alter_eq. destruct (m !! j); [|done]. intros [= <-]. by left.
  - rw lookup_alter_ne //. by right.
Qed.

(** Only a telemetry read moves a goroutine to its decision. *)
Lemma run_calls l w w' j c snapshot healthy now :
  run l w = Some w' → calls w' !! j = Some c → c_phase c = PDecide snapshot healthy now →
  calls w !! j = Some c ∨ now = clock (readings (gov w)).
Proof.
  intros Hl Hc Hp. destruct l; simpl in Hl; unfold run_plain, run_grant, run_permit in Hl;
    try (apply bind_Some in Hl as (c' & Hc' & Hl); repeat case_match);
    try (apply bind_Some in Hc' as (p & Hp' & [= <-]));
    simplify_eq/=; auto.
  all: try (rw /after_step /set_phase /= in Hc;
    apply alter_lookup_phase in Hc as [Hc|?]; [rw Hc in Hp|by left];
    repeat case_match; simplify_eq/=; auto; done).
  - case_match; simpl in Hc; [by left|].
    apply lookup_insert_Some in Hc as [[_ <-]|[_ Hc]]; [done|by left].
  - left. rw /charged in Hc. by case_match.
  - left. by case_match.
Qed.

Lemma step_phases_ok w w' : phases_ok w → step w w' → phases_ok w'.
Proof.
  intros Hph Hs i c sn h now Hc Hp. pose proof (step_moves _ _ Hph Hs) as Hm.
  apply lane_step_frame in Hm as (_ & Hr & _). pose proof (clock_mono _ _ Hr).
  destruct Hs as [l Hl]. destruct (run_calls _ _ _ _ _ _ _ _ Hl Hc Hp) as [Hc'| ->].
  - destruct (Hph _ _ _ _ _ Hc' Hp). lia.
  - split; [apply clock_pos|done].
Qed.

Lemma initial_phases_ok g ts : phases_ok (initial g ts).
Proof. intros i c sn h now Hc. done. Qed.

(** Rule induction: what the moves keep holds in every reachable world. *)
Lemma reachable_ind (I : World → Prop) g ts :
  I (initial g ts) → (∀ w w', phases_ok w → I w → lane_step w w' → I w') →
  ∀ w, rtc step (initial g ts) w → I w.
Proof.
  intros H0 Hstep. enough (∀ w, rtc step (initial g ts) w → phases_ok w ∧ I w) as H.
  { intros w Hw. by apply H. }
  apply rtc_ind_r.
  - split; [apply initial_phases_ok|done].
  - intros w w' Hr Hs [Hph HI]. split; [by eapply step_phases_ok|]. eapply Hstep; [done|done|by apply step_moves].
Qed.

Lemma reachable_phases g ts w : rtc step (initial g ts) w → phases_ok w.
Proof.
  revert w. apply rtc_ind_r; [apply initial_phases_ok|]. intros w w' _ Hs Hp.
  by eapply step_phases_ok.
Qed.

(** C8: refinement.  Every step of every reachable interleaving is a move of
    the abstract lane: it leaves lane and accounting alone, grants the free
    lane after a passed check, starts the attempt of a held permit and charges
    it once, or ends a permit and vacates the lane. *)
Theorem step_refines g ts w w' :
  rtc step (initial g ts) w → step w w' → lane_step w w'.
Proof. intros Hr. by eapply step_moves, reachable_phases. Qed.
End spec.
