(* ===== verification/Safety.v ===== *)
(** * Safety of the governor

    Invariants of every reachable world: one permit at a time, the rolling
    windows, the pacing interval and the task budgets hold for every history of
    charged starts, and the safety latch stops all later grants. *)

From S2P Require Import Prelude GoTime Provider Receipts GovTypes Ledger GovState Circuit.
From S2P Require Import CircuitLaws Admission Permits Persist Frames Admissible Grants PermitLaws.
From S2P Require Import System.

Local Open Scope Z_scope.
Local Open Scope runstead_scope.
Local Open Scope general_if_scope.

(** ** Histories of starts *)

(** At most [c] starts in every window of length [w]. *)
Definition within_budget (w : Duration) (c : Z) (starts : list Time) : Prop :=
  ∀ t, Z.of_nat (count_if (λ s, (t - w <? s) && (s <=? t)) starts) ≤ c.

(** Consecutive starts are at least [d] apart. *)
Definition paced (d : Duration) (starts : list Time) : Prop :=
  StronglySorted (λ s t, s + d ≤ t) starts.

Definition last_start (starts : list Time) : Time := default zeroTime (last starts).

Lemma within_budget_snoc w c starts now :
  within_budget w c starts → (∀ s, s ∈ starts → s ≤ now) →
  Z.of_nat (count_if (λ s, now - w <? s) starts) < c → within_budget w c (starts ++ [now]).
Proof.
  intros Hb Hle Hc t. rw count_if_app count_if_cons count_if_nil.
  destruct (Z.le_gt_cases now t) as [Ht|Ht].
  - assert (Z.of_nat (count_if (λ s, (t - w <? s) && (s <=? t)) starts)
      ≤ Z.of_nat (count_if (λ s, now - w <? s) starts)) as Hm.
    { apply inj_le, count_if_mono. intros s Hs. rw andb_true_iff !Z.ltb_lt. lia. }
    case_match; lia.
  - rw (_ : (t - w <? now) && (now <=? t) = false); first by (rw andb_false_iff Z.leb_gt; lia).
    specialize (Hb t). lia.
Qed.

Lemma paced_snoc d starts now :
  0 ≤ d → paced d starts → (starts ≠ [] → last_start starts + d ≤ now) →
  paced d (starts ++ [now]).
Proof.
  intros Hd Hp Hl. apply StronglySorted_app_2; [|done|by repeat constructor].
  intros s t Hs Ht. apply list_elem_of_singleton in Ht as ->.
  destruct starts as [|s0 ss] using rev_ind; [set_solver|]. clear IHss.
  specialize (Hl ltac:(by destruct ss)). rw /last_start last_snoc /= in Hl.
  apply elem_of_app in Hs as [Hs|Hs%list_elem_of_singleton]; [|by subst].
  pose proof (StronglySorted_app_1_elem_of _ _ _ s s0 Hp Hs ltac:(set_solver)). simpl in *. lia.
Qed.

Lemma paced_last d starts s :
  0 ≤ d → paced d starts → s ∈ starts → s ≤ last_start starts.
Proof.
  intros Hd Hp Hs. destruct starts as [|s0 ss] using rev_ind; [set_solver|]. clear IHss.
  rw /last_start last_snoc /=.
  apply elem_of_app in Hs as [Hs|Hs%list_elem_of_singleton]; [|by subst].
  pose proof (StronglySorted_app_1_elem_of _ _ _ s s0 Hp Hs ltac:(set_solver)). simpl in *. lia.
Qed.

(** ** One permit at a time *)

Definition live_permit (w : World) (h : nat) (p : Permit) : Prop :=
  permits w !! h = Some p ∧ completed p = false.

Record lane_inv (w : World) : Prop := {
  li_attached : ∀ h p, permits w !! h = Some p → attached p = true;
  li_unique : ∀ h h' p p', live_permit w h p → live_permit w h' p' → h = h';
  li_held : inFlight (gov w) = true ↔ ∃ h p, live_permit w h p;
  li_task : ∀ h p, live_permit w h p → activeTaskID (gov w) = TaskID (request p);
  li_aware : ∀ h p, permits w !! h = Some p → receiptAware p = true →
    RequireAttemptReceipts (config (gov w)) = true
}.

Section lane.
Context {MO : MapOrder} {EV : Env} {MC : MonotoneClock} {RD : Rendering}.

Lemma live_insert w w' h p q h' p' :
  permits w' = <[h := q]> (permits w) → permits w !! h = Some p →
  live_permit w' h' p' → (h' = h ∧ p' = q ∧ completed q = false) ∨ (h' ≠ h ∧ live_permit w h' p').
Proof.
  rw /live_permit. intros -> Hp [Hh Hc].
  apply list_lookup_insert_Some in Hh as [(<- & <- & _)|[? ?]]; [by left|right].
  by split_and!.
Qed.

Lemma live_snoc w w' p h' p' :
  permits w' = permits w ++ [p] → live_permit w' h' p' →
  live_permit w h' p' ∨ (h' = length (permits w) ∧ p' = p).
Proof.
  rw /live_permit. intros -> [Hh Hc]. apply lookup_app_Some in Hh as [Hh|[Hle Hh]]; [by left|].
  right. apply list_lookup_singleton_Some in Hh as [? <-]. split; [lia|done].
Qed.

Lemma initial_lane_inv g ts : inFlight g = false → lane_inv (initial g ts).
Proof.
  intros Hf. split; simpl; try done.
  - by intros h h' p p' [].
  - rw Hf. split; [done|]. by intros (h & p & []).
  - by intros h p [].
Qed.

Lemma lane_inv_none w w' :
  mild (gov w) (gov w') → permits w' = permits w → lane_inv w → lane_inv w'.
Proof.
  intros Hm%mild_is_calm Hp []. rw /live_permit in li_unique0 li_held0 li_task0.
  split; rw /live_permit ?Hp ?(calm_inFlight _ _ Hm) ?(calm_active _ _ Hm)
    ?(calm_config _ _ Hm) //.
Qed.

Lemma lane_inv_grant w w' request p :
  granted request p (gov w) (gov w') → permits w' = permits w ++ [p] → lane_inv w → lane_inv w'.
Proof.
  intros Hg Hp []. destruct (granted_free _ _ _ _ Hg) as [Hfree _].
  destruct Hg as (now & g1 & g2 & h & H1 & _ & _ & H2 & -> & H3%mild_is_calm).
  assert (∀ h p, ¬ live_permit w h p) as Hnone.
  { intros h' p' Hl. rw Hfree in li_held0. assert (false = true) by (apply li_held0; by eexists _, _).
    done. }
  assert (config (gov w') = config (gov w)) as Hc.
  { rw (calm_config _ _ H3) /= (calm_config _ _ (mild_is_calm _ _ H2)) /=.
    apply (calm_config _ _ (mild_is_calm _ _ H1)). }
  assert (∀ h' p', live_permit w' h' p' →
    h' = length (permits w) ∧ p' = newPermit request h) as Hlive.
  { intros h' p' [?|?]%(live_snoc w _ _ _ _ Hp); [by exfalso; eapply Hnone|done]. }
  split.
  - intros h' p'. rw Hp. intros [?|[_ ?]]%lookup_app_Some; [by eapply li_attached0|].
    by apply list_lookup_singleton_Some in H as [_ <-].
  - intros h1 h2 p1 p2 [-> _]%Hlive [-> _]%Hlive. done.
  - rw (calm_inFlight _ _ H3) /=. split; [intros _|done].
    exists (length (permits w)), (newPermit request h). split; [|done].
    by rw Hp list_lookup_middle.
  - intros h' p' [_ ->]%Hlive. by rw (calm_active _ _ H3).
  - intros h' p'. rw Hp Hc. intros [?|[_ ?]]%lookup_app_Some; [by eapply li_aware0|].
    by apply list_lookup_singleton_Some in H as [_ <-].
Qed.

Lemma lane_inv_update w w' h p q :
  permits w !! h = Some p → completed p = false → attached q = true →
  config (gov w') = config (gov w) → permits w' = <[h := q]> (permits w) →
  (receiptAware q = true → RequireAttemptReceipts (config (gov w)) = true) →
  request q = request p →
  inFlight (gov w') = negb (completed q) →
  (completed q = false → activeTaskID (gov w') = activeTaskID (gov w)) →
  lane_inv w → lane_inv w'.
Proof.
  intros Hh Hc Hatt Hcfg Hp Haw Hreq Hin Hact [].
  assert (live_permit w h p) as Hlive by done.
  assert (∀ h' p', live_permit w' h' p' → h' = h ∧ p' = q ∧ completed q = false) as Honly.
  { intros h' p' [?|[Hne Hl]]%(live_insert w _ _ _ _ _ _ Hp Hh); [done|].
    by pose proof (li_unique0 _ _ _ _ Hl Hlive). }
  assert (permits w' !! h = Some q) as Hq.
  { rw Hp list_lookup_insert_eq //. by apply lookup_lt_Some in Hh. }
  split.
  - intros h' p'. rw Hp. intros [(_ & <- & _)|[_ ?]]%list_lookup_insert_Some; [done|].
    by eapply li_attached0.
  - intros h1 h2 p1 p2 (-> & _)%Honly (-> & _)%Honly. done.
  - rw Hin negb_true_iff. split; [intros Hcq; by exists h, q|].
    by intros (h' & p' & (_ & _ & ?)%Honly).
  - intros h' p' (-> & -> & Hcq)%Honly. rw (Hact Hcq) Hreq. by eapply li_task0.
  - intros h' p'. rw Hp Hcfg. intros [(_ & <- & _)|[_ ?]]%list_lookup_insert_Some; [done|].
    by eapply li_aware0.
Qed.

Lemma lane_step_inv w w' : lane_step w w' → lane_inv w → lane_inv w'.
Proof.
  intros Hs Hi. pose proof (lane_step_frame _ _ Hs) as (Hcfg & _).
  destruct Hs as [Hm Hp _|request p Hg Hp _|aware h p g1 g2 Ha Hh Hr now H1 H2 H3 Hp _
    |exact h p g1 Hh Hat Hc Haw H1 H2 Hp _].
  - by eapply lane_inv_none.
  - by eapply lane_inv_grant.
  - pose proof (start_effects aware p _ _ _ _ H1 H2 H3) as [Hcalm _ _ _ _ _ _ _ _ _].
    rw /start_ready in Hr. time_spec.
    apply (lane_inv_update w w' h p (started_permit aware now (nextAttempt (gov w)) p));
      try done; simpl.
    + intros Haware. congruence.
    + rw (calm_inFlight _ _ Hcalm). by destruct (completed p).
    + intros _. apply (calm_active _ _ Hcalm).
  - apply (lane_inv_update w w' h p (complete p)); try done; simpl.
    + by eapply li_aware.
    + destruct exact; [apply mild_is_calm in H2|]; by rw (calm_inFlight _ _ H2).
Qed.

(** C7: at most one permit is outstanding in any reachable world, and the lane
    is marked occupied exactly while there is one. *)
Theorem single_lane g ts w :
  inFlight g = false → rtc step (initial g ts) w →
  (∀ h h' p p', live_permit w h p → live_permit w h' p' → h = h')
  ∧ (inFlight (gov w) = true ↔ ∃ h p, live_permit w h p).
Proof.
  intros Hf Hr. enough (lane_inv w) as [] by done. revert w Hr. apply reachable_ind.
  - by apply initial_lane_inv.
  - intros w w' _ Hi Hs. by eapply lane_step_inv.
Qed.
End lane.

(** ** Accounting *)

(** The numeric facts of a validated configuration. *)
Record limits_ok (c : Config) : Prop := {
  lo_ceilings : cfg_AllowanceKind c ≠ AllowanceKindUnlimitedText →
    0 < Rolling3h c ∧ 0 < Rolling1h c ∧ 0 < Rolling10m c;
  lo_task : 0 < TaskBudget c;
  lo_retry : 0 ≤ RetryBudget c;
  lo_interval : 0 < MinimumStartInterval c
}.

Definition windows_respected (c : Config) (starts : list Time) : Prop :=
  cfg_AllowanceKind c ≠ AllowanceKindUnlimitedText →
  within_budget (3 * Hour) (Rolling3h c) starts
  ∧ within_budget Hour (Rolling1h c) starts
  ∧ within_budget (10 * Minute) (Rolling10m c) starts.

Section accounting.
Context {MO : MapOrder} {EV : Env} {MC : MonotoneClock} {RD : Rendering}.

(** The governor's books agree with the history of charged starts, and the
    history respects the policy. *)
Record accounts (g : Governor) (starts : list Time) : Prop := {
  ac_limits : limits_ok (config g);
  ac_wf : ledger_wf (ledger g);
  ac_usage : ∀ id, 0 ≤ attempts (task_of g id) ≤ TaskBudget (config g)
    ∧ 0 ≤ retries (task_of g id) ≤ RetryBudget (config g);
  ac_ledger : ∃ old, starts = old ++ (at_ <$> live (ledger g))
    ∧ ∀ t, t ∈ old → t ≤ clock (readings g) - 3 * Hour;
  ac_past : ∀ s, s ∈ starts → zeroTime < s ≤ clock (readings g);
  ac_last : lastStart g = last_start starts;
  ac_windows : windows_respected (config g) starts;
  ac_paced : paced (MinimumStartInterval (config g)) starts
}.

Lemma accounts_accountable g ts : accounts g ts → accountable g.
Proof.
  intros [Hl _ _ (old & -> & _) Hp _ _ _]. split; [apply Hl|].
  intros e He. apply Hp, elem_of_app. right. by apply list_elem_of_fmap_2.
Qed.

Lemma accounts_usage_nonneg g ts : accounts g ts → usage_nonneg g.
Proof. intros [_ _ Hu _ _ _ _ _] id. specialize (Hu id). lia. Qed.

Lemma accounts_mild g g' ts : mild g g' → accounts g ts → accounts g' ts.
Proof.
  intros Hm []. pose proof (calm_config _ _ (mild_calm _ _ Hm)) as Hc.
  pose proof (clock_mono _ _ (calm_readings _ _ (mild_calm _ _ Hm))) as Hr.
  split; rw ?Hc //.
  - by apply (mild_wf _ _ Hm).
  - intros id. specialize (ac_usage0 id).
    destruct (mild_usage _ _ Hm id) as [[= -> ->]|[[= -> ->] _]]; [done|lia].
  - destruct ac_ledger0 as (o1 & -> & H1), (mild_old _ _ Hm) as (o2 & Hl & H2).
    exists (o1 ++ (at_ <$> o2)). rw Hl fmap_app app_assoc. split; [done|].
    intros t [Ht|(e & -> & He)%list_elem_of_fmap]%elem_of_app; [specialize (H1 t Ht); lia|auto].
  - intros s Hs. specialize (ac_past0 s Hs). lia.
  - by rw (mild_start _ _ Hm).
Qed.

Lemma accounts_occupy request g ts : accounts g ts → accounts (occupy request g) ts.
Proof. by intros []; split. Qed.
Lemma accounts_vacate g ts : accounts g ts → accounts (vacate g) ts.
Proof. by intros []; split. Qed.

(** The starts of a window are the events the ledger counts. *)
Lemma count_starts g ts now w :
  accounts g ts → clock (readings g) ≤ now → w ≤ 3 * Hour →
  Z.of_nat (count_if (λ s, now - w <? s) ts) = ledger_count now w (ledger g).
Proof.
  intros [_ _ _ (old & -> & Hold) _ _ _ _] Hnow Hw. rw count_if_app count_if_zero.
  - intros t Ht. specialize (Hold t Ht). apply Z.ltb_ge. lia.
  - rw /ledger_count /count_if /=. f_equal. induction (live (ledger g)) as [|e es IH]; [done|].
    rw fmap_cons !filter_cons /After /Add (_ : now + - w = now - w); first lia.
    destruct (now - w <? at_ e); simpl; by rw IH.
Qed.

(** A start that was allowed keeps the books in order. *)
Lemma accounts_start request g g' ts :
  let now := clock (readings g) in
  accounts g ts → inFlight g = true → activeTaskID g = TaskID request →
  may_start now request g → start_effect true now now request g g' →
  accounts g' (ts ++ [now]).
Proof.
  intros now Hac Hin Hact [[Hba Hbr] Hw Hp] [].
  pose proof (calm_config _ _ se_calm) as Hc.
  pose proof (clock_mono _ _ (calm_readings _ _ se_calm)) as Hr. fold now in Hr.
  pose proof (count_starts g ts now) as Hcount. destruct Hac.
  assert (zeroTime < now) as Hpos by apply clock_pos.
  split; rw ?Hc //; auto.
  - intros id. specialize (ac_usage0 id). specialize (se_usage Hin Hact id).
    case_match; subst.
    + injection se_usage as -> ->. simpl. split; [lia|]. destruct (Retry request); [|lia].
      specialize (Hbr eq_refl). lia.
    + destruct ac_limits0. destruct se_usage as [[= -> ->]|[= -> ->]]; lia.
  - destruct ac_ledger0 as (o1 & -> & H1), (se_ledger ac_wf0) as (o2 & Hl & H2).
    exists (o1 ++ (at_ <$> o2)).
    rw -!app_assoc -fmap_app -Hl fmap_app. split; [done|].
    intros t [Ht|(e & -> & He)%list_elem_of_fmap]%elem_of_app; [specialize (H1 t Ht); lia|auto].
  - intros s [Hs| ->%list_elem_of_singleton]%elem_of_app; [specialize (ac_past0 s Hs); lia|lia].
  - by rw se_start /last_start last_snoc.
  - intros Hk. destruct (ac_windows0 Hk) as (W1 & W2 & W3), (Hw Hk) as (B1 & B2 & B3).
    split_and!; (apply within_budget_snoc; [done|intros s Hs; by apply ac_past0|]).
    all: rw Hcount //; rw /Hour /Minute /Second; lia.
  - destruct ac_limits0. apply paced_snoc; [lia|done|]. intros Hne. rw -ac_last0. apply Hp.
    rw ac_last0 /last_start. destruct (last ts) as [s|] eqn:Hl; simpl.
    + apply last_Some_elem_of, ac_past0 in Hl. lia.
    + by apply last_None in Hl.
Qed.

Record books (w : World) : Prop := {
  bk_lane : lane_inv w;
  bk_single : RequireAttemptReceipts (config (gov w)) = false;
  bk_accounts : accounts (gov w) (starts w);
  bk_hold : ∀ h p, live_permit w h p → started p = false →
    may_start (clock (readings (gov w))) (request p) (gov w)
}.

Lemma books_initial g ts :
  inFlight g = false → RequireAttemptReceipts (config g) = false →
  accounts g ts → books (initial g ts).
Proof. intros Hf Hr Ha. split; [by apply initial_lane_inv|done|done|by intros h p []]. Qed.

Lemma may_start_later g g' request ts :
  accounts g ts → mild g g' → may_start (clock (readings g)) request g →
  may_start (clock (readings g')) request g'.
Proof.
  intros Ha Hm. apply may_start_mild; [done| |by eapply accounts_usage_nonneg].
  apply clock_mono, (calm_readings _ _ (mild_calm _ _ Hm)).
Qed.

Lemma books_grant w w' request p :
  granted request p (gov w) (gov w') → permits w' = permits w ++ [p] →
  starts w' = starts w → books w → accounts (gov w') (starts w') ∧
  ∀ h p, live_permit w' h p → may_start (clock (readings (gov w'))) (GovTypes.request p) (gov w').
Proof.
  intros Hg Hp Hs [[Hatt Hu Hheld Ht Haw] _ Ha _].
  destruct (granted_free _ _ _ _ Hg) as [Hfree _].
  destruct (granted_may_start _ _ _ _ (accounts_accountable _ _ Ha)
    (accounts_usage_nonneg _ _ Ha) Hg) as (now & g2 & hl & H1 & Hnow & Hms & -> & H2).
  assert (accounts (occupy request g2) (starts w)) as Ha2
    by by eapply accounts_occupy, accounts_mild.
  rw Hs. split; [by eapply accounts_mild|]. intros h p Hlive.
  destruct (live_snoc w _ _ _ _ Hp Hlive) as [Hl|[_ ->]].
  { rw Hfree in Hheld. assert (false = true) by (apply Hheld; by eexists _, _). done. }
  apply (may_start_mild now _ request (occupy request g2)); [done| | |].
  - pose proof (clock_mono _ _ (mild_readings _ _ H2)). simpl in *. lia.
  - by eapply accounts_usage_nonneg.
  - by destruct Hms; split.
Qed.

Lemma lane_step_books w w' : lane_step w w' → books w → books w'.
Proof.
  intros Hs Hb. pose proof (lane_step_frame _ _ Hs) as (Hcfg & _).
  pose proof (lane_step_inv _ _ Hs (bk_lane _ Hb)) as Hl'.
  assert (accounts (gov w') (starts w') →
      (∀ h p, live_permit w' h p → started p = false →
       may_start (clock (readings (gov w'))) (request p) (gov w')) → books w') as Hmk.
  { intros H1 H2. split; [done|rw Hcfg; apply Hb|done|done]. }
  destruct Hs as [Hm Hp Hst|request p Hg Hp Hst|aware h p g1 g2 Ha Hh Hr now H1 H2 H3 Hp Hst
    |exact h p g1 Hh Hat Hc Haw H1 H2 Hp Hst].
  - destruct Hb as [Hl Hsg Hac Hh]. apply Hmk; [rw Hst; by eapply accounts_mild|].
    intros h p [Hl1 Hc] Hns. eapply may_start_later; [done..|]. apply (Hh h); [|done].
    by rw /live_permit -Hp.
  - destruct (books_grant _ _ _ _ Hg Hp Hst Hb) as [Hac Hms]. apply Hmk; eauto.
  - destruct Hb as [Hl Hsg Hac Hh']. rw Hsg in Ha. subst aware.
    pose proof (start_effects false p _ _ _ _ H1 H2 H3) as He. simpl in He.
    rw /start_ready in Hr. time_spec.
    assert (live_permit w h p) as Hlive by done. apply Hmk.
    + rw Hst. apply (accounts_start (request p) (gov w)); try done.
      * by eapply li_task.
      * by apply (Hh' h).
    + intros h' p' [(_ & -> & _)|[Hne Hl2]]%(live_insert w _ _ _ _ _ _ Hp Hh) Hns; [done|].
      by pose proof (li_unique _ Hl _ _ _ _ Hl2 Hlive).
  - destruct Hb as [Hl Hsg Hac Hh']. destruct exact.
    2: { pose proof (li_aware _ Hl _ _ Hh (Haw eq_refl)). congruence. }
    assert (live_permit w h p) as Hlive by done. apply Hmk.
    + rw Hst. eapply accounts_mild; [exact H2|]. by eapply accounts_vacate, accounts_mild.
    + intros h' p' [(_ & _ & ?)|[Hne Hl2]]%(live_insert w _ _ _ _ _ _ Hp Hh) Hns; [done|].
      by pose proof (li_unique _ Hl _ _ _ _ Hl2 Hlive).
Qed.

Section reachable.
Context (g : Governor) (ts : list Time) (w : World).
Context (Hfree : inFlight g = false) (Hsingle : RequireAttemptReceipts (config g) = false).
Context (Hbooks : accounts g ts).
Context (Hreach : rtc step (initial g ts) w).

Lemma reachable_books : books w ∧ config (gov w) = config g.
Proof.
  revert w Hreach. apply (reachable_ind (λ w, books w ∧ config (gov w) = config g)).
  - split; [by apply books_initial|done].
  - intros w1 w2 _ [Hb Hc] Hs. split; [by eapply lane_step_books|].
    by rw (proj1 (lane_step_frame _ _ Hs)).
Qed.

End reachable.

Lemma limits_of_config c :
  config_ok c → limits_ok (c <| cfg_AllowanceKind := EffectiveAllowanceKind c |>).
Proof.
  intros []. split; simpl; try lia. intros Hk.
  case_bool_decide; [done|]. destruct co_allowance. lia.
Qed.

(** The books of a new governor are in order. *)
Lemma New_books c source sink g :
  New c source sink None = inr g →
  inFlight g = false ∧ config g = c <| cfg_AllowanceKind := EffectiveAllowanceKind c |>
  ∧ accounts g [].
Proof.
  rw /New. destruct (Config_Validate c) eqn:Hv; [done|]. intros [= <-].
  apply config_valid_iff, limits_of_config in Hv. split_and!; [done..|]. split; simpl.
  - done.
  - apply ledger_wf_empty.
  - intros id. rw /task_of /= lookup_empty /=. destruct Hv. simpl in *. lia.
  - exists []. split; [done|]. set_solver.
  - set_solver.
  - done.
  - intros Hk. destruct Hv. simpl in *. destruct lo_ceilings0 as (?&?&?); [done|].
    rw /within_budget. split_and!; intros t; rw count_if_nil; lia.
  - constructor.
Qed.

Section single_attempt.
Context (c : Config) (source sink : bool) (g : Governor) (w : World).
Context (Hnew : New c source sink None = inr g).
Context (Hsingle : RequireAttemptReceipts c = false).
Context (Hreach : rtc step (initial g []) w).

Lemma single_attempt_books : books w ∧ config (gov w) = config g.
Proof.
  destruct (New_books _ _ _ _ Hnew) as (Hf & Hc & Ha).
  apply (reachable_books g []); [done|by rw Hc|done|done].
Qed.

(** C6: rolling budgets.  For a governor that does not require attempt
    receipts (RequireAttemptReceipts = false, where one permit is one attempt)
    and has a numeric allowance policy: whatever the interleaving of
    goroutines, any three hours, any hour and any ten minutes contain at most
    the configured number of attempt starts.  With receipts required one permit
    may debit several receipts, and the statement makes no claim. *)
Theorem rolling_budgets :
  EffectiveAllowanceKind c ≠ AllowanceKindUnlimitedText →
  within_budget (3 * Hour) (Rolling3h c) (starts w)
  ∧ within_budget Hour (Rolling1h c) (starts w)
  ∧ within_budget (10 * Minute) (Rolling10m c) (starts w).
Proof.
  destruct (New_books _ _ _ _ Hnew) as (_ & Hc & _).
  destruct single_attempt_books as [[_ _ [] _] Hcw]. rw Hcw Hc in ac_windows0. exact ac_windows0.
Qed.

(** Pacing.  Any two attempt starts are at least the minimum start
    interval apart. *)
Theorem starts_paced : paced (MinimumStartInterval c) (starts w).
Proof.
  destruct (New_books _ _ _ _ Hnew) as (_ & Hc & _).
  destruct single_attempt_books as [[_ _ [] _] Hcw]. rw Hcw Hc in ac_paced0. exact ac_paced0.
Qed.

(** Task budgets.  For a governor that does not require attempt receipts,
    the attempts and retries booked for a task never exceed its budgets. *)
Theorem task_budgets id :
  0 ≤ attempts (task_of (gov w) id) ≤ TaskBudget c
  ∧ 0 ≤ retries (task_of (gov w) id) ≤ RetryBudget c.
Proof.
  destruct (New_books _ _ _ _ Hnew) as (_ & Hc & _).
  destruct single_attempt_books as [[_ _ [] _] Hcw]. rw Hcw Hc in ac_usage0.
  apply ac_usage0.
Qed.
End single_attempt.

(** The safety latch is permanent.  Once the latch is set, it stays set
    and no later step hands out a permit. *)
Theorem unsafe_latch g ts w w' :
  rtc step (initial g ts) w → unsafe (telemetry (gov w)) = true → rtc step w w' →
  unsafe (telemetry (gov w')) = true ∧ length (permits w') = length (permits w).
Proof.
  intros Hr Hu Hs.
  apply reachable_phases in Hr as Hph. clear Hr. induction Hs as [w|w w1 w2 Hs _ IH]; [done|].
  pose proof (step_moves _ _ Hph Hs) as Hm. pose proof (step_phases_ok _ _ Hph Hs) as Hph'.
  pose proof (lane_step_frame _ _ Hm) as (_ & _ & Hu').
  destruct (IH (Hu' Hu) Hph') as [? ->]. split; [done|].
  destruct Hm as [_ -> _|request p Hg _ _|? h p ? ? _ _ _ ? _ _ _ -> _|? h p ? _ _ _ _ _ _ -> _].
  - done.
  - apply granted_free in Hg as [_ Hg]. congruence.
  - apply length_insert.
  - apply length_insert.
Qed.
End accounting.
