(* ===== verification/PersistLaws.v ===== *)
(** * A restart does not reset account protection

    [restored] is the governor a new process builds from the state an old one
    persisted.  Its protection is the old one's, field by field, so admission
    is no easier after the restart, and the budgets of the old and the new
    process hold for their joint history. *)

From S2P Require Import Prelude GoTime Provider Receipts GovTypes Ledger GovState Circuit.
From S2P Require Import CircuitLaws Admission Permits Persist Frames Admissible Grants PermitLaws.
From S2P Require Import System Safety.

Local Open Scope Z_scope.
Local Open Scope runstead_scope.

(** ** Rebuilding a map from its entries *)

Section rebuild.
Context {MO : MapOrder}.

Lemma range_rebuild {A} (m : gmap string A) :
  foldl (λ acc kx, <[kx.1 := kx.2]> acc) ∅ (range m) = m.
Proof.
  assert (∀ l (acc : gmap string A), NoDup l.*1 →
    foldl (λ acc kx, <[kx.1 := kx.2]> acc) acc l = list_to_map l ∪ acc) as Hf.
  { induction l as [|[k x] l IH]; intros acc Hnd; simpl.
    - by rw left_id_L.
    - apply NoDup_cons in Hnd as [Hk Hnd]. rw IH // -insert_union_l -insert_union_r //.
      by apply not_elem_of_list_to_map. }
  rw Hf; [apply NoDup_range|]. rw right_id_L.
  rw -{2}(list_to_map_to_list m). apply list_to_map_proper; [apply NoDup_range|apply range_perm].
Qed.

Lemma foldl_fmap {A B C} (f : C → B → C) (g : A → B) xs (c : C) :
  foldl f c (g <$> xs) = foldl (λ c x, f c (g x)) c xs.
Proof. revert c. induction xs as [|x xs IH]; intros c; [done|]. apply IH. Qed.

Lemma foldl_ext_in {A B} (f g : B → A → B) xs b :
  (∀ b x, x ∈ xs → f b x = g b x) → foldl f b xs = foldl g b xs.
Proof.
  revert b. induction xs as [|x xs IH]; intros b Hfg; simpl; [done|].
  rw Hfg; [set_solver|]. apply IH. intros b' y Hy. apply Hfg. set_solver.
Qed.
End rebuild.

Section restore.
Context {MO : MapOrder} {EV : Env}.

Lemma restore_tasks m : foldl restore_task ∅ (taskStateRecords m) = m.
Proof.
  rw /taskStateRecords foldl_fmap -{2}(range_rebuild m). apply foldl_ext_in.
  by intros b [k []] _.
Qed.

Lemma requestState_roundtrip s : requestStateFromName (requestStateName s) = s.
Proof. by destruct s. Qed.

Lemma restore_requests m : foldl restore_request ∅ (requestRecords m) = m.
Proof.
  rw /requestRecords foldl_fmap -{2}(range_rebuild m). apply foldl_ext_in.
  intros b [k []] _. by rw /restore_request /= requestState_roundtrip.
Qed.

Lemma restore_attempts m :
  (∀ k t, m !! k = Some t → t ≠ zeroTime) → foldl restore_attempt ∅ (attemptIDRecords m) = m.
Proof.
  intros Hz. rw /attemptIDRecords foldl_fmap -{2}(range_rebuild m). apply foldl_ext_in.
  intros b [k t] Hin%elem_of_range. rw /restore_attempt /=.
  destruct (IsZero t) eqn:E; [|done]. apply IsZero_spec in E. by apply Hz in Hin.
Qed.

Lemma restore_events es l :
  (∀ e, e ∈ es → at_ e ≠ zeroTime) →
  foldl restore_event l es = {| events := events l ++ es; head := head l |}.
Proof.
  revert l. induction es as [|[t k] es IH]; intros l Hz; simpl.
  - rw app_nil_r. by destruct l.
  - rw IH; [set_solver|]. rw /restore_event /=.
    destruct (IsZero t) eqn:E; simpl.
    + apply IsZero_spec in E. exfalso. apply (Hz {| at_ := t; le_taskID := k |}); [set_solver|done].
    + by rw -app_assoc.
Qed.

(** The governor of a new process, from what the old one persisted. *)
Definition restored (c : Config) (source sink : bool) (state : PersistedState) : Governor :=
  exec (RestorePersistedState state) (freshGovernor c source sink).

Lemma restored_fresh c source sink state :
  config (restored c source sink state) = c <| cfg_AllowanceKind := EffectiveAllowanceKind c |>
  ∧ inFlight (restored c source sink state) = false.
Proof.
  rw /restored /exec /RestorePersistedState !bind_run. cbn [Now modify fst snd].
  set (b := _ <? _). by destruct b.
Qed.

(** What the running governor guarantees of its records: instants are real,
    the circuit has a state, and attempts are numbered from one. *)
Record recorded (g : Governor) : Prop := {
  rd_events : ∀ e, e ∈ live (ledger g) → at_ e ≠ zeroTime;
  rd_attempts : ∀ k t, attemptIDs g !! k = Some t → t ≠ zeroTime;
  rd_circuit : cd_state (circuit g) ≠ CircuitNone;
  rd_next : 1 ≤ nextAttempt g
}.

Lemma restore_circuit_spec g :
  cd_state (circuit g) ≠ CircuitNone →
  restore_circuit (persistedStateLocked g) newCircuit = (circuit g) <| refreshInFlight := false |>.
Proof.
  intros Hc. rw /restore_circuit /=. case_bool_decide; [done|]. by destruct (circuit g).
Qed.

Lemma restore_telemetry_spec g :
  restore_telemetry (persistedTelemetry g) zeroTelemetryState = telemetry g.
Proof. rw /restore_telemetry /=. by destruct (telemetry g) as [[]]. Qed.

(** The governor before its retention is pruned. *)
Definition replica (c : Config) (source sink : bool) (g : Governor) : Governor :=
  (freshGovernor c source sink) <| readings := 1%nat |>
    <| nextAttempt := Z.max 1 (nextAttempt g) |> <| lastStart := lastStart g |>
    <| cooldownUntil := cooldownUntil g |>
    <| circuit := normalize_circuit (clock 0)
         (restore_circuit (persistedStateLocked g) newCircuit) |>
    <| telemetry := telemetry g |>
    <| ledger := {| events := live (ledger g); head := 0 |} |>
    <| tasks := tasks g |> <| requestIDs := requestIDs g |>
    <| attemptIDs := foldl restore_attempt ∅ (attemptIDRecords (attemptIDs g)) |>.

Lemma Governor_ext (g g' : Governor) :
  config g = config g' → hasTelemetry g = hasTelemetry g' → hasEvents g = hasEvents g' →
  closed g = closed g' → inFlight g = inFlight g' → queue g = queue g' →
  waiters g = waiters g' → currentTask g = currentTask g' →
  consecutiveTurns g = consecutiveTurns g' → lastStart g = lastStart g' →
  nextAttempt g = nextAttempt g' → ledger g = ledger g' → tasks g = tasks g' →
  requestIDs g = requestIDs g' → attemptIDs g = attemptIDs g' →
  completedRequestIDs g = completedRequestIDs g' → activeTaskID g = activeTaskID g' →
  circuit g = circuit g' → cooldownUntil g = cooldownUntil g' → telemetry g = telemetry g' →
  pendingEvents g = pendingEvents g' → drainingEvents g = drainingEvents g' →
  readings g = readings g' → g = g'.
Proof. destruct g, g'. simpl. intros. by subst. Qed.

Lemma restored_replica c source sink g :
  (∀ e, e ∈ live (ledger g) → at_ e ≠ zeroTime) →
  restored c source sink (persistedStateLocked g)
  = pruneRetentionLocked (clock 0) (replica c source sink g).
Proof.
  intros He. rw /restored /exec /RestorePersistedState !bind_run.
  cbn [Now modify fst snd]. set (state := upd _ (persistedStateLocked g)).
  assert (restore_telemetry (ps_Telemetry state) zeroTelemetryState = telemetry g) as H2
    by apply restore_telemetry_spec.
  assert (foldl restore_event emptyLedger (ps_RollingEvents state)
    = {| events := live (ledger g); head := 0 |}) as H3 by by apply restore_events.
  assert (foldl restore_task ∅ (ps_TaskStates state) = tasks g) as H4 by apply restore_tasks.
  assert (foldl restore_request ∅ (ps_RequestRecords state) = requestIDs g) as H5
    by apply restore_requests.
  f_equal. rw /replica. set (gn := if _ <? _ then _ else _).
  assert (gn = (freshGovernor c source sink) <| readings := 1%nat |>
    <| nextAttempt := Z.max 1 (nextAttempt g) |>) as ->.
  { rw /gn. cbn [nextAttempt]. change (nextAttempt (upd _ _)) with 1.
    change (ps_NextAttempt state) with (nextAttempt g).
    destruct (Z.ltb_spec 1 (nextAttempt g)) as [|Hle]; [by rw Z.max_r; first lia|].
    by rw Z.max_l; first lia. }
  apply Governor_ext; simpl; by rw ?H2 ?H3 ?H4 ?H5.
Qed.

(** The fields of a restored governor. *)
Lemma restore_fields c source sink g :
  recorded g →
  let now := clock 0 in
  let g' := restored c source sink (persistedStateLocked g) in
  nextAttempt g' = nextAttempt g
  ∧ lastStart g' = lastStart g
  ∧ cooldownUntil g' = cooldownUntil g
  ∧ telemetry g' = telemetry g
  ∧ circuit g' = normalize_circuit now ((circuit g) <| refreshInFlight := false |>)
  ∧ live (ledger g') = live (ledger g)
  ∧ requestIDs g' = requestIDs g
  ∧ tasks g' = prune_tasks now (λ _, false) (tasks g)
  ∧ attemptIDs g' = prune_attempts now (attemptIDs g).
Proof.
  intros [He Ha Hc Hn] now g'.
  assert (g' = pruneRetentionLocked now ((replica c source sink g)
    <| nextAttempt := nextAttempt g |> <| attemptIDs := attemptIDs g |>
    <| circuit := normalize_circuit now ((circuit g) <| refreshInFlight := false |>) |>)) as ->.
  { rw /g' restored_replica; first exact He. f_equal.
    apply Governor_ext. 1-10,12-14,16-17,19-23: by simpl.
    - change (Z.max 1 (nextAttempt g) = nextAttempt g). lia.
    - exact (restore_attempts _ Ha).
    - change (normalize_circuit now (restore_circuit (persistedStateLocked g) newCircuit)
        = normalize_circuit now ((circuit g) <| refreshInFlight := false |>)).
      by rw restore_circuit_spec. }
  by split_and!.
Qed.

(** An expired window admits whether or not it was normalised away. *)
Lemma circuit_admits_normalized now now' c :
  now ≤ now' →
  circuit_admits now' (normalize_circuit now (c <| refreshInFlight := false |>))
  ↔ circuit_admits now' c.
Proof.
  intros Hle. rw /normalize_circuit /circuit_admits /=. case_match eqn:E; simpl; [|done].
  apply andb_true_iff in E as [[E1%bool_decide_eq_true E2]%andb_true_iff E3].
  time_spec. split.
  - intros (?&_&_). split_and!; [done|congruence|]. intros _. split; [done|lia].
  - intros (?&_&_). by split_and!.
Qed.

(** Round trip of the protection state.  A governor restored from what
    another one persisted has its attempt counter, last start, cooldown,
    telemetry, rolling events and request records; its circuit with an expired
    window closed and no refresh in flight; its task usage and receipt ids less
    what retention drops at the restart. *)
Theorem restore_persisted c source sink g :
  recorded g →
  let now := clock 0 in
  let g' := restored c source sink (persistedStateLocked g) in
  nextAttempt g' = nextAttempt g
  ∧ lastStart g' = lastStart g
  ∧ cooldownUntil g' = cooldownUntil g
  ∧ telemetry g' = telemetry g
  ∧ circuit g' = normalize_circuit now ((circuit g) <| refreshInFlight := false |>)
  ∧ live (ledger g') = live (ledger g)
  ∧ requestIDs g' = requestIDs g
  ∧ tasks g' = prune_tasks now (λ _, false) (tasks g)
  ∧ attemptIDs g' = prune_attempts now (attemptIDs g).
Proof. apply restore_fields. Qed.

(** C12: the provider-wide protections survive a restart.  After a restart under
    the same configuration the circuit, the upstream state, the rolling windows,
    the pacing interval and the safety latch (these five, one by one) let an
    attempt through at an instant exactly when the state that was persisted
    would have.  Task and retry budgets are not among them: restoring prunes the
    tasks that are older than the retention. *)
Theorem restart_protection c source sink g now' :
  recorded g → config g = c <| cfg_AllowanceKind := EffectiveAllowanceKind c |> →
  clock 0 ≤ now' →
  let g' := restored c source sink (persistedStateLocked g) in
  (circuit_admits now' (circuit g') ↔ circuit_admits now' (circuit g))
  ∧ (upstream_admits now' g' ↔ upstream_admits now' g)
  ∧ (windows_admit now' g' ↔ windows_admit now' g)
  ∧ (pacing_admits now' g' ↔ pacing_admits now' g)
  ∧ unsafe (telemetry g') = unsafe (telemetry g).
Proof.
  intros Hr Hc Hnow g'.
  destruct (restore_fields c source sink g Hr) as (Hn & Hl & Hcd & Ht & Hci & Hle & _).
  fold g' in Hn, Hl, Hcd, Ht, Hci, Hle.
  assert (config g' = config g) as Hcfg by by (rw Hc /g' restored_replica; [apply Hr|reflexivity]).
  rw Hci Ht. split_and!; [by apply circuit_admits_normalized| | | |done].
  - by apply upstream_admits_same.
  - by rw /windows_admit /ledger_count Hcfg Hle.
  - by apply pacing_admits_same.
Qed.
End restore.

(** ** Budgets across a restart

    The old process runs with one clock, the new one with another whose
    readings are all later. *)

Section restart.
Context {MO : MapOrder} {RD : Rendering}.
Context (old new : Env) (Hold : @MonotoneClock old) (Hnew : @MonotoneClock new).
Context (Hlater : ∀ i j, @clock old i ≤ @clock new j).

(** The books of the old process are the books of the restored one. *)
Lemma accounts_restored c source sink g ts :
  config g = c <| cfg_AllowanceKind := EffectiveAllowanceKind c |> →
  @accounts old g ts →
  @accounts new (@restored MO new c source sink (persistedStateLocked g)) ts.
Proof.
  intros Hc Ha. pose proof (@accounts_accountable old g ts Ha) as [_ He].
  rw restored_replica; first by (intros e Hin; specialize (He e Hin); lia).
  destruct Ha. rw Hc in ac_limits ac_usage ac_windows ac_paced.
  split; [done| |simpl| | |done|done|done].
  - rw /ledger_wf /=. lia.
  - intros id. rw /task_of /=.
    match goal with |- context [prune_tasks ?n ?p ?m !! id] =>
      destruct (@prune_tasks_lookup MO n p m id) as [->|[-> _]] end.
    + apply ac_usage.
    + simpl. destruct ac_limits. simpl in *. lia.
  - destruct ac_ledger as (o & -> & Ho). exists o. split; [done|].
    intros t Ht. specialize (Ho t Ht). simpl. specialize (Hlater (readings g) 1). lia.
  - intros s Hs. specialize (ac_past s Hs). simpl. specialize (Hlater (readings g) 1). lia.
Qed.

(** C9: budgets across a restart, for a configuration that does not require
    attempt receipts (RequireAttemptReceipts = false).  A process runs in any
    interleaving, its state is persisted, and a new process restores it under
    the same configuration; the starts of both processes together respect every
    rolling window and the pacing interval, and the attempts the new process
    holds booked for a task stay within the task budget. *)
Theorem budgets_across_restart c source sink g w w' :
  @New MO old c source sink None = inr g →
  RequireAttemptReceipts c = false →
  rtc (@step MO old RD) (initial g []) w →
  let state := (@PersistState MO old (gov w)).1 in
  rtc (@step MO new RD) (initial (@restored MO new c source sink state) (starts w)) w' →
  windows_respected (c <| cfg_AllowanceKind := EffectiveAllowanceKind c |>) (starts w')
  ∧ paced (MinimumStartInterval c) (starts w')
  ∧ ∀ id, attempts (task_of (gov w') id) ≤ TaskBudget c.
Proof.
  intros HN Hs Hr state Hr'.
  destruct (@single_attempt_books MO old Hold RD _ _ _ _ _ HN Hs Hr) as [[_ _ Ha _] Hcw].
  destruct (New_books _ _ _ _ HN) as (_ & Hc & _). rw Hc in Hcw.
  set (g1 := (@PersistState MO old (gov w)).2).
  assert (@mild old (gov w) g1) as Hm by by apply (mildly_run PersistState), quietly_mildly, quietly_persist.
  assert (state = persistedStateLocked g1) as Hstate.
  { rw /state /g1 /PersistState !bind_run. done. }
  rw Hstate in Hr'. apply (accounts_mild _ _ _ Hm) in Ha.
  assert (config g1 = c <| cfg_AllowanceKind := EffectiveAllowanceKind c |>) as Hc1.
  { by rw (calm_config _ _ (mild_calm _ _ Hm)). }
  pose proof (accounts_restored c source sink g1 _ Hc1 Ha) as Ha'.
  set (g' := restored _ _ _ _) in *.
  assert (config g' = config g1) as Hc'.
  { rw Hc1. apply restored_fresh. }
  assert (inFlight g' = false) as Hf' by apply restored_fresh.
  destruct (@reachable_books MO new Hnew RD g' (starts w) w') as [[_ _ [] _] Hcw']; [done| |done|done|].
  - by rw Hc' Hc1.
  - rw Hcw' Hc' Hc1 in ac_windows ac_paced ac_usage.
    split_and!; [exact ac_windows|exact ac_paced|]. intros id. apply ac_usage.
Qed.
End restart.
