(* ===== verification/Wakeups.v ===== *)
(** * No lost wakeups

    A goroutine in the admission queue sleeps on the channel its waiter had at
    its last critical section.  [wakes] says what a critical section owes to the
    sleepers: a queued waiter is signalled, or stays queued and keeps its excuse
    for sleeping.  Every method satisfies it, so a sleeper whose lane is free
    and whose turn it is can always wake. *)

From S2P Require Import Prelude GoTime Provider Receipts GovTypes Ledger GovState Circuit.
From S2P Require Import Admission Permits Persist Frames Admissible Grants PermitLaws System.

Local Open Scope Z_scope.
Local Open Scope runstead_scope.

(** It is the turn of [j]. *)
Definition eligible (g : Governor) (j : nat) : Prop :=
  eligibleIndexLocked g = indexOfLocked g j.

(** A reason to sleep without a timer: the lane is occupied, or it is the turn
    of another waiter. *)
Definition excused (g : Governor) (j : nat) : Prop := inFlight g = true ∨ ¬ eligible g j.

(** A waiter that was not removed is queued. *)
Definition queued_live (g : Governor) : Prop :=
  ∀ j e, waiters g !! j = Some e → removed e = false → j ∈ queue g.

Record wakes (g g' : Governor) : Prop := {
  wk_readings : (readings g ≤ readings g')%nat;
  wk_waiters : ∀ j e, waiters g !! j = Some e → ∃ e', waiters g' !! j = Some e'
    ∧ (notify e ≤ notify e')%nat ∧ (checking e' = true → checking e = true)
    ∧ (notify e' = notify e → j ∈ queue g → j ∈ queue g' ∧ (excused g j → excused g' j));
  wk_queued : queued_live g → queued_live g';
  wk_known : ∀ i, i ∈ queue g' → i ∈ queue g ∨ is_Some (waiters g' !! i)
}.

Definition queue_known (g : Governor) : Prop := ∀ i, i ∈ queue g → is_Some (waiters g !! i).

Section wakes.
Context {MO : MapOrder} {EV : Env} {MC : MonotoneClock}.

#[export] Instance wakes_preorder : PreOrder wakes.
Proof.
  split.
  - intros g. split; [done| |done|auto]. intros j e He. exists e. by split_and!.
  - intros g1 g2 g3 [R1 W1 Q1 K1] [R2 W2 Q2 K2']. split; [lia| |auto|].
    2: { intros i [Hi|?]%K2'; [|by right]. destruct (K1 i Hi) as [?|[e He]]; [by left|right].
         destruct (W2 i e He) as (e' & ? & _). by exists e'. }
    intros j e (e2 & H2 & N2 & C2 & K2)%W1. destruct (W2 j e2 H2) as (e3 & H3 & N3 & C3 & K3).
    exists e3. split_and!; [done|lia|auto|]. intros Hn Hj.
    destruct K2 as [Hj2 X2]; [lia|done|]. destruct K3 as [Hj3 X3]; [lia|done|]. auto.
Qed.

(** ** The queue's indices *)

Lemma index_where_app p ws ws' i :
  index_where p (ws ++ ws') i =
  match index_where p ws i with
  | Some k => Some k
  | None => index_where p ws' (i + length ws)%nat
  end.
Proof.
  revert i. induction ws as [|w ws IH]; intros i; simpl; [by rw Nat.add_0_r|].
  destruct (p w); [done|]. rw IH. by rw Nat.add_succ_comm.
Qed.

Lemma index_where_Some p ws i k :
  index_where p ws i = Some k → (i ≤ k < i + length ws)%nat.
Proof.
  revert i. induction ws as [|w ws IH]; intros i; simpl; [done|].
  destruct (p w); [intros [= ->]; lia|]. intros ?%IH. lia.
Qed.

Lemma index_where_None p ws i : index_where p ws i = None ↔ ∀ w, w ∈ ws → p w = false.
Proof.
  revert i. induction ws as [|w ws IH]; intros i; simpl; [split; [set_solver|done]|].
  destruct (p w) eqn:E.
  - split; [done|]. intros Hall. specialize (Hall w ltac:(set_solver)). congruence.
  - rw IH. set_solver.
Qed.

Lemma index_where_ext p q ws i :
  (∀ w, w ∈ ws → p w = q w) → index_where p ws i = index_where q ws i.
Proof.
  revert i. induction ws as [|w ws IH]; intros i Hpq; simpl; [done|].
  rw (Hpq w); [set_solver|]. rw IH //. set_solver.
Qed.

Lemma indexOf_queued g j : j ∈ queue g → ∃ k, indexOfLocked g j = Some k ∧ (k < length (queue g))%nat.
Proof.
  intros Hj. rw /indexOfLocked. destruct (index_where _ _ _) as [k|] eqn:E.
  - exists k. apply index_where_Some in E. split; [done|lia].
  - by rw index_where_None in E; apply E in Hj; apply Nat.eqb_neq in Hj.
Qed.

Lemma indexOf_None g j : indexOfLocked g j = None ↔ j ∉ queue g.
Proof.
  rw /indexOfLocked index_where_None. split.
  - intros Hall Hj%Hall. by apply Nat.eqb_neq in Hj.
  - intros Hj w Hw. apply Nat.eqb_neq. by intros ->.
Qed.

(** The turn depends on the queue, the requests of its waiters and the
    scheduling fields only. *)
Lemma eligible_same g g' j :
  queue g' = queue g → (∀ w, waiter_task g' w = waiter_task g w) →
  currentTask g' = currentTask g → consecutiveTurns g' = consecutiveTurns g →
  config g' = config g → eligible g' j ↔ eligible g j.
Proof.
  intros Hq Hw Hc Ht Hcfg.
  rw /eligible /eligibleIndexLocked /indexOfLocked Hq Hc Ht Hcfg.
  destruct (queue g); [done|]. erewrite (index_where_ext (λ w, negb _)); [done|].
  intros w _. simpl. by rw Hw.
Qed.

Lemma excused_same g g' j :
  queue g' = queue g → (∀ w, waiter_task g' w = waiter_task g w) →
  currentTask g' = currentTask g → consecutiveTurns g' = consecutiveTurns g →
  config g' = config g → (inFlight g = true → inFlight g' = true) →
  excused g j → excused g' j.
Proof.
  intros Hq Hw Hc Ht Hcfg Hi [?|Hne]; [left; auto|right]. by rw eligible_same.
Qed.

Lemma wakes_quiet g g' : quiet g g' → wakes g g'.
Proof.
  intros [Hm Hq Hw Hc]. split.
  - apply (calm_readings _ _ (mild_calm _ _ Hm)).
  - intros j e He. exists e. rw Hw Hq. split_and!; [done..|]. intros _ Hj. split; [done|].
    apply excused_same; [done|intros w; by rw /waiter_task Hw|apply Hm|apply Hm|apply Hm|].
    by rw (calm_inFlight _ _ (mild_calm _ _ Hm)).
  - intros Hl j e. rw Hw Hq. apply Hl.
  - rw Hq. by left.
Qed.

Lemma wakes_occupy request g : wakes g (occupy request g).
Proof.
  split; [done| |done|by left]. intros j e He. exists e. split_and!; [done..|].
  intros _ Hj. split; [done|by left].
Qed.

(** ** Signals *)

Lemma signalAll_fields ws g :
  let g' := foldl (λ g w, signalLocked w g) g ws in
  queue g' = queue g ∧ currentTask g' = currentTask g ∧ consecutiveTurns g' = consecutiveTurns g
  ∧ config g' = config g ∧ inFlight g' = inFlight g ∧ readings g' = readings g.
Proof.
  revert g. induction ws as [|w ws IH]; intros g; simpl; [done|].
  by destruct (IH (signalLocked w g)) as (->&->&->&->&->&->).
Qed.

Lemma signalAll_lookup ws g j e :
  waiters g !! j = Some e →
  ∃ e', waiters (foldl (λ g w, signalLocked w g) g ws) !! j = Some e'
    ∧ (notify e ≤ notify e')%nat ∧ (j ∈ ws → (notify e < notify e')%nat)
    ∧ checking e' = checking e ∧ removed e' = removed e ∧ w_request e' = w_request e.
Proof.
  revert g e. induction ws as [|w ws IH]; intros g e He; simpl.
  { exists e. split_and!; try done. set_solver. }
  destruct (decide (w = j)) as [->|Hne].
  - destruct (IH (signalLocked j g) (e <| notify ::= S |>)) as (e' & ? & ? & ? & ? & ? & ?).
    { by rw /= lookup_alter_eq He. }
    exists e'. simpl in *. split_and!; try done; intros; lia.
  - destruct (IH (signalLocked w g) e) as (e' & ? & ? & Hs & ? & ? & ?).
    { by rw /= lookup_alter_ne. }
    exists e'. split_and!; try done. intros [?|?]%elem_of_cons; [done|auto].
Qed.

Lemma signalAll_lookup_None ws g j :
  waiters g !! j = None → waiters (foldl (λ g w, signalLocked w g) g ws) !! j = None.
Proof.
  revert g. induction ws as [|w ws IH]; intros g He; simpl; [done|]. apply IH. simpl.
  destruct (decide (w = j)) as [->|?]; [by rw lookup_alter_eq He|by rw lookup_alter_ne].
Qed.

(** Signalling every queued waiter pays any debt, whatever happened before. *)
Lemma wakes_signalled g g2 g' :
  (readings g ≤ readings g')%nat → queue g2 = queue g → waiters g2 = waiters g →
  queue g' = queue g → waiters g' = waiters (signalAllLocked g2) → wakes g g'.
Proof.
  intros Hr Hq Hw Hq' Hw'. split; [done| | |rw Hq'; by left].
  - intros j e He. rw Hw' /signalAllLocked. rw -Hw in He.
    destruct (signalAll_lookup (queue g2) g2 j e He) as (e' & ? & ? & Hs & Hc & _).
    exists e'. split_and!; [done|done|by rw Hc|]. rw -Hq. intros Hn Hj. specialize (Hs Hj). lia.
  - intros Hl j e'. rw Hw' Hq' /signalAllLocked. intros He' Hrm.
    destruct (waiters g2 !! j) as [e|] eqn:E; [|by rw signalAll_lookup_None in He'].
    destruct (signalAll_lookup (queue g2) g2 j e E) as (e2 & H2 & _ & _ & _ & Hrr & _).
    rw He' in H2. injection H2 as <-. rw Hw in E. eapply Hl; [done|congruence].
Qed.

Lemma wakes_ended g g' : ended serene g g' → wakes g g'.
Proof.
  intros (g1 & g2 & [C1 Q1 W1 _] & [C2 Q2 W2 _] & [C3 Q3 W3 _]). simpl in *.
  destruct (signalAll_fields (queue g2) g2) as (Fq&_&_&_&_&Fr).
  pose proof (calm_readings _ _ C1). pose proof (calm_readings _ _ C2).
  pose proof (calm_readings _ _ C3). simpl in *. rw /signalAllLocked Fr in H1.
  apply (wakes_signalled g g2); [lia|congruence|congruence| |done].
  rw Q3 /signalAllLocked Fq. congruence.
Qed.

(** ** Removal *)

Lemma waiter_task_alter f g j w :
  (∀ e, w_request (f e) = w_request e) →
  waiter_task (g <| waiters ::= alter f j |>) w = waiter_task g w.
Proof.
  intros Hf. rw /waiter_task /=. destruct (decide (j = w)) as [->|].
  - rw lookup_alter_eq. destruct (waiters g !! w); simpl; [by rw Hf|done].
  - by rw lookup_alter_ne.
Qed.

(** Marking a waiter that is not queued, or signalling it, owes nothing. *)
Lemma wakes_alter f g j :
  (∀ e, w_request (f e) = w_request e ∧ (notify e ≤ notify (f e))%nat
    ∧ (checking (f e) = true → checking e = true) ∧ (removed (f e) = false → removed e = false)) →
  wakes g (g <| waiters ::= alter f j |>).
Proof.
  intros Hf. split; [done| | |by left].
  - intros i e He. assert (∃ e', waiters (g <| waiters ::= alter f j |>) !! i = Some e'
      ∧ (notify e ≤ notify e')%nat ∧ (checking e' = true → checking e = true)) as (e' & ? & ? & ?).
    { simpl. destruct (decide (j = i)) as [->|].
      - rw lookup_alter_eq He. eexists. split; [done|]. by destruct (Hf e) as (_&?&?&_).
      - rw lookup_alter_ne //. by eexists. }
    exists e'. split_and!; [done..|]. intros _ Hi. split; [done|].
    apply excused_same; try done. intros w. apply waiter_task_alter. intros e0. apply Hf.
  - intros Hl i e. simpl. destruct (decide (j = i)) as [->|].
    + rw lookup_alter_eq. destruct (waiters g !! i) as [e0|] eqn:E; [|done]. intros [= <-] Hr.
      destruct (Hf e0) as (_&_&_&Hr0). eapply Hl; [done|auto].
    + rw lookup_alter_ne //. apply Hl.
Qed.

Lemma wakes_signal w g : wakes g (signalLocked w g).
Proof. apply wakes_alter. intros e. simpl. split_and!; try done. lia. Qed.

Lemma index_where_lookup p ws i k :
  index_where p ws i = Some k → ∃ w, ws !! (k - i)%nat = Some w ∧ p w = true.
Proof.
  revert i. induction ws as [|w ws IH]; intros i; simpl; [done|].
  destruct (p w) eqn:E.
  - intros [= ->]. exists w. by rw Nat.sub_diag.
  - intros H. pose proof (index_where_Some _ _ _ _ H). destruct (IH _ H) as (w' & Hw & Hp).
    exists w'. by replace (k - i)%nat with (S (k - S i)) by lia.
Qed.

Lemma shrink_queued g j index :
  indexOfLocked g j = Some index →
  ∀ i, i ∈ queue g → i = j ∨ i ∈ take index (queue g) ++ drop (S index) (queue g).
Proof.
  intros (w & Hw & ->%Nat.eqb_eq)%index_where_lookup i Hi. rw Nat.sub_0_r in Hw.
  rw -(take_drop_middle _ _ _ Hw) in Hi. set_solver.
Qed.

(** The removed waiter leaves the queue; everyone who was in it is signalled. *)
Lemma wakes_shrink g j index e :
  indexOfLocked g j = Some index → waiters g !! j = Some e → removed e = true →
  let g1 := g <| queue ::= (λ ws, take index ws ++ drop (S index) ws) |> in
  wakes g (signalAllLocked (signalLocked j g1)).
Proof.
  intros Hidx Hj Hrm g1. pose proof (shrink_queued _ _ _ Hidx) as Hshrink.
  set (g2 := signalLocked j g1).
  destruct (signalAll_fields (queue g2) g2) as (Fq&_&_&_&_&Fr).
  split; rw /signalAllLocked; [by rw Fr| | |].
  3: { intros i. rw Fq /=. intros Hi. left. 
       apply elem_of_app in Hi as [Hi|Hi].
       - by eapply subseteq_take.
       - by eapply subseteq_drop. }
  - intros i ei Hi.
    assert (∃ e2, waiters g2 !! i = Some e2 ∧ (notify ei ≤ notify e2)%nat
      ∧ checking e2 = checking ei ∧ (i = j → (notify ei < notify e2)%nat)) as (e2 & H2 & Hn & Hc & Hs).
    { simpl. destruct (decide (j = i)) as [->|].
      - rw lookup_alter_eq Hi. eexists. split; [done|]. simpl. split_and!; [lia|done|lia].
      - rw lookup_alter_ne //. exists ei. split_and!; done. }
    destruct (signalAll_lookup (queue g2) g2 i e2 H2) as (e' & ? & ? & Hs' & Hc' & _).
    exists e'. split_and!; [done|lia|by rw Hc' Hc|]. intros Heq Hq. exfalso.
    destruct (Hshrink i Hq) as [->|Hin]; [specialize (Hs eq_refl); lia|].
    specialize (Hs' Hin). lia.
  - intros Hl i ei Hi Hri. rw Fq.
    destruct (waiters g2 !! i) as [e2|] eqn:E; [|by rw signalAll_lookup_None in Hi].
    destruct (signalAll_lookup (queue g2) g2 i e2 E) as (e' & H' & _ & _ & _ & Hr' & _).
    rw Hi in H'. injection H' as <-. rw Hr' in Hri. simpl in E.
    destruct (decide (j = i)) as [->|Hne].
    + rw lookup_alter_eq Hj in E. injection E as <-. simpl in Hri. congruence.
    + rw lookup_alter_ne // in E. destruct (Hshrink i) as [?|?]; [by eapply Hl|done|done].
Qed.

Lemma wakes_remove j g : wakes g (removeWaiterLocked j g).
Proof.
  rw /removeWaiterLocked. destruct (waiters g !! j) as [e|] eqn:Hj; [|done].
  destruct (removed e) eqn:Hr; [done|].
  set (g1 := g <| waiters ::= alter (λ e, e <| removed := true |>) j |>).
  set (g2 := releaseRequestLocked _ g1).
  assert (wakes g g2) as H2.
  { etrans; [|apply wakes_quiet, quiet_release]. apply wakes_alter. intros e0. by split_and!. }
  destruct (indexOfLocked g j) as [index|] eqn:Hidx; (etrans; [exact H2|]); [|apply wakes_signal].
  apply (wakes_shrink g2 j index (e <| removed := true |>)); [done| |done].
  by rw /= lookup_alter_eq Hj.
Qed.

(** ** Closing, starting, entering *)

Lemma wakes_busy g g' :
  (readings g ≤ readings g')%nat → queue g' = queue g → waiters g' = waiters g →
  inFlight g' = true → wakes g g'.
Proof.
  intros Hr Hq Hw Hi. split; [done| | |rw Hq; by left].
  - intros j e He. exists e. rw Hw Hq. split_and!; [done..|]. intros _ Hj. split; [done|by left].
  - intros Hl j e. rw Hw Hq. apply Hl.
Qed.

Lemma close_lookup ws g j e :
  let close g w := signalLocked w
    (g <| waiters ::= alter (λ entry, entry <| removed := true |>) w |>) in
  waiters g !! j = Some e →
  ∃ e', waiters (foldl close g ws) !! j = Some e' ∧ (notify e ≤ notify e')%nat
    ∧ checking e' = checking e ∧ (j ∈ ws → (notify e < notify e')%nat ∧ removed e' = true)
    ∧ (removed e' = false → removed e = false).
Proof.
  intros close. revert g e. induction ws as [|w ws IH]; intros g e He; simpl.
  { exists e. split_and!; try done. set_solver. }
  destruct (decide (w = j)) as [->|Hne].
  - destruct (IH (close g j) (e <| removed := true |> <| notify ::= S |>))
      as (e' & ? & ? & ? & Hq & Hr).
    { by rw /= !lookup_alter_eq He. }
    exists e'. simpl in *. split_and!; try done; [lia| |].
    + intros _. destruct (removed e') eqn:E; [split; [lia|done]|by specialize (Hr eq_refl)].
    + intros Hf. by specialize (Hr Hf).
  - destruct (IH (close g w) e) as (e' & ? & ? & ? & Hq & Hr).
    { by rw /= !lookup_alter_ne. }
    exists e'. split_and!; try done. intros [?|?]%elem_of_cons; [done|auto].
Qed.

Lemma close_lookup_None ws g j :
  let close g w := signalLocked w
    (g <| waiters ::= alter (λ entry, entry <| removed := true |>) w |>) in
  waiters g !! j = None → waiters (foldl close g ws) !! j = None ∧ readings (foldl close g ws) = readings g.
Proof.
  intros close. revert g. induction ws as [|w ws IH]; intros g He; simpl; [done|].
  destruct (IH (close g w)) as [-> ->]; [|done]. simpl.
  destruct (decide (w = j)) as [->|?]; [by rw !lookup_alter_eq He|by rw !lookup_alter_ne].
Qed.

Lemma wakes_Close g : wakes g (Close g).
Proof.
  rw /Close. destruct (closed g); [done|].
  set (g0 := g <| closed := true |>).
  assert (∀ j e, waiters g !! j = Some e → waiters g0 !! j = Some e) as H0 by done.
  split.
  - simpl. destruct (close_lookup_None (queue g) g0 (fresh (dom (waiters g)))) as [_ ->]; [|done].
    simpl. apply not_elem_of_dom, is_fresh.
  - intros j e He. destruct (close_lookup (queue g) g0 j e (H0 _ _ He)) as (e' & ? & ? & Hc & Hq & _).
    exists e'. simpl. split_and!; [done|done|by rw Hc|]. intros Heq Hj.
    destruct (Hq Hj). lia.
  - intros Hl j e' He' Hr. simpl in He'. exfalso.
    destruct (waiters g !! j) as [e|] eqn:E.
    + destruct (close_lookup (queue g) g0 j e (H0 _ _ E)) as (e2 & H2 & _ & _ & Hq & Hrr).
      rw He' in H2. injection H2 as <-. destruct Hq as [_ ?]; [|congruence].
      apply (Hl j e); auto.
    + destruct (close_lookup_None (queue g) g0 j) as [Hn _]; [done|]. by rw Hn in He'.
  - simpl. set_solver.
Qed.

(** A new waiter at the tail gives no earlier waiter a turn it did not have. *)
Lemma eligible_snoc g g' j w :
  queue g' = queue g ++ [w] → (∀ i, i ∈ queue g → waiter_task g' i = waiter_task g i) →
  currentTask g' = currentTask g → consecutiveTurns g' = consecutiveTurns g →
  config g' = config g → j ∈ queue g → eligible g' j → eligible g j.
Proof.
  intros Hq Hw Hc Ht Hcfg Hj. destruct (indexOf_queued g j Hj) as (k & Hk & Hlt).
  assert (indexOfLocked g' j = Some k) as Hk'.
  { rw /indexOfLocked Hq index_where_app. rw /indexOfLocked in Hk. by rw Hk. }
  rw /eligible Hk Hk' /eligibleIndexLocked Hq Hc Ht Hcfg.
  destruct (queue g) as [|w0 ws] eqn:E; [set_solver|]. rw -E in Hw Hlt |- *.
  assert (∃ w1 ws1, queue g ++ [w] = w1 :: ws1) as (w1 & ws1 & E1) by (rw E; by eexists _, _).
  rw E1 -E1. case_match; [|done].
  rw index_where_app (index_where_ext _ (λ w, negb (String.eqb (waiter_task g w) (currentTask g)))).
  { intros i Hi. by rw Hw. }
  destruct (index_where _ _ _) as [k1|]; [done|]. simpl. case_match eqn:H0; [|done].
  intros [= <-]. revert H0. case_match; [|done]. intros [= Heq]. lia.
Qed.

Lemma wakes_enter g request id :
  let w := fresh (dom (waiters g)) in
  let entry := {| w_request := request; notify := 0; checking := false; removed := false |} in
  queue_known g → wakes g ((reserveRequestLocked id (g <| waiters ::= <[w := entry]> |>))
    <| queue ::= (λ ws, ws ++ [w]) |>).
Proof.
  intros w entry Hknown. assert (waiters g !! w = None) as Hfresh by apply not_elem_of_dom, is_fresh.
  assert (∀ i e, waiters g !! i = Some e → <[w := entry]> (waiters g) !! i = Some e) as Hold.
  { intros i e Hi. rw lookup_insert_ne //. intros <-. congruence. }
  split; [done| | |]; simpl.
  3: { intros i [Hi|Hi]%elem_of_app; [by left|]. apply list_elem_of_singleton in Hi as ->.
       right. by rw lookup_insert_eq. }
  - intros j e He. exists e. split_and!; [by apply Hold|done|done|]. intros _ Hj.
    split; [set_solver|]. intros [?|Hne]; [by left|right]. intros He'. apply Hne. revert He'.
    apply (eligible_snoc _ _ _ w); try done. intros i [e1 Hi]%Hknown. rw /waiter_task /= Hi. by rw (Hold _ _ Hi).
  - intros Hl j e Hj Hr. apply elem_of_app. destruct (decide (w = j)) as [<-|Hne]; [set_solver|].
    left. rw lookup_insert_ne // in Hj. by eapply Hl.
Qed.

(** ** Methods *)

Definition wakeful {A} : Time → M A → Prop := keeps wakes.

Lemma wakeful_bind {A B} t (m : M A) (k : A → M B) :
  wakeful t m → (∀ a, wakeful t (k a)) → wakeful t (x ← m; k x).
Proof. apply keeps_bind; [apply _|apply wk_readings]. Qed.

Lemma wakeful_Now {B} t (k : Time → M B) :
  (∀ now, t ≤ now → wakeful now (k now)) → wakeful t (x ← Now; k x).
Proof. apply keeps_Now; [apply _|]. intros g. apply wakes_quiet, quiet_tick. Qed.

Lemma wakeful_modify t (f : Governor → Governor) :
  (∀ g, t ≤ clock (readings g) → wakes g (f g)) → wakeful t (modify f).
Proof. done. Qed.

Lemma wakeful_quietly {A} t (m : M A) : quietly t m → wakeful t m.
Proof. intros Hm g Hg. by apply wakes_quiet, Hm. Qed.

Lemma wakeful_grant t request healthy : wakeful t (grantLocked request healthy).
Proof. intros g _. apply wakes_occupy. Qed.

Lemma wakes_checking w g :
  wakes g (g <| waiters ::= alter (λ e, e <| checking := false |>) w |>).
Proof. apply wakes_alter. intros e. by split_and!. Qed.
End wakes.

Ltac wake_step :=
  lazymatch goal with
  | |- wakeful _ (mbind _ Now) => apply wakeful_Now; intros ? ?
  | |- wakeful _ (mbind _ (modify _)) => apply wakeful_bind; [apply wakeful_modify; intros|intros ?]
  | |- wakeful _ (mbind _ (grantLocked _ _)) => apply wakeful_bind; [apply wakeful_grant|intros ?]
  | |- wakeful _ (mbind _ _) => apply wakeful_bind; [|intros ?]
  | |- wakeful _ (modify _) => apply wakeful_modify; intros
  | |- wakeful _ (match _ with _ => _ end) => case_match
  | |- wakeful _ _ => apply wakeful_quietly; solve [quiet_auto]
  | |- wakes _ (removeWaiterLocked _ _) => apply wakes_remove
  | |- wakes _ (upd (alter _ _) _) => apply wakes_checking
  | |- wakes _ _ => apply wakes_quiet; solve [quiet_auto]
  end.
Ltac wake_auto := repeat wake_step.

Section methods.
Context {MO : MapOrder} {EV : Env} {MC : MonotoneClock}.

Lemma wakeful_admit_grant t request healthy : wakeful t (admit_grant request healthy).
Proof. rw /admit_grant. wake_auto. Qed.

Lemma wakeful_tryAdmit t ctx request snapshot healthy :
  wakeful t (tryAdmit_decide ctx request snapshot healthy).
Proof. rw /tryAdmit_decide. repeat first [wake_step|apply wakeful_admit_grant]. Qed.

Lemma wakeful_validate t ctx request w : wakeful t (queue_validate ctx request w).
Proof. rw /queue_validate. wake_auto. Qed.

Lemma wakeful_abandon t ctx request healthy w : wakeful t (queue_abandon ctx request healthy w).
Proof. rw /queue_abandon. wake_auto. Qed.

(** The part of [queue_decide] after the checking flag is cleared. *)
Lemma wakes_decide ctx request snapshot healthy now w g :
  now ≤ clock (readings g) →
  wakes (g <| waiters ::= alter (λ e, e <| checking := false |>) w |>)
    (queue_decide ctx request snapshot healthy now w g).2.
Proof.
  intros Hnow. rw /queue_decide /queue_check bind_run /=.
  set (g0 := upd _ g). assert (now ≤ clock (readings g0)) as Hnow0 by done.
  match goal with |- wakes g0 (?m g0).2 =>
    enough (wakeful (clock (readings g0)) m) as Hm by by apply Hm end.
  repeat first [wake_step|apply wakeful_admit_grant].
Qed.

Lemma wakes_queue_enter request g :
  queue_known g →
  wakes g (queue_enter request g).2
  ∧ ∀ i, (queue_enter request g).1 = inr i →
    waiters g !! i = None ∧ ∃ e, waiters (queue_enter request g).2 !! i = Some e ∧ checking e = false.
Proof.
  intros Hk. rw /queue_enter bind_run /=. destruct (closed g); [by split|].
  rw bind_run. set (g1 := (requestSeenLocked (ClientRequestID request) g).2).
  assert (quiet g g1) as Hq1 by by apply (quietly_requestSeen (clock (readings g))).
  destruct (requestSeenLocked _ g).1; cbn.
  { rw bind_run. split; [|done]. apply wakes_quiet. etrans; [exact Hq1|].
    by apply (quietly_emitAdmission (clock (readings g1))). }
  rw bind_run /=. case_match.
  { rw bind_run. split; [|done]. apply wakes_quiet. etrans; [exact Hq1|].
    by apply (quietly_emitAdmission (clock (readings g1))). }
  rw !bind_run /=. split.
  - etrans; [by apply wakes_quiet|]. apply (wakes_enter g1 request).
    intros i. rw (quiet_queue _ _ Hq1) (quiet_waiters _ _ Hq1). apply Hk.
  - intros i [= <-]. split; [apply not_elem_of_dom, is_fresh|].
    eexists. by rw lookup_insert_eq.
Qed.

(** What a turn does, case by case. *)
Lemma queue_turn_cases ctx w g :
  match queue_turn ctx w g with
  | (QReturn _, g') => wakes g g'
  | (QWait channel until, g') => g' = g ∧ channel = notify (waiter_of g w) ∧ until = zeroTime
    ∧ removed (waiter_of g w) = false ∧ (checking (waiter_of g w) = true ∨ ¬ eligible g w)
  | (QReadTelemetry, g') =>
    g' = g <| waiters ::= alter (λ e, e <| checking := true |>) w |>
  end.
Proof.
  rw /queue_turn bind_run /= bind_run /=. destruct (removed (waiter_of g w)) eqn:Hr.
  { cbn. reflexivity. }
  destruct (closed g); [rw bind_run /=; apply wakes_remove|].
  rw bind_run /=. case_bool_decide as He; simpl.
  - destruct (checking (waiter_of g w)) eqn:Hc; [split_and!; auto|by rw bind_run].
  - split_and!; auto.
Qed.

(** A check that defers without an instant found the lane occupied. *)
Lemma check_untimed now g :
  zeroTime < now →
  (∀ c, check_lane now g = Some c → delayed c = true → until c = zeroTime → inFlight g = true)
  ∧ (∀ c, check_allowance now g = Some c → delayed c = true → until c ≠ zeroTime)
  ∧ (∀ c, check_rolling now g = Some c → delayed c = true → until c ≠ zeroTime)
  ∧ (∀ c, check_pacing now g = Some c → delayed c = true → until c ≠ zeroTime).
Proof.
  intros Hnow. rw /check_lane /check_allowance /check_rolling /check_pacing.
  split_and!; intros c Hc Hd Hu; repeat (case_match; simplify_eq/=; try done); time_spec;
    unfold zeroTime in *; lia || congruence.
Qed.

Lemma checkLocked_untimed now request g :
  zeroTime < now → let check := (checkLocked now request g).1 in
  ck_code check ≠ None → delayed check = true → until check = zeroTime → inFlight g = true.
Proof.
  intros Hnow check. rw /check /checkLocked bind_run.
  change (inFlight g) with (inFlight (expireLocked now g)).
  change ((modify (expireLocked now) g).2) with (expireLocked now g).
  generalize (expireLocked now g). intros g0. rw bind_run /=.
  destruct (check_untimed now g0 Hnow) as (Hl & _).
  destruct (check_lane now g0) as [c|]; [intros _ Hd Hu; by apply (Hl c)|].
  rw bind_run [(modify _ _).2]/=. generalize (if bool_decide (cd_state (circuit g0) = CircuitOpenUntil)
    then transitionCircuitLocked CircuitClosed OutcomeUnset zeroTime g0 else g0). intros g1.
  rw bind_run /=. destruct (check_untimed now g1 Hnow) as (_ & Ha & _).
  destruct (check_allowance now g1) as [c|]; [intros _ Hd Hu; exfalso; by apply (Ha c)|].
  rw bind_run. generalize (taskLocked (TaskID request) g1). intros [st g2]. rw !bind_run /=.
  destruct (check_untimed now g2 Hnow) as (_ & _ & Hr & Hp).
  case_match; [done|]. case_match; [done|]. rw bind_run /=.
  destruct (check_rolling now g2) as [c|]; [intros _ Hd Hu; exfalso; by apply (Hr c)|].
  rw bind_run /=. destruct (check_pacing now g2) as [c|]; [|done].
  intros _ Hd Hu. exfalso. by apply (Hp c).
Qed.

(** A method that ends in a wait left the queue alone, the channel is the
    waiter's current one, and the wait has an excuse when it sets no timer. *)
Definition waits_well (w : nat) (t : Time) (m : M QueueStep) : Prop :=
  ∀ g, t ≤ clock (readings g) → match (m g).1 with
  | QWait channel until => quiet g (m g).2
    ∧ channel = notify (waiter_of g w) ∧ (until = zeroTime → inFlight g = true)
  | _ => True
  end.

Lemma waits_bind {B} w t (m : M B) (k : B → M QueueStep) :
  quietly t m → (∀ b, waits_well w t (k b)) → waits_well w t (x ← m; k x).
Proof.
  intros Hm Hk g Hg. rw bind_run. specialize (Hm g Hg). set (b := (m g).1).
  set (g1 := (m g).2) in *. clearbody b g1.
  assert (t ≤ clock (readings g1)) as Hg1.
  { etrans; [exact Hg|]. by apply clock_mono, quiet_readings. }
  specialize (Hk b g1 Hg1). destruct (k b g1) as [[] g2]; try done. simpl in *.
  destruct Hk as (Hq & -> & Hi).
  assert (waiter_of g1 w = waiter_of g w) as Hwo by by rw /waiter_of (quiet_waiters _ _ Hm).
  rw Hwo. split_and!; [by etrans|done|].
  by rw -(calm_inFlight _ _ (mild_calm _ _ (quiet_mild _ _ Hm))).
Qed.

Lemma waits_never w t (m : M QueueStep) :
  (∀ g, match (m g).1 with QWait _ _ => False | _ => True end) → waits_well w t m.
Proof. intros Hm g _. specialize (Hm g). by destruct (m g).1. Qed.

Definition never_waits (m : M QueueStep) : Prop :=
  ∀ g, match (m g).1 with QWait _ _ => False | _ => True end.

Lemma never_bind {B} (m : M B) (k : B → M QueueStep) :
  (∀ b, never_waits (k b)) → never_waits (x ← m; k x).
Proof. intros Hk g. rw bind_run. apply Hk. Qed.

Definition deferral (w : nat) (request : AttemptRequest) (code : AdmissionCode)
    (check : admissionCheck) (healthy : bool) : M QueueStep :=
  channel ← gets (λ g, notify (waiter_of g w));
  _ ← delayedLocked request code (until check) healthy;
  mret (QWait channel (until check)).

Lemma deferral_run w request code check healthy g :
  deferral w request code check healthy g =
  (QWait (notify (waiter_of g w)) (until check),
   (delayedLocked request code (until check) healthy g).2).
Proof. rw /deferral bind_run. cbn [gets fst snd]. by rw bind_run. Qed.

Lemma waits_check w t now request (k : admissionCheck → M QueueStep) :
  zeroTime < now → now ≤ t →
  (∀ check, never_waits (k check) ∨ ∃ code healthy, ck_code check = Some code
    ∧ delayed check = true ∧ k check = deferral w request code check healthy) →
  waits_well w t (check ← checkLocked now request; k check).
Proof.
  intros Hpos Hnow Hk g Hg. rw bind_run.
  pose proof (quietly_checkLocked t now request Hnow g Hg) as Hq.
  pose proof (checkLocked_untimed now request g Hpos) as Hun.
  destruct (checkLocked now request g) as [check g1]. cbn [fst snd] in *.
  destruct (Hk check) as [Hn|(code & healthy & Hcode & Hd & ->)].
  { specialize (Hn g1). by destruct (k check g1) as [[] ?]. }
  rw deferral_run. cbn [fst snd]. split_and!.
  - etrans; [exact Hq|]. by apply (quietly_delayed (clock (readings g1))).
  - by rw /waiter_of (quiet_waiters _ _ Hq).
  - intros Hz. apply Hun; [congruence|done|done].
Qed.

Lemma queue_check_waits ctx request snapshot healthy now w t :
  zeroTime < now → now ≤ t → waits_well w t (queue_check ctx request snapshot healthy now w).
Proof.
  intros Hpos Hnow. rw /queue_check. apply waits_bind; [quiet_auto|]. intros _.
  destruct (ctx_Err ctx).
  { apply waits_never. repeat (apply never_bind; intros ?). done. }
  apply waits_check; [done|done|]. intros check.
  destruct (ck_code check) as [code|]; [destruct (delayed check)|].
  - right. by exists code, healthy.
  - left. repeat (apply never_bind; intros ?). done.
  - left. repeat (apply never_bind; intros ?). done.
Qed.

(** A decision that waits found its waiter in the queue, left the queue alone,
    and has a reason to wait when it sets no timer. *)
Lemma queue_decide_wait ctx request snapshot healthy now w g channel t :
  zeroTime < now ≤ clock (readings g) →
  (queue_decide ctx request snapshot healthy now w g).1 = QWait channel t →
  let g0 := g <| waiters ::= alter (λ e, e <| checking := false |>) w |> in
  let g' := (queue_decide ctx request snapshot healthy now w g).2 in
  quiet g0 g' ∧ removed (waiter_of g0 w) = false ∧ channel = notify (waiter_of g0 w)
  ∧ (t = zeroTime → inFlight g0 = true).
Proof.
  intros [Hpos Hnow] Hres g0 g'.
  assert (queue_decide ctx request snapshot healthy now w g
    = (if removed (waiter_of g0 w) then mret (QReturn (result_ AdmissionGovernorClosed
         AdmissionGovernorClosed zeroTime (Some ErrGovernorClosed)))
       else queue_check ctx request snapshot healthy now w) g0) as Hrun.
  { rw /queue_decide bind_run bind_run. reflexivity. }
  rw /g' Hrun. rw Hrun in Hres. destruct (removed (waiter_of g0 w)); [done|].
  assert (now ≤ clock (readings g0)) as Hnow0 by exact Hnow.
  pose proof (queue_check_waits ctx request snapshot healthy now w _ Hpos Hnow0 g0
    (Z.le_refl _)) as Hw.
  rw Hres in Hw. tauto.
Qed.
End methods.

(** ** The world *)

Definition decides (ph : phase) : Prop :=
  match ph with PRead | PDecide _ _ _ => True | _ => False end.

(** What a goroutine in the queue may rely on: its waiter exists, and when it
    sleeps it has been signalled, or it is queued with an excuse. *)
Definition sleeper_ok (g : Governor) (i : nat) (ph : phase) : Prop :=
  ∃ e, waiters g !! i = Some e ∧ (checking e = true → decides ph)
    ∧ match ph with
      | PWait _ channel until => (channel < notify e)%nat
        ∨ (channel = notify e ∧ i ∈ queue g ∧ (until = zeroTime → excused g i))
      | _ => True
      end.

Record wake_inv (w : World) : Prop := {
  wi_queued : queued_live (gov w);
  wi_known : queue_known (gov w);
  wi_calls : ∀ i c, calls w !! i = Some c → sleeper_ok (gov w) i (c_phase c)
}.

Section world.
Context {MO : MapOrder} {EV : Env} {MC : MonotoneClock} {RD : Rendering}.

Lemma sleeper_wakes g g' i ph : wakes g g' → sleeper_ok g i ph → sleeper_ok g' i ph.
Proof.
  intros Hw (e & He & Hc & Hp). destruct (wk_waiters _ _ Hw i e He) as (e' & He' & Hn & Hc' & Hk).
  exists e'. split_and!; [done|auto|]. destruct ph; try done.
  destruct Hp as [?|(-> & Hi & Hx)]; [left; lia|].
  destruct (decide (notify e' = notify e)) as [Heq|]; [|left; lia].
  right. destruct (Hk Heq Hi). split_and!; auto.
Qed.

(** A goroutine that is not deciding may move to any phase that does not sleep. *)
Lemma sleeper_moves g i ph ph' :
  ¬ decides ph → sleeper_ok g i ph →
  match ph' with PWait _ _ _ => False | _ => True end → sleeper_ok g i ph'.
Proof.
  intros Hnd (e & He & Hc & _) Hp. exists e. split_and!; [done|intros H; by apply Hc in H|].
  by destruct ph'.
Qed.

Lemma queue_known_wakes g g' : wakes g g' → queue_known g → queue_known g'.
Proof.
  intros Hw Hk i [[e He]%Hk|?]%(wk_known _ _ Hw); [|done].
  destruct (wk_waiters _ _ Hw i e He) as (e' & ? & _). by exists e'.
Qed.

(** A step that satisfies [wakes] and moves only the call [i]. *)
Lemma wake_inv_step w w' :
  wakes (gov w) (gov w') → wake_inv w →
  (∀ j c, calls w' !! j = Some c → calls w !! j = Some c ∨ sleeper_ok (gov w') j (c_phase c)) →
  wake_inv w'.
Proof.
  intros Hw [Hq Hk Hc] Hcalls. split; [by apply (wk_queued _ _ Hw)|by eapply queue_known_wakes|].
  intros j c [Hj|?]%Hcalls; [|done]. by eapply sleeper_wakes, Hc.
Qed.

Lemma initial_wake_inv g ts : queue g = [] → waiters g = ∅ → wake_inv (initial g ts).
Proof.
  intros Hq Hw. split; simpl.
  - intros j e. by rw Hw.
  - intros i. rw Hq. set_solver.
  - done.
Qed.

Lemma calls_set_phase i ph w j c :
  calls (set_phase i ph w) !! j = Some c →
  (j = i ∧ c_phase c = ph ∧ is_Some (calls w !! i)) ∨ (j ≠ i ∧ calls w !! j = Some c).
Proof.
  rw /set_phase /=. destruct (decide (i = j)) as [->|].
  - rw lookup_alter_eq. destruct (calls w !! j); [|done]. intros [= <-]. left. by split_and!.
  - rw lookup_alter_ne //. right. split; [congruence|done].
Qed.

(** Set the phase of [i] after a step of its goroutine. *)
Lemma wake_inv_phase i ph w w1 :
  wakes (gov w) (gov w1) → calls w1 = calls w → wake_inv w →
  (is_Some (calls w !! i) → sleeper_ok (gov w1) i ph) → wake_inv (set_phase i ph w1).
Proof.
  intros Hw Hc Hi Hph. apply (wake_inv_step w); [done|done|]. intros j c Hj.
  apply calls_set_phase in Hj as [(-> & -> & Hs)|[_ Hj]]; [right|left; by rw -Hc].
  apply Hph. by rw -Hc.
Qed.

Lemma wake_inv_same w w1 : wakes (gov w) (gov w1) → calls w1 = calls w → wake_inv w → wake_inv w1.
Proof. intros Hw Hc Hi. apply (wake_inv_step w); [done|done|]. rw Hc. by left. Qed.

(** *** Permits *)

Lemma run_permit_wakes {A} (m : Permit → M (A * Permit)) h w w' :
  (∀ p, wakes (gov w) (m p (gov w)).2) → run_permit m h w = Some w' → wake_inv w → wake_inv w'.
Proof.
  intros Hm (p & _ & ->)%run_permit_inv. apply wake_inv_same; [apply Hm|done].
Qed.

Lemma wakes_Permit_start aware p g : wakes g (Permit_start aware p g).2.
Proof.
  destruct (start_ready p g) eqn:Hr.
  - destruct (start_accepted aware p g Hr) as (_ & g1 & g2 & H1 & H2 & H3).
    pose proof (start_effects aware p _ _ _ _ H1 H2 H3) as [Hc _ _ Hq Hw _ _ _ _ _].
    rw /start_ready in Hr. apply andb_true_iff in Hr as [_ Hi].
    apply wakes_busy; [apply Hc|done|done|]. by rw (calm_inFlight _ _ Hc).
  - by destruct (start_refused aware p g Hr) as (-> & _).
Qed.

Lemma wakes_cancel_before p g : wakes g (CancelBeforeStart p g).2.
Proof.
  pose proof (cancel_before_spec p g) as H. destruct (pending p).
  - apply wakes_ended, ended_serene, H.
  - by destruct H as [e ->].
Qed.

Lemma wakes_cancel_after p g : wakes g (CancelAfterStart p g).2.
Proof.
  pose proof (cancel_after_spec p g) as H. destruct (running p).
  - apply wakes_ended, ended_serene, H.
  - by destruct H as [e ->].
Qed.

Lemma wakes_finish p outcome g : wakes g (Finish p outcome g).2.
Proof.
  pose proof (finish_spec p outcome g) as H. destruct (_ && _).
  - apply wakes_ended, ended_serene, H.
  - by destruct H as [e ->].
Qed.

Lemma wakes_receipts p outcome set g : wakes g (FinishWithAttemptReceipts p outcome set g).2.
Proof.
  pose proof (receipts_spec p outcome set g) as H. destruct (_ && _).
  - apply wakes_ended, H.
  - by destruct H as [e ->].
Qed.

(** *** The queue *)

Lemma wake_inv_enter request w w' :
  run (LQueueEnter request) w = Some w' → wake_inv w → wake_inv w'.
Proof.
  simpl. intros [= <-] Hi. destruct (wakes_queue_enter request (gov w) (wi_known _ Hi)) as [Hw Hnew].
  destruct (queue_enter request (gov w)) as [[r|i] g1]; simpl in *; [by apply (wake_inv_same w)|].
  apply (wake_inv_step w); [done|done|]. simpl. intros j c [[<- <-]|[_ Hj]]%lookup_insert_Some; [|by left].
  right. destruct (Hnew _ eq_refl) as (_ & e & He & Hck). exists e. by rw Hck.
Qed.

Lemma checking_off g g' w :
  let g0 := g <| waiters ::= alter (λ e, e <| checking := false |>) w |> in
  wakes g0 g' → is_Some (waiters g !! w) → ∃ e, waiters g' !! w = Some e ∧ checking e = false.
Proof.
  intros g0 Hw [e He].
  destruct (wk_waiters _ _ Hw w (e <| checking := false |>)) as (e' & He' & _ & Hc & _).
  { by rw /= lookup_alter_eq He. }
  exists e'. split; [done|]. destruct (checking e'); [by specialize (Hc eq_refl)|done].
Qed.

Lemma wake_inv_decide i ctx w w' :
  phases_ok w → run (LDecide i ctx) w = Some w' → wake_inv w → wake_inv w'.
Proof.
  intros Hph Hl Hi. simpl in Hl. apply bind_Some in Hl as (c & Hc & Hl).
  destruct (c_phase c) as [| | |snapshot healthy now| |] eqn:Hp; try done.
  rw /run_grant in Hl. injection Hl as <-.
  pose proof (Hph _ _ _ _ _ Hc Hp) as Hnow.
  pose proof (wakes_decide ctx (c_request c) snapshot healthy now i (gov w) (proj2 Hnow)) as Hw0.
  pose proof (queue_decide_wait ctx (c_request c) snapshot healthy now i (gov w)) as Hwait.
  destruct (queue_decide ctx (c_request c) snapshot healthy now i (gov w)) as [s g1]. simpl in *.
  assert (wakes (gov w) g1) as Hw by (etrans; [apply wakes_checking|exact Hw0]).
  rw /after_step. eapply wake_inv_phase; [exact Hw|done|done|]. intros _. simpl.
  destruct (wi_calls _ Hi _ _ Hc) as (e & He & _ & _).
  destruct (checking_off (gov w) g1 i Hw0) as (e1 & He1 & Hck); [by eexists|].
  destruct s as [r|channel t|]; try (exists e1; by rw Hck).
  destruct (Hwait channel t Hnow eq_refl) as (Hq & Hrm & -> & Hun).
  assert (waiters g1 !! i = Some (e <| checking := false |>)) as He1'.
  { by rw (quiet_waiters _ _ Hq) /= lookup_alter_eq He. }
  rw He1 in He1'. injection He1' as ->. exists (e <| checking := false |>).
  split_and!; [done|done|]. right. rw /waiter_of /= lookup_alter_eq He /= in Hrm |- *.
  split_and!; [done| |].
  - apply (wk_queued _ _ Hw (wi_queued _ Hi) _ _ He1). done.
  - intros Hz. left. rw (calm_inFlight _ _ (mild_calm _ _ (quiet_mild _ _ Hq))). by apply Hun.
Qed.

(** The waiter whose turn it is starts checking; nobody else is affected. *)
Lemma wake_inv_checking i w :
  wake_inv w →
  wake_inv (set_phase i PRead (w <| gov := (gov w) <| waiters ::=
    alter (λ e, e <| checking := true |>) i |> |>)).
Proof.
  intros [Hq Hk Hc]. split; simpl.
  - intros j e. destruct (decide (i = j)) as [->|].
    + rw /= lookup_alter_eq. destruct (waiters (gov w) !! j) eqn:E; [|done]. intros [= <-].
      exact (Hq _ _ E).
    + rw /= lookup_alter_ne //. apply Hq.
  - intros j [e He]%Hk. simpl. destruct (decide (i = j)) as [->|].
    + rw lookup_alter_eq He. by eexists.
    + rw lookup_alter_ne // He.
  - intros j c [(-> & -> & [c0 Hc0])|[Hne Hj]]%(calls_set_phase i PRead).
    + destruct (Hc _ _ Hc0) as (e & He & _). exists (e <| checking := true |>).
      split; [by rw /= lookup_alter_eq He|done].
    + destruct (Hc _ _ Hj) as (e & He & Hck & Hp). exists e.
      split_and!; [by rw /= lookup_alter_ne|done|]. destruct (c_phase c); try done.
      destruct Hp as [?|(-> & Hin & Hx)]; [by left|right]. split_and!; [done|done|].
      intros Hz. eapply excused_same; [..|by apply Hx]; try done.
      intros v. by apply waiter_task_alter.
Qed.

Lemma wake_inv_turn i ctx w w' :
  run (LTurn i ctx) w = Some w' → wake_inv w → wake_inv w'.
Proof.
  intros Hl Hi. simpl in Hl. apply bind_Some in Hl as (c & Hc & Hl).
  destruct (c_phase c) eqn:Hp; try done. rw /run_plain in Hl. injection Hl as <-.
  pose proof (queue_turn_cases ctx i (gov w)) as Hcases.
  pose proof (wi_calls _ Hi _ _ Hc) as Hs. rw Hp in Hs.
  destruct (queue_turn ctx i (gov w)) as [s g1]. simpl in *. rw /after_step.
  destruct s as [r|channel t|].
  - apply (wake_inv_phase _ _ w); [done|done|done|]. intros _.
    apply (sleeper_moves _ _ PTurn); [by intros []|by eapply sleeper_wakes|done].
  - destruct Hcases as (-> & -> & -> & Hrm & Hex). apply (wake_inv_phase _ _ w); [done|done|done|].
    intros _. destruct Hs as (e & He & Hck & _). rw /waiter_of He /= in Hrm Hex |- *.
    assert (checking e ≠ true) as Hnc by by intros ?%Hck.
    exists e. split_and!; [done|by intros ?|]. right. split_and!; [done|by eapply wi_queued|].
    intros _. right. by destruct Hex.
  - subst g1. by apply wake_inv_checking.
Qed.

(** A step of the goroutine [i] that was not deciding and does not sleep after. *)
Lemma wake_inv_moves i c ph w w1 :
  calls w !! i = Some c → ¬ decides (c_phase c) → wakes (gov w) (gov w1) → calls w1 = calls w →
  match ph with PWait _ _ _ => False | _ => True end →
  wake_inv w → wake_inv (set_phase i ph w1).
Proof.
  intros Hc Hnd Hw Hcalls Hph Hi. apply (wake_inv_phase _ _ w); [done..|]. intros _.
  eapply (sleeper_moves _ _ (c_phase c)); [done| |done]. eapply sleeper_wakes; [done|].
  by eapply wi_calls.
Qed.

Lemma wake_inv_read i snapshot healthy w w' :
  run (LRead i snapshot healthy) w = Some w' → wake_inv w → wake_inv w'.
Proof.
  intros Hl Hi. simpl in Hl. apply bind_Some in Hl as (c & Hc & Hl).
  destruct (c_phase c) eqn:Hp; try done. rw /run_plain in Hl. injection Hl as <-.
  assert (wakes (gov w) ((gov w) <| readings ::= S |>)) as Hw by apply wakes_quiet, quiet_tick.
  apply (wake_inv_phase _ _ w); [done..|]. intros _.
  pose proof (wi_calls _ Hi _ _ Hc) as Hs. destruct (sleeper_wakes _ _ _ _ Hw Hs) as (e & He & _).
  by exists e.
Qed.

Lemma step_wake_inv w w' : phases_ok w → step w w' → wake_inv w → wake_inv w'.
Proof.
  intros Hph [l Hl] Hi. destruct l;
    try first [by eapply wake_inv_enter | by eapply wake_inv_turn | by eapply wake_inv_decide
      | by eapply wake_inv_read];
    simpl in Hl; unfold run_plain, run_grant in Hl.
  - injection Hl as <-. apply (wake_inv_same w); [|done..].
    by apply wakes_quiet, (quietly_try_gate (clock (readings (gov w)))).
  - injection Hl as <-. apply (wake_inv_same w); [|done..].
    by apply (wakeful_tryAdmit (clock (readings (gov w)))).
  - apply bind_Some in Hl as (c & Hc & Hl). destruct (c_phase c) eqn:Hp; try done.
    injection Hl as <-. eapply wake_inv_moves; try done; [by (rw Hp; intros [])| |by destruct (queue_validate _ _ _ _).1].
    by apply (wakeful_validate (clock (readings (gov w)))).
  - apply bind_Some in Hl as (c & Hc & Hl). destruct (c_phase c) eqn:Hp; try done.
    case_match; [|done]. injection Hl as <-.
    eapply wake_inv_moves; [done|by (rw Hp; intros [])|reflexivity|done..].
  - injection Hl as <-. apply (wake_inv_same w); [|done..]. apply wakes_quiet, quiet_tick.
  - apply bind_Some in Hl as (c & Hc & Hl). destruct (c_phase c) eqn:Hp; try done.
    injection Hl as <-. eapply wake_inv_moves; try done; [by (rw Hp; intros [])|].
    by apply (wakeful_abandon (clock (readings (gov w)))).
  - apply bind_Some in Hl as (w1 & Hl & [= <-]).
    eapply (wake_inv_same w1); [rw /charged; by case_match|rw /charged; by case_match|].
    eapply run_permit_wakes; [|done|done]. intros p. apply wakes_Permit_start.
  - eapply run_permit_wakes; [|done|done]. intros p. apply wakes_cancel_before.
  - eapply run_permit_wakes; [|done|done]. intros p. apply wakes_cancel_after.
  - eapply run_permit_wakes; [|done|done]. intros p. apply wakes_finish.
  - eapply run_permit_wakes; [|done|done]. intros p. apply wakes_receipts.
  - injection Hl as <-. apply (wake_inv_same w); [|by case_match|done].
    apply wakes_quiet. case_match; apply quiet_begin_refresh.
  - apply bind_Some in Hl as (p & _ & [= <-]). apply (wake_inv_same w); [|done..].
    apply wakes_quiet, quiet_finish_refresh.
  - injection Hl as <-. apply (wake_inv_same w); [|done..]. apply wakes_quiet, quiet_acknowledge.
  - injection Hl as <-. apply (wake_inv_same w); [|done..]. apply wakes_Close.
  - injection Hl as <-. apply (wake_inv_same w); [|done..].
    by apply wakes_quiet, (quietly_persist (clock (readings (gov w)))).
  - injection Hl as <-. apply (wake_inv_same w); [|done..].
    by apply wakes_quiet, (quietly_snapshot (clock (readings (gov w)))).
  - injection Hl as <-. apply (wake_inv_same w); [|done..]. apply wakes_quiet, quiet_drain_begin.
  - injection Hl as <-. apply (wake_inv_same w); [|done..]. apply wakes_quiet, quiet_drain_take.
Qed.

(** C10: no lost wakeup.  In every reachable world, a goroutine that sleeps in
    the admission queue without a timer, while the lane is free and it is its
    turn, has been signalled: its wait is over and it can go on. *)
Theorem no_lost_wakeup g ts w i request healthy channel :
  queue g = [] → waiters g = ∅ → rtc step (initial g ts) w →
  calls w !! i = Some {| c_request := request; c_phase := PWait healthy channel zeroTime |} →
  inFlight (gov w) = false → eligible (gov w) i →
  run (LWake i) w = Some (set_phase i PTop w).
Proof.
  intros Hq Hw Hr Hc Hf He.
  assert (wake_inv w) as Hi.
  { revert w Hr Hc Hf He. enough (∀ w, rtc step (initial g ts) w → phases_ok w ∧ wake_inv w) as H
      by (intros w Hr _ _ _; by apply H).
    apply rtc_ind_r; [split; [apply initial_phases_ok|by apply initial_wake_inv]|].
    intros w w' _ Hs [Hph Hi]. split; [by eapply step_phases_ok|by eapply step_wake_inv]. }
  destruct (wi_calls _ Hi _ _ Hc) as (e & Hwe & _ & Hp). simpl in Hp.
  rw /= Hc /= /wait_over /waiter_of Hwe /=. destruct Hp as [Hlt|(_ & _ & Hex)].
  - by rw (proj2 (Nat.ltb_lt _ _) Hlt).
  - destruct (Hex eq_refl) as [?|?]; [congruence|done].
Qed.
End world.
