(* ===== verification/Scenarios.v ===== *)
(** * Concrete runs

    A small configuration, a clock that ticks once per reading, and the runs
    the examples of the other files are checked on.  Every theorem with
    hypotheses is applied here to a run that satisfies them. *)

From S2P Require Import Prelude GoTime Provider Receipts GovTypes Ledger GovState Circuit.
From S2P Require Import Admission Permits CircuitLaws Persist Frames Admissible Grants.
From S2P Require Import PermitLaws System Safety PersistLaws Wakeups Execute ExecuteLaws.

Local Open Scope Z_scope.
Local Open Scope runstead_scope.

#[local] Existing Instance canonical_order.
#[local] Existing Instance plain_rendering.

(** ** Running labels *)

(** The world some labels lead to, under any clock, from a governor that starts
    with the attempts [ts] of the past. *)
Section runs.
Context {EV : Env}.

Definition world_from (g : Governor) (ts : list Time) (ls : list label) : World :=
  default (initial g ts) (run_all ls (initial g ts)).

Definition runs_from (g : Governor) (ts : list Time) (ls : list label) : bool :=
  match run_all ls (initial g ts) with Some _ => true | None => false end.

Lemma world_from_reached g ts ls :
  runs_from g ts ls = true → rtc step (initial g ts) (world_from g ts ls).
Proof.
  rw /runs_from /world_from. destruct (run_all ls (initial g ts)) eqn:E; [|done].
  intros _. by eapply run_all_steps.
Qed.

Lemma run_all_snoc ls l w : run_all (ls ++ [l]) w = (w' ← run_all ls w; run l w').
Proof.
  revert w. induction ls as [|l0 ls IH]; intros w; simpl.
  - by destruct (run l w).
  - destruct (run l0 w); [apply IH|done].
Qed.

Lemma world_from_step g ts ls l :
  runs_from g ts (ls ++ [l]) = true → step (world_from g ts ls) (world_from g ts (ls ++ [l])).
Proof.
  rw /runs_from /world_from run_all_snoc.
  destruct (run_all ls _) as [w|]; [|done]. simpl. destruct (run l w) eqn:E; [|done].
  intros _. by exists l.
Qed.
End runs.

(** ** A configuration, a clock and requests *)

Definition day_start : Time := 63900000000 * Second.
Definition day_env : Env := steady day_start.
#[local] Existing Instance day_env.

Definition demo_config : Config :=
  DefaultInstantConfig "account" "provider" "pool" SafeRouteSafety.

Definition demo_request (task id : string) : AttemptRequest := {|
  TaskID := task; WorkUnitID := ""; ClientRequestID := id; ar_ModelPool := "pool"; Retry := false;
  ProviderRequest := {| req_Protocol := ""; req_Prompt := "hello"; req_Model := "";
                        req_ClientRequestID := id |} |}.

Definition live_ctx : Ctx := {| ctx_nil := false; ctx_Err := None; ctx_Deadline := None |}.

Definition demo_governor : Governor := freshGovernor demo_config false true.

Lemma day_monotone : MonotoneClock.
Proof. apply steady_monotone. by vm_compute. Qed.
#[local] Existing Instance day_monotone.

Lemma demo_new (EV : Env) : New demo_config false true None = inr demo_governor.
Proof. by vm_compute. Qed.

Abbreviation world_after g ls := (world_from g [] ls).

(** ** Two attempts, the second one queued while the first holds the lane *)

Definition first_attempt : list label := [
  LTryEnter (demo_request "alpha" "a1");
  LTryDecide live_ctx (demo_request "alpha" "a1") None true;
  LStart 0].

Definition second_waits : list label := [
  LQueueEnter (demo_request "beta" "b1"); LValidate 0 live_ctx; LTurn 0 live_ctx;
  LRead 0 None true; LDecide 0 live_ctx].

Definition success : Outcome := zeroOutcome <| Class := OutcomeSuccess |>
  <| oc_DeliveryState := DeliveryCompleted |> <| UpstreamReached := true |>.

Definition lane_freed : list label := first_attempt ++ second_waits ++ [LFinish 0 success].

Definition second_starts : list label := lane_freed ++ [
  LWake 0; LTick; LTick; LTick; LValidate 0 live_ctx; LTurn 0 live_ctx; LRead 0 None true;
  LDecide 0 live_ctx; LStart 1].

Definition two_attempts : World := world_after demo_governor second_starts.

Lemma two_attempts_reached : rtc step (initial demo_governor []) two_attempts.
Proof. apply world_from_reached. by vm_compute. Qed.

Lemma rolling_budgets_witness :
  map (λ t, (t - day_start) / Second) (starts two_attempts) = [7; 34]
  ∧ within_budget (3 * Hour) 140 (starts two_attempts)
  ∧ within_budget Hour 80 (starts two_attempts)
  ∧ within_budget (10 * Minute) 25 (starts two_attempts).
Proof.
  split; [by vm_compute|].
  exact (rolling_budgets demo_config false true demo_governor two_attempts (demo_new _) eq_refl
    two_attempts_reached ltac:(discriminate)).
Defined.

Lemma starts_paced_witness : paced (5 * Second) (starts two_attempts).
Proof.
  exact (starts_paced demo_config false true demo_governor two_attempts (demo_new _) eq_refl
    two_attempts_reached).
Defined.

Lemma task_budgets_witness :
  attempts (task_of (gov two_attempts) "beta") = 1
  ∧ (0 ≤ attempts (task_of (gov two_attempts) "beta") ≤ 80
     ∧ 0 ≤ retries (task_of (gov two_attempts) "beta") ≤ 2).
Proof.
  split; [by vm_compute|].
  exact (task_budgets demo_config false true demo_governor two_attempts (demo_new _) eq_refl
    two_attempts_reached "beta").
Defined.

Lemma single_lane_witness :
  inFlight (gov two_attempts) = true
  ∧ (∀ h h' p p', live_permit two_attempts h p → live_permit two_attempts h' p' → h = h')
  ∧ (inFlight (gov two_attempts) = true ↔ ∃ h p, live_permit two_attempts h p).
Proof.
  split; [by vm_compute|].
  exact (single_lane demo_governor [] two_attempts eq_refl two_attempts_reached).
Defined.

Lemma step_refines_witness :
  lane_step (world_after demo_governor lane_freed)
    (world_after demo_governor (lane_freed ++ [LWake 0])).
Proof.
  apply (step_refines demo_governor []); [apply world_from_reached; by vm_compute|].
  apply world_from_step. by vm_compute.
Defined.

Lemma no_lost_wakeup_witness :
  let w := world_after demo_governor lane_freed in
  run (LWake 0) w = Some (set_phase 0 PTop w).
Proof.
  apply (no_lost_wakeup demo_governor [] _ 0 (demo_request "beta" "b1") true 0);
    [done|done|apply world_from_reached; by vm_compute|by vm_compute..].
Defined.

(** ** A source that reports another route latches the governor *)

Definition foreign_route : TelemetrySnapshot := {|
  ts_Remaining := None; ts_ResetAt := zeroTime; ts_CooldownUntil := zeroTime; ts_RetryAfter := 0;
  ts_RateLimited := false; ts_CapacityExhausted := false;
  ts_UpstreamCircuit := UpstreamCircuitUnknown; ts_RouteSafety := Some ReceiptRouteSafety |}.

Definition latched : list label := [
  LTryDecide live_ctx (demo_request "alpha" "a1") (Some foreign_route) true].

Definition after_latch : list label := latched ++ [
  LTryDecide live_ctx (demo_request "beta" "b1") None true; LAcknowledge].

Lemma after_latch_steps :
  rtc step (world_after demo_governor latched) (world_after demo_governor after_latch).
Proof.
  etrans; apply rtc_once;
    [apply (world_from_step demo_governor [] latched)
    |apply (world_from_step demo_governor []
       (latched ++ [LTryDecide live_ctx (demo_request "beta" "b1") None true]))]; by vm_compute.
Qed.

Lemma unsafe_latch_witness :
  unsafe (telemetry (gov (world_after demo_governor after_latch))) = true
  ∧ length (permits (world_after demo_governor after_latch))
    = length (permits (world_after demo_governor latched)).
Proof.
  apply (unsafe_latch demo_governor []);
    [apply world_from_reached; by vm_compute|by vm_compute|apply after_latch_steps].
Defined.

(** ** The admission check and the circuit on a fresh governor *)

Lemma checkLocked_admissible_witness :
  ck_code (checkLocked day_start (demo_request "alpha" "a1") demo_governor).1 = None
  ↔ admissible day_start (demo_request "alpha" "a1") (expireLocked day_start demo_governor).
Proof.
  apply (checkLocked_admissible day_start (demo_request "alpha" "a1") demo_governor).
  split; [by vm_compute|intros e He; by apply elem_of_nil in He].
Defined.

Definition rate_limited : Outcome := zeroOutcome <| Class := OutcomeRateCapacity |>.

Definition demo_permit : Permit := {|
  attached := true; request := demo_request "alpha" "a1"; telemetryHealthy := true;
  started := true; completed := false; attemptSequence := 1; receiptAware := false;
  startedAt := day_start |}.

Lemma rate_backoff_witness :
  let r := recordOutcomeLocked day_start demo_permit rate_limited demo_governor in
  fr_SelectedBackoff r.1 = 15 * Second ∧ day_start + 15 * Second ≤ cooldownUntil r.2.
Proof.
  destruct (rate_backoff day_start demo_permit rate_limited demo_governor)
    as (Hsel & _ & _ & _ & Hcd); [by vm_compute|constructor|].
  split; [rw Hsel; by vm_compute|]. apply Hcd. by vm_compute.
Defined.

Lemma rate_circuit_witness :
  let c := circuit (recordOutcomeLocked day_start demo_permit rate_limited demo_governor).2 in
  cd_state c = CircuitClosed ∧ lastRateReset c = zeroTime.
Proof.
  destruct (rate_circuit day_start demo_permit rate_limited demo_governor)
    as (_ & _ & Hsame & Hreset); [by vm_compute|constructor|].
  split; [apply Hsame; [by vm_compute|by intros []]|rw Hreset; by vm_compute].
Defined.

Lemma expire_rate_events_witness :
  expire_rate_events 2 [1; 2; 3; 5] = List.filter (λ t, After t 2) [1; 2; 3; 5].
Proof. apply expire_rate_events_spec. repeat constructor; lia. Defined.

(** ** A restart

    The old process reads a clock that stops after an hour, the new one starts
    there. *)

Definition old_env : Env := {|
  clock := λ n, Z.min (day_start + Z.of_nat n * Second) (day_start + Hour);
  jitter := λ _ base _, base |}.

Definition new_env : Env := steady (day_start + Hour).

Lemma old_monotone : @MonotoneClock old_env.
Proof. split; simpl; rw /day_start /Hour /Minute /Second /zeroTime; lia. Qed.

Lemma new_monotone : @MonotoneClock new_env.
Proof. apply steady_monotone. by vm_compute. Qed.

Lemma new_later i j : @clock old_env i ≤ @clock new_env j.
Proof. simpl. rw /day_start /Hour /Minute /Second. lia. Qed.

Definition old_world : World := @world_from old_env demo_governor [] second_starts.

Definition old_state : PersistedState := (@PersistState _ old_env (gov old_world)).1.

Definition new_governor : Governor := @restored _ new_env demo_config false true old_state.

Definition third_attempt : list label := [
  LTryEnter (demo_request "gamma" "c1");
  LTryDecide live_ctx (demo_request "gamma" "c1") None true;
  LStart 0].

Definition new_world : World :=
  @world_from new_env new_governor (starts old_world) third_attempt.

Lemma budgets_across_restart_witness :
  map (λ t, (t - day_start) / Second) (starts new_world) = [7; 34; 3608]
  ∧ windows_respected (demo_config <| cfg_AllowanceKind := EffectiveAllowanceKind demo_config |>)
      (starts new_world)
  ∧ paced (5 * Second) (starts new_world)
  ∧ ∀ id, attempts (task_of (gov new_world) id) ≤ 80.
Proof.
  split; [by vm_compute|].
  apply (budgets_across_restart old_env new_env old_monotone new_monotone new_later
    demo_config false true demo_governor old_world new_world (demo_new _) eq_refl).
  - apply world_from_reached. by vm_compute.
  - apply world_from_reached. by vm_compute.
Defined.

Lemma old_recorded : recorded (gov old_world).
Proof.
  split.
  - intros e He.
    assert (Forall (λ e, negb (IsZero (at_ e))) (live (ledger (gov old_world)))) as Hall
      by by vm_compute; repeat constructor.
    rw Forall_forall in Hall. specialize (Hall e He). apply negb_True in Hall.
    intros Hz. apply Hall. rw Hz. done.
  - intros k t. by replace (attemptIDs (gov old_world)) with (∅ : gmap string Time) by by vm_compute.
  - by vm_compute.
  - by vm_compute.
Qed.

Lemma restore_persisted_witness :
  let g' := @restored _ new_env demo_config false true (persistedStateLocked (gov old_world)) in
  nextAttempt g' = 3 ∧ live (ledger g') = live (ledger (gov old_world)).
Proof.
  destruct (@restore_persisted _ new_env demo_config false true _ old_recorded)
    as (Hn & _ & _ & _ & _ & Hl & _).
  split; [rw Hn; by vm_compute|exact Hl].
Defined.

Lemma restart_protection_witness :
  let g' := @restored _ new_env demo_config false true (persistedStateLocked (gov old_world)) in
  windows_admit (day_start + 2 * Hour) g' ↔ windows_admit (day_start + 2 * Hour) (gov old_world).
Proof.
  destruct (@restart_protection _ new_env demo_config false true _ (day_start + 2 * Hour)
    old_recorded) as (_ & _ & Hw & _); [by vm_compute|by vm_compute|exact Hw].
Defined.

(** ** A governed execution with a durable intent *)

Definition alone : Surroundings := {|
  look := λ _, live_ctx; source := mret None; waitForChange := λ _ _ _, mret false;
  others := mret tt |}.

Definition silent_store : Persistence := {|
  RecordProviderPrepared := λ _, mret None; RecordProviderFinished := λ _, mret None |}.

Definition silent_client : Client := {|
  cl_RouteSafety := Some SafeRouteSafety; cl_GatewayContractHealth := None;
  cl_AttemptReceiptsEnabled := None; cl_Complete := λ _, mret ({| resp_Text := ""; resp_Metadata := Metadata zeroOutcome |}, None) |}.

Lemma alone_quiet g : quiet g (others alone g).2.
Proof. reflexivity. Qed.

Definition granted : Permit * Governor := grantLocked (demo_request "alpha" "a1") true demo_governor.
Definition granted_permit : Permit := granted.1.
Definition granted_governor : Governor := granted.2.

Lemma intent_is_charged_witness :
  ∃ record err rest,
    (proceed alone (Some silent_store) None live_ctx silent_client (demo_request "alpha" "a1")
       false (unsafe_refusal) granted_permit (granted_governor, [])).2.2
      = Prepared record err :: rest
    ∧ charged_intent granted_permit record
        (clock (readings (PersistState (others alone (Permit_start false granted_permit granted_governor).2).2).2))
    ∧ pp_StartedAt record = clock (readings granted_governor).
Proof.
  destruct (intent_is_charged alone alone_quiet silent_store None live_ctx silent_client (demo_request "alpha" "a1")
    unsafe_refusal granted_permit granted_governor []) as (record & err & rest & He & _ & Hc & Hs); [done|by vm_compute| |].
  - rw /ledger_wf. apply Nat.leb_le. by vm_compute.
  - exists record, err, rest. split; [exact He|]. split; [exact Hc|exact Hs].
Defined.
