(* ===== verification/Text.v ===== *)
(** * Text: splitting, joining, sorting, trimming

    [strings.Split] and [strings.Join] on one byte, [sort.Strings], and texts
    that [strings.TrimSpace] leaves alone. *)

From S2P Require Import Prelude GoTime.
From Stdlib Require Import Ascii.

Local Open Scope runstead_scope.

Lemma app_empty (a : string) : a +:+ "" = a.
Proof. induction a as [|x a IH]; [done|]. by apply (f_equal (String x)). Qed.

Lemma app_assoc_text (a b c : string) : (a +:+ b) +:+ c = a +:+ (b +:+ c).
Proof. induction a as [|x a IH]; [done|]. by apply (f_equal (String x)). Qed.

Lemma length_app_text (a b : string) : String.length (a +:+ b) = (String.length a + String.length b)%nat.
Proof. induction a as [|c a IH]; [done|]. simpl. by rw -IH. Qed.

Section split.
Context (sep : ascii).

(** [cur] is the part read so far, backwards. *)
Fixpoint split_from (cur : list ascii) (s : string) : list string :=
  match s with
  | EmptyString => [String.string_of_list_ascii (reverse cur)]
  | String c s' =>
    if Ascii.eqb c sep then String.string_of_list_ascii (reverse cur) :: split_from [] s'
    else split_from (c :: cur) s'
  end.

(** [strings.Split(s, sep)]. *)
Definition split_on (s : string) : list string := split_from [] s.

(** [strings.Join(parts, sep)]. *)
Definition join_on (parts : list string) : string := String.concat (String sep "") parts.

Fixpoint free_of (s : string) : bool :=
  match s with
  | EmptyString => true
  | String c s' => negb (Ascii.eqb c sep) && free_of s'
  end.

Lemma free_of_list l :
  free_of (String.string_of_list_ascii l) = forallb (λ c, negb (Ascii.eqb c sep)) l.
Proof. induction l as [|c l IH]; simpl; [done|by rw IH]. Qed.

Lemma free_of_app s t : free_of (s +:+ t) = free_of s && free_of t.
Proof. induction s as [|c s IH]; simpl; [done|]. by rw IH andb_assoc. Qed.

Lemma split_parts s cur part :
  forallb (λ c, negb (Ascii.eqb c sep)) cur = true →
  part ∈ split_from cur s → free_of part = true.
Proof.
  assert (∀ l, forallb (λ c, negb (Ascii.eqb c sep)) l = true →
    free_of (String.string_of_list_ascii (reverse l)) = true) as Hrev.
  { intros l Hl. rw free_of_list. apply forallb_forall. intros c Hc%list_elem_of_In.
    rw elem_of_reverse in Hc. rw forallb_forall in Hl. apply Hl. by apply list_elem_of_In. }
  revert cur. induction s as [|c s IH]; intros cur Hcur; simpl.
  { intros ->%list_elem_of_singleton. by apply Hrev. }
  destruct (Ascii.eqb c sep) eqn:E.
  - intros [->|Hp]%elem_of_cons; [by apply Hrev|]. by eapply IH; [|exact Hp].
  - apply IH. simpl. by rw E.
Qed.

Lemma split_from_nonnil cur s : split_from cur s ≠ [].
Proof. revert cur. induction s as [|c s IH]; intros cur; simpl; [done|]. by case_match. Qed.

(** Reading a part that does not hold the separator. *)
Lemma split_app cur part s :
  free_of part = true →
  split_from cur (part +:+ String sep s)
  = String.string_of_list_ascii (reverse cur ++ String.list_ascii_of_string part) :: split_on s
  ∧ split_from cur part = [String.string_of_list_ascii (reverse cur ++ String.list_ascii_of_string part)].
Proof.
  revert cur. induction part as [|c part IH]; intros cur; simpl.
  { intros _. rw Ascii.eqb_refl. by rw app_nil_r. }
  intros [Hc Hp]%andb_true_iff. apply negb_true_iff in Hc. rw Hc.
  destruct (IH (c :: cur) Hp) as [-> ->]. rw reverse_cons -app_assoc. done.
Qed.

Lemma join_cons part part' parts :
  join_on (part :: part' :: parts) = part +:+ String sep (join_on (part' :: parts)).
Proof. done. Qed.

Lemma split_join parts :
  parts ≠ [] → Forall (λ p, free_of p = true) parts → split_on (join_on parts) = parts.
Proof.
  intros Hne Hall. induction Hall as [|part parts Hp Hall IH]; [done|].
  destruct parts as [|part' parts].
  - rw /join_on /split_on /=. destruct (split_app [] part "" Hp) as [_ ->].
    by rw /= String.string_of_list_ascii_of_string.
  - rw join_cons /split_on. destruct (split_app [] part (join_on (part' :: parts)) Hp) as [-> _].
    rw IH //. by rw /= String.string_of_list_ascii_of_string.
Qed.

Lemma join_split_from cur s :
  join_on (split_from cur s) = String.string_of_list_ascii (reverse cur) +:+ s.
Proof.
  assert (∀ l (k : list ascii), String.string_of_list_ascii (l ++ k)
    = String.string_of_list_ascii l +:+ String.string_of_list_ascii k) as Happ.
  { intros l k. induction l as [|c l IH]; simpl; [done|by rw IH]. }
  revert cur. induction s as [|c s IH]; intros cur; simpl.
  { by rw /join_on app_empty. }
  destruct (Ascii.eqb_spec c sep) as [->|Hne].
  - destruct (split_from [] s) as [|p ps] eqn:E; [by apply split_from_nonnil in E|].
    rw join_cons -E IH. done.
  - rw IH reverse_cons Happ app_assoc_text. done.
Qed.

(** Splitting loses nothing. *)
Lemma join_split s : join_on (split_on s) = s.
Proof. by rw /split_on join_split_from. Qed.
End split.

(** ** Sorting *)

(** [sort.Strings]: the bytewise order. *)
Definition sort_Strings : list string → list string := merge_sort String.le.

Lemma sort_Strings_sorted l : Sorted String.le l → sort_Strings l = l.
Proof.
  intros Hl. apply (Sorted_unique String.le); [|done|apply merge_sort_Permutation].
  apply Sorted_merge_sort. apply _.
Qed.

Lemma sort_perm l k : l ≡ₚ k → sort_Strings l = sort_Strings k.
Proof.
  intros H. apply (Sorted_unique String.le); [apply Sorted_merge_sort; apply _..|].
  by rw /sort_Strings !merge_sort_Permutation.
Qed.

Lemma elem_of_sort x l : x ∈ sort_Strings l ↔ x ∈ l.
Proof. by rw /sort_Strings merge_sort_Permutation. Qed.

(** ** Trimming *)

(** Printable ASCII other than the space. *)
Definition graphic_char (c : ascii) : bool :=
  let n := Z.of_nat (nat_of_ascii c) in (33 <=? n)%Z && (n <=? 126)%Z.

Fixpoint graphic (s : string) : bool :=
  match s with
  | EmptyString => true
  | String c s' => graphic_char c && graphic s'
  end.

Lemma graphic_app s t : graphic (s +:+ t) = graphic s && graphic t.
Proof. induction s as [|c s IH]; simpl; [done|]. by rw IH andb_assoc. Qed.

(** The one-byte texts of a string. *)
Definition characters (s : string) : list (Z * string) :=
  (λ c, (byte_of c, String c "")) <$> String.list_ascii_of_string s.

Lemma byte_of_graphic c : graphic_char c = true → (33 ≤ byte_of c ≤ 126)%Z.
Proof. rw /graphic_char /byte_of. intros [? ?]%andb_true_iff. lia. Qed.

Lemma rune_texts_graphic s : graphic s = true → rune_texts (runes s) s = characters s.
Proof.
  rw /runes. induction s as [|c s IH]; [done|].
  intros [Hc%byte_of_graphic Hs]%andb_true_iff.
  cbn [bytes_of length runes_fuel]. rw /decode_rune. destruct (Z.ltb_spec (byte_of c) 128); [|lia].
  change (characters (String c s)) with ((byte_of c, String c "") :: characters s).
  cbn [rune_texts drop]. rw -(IH Hs).
  assert (String.substring 1 (String.length (String c s) - 1) (String c s) = s) as ->.
  { simpl. rw Nat.sub_0_r. clear. induction s as [|c s IH]; [done|]. by apply (f_equal (String c)). }
  by destruct s.
Qed.

Lemma is_space_graphic z : (33 ≤ z ≤ 126)%Z → is_space z = false.
Proof. rw /is_space. intros. lia. Qed.

Lemma drop_while_none {A} (p : A → bool) l : Forall (λ x, p x = false) l → drop_while p l = l.
Proof. by intros [|x l' Hx _]; [|rw /= Hx]. Qed.

Lemma TrimSpace_graphic s : graphic s = true → TrimSpace s = s.
Proof.
  intros Hs. rw /TrimSpace rune_texts_graphic //.
  assert (Forall (λ c : Z * string, is_space c.1 = false) (characters s)) as Hall.
  { rw /characters. induction s as [|c s IH]; [constructor|]. apply andb_true_iff in Hs as [Hc Hs].
    constructor; [by apply is_space_graphic, byte_of_graphic|by apply IH]. }
  rw (drop_while_none _ _ Hall) drop_while_none; [by apply Forall_rev|]. rw rev_involutive /characters.
  clear. induction s as [|c s IH]; [done|].
  assert (∀ l, String.concat "" (String c "" :: l) = String c (String.concat "" l)) as Hcons.
  { intros [|t l]; [done|]. done. }
  rw Hcons. by f_equal.
Qed.
