(* ===== verification/Policy.v ===== *)
(** * The control-plane policy of effects (internal/policy/policy.go)

    The decision on one write or recipe proposal from the configured modes and
    the operator's approvals, and the textual specification of the modes that is
    persisted with a task. *)

From S2P Require Import Prelude GoTime Text.
From Stdlib Require Import Ascii.

Local Open Scope string_scope.
Local Open Scope runstead_scope.

(** ** Data *)

Inductive Decision := Allowed | Denied | ApprovalRequired.

#[export] Instance Decision_eq_dec : EqDecision Decision.
Proof. solve_decision. Defined.

(** A mode is a string; any string can be configured. *)
Definition ModeAllow : string := "allow".
Definition ModeDeny : string := "deny".
Definition ModeApprovalRequired : string := "approval_required".

Record Request := {
  TaskID : string;
  ActionID : string;
  Tool : string;
  Fingerprint : string;
  Workspace : string;
  Recipe : string
}.

Record Outcome := { decision : Decision; reason : string }.

Record Approval := { approval_decision : string; approval_reason : string }.

(** What the approvals table answers for a task and a fingerprint: an error, no
    row, or a row. *)
Definition Approvals := string → string → string + option Approval.

Record Config := { Modes : gmap string string; RecipeModes : gmap string string }.

Record Static := {
  modes : gmap string string;
  recipeModes : gmap string string;
  approvals : option Approvals
}.

Definition NewStatic (config : Config) (approvals : option Approvals) : Static :=
  {| modes := Modes config; recipeModes := RecipeModes config; approvals := approvals |}.

(** ** Evaluation *)

Definition outcome (d : Decision) (r : string) : Outcome := {| decision := d; reason := r |}.

Definition evaluateApproval (p : Static) (request : Request) : Outcome :=
  match approvals p with
  | None => outcome ApprovalRequired "approval_required"
  | Some lookup =>
    if String.eqb (Fingerprint request) "" then outcome ApprovalRequired "approval_required"
    else
      match lookup (TaskID request) (Fingerprint request) with
      | inl _ => outcome ApprovalRequired "approval_lookup_failed"
      | inr None => outcome ApprovalRequired "approval_required"
      | inr (Some approval) =>
        if String.eqb (approval_decision approval) "approved" then outcome Allowed "approved_by_operator"
        else if String.eqb (approval_decision approval) "rejected" then outcome Denied "rejected_by_operator"
        else outcome ApprovalRequired "approval_required"
      end
  end.

(** The switch both kinds of proposals end in. *)
Definition evaluateMode (p : Static) (mode : string) (request : Request) : Outcome :=
  if String.eqb mode ModeAllow then outcome Allowed "policy_allow"
  else if String.eqb mode ModeDeny then outcome Denied "policy_deny"
  else if String.eqb mode ModeApprovalRequired then evaluateApproval p request
  else outcome Denied "unknown_policy_mode".

Definition evaluateRecipe (p : Static) (request : Request) : Outcome :=
  evaluateMode p (default ModeApprovalRequired (recipeModes p !! Recipe request)) request.

Definition Evaluate (p : Static) (request : Request) : Outcome :=
  if negb (String.eqb (Recipe request) "") then evaluateRecipe p request
  else match modes p !! Tool request with
       | None => outcome Denied "no_policy_for_tool"
       | Some mode => evaluateMode p mode request
       end.

(** ** Specifications *)

Definition ToolWriteFile : string := "write_file".
Definition ToolApplyPatch : string := "apply_patch".
Definition WriteTools : list string := [ToolWriteFile; ToolApplyPatch].

Definition comma : ascii := ","%char.
Definition equals : ascii := "="%char.

Definition assignment (name mode : string) : string := name +:+ "=" +:+ mode.

Definition Spec (c : Config) : string :=
  join_on comma (omap (λ tool, assignment tool <$> Modes c !! tool) (sort_Strings WriteTools)).

Definition modeOf (c : Config) (tool : string) : string := default ModeApprovalRequired (Modes c !! tool).

Definition Equal (a b : Config) : bool :=
  forallb (λ tool, String.eqb (modeOf a tool) (modeOf b tool)) WriteTools.

Definition DefaultConfig : Config := {|
  Modes := <[ToolWriteFile := ModeApprovalRequired]> (<[ToolApplyPatch := ModeApprovalRequired]> ∅);
  RecipeModes := ∅ |}.

Definition recipeModeOf (c : Config) (id : string) : string :=
  default ModeApprovalRequired (RecipeModes c !! id).

Definition RecipeSpec (c : Config) (recipeIDs : list string) : string :=
  join_on comma ((λ id, assignment id (recipeModeOf c id)) <$> sort_Strings recipeIDs).

Definition RecipeEqual (a b : Config) (recipeIDs : list string) : bool :=
  forallb (λ id, String.eqb (recipeModeOf a id) (recipeModeOf b id)) recipeIDs.

(** ** Parsing *)

Definition known_mode (mode : string) : bool :=
  existsb (String.eqb mode) [ModeAllow; ModeDeny; ModeApprovalRequired].

(** [strings.SplitN(item, "=", 2)]: [None] when there is no sign. *)
Fixpoint split_assignment (item : string) : option (string * string) :=
  match item with
  | EmptyString => None
  | String c rest =>
    if Ascii.eqb c equals then Some ("", rest)
    else '(name, mode) ← split_assignment rest; Some (String c name, mode)
  end.

(** One item of a specification; [ok] is the test of the name. *)
Definition parse_item (ok : string → bool) (item : string) (acc : gmap string string)
    : string + gmap string string :=
  let item := TrimSpace item in
  if String.eqb item "" then inr acc
  else match split_assignment item with
       | None => inl "expected NAME=MODE"
       | Some (name, mode) =>
         let name := TrimSpace name in
         let mode := TrimSpace mode in
         if negb (ok name) then inl "invalid name"
         else if known_mode mode then inr (<[name := mode]> acc) else inl "invalid mode"
       end.

Fixpoint parse_items (ok : string → bool) (items : list string) (acc : gmap string string)
    : string + gmap string string :=
  match items with
  | [] => inr acc
  | item :: items' =>
    match parse_item ok item acc with
    | inl e => inl e
    | inr acc => parse_items ok items' acc
    end
  end.

Definition is_write_tool (tool : string) : bool :=
  String.eqb tool ToolWriteFile || String.eqb tool ToolApplyPatch.

Definition ParseConfig (value : string) : string + Config :=
  let value := TrimSpace value in
  if String.eqb value "" then inl "write policy must not be empty"
  else match parse_items is_write_tool (split_on comma value) (Modes DefaultConfig) with
       | inl e => inl e
       | inr modes => inr {| Modes := modes; RecipeModes := ∅ |}
       end.

Definition ParseRecipePolicy (value : string) : string + Config :=
  let value := TrimSpace value in
  if String.eqb value "" then inl "recipe policy must not be empty"
  else match parse_items (λ id, negb (String.eqb id "")) (split_on comma value) ∅ with
       | inl e => inl e
       | inr modes => inr {| Modes := ∅; RecipeModes := modes |}
       end.

Example Parse_examples :
  (Spec <$> (match ParseConfig " write_file = allow ,," with inr c => Some c | _ => None end))
    = Some "apply_patch=approval_required,write_file=allow"
  ∧ ParseConfig "run_recipe=allow" = inl "invalid name"
  ∧ ParseConfig "write_file=Allow" = inl "invalid mode"
  ∧ ParseConfig " " = inl "write policy must not be empty".
Proof. by vm_compute. Qed.

(** ** What is allowed *)

(** The mode a request is decided under. *)
Definition effective_mode (p : Static) (r : Request) : option string :=
  if bool_decide (Recipe r = "") then modes p !! Tool r
  else Some (default ModeApprovalRequired (recipeModes p !! Recipe r)).

(** The operator decided this very fingerprint of this very task. *)
Definition operator_decided (p : Static) (r : Request) (d : string) : Prop :=
  ∃ lookup a, approvals p = Some lookup ∧ Fingerprint r ≠ ""
    ∧ lookup (TaskID r) (Fingerprint r) = inr (Some a) ∧ approval_decision a = d.

Lemma decided_value p r d lookup v :
  approvals p = Some lookup → lookup (TaskID r) (Fingerprint r) = v → operator_decided p r d →
  ∃ a, v = inr (Some a) ∧ approval_decision a = d.
Proof. intros Hp Hl (l & a & Hp' & _ & Hv & Hd). exists a. split; [congruence|done]. Qed.

Lemma evaluateApproval_spec p r :
  match decision (evaluateApproval p r) with
  | Allowed => operator_decided p r "approved"
  | Denied => operator_decided p r "rejected"
  | ApprovalRequired => ¬ operator_decided p r "approved" ∧ ¬ operator_decided p r "rejected"
  end.
Proof.
  rw /evaluateApproval. destruct (approvals p) as [lookup|] eqn:Hp.
  2: { split; intros (l & a & H & _); congruence. }
  destruct (String.eqb_spec (Fingerprint r) "") as [Hf|Hf].
  { split; intros (l & a & _ & H & _); congruence. }
  destruct (lookup (TaskID r) (Fingerprint r)) as [e|[a|]] eqn:El; simpl;
    [by split; intros (? & [=] & _)%(decided_value _ _ _ _ _ Hp El)| |
     by split; intros (? & [=] & _)%(decided_value _ _ _ _ _ Hp El)].
  destruct (String.eqb_spec (approval_decision a) "approved") as [Ha|Ha]; [by exists lookup, a|].
  destruct (String.eqb_spec (approval_decision a) "rejected") as [Hr|Hr]; [by exists lookup, a|].
  split; intros (? & [= <-] & ?)%(decided_value _ _ _ _ _ Hp El); congruence.
Qed.

Lemma Evaluate_mode p r :
  Evaluate p r = match effective_mode p r with
                 | Some mode => evaluateMode p mode r
                 | None => outcome Denied "no_policy_for_tool"
                 end.
Proof.
  rw /Evaluate /effective_mode /evaluateRecipe. destruct (String.eqb_spec (Recipe r) "") as [E|E]; simpl;
    case_bool_decide; done.
Qed.

Lemma decided_once p r : operator_decided p r "approved" → ¬ operator_decided p r "rejected".
Proof. intros (l & a & H1 & _ & H2 & H3) (l' & a' & H1' & _ & H2' & H3'). simplify_eq. congruence. Qed.

(** C25: policy.  An effect is allowed only when its mode says so or its mode asks
    for an approval and the operator approved exactly its fingerprint in its task;
    it waits for the operator only when its mode asks for an approval and none of
    either kind is recorded; everything else, an unconfigured tool and an unknown
    mode included, is denied. *)
Theorem Evaluate_spec p r :
  (decision (Evaluate p r) = Allowed ↔
     effective_mode p r = Some ModeAllow
     ∨ effective_mode p r = Some ModeApprovalRequired ∧ operator_decided p r "approved")
  ∧ (decision (Evaluate p r) = ApprovalRequired ↔
     effective_mode p r = Some ModeApprovalRequired
     ∧ ¬ operator_decided p r "approved" ∧ ¬ operator_decided p r "rejected").
Proof.
  rw Evaluate_mode. destruct (effective_mode p r) as [mode|]; [|simpl; naive_solver].
  rw /evaluateMode. destruct (String.eqb_spec mode ModeAllow) as [->|H1]; [simpl; naive_solver|].
  destruct (String.eqb_spec mode ModeDeny) as [->|H2]; [simpl; naive_solver|].
  destruct (String.eqb_spec mode ModeApprovalRequired) as [->|H3]; [|simpl; naive_solver].
  pose proof (evaluateApproval_spec p r) as H. pose proof (decided_once p r).
  destruct (decision (evaluateApproval p r)); naive_solver.
Qed.

(** ** What a specification assigns *)

(** The name and the mode one item assigns. *)
Definition said (item : string) : option (string * string) :=
  '(name, mode) ← split_assignment (TrimSpace item); Some (TrimSpace name, TrimSpace mode).

Definition item_ok (ok : string → bool) (item : string) : bool :=
  String.eqb (TrimSpace item) "" ||
  match said item with Some (name, mode) => ok name && known_mode mode | None => false end.

(** The mode of the last item that names [name]. *)
Definition assigned (items : list string) (name : string) : option string :=
  foldr (λ item later, match later with
    | Some mode => Some mode
    | None => match said item with
              | Some (n, mode) => if String.eqb n name then Some mode else None
              | None => None
              end
    end) None items.

Lemma said_blank item : TrimSpace item = "" → said item = None.
Proof. rw /said. by intros ->. Qed.

Lemma parse_items_spec ok items acc :
  match parse_items ok items acc with
  | inl _ => forallb (item_ok ok) items = false
  | inr m => forallb (item_ok ok) items = true
      ∧ ∀ name, m !! name = match assigned items name with Some mode => Some mode | None => acc !! name end
  end.
Proof.
  revert acc. induction items as [|item items IH]; intros acc; [done|].
  cbn [parse_items forallb]. rw /parse_item [item_ok ok item]/item_ok.
  destruct (String.eqb_spec (TrimSpace item) "") as [Hb|Hb].
  { cbn [orb andb]. specialize (IH acc). destruct (parse_items ok items acc); [done|]. destruct IH as [-> IH].
    split; [done|]. intros name. rw IH /= (said_blank _ Hb). by destruct (assigned items name). }
  cbn [orb]. rw {1 2}/said. destruct (split_assignment (TrimSpace item)) as [[n md]|] eqn:Es; [|done].
  cbn [mbind option_bind]. destruct (ok (TrimSpace n)); [|done]. cbn [negb andb].
  destruct (known_mode (TrimSpace md)); [|done]. cbn [andb].
  specialize (IH (<[TrimSpace n := TrimSpace md]> acc)). destruct (parse_items ok items _); [done|].
  destruct IH as [-> IH]. split; [done|]. intros name. rw IH /=. destruct (assigned items name); [done|].
  rw /said Es /=. destruct (String.eqb_spec (TrimSpace n) name) as [<-|Hne]; [by rw lookup_insert_eq|].
  by rw lookup_insert_ne.
Qed.

(** A write policy is accepted exactly when it is not blank and each of its
    items is blank or assigns a known mode to a write tool; the parsed policy
    gives every write tool the mode of the last item that names it, and the
    fail-closed default when none does, and governs no other tool. *)
Theorem ParseConfig_spec value :
  let items := split_on comma (TrimSpace value) in
  match ParseConfig value with
  | inl _ => TrimSpace value = "" ∨ forallb (item_ok is_write_tool) items = false
  | inr c => TrimSpace value ≠ "" ∧ forallb (item_ok is_write_tool) items = true
      ∧ ∀ tool, Modes c !! tool =
          if is_write_tool tool then Some (default ModeApprovalRequired (assigned items tool)) else None
  end.
Proof.
  rw /ParseConfig. destruct (String.eqb_spec (TrimSpace value) "") as [E|E]; [by left|].
  pose proof (parse_items_spec is_write_tool (split_on comma (TrimSpace value)) (Modes DefaultConfig)) as H.
  destruct (parse_items _ _ _) as [e|m]; [by right|]. destruct H as [Hok H]. split_and!; [done|done|].
  intros tool. simpl. rw H. destruct (is_write_tool tool) eqn:Ht.
  - destruct (assigned _ tool); [done|]. rw /is_write_tool in Ht.
    apply orb_true_iff in Ht as [->%String.eqb_eq| ->%String.eqb_eq]; by vm_compute.
  - destruct (assigned _ tool) as [mode|] eqn:Ha.
    + exfalso. assert (is_write_tool tool = true); [|congruence]. clear -Hok Ha. revert Ha Hok.
      induction (split_on comma (TrimSpace value)) as [|item items IH]; [done|]. simpl.
      destruct (assigned items tool); [intros [= ->] [_ ?]%andb_true_iff; by apply IH|].
      destruct (said item) as [[n md]|] eqn:Es; [|done]. destruct (String.eqb_spec n tool) as [->|]; [|done].
      intros _ [Hi _]%andb_true_iff. rw /item_ok Es in Hi. apply orb_true_iff in Hi as [Hb%String.eqb_eq|Hi].
      { rw (said_blank _ Hb) in Es. done. }
      by apply andb_true_iff in Hi as [? _].
    + rw /is_write_tool in Ht. apply orb_false_iff in Ht as [H1%String.eqb_neq H2%String.eqb_neq].
      rw /DefaultConfig /= !lookup_insert_ne //; congruence.
Qed.

(** ** Round trips *)

(** The write tools that are configured have known modes. *)
Definition governed (c : Config) : Prop :=
  ∀ tool mode, tool ∈ WriteTools → Modes c !! tool = Some mode → known_mode mode = true.

Lemma known_cases mode :
  known_mode mode = true → mode = ModeAllow ∨ mode = ModeDeny ∨ mode = ModeApprovalRequired.
Proof. rw /known_mode /= !orb_true_iff !String.eqb_eq. naive_solver. Qed.

(** The specification of a write policy that configures some tool is parsed
    to a policy that is equal to it. *)
Theorem Spec_roundtrip c :
  governed c → Spec c ≠ "" → ∃ c', ParseConfig (Spec c) = inr c' ∧ Equal c c' = true.
Proof.
  intros Hg. assert (sort_Strings WriteTools = [ToolApplyPatch; ToolWriteFile]) as Hs by by vm_compute.
  assert (∀ tool, tool ∈ WriteTools → Modes c !! tool = None ∨ Modes c !! tool = Some ModeAllow
    ∨ Modes c !! tool = Some ModeDeny ∨ Modes c !! tool = Some ModeApprovalRequired) as Hcases.
  { intros tool Ht. destruct (Modes c !! tool) as [m|] eqn:E; [right|by left].
    destruct (known_cases m (Hg tool m Ht E)) as [->|[->| ->]]; eauto. }
  rw /Spec /Equal /modeOf Hs /=.
  destruct (Hcases ToolApplyPatch) as [->|[->|[->| ->]]]; [by right; left|..];
    (destruct (Hcases ToolWriteFile) as [->|[->|[->| ->]]]; [by left|..]);
    intros Hne; first [done|eexists; split; by vm_compute].
Qed.

(** An identifier the text of a specification can carry. *)
Definition plain_id (id : string) : Prop :=
  id ≠ "" ∧ graphic id = true ∧ free_of comma id = true ∧ free_of equals id = true.

Lemma split_assignment_plain id mode :
  free_of equals id = true → split_assignment (assignment id mode) = Some (id, mode).
Proof.
  rw /assignment. induction id as [|c id IH]; [done|]. intros [Hc Hid]%andb_true_iff.
  apply negb_true_iff in Hc. change (String c id +:+ "=" +:+ mode) with (String c (id +:+ "=" +:+ mode)).
  by rw /= Hc IH.
Qed.

Lemma known_graphic mode : known_mode mode = true → graphic mode = true ∧ free_of comma mode = true.
Proof. by intros [->|[->| ->]]%known_cases. Qed.

Lemma assignment_plain id mode :
  plain_id id → known_mode mode = true →
  graphic (assignment id mode) = true ∧ free_of comma (assignment id mode) = true
  ∧ said (assignment id mode) = Some (id, mode) ∧ assignment id mode ≠ "".
Proof.
  intros (Hne & Hg & Hc & He) Hm. destruct (known_graphic _ Hm) as [Hmg Hmc].
  assert (graphic (assignment id mode) = true) as Hgr by by rw /assignment !graphic_app Hg Hmg.
  split_and!; [done|by rw /assignment !free_of_app Hc Hmc| |by destruct id].
  by rw /said TrimSpace_graphic // split_assignment_plain //= !TrimSpace_graphic.
Qed.

Lemma assigned_assignments (m : string → string) l id :
  (∀ x, x ∈ l → plain_id x ∧ known_mode (m x) = true) →
  assigned ((λ x, assignment x (m x)) <$> l) id = if bool_decide (id ∈ l) then Some (m id) else None.
Proof.
  induction l as [|x l IH]; intros Hl; [done|]. simpl. rw IH; [intros; apply Hl; by right|].
  destruct (Hl x) as [Hx Hm]; [by left|]. destruct (assignment_plain x (m x) Hx Hm) as (_ & _ & -> & _).
  destruct (decide (id ∈ l)) as [Hin|Hin].
  - rw !bool_decide_true //. by right.
  - rw (bool_decide_false (id ∈ l)) //. destruct (String.eqb_spec x id) as [->|Hne].
    + rw bool_decide_true //. by left.
    + rw bool_decide_false //. set_solver.
Qed.

Lemma join_graphic parts :
  Forall (λ p, graphic p = true) parts → graphic (join_on comma parts) = true.
Proof.
  intros Hall. induction Hall as [|p parts Hp Hall IH]; [done|].
  destruct parts as [|q parts]; [done|]. by rw join_cons graphic_app Hp /= IH.
Qed.

(** The specification of a recipe policy over identifiers without separators
    and white space is parsed to a policy that gives each of them its mode, and
    the fail-closed default to every other recipe. *)
Theorem RecipeSpec_roundtrip c ids :
  ids ≠ [] → (∀ id, id ∈ ids → plain_id id ∧ known_mode (recipeModeOf c id) = true) →
  ∃ c', ParseRecipePolicy (RecipeSpec c ids) = inr c' ∧ RecipeEqual c c' ids = true
    ∧ ∀ id, id ∉ ids → recipeModeOf c' id = ModeApprovalRequired.
Proof.
  intros Hne Hids. set (f := λ id, assignment id (recipeModeOf c id)).
  assert (∀ id, id ∈ sort_Strings ids → plain_id id ∧ known_mode (recipeModeOf c id) = true) as Hall.
  { intros id. rw elem_of_sort. apply Hids. }
  assert (Forall (λ p, graphic p = true ∧ free_of comma p = true ∧ item_ok (λ id, negb (String.eqb id "")) p = true)
    (f <$> sort_Strings ids)) as Hparts.
  { apply Forall_fmap, Forall_forall. intros id Hid. destruct (Hall id Hid) as [Hp Hm].
    destruct (assignment_plain _ _ Hp Hm) as (? & ? & Hs & _). split_and!; [done|done|].
    rw /item_ok /f /= Hs Hm. destruct (String.eqb_spec id ""); [by destruct Hp|]. by rw orb_true_r. }
  assert (sort_Strings ids ≠ []) as Hsn.
  { destruct ids as [|id ids]; [done|]. intros E. apply (not_elem_of_nil id). rw -E elem_of_sort. by left. }
  assert (graphic (RecipeSpec c ids) = true) as Hg.
  { apply join_graphic. eapply Forall_impl; [exact Hparts|naive_solver]. }
  assert (split_on comma (RecipeSpec c ids) = f <$> sort_Strings ids) as Hsplit.
  { apply split_join; [by destruct (sort_Strings ids)|]. eapply Forall_impl; [exact Hparts|naive_solver]. }
  assert (RecipeSpec c ids ≠ "") as Hspec.
  { intros E. rw E /= in Hsplit. destruct (sort_Strings ids) as [|id l]; [done|]. injection Hsplit as Hid _.
    destruct (Hall id) as [Hp Hm]; [by left|]. by destruct (assignment_plain _ _ Hp Hm) as (_ & _ & _ & ?). }
  rw /ParseRecipePolicy TrimSpace_graphic //. destruct (String.eqb_spec (RecipeSpec c ids) ""); [done|].
  pose proof (parse_items_spec (λ id, negb (String.eqb id "")) (split_on comma (RecipeSpec c ids)) ∅) as H.
  rw Hsplit in H |- *. destruct (parse_items _ _ _) as [e|m].
  - exfalso. assert (forallb (item_ok (λ id, negb (String.eqb id ""))) (f <$> sort_Strings ids) = true); [|congruence].
    apply forallb_forall. intros p Hp%list_elem_of_In. rw Forall_forall in Hparts. by apply Hparts.
  - destruct H as [_ H]. eexists. split; [done|].
    assert (∀ id, m !! id = if bool_decide (id ∈ ids) then Some (recipeModeOf c id) else None) as Hm.
    { intros id. rw H (assigned_assignments (recipeModeOf c)) //.
      rw (bool_decide_ext (id ∈ sort_Strings ids) (id ∈ ids)); [apply elem_of_sort|].
      by destruct (bool_decide (id ∈ ids)). }
    split.
    + apply forallb_forall. intros id Hid%list_elem_of_In. apply String.eqb_eq.
      by rw {2}/recipeModeOf /= Hm bool_decide_true.
    + intros id Hid. by rw /recipeModeOf /= Hm bool_decide_false.
Qed.

(** An identifier that holds separators assigns modes to other recipes. *)
Example RecipeSpec_injection :
  let c := {| Modes := ∅; RecipeModes := <["z=deny,deploy=allow,y" := ModeDeny]> ∅ |} in
  recipeModeOf c "deploy" = ModeApprovalRequired
  ∧ (match ParseRecipePolicy (RecipeSpec c ["deploy"; "z=deny,deploy=allow,y"]) with
     | inr c' => recipeModeOf c' "deploy" | inl e => e end) = ModeAllow.
Proof. by vm_compute. Qed.

(** ** Witnesses *)

Lemma Spec_roundtrip_witness :
  ∃ c', ParseConfig (Spec DefaultConfig) = inr c' ∧ Equal DefaultConfig c' = true.
Proof.
  apply Spec_roundtrip; [|by vm_compute]. intros tool mode _.
  rw /DefaultConfig /=. intros [[_ <-]|[_ [[_ <-]|[_ [=]]]%lookup_insert_Some]]%lookup_insert_Some; done.
Defined.

Definition demo_recipes : Config := {| Modes := ∅; RecipeModes := <["test" := ModeAllow]> ∅ |}.

Lemma RecipeSpec_roundtrip_witness :
  RecipeSpec demo_recipes ["vet"; "test"] = "test=allow,vet=approval_required"
  ∧ ∃ c', ParseRecipePolicy (RecipeSpec demo_recipes ["vet"; "test"]) = inr c'
      ∧ RecipeEqual demo_recipes c' ["vet"; "test"] = true
      ∧ ∀ id, id ∉ ["vet"; "test"] → recipeModeOf c' id = ModeApprovalRequired.
Proof.
  split; [by vm_compute|]. apply RecipeSpec_roundtrip; [done|].
  intros id [->|[->|[]%elem_of_nil]%elem_of_cons]%elem_of_cons; by vm_compute.
Defined.
