(* ===== verification/Patch.v ===== *)
(** * Patches (internal/tools/patch.go)

    The strict subset of unified diffs the patch tool accepts, applied in memory
    before anything is written. *)

From S2P Require Import Prelude GoTime Text.
From Stdlib Require Import Ascii.

Local Open Scope string_scope.
Local Open Scope runstead_scope.

(** ** Data *)

Inductive patchOpKind := patchContext | patchRemove | patchAdd.

Record patchOp := { kind : patchOpKind; text : string }.

Record patchHunk := { oldStart : Z; ops : list patchOp }.

Record parsedPatch := { oldPath : string; newPath : string; hunks : list patchHunk }.

(** ** Texts *)

Definition newline : ascii := "010"%char.
Definition quote : ascii := "034"%char.

(** [strings.TrimPrefix]. *)
Definition TrimPrefix (pre s : string) : string :=
  if String.prefix pre s then String.substring (String.length pre) (String.length s - String.length pre) s
  else s.

Fixpoint drop_char (c : ascii) (s : string) : string :=
  match s with
  | EmptyString => EmptyString
  | String c' s' => if Ascii.eqb c c' then drop_char c s' else s
  end.

Definition rev_string (s : string) : string :=
  String.string_of_list_ascii (reverse (String.list_ascii_of_string s)).

(** [strings.Trim] of one byte. *)
Definition trim_char (c : ascii) (s : string) : string :=
  rev_string (drop_char c (rev_string (drop_char c s))).

Definition is_digit (c : ascii) : bool :=
  let n := Z.of_nat (nat_of_ascii c) in (48 <=? n)%Z && (n <=? 57)%Z.

(** The longest run of digits at the front, and what follows. *)
Fixpoint take_digits (s : string) : string * string :=
  match s with
  | EmptyString => ("", "")
  | String c s' =>
    if is_digit c then let '(ds, rest) := take_digits s' in (String c ds, rest) else ("", s)
  end.

Fixpoint digits_value (acc : Z) (s : string) : Z :=
  match s with
  | EmptyString => acc
  | String c s' => digits_value (acc * 10 + (Z.of_nat (nat_of_ascii c) - 48)) s'
  end.

(** [strconv.Atoi] on digits, an overflow counting as zero. *)
Definition atoi (value : string) : Z :=
  let n := digits_value 0 value in if (n <=? 9223372036854775807)%Z then n else 0%Z.

(** The lines of a text, the empty one after a last newline left out. *)
Definition drop_last_empty (lines : list string) : list string :=
  match reverse lines with
  | "" :: front => reverse front
  | _ => lines
  end.

Definition contentLines (content : string) : list string := drop_last_empty (split_on newline content).

Definition endsWithNewline (content : string) : bool :=
  match reverse (String.list_ascii_of_string content) with
  | c :: _ => Ascii.eqb c newline
  | [] => false
  end.

Definition joinLines (lines : list string) (trailingNewline : bool) : string :=
  let joined := join_on newline lines in
  if trailingNewline then joined +:+ String newline "" else joined.

(** ** Parsing *)

Definition normalizePatchHeader (line : string) : string :=
  let value := TrimSpace line in
  let value :=
    if String.prefix "--- " value then TrimPrefix "--- " value
    else if String.prefix "+++ " value then TrimPrefix "+++ " value else value in
  let value := trim_char quote (TrimSpace value) in
  TrimPrefix "b/" (TrimPrefix "a/" value).

Definition patchPathMatches (header target : string) : bool := String.eqb header target.

(** [[0-9]+(,[0-9]+)?] at the front: the two groups and what follows. *)
Definition match_range (s : string) : option (string * string * string) :=
  let '(start, rest) := take_digits s in
  if String.eqb start "" then None
  else match rest with
       | String c rest' =>
         if Ascii.eqb c ","%char then
           let '(count, rest'') := take_digits rest' in
           if String.eqb count "" then Some (start, "", rest) else Some (start, count, rest'')
         else Some (start, "", rest)
       | EmptyString => Some (start, "", rest)
       end.

Definition expect (pre s : string) : option string :=
  if String.prefix pre s then Some (TrimPrefix pre s) else None.

(** [hunkHeaderPattern]: its groups 1, 2 and 4. *)
Definition hunkHeaderPattern (line : string) : option (string * string * string) :=
  s ← expect "@@ -" line;
  '(start, old, s) ← match_range s;
  s ← expect " +" s;
  '(_, new, s) ← match_range s;
  if String.eqb s " @@" then Some (start, old, new) else None.

Definition ends_hunk (line : string) : bool :=
  String.eqb line "" || String.prefix "@@ " line || String.prefix "--- " line || String.prefix "+++ " line.

Definition op_of (line : string) : option patchOp :=
  match line with
  | String c rest =>
    if Ascii.eqb c " "%char then Some {| kind := patchContext; text := rest |}
    else if Ascii.eqb c "-"%char then Some {| kind := patchRemove; text := rest |}
    else if Ascii.eqb c "+"%char then Some {| kind := patchAdd; text := rest |}
    else None
  | EmptyString => None
  end.

(** The lines of a hunk and the lines after it. *)
Fixpoint parse_ops (lines : list string) : string + (list patchOp * list string) :=
  match lines with
  | [] => inr ([], [])
  | line :: lines' =>
    if ends_hunk line then inr ([], lines)
    else match op_of line with
         | None => inl "invalid hunk line"
         | Some op =>
           match parse_ops lines' with
           | inl e => inl e
           | inr (ops, rest) => inr (op :: ops, rest)
           end
         end
  end.

Definition is_kind (k : patchOpKind) (op : patchOp) : bool :=
  match k, kind op with
  | patchContext, patchContext | patchRemove, patchRemove | patchAdd, patchAdd => true
  | _, _ => false
  end.

Definition count (k : patchOpKind) (ops : list patchOp) : Z :=
  Z.of_nat (length (List.filter (is_kind k) ops)).

Definition count_or_one (group : string) : Z := if String.eqb group "" then 1%Z else atoi group.

Definition parseHunk (header : string) (lines : list string) : string + (patchHunk * list string) :=
  match hunkHeaderPattern header with
  | None => inl "invalid hunk header"
  | Some (start, old, new) =>
    match parse_ops lines with
    | inl e => inl e
    | inr (ops, rest) =>
      if negb (count patchContext ops + count patchRemove ops =? count_or_one old)%Z
         || negb (count patchContext ops + count patchAdd ops =? count_or_one new)%Z
      then inl "hunk counts do not match header"
      else inr ({| oldStart := atoi start; ops := ops |}, rest)
    end
  end.

(** The loop over the lines after the headers; [None] when the fuel ends. *)
Fixpoint parse_hunks (fuel : nat) (lines : list string) : option (string + list patchHunk) :=
  match fuel with
  | O => None
  | S fuel' =>
    match lines with
    | [] => Some (inr [])
    | line :: lines' =>
      if blank line then parse_hunks fuel' lines'
      else if String.prefix "@@ " line then
        match parseHunk line lines' with
        | inl e => Some (inl e)
        | inr (hunk, rest) =>
          match parse_hunks fuel' rest with
          | None => None
          | Some (inl e) => Some (inl e)
          | Some (inr hunks) => Some (inr (hunk :: hunks))
          end
        end
      else Some (inl "unexpected patch line")
    end
  end.

Definition parsePatch (patch targetPath : string) : option (string + parsedPatch) :=
  match drop_while blank (drop_last_empty (split_on newline patch)) with
  | [] => Some (inl "missing --- header")
  | oldHeader :: lines =>
    if negb (String.prefix "--- " oldHeader) then Some (inl "missing --- header")
    else match lines with
         | [] => Some (inl "missing +++ header")
         | newHeader :: lines =>
           if negb (String.prefix "+++ " newHeader) then Some (inl "missing +++ header")
           else
             let oldPath := normalizePatchHeader oldHeader in
             let newPath := normalizePatchHeader newHeader in
             if negb (patchPathMatches oldPath targetPath) || negb (patchPathMatches newPath targetPath)
             then Some (inl "patch header paths do not match target")
             else match parse_hunks (S (length lines)) lines with
                  | None => None
                  | Some (inl e) => Some (inl e)
                  | Some (inr hunks) =>
                    Some (inr {| oldPath := oldPath; newPath := newPath; hunks := hunks |})
                  end
         end
  end.

(** ** Application *)

Definition errPatchContentMismatch : string := "patch content does not match the current file".

(** The operations of one hunk on the lines from its start. *)
Fixpoint apply_ops (ops : list patchOp) (rest : list string) : string + (list string * list string) :=
  match ops with
  | [] => inr ([], rest)
  | op :: ops' =>
    match kind op with
    | patchAdd =>
      match apply_ops ops' rest with
      | inl e => inl e
      | inr (out, rest) => inr (text op :: out, rest)
      end
    | k =>
      match rest with
      | [] => inl errPatchContentMismatch
      | line :: rest' =>
        if String.eqb line (text op) then
          match apply_ops ops' rest' with
          | inl e => inl e
          | inr (out, rest) =>
            inr (match k with patchContext => text op :: out | _ => out end, rest)
          end
        else inl errPatchContentMismatch
      end
    end
  end.

(** [rest] are the lines from [cursor] on. *)
Fixpoint apply_hunks (hunks : list patchHunk) (cursor : Z) (rest : list string) : string + list string :=
  match hunks with
  | [] => inr rest
  | hunk :: hunks' =>
    let start := (oldStart hunk - 1)%Z in
    if (start <? cursor)%Z || (cursor + Z.of_nat (length rest) <? start)%Z
    then inl "hunk start is out of order"
    else
      let n := Z.to_nat (start - cursor) in
      match apply_ops (ops hunk) (drop n rest) with
      | inl e => inl e
      | inr (out, rest') =>
        let next := (start + (Z.of_nat (length (drop n rest)) - Z.of_nat (length rest')))%Z in
        match apply_hunks hunks' next rest' with
        | inl e => inl e
        | inr result => inr (take n rest ++ out ++ result)%list
        end
      end
  end.

Definition applyParsedPatch (old : list string) (patch : parsedPatch) : string + list string :=
  apply_hunks (hunks patch) 0 old.

Definition applyPatch (content patch targetPath : string) (targetLimit : Z) : option (string + string) :=
  if (targetLimit <? Z.of_nat (String.length content))%Z
  then Some (inl "patch target exceeds the configured bound")
  else match parsePatch patch targetPath with
       | None => None
       | Some (inl e) => Some (inl e)
       | Some (inr parsed) =>
         Some (match applyParsedPatch (contentLines content) parsed with
               | inl e => inl e
               | inr patched => inr (joinLines patched (endsWithNewline content))
               end)
       end.

Definition lines_of (ls : list string) : string := joinLines ls true.

Example apply_example :
  applyPatch (lines_of ["a"; "b"; "c"; "d"])
    (lines_of ["--- a/f.txt"; "+++ b/f.txt"; "@@ -2,2 +2,3 @@"; " b"; "-c"; "+x"; "+y"]) "f.txt" 100
  = Some (inr (lines_of ["a"; "b"; "x"; "y"; "d"])).
Proof. by vm_compute. Qed.

(** ** What a patch does to lines *)

(** The lines of the old and of the new file that a hunk describes. *)
Definition old_side (ops : list patchOp) : list string :=
  omap (λ op, if is_kind patchAdd op then None else Some (text op)) ops.

Definition new_side (ops : list patchOp) : list string :=
  omap (λ op, if is_kind patchRemove op then None else Some (text op)) ops.

(** The hunks are found in order at the lines they name, [n] lines having been
    read before, and exactly their old sides are replaced by their new sides. *)
Inductive patched : Z → list string → list patchHunk → list string → Prop :=
  | PatchedEnd n rest : patched n rest [] rest
  | PatchedHunk n before hunk hunks rest rest' :
      (oldStart hunk - 1 = n + Z.of_nat (length before))%Z →
      patched (n + Z.of_nat (length before) + Z.of_nat (length (old_side (ops hunk)))) rest hunks rest' →
      patched n (before ++ old_side (ops hunk) ++ rest)%list (hunk :: hunks)
        (before ++ new_side (ops hunk) ++ rest')%list.

Lemma apply_ops_spec ops rest :
  match apply_ops ops rest with
  | inl _ => ∀ rest', rest ≠ (old_side ops ++ rest')%list
  | inr (out, rest') => rest = (old_side ops ++ rest')%list ∧ out = new_side ops
  end.
Proof.
  revert rest. induction ops as [|[k t] ops IH]; intros rest; [done|].
  destruct k; cbn [apply_ops kind text].
  - destruct rest as [|line rest]; [done|]. destruct (String.eqb_spec line t) as [->|Hne].
    + specialize (IH rest). destruct (apply_ops ops rest) as [e|[out rest']].
      * intros rest' [= E]. by eapply IH.
      * destruct IH as [-> ->]. done.
    + by intros rest' [= ->].
  - destruct rest as [|line rest]; [done|]. destruct (String.eqb_spec line t) as [->|Hne].
    + specialize (IH rest). destruct (apply_ops ops rest) as [e|[out rest']].
      * intros rest' [= E]. by eapply IH.
      * destruct IH as [-> ->]. done.
    + by intros rest' [= ->].
  - specialize (IH rest). destruct (apply_ops ops rest) as [e|[out rest']]; [exact IH|].
    destruct IH as [-> ->]. done.
Qed.

Lemma apply_hunks_spec hunks cursor rest result :
  apply_hunks hunks cursor rest = inr result ↔ patched cursor rest hunks result.
Proof.
  revert cursor rest result. induction hunks as [|hunk hunks IH]; intros cursor rest result; cbn [apply_hunks].
  { split; [by intros [= ->]; constructor|by inversion 1]. }
  set (start := (oldStart hunk - 1)%Z). set (n := Z.to_nat (start - cursor)). split.
  - destruct (Z.ltb_spec start cursor) as [|H1]; [done|].
    destruct (Z.ltb_spec (cursor + Z.of_nat (length rest)) start) as [|H2]; [done|]. cbn [orb].
    pose proof (apply_ops_spec (ops hunk) (drop n rest)) as Hops.
    destruct (apply_ops (ops hunk) (drop n rest)) as [e|[out rest']]; [done|]. destruct Hops as [Hdrop ->].
    destruct (apply_hunks hunks _ rest') as [e|out'] eqn:Hrec; [done|]. intros [= <-].
    apply IH in Hrec. rw -{1}(take_drop n rest) Hdrop.
    assert (Z.of_nat (length (take n rest)) = start - cursor)%Z as Hlen.
    { rw length_take /n. lia. }
    constructor; [rw Hlen /start; lia|].
    rw Hlen. replace (cursor + (start - cursor))%Z with start by lia.
    rw Hdrop length_app in Hrec.
    by replace (start + (Z.of_nat (length (old_side (ops hunk)) + length rest') - Z.of_nat (length rest')))%Z
      with (start + Z.of_nat (length (old_side (ops hunk))))%Z in Hrec by lia.
  - inversion 1 as [|? before ? ? rest0 rest' Hstart Hrest]; subst.
    assert (start = cursor + Z.of_nat (length before))%Z as Hs by (rw /start; lia).
    assert (n = length before) as Hn by (rw /n; lia).
    destruct (Z.ltb_spec start cursor); [lia|].
    destruct (Z.ltb_spec (cursor + Z.of_nat (length (before ++ old_side (ops hunk) ++ rest0)%list))%Z start) as [Hl|_].
    { rw length_app in Hl. lia. }
    cbn [orb]. rw Hn take_app_length drop_app_length.
    pose proof (apply_ops_spec (ops hunk) (old_side (ops hunk) ++ rest0)%list) as Hops.
    destruct (apply_ops (ops hunk) _) as [e|[out rest1]]; [by destruct (Hops rest0)|].
    destruct Hops as [E ->]. apply app_inv_head in E as <-.
    rw length_app. apply IH in Hrest.
    replace (start + (Z.of_nat (length (old_side (ops hunk)) + length rest0) - Z.of_nat (length rest0)))%Z
      with (cursor + Z.of_nat (length before) + Z.of_nat (length (old_side (ops hunk))))%Z by lia.
    by rw Hrest.
Qed.

(** Application.  A parsed patch yields a result exactly when its hunks stand,
    in order and without overlap, at the lines they name; the result has their
    new sides in place of their old sides and every other line untouched.  In
    every other case there is no result at all. *)
Theorem applyParsedPatch_spec old patch result :
  applyParsedPatch old patch = inr result ↔ patched 0 old (hunks patch) result.
Proof. apply apply_hunks_spec. Qed.

(** ** Undoing a patch *)

Definition reversed_op (op : patchOp) : patchOp := {|
  kind := match kind op with patchContext => patchContext | patchRemove => patchAdd | patchAdd => patchRemove end;
  text := text op |}.

(** The hunks that undo [hunks]; [shift] is what the hunks before have added. *)
Fixpoint reversed (shift : Z) (hunks : list patchHunk) : list patchHunk :=
  match hunks with
  | [] => []
  | hunk :: hunks' =>
    {| oldStart := oldStart hunk + shift; ops := reversed_op <$> ops hunk |}
    :: reversed (shift + Z.of_nat (length (new_side (ops hunk))) - Z.of_nat (length (old_side (ops hunk)))) hunks'
  end.

Lemma reversed_sides ops :
  old_side (reversed_op <$> ops) = new_side ops ∧ new_side (reversed_op <$> ops) = old_side ops.
Proof. induction ops as [|[[] t] ops [IH1 IH2]]; simpl; rw ?IH1 ?IH2; done. Qed.

Lemma patched_reversed n rest hunks result shift :
  patched n rest hunks result → patched (n + shift) result (reversed shift hunks) rest.
Proof.
  intros H. revert shift. induction H as [n rest|n before hunk hunks rest rest' Hs _ IH]; intros shift; [constructor|].
  cbn [reversed]. destruct (reversed_sides (ops hunk)) as [Ho Hn].
  set (undo := {| oldStart := oldStart hunk + shift; ops := reversed_op <$> ops hunk |}).
  assert (new_side (ops hunk) = old_side (ops undo)) as E1 by done.
  assert (old_side (ops hunk) = new_side (ops undo)) as E2 by done.
  rw {1}E1 {2}E2. apply PatchedHunk; [simpl; lia|].
  rw Ho. set (shift' := (shift + _ - _)%Z).
  replace (n + shift + Z.of_nat (length before) + Z.of_nat (length (new_side (ops hunk))))%Z
    with (n + Z.of_nat (length before) + Z.of_nat (length (old_side (ops hunk))) + shift')%Z by (rw /shift'; lia).
  apply IH.
Qed.

(** C27: no information is lost: the patch with additions and removals exchanged
    brings the old lines back. *)
Theorem applyParsedPatch_reversed old patch result :
  applyParsedPatch old patch = inr result →
  applyParsedPatch result {| oldPath := newPath patch; newPath := oldPath patch;
    hunks := reversed 0 (hunks patch) |} = inr old.
Proof. rw /applyParsedPatch !apply_hunks_spec /=. apply (patched_reversed 0). Qed.

(** ** Lines of a text *)

Lemma split_snoc sep cur s :
  split_from sep cur (s +:+ String sep "") = (split_from sep cur s ++ [""])%list.
Proof.
  revert cur. induction s as [|c s IH]; intros cur; [by rw /= Ascii.eqb_refl|].
  change (String c s +:+ String sep "") with (String c (s +:+ String sep "")). cbn [split_from].
  destruct (Ascii.eqb c sep); by rw IH.
Qed.

Lemma join_snoc sep l : l ≠ [] → join_on sep (l ++ [""])%list = join_on sep l +:+ String sep "".
Proof.
  induction l as [|x l IH]; [done|]. intros _. destruct l as [|y l].
  - change ([x] ++ [""])%list with [x; ""]. rw join_cons. done.
  - change ((x :: y :: l) ++ [""])%list with (x :: y :: (l ++ [""]))%list.
    rw !join_cons. change (y :: (l ++ [""]))%list with ((y :: l) ++ [""])%list. rw IH // app_assoc_text. done.
Qed.

Lemma drop_last_empty_snoc l : drop_last_empty (l ++ [""])%list = l.
Proof. by rw /drop_last_empty reverse_snoc reverse_involutive. Qed.

Lemma drop_last_empty_cases l : drop_last_empty l = l ∨ l = (drop_last_empty l ++ [""])%list.
Proof.
  rw /drop_last_empty. destruct (reverse l) as [|[|c x] front] eqn:E; [by left| |by left].
  right. by rw -(reverse_involutive l) E reverse_cons.
Qed.

Lemma ends_snoc s : endsWithNewline (s +:+ String newline "") = true.
Proof.
  rw /endsWithNewline. assert (String.list_ascii_of_string (s +:+ String newline "")
    = String.list_ascii_of_string s ++ [newline])%list as ->.
  { induction s as [|c s IH]; [done|]. by apply (f_equal (cons c)). }
  by rw reverse_snoc.
Qed.

Lemma ends_inv content : endsWithNewline content = true → ∃ s, content = s +:+ String newline "".
Proof.
  rw /endsWithNewline. destruct (reverse (String.list_ascii_of_string content)) as [|c l] eqn:E; [done|].
  intros ->%Ascii.eqb_eq. exists (String.string_of_list_ascii (reverse l)).
  rw -(String.string_of_list_ascii_of_string content) -(reverse_involutive (String.list_ascii_of_string content)) E.
  rw reverse_cons. induction (reverse l) as [|x k IH]; [done|]. by apply (f_equal (String x)).
Qed.

Lemma lines_back content :
  joinLines (contentLines content) (endsWithNewline content) = content.
Proof.
  rw /joinLines /contentLines. destruct (endsWithNewline content) eqn:E.
  - apply ends_inv in E as [s ->]. by rw /split_on split_snoc drop_last_empty_snoc join_split_from.
  - pose proof (join_split newline content) as Hj.
    destruct (drop_last_empty_cases (split_on newline content)) as [->|Hl]; [done|].
    rw Hl in Hj. destruct (decide (drop_last_empty (split_on newline content) = [])) as [Hn|Hn].
    + by rw Hn in Hj |- *.
    + rw join_snoc // in Hj. rw -Hj ends_snoc in E. done.
Qed.

(** Splitting a file into lines and joining them again gives the file back,
    byte by byte, with or without a newline at its end. *)
Theorem joinLines_contentLines content :
  joinLines (contentLines content) (endsWithNewline content) = content.
Proof. apply lines_back. Qed.

(** ** Parsing ends *)

Lemma parse_ops_shorter lines ops rest : parse_ops lines = inr (ops, rest) → (length rest ≤ length lines)%nat.
Proof.
  revert ops. induction lines as [|line lines IH]; intros ops; simpl; [by intros [= _ <-]|].
  destruct (ends_hunk line); [by intros [= _ <-]|]. destruct (op_of line); [|done].
  destruct (parse_ops lines) as [?|[ops' rest']]; [done|]. intros [= _ ->]. specialize (IH _ eq_refl). lia.
Qed.

Lemma parse_hunks_total fuel lines : (length lines < fuel)%nat → is_Some (parse_hunks fuel lines).
Proof.
  revert lines. induction fuel as [|fuel IH]; intros lines Hf; [lia|]. cbn [parse_hunks].
  destruct lines as [|line lines]; [done|]. simpl in Hf. destruct (blank line); [apply IH; lia|].
  destruct (String.prefix "@@ " line); [|done].
  destruct (parseHunk line lines) as [?|[hunk rest]] eqn:E; [done|].
  assert (length rest ≤ length lines)%nat as Hr.
  { rw /parseHunk in E. destruct (hunkHeaderPattern line) as [[[? ?] ?]|]; [|done].
    destruct (parse_ops lines) as [?|[ops rest']] eqn:Ep; [done|]. case_match; [done|].
    injection E as _ <-. by eapply parse_ops_shorter. }
  destruct (IH rest) as [[?|?] ->]; [lia|done..].
Qed.

Lemma parsePatch_total patch target : is_Some (parsePatch patch target).
Proof.
  rw /parsePatch. destruct (drop_while _ _) as [|oldHeader lines]; [done|]. case_match; [done|].
  destruct lines as [|newHeader lines]; [done|]. case_match; [done|]. case_match; [done|].
  destruct (parse_hunks_total (S (length lines)) lines) as [[?|?] ->]; [lia|done..].
Qed.

Lemma parsePatch_paths patch target parsed :
  parsePatch patch target = Some (inr parsed) → oldPath parsed = target ∧ newPath parsed = target.
Proof.
  rw /parsePatch. destruct (drop_while _ _) as [|oldHeader lines]; [done|]. case_match; [done|].
  destruct lines as [|newHeader lines]; [done|]. case_match; [done|].
  rw /patchPathMatches. destruct (String.eqb_spec (normalizePatchHeader oldHeader) target); [|done].
  destruct (String.eqb_spec (normalizePatchHeader newHeader) target); [|done]. cbn [negb orb].
  by destruct (parse_hunks _ _) as [[?|?]|]; try done; intros [= <-].
Qed.

(** ** The grammar of patches *)

Definition op_line (op : patchOp) : string :=
  String (match kind op with patchContext => " " | patchRemove => "-" | patchAdd => "+" end)%char (text op).

Lemma op_of_line line op : op_of line = Some op ↔ line = op_line op.
Proof.
  split.
  - destruct line as [|c rest]; [done|]. rw /op_of. destruct (Ascii.eqb_spec c " "%char) as [->|_]; [by intros [= <-]|].
    destruct (Ascii.eqb_spec c "-"%char) as [->|_]; [by intros [= <-]|].
    destruct (Ascii.eqb_spec c "+"%char) as [->|_]; [by intros [= <-]|done].
  - intros ->. by destruct op as [[] t].
Qed.

(** The body of a hunk goes on up to an empty line, a header or the end. *)
Definition stops (lines : list string) : Prop := match lines with [] => True | line :: _ => ends_hunk line = true end.

Lemma op_line_inj op op' : op_line op = op_line op' → op = op'.
Proof. intros E. apply (f_equal op_of) in E. by rw !(proj2 (op_of_line _ _) eq_refl) in E; injection E. Qed.

Definition body_of (ops : list patchOp) : list string := op_line <$> ops.

Lemma parse_ops_spec lines ops rest :
  parse_ops lines = inr (ops, rest) ↔
  lines = (body_of ops ++ rest)%list ∧ Forall (λ op, ends_hunk (op_line op) = false) ops ∧ stops rest.
Proof.
  revert ops. induction lines as [|line lines IH]; intros ops; simpl.
  - split; [by intros [= <- <-]|]. intros (E & _). symmetry in E. apply app_eq_nil in E as [E ->].
    by apply fmap_nil_inv in E as ->.
  - destruct (ends_hunk line) eqn:He.
    + split; [by intros [= <- <-]|]. intros (E & Hf & Hs). destruct ops as [|op ops]; [by rw E|].
      apply cons_eq_inj in E as [-> _]. apply Forall_cons in Hf as [Hf _]. congruence.
    + destruct (op_of line) as [op|] eqn:Ho.
      * apply op_of_line in Ho as ->. destruct (parse_ops lines) as [e|[ops' rest']] eqn:Ep.
        -- split; [done|]. intros (E & Hf & Hs). destruct ops as [|op' ops]; [simpl in E; subst; simpl in Hs; congruence|].
           apply cons_eq_inj in E as [_ E]. apply Forall_cons in Hf as [_ Hf].
           assert (inl e = inr (A := string) (ops, rest)) as [=]. by apply IH.
        -- split.
           ++ intros [= <- ->]. destruct (proj1 (IH ops') eq_refl) as (-> & Hf & Hs). split_and!; [done| |done]. by constructor.
           ++ intros (E & Hf & Hs). destruct ops as [|op' ops]; [simpl in E; subst; simpl in Hs; congruence|].
              apply cons_eq_inj in E as [->%op_line_inj E]. apply Forall_cons in Hf as [_ Hf].
              assert (inr (ops', rest') = inr (A := string) (ops, rest)) as [= -> ->]; [|done]. by apply IH.
      * split; [done|]. intros (E & Hf & Hs). destruct ops as [|op ops]; [simpl in E; subst; simpl in Hs; congruence|].
        apply cons_eq_inj in E as [-> _]. by rw (proj2 (op_of_line _ op) eq_refl) in Ho.
Qed.

(** The hunks of a patch: blank lines apart, each is a header whose counts are those
    of its body. *)
Inductive hunk_lines : list string → list patchHunk → Prop :=
  | hunks_end : hunk_lines [] []
  | hunks_blank line lines hunks : blank line = true → hunk_lines lines hunks → hunk_lines (line :: lines) hunks
  | hunks_hunk header start old new ops rest hunks :
      blank header = false → String.prefix "@@ " header = true → hunkHeaderPattern header = Some (start, old, new) →
      Forall (λ op, ends_hunk (op_line op) = false) ops → stops rest →
      (count patchContext ops + count patchRemove ops)%Z = count_or_one old →
      (count patchContext ops + count patchAdd ops)%Z = count_or_one new →
      hunk_lines rest hunks →
      hunk_lines (header :: body_of ops ++ rest)%list ({| oldStart := atoi start; ops := ops |} :: hunks).

Lemma parseHunk_spec header lines hunk rest :
  parseHunk header lines = inr (hunk, rest) ↔ ∃ start old new ops,
    hunkHeaderPattern header = Some (start, old, new) ∧ hunk = {| oldStart := atoi start; ops := ops |}
    ∧ lines = (body_of ops ++ rest)%list ∧ Forall (λ op, ends_hunk (op_line op) = false) ops ∧ stops rest
    ∧ (count patchContext ops + count patchRemove ops)%Z = count_or_one old
    ∧ (count patchContext ops + count patchAdd ops)%Z = count_or_one new.
Proof.
  rw /parseHunk. destruct (hunkHeaderPattern header) as [[[start old] new]|]; [|naive_solver].
  split.
  - destruct (parse_ops lines) as [e|[ops rest']] eqn:Ep; [done|]. destruct (_ || _) eqn:Hc; [done|]. intros [= <- <-].
    apply orb_false_iff in Hc as [Hc1%negb_false_iff%Z.eqb_eq Hc2%negb_false_iff%Z.eqb_eq].
    apply parse_ops_spec in Ep as (-> & Hf & Hs). by exists start, old, new, ops.
  - intros (start' & old' & new' & ops & [= <- <- <-] & -> & E & Hf & Hs & Hc1 & Hc2).
    assert (parse_ops lines = inr (ops, rest)) as -> by by apply parse_ops_spec.
    by rw Hc1 Hc2 !Z.eqb_refl.
Qed.

Lemma parse_hunks_spec fuel lines hunks :
  (length lines < fuel)%nat → parse_hunks fuel lines = Some (inr hunks) ↔ hunk_lines lines hunks.
Proof.
  revert lines hunks. induction fuel as [|fuel IH]; intros lines hunks Hf; [lia|]. cbn [parse_hunks].
  destruct lines as [|line lines].
  { split; [intros [= <-]; constructor|by inversion 1]. }
  simpl in Hf. destruct (blank line) eqn:Hb.
  { rw IH; [lia|]. split; [by constructor|]. inversion 1; congruence. }
  destruct (String.prefix "@@ " line) eqn:Hp; [|split; [done|inversion 1; congruence]]. split.
  - destruct (parseHunk line lines) as [e|[hunk rest]] eqn:Eh; [done|].
    apply parseHunk_spec in Eh as (start & old & new & ops & Hh & -> & -> & Hops & Hs & Hc1 & Hc2).
    destruct (parse_hunks fuel rest) as [[e|hunks']|] eqn:Er; [done| |done]. intros [= <-].
    apply IH in Er; [|rw length_app in Hf; lia]. by eapply hunks_hunk.
  - inversion 1 as [| |header start old new ops rest hunks' _ _ Hh Hops Hs Hc1 Hc2 Hrest]; subst; [congruence|].
    assert (parseHunk line (body_of ops ++ rest) = inr ({| oldStart := atoi start; ops := ops |}, rest)) as ->.
    { apply parseHunk_spec. by exists start, old, new, ops. }
    rw (proj2 (IH rest hunks' _)) //. rw length_app in Hf. lia.
Qed.

(** A patch of the target: two headers that name it, and hunks. *)
Definition is_patch (patch target : string) (hunks : list patchHunk) : Prop :=
  ∃ oldHeader newHeader lines,
    drop_while blank (contentLines patch) = oldHeader :: newHeader :: lines
    ∧ String.prefix "--- " oldHeader = true ∧ String.prefix "+++ " newHeader = true
    ∧ normalizePatchHeader oldHeader = target ∧ normalizePatchHeader newHeader = target
    ∧ hunk_lines lines hunks.

Lemma parsePatch_spec patch target p :
  parsePatch patch target = Some (inr p) ↔ is_patch patch target (hunks p) ∧ oldPath p = target ∧ newPath p = target.
Proof.
  rw /parsePatch /is_patch /contentLines. destruct (drop_while _ _) as [|oldHeader [|newHeader lines]].
  1,2: split; [repeat case_match; done|intros [(? & ? & ? & [=] & _) _]].
  split.
  - destruct (String.prefix "--- " oldHeader) eqn:E1; [|done]. destruct (String.prefix "+++ " newHeader) eqn:E2; [|done].
    rw /patchPathMatches. destruct (String.eqb_spec (normalizePatchHeader oldHeader) target) as [E3|]; [|done].
    destruct (String.eqb_spec (normalizePatchHeader newHeader) target) as [E4|]; [|done]. cbn [negb orb].
    destruct (parse_hunks _ _) as [[e|hs]|] eqn:Eh; [done| |done]. intros [= <-].
    apply parse_hunks_spec in Eh; [|lia]. split; [|done]. by exists oldHeader, newHeader, lines.
  - intros [(? & ? & ? & [= <- <- <-] & E1 & E2 & E3 & E4 & Hh) [E5 E6]].
    rw E1 E2 /patchPathMatches E3 E4 !String.eqb_refl. cbn [negb orb].
    rw (proj2 (parse_hunks_spec _ _ _ _) Hh); [lia|]. destruct p. simpl in *. by subst.
Qed.

(** C26: the patch tool always answers.  It answers with a text exactly when the
    content is within the bound, the patch is one of the target in the grammar, two
    headers that name the target and hunks whose counts are those of their bodies, and
    the hunks stand in order and without overlap at the lines they name; the text then
    has their new sides in place of their old sides, every other line untouched and
    the same ending.  A patch without hunks gives the content back. *)
Theorem applyPatch_spec content patch target limit :
  is_Some (applyPatch content patch target limit)
  ∧ (∀ out, applyPatch content patch target limit = Some (inr out) ↔
       (Z.of_nat (String.length content) ≤ limit)%Z ∧ ∃ hunks lines,
         is_patch patch target hunks ∧ patched 0 (contentLines content) hunks lines
         ∧ out = joinLines lines (endsWithNewline content))
  ∧ (is_patch patch target [] → (Z.of_nat (String.length content) ≤ limit)%Z →
       applyPatch content patch target limit = Some (inr content)).
Proof.
  assert (∀ out, applyPatch content patch target limit = Some (inr out) ↔
       (Z.of_nat (String.length content) ≤ limit)%Z ∧ ∃ hunks lines,
         is_patch patch target hunks ∧ patched 0 (contentLines content) hunks lines
         ∧ out = joinLines lines (endsWithNewline content)) as Hspec.
  { intros out. rw /applyPatch. destruct (Z.ltb_spec limit (Z.of_nat (String.length content))); [split; [done|lia]|]. split.
    - destruct (parsePatch patch target) as [[e|parsed]|] eqn:Hp; [done| |done].
      apply parsePatch_spec in Hp as (Hp & _ & _).
      destruct (applyParsedPatch _ parsed) as [e|lines] eqn:Ha; [done|]. intros [= <-]. split; [done|].
      exists (hunks parsed), lines. apply apply_hunks_spec in Ha. done.
    - intros (_ & hs & lines & Hp & Ha & ->).
      rw (proj2 (parsePatch_spec patch target {| oldPath := target; newPath := target; hunks := hs |})) //.
      by rw /applyParsedPatch (proj2 (apply_hunks_spec _ _ _ _) Ha). }
  split; [|split; [exact Hspec|]].
  - rw /applyPatch. destruct (_ <? _)%Z; [done|]. destruct (parsePatch_total patch target) as [[e|parsed] ->]; [done|].
    by destruct (applyParsedPatch _ _).
  - intros Hp Hl. apply Hspec. split; [done|]. exists [], (contentLines content). split_and!; [done|constructor|].
    by rw lines_back.
Qed.

(** ** Inputs on which the code departs from unified diffs *)

(** A removed line that starts with two dashes and a space reads as a header. *)
Example removed_comment_refused :
  applyPatch (lines_of ["-- note"; "x"])
    (lines_of ["--- f.sql"; "+++ f.sql"; "@@ -1,2 +1,1 @@"; "--- note"; " x"]) "f.sql" 100
  = Some (inl "hunk counts do not match header").
Proof. by vm_compute. Qed.

(** Removing the only line leaves an empty line. *)
Example last_line_removed :
  applyPatch (lines_of ["a"]) (lines_of ["--- f"; "+++ f"; "@@ -1,1 +0,0 @@"; "-a"]) "f" 100
  = Some (inr (lines_of [""])).
Proof. by vm_compute. Qed.

(** A hunk with no old lines names the line it follows; here it precedes it. *)
Example insertion_before :
  applyPatch (lines_of ["a"; "b"]) (lines_of ["--- f"; "+++ f"; "@@ -1,0 +2,1 @@"; "+x"]) "f" 100
  = Some (inr (lines_of ["x"; "a"; "b"])).
Proof. by vm_compute. Qed.

(** Both prefixes are removed from one header. *)
Example directory_b_refused :
  normalizePatchHeader "--- a/b/f.txt" = "f.txt"
  ∧ applyPatch (lines_of ["a"]) (lines_of ["--- a/b/f.txt"; "+++ b/b/f.txt"; "@@ -1 +1 @@"; "-a"; "+c"]) "b/f.txt" 100
    = Some (inl "patch header paths do not match target").
Proof. by vm_compute. Qed.

(** ** Witnesses *)

Definition demo_patch : parsedPatch := {| oldPath := "f"; newPath := "f"; hunks := [
  {| oldStart := 2; ops := [{| kind := patchContext; text := "b" |}; {| kind := patchRemove; text := "c" |};
     {| kind := patchAdd; text := "x" |}; {| kind := patchAdd; text := "y" |}] |};
  {| oldStart := 5; ops := [{| kind := patchRemove; text := "e" |}] |}] |}.

Lemma applyParsedPatch_reversed_witness :
  applyParsedPatch ["a"; "b"; "c"; "d"; "e"] demo_patch = inr ["a"; "b"; "x"; "y"; "d"]
  ∧ applyParsedPatch ["a"; "b"; "x"; "y"; "d"]
      {| oldPath := newPath demo_patch; newPath := oldPath demo_patch; hunks := reversed 0 (hunks demo_patch) |}
    = inr ["a"; "b"; "c"; "d"; "e"].
Proof.
  split; [by vm_compute|]. apply applyParsedPatch_reversed. by vm_compute.
Defined.
