(* ===== verification/Cycles.v ===== *)
(** * The dependency-cycle search of the store (internal/state/workunits.go)

    [findWorkUnitCycle] walks the dependency graph of a task with an explicit
    stack.  A pair it reports lies on a cycle; when it reports none the graph
    is acyclic; it ends when no unit is required twice; and it does not end on
    some acyclic graphs in which a unit is. *)

From stdpp Require Import relations.
From S2P Require Import Prelude GoTime Text.

Local Open Scope runstead_scope.

(** ** The search *)

Inductive Color := White | Gray | Black.

#[export] Instance Color_eq_dec : EqDecision Color.
Proof. solve_decision. Defined.

(** The graph: a unit and the units it requires. *)
Abbreviation Edges := (gmap string (list string)).
Abbreviation Colors := (gmap string Color).

Definition color_of (color : Colors) (unit : string) : Color := default White (color !! unit).

Definition deps_of (edges : Edges) (unit : string) : list string :=
  sort_Strings (default [] (edges !! unit)).

(** The loop over the dependencies of [current]: a gray one is reported, a white
    one is pushed.  The top of the stack is the head of the list. *)
Fixpoint scan_deps (color : Colors) (current : string) (deps : list string)
    (stack : list string) (pushed : bool) : (string * string) + (list string * bool) :=
  match deps with
  | [] => inr (stack, pushed)
  | dependency :: deps' =>
    match color_of color dependency with
    | Gray => inl (current, dependency)
    | White => scan_deps color current deps' (dependency :: stack) true
    | Black => scan_deps color current deps' stack pushed
    end
  end.

(** One turn of the inner loop, with [current] on top of the stack. *)
Definition walk_step (edges : Edges) (color : Colors) (current : string) (rest : list string)
    : (string * string) + (Colors * list string) :=
  match color_of color current with
  | Gray => inr (<[current := Black]> color, rest)
  | Black => inr (color, current :: rest)
  | White =>
    let color := <[current := Gray]> color in
    match scan_deps color current (deps_of edges current) (current :: rest) false with
    | inl cycle => inl cycle
    | inr (stack, true) => inr (color, stack)
    | inr (_, false) => inr (<[current := Black]> color, rest)
    end
  end.

(** The inner loop, until the stack is empty; [None] when the fuel ends. *)
Fixpoint walk (edges : Edges) (fuel : nat) (color : Colors) (stack : list string)
    : option ((string * string) + Colors) :=
  match stack with
  | [] => Some (inr color)
  | current :: rest =>
    match fuel with
    | O => None
    | S fuel' =>
      match walk_step edges color current rest with
      | inl cycle => Some (inl cycle)
      | inr (color, stack) => walk edges fuel' color stack
      end
    end
  end.

(** The outer loop over the sorted units. *)
Fixpoint search (edges : Edges) (fuel : nat) (units : list string) (color : Colors)
    : option (option (string * string)) :=
  match units with
  | [] => Some None
  | start :: units' =>
    if bool_decide (color_of color start = White) then
      match walk edges fuel color [start] with
      | None => None
      | Some (inl cycle) => Some (Some cycle)
      | Some (inr color) => search edges fuel units' color
      end
    else search edges fuel units' color
  end.

Definition find_cycle (fuel : nat) (edges : Edges) : option (option (string * string)) :=
  search edges fuel (sort_Strings (map_to_list edges).*1) ∅.

(** The empty string means that there is no cycle. *)
Definition findWorkUnitCycle (fuel : nat) (edges : Edges) : option string :=
  found ← find_cycle fuel edges;
  Some (match found with Some (current, dependency) => current +:+ " -> " +:+ dependency | None => "" end).

Example findWorkUnitCycle_loop :
  findWorkUnitCycle 10 {["a" := ["b"]; "b" := ["c"]; "c" := ["a"]]} = Some "c -> a".
Proof. by vm_compute. Qed.

Example findWorkUnitCycle_chain :
  findWorkUnitCycle 10 {["a" := ["b"; "d"]; "b" := ["c"]]} = Some "".
Proof. by vm_compute. Qed.

(** ** What the search is about *)

Definition requires (edges : Edges) (x y : string) : Prop := y ∈ default [] (edges !! x).

Definition acyclic (edges : Edges) : Prop := ∀ x, ¬ tc (requires edges) x x.

(** Every unit is required by at most one unit, and once. *)
Definition required_once (edges : Edges) : Prop :=
  (∀ x, NoDup (default [] (edges !! x))) ∧
  ∀ x y z, requires edges x z → requires edges y z → x = y.

Lemma elem_of_deps edges x y : y ∈ deps_of edges x ↔ requires edges x y.
Proof. by rw /deps_of /sort_Strings merge_sort_Permutation. Qed.

Lemma color_of_insert color x c y :
  color_of (<[x := c]> color) y = if bool_decide (x = y) then c else color_of color y.
Proof. rw /color_of. case_bool_decide as Heq; [rw -Heq|]; by simplify_map_eq. Qed.

(** What the loop over the dependencies does. *)
Lemma scan_deps_spec color current deps stack pushed :
  match scan_deps color current deps stack pushed with
  | inl (x, y) => x = current ∧ y ∈ deps ∧ color_of color y = Gray
  | inr (stack', pushed') => ∃ new, stack' = new ++ stack ∧ sublist (reverse new) deps
      ∧ (∀ d, d ∈ deps → color_of color d = Black ∨ color_of color d = White ∧ d ∈ new)
      ∧ (∀ d, d ∈ new → color_of color d = White) ∧ pushed' = (pushed || bool_decide (new ≠ []))
  end.
Proof.
  revert stack pushed. induction deps as [|d deps IH]; intros stack pushed; simpl.
  { exists []. split_and!; [done|done|set_solver|set_solver|]. by destruct pushed. }
  destruct (color_of color d) eqn:E.
  - specialize (IH (d :: stack) true). destruct (scan_deps _ _ _ _ _) as [[x y]|[stack' pushed']].
    { destruct IH as (-> & ? & ?). split_and!; [done|set_solver|done]. }
    destruct IH as (new & -> & Hsub & Hall & Hnew & ->). exists (new ++ [d]). split_and!.
    + by rw -app_assoc.
    + rw reverse_app /=. by apply sublist_skip.
    + intros d' [->|Hd]%elem_of_cons; [right; set_solver|]. destruct (Hall d' Hd); set_solver.
    + set_solver.
    + by destruct new, pushed.
  - split_and!; [done|set_solver|done].
  - specialize (IH stack pushed). destruct (scan_deps _ _ _ _ _) as [[x y]|[stack' pushed']].
    { destruct IH as (-> & ? & ?). split_and!; [done|set_solver|done]. }
    destruct IH as (new & -> & Hsub & Hall & Hnew & ->). exists new. split_and!; [done| |set_solver..].
    by apply sublist_cons.
Qed.

(** ** The invariant of the walk *)

(** Black units, latest first: what a unit requires comes after it. *)
Fixpoint ordered (edges : Edges) (order : list string) : Prop :=
  match order with
  | [] => True
  | x :: order' => (x ∉ order') ∧ (∀ d, requires edges x d → d ∈ order') ∧ ordered edges order'
  end.

Lemma ordered_acyclic edges order x :
  ordered edges order → x ∈ order → ¬ tc (requires edges) x x.
Proof.
  assert (∀ order y, ordered edges order → y ∈ order → ∀ z, tc (requires edges) y z → z ∈ order)
    as Hclosed.
  { clear. intros order y Ho Hy z Htc.
    assert (∀ y, y ∈ order → ∀ z, requires edges y z → z ∈ order) as Hstep.
    { clear -Ho. induction order as [|x order IH]; [set_solver|].
      destruct Ho as (_ & Hd & Ho). intros y [->|Hy]%elem_of_cons z Hz;
        apply elem_of_cons; right; [by apply Hd|by eapply IH]. }
    induction Htc; eauto. }
  revert x. induction order as [|y order IH]; [set_solver|]. intros x (Hy & Hd & Ho).
  intros [->|Hx]%elem_of_cons; [|by apply IH].
  intros Htc. apply Hy. inv Htc; [by apply Hd|]. eapply Hclosed; [done|by apply Hd|done].
Qed.

Record well_walked (edges : Edges) (color : Colors) (stack : list string) : Prop := {
  ww_gray g : color_of color g = Gray → g ∈ stack;
  ww_path s1 x s2 g : stack = s1 ++ x :: s2 → g ∈ s2 → color_of color g = Gray →
    g ∉ s1 → g ≠ x → tc (requires edges) g x;
  ww_done s1 g s2 d : stack = s1 ++ g :: s2 → color_of color g = Gray → g ∉ s1 →
    requires edges g d → color_of color d = Black ∨ d ∈ s1;
  ww_order : ∃ order, ordered edges order ∧ ∀ x, color_of color x = Black ↔ x ∈ order
}.

Lemma app_cons_split {A} (p r s1 s2 : list A) c x :
  p ++ c :: r = s1 ++ x :: s2 →
  (∃ p2, p = s1 ++ x :: p2 ∧ s2 = p2 ++ c :: r) ∨ (s1 = p ∧ x = c ∧ s2 = r)
  ∨ (∃ r1, s1 = p ++ c :: r1 ∧ r = r1 ++ x :: s2).
Proof.
  intros [(k & -> & Hk)|(k & -> & Hk)]%app_eq_inv.
  - destruct k as [|y k]; simplify_eq/=; [right; left; by rw app_nil_r|left; eauto].
  - destruct k as [|y k]; simplify_eq/=; [right; left; by rw app_nil_r|right; right; eauto].
Qed.

(** The top of the stack turns black and is popped. *)
Lemma well_walked_pop edges color current rest :
  well_walked edges color (current :: rest) → color_of color current ≠ Black →
  (∀ d, requires edges current d → color_of color d = Black) →
  well_walked edges (<[current := Black]> color) rest.
Proof.
  intros [Hgray Hpath Hdone (order & Ho & Hblack)] Hcur Hdeps. split.
  - intros g. rw color_of_insert. case_bool_decide; [done|]. set_solver.
  - intros s1 x s2 g -> Hg. rw color_of_insert. case_bool_decide; [done|]. intros ? Hs1 Hx.
    apply (Hpath (current :: s1) x s2); set_solver.
  - intros s1 g s2 d -> Hg. rw color_of_insert. move: Hg. rw color_of_insert.
    do 2 case_bool_decide; try by auto. intros Hg Hs1 Hd.
    destruct (Hdone (current :: s1) g s2 d); set_solver.
  - exists (current :: order). split.
    + split_and!; [by rw -Hblack| |done]. intros d Hd. by apply Hblack, Hdeps.
    + intros x. rw color_of_insert elem_of_cons. case_bool_decide; [by split; auto|].
      rw Hblack. naive_solver.
Qed.

(** The top of the stack turns gray and pushes the white units it requires. *)
Lemma well_walked_push edges color current rest new :
  well_walked edges color (current :: rest) → color_of color current = White →
  (∀ d, requires edges current d → color_of color d = Black ∨ d ∈ new) →
  (∀ d, d ∈ new → d ≠ current ∧ color_of color d = White ∧ requires edges current d) →
  well_walked edges (<[current := Gray]> color) (new ++ current :: rest).
Proof.
  intros [Hgray Hpath Hdone (order & Ho & Hblack)] Hcur Hdeps Hnew. split.
  - intros g. rw color_of_insert. case_bool_decide; set_solver.
  - intros s1 x s2 g Hs Hg. rw color_of_insert. intros Hc Hs1 Hx.
    destruct (app_cons_split _ _ _ _ _ _ Hs) as [(p2 & -> & ->)|[(-> & -> & ->)|(r1 & -> & ->)]].
    + case_bool_decide as E; [subst; apply tc_once, Hnew; set_solver|].
      eapply tc_r; [|apply Hnew; set_solver].
      apply (Hpath [] current rest); [done| |done|set_solver|done].
      apply elem_of_app in Hg as [Hg|Hg]; [|set_solver].
      destruct (Hnew g ltac:(set_solver)) as (_ & ? & _). congruence.
    + case_bool_decide as E; [done|]. apply (Hpath [] current rest); set_solver.
    + case_bool_decide as E; [set_solver|]. apply (Hpath (current :: r1) x s2); set_solver.
  - intros s1 g s2 d Hs Hg Hs1 Hd. rw color_of_insert in Hg.
    destruct (app_cons_split _ _ _ _ _ _ Hs) as [(p2 & -> & ->)|[(-> & -> & ->)|(r1 & -> & ->)]].
    + destruct (Hnew g ltac:(set_solver)) as (? & ? & _). case_bool_decide; congruence.
    + destruct (Hdeps d Hd) as [Hb|?]; [|by right].
      left. rw color_of_insert bool_decide_false; congruence.
    + case_bool_decide as E; [set_solver|].
      destruct (Hdone (current :: r1) g s2 d) as [Hb|?]; [done|done|set_solver|done|left|set_solver].
      rw color_of_insert bool_decide_false; congruence.
  - exists order. split; [done|]. intros x. rw color_of_insert -Hblack.
    case_bool_decide as E; [|done]. split; congruence.
Qed.

Lemma walk_step_ok edges color current rest :
  well_walked edges color (current :: rest) →
  match walk_step edges color current rest with
  | inl (x, y) => requires edges x y ∧ rtc (requires edges) y x
  | inr (color', stack') => well_walked edges color' stack'
  end.
Proof.
  intros Hw. rw /walk_step. destruct (color_of color current) eqn:E; [| |done].
  2:{ apply well_walked_pop; [done|congruence|]. intros d Hd.
      by destruct (ww_done _ _ _ Hw [] current rest d) as [?|?%elem_of_nil];
        [done|done|set_solver|..]. }
  pose proof (scan_deps_spec (<[current := Gray]> color) current (deps_of edges current)
    (current :: rest) false) as Hscan.
  destruct (scan_deps _ _ _ _ _) as [[x y]|[stack' pushed']].
  - destruct Hscan as (-> & Hy%elem_of_deps & Hc). split; [done|].
    move: Hc. rw color_of_insert. case_bool_decide as Hyc; [by rw Hyc|]. intros Hc.
    apply tc_rtc. apply (ww_path _ _ _ Hw [] current rest); [done| |done|set_solver|done].
    apply (ww_gray _ _ _ Hw) in Hc. set_solver.
  - destruct Hscan as (new & -> & Hsub & Hall & Hnew & ->). simpl.
    assert (∀ d, requires edges current d → color_of color d = Black ∨ d ∈ new) as Hdeps.
    { intros d Hd%elem_of_deps. destruct (Hall d Hd) as [Hb|[_ ?]]; [left|by right].
      move: Hb. rw color_of_insert. by case_bool_decide. }
    assert (∀ d, d ∈ new → d ≠ current ∧ color_of color d = White ∧ requires edges current d)
      as Hin.
    { intros d Hd. pose proof (Hnew d Hd) as Hc. move: Hc. rw color_of_insert.
      case_bool_decide; [done|]. intros Hc. split_and!; [done|done|].
      apply elem_of_deps. eapply elem_of_sublist; [|exact Hsub]. by apply elem_of_reverse. }
    case_bool_decide as Hne; [by apply well_walked_push|].
    subst new. rw insert_insert_eq. apply well_walked_pop; [done|congruence|].
    intros d Hd. by destruct (Hdeps d Hd) as [?|?%elem_of_nil].
Qed.

Lemma walk_ok edges fuel color stack :
  well_walked edges color stack →
  match walk edges fuel color stack with
  | Some (inl (x, y)) => requires edges x y ∧ rtc (requires edges) y x
  | Some (inr color') => well_walked edges color' []
  | None => True
  end.
Proof.
  revert color stack. induction fuel as [|fuel IH]; intros color [|current rest] Hw; simpl; try done.
  apply walk_step_ok in Hw. destruct (walk_step _ _ _ _) as [[x y]|[color' stack']]; [done|].
  by apply IH.
Qed.

(** Between two starts no unit is gray, and the black ones stay black. *)
Lemma well_walked_start edges color start :
  well_walked edges color [] → color_of color start = White → well_walked edges color [start].
Proof.
  intros [Hgray _ _ Horder] Hs. split; [|..|done].
  - intros g Hg. by apply Hgray, elem_of_nil in Hg.
  - intros s1 x s2 g _ _ Hg. by apply Hgray, elem_of_nil in Hg.
  - intros s1 g s2 d _ Hg. by apply Hgray, elem_of_nil in Hg.
Qed.

Lemma walk_black edges fuel color stack color' x :
  walk edges fuel color stack = Some (inr color') →
  color_of color x = Black ∨ x ∈ stack → color_of color' x = Black.
Proof.
  revert color stack. induction fuel as [|fuel IH]; intros color [|current rest]; simpl; try done;
    [by intros [= <-] [?|?%elem_of_nil]..|].
  intros Hwalk Hx. destruct (walk_step edges color current rest) as [?|[color1 stack1]] eqn:E; [done|].
  apply (IH color1 stack1 Hwalk). move: E. rw /walk_step.
  destruct (color_of color current) eqn:Ec.
  - pose proof (scan_deps_spec (<[current := Gray]> color) current (deps_of edges current)
      (current :: rest) false) as Hscan.
    destruct (scan_deps _ _ _ _ _) as [?|[stack' pushed']]; [done|].
    destruct Hscan as (new & -> & _ & _ & _ & ->). simpl. case_bool_decide; intros [= <- <-];
      rw ?color_of_insert.
    + destruct Hx as [Hx|?]; [left|right; set_solver]. case_bool_decide; congruence.
    + case_bool_decide; [by left|]. destruct Hx as [Hx|Hx]; [by left|right; set_solver].
  - intros [= <- <-]. rw color_of_insert. case_bool_decide; [by left|].
    destruct Hx; [by left|right; set_solver].
  - by intros [= <- <-].
Qed.

Lemma search_ok edges fuel units color :
  well_walked edges color [] →
  match search edges fuel units color with
  | Some (Some (x, y)) => requires edges x y ∧ rtc (requires edges) y x
  | Some None => ∃ color', well_walked edges color' [] ∧ ∀ x,
      color_of color x = Black ∨ x ∈ units → color_of color' x = Black
  | None => True
  end.
Proof.
  revert color. induction units as [|start units IH]; intros color Hw; simpl.
  { exists color. split; [done|]. by intros x [?|?%elem_of_nil]. }
  case_bool_decide as Hs.
  - pose proof (walk_ok edges fuel color [start] (well_walked_start _ _ _ Hw Hs)) as Hwalk.
    destruct (walk _ _ _ _) as [[[x y]|color']|] eqn:E; [done| |done].
    specialize (IH color' Hwalk). destruct (search _ _ _ _) as [[[x y]|]|]; [done| |done].
    destruct IH as (color'' & Hw'' & Hblack). exists color''. split; [done|].
    intros x Hx. apply Hblack. rw elem_of_cons in Hx.
    destruct Hx as [?|[->|?]]; [left|left|by right]; (eapply walk_black; [done|]); [by left|set_solver].
  - specialize (IH color Hw). destruct (search _ _ _ _) as [[[x y]|]|]; [done| |done].
    destruct IH as (color'' & Hw'' & Hblack). exists color''. split; [done|].
    intros x. rw elem_of_cons. intros [?|[->|?]]; apply Hblack; [by left| |by right].
    destruct (color_of color start) eqn:Ec; [done| |by left].
    by apply (ww_gray _ _ _ Hw), elem_of_nil in Ec.
Qed.

Lemma well_walked_empty edges : well_walked edges ∅ [].
Proof.
  assert (∀ x, color_of ∅ x = White) as Hwhite by done.
  split; [intros g; by rw Hwhite|intros s1 x s2 g; by rw Hwhite|intros s1 g s2 d _; by rw Hwhite|].
  exists []. split; [done|]. intros x. rw Hwhite elem_of_nil. done.
Qed.

Lemma find_cycle_sound fuel edges found :
  find_cycle fuel edges = Some found →
  match found with
  | Some (x, y) => requires edges x y ∧ rtc (requires edges) y x
  | None => acyclic edges
  end.
Proof.
  rw /find_cycle. intros Hfound.
  pose proof (search_ok edges fuel (sort_Strings (map_to_list edges).*1) ∅ (well_walked_empty edges))
    as Hok. rw Hfound in Hok. destruct found as [[x y]|]; [done|].
  destruct Hok as (color & [_ _ _ (order & Ho & Hblack)] & Hall). intros x Hx.
  assert (x ∈ order) as Hin.
  { apply Hblack, Hall. right. rw /sort_Strings merge_sort_Permutation.
    assert (∃ y, requires edges x y) as (y & Hy) by (inv Hx; eauto).
    rw /requires in Hy. destruct (edges !! x) as [deps|] eqn:E; [|by apply elem_of_nil in Hy].
    apply list_elem_of_fmap. exists (x, deps). by rw elem_of_map_to_list. }
  by eapply ordered_acyclic.
Qed.

Lemma arrow_not_empty (x y : string) : (x +:+ " -> " +:+ y)%string ≠ ""%string.
Proof. by destruct x. Qed.

Lemma no_cycle_acyclic fuel edges : findWorkUnitCycle fuel edges = Some ""%string → acyclic edges.
Proof.
  rw /findWorkUnitCycle. destruct (find_cycle fuel edges) as [[[x y]|]|] eqn:E; simpl; intros [=].
  - by destruct (arrow_not_empty x y).
  - by apply find_cycle_sound in E.
Qed.

(** Cycle search.  However long it is allowed to run, the text that the search
    returns names an edge that lies on a cycle of the dependency graph, or is
    empty and then the graph has no cycle. *)
Theorem findWorkUnitCycle_spec fuel edges text :
  findWorkUnitCycle fuel edges = Some text →
  (text = ""%string ∧ acyclic edges) ∨
  ∃ x y, text = (x +:+ " -> " +:+ y)%string ∧ requires edges x y ∧ rtc (requires edges) y x.
Proof.
  rw /findWorkUnitCycle. destruct (find_cycle fuel edges) as [found|] eqn:E; [|done].
  apply find_cycle_sound in E. intros [= <-]. destruct found as [[x y]|]; [right|by left].
  by exists x, y.
Qed.

(** ** Units that are required twice *)

(** A black unit on top of the stack is never popped. *)
Lemma walk_stuck edges fuel color current rest :
  color_of color current = Black → walk edges fuel color (current :: rest) = None.
Proof. intros Hb. induction fuel as [|fuel IH]; [done|]. by rw /= /walk_step Hb. Qed.

Lemma acyclic_ordered edges order :
  ordered edges order → (∀ x y, requires edges x y → x ∈ order) → acyclic edges.
Proof.
  intros Ho Hall x Hx. eapply ordered_acyclic; [done| |done]. inv Hx; by eapply Hall.
Qed.

(** The dependencies of a pair list are looked up unit by unit. *)
Lemma requires_insert edges x deps y z :
  requires (<[x := deps]> edges) y z ↔ (x = y ∧ z ∈ deps) ∨ (x ≠ y ∧ requires edges y z).
Proof.
  rw /requires. destruct (decide (x = y)) as [<-|Hne]; simplify_map_eq; [naive_solver|naive_solver].
Qed.

Lemma deps_of_insert edges x deps y :
  deps_of (<[x := deps]> edges) y = if bool_decide (x = y) then sort_Strings deps else deps_of edges y.
Proof. rw /deps_of. case_bool_decide; by simplify_map_eq. Qed.

Lemma sort_pair x y : String.le x y → sort_Strings [x; y] = [x; y].
Proof. intros. apply sort_Strings_sorted. by repeat constructor. Qed.

Lemma deps_of_empty x : deps_of ∅ x = [].
Proof. by rw /deps_of lookup_empty. Qed.

Lemma sort_one x : sort_Strings [x] = [x].
Proof. apply sort_Strings_sorted. by repeat constructor. Qed.

Lemma requires_empty x y : ¬ requires ∅ x y.
Proof. by intros ?%elem_of_nil. Qed.

(** Turns of the walk whose result is known. *)
Lemma scan_deps_white color current deps stack pushed :
  Forall (λ d, color_of color d = White) deps → deps ≠ [] →
  scan_deps color current deps stack pushed = inr (reverse deps ++ stack, true).
Proof.
  intros Hall. revert stack pushed. induction Hall as [|d deps Hd _ IH]; [done|].
  intros stack pushed _. rw /= Hd. destruct deps as [|d' deps]; [done|].
  rw IH; [done|]. by rw (reverse_cons (d' :: deps) d) -app_assoc.
Qed.

Lemma walk_push edges fuel color x rest deps :
  color_of color x = White → deps_of edges x = deps → deps ≠ [] →
  Forall (λ d, color_of (<[x := Gray]> color) d = White) deps →
  walk edges (S fuel) color (x :: rest)
  = walk edges fuel (<[x := Gray]> color) (reverse deps ++ x :: rest).
Proof. intros Hx Hdeps Hne Hall. by rw /= /walk_step Hx Hdeps scan_deps_white. Qed.

Lemma walk_leaf edges fuel color x rest :
  color_of color x = White → deps_of edges x = [] →
  walk edges (S fuel) color (x :: rest) = walk edges fuel (<[x := Black]> color) rest.
Proof. intros Hx Hdeps. by rw /= /walk_step Hx Hdeps /= insert_insert_eq. Qed.

Lemma walk_back edges fuel color x rest :
  color_of color x = Gray →
  walk edges (S fuel) color (x :: rest) = walk edges fuel (<[x := Black]> color) rest.
Proof. intros Hx. by rw /= /walk_step Hx. Qed.

(** Look up colours and dependencies in maps built by insertion. *)
Ltac look_up := rw ?color_of_insert ?deps_of_insert ?deps_of_empty /color_of;
  repeat case_bool_decide; by simplify_map_eq.

(** Endless search.  The search does not end on two particular acyclic graphs:
    a unit whose parent is also listed as its dependency, and three units of
    which the first requires the other two and the last one requires the
    second. *)
Theorem find_cycle_endless a b c fuel :
  a ≠ b → a ≠ c → b ≠ c → String.le a c → String.le b c →
  let twice : Edges := <[a := [b; b]]> ∅ in
  let shared : Edges := <[a := [b; c]]> (<[c := [b]]> ∅) in
  (acyclic twice ∧ findWorkUnitCycle fuel twice = None) ∧
  (acyclic shared ∧ findWorkUnitCycle fuel shared = None).
Proof.
  intros Hab Hac Hbc Hle1 Hle2 twice shared.
  pose proof requires_empty as Hnone.
  split; split.
  - apply (acyclic_ordered twice [a; b]); rw /twice /=.
    + split_and!; [set_solver| |set_solver| |done]; intros d; rw requires_insert; set_solver.
    + intros x y. rw requires_insert. set_solver.
  - assert (find_cycle fuel twice = None) as Hfind; [|by rw /findWorkUnitCycle Hfind].
    assert (sort_Strings (map_to_list twice).*1 = [a]) as Hkeys.
    { rw /twice insert_empty map_to_list_singleton. apply sort_one. }
    rw /find_cycle Hkeys /search bool_decide_true //.
    enough (walk twice fuel ∅ [a] = None) as -> by done.
    assert (deps_of twice a = [b; b]) as Ha by by rw /twice deps_of_insert bool_decide_true // sort_pair.
    assert (deps_of twice b = []) as Hb by (rw /twice; look_up).
    destruct fuel as [|fuel]; [done|]. rw (walk_push _ _ _ _ _ [b; b]) //; [repeat constructor; look_up|].
    destruct fuel as [|fuel]; [done|]. rw walk_leaf //; [look_up|].
    apply walk_stuck. look_up.
  - apply (acyclic_ordered shared [a; c; b]); rw /shared /=.
    + split_and!; [set_solver| |set_solver| |set_solver| |done]; intros d; rw !requires_insert; set_solver.
    + intros x y. rw !requires_insert. set_solver.
  - assert (find_cycle fuel shared = None) as Hfind; [|by rw /findWorkUnitCycle Hfind].
    assert (sort_Strings (map_to_list shared).*1 = [a; c]) as Hkeys.
    { rw -(sort_pair a c) //. apply sort_perm. rw /shared map_to_list_insert; [by simplify_map_eq|].
      by rw map_to_list_insert // map_to_list_empty. }
    rw /find_cycle Hkeys /search bool_decide_true //.
    enough (walk shared fuel ∅ [a] = None) as -> by done.
    assert (deps_of shared a = [b; c]) as Ha by by rw /shared deps_of_insert bool_decide_true // sort_pair.
    assert (deps_of shared b = []) as Hb by (rw /shared; look_up).
    assert (deps_of shared c = [b]) as Hc
      by by rw /shared !deps_of_insert bool_decide_false // bool_decide_true // sort_one.
    destruct fuel as [|fuel]; [done|]. rw (walk_push _ _ _ _ _ [b; c]) //; [repeat constructor; look_up|].
    destruct fuel as [|fuel]; [done|]. rw (walk_push _ _ _ _ _ [b]) //; [look_up|repeat constructor; look_up|].
    destruct fuel as [|fuel]; [done|]. rw walk_leaf //; [look_up|].
    destruct fuel as [|fuel]; [done|]. rw walk_back; [look_up|].
    apply walk_stuck. look_up.
Qed.

(** ** The end of the search *)

(** What is left to do: two turns for a white unit, one for a gray one. *)
Definition turns (c : Color) : nat := match c with White => 2 | Gray => 1 | Black => 0 end.

Definition left_to_do (color : Colors) (units : list string) : nat :=
  sum_list ((λ x, turns (color_of color x)) <$> units).

Lemma left_to_do_cons color x units :
  left_to_do color (x :: units) = turns (color_of color x) + left_to_do color units.
Proof. done. Qed.

Lemma left_to_do_other color x c units :
  x ∉ units → left_to_do (<[x := c]> color) units = left_to_do color units.
Proof.
  induction units as [|y units IH]; [done|]. intros [Hne Hx]%not_elem_of_cons.
  by rw !left_to_do_cons color_of_insert bool_decide_false // IH.
Qed.

Lemma left_to_do_insert color x c units :
  x ∈ units → NoDup units → (turns c < turns (color_of color x))%nat →
  (left_to_do (<[x := c]> color) units < left_to_do color units)%nat.
Proof.
  intros Hx Hnd Hc.
  induction Hnd as [|y units Hy Hnd IH]; [by apply elem_of_nil in Hx|].
  rw !left_to_do_cons color_of_insert. apply elem_of_cons in Hx as [->|Hx].
  - rw bool_decide_true // left_to_do_other //. lia.
  - rw bool_decide_false; [set_solver|]. specialize (IH Hx). lia.
Qed.

Lemma left_to_do_bound color units : (left_to_do color units ≤ 2 * length units)%nat.
Proof.
  induction units as [|x units IH]; [done|]. rw left_to_do_cons /=.
  assert (turns (color_of color x) ≤ 2)%nat by (destruct (color_of color x); simpl; lia). lia.
Qed.

(** The units of a graph. *)
Definition units_of (edges : Edges) : gset string :=
  dom edges ∪ list_to_set (List.concat (map_to_list edges).*2).

Lemma requires_units edges x y : requires edges x y → y ∈ units_of edges.
Proof.
  rw /requires /units_of. intros Hy. destruct (edges !! x) as [deps|] eqn:E; [|by apply elem_of_nil in Hy].
  apply elem_of_union_r, elem_of_list_to_set, list_elem_of_In, in_concat.
  exists deps. split; apply list_elem_of_In; [|done].
  apply list_elem_of_fmap. exists (x, deps). by rw elem_of_map_to_list.
Qed.

(** No unit is on the stack twice. *)
Record single_push (edges : Edges) (color : Colors) (stack : list string) : Prop := {
  sp_nodup : NoDup stack;
  sp_units x : x ∈ stack → x ∈ units_of edges;
  sp_black x : x ∈ stack → color_of color x ≠ Black;
  sp_white x : x ∈ stack → color_of color x = White →
    stack = [x] ∨ ∃ y, requires edges y x ∧ color_of color y ≠ White
}.

Lemma single_push_pop edges color x rest :
  single_push edges color (x :: rest) → single_push edges (<[x := Black]> color) rest.
Proof.
  intros [[Hx Hnd]%NoDup_cons Hunits Hblack Hwhite]. split; [done|set_solver| |].
  - intros y Hy. rw color_of_insert bool_decide_false; [set_solver|]. apply Hblack. set_solver.
  - intros y Hy. rw color_of_insert bool_decide_false; [set_solver|]. intros Hc.
    destruct (Hwhite y ltac:(set_solver) Hc) as [?|(z & Hz & Hcz)]; simplify_eq; [set_solver|].
    right. exists z. split; [done|]. rw color_of_insert. by case_bool_decide.
Qed.

Lemma single_push_new edges color x rest new :
  required_once edges → single_push edges color (x :: rest) → color_of color x = White →
  sublist (reverse new) (deps_of edges x) →
  (∀ d, d ∈ new → color_of (<[x := Gray]> color) d = White) →
  single_push edges (<[x := Gray]> color) (new ++ x :: rest).
Proof.
  intros [Hnd Honce] [Hst Hunits Hblack Hwhite] Hx Hsub Hnew.
  assert (∀ d, d ∈ new → requires edges x d) as Hreq.
  { intros d Hd. apply elem_of_deps. eapply elem_of_sublist; [|exact Hsub]. by apply elem_of_reverse. }
  assert (∀ d, d ∈ new → d ≠ x ∧ color_of color d = White) as Hother.
  { intros d Hd. specialize (Hnew d Hd). rw color_of_insert in Hnew. case_bool_decide; naive_solver. }
  split.
  - apply NoDup_app. split_and!; [|intros d Hd Hin|done].
    + rw -(reverse_Permutation new). eapply sublist_NoDup; [|exact Hsub].
      rw /deps_of /sort_Strings merge_sort_Permutation. apply Hnd.
    + destruct (Hother d Hd) as [Hne Hc].
      destruct (Hwhite d Hin Hc) as [?|(y & Hy & Hcy)]; simplify_eq.
      by rw (Honce y x d Hy (Hreq d Hd)) Hx in Hcy.
  - intros d [Hd|Hd]%elem_of_app; [by eapply requires_units, Hreq|by apply Hunits].
  - intros d [Hd|Hd]%elem_of_app; [by rw (Hnew d Hd)|].
    rw color_of_insert. case_bool_decide; [done|by apply Hblack].
  - intros d Hd Hc. right. apply elem_of_app in Hd as [Hd|Hd].
    + exists x. split; [by apply Hreq|]. by rw color_of_insert bool_decide_true.
    + rw color_of_insert in Hc. case_bool_decide; [done|].
      destruct (Hwhite d Hd Hc) as [?|(y & Hy & Hcy)]; simplify_eq.
      exists y. split; [done|]. rw color_of_insert. by case_bool_decide.
Qed.

Lemma walk_ends edges fuel color stack :
  required_once edges → single_push edges color stack →
  (left_to_do color (elements (units_of edges)) ≤ fuel)%nat →
  is_Some (walk edges fuel color stack).
Proof.
  intros Honce. revert color stack. induction fuel as [|fuel IH]; intros color [|x rest] Hsp Hfuel;
    cbn [walk]; try by eexists.
  all: assert (x ∈ elements (units_of edges)) as Hin by (apply elem_of_elements, Hsp; set_solver).
  all: pose proof (NoDup_elements (units_of edges)) as Hnd.
  all: pose proof (sp_black _ _ _ Hsp x ltac:(set_solver)) as Hblack.
  { pose proof (left_to_do_insert color x Black _ Hin Hnd) as Hlt.
    destruct (color_of color x); simpl in *; first [done|specialize (Hlt ltac:(lia)); lia]. }
  assert (∀ c, (turns c < turns (color_of color x))%nat →
    (left_to_do (<[x := c]> color) (elements (units_of edges)) ≤ fuel)%nat) as Hless.
  { intros c Hc. pose proof (left_to_do_insert color x c _ Hin Hnd Hc). lia. }
  rw /walk_step. destruct (color_of color x) eqn:Ex; [|by apply IH; [apply single_push_pop|apply Hless; simpl; lia]|done].
  pose proof (scan_deps_spec (<[x := Gray]> color) x (deps_of edges x) (x :: rest) false) as Hscan.
  destruct (scan_deps _ _ _ _ _) as [?|[stack' pushed']]; [by eexists|].
  destruct Hscan as (new & -> & Hsub & _ & Hnew & ->). simpl. case_bool_decide.
  - apply IH; [by apply single_push_new|apply Hless; simpl; lia].
  - rw insert_insert_eq. apply IH; [by apply single_push_pop|apply Hless; simpl; lia].
Qed.

(** End of the search.  When every unit is required by at most one unit, and
    once, the search ends: two turns for each unit are enough. *)
Theorem find_cycle_ends fuel edges :
  required_once edges → (2 * size (units_of edges) ≤ fuel)%nat →
  is_Some (findWorkUnitCycle fuel edges).
Proof.
  intros Honce Hfuel. rw /findWorkUnitCycle.
  enough (is_Some (find_cycle fuel edges)) as [found ->] by (simpl; by eexists).
  assert (∀ color units, (∀ x, x ∈ units → x ∈ units_of edges) → is_Some (search edges fuel units color))
    as Hsearch.
  { intros color units. revert color. induction units as [|x units IH]; intros color Hunits; cbn [search];
      [by eexists|]. case_bool_decide; [|apply IH; set_solver].
    assert (is_Some (walk edges fuel color [x])) as [[?|color'] ->]; [|by eexists|apply IH; set_solver].
    apply walk_ends; [done| |].
    - split; [apply NoDup_singleton|intros y ->%list_elem_of_singleton..].
      + apply Hunits. set_solver.
      + congruence.
      + by left.
    - etrans; [apply left_to_do_bound|exact Hfuel]. }
  apply Hsearch. intros x. rw /sort_Strings merge_sort_Permutation. intros Hx.
  apply elem_of_union_l, elem_of_dom. apply list_elem_of_fmap in Hx as ([y deps] & -> & Hy).
  apply elem_of_map_to_list in Hy. by eexists.
Qed.
