(* ===== verification/Database.v ===== *)
(** * The database (internal/state: store.go, events.go, redact.go and the schema)

    The tables of the store, the monad of database calls, transactions and the
    event journal, with the laws of running them.  A call of the database can
    fail at any point; a transaction that does not commit leaves the tables as
    they were.  A statement that breaks a constraint of the schema fails. *)

From S2P Require Import Prelude GoTime Text.

Local Open Scope runstead_scope.

(** ** Tables *)

Record TaskRow := {
  tk_objective : string;
  tk_status : string;
  tk_outcome : string;
  tk_stop_reason : string;
  tk_workspace : string;
  tk_model : string;
  tk_config_json : string;
  tk_execution_contract_json : string;
  tk_execution_contract_hash : string;
  tk_summary : string;
  tk_created_at : string;
  tk_started_at : string;
  tk_finished_at : string;
  tk_resume_count : Z
}.

#[export] Instance eta_TaskRow : Settable TaskRow := λ r,
  Build_TaskRow (tk_objective r) (tk_status r) (tk_outcome r) (tk_stop_reason r) (tk_workspace
    r) (tk_model r) (tk_config_json r) (tk_execution_contract_json r)
    (tk_execution_contract_hash r) (tk_summary r) (tk_created_at r) (tk_started_at r)
    (tk_finished_at r) (tk_resume_count r).

Record WorkUnitRow := {
  row_task_id : string;
  row_parent_work_unit_id : string;
  row_objective : string;
  row_status : string;
  row_tools_json : string;
  row_workspace_scope : string;
  row_acceptance_plan : string;
  row_acceptance_digest : string;
  row_context_budget : Z;
  row_provider_budget : Z;
  row_step_budget : Z;
  row_evidence_refs : string;
  row_failure_reason : string;
  row_blocking_reason : string;
  row_version : Z;
  row_created_at : string;
  row_updated_at : string
}.

#[export] Instance eta_WorkUnitRow : Settable WorkUnitRow := λ r,
  Build_WorkUnitRow (row_task_id r) (row_parent_work_unit_id r) (row_objective r) (row_status r)
    (row_tools_json r) (row_workspace_scope r) (row_acceptance_plan r) (row_acceptance_digest r)
    (row_context_budget r) (row_provider_budget r) (row_step_budget r) (row_evidence_refs r)
    (row_failure_reason r) (row_blocking_reason r) (row_version r) (row_created_at r)
    (row_updated_at r).

Record ActionRow := {
  ac_action_id : string;
  ac_task_id : string;
  ac_work_unit_id : string;
  ac_action_sequence : Z;
  ac_tool : string;
  ac_arguments_json : string;
  ac_fingerprint : string;
  ac_recipe_fingerprint : string;
  ac_workspace_signature : string;
  ac_status : string;
  ac_created_at : string
}.

#[export] Instance eta_ActionRow : Settable ActionRow := λ r,
  Build_ActionRow (ac_action_id r) (ac_task_id r) (ac_work_unit_id r) (ac_action_sequence r)
    (ac_tool r) (ac_arguments_json r) (ac_fingerprint r) (ac_recipe_fingerprint r)
    (ac_workspace_signature r) (ac_status r) (ac_created_at r).

Record ToolAttemptRow := {
  ta_execution_id : string;
  ta_task_id : string;
  ta_work_unit_id : string;
  ta_action_id : string;
  ta_tool : string;
  ta_arguments_json : string;
  ta_status : string;
  ta_classification : string;
  ta_recovery_class : Z;
  ta_evidence_id : string;
  ta_duration_ns : Z;
  ta_effect_after_hash : string;
  ta_planned_diff_json : string;
  ta_process_intent_json : string;
  ta_created_at : string;
  ta_prepared_at : string;
  ta_completed_at : string;
  ta_recovery_reason : string
}.

#[export] Instance eta_ToolAttemptRow : Settable ToolAttemptRow := λ r,
  Build_ToolAttemptRow (ta_execution_id r) (ta_task_id r) (ta_work_unit_id r) (ta_action_id r)
    (ta_tool r) (ta_arguments_json r) (ta_status r) (ta_classification r) (ta_recovery_class r)
    (ta_evidence_id r) (ta_duration_ns r) (ta_effect_after_hash r) (ta_planned_diff_json r)
    (ta_process_intent_json r) (ta_created_at r) (ta_prepared_at r) (ta_completed_at r)
    (ta_recovery_reason r).

Record ToolResultRow := {
  tr_evidence_id : string; tr_task_id : string; tr_execution_id : string; tr_success : bool;
  tr_untrusted : bool; tr_data_json : string; tr_metadata_json : string; tr_created_at : string }.

Record VerificationRow := {
  va_attempt_id : string; va_task_id : string; va_work_unit_id : string; va_sequence : Z;
  va_decision : string; va_report_json : string; va_summary : string; va_created_at : string }.

Record CheckRow := {
  vc_task_id : string; vc_attempt_id : string; vc_check_id : string; vc_type : string; vc_status :
  string; vc_expected : string; vc_observed : string; vc_evidence_json : string; vc_reason :
  string; vc_created_at : string }.

Record DecisionRow := {
  wd_task_id : string; wd_action_id : string; wd_tool : string; wd_decision : string; wd_reason :
  string; wd_created_at : string }.

Record PlanRow := { pl_version : Z; pl_spec_json : string; pl_digest : string; pl_created_at : string }.

Record BaselineRow := {
  bl_git_status : string; bl_git_diff : string; bl_status_truncated : bool; bl_diff_truncated : bool;
  bl_created_at : string }.

Record ApprovalRow := {
  ap_approval_id : string; ap_task_id : string; ap_action_id : string; ap_fingerprint : string;
  ap_decision : string; ap_reason : string; ap_actor : string; ap_created_at : string }.

(** Columns that may be NULL are [None]. *)
Record ProviderAttemptRow := {
  pv_execution_id : string;
  pv_task_id : string;
  pv_work_unit_id : string;
  pv_client_request_id : string;
  pv_provider : string;
  pv_model_pool : string;
  pv_model : string;
  pv_attempt_sequence : Z;
  pv_receipt_aware : bool;
  pv_protocol_family : string;
  pv_config_identity : string;
  pv_status : string;
  pv_outcome : string;
  pv_upstream_reached : bool;
  pv_uncertain : bool;
  pv_attempt_debited : Z;
  pv_selected_backoff_ns : Z;
  pv_error_class : string;
  pv_provider_failure_class : string;
  pv_delivery_state : string;
  pv_request_id : string;
  pv_created_at : string;
  pv_prepared_at : string;
  pv_completed_at : string;
  pv_recovery_reason : string;
  pv_status_code : option Z;
  pv_observed_reset_at : option string;
  pv_observed_retry_after_ns : option Z;
  pv_limit_requests : option Z;
  pv_remaining_requests : option Z;
  pv_reset_requests_ns : option Z;
  pv_limit_tokens : option Z;
  pv_remaining_tokens : option Z;
  pv_reset_tokens_ns : option Z
}.

#[export] Instance eta_ProviderAttemptRow : Settable ProviderAttemptRow := λ r,
  Build_ProviderAttemptRow (pv_execution_id r) (pv_task_id r) (pv_work_unit_id r)
    (pv_client_request_id r) (pv_provider r) (pv_model_pool r) (pv_model r) (pv_attempt_sequence r)
    (pv_receipt_aware r) (pv_protocol_family r) (pv_config_identity r) (pv_status r) (pv_outcome r)
    (pv_upstream_reached r) (pv_uncertain r) (pv_attempt_debited r) (pv_selected_backoff_ns r)
    (pv_error_class r) (pv_provider_failure_class r) (pv_delivery_state r) (pv_request_id r)
    (pv_created_at r) (pv_prepared_at r) (pv_completed_at r) (pv_recovery_reason r) (pv_status_code r)
    (pv_observed_reset_at r) (pv_observed_retry_after_ns r) (pv_limit_requests r)
    (pv_remaining_requests r) (pv_reset_requests_ns r) (pv_limit_tokens r) (pv_remaining_tokens r)
    (pv_reset_tokens_ns r).

Record ReceiptRow := {
  rp_receipt_attempt_id : string; rp_task_id : string; rp_execution_id : string; rp_schema_version : Z;
  rp_client_request_id : string; rp_sequence : Z; rp_provider : string; rp_model : string;
  rp_account_lane_hash : string; rp_started_at : string; rp_completed_at : string; rp_outcome : string;
  rp_trigger : string; rp_upstream_reached : bool }.

(** The one row of [governor_state]. *)
Record GovernorRow := {
  gr_account_policy_id : string;
  gr_provider_id : string;
  gr_model_pool : string;
  gr_model : string;
  gr_allowance_profile : string;
  gr_next_attempt : Z;
  gr_last_start : string;
  gr_cooldown_until : string;
  gr_circuit_state : string;
  gr_circuit_reason : string;
  gr_circuit_open_until : string;
  gr_circuit_refresh_required : bool;
  gr_circuit_last_rate_reset : string;
  gr_telemetry_available : option Z;
  gr_telemetry_reset_at : string;
  gr_telemetry_cooldown_until : string;
  gr_telemetry_rate_limited : bool;
  gr_telemetry_capacity_exhausted : bool;
  gr_telemetry_upstream_circuit : string;
  gr_telemetry_unsafe : bool;
  gr_rolling_3h_ceiling : Z;
  gr_rolling_1h_ceiling : Z;
  gr_rolling_10m_ceiling : Z;
  gr_task_budget_ceiling : Z;
  gr_retry_budget_ceiling : Z;
  gr_manual_reserve_ceiling : Z;
  gr_updated_at : string
}.

Record TaskStateRow := { ts_task_id : string; ts_attempts : Z; ts_retries : Z; ts_last_touched : string }.
Record RequestRecordRow := { rq_request_id : string; rq_state : string; rq_completed_at : string }.

(** The tables of the governor; the ledger holds pairs of time and task, the
    attempt identifiers come with the time they were seen. *)
Record GovernorTables := {
  tbl_governor_state : option GovernorRow;
  tbl_governor_ledger : list (string * string);
  tbl_governor_task_states : list TaskStateRow;
  tbl_governor_request_records : list RequestRecordRow;
  tbl_governor_attempt_ids : list (string * string);
  tbl_governor_rate_events : list string
}.

Definition no_governor : GovernorTables := {|
  tbl_governor_state := None; tbl_governor_ledger := []; tbl_governor_task_states := [];
  tbl_governor_request_records := []; tbl_governor_attempt_ids := []; tbl_governor_rate_events := [] |}.

(** [governorEventPayload]. *)
Record GovernorSummary := {
  gs_next_attempt : Z; gs_allowance_kind : string; gs_rolling_3h : nat; gs_rolling_1h : nat;
  gs_rolling_10m : nat; gs_task_used : Z; gs_cooldown_until : string; gs_circuit : string;
  gs_circuit_until : string }.

(** What an event says; it is stored as redacted JSON. *)
Inductive Payload :=
  | TaskCreated (status : string)
  | TaskStarted (status : string)
  | TaskFinalized (status outcome stop_reason classification summary : string)
      (evidence : option (list string)) (counters : list Z)
  | TaskApprovalRequired (action reason : string)
  | TaskVerificationPaused (stop_reason : string)
  | TaskPersistencePaused (stop_reason : string)
  | TaskHumanReviewRequired (reason : string) (attempts : option (list string))
  | RecoveryStarted (reason : string)
  | AttemptReconciled (execution status reason : string)
  | WriteAttemptReconciled (execution status reason evidence : string)
  | RecoveryBlocked (reason : string)
  | RecoveryContextReconstructed (evidence : list string) (tools providers uncertain chars : Z)
  | RecoveryContinued (turns attempts evidence chars : Z)
  | ProviderAttemptPrepared (execution client_request provider model model_pool : string) (sequence : Z)
      (receipt_aware : bool) (family config : string) (governor : GovernorSummary)
  | ProviderAttemptFinished (row : ProviderAttemptRow) (family config delivery : string) (receipts : nat)
      (circuit : string) (governor : GovernorSummary)
  | ProviderAttemptReconciled (execution status reason : string) (uncertain : bool) (debited : Z)
      (client_request : string) (conservative : bool)
  | ActionPlanned (action tool : string)
  | ActionRejected (action reason : string)
  | AttemptPrepared (execution action tool after_hash : string)
  | AttemptOutcome (execution status classification evidence : string) (duration : Z)
  | WritePolicyDecided (action tool decision reason : string)
  | RecipePolicyDecided (action recipe decision reason : string)
  | ApprovalRecorded (action fingerprint decision reason actor : string)
  | AcceptancePlanSaved (digest : string)
  | WorkspaceBaselineSaved (status_bytes diff_bytes : nat) (status_truncated diff_truncated : bool)
  | VerificationRecorded (attempt decision summary : string)
  | WorkUnitCreated (id parent : string) (dependencies : list string) (tools : option (list string))
  | WorkUnitTransition (id from to reason : string).

Definition kind_of (p : Payload) : string :=
  match p with
  | TaskCreated _ => "task_created"
  | TaskStarted _ => "task_started"
  | TaskFinalized _ _ _ _ _ _ _ => "task_finalized"
  | TaskApprovalRequired _ _ => "task_approval_required"
  | TaskVerificationPaused _ => "task_verification_paused"
  | TaskPersistencePaused _ => "task_persistence_paused"
  | TaskHumanReviewRequired _ _ => "task_human_review_required"
  | RecoveryStarted _ => "recovery_started"
  | AttemptReconciled _ _ _ | WriteAttemptReconciled _ _ _ _ => "tool_attempt_reconciled"
  | RecoveryBlocked _ => "recovery_blocked"
  | RecoveryContextReconstructed _ _ _ _ _ => "recovery_context_reconstructed"
  | RecoveryContinued _ _ _ _ => "recovery_continued"
  | ProviderAttemptPrepared _ _ _ _ _ _ _ _ _ _ => "provider_attempt_prepared"
  | ProviderAttemptFinished row _ _ _ _ _ _ =>
    if String.eqb (pv_status row) "failed" then "provider_attempt_failed"
    else if String.eqb (pv_status row) "uncertain" then "provider_attempt_uncertain"
    else "provider_attempt_completed"
  | ProviderAttemptReconciled _ _ _ _ _ _ _ => "provider_attempt_reconciled"
  | ActionPlanned _ _ => "action_planned"
  | ActionRejected _ _ => "action_rejected"
  | AttemptPrepared _ _ _ _ => "tool_attempt_prepared"
  | AttemptOutcome _ status _ _ _ =>
    if String.eqb status "completed" then "tool_attempt_completed" else "tool_attempt_failed"
  | WritePolicyDecided _ _ _ _ => "write_policy_decision"
  | RecipePolicyDecided _ _ _ _ => "recipe_policy_decision"
  | ApprovalRecorded _ _ _ _ _ => "approval_recorded"
  | AcceptancePlanSaved _ => "acceptance_plan_saved"
  | WorkspaceBaselineSaved _ _ _ _ => "workspace_baseline_saved"
  | VerificationRecorded _ _ _ => "verification_recorded"
  | WorkUnitCreated _ _ _ _ => "workunit_created"
  | WorkUnitTransition _ _ _ _ => "workunit_transition"
  end.

Record EventRow := {
  ev_task_id : string; ev_sequence : Z; ev_kind : string; ev_payload_json : string; ev_created_at
  : string }.

(** [task_id] is the primary key of [tasks], [acceptance_plans] and
    [workspace_baselines], [work_unit_id] that of [work_units]; the other tables are lists of rows in the order of insertion,
    whose keys the statements that insert check.  The identity sequence is a row
    of [meta]. *)
Record Tables := {
  tbl_tasks : gmap string TaskRow;
  tbl_work_units : gmap string WorkUnitRow;
  tbl_dependencies : list (string * string);
  tbl_events : list EventRow;
  tbl_actions : list ActionRow;
  tbl_tool_attempts : list ToolAttemptRow;
  tbl_tool_results : list ToolResultRow;
  tbl_verifications : list VerificationRow;
  tbl_checks : list CheckRow;
  tbl_decisions : list DecisionRow;
  tbl_approvals : list ApprovalRow;
  tbl_acceptance_plans : gmap string PlanRow;
  tbl_workspace_baselines : gmap string BaselineRow;
  tbl_provider_attempts : list ProviderAttemptRow;
  tbl_provider_receipts : list ReceiptRow;
  tbl_governor : GovernorTables;
  tbl_identity_sequence : Z
}.

#[export] Instance eta_Tables : Settable Tables := λ t,
  Build_Tables (tbl_tasks t) (tbl_work_units t) (tbl_dependencies t) (tbl_events t) (tbl_actions
    t) (tbl_tool_attempts t) (tbl_tool_results t) (tbl_verifications t) (tbl_checks t)
    (tbl_decisions t) (tbl_approvals t) (tbl_acceptance_plans t)
    (tbl_workspace_baselines t) (tbl_provider_attempts t) (tbl_provider_receipts t) (tbl_governor t)
    (tbl_identity_sequence t).

(** ** The database *)

Inductive StoreError :=
  | ErrIO (text : string)
  | ErrConstraint (table : string)
  | ErrInvalidRecord (text : string)
  | ErrInvalidWorkUnitTransition (from to : string)
  | ErrWorkUnitNotFound (id : string)
  | ErrWorkUnitCycle (cycle : string)
  | ErrWorkUnitMissingDependency (id : string)
  | ErrUnsupportedWorkUnitVersion (id : string) (version : Z)
  | ErrDecode (column : string)
  | ErrNotFound (what id : string)
  | ErrNotReconcilable (id : string)
  | ErrNotResumable
  | ErrOpenWorkUnitsBlockFinalize
  | ErrPendingApprovals
  | ErrVerificationRequired
  | ErrVerificationNotPassed (decision : string)
  (** not an error of the code: the cycle search is still running *)
  | NotEnded.

Record Store := { tables : Tables; calls : nat }.

#[export] Instance eta_Store : Settable Store := λ s, Build_Store (tables s) (calls s).

(** The [n]-th call of the database or of the clock: whether it fails, and the
    time stamp it would read. *)
Class Disk := { io : nat → option string; stamp : nat → string }.

(** Text that leaves the program: the redaction of internal/state/redact.go and
    the JSON encodings of encoding/json.  A nil slice is [None]. *)
Class Codec := {
  Redact : string → string;
  Marshal : option (list string) → string;
  Unmarshal : string → option (option (list string));
  MarshalPayload : Payload → string;
  (** a planned effect: diff, its bytes, truncated; [None] when it cannot be encoded *)
  MarshalEffect : string → Z → bool → option string;
  (** version and (id, type) of the checks of an acceptance plan *)
  UnmarshalPlan : string → option (Z * list (string * string))
}.

Abbreviation DB A := (State Store (StoreError + A)).

Definition fail {A} (e : StoreError) : DB A := mret (inl e).
Definition return_ {A} (a : A) : DB A := mret (inr a).
Definition check {A B} (m : DB A) (k : A → DB B) : DB B := λ s,
  match m s with
  | (inl e, s') => (inl e, s')
  | (inr a, s') => k a s'
  end.

Notation "x ←? m ; k" := (check m (λ x, k))
  (at level 20, m at level 100, k at level 200, right associativity) : runstead_scope.

Definition assert_ (b : bool) (e : StoreError) : DB unit := if b then return_ tt else fail e.

(** The loop over a slice that returns on the first error. *)
Fixpoint for_each {A} (f : A → DB unit) (xs : list A) : DB unit :=
  match xs with
  | [] => return_ tt
  | x :: xs' => _ ←? f x; for_each f xs'
  end.

Fixpoint map_each {A B} (f : A → DB B) (xs : list A) : DB (list B) :=
  match xs with
  | [] => return_ []
  | x :: xs' => y ←? f x; ys ←? map_each f xs'; return_ (y :: ys)
  end.

Section store.
Context `{Disk} `{Codec}.

Definition tick (s : Store) : Store := s <| calls ::= S |>.

Definition now : DB string := λ s, (inr (stamp (calls s)), tick s).

(** One statement: it fails without effect, or reads and writes the tables. *)
Definition statement {A} (f : Tables → StoreError + (A * Tables)) : DB A := λ s,
  match io (calls s) with
  | Some text => (inl (ErrIO text), tick s)
  | None =>
    match f (tables s) with
    | inl e => (inl e, tick s)
    | inr (a, t) => (inr a, tick s <| tables := t |>)
    end
  end.

Definition query {A} (f : Tables → A) : DB A := statement (λ t, inr (f t, t)).

(** [BeginTx], the body, [Commit]; [Rollback] is deferred. *)
Definition transaction {A} (body : DB A) : DB A := λ s,
  match (_ ←? query (λ _, tt); a ←? body; _ ←? query (λ _, tt); return_ a) s with
  | (inl e, s') => (inl e, s' <| tables := tables s |>)
  | ok => ok
  end.

Definition RedactJSON (data : string) : string := if String.eqb data "" then data else Redact data.

(** [COALESCE(MAX(sequence), 0) + 1] over the events of the task. *)
Definition next_sequence (events : list EventRow) (taskID : string) : Z :=
  foldr Z.max 0%Z (ev_sequence <$> filter (λ e, ev_task_id e = taskID) events) + 1.

(** Whether a row may refer to the task: foreign keys are enforced. *)
Definition has_task (t : Tables) (taskID : string) : bool := bool_decide (is_Some (tbl_tasks t !! taskID)).

Definition appendEvent (taskID : string) (payload : Payload) (createdAt : string) : DB unit :=
  statement (λ t,
    if has_task t taskID
    then inr (tt, t <| tbl_events ::= λ events, events ++ [{|
      ev_task_id := taskID; ev_sequence := next_sequence events taskID; ev_kind := kind_of payload;
      ev_payload_json := RedactJSON (MarshalPayload payload); ev_created_at := createdAt |}] |>)
    else inl (ErrConstraint "events")).
End store.

Section laws.
Context {DK : Disk} {CD : Codec}.

(** ** Running database calls *)

Lemma check_ok {A B} (m : DB A) (k : A → DB B) s b s' :
  check m k s = (inr b, s') → ∃ a s1, m s = (inr a, s1) ∧ k a s1 = (inr b, s').
Proof. rw /check. destruct (m s) as [[e|a] s1]; naive_solver. Qed.

Lemma statement_ok {A} (f : Tables → StoreError + (A * Tables)) s a s' :
  statement f s = (inr a, s') → f (tables s) = inr (a, tables s').
Proof.
  rw /statement. destruct (io (calls s)); [done|]. destruct (f (tables s)) as [e|[a' t]]; [done|].
  by intros [= <- <-].
Qed.

Lemma query_ok {A} (f : Tables → A) s a s' :
  query f s = (inr a, s') → a = f (tables s) ∧ tables s' = tables s.
Proof. intros H%statement_ok. simpl in H. naive_solver. Qed.

Lemma now_ok s a s' : now s = (inr a, s') → tables s' = tables s.
Proof. rw /now. by intros [= _ <-]. Qed.

Lemma assert_ok b e s a s' : assert_ b e s = (inr a, s') → b = true ∧ s' = s.
Proof. rw /assert_ /return_ /fail. by destruct b; intros [= _ <-]. Qed.

Lemma transaction_ok {A} (body : DB A) s a s' :
  transaction body s = (inr a, s') →
  ∃ s1 s2, tables s1 = tables s ∧ body s1 = (inr a, s2) ∧ tables s' = tables s2.
Proof.
  rw /transaction. destruct (check _ _ s) as [[e|a'] s0] eqn:E; [done|]. intros [= <- <-].
  apply check_ok in E as ([] & s1 & [_ H1]%query_ok & E).
  apply check_ok in E as (a'' & s2 & Hbody & E).
  apply check_ok in E as ([] & s3 & [_ H3]%query_ok & E). injection E as <- <-.
  eauto.
Qed.

Lemma transaction_failed {A} (body : DB A) s e s' :
  transaction body s = (inl e, s') → tables s' = tables s.
Proof. rw /transaction. destruct (check _ _ s) as [[e'|a'] s0]; [by intros [= _ <-]|done]. Qed.

Lemma appendEvent_ok taskID payload at_ s u s' :
  appendEvent taskID payload at_ s = (inr u, s') →
  ∃ event, tables s' = (tables s) <| tbl_events ::= λ events, events ++ [event] |>
    ∧ ev_task_id event = taskID ∧ ev_kind event = kind_of payload
    ∧ ev_payload_json event = RedactJSON (MarshalPayload payload)
    ∧ ev_sequence event = next_sequence (tbl_events (tables s)) taskID.
Proof.
  intros H%statement_ok. destruct (has_task _ _); [|done]. injection H as _ <-.
  eexists. split_and!; reflexivity.
Qed.

(** [runs m s a t]: the call returns [a] and leaves the tables [t]. *)
Definition runs {A} (m : DB A) (s : Store) (a : A) (t : Tables) : Prop :=
  ∃ s', m s = (inr a, s') ∧ tables s' = t.

Lemma runs_return {A} (a : A) s : runs (return_ a) s a (tables s).
Proof. by exists s. Qed.

Lemma runs_check {A B} (m : DB A) (k : A → DB B) s a t b t' :
  runs m s a t → (∀ s1, tables s1 = t → runs (k a) s1 b t') → runs (check m k) s b t'.
Proof. intros (s1 & Hm & Ht) Hk. rw /runs /check Hm. by apply Hk. Qed.

Lemma runs_assert b e s : b = true → runs (assert_ b e) s tt (tables s).
Proof. intros ->. by exists s. Qed.

Lemma runs_now s : runs now s (stamp (calls s)) (tables s).
Proof. by eexists. Qed.

Section healthy.
Context (Hio : ∀ n, io n = None).

Lemma runs_statement {A} (f : Tables → StoreError + (A * Tables)) s a t :
  f (tables s) = inr (a, t) → runs (statement f) s a t.
Proof. intros Hf. rw /runs /statement Hio Hf. by eexists. Qed.

Lemma runs_query {A} (f : Tables → A) s : runs (query f) s (f (tables s)) (tables s).
Proof. by apply runs_statement. Qed.

Lemma runs_transaction {A} (body : DB A) s a t :
  (∀ s1, tables s1 = tables s → runs body s1 a t) → runs (transaction body) s a t.
Proof.
  intros Hbody.
  assert (runs (_ ←? query (λ _, tt); a ←? body; _ ←? query (λ _, tt); return_ a) s a t)
    as (s' & Hs & Ht).
  { eapply runs_check; [apply runs_query|]. intros s1 H1. eapply runs_check; [by apply Hbody|].
    intros s2 <-. eapply runs_check; [apply runs_query|]. intros s3 <-. apply runs_return. }
  exists s'. by rw /transaction Hs.
Qed.

End healthy.

(** ** Calls that keep the tables within a relation *)

Section within.
Context (R : relation Tables) {HR : PreOrder R}.

Definition within {A} (m : DB A) : Prop := ∀ s, R (tables s) (tables (m s).2).

Lemma within_return {A} (r : StoreError + A) : within (mret r).
Proof. by intros s. Qed.

Lemma within_check {A B} (m : DB A) (k : A → DB B) :
  within m → (∀ a, within (k a)) → within (check m k).
Proof.
  intros Hm Hk s. rw /check. specialize (Hm s). destruct (m s) as [[e|a] s1]; [done|].
  etrans; [exact Hm|apply Hk].
Qed.

Lemma within_now : within now.
Proof. by intros s. Qed.

Lemma within_statement {A} (f : Tables → StoreError + (A * Tables)) :
  (∀ t a t', f t = inr (a, t') → R t t') → within (statement f).
Proof.
  intros Hf s. rw /statement. destruct (io (calls s)); [done|].
  destruct (f (tables s)) as [e|[a t]] eqn:E; [done|]. by apply Hf in E.
Qed.

Lemma within_query {A} (f : Tables → A) : within (query f).
Proof. apply within_statement. by intros t a t' [= _ <-]. Qed.

Lemma within_assert b e : within (assert_ b e).
Proof. rw /assert_. destruct b; apply within_return. Qed.

Lemma within_transaction {A} (body : DB A) : within body → within (transaction body).
Proof.
  intros Hbody s. destruct (transaction body s) as [[e|a] s'] eqn:E; simpl.
  - by apply transaction_failed in E as ->.
  - apply transaction_ok in E as (s1 & s2 & <- & Hb & ->). specialize (Hbody s1). by rw Hb in Hbody.
Qed.

Lemma within_append taskID payload at_ :
  (∀ t event, ev_task_id event = taskID → ev_kind event = kind_of payload →
     ev_sequence event = next_sequence (tbl_events t) taskID →
     R t (t <| tbl_events ::= λ events, events ++ [event] |>)) →
  within (appendEvent taskID payload at_).
Proof.
  intros Hevent. apply within_statement. intros t a t'. destruct (has_task t taskID); [|done].
  intros [= _ <-]. by apply Hevent.
Qed.

Lemma within_for_each {A} (f : A → DB unit) xs :
  (∀ x, within (f x)) → within (for_each f xs).
Proof.
  intros Hf. induction xs; [apply within_return|]. by apply within_check; [|intros _].
Qed.

Lemma within_map_each {A B} (f : A → DB B) xs :
  (∀ x, within (f x)) → within (map_each f xs).
Proof.
  intros Hf. induction xs; [apply within_return|]. apply within_check; [done|intros y].
  apply within_check; [done|intros ys]. apply within_return.
Qed.
End within.
End laws.

(** Walk through a call whose steps keep the tables within the relation; the
    statements that change the tables remain. *)
Ltac db_walk := repeat first
  [ progress intros
  | apply within_check; [apply _| |] | apply within_now; apply _ | apply within_query; apply _
  | apply within_assert; apply _ | apply within_transaction; [apply _|] | apply within_return; apply _
  | apply within_for_each; [apply _|] | apply within_map_each; [apply _|] | case_match ].

(** Split a successful call into its successful parts. *)
Ltac db_inv := repeat match goal with
  | H : check _ _ _ = (inr _, _) |- _ => apply check_ok in H; destruct H as (? & ? & ? & H)
  | H : query _ _ = (inr _, _) |- _ => apply query_ok in H; destruct H as [-> ?]
  | H : now _ = (inr _, _) |- _ => apply now_ok in H
  | H : assert_ _ _ _ = (inr _, _) |- _ => apply assert_ok in H; destruct H as [? ->]
  | H : return_ _ _ = (inr _, _) |- _ => first [injection H as <- <-|injection H as <-]
  | H : fail _ _ = (inr _, _) |- _ => done
  | H : statement _ _ = (inr _, _) |- _ => apply statement_ok in H
  end.

(** Replace the tables of intermediate states by what they are. *)
Ltac db_subst := repeat match goal with
  | H : tables ?x = _ |- _ => is_var x; progress rewrite -> H in *
  | H : tables ?x = _ |- _ => is_var x; clear H x
  end.
