(* ===== verification/WorkUnits.v ===== *)
(** * Durable work units (internal/state/workunits.go)

    The queries and transactions over the tables of work units, and the
    operations of the lifecycle. *)

From S2P Require Import Prelude GoTime Text Cycles Database.

Local Open Scope runstead_scope.

(** ** The lifecycle *)

Definition workUnitTransitions (from to : string) : bool :=
  match from, to with
  | "created", "ready" | "ready", "running" | "running", "completed" | "uncertain", "ready"
  | "running", "failed" | "running", "blocked" | "running", "uncertain" | "blocked", "ready"
  | "running", "ready" => true
  | _, _ => false
  end%string.

Definition WorkUnitStates (s : string) : bool :=
  match s with
  | "created" | "ready" | "running" | "completed" | "failed" | "blocked" | "uncertain" => true
  | _ => false
  end%string.

Definition supportedWorkUnitVersion : Z := 1.
Definition maxWorkUnitObjectiveBytes : nat := 4096.

Record WorkUnitCreate := {
  wc_TaskID : string;
  wc_WorkUnitID : string;
  wc_ParentWorkUnitID : string;
  wc_Objective : string;
  wc_Dependencies : list string;
  wc_Tools : option (list string);
  wc_WorkspaceScope : string;
  wc_AcceptancePlan : string;
  wc_AcceptanceDigest : string;
  wc_ContextBudget : Z;
  wc_ProviderBudget : Z;
  wc_StepBudget : Z
}.

Record WorkUnit := {
  WorkUnitID : string;
  TaskID : string;
  ParentWorkUnitID : string;
  Objective : string;
  Status : string;
  Tools : option (list string);
  WorkspaceScope : string;
  AcceptancePlanSpec : string;
  AcceptanceDigest : string;
  ContextBudget : Z;
  ProviderBudget : Z;
  StepBudget : Z;
  EvidenceRefs : option (list string);
  FailureReason : string;
  BlockingReason : string;
  Version : Z;
  CreatedAt : string;
  UpdatedAt : string;
  Dependencies : list string
}.

#[export] Instance eta_WorkUnit : Settable WorkUnit := λ u,
  Build_WorkUnit (WorkUnitID u) (TaskID u) (ParentWorkUnitID u) (Objective u) (Status u) (Tools u)
    (WorkspaceScope u) (AcceptancePlanSpec u) (AcceptanceDigest u) (ContextBudget u)
    (ProviderBudget u) (StepBudget u) (EvidenceRefs u) (FailureReason u) (BlockingReason u)
    (Version u) (CreatedAt u) (UpdatedAt u) (Dependencies u).

(** [ORDER BY created_at, work_unit_id]. *)
Definition created_before (a b : string * WorkUnitRow) : Prop :=
  String.le (row_created_at a.2) (row_created_at b.2) ∧
  (row_created_at a.2 = row_created_at b.2 → String.le a.1 b.1).

#[export] Instance created_before_dec a b : Decision (created_before a b).
Proof. rw /created_before. apply _. Defined.

Section store.
Context `{Disk} `{Codec}.

(** ** Creation *)

Definition validateWorkUnitPlanShape (spec : string) : option StoreError :=
  match UnmarshalPlan spec with
  | None => Some (ErrInvalidRecord "work unit acceptance plan")
  | Some (version, checks) =>
    if negb (version =? 1)%Z then Some (ErrInvalidRecord "work unit acceptance plan: unsupported version")
    else if Nat.eqb (length checks) 0 then Some (ErrInvalidRecord "work unit acceptance plan: no checks")
    else first_error (λ '(id, type),
      if String.eqb id "" || String.eqb type ""
      then Some (ErrInvalidRecord "work unit acceptance plan: check requires id and type") else None) checks
  end.

Definition ValidateWorkUnitCreate (record : WorkUnitCreate) : option StoreError :=
  let tools := default [] (wc_Tools record) in
  if blank (wc_TaskID record) then Some (ErrInvalidRecord "work unit requires a task id")
  else if blank (wc_WorkUnitID record) then Some (ErrInvalidRecord "work unit requires a stable id")
  else if blank (wc_Objective record) then
    Some (ErrInvalidRecord "work unit requires a bounded objective")
  else if Nat.ltb maxWorkUnitObjectiveBytes (String.length (wc_Objective record)) then
    Some (ErrInvalidRecord "work unit objective exceeds 4096 bytes")
  else if existsb blank tools then
    Some (ErrInvalidRecord "work unit tool envelope contains an empty tool id")
  else if Nat.ltb 64 (length (wc_Dependencies record)) || Nat.ltb 64 (length tools) then
    Some (ErrInvalidRecord "work unit dependency/tool lists exceed the bounded maximum")
  else if (wc_ContextBudget record <? 0)%Z || (wc_ProviderBudget record <? 0)%Z
          || (wc_StepBudget record <? 0)%Z then
    Some (ErrInvalidRecord "work unit budgets must not be negative")
  else if String.eqb (wc_AcceptancePlan record) "" then None
  else match validateWorkUnitPlanShape (wc_AcceptancePlan record) with
       | Some e => Some e
       | None => if blank (wc_AcceptanceDigest record)
                 then Some (ErrInvalidRecord "work unit acceptance plan requires its digest") else None
       end.

(** The row with this id under this task. *)
Definition unit_row (t : Tables) (taskID id : string) : option WorkUnitRow :=
  row ← tbl_work_units t !! id;
  if String.eqb (row_task_id row) taskID then Some row else None.

Definition has_unit (t : Tables) (taskID id : string) : bool :=
  match unit_row t taskID id with Some _ => true | None => false end.

(** The edges of the task, as a map from a unit to what it depends on. *)
Definition loadDependencyEdges (taskID : string) (t : Tables) : Edges :=
  foldl (λ edges '(unit, dependency),
    if has_unit t taskID unit && negb (String.eqb dependency "")
    then <[unit := default [] (edges !! unit) ++ [dependency]]> edges else edges)
    ∅ (tbl_dependencies t).

Definition new_row (record : WorkUnitCreate) (now : string) : WorkUnitRow := {|
  row_task_id := wc_TaskID record;
  row_parent_work_unit_id := Redact (wc_ParentWorkUnitID record);
  row_objective := Redact (wc_Objective record);
  row_status := "created";
  row_tools_json := RedactJSON (Marshal (wc_Tools record));
  row_workspace_scope := Redact (wc_WorkspaceScope record);
  row_acceptance_plan := RedactJSON (wc_AcceptancePlan record);
  row_acceptance_digest := Redact (wc_AcceptanceDigest record);
  row_context_budget := wc_ContextBudget record;
  row_provider_budget := wc_ProviderBudget record;
  row_step_budget := wc_StepBudget record;
  row_evidence_refs := "[]";
  row_failure_reason := "";
  row_blocking_reason := "";
  row_version := 1;
  row_created_at := now;
  row_updated_at := now |}.

Definition insert_work_unit (id : string) (row : WorkUnitRow) : DB unit :=
  statement (λ t, match tbl_work_units t !! id with
    | Some _ => inl (ErrConstraint "work_units")
    | None => inr (tt, t <| tbl_work_units ::= insert id row |>)
    end).

Definition insert_dependency (id dependency : string) : DB unit :=
  statement (λ t, if bool_decide ((id, dependency) ∈ tbl_dependencies t)
    then inl (ErrConstraint "work_unit_dependencies")
    else inr (tt, t <| tbl_dependencies ::= λ ds, ds ++ [(id, dependency)] |>)).

(** [fuel] bounds the cycle search. *)
Definition CreateWorkUnit (fuel : nat) (record : WorkUnitCreate) : DB string :=
  match ValidateWorkUnitCreate record with
  | Some e => fail e
  | None =>
    at_ ←? now;
    transaction (
      exists_ ←? query (λ t, bool_decide (is_Some (tbl_tasks t !! wc_TaskID record)));
      _ ←? assert_ exists_ (ErrWorkUnitNotFound "");
      _ ←? (if String.eqb (wc_ParentWorkUnitID record) "" then return_ tt else
             parent ←? query (λ t, has_unit t (wc_TaskID record) (wc_ParentWorkUnitID record));
             assert_ parent (ErrWorkUnitNotFound (wc_ParentWorkUnitID record)));
      _ ←? for_each (λ dependency,
             count ←? query (λ t, has_unit t (wc_TaskID record) dependency);
             assert_ count (ErrWorkUnitMissingDependency dependency)) (wc_Dependencies record);
      edges ←? query (loadDependencyEdges (wc_TaskID record));
      _ ←? match findWorkUnitCycle fuel
                   (<[wc_WorkUnitID record := wc_Dependencies record ++ [wc_ParentWorkUnitID record]]> edges)
           with
           | None => fail NotEnded
           | Some cycle => assert_ (String.eqb cycle "") (ErrWorkUnitCycle cycle)
           end;
      _ ←? insert_work_unit (wc_WorkUnitID record) (new_row record at_);
      _ ←? for_each (insert_dependency (wc_WorkUnitID record)) (wc_Dependencies record);
      _ ←? appendEvent (wc_TaskID record) (WorkUnitCreated (wc_WorkUnitID record)
             (wc_ParentWorkUnitID record) (wc_Dependencies record) (wc_Tools record)) at_;
      return_ (wc_WorkUnitID record))
  end.

(** ** Loading *)

Definition scanWorkUnit (id : string) (row : WorkUnitRow) : StoreError + WorkUnit :=
  if negb (row_version row =? supportedWorkUnitVersion)%Z then
    inl (ErrUnsupportedWorkUnitVersion id (row_version row))
  else
    match Unmarshal (row_tools_json row), Unmarshal (row_evidence_refs row) with
    | Some tools, Some refs => inr {|
        WorkUnitID := id; TaskID := row_task_id row;
        ParentWorkUnitID := row_parent_work_unit_id row; Objective := row_objective row;
        Status := row_status row; Tools := tools; WorkspaceScope := row_workspace_scope row;
        AcceptancePlanSpec := row_acceptance_plan row; AcceptanceDigest := row_acceptance_digest row;
        ContextBudget := row_context_budget row; ProviderBudget := row_provider_budget row;
        StepBudget := row_step_budget row; EvidenceRefs := refs;
        FailureReason := row_failure_reason row; BlockingReason := row_blocking_reason row;
        Version := row_version row; CreatedAt := row_created_at row; UpdatedAt := row_updated_at row;
        Dependencies := [] |}
    | None, _ => inl (ErrDecode "tools_json")
    | _, None => inl (ErrDecode "evidence_refs")
    end.

Definition dependencies_of (t : Tables) (id : string) : list string :=
  sort_Strings (snd <$> filter (λ p, p.1 = id) (tbl_dependencies t)).

Definition workUnitDependencies (id : string) : DB (list string) := query (λ t, dependencies_of t id).

Definition with_dependencies (unit : WorkUnit) : DB WorkUnit :=
  dependencies ←? workUnitDependencies (WorkUnitID unit);
  return_ (unit <| Dependencies := dependencies |>).

(** Every failure but an unsupported version is reported as not found. *)
Definition GetWorkUnit (taskID workUnitID : string) : DB WorkUnit := λ s,
  match query (λ t, unit_row t taskID workUnitID) s with
  | (inr (Some row), s') =>
    match scanWorkUnit workUnitID row with
    | inr unit => with_dependencies unit s'
    | inl (ErrUnsupportedWorkUnitVersion id version) =>
      (inl (ErrUnsupportedWorkUnitVersion id version), s')
    | inl _ => (inl (ErrWorkUnitNotFound workUnitID), s')
    end
  | (_, s') => (inl (ErrWorkUnitNotFound workUnitID), s')
  end.

Definition task_rows (t : Tables) (taskID : string) : list (string * WorkUnitRow) :=
  merge_sort created_before
    (filter (λ p, row_task_id p.2 = taskID) (map_to_list (tbl_work_units t))).

Fixpoint scan_all (rows : list (string * WorkUnitRow)) : StoreError + list WorkUnit :=
  match rows with
  | [] => inr []
  | (id, row) :: rows' =>
    match scanWorkUnit id row with
    | inl e => inl e
    | inr unit => match scan_all rows' with inl e => inl e | inr units => inr (unit :: units) end
    end
  end.

Definition ListWorkUnits (taskID : string) : DB (list WorkUnit) :=
  scanned ←? query (λ t, scan_all (task_rows t taskID));
  match scanned with
  | inl e => fail e
  | inr units => map_each with_dependencies units
  end.

(** ** Transitions *)

Definition reasonFor (to reason column : string) : string :=
  if String.eqb reason "" then ""
  else if String.eqb column "failure" then
    if String.eqb to "failed" then Redact reason else ""
  else if String.eqb column "blocking" then
    if String.eqb to "blocked" || String.eqb to "uncertain" then Redact reason else ""
  else "".

(** The evidence of the unit; a nil slice when there is none. *)
Definition evidence_refs (t : Tables) (taskID workUnitID : string) : option (list string) :=
  let executions := ta_execution_id <$>
    filter (λ a, ta_task_id a = taskID ∧ ta_work_unit_id a = workUnitID) (tbl_tool_attempts t) in
  match sort_Strings (tr_evidence_id <$>
          filter (λ r, tr_execution_id r ∈ executions) (tbl_tool_results t)) with
  | [] => None
  | refs => Some refs
  end.

Definition workUnitEvidenceRefsTx (taskID workUnitID : string) : DB (option (list string)) :=
  query (λ t, evidence_refs t taskID workUnitID).

(** [UPDATE work_units ... WHERE work_unit_id = ? AND task_id = ? AND status = ?]:
    the number of rows affected. *)
Definition update_work_unit (taskID id from : string) (f : WorkUnitRow → WorkUnitRow) : DB nat :=
  statement (λ t, inr (
    match unit_row t taskID id with
    | Some row =>
      if String.eqb (row_status row) from then (1%nat, t <| tbl_work_units ::= insert id (f row) |>)
      else (O, t)
    | None => (O, t)
    end)).

Definition set_status (to reason now : string) (row : WorkUnitRow) : WorkUnitRow :=
  row <| row_status := to |> <| row_failure_reason := reasonFor to reason "failure" |>
      <| row_blocking_reason := reasonFor to reason "blocking" |> <| row_updated_at := now |>.

Definition TransitionWorkUnit (taskID workUnitID from to reason : string) : DB unit :=
  if negb (WorkUnitStates from) || negb (WorkUnitStates to) then
    fail (ErrInvalidWorkUnitTransition "" "")
  else if negb (workUnitTransitions from to) then fail (ErrInvalidWorkUnitTransition from to)
  else
    at_ ←? now;
    transaction (
      n ←? (if String.eqb to "completed" then
              evidence ←? workUnitEvidenceRefsTx taskID workUnitID;
              update_work_unit taskID workUnitID from (λ row,
                (set_status to reason at_ row) <| row_evidence_refs := Marshal evidence |>)
            else update_work_unit taskID workUnitID from (set_status to reason at_));
      _ ←? assert_ (Nat.eqb n 1) (ErrInvalidWorkUnitTransition from to);
      appendEvent taskID (WorkUnitTransition workUnitID from to reason) at_).

(** ** Selection *)

Definition statusByID (units : list WorkUnit) (id : string) : string :=
  match List.find (λ u, String.eqb (WorkUnitID u) id) (List.rev units) with
  | Some u => Status u
  | None => ""
  end.

Definition ready_among (units : list WorkUnit) (unit : WorkUnit) : bool :=
  let completed id := String.eqb (statusByID units id) "completed" in
  (String.eqb (Status unit) "created" || String.eqb (Status unit) "ready")
  && forallb completed (Dependencies unit)
  && (String.eqb (ParentWorkUnitID unit) "" || completed (ParentWorkUnitID unit)).

Definition ReadyWorkUnits (taskID : string) : DB (list WorkUnit) :=
  units ←? ListWorkUnits taskID;
  return_ (List.filter (ready_among units) units).

Definition open_rows (t : Tables) (taskID : string) : list (string * WorkUnitRow) :=
  filter (λ p, row_task_id p.2 = taskID ∧ row_status p.2 ≠ "completed") (map_to_list (tbl_work_units t)).

Definition HasOpenWorkUnits (taskID : string) : DB bool :=
  query (λ t, Nat.ltb 0 (length (open_rows t taskID))).

(** ** Recovery *)

Context `{MapOrder}.

(** Without an [ORDER BY] the database chooses the order. *)
Definition running_ids (t : Tables) (taskID : string) : list string :=
  (filter (λ p, row_task_id p.2 = taskID ∧ row_status p.2 = "running") (range (tbl_work_units t))).*1.

Definition ResetInterruptedWorkUnits (taskID reason : string) : DB nat :=
  at_ ←? now;
  transaction (
    ids ←? query (λ t, running_ids t taskID);
    _ ←? for_each (λ id,
           _ ←? update_work_unit taskID id "running"
                  (λ row, row <| row_status := "ready" |> <| row_updated_at := at_ |>);
           appendEvent taskID (WorkUnitTransition id "running" "ready" reason) at_) ids;
    return_ (length ids)).

Definition resolved_status (status : string) : bool :=
  existsb (String.eqb status) ["completed"; "failed"; "reconciled"; "canceled"]%string.

Definition unresolved_attempts (t : Tables) (taskID workUnitID : string) : nat :=
  length (filter (λ a, ta_task_id a = taskID ∧ ta_work_unit_id a = workUnitID
                       ∧ resolved_status (ta_status a) = false) (tbl_tool_attempts t)).

(** The units of the list one by one; the count is lost with an error here, and
    the transitions made before it stay. *)
Fixpoint reconcile_each (taskID reason : string) (units : list WorkUnit) (changed : nat) : DB nat :=
  match units with
  | [] => return_ changed
  | unit :: units' =>
    if negb (String.eqb (Status unit) "uncertain") then reconcile_each taskID reason units' changed
    else
      unresolved ←? query (λ t, unresolved_attempts t taskID (WorkUnitID unit));
      if Nat.ltb 0 unresolved then reconcile_each taskID reason units' changed
      else
        _ ←? TransitionWorkUnit taskID (WorkUnitID unit) "uncertain" "ready" reason;
        reconcile_each taskID reason units' (S changed)
  end.

Definition ReconcileUncertainWorkUnits (taskID reason : string) : DB nat :=
  units ←? ListWorkUnits taskID;
  reconcile_each taskID reason units 0.

(** ** Evidence of the other tables *)

Definition effectiveFingerprintExpr (a : ActionRow) : string :=
  if String.eqb (ac_tool a) "run_recipe" && negb (String.eqb (ac_recipe_fingerprint a) "")
  then ac_recipe_fingerprint a else ac_fingerprint a.

Definition approved (t : Tables) (taskID fingerprint : string) : bool :=
  existsb (λ ap, String.eqb (ap_task_id ap) taskID && String.eqb (ap_fingerprint ap) fingerprint)
    (tbl_approvals t).

Definition pending_approvals (t : Tables) (taskID workUnitID : string) : nat :=
  length (List.filter (λ '(d, a),
      String.eqb (wd_task_id d) taskID && String.eqb (ac_task_id a) (wd_task_id d)
      && String.eqb (ac_action_id a) (wd_action_id d) && String.eqb (ac_work_unit_id a) workUnitID
      && String.eqb (wd_decision d) "approval_required"
      && negb (approved t (wd_task_id d) (effectiveFingerprintExpr a)))
    (list_prod (tbl_decisions t) (tbl_actions t))).

Definition WorkUnitPendingApprovalCount (taskID workUnitID : string) : DB nat :=
  query (λ t, pending_approvals t taskID workUnitID).

(** The row with the largest sequence among those of the unit. *)
Definition later_attempt (best : option VerificationRow) (v : VerificationRow)
    : option VerificationRow :=
  match best with
  | Some b => if (va_sequence b <? va_sequence v)%Z then Some v else best
  | None => Some v
  end.

Definition latest_decision (t : Tables) (taskID workUnitID : string) : option string :=
  va_decision <$> foldl later_attempt None
    (filter (λ v, va_task_id v = taskID ∧ va_work_unit_id v = workUnitID) (tbl_verifications t)).

Definition LatestWorkUnitVerification (taskID workUnitID : string) : DB (option string) :=
  query (λ t, latest_decision t taskID workUnitID).

End store.
