(* ===== verification/UnitLaws.v ===== *)
(** * The lifecycle of work units

    What each operation of the store does to the tables, the lifecycle every
    unit follows under any sequence of operations, the graph the dependencies
    form, and what follows for the selection of the next units. *)

From S2P Require Import Prelude GoTime Text Cycles Database WorkUnits.
From stdpp Require Import relations.

Local Open Scope runstead_scope.

Section operations.
Context {DK : Disk} {CD : Codec}.

(** ** Transitions *)

(** The row after a transition at time [at_]. *)
Definition moved_row (t : Tables) (taskID id to reason at_ : string) (row : WorkUnitRow)
    : WorkUnitRow :=
  if String.eqb to "completed"
  then (set_status to reason at_ row) <| row_evidence_refs := Marshal (evidence_refs t taskID id) |>
  else set_status to reason at_ row.

Lemma update_ok taskID id from f s n s' :
  update_work_unit taskID id from f s = (inr n, s') → n = 1%nat →
  ∃ row, unit_row (tables s) taskID id = Some row ∧ row_status row = from
    ∧ tables s' = (tables s) <| tbl_work_units ::= insert id (f row) |>.
Proof.
  intros H%statement_ok Hn. destruct (unit_row (tables s) taskID id) as [row|]; [|naive_solver].
  destruct (String.eqb_spec (row_status row) from); [|naive_solver]. exists row. naive_solver.
Qed.

(** The edges of the lifecycle as a list. *)
Definition lifecycle_edges : list (string * string) :=
  [("created", "ready"); ("ready", "running"); ("running", "completed"); ("uncertain", "ready");
   ("running", "failed"); ("running", "blocked"); ("running", "uncertain"); ("blocked", "ready");
   ("running", "ready")]%string.

Lemma edges_listed from to : workUnitTransitions from to = true ↔ (from, to) ∈ lifecycle_edges.
Proof.
  split.
  - rw /workUnitTransitions. intros H.
    repeat match goal with
      | H : match ?x with _ => _ end = true |- _ => destruct x; try done
      end; repeat constructor.
  - intros H. rw /lifecycle_edges in H. repeat (apply elem_of_cons in H as [[= -> ->]|H]; [done|]).
    by apply elem_of_nil in H.
Qed.

Lemma edge_states from to :
  workUnitTransitions from to = true → WorkUnitStates from = true ∧ WorkUnitStates to = true.
Proof.
  intros H%edges_listed. rw /lifecycle_edges in H.
  repeat (apply elem_of_cons in H as [[= -> ->]|H]; [done|]). by apply elem_of_nil in H.
Qed.

Lemma update_runs taskID id from to reason s row :
  (∀ n, io n = None) → unit_row (tables s) taskID id = Some row → row_status row = from →
  ∃ t, ∀ at_ s1, tables s1 = tables s → runs (
    if String.eqb to "completed" then
      evidence ←? workUnitEvidenceRefsTx taskID id;
      update_work_unit taskID id from (λ row,
        (set_status to reason at_ row) <| row_evidence_refs := Marshal evidence |>)
    else update_work_unit taskID id from (set_status to reason at_)) s1 1%nat (t at_)
    ∧ tbl_tasks (t at_) = tbl_tasks (tables s).
Proof.
  intros Hio Hrow Hst.
  exists (λ at_, (tables s) <| tbl_work_units ::=
    insert id (moved_row (tables s) taskID id to reason at_ row) |>).
  intros at_ s1 H1. split; [|done]. rw /moved_row. destruct (String.eqb to "completed").
  - eapply runs_check; [by apply runs_query|]. intros s2 H2. apply runs_statement; [done|].
    by rw H2 H1 Hrow Hst String.eqb_refl.
  - apply runs_statement; [done|]. by rw H1 Hrow Hst String.eqb_refl.
Qed.

Lemma transition_effect taskID id from to reason s :
  let r := TransitionWorkUnit taskID id from to reason s in
  match r.1 with
  | inl _ => tables r.2 = tables s
  | inr _ => workUnitTransitions from to = true ∧ ∃ row at_ event,
      unit_row (tables s) taskID id = Some row ∧ row_status row = from
      ∧ tables r.2 = ((tables s) <| tbl_work_units ::= insert id
                                     (moved_row (tables s) taskID id to reason at_ row) |>)
                       <| tbl_events ::= λ events, events ++ [event] |>
      ∧ ev_task_id event = taskID
      ∧ ev_payload_json event = RedactJSON (MarshalPayload (WorkUnitTransition id from to reason))
  end.
Proof.
  rw /TransitionWorkUnit. destruct (negb (WorkUnitStates from) || _); [done|].
  destruct (workUnitTransitions from to) eqn:Hedge; [|done]. cbn [negb].
  destruct (check now _ s) as [[e|[]] s'] eqn:E; cbn [fst snd].
  { rw /check /= in E. by apply transaction_failed in E. }
  split; [done|]. apply check_ok in E as (at_ & s0 & H0%now_ok & E).
  apply transaction_ok in E as (s1 & s2 & H1 & E & H2). rw H0 in H1. db_inv.
  apply Nat.eqb_eq in H3. apply appendEvent_ok in E as (event & E & Htask & _ & Hpayload & _).
  assert (∃ row, unit_row (tables s) taskID id = Some row ∧ row_status row = from ∧
    tables x0 = (tables s) <| tbl_work_units ::=
      insert id (moved_row (tables s) taskID id to reason at_ row) |>)
    as (row & Hrow & Hst & Hx0).
  { rw /moved_row -H1. destruct (String.eqb to "completed"); db_inv.
    - apply update_ok in H as (row & Hrow & Hst & Ht); [|done]. exists row.
      apply query_ok in H4 as [-> H4]. by rw H4 in Hrow Ht.
    - by apply update_ok in H as (row & ? & ? & ?); [exists row|done]. }
  exists row, at_, event. split_and!; [done|done| |done|done]. by rw H2 E Hx0.
Qed.

Lemma transition_succeeds taskID id from to reason s :
  (∀ n, io n = None) → workUnitTransitions from to = true →
  has_task (tables s) taskID = true →
  (∃ row, unit_row (tables s) taskID id = Some row ∧ row_status row = from) →
  (TransitionWorkUnit taskID id from to reason s).1 = inr tt.
Proof.
  intros Hio Hedge Htask (row & Hrow & Hst). rw /TransitionWorkUnit Hedge.
  destruct (edge_states from to Hedge) as [-> ->]. cbn [negb orb].
  assert (∃ t, runs (check now (λ at_, transaction _)) s tt t) as (t & s' & -> & _); [|done].
  destruct (update_runs taskID id from to reason s row Hio Hrow Hst) as (t & Hup).
  eexists. eapply runs_check; [apply runs_now|]. intros s1 H1. apply (runs_transaction Hio).
  intros s2 H2. eapply runs_check; [by apply Hup; rw H2 H1|]. intros s3 H3.
  eapply runs_check; [by apply runs_assert|]. intros s4 H4.
  apply runs_statement; [done|]. rw H4 H3.
  destruct (Hup (stamp (calls s)) s1 H1) as [_ Htasks].
  by replace (has_task _ taskID) with true by by rw /has_task Htasks.
Qed.

(** Transitions.  A transition succeeds only along an edge of the lifecycle
    and from the status the row really has; it then changes the status, the
    reasons, the time and, on completion, the evidence of that one row and
    appends one event.  When it fails, for whatever reason, the tables are as
    they were.  On a disk that does not fail every such edge of a unit whose task
    exists succeeds. *)
Theorem TransitionWorkUnit_spec taskID id from to reason s :
  let r := TransitionWorkUnit taskID id from to reason s in
  match r.1 with
  | inl _ => tables r.2 = tables s
  | inr _ => workUnitTransitions from to = true ∧ ∃ row at_ event,
      unit_row (tables s) taskID id = Some row ∧ row_status row = from
      ∧ tables r.2 = ((tables s) <| tbl_work_units ::= insert id
                                     (moved_row (tables s) taskID id to reason at_ row) |>)
                       <| tbl_events ::= λ events, events ++ [event] |>
      ∧ ev_task_id event = taskID
      ∧ ev_payload_json event = RedactJSON (MarshalPayload (WorkUnitTransition id from to reason))
  end
  ∧ ((∀ n, io n = None) → workUnitTransitions from to = true → has_task (tables s) taskID = true →
     (∃ row, unit_row (tables s) taskID id = Some row ∧ row_status row = from) → r.1 = inr tt).
Proof. split; [apply transition_effect|apply transition_succeeds]. Qed.

(** ** Creation *)

(** The tables after a unit was created at time [at_]. *)
Definition created (record : WorkUnitCreate) (at_ : string) (event : EventRow) (t : Tables) : Tables :=
  ((t <| tbl_work_units ::= insert (wc_WorkUnitID record) (new_row record at_) |>)
     <| tbl_dependencies ::= λ ds, ds ++ (pair (wc_WorkUnitID record) <$> wc_Dependencies record) |>)
     <| tbl_events ::= λ events, events ++ [event] |>.

(** What the tables must hold for a unit to be created. *)
Record creatable (record : WorkUnitCreate) (t : Tables) : Prop := {
  cr_task : is_Some (tbl_tasks t !! wc_TaskID record);
  cr_parent : wc_ParentWorkUnitID record = ""%string ∨
    has_unit t (wc_TaskID record) (wc_ParentWorkUnitID record) = true;
  cr_dependencies : Forall (λ d, has_unit t (wc_TaskID record) d = true) (wc_Dependencies record);
  cr_acyclic : acyclic (<[wc_WorkUnitID record := wc_Dependencies record ++ [wc_ParentWorkUnitID record]]>
    (loadDependencyEdges (wc_TaskID record) t));
  cr_new : tbl_work_units t !! wc_WorkUnitID record = None;
  cr_distinct : NoDup (wc_Dependencies record)
}.

Lemma for_each_ok {A} (f : A → DB unit) (P : A → Tables → Prop) xs s u s' :
  (∀ x s u s', f x s = (inr u, s') → tables s' = tables s ∧ P x (tables s)) →
  for_each f xs s = (inr u, s') → tables s' = tables s ∧ Forall (λ x, P x (tables s)) xs.
Proof.
  intros Hf. revert s. induction xs as [|x xs IH]; intros s; cbn [for_each]; [by intros [= _ <-]|].
  intros (u1 & s1 & [H1 Hx]%Hf & [H2 Hxs]%IH)%check_ok. rw H1 in H2, Hxs. split; [done|by constructor].
Qed.

Lemma insert_dependencies_ok id ds s u s' :
  for_each (insert_dependency id) ds s = (inr u, s') →
  NoDup ds ∧ (∀ d, d ∈ ds → (id, d) ∉ tbl_dependencies (tables s))
  ∧ tables s' = (tables s) <| tbl_dependencies ::= λ l, l ++ (pair id <$> ds) |>.
Proof.
  revert s. induction ds as [|d ds IH]; intros s; cbn [for_each].
  { intros [= _ <-]. split_and!; [constructor|by intros d ?%elem_of_nil|].
    destruct (tables s). rw /upd /=. by rw app_nil_r. }
  intros (u1 & s1 & H1%statement_ok & (Hnd & Hfresh & ->)%IH)%check_ok.
  case_bool_decide as Hin; [done|]. injection H1 as _ H1. rw -H1 in Hfresh |- *. simpl in Hfresh. split_and!.
  - constructor; [|done]. intros Hd. apply (Hfresh d Hd). set_solver.
  - intros d' [->|Hd]%elem_of_cons; [done|]. intros ?. apply (Hfresh d' Hd). set_solver.
  - destruct (tables s). rw /upd /=. by rw -app_assoc.
Qed.

Lemma insert_work_unit_ok id row s u s' :
  insert_work_unit id row s = (inr u, s') →
  tbl_work_units (tables s) !! id = None
  ∧ tables s' = (tables s) <| tbl_work_units ::= insert id row |>.
Proof.
  intros H%statement_ok. destruct (tbl_work_units (tables s) !! id); [done|].
  by injection H as _ <-.
Qed.

Lemma parent_ok (record : WorkUnitCreate) s u s' :
  (if String.eqb (wc_ParentWorkUnitID record) "" then return_ tt else
    parent ←? query (λ t, has_unit t (wc_TaskID record) (wc_ParentWorkUnitID record));
    assert_ parent (ErrWorkUnitNotFound (wc_ParentWorkUnitID record))) s = (inr u, s') →
  tables s' = tables s ∧ (wc_ParentWorkUnitID record = ""%string ∨
    has_unit (tables s) (wc_TaskID record) (wc_ParentWorkUnitID record) = true).
Proof.
  destruct (String.eqb_spec (wc_ParentWorkUnitID record) ""); intros H; db_inv; [by auto|].
  split; [done|by right].
Qed.

Lemma dependency_ok taskID d s u s' :
  (count ←? query (λ t, has_unit t taskID d);
   assert_ count (ErrWorkUnitMissingDependency d)) s = (inr u, s') →
  tables s' = tables s ∧ has_unit (tables s) taskID d = true.
Proof. intros H. db_inv. split; done. Qed.

Lemma acyclic_ok fuel edges s u s' :
  match findWorkUnitCycle fuel edges with
  | None => fail NotEnded
  | Some cycle => assert_ (String.eqb cycle "") (ErrWorkUnitCycle cycle)
  end s = (inr u, s') → s' = s ∧ acyclic edges.
Proof.
  destruct (findWorkUnitCycle fuel edges) as [cycle|] eqn:E; [|done]. intros H. db_inv.
  destruct (String.eqb_spec cycle ""); [subst|done]. split; [done|by eapply no_cycle_acyclic].
Qed.

Lemma create_effect fuel record s :
  let r := CreateWorkUnit fuel record s in
  match r.1 with
  | inl _ => tables r.2 = tables s
  | inr id => id = wc_WorkUnitID record ∧ ValidateWorkUnitCreate record = None
      ∧ creatable record (tables s)
      ∧ ∃ at_ event, tables r.2 = created record at_ event (tables s)
          ∧ ev_task_id event = wc_TaskID record
  end.
Proof.
  rw /CreateWorkUnit. destruct (ValidateWorkUnitCreate record) as [e|] eqn:Hvalid; [done|].
  destruct (check now _ s) as [[e|id] s'] eqn:E; cbn [fst snd].
  { rw /check /= in E. by apply transaction_failed in E. }
  apply check_ok in E as (at_ & s0 & H0%now_ok & E).
  apply transaction_ok in E as (s1 & s2 & H1 & E & H2). rw H0 in H1. clear s0 H0.
  apply check_ok in E as (exists_ & s3 & [-> H3]%query_ok & E).
  apply check_ok in E as ([] & s4 & [Htask%bool_decide_eq_true ->]%assert_ok & E).
  apply check_ok in E as ([] & s5 & [H5 Hparent]%parent_ok & E).
  apply check_ok in E as ([] & s6 & H6 & E).
  apply (for_each_ok _ (λ d t, has_unit t (wc_TaskID record) d = true)) in H6 as [H6 Hdeps];
    [|intros *; apply dependency_ok].
  apply check_ok in E as (edges & s7 & [-> H7]%query_ok & E).
  apply check_ok in E as ([] & s8 & [-> Hacyclic]%acyclic_ok & E).
  apply check_ok in E as ([] & s9 & [Hnew H9]%insert_work_unit_ok & E).
  apply check_ok in E as ([] & s10 & (Hnd & _ & H10)%insert_dependencies_ok & E).
  apply check_ok in E as ([] & s11 & (event & H11 & Hevent & _)%appendEvent_ok & E).
  injection E as <- <-.
  assert (tables s5 = tables s ∧ tables s6 = tables s ∧ tables s7 = tables s) as (E5 & E6 & E7)
    by (split_and!; congruence).
  rw H1 H3 ?E5 ?E6 ?E7 in Htask Hparent Hdeps Hacyclic Hnew H9.
  rw H1 in Hparent.
  split_and!; [done|done|by split|]. exists at_, event. split; [|done].
  by rw H2 H11 H10 H9.
Qed.

(** Creation.  A unit is created only from a well-formed record, under a task
    that exists, below a parent and after dependencies of the same task, with an
    identifier no unit has, and when the dependency graph has no cycle; then
    exactly its row, its dependencies and one event are added.  When creation
    fails the tables are as they were. *)
Theorem CreateWorkUnit_spec fuel record s :
  let r := CreateWorkUnit fuel record s in
  match r.1 with
  | inl _ => tables r.2 = tables s
  | inr id => id = wc_WorkUnitID record ∧ ValidateWorkUnitCreate record = None
      ∧ creatable record (tables s)
      ∧ ∃ at_ event, tables r.2 = created record at_ event (tables s)
          ∧ ev_task_id event = wc_TaskID record
  end.
Proof. apply create_effect. Qed.
End operations.

(** ** The lifecycle under any operations *)

Definition lifecycle (from to : string) : Prop := workUnitTransitions from to = true.

(** Everything but the status, the reasons, the evidence and the time of the
    last change. *)
Definition definition_of (row : WorkUnitRow) :=
  (row_task_id row, row_parent_work_unit_id row, row_objective row, row_tools_json row,
   row_workspace_scope row, row_acceptance_plan row, row_acceptance_digest row,
   (row_context_budget row, row_provider_budget row, row_step_budget row),
   row_version row, row_created_at row).

(** From [t] to [t']: every unit is still there with the same definition and the
    same dependencies, and its status moved along the lifecycle. *)
Record evolves (t t' : Tables) : Prop := {
  ev_row id row : tbl_work_units t !! id = Some row → ∃ row',
    tbl_work_units t' !! id = Some row' ∧ definition_of row' = definition_of row
    ∧ rtc lifecycle (row_status row) (row_status row');
  ev_deps id d : is_Some (tbl_work_units t !! id) →
    (id, d) ∈ tbl_dependencies t ↔ (id, d) ∈ tbl_dependencies t'
}.

(** From [t] to [t'] without a new unit. *)
Record moves (t t' : Tables) : Prop := {
  mv_row id row : tbl_work_units t !! id = Some row → ∃ row',
    tbl_work_units t' !! id = Some row' ∧ definition_of row' = definition_of row
    ∧ rtc lifecycle (row_status row) (row_status row');
  mv_none id : tbl_work_units t !! id = None → tbl_work_units t' !! id = None;
  mv_deps : tbl_dependencies t' = tbl_dependencies t
}.

#[export] Instance moves_preorder : PreOrder moves.
Proof.
  split.
  - intros t. split; [|done..]. intros id row H. by exists row.
  - intros t t' t'' [R N D] [R' N' D']. split; [|by auto|congruence].
    intros id row (row' & H' & Hd & Hs)%R. apply R' in H' as (row'' & H'' & Hd' & Hs').
    exists row''. split_and!; [done|congruence|by etrans].
Qed.

Lemma moves_evolves t t' : moves t t' → evolves t t'.
Proof. intros [R N D]. split; [exact R|]. intros id d _. by rw D. Qed.

#[export] Instance evolves_preorder : PreOrder evolves.
Proof.
  split.
  - intros t. split; [|done]. intros id row H. by exists row.
  - intros t t' t'' [R D] [R' D']. split.
    + intros id row (row' & H' & Hd & Hs)%R. apply R' in H' as (row'' & H'' & Hd' & Hs').
      exists row''. split_and!; [done|congruence|by etrans].
    + intros id d [row H]. pose proof (R _ _ H) as (row' & H' & _).
      by rw (D id d) // (D' id d).
Qed.

Abbreviation moving := (within moves).

Section movement.
Context {DK : Disk} {CD : Codec} {MO : MapOrder}.

Lemma moving_append taskID payload at_ : moving (appendEvent taskID payload at_).
Proof. apply (within_append moves). intros t event _ _ _. split; [|done..]. intros id row H. by exists row. Qed.

Lemma moving_update taskID id from f :
  (∀ row, row_status row = from →
     definition_of (f row) = definition_of row ∧ rtc lifecycle from (row_status (f row))) →
  moving (update_work_unit taskID id from f).
Proof.
  intros Hf. apply (within_statement moves). intros t n t' [= Ht].
  rw /unit_row in Ht. destruct (tbl_work_units t !! id) as [row|] eqn:Hrow; simpl in Ht; [|by simplify_eq].
  destruct (String.eqb (row_task_id row) taskID); [|by simplify_eq].
  destruct (String.eqb_spec (row_status row) from) as [Hst|]; [|by simplify_eq]. injection Ht as _ <-.
  destruct (Hf row Hst) as [Hdef Hlife]. split; [intros id' row' H'; simpl| |done].
  2:{ intros id' H'. simpl. rw lookup_insert_ne //. congruence. }
  destruct (decide (id = id')) as [<-|Hne]; simplify_map_eq; [|by exists row'].
  exists (f row). split_and!; [done|rw /definition_of; congruence|done].
Qed.
End movement.

Ltac move_on := repeat first [progress db_walk | apply moving_append].

Section moving_operations.
Context {DK : Disk} {CD : Codec} {MO : MapOrder}.

Lemma set_status_keeps to reason at_ row :
  definition_of (set_status to reason at_ row) = definition_of row
  ∧ row_status (set_status to reason at_ row) = to.
Proof. done. Qed.

Lemma moving_Transition taskID id from to reason :
  moving (TransitionWorkUnit taskID id from to reason).
Proof.
  rw /TransitionWorkUnit. case_match; [apply (within_return moves)|].
  destruct (workUnitTransitions from to) eqn:Hedge; [|apply (within_return moves)]. cbn [negb].
  assert (rtc lifecycle from to) as Hlife by by apply rtc_once.
  apply (within_check moves); [apply (within_now moves)|intros at_]. apply (within_transaction moves).
  apply (within_check moves); [|by move_on].
  case_match; [apply (within_check moves); [apply (within_query moves)|intros refs]|];
    apply moving_update; intros row Hst; by split.
Qed.

Lemma moving_List taskID : moving (ListWorkUnits taskID).
Proof. rw /ListWorkUnits /with_dependencies /workUnitDependencies. move_on. Qed.

Lemma moving_Ready taskID : moving (ReadyWorkUnits taskID).
Proof. apply (within_check moves); [apply moving_List|intros units; apply (within_return moves)]. Qed.

Lemma moving_Get taskID id : moving (GetWorkUnit taskID id).
Proof.
  intros s. rw /GetWorkUnit. pose proof (within_query moves (λ t, unit_row t taskID id) s) as Hq.
  destruct (query _ s) as [[e|[row|]] s1]; [done| |done]. simpl in Hq.
  destruct (scanWorkUnit id row) as [e|unit]; [by destruct e|]. etrans; [exact Hq|].
  apply (within_check moves); [apply (within_query moves)|intros ds; apply (within_return moves)].
Qed.

Lemma moving_Reset taskID reason : moving (ResetInterruptedWorkUnits taskID reason).
Proof.
  rw /ResetInterruptedWorkUnits. apply (within_check moves); [apply (within_now moves)|intros at_].
  apply (within_transaction moves). apply (within_check moves); [apply (within_query moves)|intros ids].
  apply (within_check moves); [|intros; apply (within_return moves)]. apply (within_for_each moves). intros id.
  apply (within_check moves); [|intros; apply moving_append].
  apply moving_update. intros row Hst. split; [done|]. by apply rtc_once.
Qed.

Lemma moving_Reconcile taskID reason : moving (ReconcileUncertainWorkUnits taskID reason).
Proof.
  apply (within_check moves); [apply moving_List|intros units]. generalize 0.
  induction units as [|unit units IH]; intros n; cbn [reconcile_each]; [apply (within_return moves)|].
  case_match; [apply IH|]. apply (within_check moves); [apply (within_query moves)|intros unresolved].
  case_match; [apply IH|]. apply (within_check moves); [apply moving_Transition|intros _; apply IH].
Qed.

Lemma created_evolves record at_ event t :
  tbl_work_units t !! wc_WorkUnitID record = None → evolves t (created record at_ event t).
Proof.
  intros Hnew. split; simpl.
  - intros id row H. exists row. split_and!; [|done|done]. rw lookup_insert_ne //. congruence.
  - intros id d [row H]. rw elem_of_app list_elem_of_fmap. split; [by left|].
    intros [?|(d' & ? & _)]; [done|simplify_eq].
Qed.

Lemma Create_evolves fuel record s : evolves (tables s) (tables (CreateWorkUnit fuel record s).2).
Proof.
  pose proof (create_effect fuel record s) as Hspec. cbn zeta in Hspec.
  destruct (CreateWorkUnit fuel record s).1; [by rw Hspec|].
  destruct Hspec as (_ & _ & Hcr & at_ & event & -> & _). apply created_evolves, Hcr.
Qed.
End moving_operations.

(** ** Histories

    One operation of the store, by whatever process holds the database, or a
    change of the tables that other components own. *)

Section histories.
Context {DK : Disk} {CD : Codec} {MO : MapOrder}.

Inductive store_step (accepted : WorkUnitCreate → Prop) (s s' : Store) : Prop :=
  | StepCreate fuel record : accepted record →
      s' = (CreateWorkUnit fuel record s).2 → store_step accepted s s'
  | StepTransition taskID id from to reason :
      s' = (TransitionWorkUnit taskID id from to reason s).2 → store_step accepted s s'
  | StepReset taskID reason : s' = (ResetInterruptedWorkUnits taskID reason s).2 → store_step accepted s s'
  | StepReconcile taskID reason :
      s' = (ReconcileUncertainWorkUnits taskID reason s).2 → store_step accepted s s'
  | StepRead taskID : s' = (ReadyWorkUnits taskID s).2 → store_step accepted s s'
  | StepForeign :
      tbl_work_units (tables s') = tbl_work_units (tables s) →
      tbl_dependencies (tables s') = tbl_dependencies (tables s) → store_step accepted s s'.

Lemma store_step_evolves accepted s s' : store_step accepted s s' → evolves (tables s) (tables s').
Proof.
  intros [fuel record _ ->|taskID id from to reason ->|taskID reason ->|taskID reason ->|taskID ->|Hu Hd].
  - apply Create_evolves.
  - apply moves_evolves, moving_Transition.
  - apply moves_evolves, moving_Reset.
  - apply moves_evolves, moving_Reconcile.
  - apply moves_evolves, moving_Ready.
  - split; [|by rw Hd]. intros id row H. exists row. by rw Hu.
Qed.

Lemma history_evolves accepted s s' : rtc (store_step accepted) s s' → evolves (tables s) (tables s').
Proof. induction 1 as [|? ? ? Hstep%store_step_evolves _ IH]; [done|by etrans]. Qed.

Lemma lifecycle_states from to :
  rtc lifecycle from to → WorkUnitStates from = true → WorkUnitStates to = true.
Proof. induction 1 as [|? ? ? Hstep _ IH]; [done|]. intros _. apply IH. by apply edge_states in Hstep as []. Qed.

Lemma state_cases status :
  WorkUnitStates status = true →
  status = "completed"%string ∨ status ∈ ["running"; "failed"; "blocked"; "uncertain"]%string
  ∨ (status = "created" ∨ status = "ready")%string.
Proof.
  rw /WorkUnitStates. intros H.
  repeat match goal with
    | H : match ?x with _ => _ end = true |- _ => destruct x; try done
    end; set_solver.
Qed.

Lemma completed_stuck to : ¬ lifecycle "completed" to ∧ ¬ lifecycle "failed" to.
Proof. split; intros H%edges_listed; set_solver. Qed.

(** C19: lifecycle.  Under any sequence of operations of the store, failing or
    not, a unit keeps its definition and its dependencies and its status only
    moves along the lifecycle; a completed or failed unit keeps its status for
    ever. *)
Theorem lifecycle_respected accepted s s' id row :
  rtc (store_step accepted) s s' → tbl_work_units (tables s) !! id = Some row →
  ∃ row', tbl_work_units (tables s') !! id = Some row' ∧ definition_of row' = definition_of row
    ∧ rtc lifecycle (row_status row) (row_status row')
    ∧ (row_status row = "completed" ∨ row_status row = "failed" → row_status row' = row_status row)%string
    ∧ ∀ d, (id, d) ∈ tbl_dependencies (tables s) ↔ (id, d) ∈ tbl_dependencies (tables s').
Proof.
  intros [R D]%history_evolves Hrow. destruct (R id row Hrow) as (row' & H' & Hdef & Hlife).
  exists row'. split_and!; [done|done|done| |by intros d; apply D].
  intros Hend. inv Hlife as [|? y ? Hstep]; [done|].
  destruct (completed_stuck y) as [Hc Hf]. destruct Hend as [Hs|Hs]; rw Hs in Hstep; done.
Qed.
End histories.
