(* ===== verification/UnitReady.v ===== *)
(** * Which work units are ready

    What the queries over the units of a task return, the order the dependency
    graph of every reachable store has, and that work never stops by itself: a
    task whose units are neither running nor stopped is done or has a unit that
    is ready. *)

From S2P Require Import Prelude GoTime Text Cycles Database WorkUnits UnitLaws.
From stdpp Require Import relations.

Local Open Scope runstead_scope.

Section loading.
Context {DK : Disk} {CD : Codec}.

(** ** What is listed *)

(** A unit that was loaded from a row. *)
Definition loaded (t : Tables) (p : string * WorkUnitRow) (u : WorkUnit) : Prop :=
  ∃ base, scanWorkUnit p.1 p.2 = inr base ∧ u = base <| Dependencies := dependencies_of t p.1 |>.

Record loaded_fields (t : Tables) (p : string * WorkUnitRow) (u : WorkUnit) : Prop := {
  lf_id : WorkUnitID u = p.1;
  lf_task : TaskID u = row_task_id p.2;
  lf_parent : ParentWorkUnitID u = row_parent_work_unit_id p.2;
  lf_status : Status u = row_status p.2;
  lf_deps : Dependencies u = dependencies_of t p.1
}.

Lemma loaded_spec t p u : loaded t p u → loaded_fields t p u.
Proof.
  intros (base & Hscan & ->). move: Hscan. rw /scanWorkUnit. case_match; [done|].
  destruct (Unmarshal (row_tools_json p.2)), (Unmarshal (row_evidence_refs p.2)); try done.
  by intros [= <-].
Qed.

Lemma scan_all_ok rows units :
  scan_all rows = inr units → Forall2 (λ p u, scanWorkUnit p.1 p.2 = inr u) rows units.
Proof.
  revert units. induction rows as [|[id row] rows IH]; intros units; simpl; [by intros [= <-]|].
  destruct (scanWorkUnit id row) eqn:E; [done|]. destruct (scan_all rows); [done|].
  intros [= <-]. constructor; [done|by apply IH].
Qed.

Lemma with_dependencies_ok u s u' s' :
  with_dependencies u s = (inr u', s') →
  tables s' = tables s ∧ u' = u <| Dependencies := dependencies_of (tables s) (WorkUnitID u) |>.
Proof. rw /with_dependencies /workUnitDependencies. intros H. db_inv. done. Qed.

Lemma map_dependencies_ok units s units' s' :
  map_each with_dependencies units s = (inr units', s') →
  tables s' = tables s ∧
  units' = (λ u, u <| Dependencies := dependencies_of (tables s) (WorkUnitID u) |>) <$> units.
Proof.
  revert s units' s'. induction units as [|u units IH]; intros s units' s'; cbn [map_each]; [by intros [= <- <-]|].
  intros (u' & s1 & [H1 ->]%with_dependencies_ok & H)%check_ok.
  apply check_ok in H as (us & s2 & [H2 ->]%IH & H). injection H as <- <-.
  rw H2 H1. done.
Qed.

Lemma List_ok taskID s units s' :
  ListWorkUnits taskID s = (inr units, s') →
  tables s' = tables s ∧ Forall2 (loaded (tables s)) (task_rows (tables s) taskID) units.
Proof.
  rw /ListWorkUnits. intros (scanned & s1 & [-> H1]%query_ok & H)%check_ok.
  destruct (scan_all _) as [e|bases] eqn:E; [done|]. apply scan_all_ok in E.
  apply map_dependencies_ok in H as [H ->]. rw H1 in H |- *. split; [done|].
  apply Forall2_fmap_r. eapply Forall2_impl; [exact E|]. intros p base Hp. exists base.
  split; [done|].
  assert (loaded (tables s) p (base <| Dependencies := dependencies_of (tables s) p.1 |>)) as Hl
    by by exists base.
  apply loaded_spec, lf_id in Hl. simpl in Hl. by rw -Hl.
Qed.

(** ** The rows of a task *)

#[export] Instance created_before_total : Total created_before.
Proof.
  intros a b. rw /created_before. destruct (String.le_total (row_created_at a.2) (row_created_at b.2)) as [H|H];
  destruct (decide (row_created_at a.2 = row_created_at b.2)) as [E|E].
  - rw E. destruct (String.le_total a.1 b.1); [left|right]; by split.
  - left. by split.
  - rw E. destruct (String.le_total a.1 b.1); [left|right]; by split.
  - right. split; [done|]. by intros ?%symmetry.
Qed.

Lemma elem_of_task_rows t taskID id row :
  (id, row) ∈ task_rows t taskID ↔ unit_row t taskID id = Some row.
Proof.
  rw /task_rows merge_sort_Permutation list_elem_of_filter elem_of_map_to_list /unit_row /=.
  destruct (tbl_work_units t !! id) as [row'|]; simpl; [|naive_solver].
  destruct (String.eqb_spec (row_task_id row') taskID); naive_solver.
Qed.

Lemma NoDup_task_rows t taskID : NoDup (task_rows t taskID).*1.
Proof.
  rw /task_rows merge_sort_Permutation.
  apply NoDup_fmap_fst; [|apply NoDup_filter, NoDup_map_to_list].
  intros id r1 r2 [_ H1%elem_of_map_to_list]%list_elem_of_filter [_ H2%elem_of_map_to_list]%list_elem_of_filter.
  congruence.
Qed.

(** ** Calls that only read *)

Abbreviation reading := (within eq).

Lemma reading_List taskID : reading (ListWorkUnits taskID).
Proof. rw /ListWorkUnits /with_dependencies /workUnitDependencies. db_walk. Qed.

Lemma reading_Ready taskID : reading (ReadyWorkUnits taskID).
Proof. apply (within_check eq); [apply reading_List|intros units; apply (within_return eq)]. Qed.

Lemma reading_Get taskID id : reading (GetWorkUnit taskID id).
Proof.
  intros s. rw /GetWorkUnit. pose proof (within_query eq (λ t, unit_row t taskID id) s) as Hq.
  destruct (query _ s) as [[e|[row|]] s1]; [done| |done]. simpl in Hq.
  destruct (scanWorkUnit id row) as [e|unit]; [by destruct e|]. rw Hq.
  apply (within_check eq); [apply (within_query eq)|intros ds; apply (within_return eq)].
Qed.

Lemma Get_ok taskID id s u s' :
  GetWorkUnit taskID id s = (inr u, s') →
  ∃ row, unit_row (tables s) taskID id = Some row ∧ loaded (tables s) (id, row) u.
Proof.
  rw /GetWorkUnit. destruct (query _ s) as [[e|[row|]] s1] eqn:Hq; [done| |done].
  apply query_ok in Hq as [Hrow H1]. destruct (scanWorkUnit id row) as [e|base] eqn:Hs; [by destruct e|].
  intros [_ ->]%with_dependencies_ok. exists row. split; [done|]. exists base. split; [done|].
  assert (loaded (tables s) (id, row) (base <| Dependencies := dependencies_of (tables s) id |>)) as Hl
    by by exists base.
  apply loaded_spec, lf_id in Hl. simpl in Hl. by rw Hl H1.
Qed.

(** A unit of the task that is completed. *)
Definition completed_in (t : Tables) (taskID id : string) : Prop :=
  ∃ row, unit_row t taskID id = Some row ∧ row_status row = "completed"%string.

Lemma loaded_row t taskID units u :
  Forall2 (loaded t) (task_rows t taskID) units → u ∈ units →
  ∃ row, unit_row t taskID (WorkUnitID u) = Some row ∧ loaded_fields t (WorkUnitID u, row) u.
Proof.
  intros Hall [i Hu]%list_elem_of_lookup.
  destruct (Forall2_lookup_r _ _ _ _ _ Hall Hu) as ([id row] & Hp & Hl%loaded_spec).
  pose proof (lf_id _ _ _ Hl) as E. simpl in E. subst id. exists row. split; [|done].
  apply elem_of_task_rows. by eapply list_elem_of_lookup_2.
Qed.

Lemma row_loaded t taskID units id row :
  Forall2 (loaded t) (task_rows t taskID) units → unit_row t taskID id = Some row →
  ∃ u, u ∈ units ∧ loaded_fields t (id, row) u.
Proof.
  intros Hall [i Hp]%elem_of_task_rows%list_elem_of_lookup.
  destruct (Forall2_lookup_l _ _ _ _ _ Hall Hp) as (u & Hu & Hl%loaded_spec).
  exists u. split; [by eapply list_elem_of_lookup_2|done].
Qed.

Lemma status_of_loaded t taskID units id :
  Forall2 (loaded t) (task_rows t taskID) units →
  String.eqb (statusByID units id) "completed" = true ↔ completed_in t taskID id.
Proof.
  intros Hall. rw /statusByID String.eqb_eq.
  destruct (List.find _ _) as [u|] eqn:E.
  - apply List.find_some in E as [Hu <-%String.eqb_eq]. apply in_rev, list_elem_of_In in Hu.
    destruct (loaded_row _ _ _ _ Hall Hu) as (row & Hrow & Hl). rw (lf_status _ _ _ Hl) /completed_in Hrow.
    naive_solver.
  - split; [done|]. intros (row & Hrow & _). exfalso.
    destruct (row_loaded _ _ _ _ _ Hall Hrow) as (u & Hu & Hl).
    assert (u ∈ List.rev units) as Hrev by by apply list_elem_of_In, in_rev; rw rev_involutive; apply list_elem_of_In.
    apply list_elem_of_In in Hrev. pose proof (List.find_none _ _ E u Hrev) as Hn. simpl in Hn.
    by rw (lf_id _ _ _ Hl) /= String.eqb_refl in Hn.
Qed.

(** ** The ready units *)

(** What readiness means on the tables. *)
Record ready_in (t : Tables) (taskID id : string) (row : WorkUnitRow) : Prop := {
  rd_row : unit_row t taskID id = Some row;
  rd_status : row_status row = "created"%string ∨ row_status row = "ready"%string;
  rd_deps d : (id, d) ∈ tbl_dependencies t → completed_in t taskID d;
  rd_parent : row_parent_work_unit_id row = ""%string ∨
    completed_in t taskID (row_parent_work_unit_id row)
}.

Lemma elem_of_dependencies t id d : d ∈ dependencies_of t id ↔ (id, d) ∈ tbl_dependencies t.
Proof.
  rw /dependencies_of /sort_Strings merge_sort_Permutation list_elem_of_fmap. split.
  - intros ([x y] & -> & [Hx Hin]%list_elem_of_filter). simpl in *. by subst.
  - intros H. exists (id, d). split; [done|]. by apply list_elem_of_filter.
Qed.

Lemma ready_among_spec t taskID units u row :
  Forall2 (loaded t) (task_rows t taskID) units → unit_row t taskID (WorkUnitID u) = Some row →
  loaded_fields t (WorkUnitID u, row) u →
  ready_among units u = true ↔ ready_in t taskID (WorkUnitID u) row.
Proof.
  intros Hall Hrow [_ _ Hparent Hstatus Hdeps]. rw /ready_among Hparent Hstatus Hdeps /=.
  rw !andb_true_iff !orb_true_iff !String.eqb_eq forallb_forall -!String.eqb_eq.
  rw (status_of_loaded _ _ _ _ Hall) !String.eqb_eq. split.
  - intros [[Hs Hd] Hp]. split; [done|done| |done]. intros d Hin.
    apply (status_of_loaded _ _ _ _ Hall), Hd, list_elem_of_In. by apply elem_of_dependencies.
  - intros [_ Hs Hd Hp]. split_and!; [done| |done]. intros d Hin.
    apply (status_of_loaded _ _ _ _ Hall), Hd, elem_of_dependencies. by apply list_elem_of_In.
Qed.

Lemma ready_ok taskID s units s' :
  ReadyWorkUnits taskID s = (inr units, s') →
  ∃ listed, tables s' = tables s ∧ Forall2 (loaded (tables s)) (task_rows (tables s) taskID) listed
    ∧ units = List.filter (ready_among listed) listed.
Proof.
  rw /ReadyWorkUnits. intros (listed & s1 & [H1 Hall]%List_ok & H)%check_ok.
  injection H as <- <-. by exists listed.
Qed.

Lemma ready_ids t taskID listed id :
  Forall2 (loaded t) (task_rows t taskID) listed →
  id ∈ (WorkUnitID <$> List.filter (ready_among listed) listed) ↔ ∃ row, ready_in t taskID id row.
Proof.
  intros Hall. rw list_elem_of_fmap. split.
  - intros (u & -> & [Hu%list_elem_of_In Hr]%list_elem_of_In%filter_In).
    destruct (loaded_row _ _ _ _ Hall Hu) as (row & Hrow & Hl). exists row.
    by apply (ready_among_spec _ _ _ _ _ Hall Hrow Hl).
  - intros (row & Hready). destruct (row_loaded _ _ _ _ _ Hall (rd_row _ _ _ _ Hready)) as (u & Hu & Hl).
    pose proof (lf_id _ _ _ Hl) as E. simpl in E. subst id. exists u. split; [done|].
    apply list_elem_of_In, filter_In. split; [by apply list_elem_of_In|].
    by apply (ready_among_spec _ _ _ _ _ Hall (rd_row _ _ _ _ Hready) Hl).
Qed.

Lemma loaded_ids t rows units : Forall2 (loaded t) rows units → WorkUnitID <$> units = rows.*1.
Proof.
  intros Hall. induction Hall as [|p u rows units Hl _ IH]; [done|].
  rw !fmap_cons IH. by rw (lf_id _ _ _ (loaded_spec _ _ _ Hl)).
Qed.

Lemma Forall2_filter_r {A B} (R : A → B → Prop) (f : B → bool) xs ys :
  Forall2 R xs ys → ∃ zs, sublist zs xs ∧ Forall2 R zs (List.filter f ys).
Proof.
  intros Hall. induction Hall as [|x y xs ys Hxy _ (zs & Hsub & Hzs)]; [by exists []|]. simpl.
  destruct (f y); [exists (x :: zs)|exists zs]; split;
    [by apply sublist_skip|by constructor|by apply sublist_cons|done].
Qed.

#[export] Instance created_before_trans : Transitive created_before.
Proof.
  intros a b c [H1 E1] [H2 E2]. split; [by etrans|]. intros E.
  assert (row_created_at a.2 = row_created_at b.2) as Eab.
  { apply (anti_symm String.le); [done|]. by rw E. }
  etrans; [by apply E1|]. apply E2. congruence.
Qed.

Lemma sublist_StronglySorted {A} (R : relation A) xs ys :
  sublist xs ys → StronglySorted R ys → StronglySorted R xs.
Proof.
  intros Hsub. induction Hsub as [|x xs ys Hsub IH|x xs ys Hsub IH]; intros Hs; [constructor|..];
    inv Hs; [|by apply IH].
  constructor; [by apply IH|]. rw Forall_forall in H2. apply Forall_forall. intros y Hy.
  apply H2. by eapply elem_of_sublist.
Qed.

(** C21: ready units.  When the query returns, its units are exactly those of the
    task that are created or ready and whose dependencies and parent are all
    completed in the tables, each once and in the order of their creation. *)
Theorem ReadyWorkUnits_spec taskID s units s' :
  ReadyWorkUnits taskID s = (inr units, s') →
  tables s' = tables s
  ∧ (∀ id, id ∈ (WorkUnitID <$> units) ↔ ∃ row, ready_in (tables s) taskID id row)
  ∧ NoDup (WorkUnitID <$> units)
  ∧ ∃ rows, StronglySorted created_before rows ∧ Forall2 (loaded (tables s)) rows units.
Proof.
  intros (listed & Ht & Hall & ->)%ready_ok.
  destruct (Forall2_filter_r _ (ready_among listed) _ _ Hall) as (rows & Hsub & Hrows).
  split_and!; [done|by intros id; apply ready_ids| |].
  - rw (loaded_ids _ _ _ Hrows). eapply sublist_NoDup; [apply (NoDup_task_rows (tables s) taskID)|].
    by apply fmap_sublist.
  - exists rows. split; [|done]. eapply sublist_StronglySorted; [exact Hsub|].
    apply StronglySorted_merge_sort; apply _.
Qed.
End loading.

(** ** The graph of a reachable store *)

(** [u] waits for [d]. *)
Definition needs (t : Tables) (u d : string) : Prop :=
  (u, d) ∈ tbl_dependencies t ∨
  ∃ row, tbl_work_units t !! u = Some row ∧ row_parent_work_unit_id row = d ∧ d ≠ ""%string.

(** Units, latest first: a unit comes before everything it needs. *)
Fixpoint needs_ordered (t : Tables) (order : list string) : Prop :=
  match order with
  | [] => True
  | u :: order' => (∀ d, needs t u d → d ∈ order') ∧ needs_ordered t order'
  end.

(** The units can be listed in an order of creation, and a unit only needs units
    of its own task. *)
Record linked (t : Tables) : Prop := {
  lk_order : ∃ order, (∀ id, is_Some (tbl_work_units t !! id) ↔ id ∈ order) ∧ needs_ordered t order;
  lk_task u d row : needs t u d → tbl_work_units t !! u = Some row →
    has_unit t (row_task_id row) d = true;
  lk_known u d : (u, d) ∈ tbl_dependencies t → is_Some (tbl_work_units t !! u);
  lk_status u row : tbl_work_units t !! u = Some row → WorkUnitStates (row_status row) = true
}.

Lemma linked_empty t :
  tbl_work_units t = ∅ → tbl_dependencies t = [] → linked t.
Proof.
  intros Hu Hd. split.
  - exists []. split; [|done]. intros id. rw Hu lookup_empty. split; [by intros [? [=]]|by intros ?%elem_of_nil].
  - intros u d row _. by rw Hu lookup_empty.
  - intros u d. rw Hd. by intros ?%elem_of_nil.
  - intros u row. by rw Hu lookup_empty.
Qed.

Lemma needs_ordered_ext t t' order :
  (∀ u d, u ∈ order → needs t' u d → needs t u d) → needs_ordered t order → needs_ordered t' order.
Proof.
  induction order as [|u order IH]; [done|]. intros Hn [Hu Ho]. split.
  - intros d Hd. apply Hu, Hn; [set_solver|done].
  - apply IH; [|done]. intros u' d Hu'. apply Hn. set_solver.
Qed.

Lemma has_unit_spec t taskID id :
  has_unit t taskID id = true ↔ ∃ row, tbl_work_units t !! id = Some row ∧ row_task_id row = taskID.
Proof.
  rw /has_unit /unit_row. destruct (tbl_work_units t !! id) as [row|]; simpl; [|naive_solver].
  destruct (String.eqb_spec (row_task_id row) taskID); naive_solver.
Qed.

Lemma definition_fields row row' :
  definition_of row' = definition_of row →
  row_task_id row' = row_task_id row
  ∧ row_parent_work_unit_id row' = row_parent_work_unit_id row.
Proof. rw /definition_of. naive_solver. Qed.

Lemma moves_back t t' id row' :
  moves t t' → tbl_work_units t' !! id = Some row' →
  ∃ row, tbl_work_units t !! id = Some row ∧ definition_of row' = definition_of row.
Proof.
  intros [R N _] H'. destruct (tbl_work_units t !! id) as [row|] eqn:H.
  - destruct (R id row H) as (row'' & H'' & Hd & _). rw H' in H''. injection H'' as <-. by exists row.
  - apply N in H. congruence.
Qed.

Lemma moves_has_unit t t' taskID id :
  moves t t' → has_unit t taskID id = true → has_unit t' taskID id = true.
Proof.
  intros [R _ _] (row & Hrow & Htask)%has_unit_spec. apply has_unit_spec.
  destruct (R id row Hrow) as (row' & H' & Hd & _). exists row'. split; [done|].
  apply definition_fields in Hd as [-> _]. done.
Qed.

Lemma moves_needs t t' u d : moves t t' → needs t' u d → needs t u d.
Proof.
  intros Hm [Hd|(row' & H' & Hp & Hne)].
  - left. by rw -(mv_deps _ _ Hm).
  - right. destruct (moves_back _ _ _ _ Hm H') as (row & H & Hdef). exists row.
    apply definition_fields in Hdef as [_ E]. split_and!; [done|congruence|done].
Qed.

Lemma linked_moves t t' : moves t t' → linked t → linked t'.
Proof.
  intros Hm [(order & Hdom & Ho) Htask Hknown Hstates]. split.
  - exists order. split.
    + intros id. rw -Hdom. split; intros [row H].
      * destruct (moves_back _ _ _ _ Hm H) as (? & ? & _). by eexists.
      * destruct (mv_row _ _ Hm _ _ H) as (? & ? & _). by eexists.
    + eapply needs_ordered_ext; [|exact Ho]. intros u d _. by apply moves_needs.
  - intros u d row' Hn H'. destruct (moves_back _ _ _ _ Hm H') as (row & H & Hdef).
    apply (moves_needs _ _ _ _ Hm) in Hn. apply definition_fields in Hdef as [-> _].
    eapply moves_has_unit; [done|by eapply Htask].
  - intros u d. rw (mv_deps _ _ Hm). intros [row H]%Hknown.
    destruct (mv_row _ _ Hm _ _ H) as (? & ? & _). by eexists.
  - intros u row' H'. destruct (moves_back _ _ _ _ Hm H') as (row & H & _).
    destruct (mv_row _ _ Hm _ _ H) as (row'' & H'' & _ & Hlife). simplify_eq.
    eapply lifecycle_states; [exact Hlife|by eapply Hstates].
Qed.

(** Redaction leaves the identifier of the parent alone. *)
Definition plain_parent `{Codec} (record : WorkUnitCreate) : Prop :=
  Redact (wc_ParentWorkUnitID record) = wc_ParentWorkUnitID record.

Lemma linked_created `{Codec} record at_ event t :
  creatable record t → plain_parent record → linked t → linked (created record at_ event t).
Proof.
  intros [_ Hparent Hdeps _ Hnew _] Hplain [(order & Hdom & Ho) Htask Hknown Hstates].
  set (id := wc_WorkUnitID record) in *. set (t' := created record at_ event t).
  assert (∀ d row, tbl_work_units t !! d = Some row → id ≠ d) as Hfresh.
  { intros d row Hd E. rw E Hd in Hnew. done. }
  assert (∀ d, has_unit t (wc_TaskID record) d = true → d ∈ order) as Hin.
  { intros d (row & Hd & _)%has_unit_spec. apply Hdom. by eexists. }
  assert (∀ taskID d, has_unit t taskID d = true → has_unit t' taskID d = true) as Hkeep.
  { intros taskID d (row & Hd & Ht)%has_unit_spec. apply has_unit_spec. exists row. split; [|done].
    rw /t' /created /= lookup_insert_ne //. by eapply Hfresh. }
  assert (∀ d, needs t' id d → has_unit t (wc_TaskID record) d = true) as Hneeds.
  { intros d [Hd|(row & Hrow & Hp & Hne)].
    - apply elem_of_app in Hd as [Hd|Hd]; [apply Hknown in Hd as [? ?]; congruence|].
      apply list_elem_of_fmap in Hd as (d' & [= ->] & Hd). rw Forall_forall in Hdeps. by apply Hdeps.
    - rw /t' /created /= lookup_insert_eq in Hrow. injection Hrow as <-. simpl in Hp.
      rw Hplain in Hp. subst d. by destruct Hparent. }
  assert (∀ u d, u ≠ id → needs t' u d → needs t u d) as Hold.
  { intros u d Hu [Hd|(row & Hrow & Hp & Hne)].
    - left. apply elem_of_app in Hd as [Hd|Hd]; [done|].
      by apply list_elem_of_fmap in Hd as (d' & [= -> ->] & _).
    - right. exists row. by rw /t' /created /= lookup_insert_ne in Hrow. }
  split.
  - exists (id :: order). split; [|split].
    + intros u. rw /t' /created /= elem_of_cons -Hdom lookup_insert_is_Some.
      destruct (decide (id = u)) as [E|Hne]; [split; intros _; left; done|].
      split; [intros [?|[_ ?]]; [done|by right]|intros [?|?]; [congruence|by right]].
    + intros d Hd. by apply Hin, Hneeds.
    + eapply needs_ordered_ext; [|exact Ho]. intros u d Hu. apply Hold. intros ->.
      apply Hdom in Hu as [? ?]. congruence.
  - intros u d row Hn Hrow. destruct (decide (u = id)) as [->|Hne].
    + rw /t' /created /= lookup_insert_eq in Hrow. injection Hrow as <-. by apply Hkeep, Hneeds.
    + rw /t' /created /= lookup_insert_ne // in Hrow. apply Hkeep. eapply Htask; [by apply Hold|done].
  - intros u d Hd. rw /t' /created /= lookup_insert_is_Some.
    destruct (decide (u = id)) as [->|Hne]; [by left|right]. split; [done|].
    apply elem_of_app in Hd as [Hd|Hd]; [by eapply Hknown|].
    by apply list_elem_of_fmap in Hd as (d' & [= -> ->] & _).
  - intros u row. destruct (decide (u = id)) as [->|Hne]; rw /t' /created /=.
    + rw lookup_insert_eq. by intros [= <-].
    + rw lookup_insert_ne //. apply Hstates.
Qed.

Section progress.
Context {DK : Disk} {CD : Codec} {MO : MapOrder}.

Lemma store_step_linked s s' :
  store_step plain_parent s s' → linked (tables s) → linked (tables s').
Proof.
  intros [fuel record Hplain ->|taskID id from to reason ->|taskID reason ->|taskID reason ->|taskID ->|Hu Hd]
    Hlinked; [|eapply linked_moves; [|exact Hlinked]..].
  - pose proof (create_effect fuel record s) as Hspec. cbn zeta in Hspec.
    destruct (CreateWorkUnit fuel record s).1; [by rw Hspec|].
    destruct Hspec as (_ & _ & Hcr & at_ & event & -> & _). by apply linked_created.
  - apply moving_Transition.
  - apply moving_Reset.
  - apply moving_Reconcile.
  - apply moving_Ready.
  - split; [|by intros id; rw Hu|done]. intros id row. rw Hu. by exists row.
Qed.

Lemma history_linked s s' :
  rtc (store_step plain_parent) s s' → linked (tables s) → linked (tables s').
Proof. induction 1; [done|]. intros H'. by apply IHrtc; eapply store_step_linked. Qed.

(** With nothing ready, running or stopped, every unit of the task is completed. *)
Lemma all_completed t taskID order :
  linked t → (∀ id row, ¬ ready_in t taskID id row) →
  (∀ id row, unit_row t taskID id = Some row →
     row_status row ∉ ["running"; "failed"; "blocked"; "uncertain"]%string) →
  needs_ordered t order →
  (∀ id, id ∈ order → ∀ row, unit_row t taskID id = Some row → row_status row = "completed"%string).
Proof.
  intros Hl Hnone Hstop. induction order as [|u order IH]; [by intros _ id ?%elem_of_nil|].
  intros [Hneeds Ho] id [->|Hid]%elem_of_cons row Hrow; [|by eapply IH].
  assert (tbl_work_units t !! u = Some row ∧ row_task_id row = taskID) as [Hu Htask].
  { move: Hrow. rw /unit_row. destruct (tbl_work_units t !! u) as [row'|]; [|done]. simpl.
    destruct (String.eqb_spec (row_task_id row') taskID); naive_solver. }
  assert (∀ d, needs t u d → completed_in t taskID d) as Hdone.
  { intros d Hd. pose proof (lk_task _ Hl _ _ _ Hd Hu) as Hhas. rw Htask in Hhas.
    rw /has_unit in Hhas. destruct (unit_row t taskID d) as [row'|] eqn:E; [|done].
    exists row'. split; [done|]. eapply IH; [done|by apply Hneeds|done]. }
  destruct (state_cases _ (lk_status _ Hl _ _ Hu)) as [?|[Hs|Hs]];
    [done|exfalso; by eapply Hstop|].
  exfalso. apply (Hnone u row). split; [done|done|intros d Hd; apply Hdone; by left|].
  destruct (decide (row_parent_work_unit_id row = ""%string)); [by left|right].
  apply Hdone. right. by exists row.
Qed.

(** C20: work goes on.  Take any history of a store that began without units, and
    a task of it.  If no unit of the task is ready and none is running, failed,
    blocked or uncertain, then no unit of the task is open: the units that were
    created never wait for each other for ever. *)
Theorem work_goes_on s0 s taskID s' :
  tbl_work_units (tables s0) = ∅ → tbl_dependencies (tables s0) = [] →
  rtc (store_step plain_parent) s0 s →
  ReadyWorkUnits taskID s = (inr [], s') →
  (∀ id row, unit_row (tables s) taskID id = Some row →
     row_status row ∉ ["running"; "failed"; "blocked"; "uncertain"]%string) →
  open_rows (tables s) taskID = [].
Proof.
  intros Hu Hd Hhist Hready Hstop.
  pose proof (history_linked _ _ Hhist (linked_empty _ Hu Hd)) as Hl.
  apply ready_ok in Hready as (listed & _ & Hall & Hnil).
  assert (∀ id row, ¬ ready_in (tables s) taskID id row) as Hnone.
  { intros id row H. assert (∃ row, ready_in (tables s) taskID id row) as Hex by eauto.
    apply (ready_ids _ _ _ _ Hall) in Hex. rw -Hnil in Hex. by apply elem_of_nil in Hex. }
  destruct (lk_order _ Hl) as (order & Hdom & Ho).
  apply elem_of_nil_inv. intros [id row] [[Htask Hopen] Hin%elem_of_map_to_list]%list_elem_of_filter.
  simpl in *. apply Hopen. eapply all_completed; [done|done|done|exact Ho|by apply Hdom; eexists|].
  by rw /unit_row Hin /= Htask String.eqb_refl.
Qed.
End progress.
