(* ===== verification/Paths.v ===== *)
(** * Workspace paths (internal/tools/workspace.go)

    The check every workspace-relative path goes through, with the lexical
    cleaning of path/filepath it relies on, on a system whose separator is the
    slash. *)

From S2P Require Import Prelude GoTime Text.
From Stdlib Require Import Ascii.

Local Open Scope runstead_scope.

(** ** Text *)

Definition slash : ascii := "/"%char.

Abbreviation split_slash := (split_on slash).
Abbreviation join_slash := (join_on slash).
Abbreviation slash_free := (free_of slash).

Definition IsAbs (path : string) : bool := String.prefix "/" path.

(** [strings.IndexByte(s, 0) >= 0]. *)
Fixpoint has_nul (s : string) : bool :=
  match s with
  | EmptyString => false
  | String c s' => Ascii.eqb c "000"%char || has_nul s'
  end.

(** ** Cleaning

    The components of the result, last first: a dot-dot takes the component
    before it away, or stays when there is none to take. *)
Definition clean_step (rooted : bool) (out : list string) (part : string) : list string :=
  if String.eqb part "" || String.eqb part "." then out
  else if String.eqb part ".." then
    match out with
    | last :: out' => if String.eqb last ".." then ".."%string :: out else out'
    | [] => if rooted then [] else [".."%string]
    end
  else part :: out.

(** [filepath.Clean]. *)
Definition Clean (path : string) : string :=
  let rooted := IsAbs path in
  let parts := reverse (foldl (clean_step rooted) [] (split_slash path)) in
  if rooted then "/" +:+ join_slash parts
  else match parts with [] => "."%string | _ => join_slash parts end.

Example Clean_examples :
  Clean "a//b/./c/" = "a/b/c"%string ∧ Clean "" = "."%string ∧ Clean "a/../.." = ".."%string
  ∧ Clean "/../x" = "/x"%string.
Proof. by vm_compute. Qed.

(** ** The check *)

Inductive Failure := FailureInvalidArguments | FailureAbsolutePath | FailurePathTraversal.

Definition NormalizeWorkspacePath (input : string) : Failure + string :=
  if String.eqb input "" || has_nul input then inl FailureInvalidArguments
  else if IsAbs input then inl FailureAbsolutePath
  else if existsb (String.eqb "..") (split_slash input) then inl FailurePathTraversal
  else
    let clean := Clean input in
    if IsAbs clean || String.eqb clean ".." || String.prefix "../" clean then
      inl FailurePathTraversal
    else inr clean.

Example Normalize_examples :
  NormalizeWorkspacePath "src/./a//b" = inr "src/a/b"%string
  ∧ NormalizeWorkspacePath "../x" = inl FailurePathTraversal
  ∧ NormalizeWorkspacePath "/etc" = inl FailureAbsolutePath
  ∧ NormalizeWorkspacePath "./" = inr "."%string.
Proof. by vm_compute. Qed.

(** ** What the check accepts *)

Definition kept (part : string) : Prop := part ≠ ""%string ∧ part ≠ "."%string.

#[export] Instance kept_dec part : Decision (kept part).
Proof. rw /kept. apply _. Defined.

(** Without dot-dots cleaning only drops empty and dot components. *)
Lemma clean_parts parts out :
  ".."%string ∉ parts → foldl (clean_step false) out parts = reverse (filter kept parts) ++ out.
Proof.
  revert out. induction parts as [|part parts IH]; intros out Hdd; [done|].
  rw /= IH; [set_solver|]. rw filter_cons /clean_step.
  destruct (String.eqb_spec part "") as [->|H1]; [done|].
  destruct (String.eqb_spec part ".") as [->|H2]; [done|].
  destruct (String.eqb_spec part "..") as [->|H3]; [set_solver|]. simpl.
  rw decide_True; [by split|]. by rw reverse_cons -app_assoc.
Qed.

Lemma prefix_head pre s :
  slash_free pre = true → String.prefix (pre +:+ "/") s = true → head (split_slash s) = Some pre.
Proof.
  intros Hfree Hpre. assert (∃ rest, s = pre +:+ String slash rest) as [rest ->].
  { clear Hfree. revert s Hpre. induction pre as [|c pre IH]; intros [|c' s]; simpl; try done.
    - case_match; [|done]. intros _. exists s. by subst.
    - case_match; [|done]. intros [rest ->]%IH. exists rest. by subst. }
  rw /split_on. destruct (split_app slash [] pre rest Hfree) as [-> _].
  by rw /= String.string_of_list_ascii_of_string.
Qed.

Lemma has_nul_split s cur :
  has_nul (String.string_of_list_ascii (reverse cur)) = false → has_nul s = false →
  Forall (λ p, has_nul p = false) (split_from slash cur s).
Proof.
  assert (∀ l c, has_nul (String.string_of_list_ascii (l ++ [c]))
    = has_nul (String.string_of_list_ascii l) || Ascii.eqb c "000"%char) as Hsnoc.
  { intros l c. induction l as [|c' l IH]; simpl; [by rw orb_false_r|]. by rw IH orb_assoc. }
  revert cur. induction s as [|c s IH]; intros cur Hcur Hs; simpl; [by constructor|].
  simpl in Hs. apply orb_false_iff in Hs as [Hc Hs]. destruct (Ascii.eqb c slash).
  - constructor; [done|]. by apply IH.
  - apply IH; [|done]. rw reverse_cons Hsnoc Hcur. done.
Qed.

Lemma has_nul_app s t : has_nul (s +:+ t) = has_nul s || has_nul t.
Proof. induction s as [|c s IH]; simpl; [done|]. by rw IH orb_assoc. Qed.

Lemma has_nul_join parts : Forall (λ p, has_nul p = false) parts → has_nul (join_slash parts) = false.
Proof.
  intros Hall. induction Hall as [|part parts Hp Hall IH]; [done|].
  destruct parts as [|part' parts]; [done|].
  by rw join_cons has_nul_app Hp /= IH.
Qed.

(** A path whose components are proper names. *)
Definition proper (parts : list string) : Prop :=
  parts ≠ [] ∧ Forall (λ p, slash_free p = true ∧ has_nul p = false ∧ kept p ∧ p ≠ ".."%string) parts.

Lemma existsb_dots parts : existsb (String.eqb "..") parts = false ↔ ".."%string ∉ parts.
Proof.
  split.
  - intros H Hin%list_elem_of_In. apply Bool.not_true_iff_false in H. apply H, existsb_exists.
    by exists ".."%string.
  - intros H. apply Bool.not_true_iff_false. intros (p & Hp & <-%String.eqb_eq)%existsb_exists.
    apply H. by apply list_elem_of_In.
Qed.

(** Relative paths without dot-dots pass every test. *)
Lemma normalize_plain input :
  input ≠ ""%string → has_nul input = false → IsAbs input = false → ".."%string ∉ split_slash input →
  NormalizeWorkspacePath input = inr (Clean input)
  ∧ ((filter kept (split_slash input) = [] ∧ Clean input = "."%string)
     ∨ proper (filter kept (split_slash input)) ∧ Clean input = join_slash (filter kept (split_slash input))).
Proof.
  intros Hne Hnul Habs Hdots.
  assert ((filter kept (split_slash input) = [] ∧ Clean input = "."%string)
     ∨ proper (filter kept (split_slash input)) ∧ Clean input = join_slash (filter kept (split_slash input)))
    as Hclean.
  { rw /Clean Habs clean_parts // app_nil_r reverse_involutive.
    destruct (filter kept (split_slash input)) as [|p ps] eqn:E; [by left|right].
    split; [|done]. rw -E. split; [by rw E|]. apply Forall_forall. intros q [Hk Hq]%list_elem_of_filter.
    pose proof (has_nul_split input [] eq_refl Hnul) as Hn. rw Forall_forall in Hn.
    split_and!; [by eapply split_parts; [|exact Hq]|by apply Hn|done|congruence]. }
  split; [|done].
  assert (∀ pre, (pre = "" ∨ pre = "..")%string → slash_free pre = true →
    String.prefix (pre +:+ "/") (Clean input) = false) as Hpre.
  { intros pre Hcase Hfree. apply Bool.not_true_iff_false. intros Hhead%prefix_head; [|done].
    destruct Hclean as [[_ E]|[[Hnil Hall] E]]; rw E in Hhead; [by destruct Hcase as [->| ->]|].
    rw split_join // in Hhead; [by eapply Forall_impl; [exact Hall|naive_solver]|].
    apply head_Some_elem_of in Hhead. rw Forall_forall in Hall.
    destruct (Hall _ Hhead) as (_ & _ & [? ?] & ?). naive_solver. }
  rw /NormalizeWorkspacePath. destruct (String.eqb_spec input ""); [done|].
  rw Hnul Habs (proj2 (existsb_dots _) Hdots). cbn [orb].
  rw /IsAbs (Hpre ""%string) //; [by left|]. rw (Hpre ".."%string) //; [by right|].
  destruct (String.eqb_spec (Clean input) "..") as [E|]; [|done]. exfalso.
  destruct Hclean as [[_ E']|[[Hnil Hall] E']]; rw E' in E; [done|].
  assert (split_slash (join_slash (filter kept (split_slash input))) = [".."%string]) as Hs by by rw E.
  rw split_join // in Hs; [by eapply Forall_impl; [exact Hall|naive_solver]|].
  rw Hs in Hall. inv Hall. naive_solver.
Qed.

Lemma proper_normal parts :
  proper parts →
  split_slash (join_slash parts) = parts ∧ IsAbs (join_slash parts) = false
  ∧ NormalizeWorkspacePath (join_slash parts) = inr (join_slash parts).
Proof.
  intros [Hnil Hall].
  assert (split_slash (join_slash parts) = parts) as Hsplit.
  { apply split_join; [done|]. eapply Forall_impl; [exact Hall|naive_solver]. }
  assert (IsAbs (join_slash parts) = false) as Habs.
  { apply Bool.not_true_iff_false. rw /IsAbs. intros Hhead%(prefix_head ""); [|done].
    rw Hsplit in Hhead. apply head_Some_elem_of in Hhead. rw Forall_forall in Hall.
    destruct (Hall _ Hhead) as (_ & _ & [? _] & _). done. }
  split; [done|]. split; [done|].
  assert (filter kept parts = parts) as Hkept.
  { clear -Hall. induction Hall as [|p parts (_ & _ & Hk & _) _ IH]; [done|].
    by rw filter_cons_True // IH. }
  destruct (normalize_plain (join_slash parts)) as [-> Hclean].
  - intros E. rw E in Hsplit. rw -Hsplit in Hall. inv Hall.
  - apply has_nul_join. eapply Forall_impl; [exact Hall|naive_solver].
  - done.
  - rw Hsplit. intros Hd. rw Forall_forall in Hall. by destruct (Hall _ Hd) as (_ & _ & _ & ?).
  - rw Hsplit Hkept in Hclean. by destruct Hclean as [[? _]|[_ ->]].
Qed.

(** Workspace paths.  A path is accepted exactly when it is not empty, holds
    no NUL, is relative and has no dot-dot component.  What is returned is again
    such a path, is the dot or has only proper names as components, and is
    returned unchanged when it is checked again. *)
Theorem NormalizeWorkspacePath_spec input :
  match NormalizeWorkspacePath input with
  | inl FailureInvalidArguments => input = ""%string ∨ has_nul input = true
  | inl FailureAbsolutePath => IsAbs input = true
  | inl FailurePathTraversal => ".."%string ∈ split_slash input
  | inr clean =>
    (input ≠ ""%string ∧ has_nul input = false ∧ IsAbs input = false ∧ ".."%string ∉ split_slash input)
    ∧ (clean = "."%string ∨ proper (split_slash clean)) ∧ IsAbs clean = false
    ∧ NormalizeWorkspacePath clean = inr clean
  end.
Proof.
  destruct (decide (input = ""%string)) as [->|Hne]; [by left|].
  destruct (has_nul input) eqn:Hnul.
  { rw /NormalizeWorkspacePath Hnul orb_true_r. by right. }
  destruct (IsAbs input) eqn:Habs.
  { rw /NormalizeWorkspacePath Hnul Habs. by destruct (String.eqb_spec input ""). }
  destruct (decide (".."%string ∈ split_slash input)) as [Hdots|Hdots].
  { rw /NormalizeWorkspacePath Hnul Habs. destruct (String.eqb_spec input ""); [done|].
    destruct (existsb _ _) eqn:E; [done|]. by apply existsb_dots in E. }
  destruct (normalize_plain input Hne Hnul Habs Hdots) as [-> Hclean]. split; [done|].
  destruct Hclean as [[_ ->]|[Hproper ->]]; [by split; [left|]|].
  destruct (proper_normal _ Hproper) as (-> & ? & ?). split; [by right|done].
Qed.
