(* ===== verification/Driver.v ===== *)
(** * The work unit driver (internal/workunit/driver.go, lane.go)

    Containment of a unit's envelope in that of its task, the order in which
    operator definitions are created, re-supply of definitions, the gate of the
    parent task and the release of units that waited for an approval.
    The theorems on the driver follow its definitions. *)

From stdpp Require Import relations.
From S2P Require Import Prelude GoTime Text Cycles Database WorkUnits UnitLaws UnitReady Paths.

Local Open Scope runstead_scope.

(** ** Lanes *)

Inductive Lane := LaneShared | LaneExclusive.

#[export] Instance Lane_eq_dec : EqDecision Lane.
Proof. solve_decision. Defined.

Definition readOnlyTools (tool : string) : bool :=
  existsb (String.eqb tool) ["read_file"; "list_files"; "search_text"; "git_status"; "git_diff"]%string.

Definition Classify (tools : option (list string)) : Lane :=
  match tools with
  | None => LaneExclusive
  | Some tools => if forallb readOnlyTools tools then LaneShared else LaneExclusive
  end.

Definition DefaultConcurrency : Z := 1.
Definition MinConcurrency : Z := 1.
Definition MaxConcurrency : Z := 4.

(** ** Data *)

Record Definition_ := {
  df_WorkUnitID : string;
  df_Objective : string;
  df_ParentWorkUnitID : string;
  df_Dependencies : list string;
  df_Tools : option (list string);
  df_WorkspaceScope : string;
  df_AcceptancePlan : string;
  df_ContextBudget : Z;
  df_ProviderBudget : Z;
  df_StepBudget : Z
}.

Record Driver := {
  TaskID_ : string;
  AllowedTools : list string;
  Concurrency : Z
}.

Inductive DriverError :=
  | ErrStore (cause : StoreError)
  | ErrCapabilityEscalation (what : string)
  | ErrWorkUnitDefinitionDrift (what : string)
  | ErrParentCompletionGated (open : list (string * string))
  | ErrWorkUnitConcurrency (concurrency : Z)
  | ErrWorkUnitBlockedChain (id : string)
  | ErrCanceled (id : string)
  | ErrContext (text : string)
  | ErrInterrupted (id : string)
  | ErrRun (text : string)
  | ErrDefinition (text : string).

(** The state monad of the store with the errors of the driver. *)
Abbreviation DR A := (State Store (DriverError + A)).

Definition from_store {A} (m : DB A) : DR A := λ s,
  match m s with
  | (inl e, s') => (inl (ErrStore e), s')
  | (inr a, s') => (inr a, s')
  end.

Definition andthen {A B} (m : DR A) (k : A → DR B) : DR B := λ s,
  match m s with
  | (inl e, s') => (inl e, s')
  | (inr a, s') => k a s'
  end.

Notation "x ←! m ; k" := (andthen m (λ x, k))
  (at level 20, m at level 100, k at level 200, right associativity) : runstead_scope.

(** [verifier.ParsePlan] and the digest of its plan: [None] is a parse error. *)
Class Plans := { plan_digest : string → option string }.

(** ** Containment *)

Definition ValidateEnvelope (d : Driver) (tools : option (list string)) (scope : string)
    : option DriverError :=
  match List.find (λ tool, negb (existsb (String.eqb tool) (AllowedTools d))) (default [] tools) with
  | Some tool => Some (ErrCapabilityEscalation tool)
  | None =>
    if blank scope then None
    else match NormalizeWorkspacePath scope with
         | inl _ => Some (ErrCapabilityEscalation scope)
         | inr _ => None
         end
  end.

(** ** Comparison of a persisted unit with a definition *)

(** The trimmed, non-empty elements. *)
Definition trimmed (l : list string) : gset string :=
  list_to_set (List.filter (λ s, negb (String.eqb s "")) (TrimSpace <$> l)).

Definition stringSetsEqual (a b : list string) : bool := bool_decide (trimmed a = trimmed b).

Definition toolEnvelopeIdentical (a b : option (list string)) : bool :=
  match a, b with
  | None, None => true
  | Some a, Some b => stringSetsEqual a b
  | _, _ => false
  end.

Definition same_text (a b : string) : bool := String.eqb (TrimSpace a) (TrimSpace b).

Definition ensureIdenticalDefinition (existing : WorkUnit) (def : Definition_) (digest : string)
    : option DriverError :=
  if negb (same_text (Objective existing) (df_Objective def)) then
    Some (ErrWorkUnitDefinitionDrift "objective changed")
  else if negb (same_text (ParentWorkUnitID existing) (df_ParentWorkUnitID def)) then
    Some (ErrWorkUnitDefinitionDrift "parent work unit changed")
  else if negb (same_text (WorkspaceScope existing) (df_WorkspaceScope def)) then
    Some (ErrWorkUnitDefinitionDrift "workspace scope changed")
  else if negb (ContextBudget existing =? df_ContextBudget def)%Z
       || negb (ProviderBudget existing =? df_ProviderBudget def)%Z
       || negb (StepBudget existing =? df_StepBudget def)%Z then
    Some (ErrWorkUnitDefinitionDrift "budgets changed")
  else if negb (toolEnvelopeIdentical (Tools existing) (df_Tools def)) then
    Some (ErrWorkUnitDefinitionDrift "tool envelope changed")
  else if negb (stringSetsEqual (Dependencies existing) (df_Dependencies def)) then
    Some (ErrWorkUnitDefinitionDrift "dependency set changed")
  else if negb (String.eqb (AcceptanceDigest existing) digest) then
    Some (ErrWorkUnitDefinitionDrift "acceptance plan changed")
  else None.

(** ** The order of creation *)

(** The definitions by identifier; [None] when one appears twice. *)
Fixpoint by_id (defs : list Definition_) (acc : gmap string Definition_)
    : option (gmap string Definition_) :=
  match defs with
  | [] => Some acc
  | def :: defs' =>
    match acc !! df_WorkUnitID def with
    | Some _ => None
    | None => by_id defs' (<[df_WorkUnitID def := def]> acc)
    end
  end.

(** What a definition waits for inside the batch: its dependencies, then its
    parent. *)
Definition prerequisites (byID : gmap string Definition_) (def : Definition_) : list string :=
  filter (λ dep, is_Some (byID !! dep)) (df_Dependencies def)
  ++ (if blank (df_ParentWorkUnitID def) then []
      else filter (λ dep, is_Some (byID !! dep)) [df_ParentWorkUnitID def]).

(** The two maps the loop over the definitions builds. *)
Definition outgoing_of (byID : gmap string Definition_) (defs : list Definition_) (id : string)
    : list string :=
  flat_map (λ def, (λ _, df_WorkUnitID def) <$>
    filter (λ dep, dep = id) (prerequisites byID def)) defs.

Definition add_degree (byID : gmap string Definition_) (indegree : gmap string Z)
    (def : Definition_) : gmap string Z :=
  match prerequisites byID def with
  | [] => indegree
  | deps => <[df_WorkUnitID def := (default 0 (indegree !! df_WorkUnitID def) + Z.of_nat (length deps))%Z]> indegree
  end.

Definition indegrees (byID : gmap string Definition_) (defs : list Definition_) : gmap string Z :=
  foldl (add_degree byID) ∅ defs.

(** One dependent of the unit that was just ordered. *)
Definition release (st : gmap string Z * list string) (dependent : string)
    : gmap string Z * list string :=
  let '(indegree, queue) := st in
  let left := (default 0 (indegree !! dependent) - 1)%Z in
  let indegree := <[dependent := left]> indegree in
  if (left =? 0)%Z then (indegree, queue ++ [dependent]) else (indegree, queue).

(** The loop on the queue; the definitions in the order they are taken. *)
Fixpoint kahn (byID : gmap string Definition_) (outgoing : string → list string) (fuel : nat)
    (indegree : gmap string Z) (queue : list string) (ordered : list Definition_)
    : list Definition_ :=
  match fuel with
  | O => ordered
  | S fuel' =>
    match sort_Strings queue with
    | [] => ordered
    | current :: queue' =>
      let '(indegree, queue) := foldl release (indegree, queue') (sort_Strings (outgoing current)) in
      kahn byID outgoing fuel' indegree queue
        (ordered ++ match byID !! current with Some def => [def] | None => [] end)
    end
  end.

Definition topologicalDefinitions (defs : list Definition_) : DriverError + list Definition_ :=
  match by_id defs ∅ with
  | None => inl (ErrDefinition "work unit definition appears more than once")
  | Some byID =>
    let indegree := indegrees byID defs in
    let queue := filter (λ id, default 0%Z (indegree !! id) = 0%Z) (df_WorkUnitID <$> defs) in
    let ordered := kahn byID (outgoing_of byID defs) (S (length defs)) indegree queue [] in
    if negb (Nat.eqb (length ordered) (length defs)) then
      inl (ErrDefinition "work unit dependency cycle detected")
    else inr ordered
  end.

Definition chain_definition (id : string) (deps : list string) : Definition_ := {|
  df_WorkUnitID := id; df_Objective := "o"; df_ParentWorkUnitID := ""; df_Dependencies := deps;
  df_Tools := None; df_WorkspaceScope := ""; df_AcceptancePlan := ""; df_ContextBudget := 0;
  df_ProviderBudget := 0; df_StepBudget := 0 |}.

Example topological_example :
  topologicalDefinitions [chain_definition "a" ["b"; "z"]; chain_definition "c" ["a"; "b"];
    chain_definition "b" []]
  = inr [chain_definition "b" []; chain_definition "a" ["b"; "z"]; chain_definition "c" ["a"; "b"]]%string.
Proof. by vm_compute. Qed.

(** ** Creation of the operator's definitions *)

Section driver.
Context `{Disk} `{Codec} `{Plans}.
Context (d : Driver).

Definition digest_of (def : Definition_) : DriverError + string :=
  if String.eqb (df_AcceptancePlan def) "" then inr ""%string
  else match plan_digest (df_AcceptancePlan def) with
       | None => inl (ErrDefinition "work unit acceptance plan")
       | Some digest => inr digest
       end.

Definition inspect_definition (def : Definition_) : DriverError + (Definition_ * string) :=
  if blank (df_WorkUnitID def) then inl (ErrDefinition "work unit definition requires work_unit_id")
  else match ValidateEnvelope d (df_Tools def) (df_WorkspaceScope def) with
       | Some e => inl e
       | None => match digest_of def with
                 | inl e => inl e
                 | inr digest => inr (def, digest)
                 end
       end.

Fixpoint inspect_all (defs : list Definition_) : DriverError + list (Definition_ * string) :=
  match defs with
  | [] => inr []
  | def :: defs' =>
    match inspect_definition def with
    | inl e => inl e
    | inr item =>
      match inspect_all defs' with
      | inl e => inl e
      | inr items => inr (item :: items)
      end
    end
  end.

Definition create_record (def : Definition_) (digest : string) : WorkUnitCreate := {|
  wc_TaskID := TaskID_ d;
  wc_WorkUnitID := df_WorkUnitID def;
  wc_ParentWorkUnitID := df_ParentWorkUnitID def;
  wc_Objective := df_Objective def;
  wc_Dependencies := df_Dependencies def;
  wc_Tools := df_Tools def;
  wc_WorkspaceScope := df_WorkspaceScope def;
  wc_AcceptancePlan := df_AcceptancePlan def;
  wc_AcceptanceDigest := digest;
  wc_ContextBudget := df_ContextBudget def;
  wc_ProviderBudget := df_ProviderBudget def;
  wc_StepBudget := df_StepBudget def |}.

(** The counts that are returned, also with an error. *)
Record Ensured := { en_created : nat; en_skipped : nat; en_err : option DriverError }.

Definition ensured (created skipped : nat) (err : option DriverError) : Ensured :=
  {| en_created := created; en_skipped := skipped; en_err := err |}.

Fixpoint ensure_each (fuel : nat) (items : list (Definition_ * string)) (created skipped : nat)
    : State Store Ensured := λ s,
  match items with
  | [] => (ensured created skipped None, s)
  | (def, digest) :: items' =>
    match GetWorkUnit (TaskID_ d) (df_WorkUnitID def) s with
    | (inr existing, s') =>
      match ensureIdenticalDefinition existing def digest with
      | Some e => (ensured 0 0 (Some e), s')
      | None => ensure_each fuel items' created (S skipped) s'
      end
    | (inl (ErrWorkUnitNotFound _), s') =>
      match CreateWorkUnit fuel (create_record def digest) s' with
      | (inl e, s'') => (ensured created skipped (Some (ErrStore e)), s'')
      | (inr _, s'') => ensure_each fuel items' (S created) skipped s''
      end
    | (inl e, s') => (ensured 0 0 (Some (ErrStore e)), s')
    end
  end.

Definition EnsureDefinitions (fuel : nat) (defs : list Definition_) : State Store Ensured := λ s,
  match topologicalDefinitions defs with
  | inl e => (ensured 0 0 (Some e), s)
  | inr ordered =>
    match inspect_all ordered with
    | inl e => (ensured 0 0 (Some e), s)
    | inr items => ensure_each fuel items 0 0 s
    end
  end.

(** ** The gate of the parent *)

Definition openUnits : DR (list WorkUnit) :=
  units ←! from_store (ListWorkUnits (TaskID_ d));
  mret (inr (List.filter (λ u, negb (String.eqb (Status u) "completed")) units)).

Definition GateParent : DR unit :=
  open ←! openUnits;
  match open with
  | [] => mret (inr tt)
  | _ => mret (inl (ErrParentCompletionGated ((λ u, (WorkUnitID u, Status u)) <$> open)))
  end.

(** ** Units that waited for an approval *)

(** [strings.Contains]. *)
Definition contains (sub s : string) : bool :=
  match String.index 0 sub s with Some _ => true | None => false end.

Fixpoint resolve_each (units : list WorkUnit) : DB unit :=
  match units with
  | [] => return_ tt
  | unit :: units' =>
    if negb (String.eqb (Status unit) "blocked") || negb (contains "approval" (BlockingReason unit))
    then resolve_each units'
    else
      pending ←? WorkUnitPendingApprovalCount (TaskID_ d) (WorkUnitID unit);
      if Nat.eqb pending 0 then
        _ ←? TransitionWorkUnit (TaskID_ d) (WorkUnitID unit) "blocked" "ready"
               "operator approval resolved";
        resolve_each units'
      else resolve_each units'
  end.

Definition resolveBlockedWorkUnits : DB unit :=
  units ←? ListWorkUnits (TaskID_ d);
  resolve_each units.

End driver.

(** ** Definitions by identifier *)

Abbreviation ids defs := (df_WorkUnitID <$> defs).

Lemma by_id_spec defs acc byID :
  by_id defs acc = Some byID →
  NoDup (ids defs) ∧ (∀ id, id ∈ ids defs → acc !! id = None)
  ∧ ∀ id def, byID !! id = Some def ↔ acc !! id = Some def ∨ (def ∈ defs ∧ df_WorkUnitID def = id).
Proof.
  revert acc. induction defs as [|def defs IH]; intros acc; simpl.
  { intros [= <-]. split_and!; [constructor|by intros id ?%elem_of_nil|]. intros id def. set_solver. }
  destruct (acc !! df_WorkUnitID def) eqn:Hnew; [done|]. intros (Hnd & Hfresh & Hall)%IH.
  assert (df_WorkUnitID def ∉ ids defs) as Hdef.
  { intros Hin. apply Hfresh in Hin. by rw lookup_insert_eq in Hin. }
  split_and!.
  - by constructor.
  - intros id [->|Hid]%elem_of_cons; [done|]. pose proof (Hfresh id Hid) as Hn.
    rw lookup_insert_ne in Hn; [|done]. intros <-. done.
  - intros id def'. rw Hall elem_of_cons. destruct (decide (df_WorkUnitID def = id)) as [<-|Hne].
    + rw lookup_insert_eq Hnew. split.
      * intros [[= <-]|[Hin Hid]]; [by right; split; [left|]|].
        exfalso. apply Hdef. rw -Hid. by apply list_elem_of_fmap_2.
      * intros [?|[[->|Hin] Hid]]; [done|by left|]. exfalso. apply Hdef. rw -Hid.
        by apply list_elem_of_fmap_2.
    + rw lookup_insert_ne //. naive_solver.
Qed.

Lemma by_id_None defs acc :
  by_id defs acc = None → (∃ id, id ∈ ids defs ∧ is_Some (acc !! id)) ∨ ¬ NoDup (ids defs).
Proof.
  revert acc. induction defs as [|def defs IH]; intros acc; simpl; [done|].
  destruct (acc !! df_WorkUnitID def) eqn:Hnew.
  { intros _. left. exists (df_WorkUnitID def). split; [by left|by eexists]. }
  intros [(id & Hid & Hacc)|Hnd]%IH.
  - destruct (decide (df_WorkUnitID def = id)) as [<-|Hne].
    + right. by intros [? _]%NoDup_cons.
    + left. exists id. rw lookup_insert_ne // in Hacc. split; [by right|done].
  - right. by intros [_ ?]%NoDup_cons.
Qed.

(** ** Counting dependents *)

Definition count_of (id : string) (l : list string) : Z :=
  Z.of_nat (length (filter (λ x, x = id) l)).

Lemma count_of_cons id x l : count_of id (x :: l) = ((if bool_decide (x = id) then 1 else 0) + count_of id l)%Z.
Proof. rw /count_of filter_cons. case_bool_decide as E; [rw decide_True // /=; lia|by rw decide_False]. Qed.

Lemma count_of_nonneg id l : (0 ≤ count_of id l)%Z.
Proof. rw /count_of. lia. Qed.

Lemma count_of_zero id l : id ∉ l → count_of id l = 0%Z.
Proof.
  induction l as [|x l IH]; [done|]. intros [Hne Hl]%not_elem_of_cons. rw count_of_cons IH //.
  by rw bool_decide_false.
Qed.

Lemma count_of_perm id l k : l ≡ₚ k → count_of id l = count_of id k.
Proof. intros H. rw /count_of. by rw H. Qed.

Lemma count_of_app id l k : count_of id (l ++ k) = (count_of id l + count_of id k)%Z.
Proof. rw /count_of filter_app length_app. lia. Qed.

Abbreviation degree indegree id := (default 0%Z (indegree !! id)).

(** The loop over the dependents of one unit. *)
Lemma release_spec (l : list string) (indegree : gmap string Z) (queue : list string) :
  (∀ id, (count_of id l ≤ degree indegree id)%Z) →
  ∃ indegree' new, foldl release (indegree, queue) l = (indegree', queue ++ new)
    ∧ (∀ id, degree indegree' id = (degree indegree id - count_of id l)%Z)
    ∧ NoDup new
    ∧ ∀ id, id ∈ new ↔ id ∈ l ∧ degree indegree id = count_of id l.
Proof.
  revert indegree queue. induction l as [|x l IH]; intros indegree queue Hle.
  { exists indegree, []. rw app_nil_r. split_and!; [done| |constructor|set_solver].
    intros id. rw count_of_zero; [set_solver|lia]. }
  cbn [foldl]. rw /release -/release. set (n := (degree indegree x - 1)%Z).
  set (ind1 := <[x := n]> indegree).
  assert (∀ id, degree ind1 id = (degree indegree id - if bool_decide (x = id) then 1 else 0)%Z) as Hind1.
  { intros id. rw /ind1. case_bool_decide as E; [rw E lookup_insert_eq /= /n E; lia|].
    rw lookup_insert_ne //. lia. }
  assert (∀ id, (count_of id l ≤ degree ind1 id)%Z) as Hle1.
  { intros id. rw Hind1. specialize (Hle id). rw count_of_cons in Hle. case_bool_decide; lia. }
  assert (∀ id, id ∈ l ∧ degree ind1 id = count_of id l ∨ (id = x ∧ n = 0%Z) ↔
    id ∈ x :: l ∧ degree indegree id = count_of id (x :: l)) as Hmem.
  { intros id. rw Hind1 count_of_cons elem_of_cons. specialize (Hle1 id). rw Hind1 in Hle1.
    pose proof (count_of_nonneg id l). destruct (decide (x = id)) as [<-|Hne].
    - rw bool_decide_true // in Hle1 |- *. split.
      + intros [[? ?]|[_ ?]]; [split; [by right|lia]|]. split; [by left|]. rw /n in H0. lia.
      + intros [_ ?]. destruct (decide (x ∈ l)) as [|Hnl]; [left; split; [done|lia]|right].
        split; [done|]. rw /n. rw (count_of_zero x l Hnl) in H0. lia.
    - rw bool_decide_false //. split.
      + intros [[? ?]|[? _]]; [split; [by right|lia]|congruence].
      + intros [[?|?] ?]; [congruence|left; split; [done|lia]]. }
  destruct (Z.eqb_spec n 0) as [Hn|Hn].
  - destruct (IH ind1 (queue ++ [x]) Hle1) as (ind' & new & Hfold & Hdeg & Hnd & Hnew).
    assert (x ∉ new) as Hx.
    { intros [Hin Hd]%Hnew. specialize (Hle1 x). rw Hind1 bool_decide_true // in Hd.
      assert (0 < count_of x l)%Z; [|lia]. rw /count_of.
      destruct (filter (λ y, y = x) l) eqn:E; [|simpl; lia].
      exfalso. assert (x ∈ filter (λ y, y = x) l) as Hf by by apply list_elem_of_filter.
      rw E in Hf. by apply elem_of_nil in Hf. }
    exists ind', (x :: new). rw Hfold -app_assoc. split_and!; [done| |by constructor|].
    + intros id. rw Hdeg Hind1 count_of_cons. lia.
    + intros id. rw elem_of_cons Hnew -Hmem. naive_solver.
  - destruct (IH ind1 queue Hle1) as (ind' & new & Hfold & Hdeg & Hnd & Hnew).
    exists ind', new. rw Hfold. split_and!; [done| |done|].
    + intros id. rw Hdeg Hind1 count_of_cons. lia.
    + intros id. rw Hnew -Hmem. naive_solver.
Qed.

(** ** The order of creation *)

(** Every definition comes after what it needs of the batch. *)
Definition ordered_definitions (byID : gmap string Definition_) (l : list Definition_) : Prop :=
  ∀ l1 def l2, l = l1 ++ def :: l2 → ∀ dep, dep ∈ prerequisites byID def → dep ∈ ids l1.

Section kahn.
Context (defs : list Definition_) (byID : gmap string Definition_).
Context (Hby : by_id defs ∅ = Some byID).

Lemma byID_spec id def : byID !! id = Some def ↔ def ∈ defs ∧ df_WorkUnitID def = id.
Proof.
  destruct (by_id_spec _ _ _ Hby) as (_ & _ & Hall). rw Hall lookup_empty. naive_solver.
Qed.

Lemma ids_NoDup : NoDup (ids defs).
Proof. apply (by_id_spec _ _ _ Hby). Qed.

Lemma defs_unique def def' : def ∈ defs → def' ∈ defs → df_WorkUnitID def = df_WorkUnitID def' → def = def'.
Proof.
  intros H1 H2 E. assert (byID !! df_WorkUnitID def = Some def) as L1 by by apply byID_spec.
  assert (byID !! df_WorkUnitID def = Some def') as L2 by by apply byID_spec. congruence.
Qed.

Lemma prerequisites_batch def dep : dep ∈ prerequisites byID def → dep ∈ ids defs.
Proof.
  assert (∀ l : list string, dep ∈ filter (λ dep, is_Some (byID !! dep)) l → dep ∈ ids defs) as Hf.
  { intros l [[def' [Hd E]%byID_spec] _]%list_elem_of_filter. apply list_elem_of_fmap. by exists def'. }
  rw /prerequisites. intros [H|H]%elem_of_app; [by eapply Hf|].
  case_match; [by apply elem_of_nil in H|by eapply Hf].
Qed.

(** What is still missing of the prerequisites of a definition. *)
Definition missing (done : list string) (def : Definition_) : list string :=
  filter (λ dep, dep ∉ done) (prerequisites byID def).

Record kahn_inv (indegree : gmap string Z) (queue : list string) (ordered : list Definition_) : Prop := {
  kh_sub def : def ∈ ordered → def ∈ defs;
  kh_nodup : NoDup (ids ordered ++ queue);
  kh_queue id : id ∈ queue → id ∈ ids defs;
  kh_degree def : def ∈ defs →
    degree indegree (df_WorkUnitID def) = Z.of_nat (length (missing (ids ordered) def));
  kh_other id : id ∉ ids defs → degree indegree id = 0%Z;
  kh_zero def : def ∈ defs → missing (ids ordered) def = [] →
    df_WorkUnitID def ∈ ids ordered ∨ df_WorkUnitID def ∈ queue;
  kh_free id def : id ∈ ids ordered ++ queue → byID !! id = Some def → missing (ids ordered) def = [];
  kh_order : ordered_definitions byID ordered
}.

Lemma count_outgoing current def l :
  def ∈ l → NoDup (ids l) →
  count_of (df_WorkUnitID def) (outgoing_of byID l current) = count_of current (prerequisites byID def).
Proof.
  assert (∀ x (k : list string), count_of x ((λ _, x) <$> k) = Z.of_nat (length k)) as Hself.
  { intros x k. induction k as [|y k IH]; [done|]. rw fmap_cons count_of_cons bool_decide_true // IH /=. lia. }
  assert (∀ x y (k : list string), x ≠ y → count_of x ((λ _, y) <$> k) = 0%Z) as Hother.
  { intros x y k Hne. apply count_of_zero. intros (? & -> & _)%list_elem_of_fmap. done. }
  assert (∀ l x, x ∉ ids l → count_of x (outgoing_of byID l current) = 0%Z) as Hnone.
  { clear. intros l x Hx. apply count_of_zero. rw /outgoing_of. intros Hin.
    apply list_elem_of_In, in_flat_map in Hin as (def & Hd%list_elem_of_In & Hin%list_elem_of_In).
    apply list_elem_of_fmap in Hin as (y & -> & _). apply Hx. by apply list_elem_of_fmap_2. }
  induction l as [|def' l IH]; [by intros ?%elem_of_nil|].
  intros Hin [Hnew Hnd]%NoDup_cons. rw /outgoing_of /= count_of_app -/(outgoing_of byID l current).
  apply elem_of_cons in Hin as [<-|Hin].
  - rw Hself Hnone //. rw /count_of. lia.
  - rw IH // Hother; [|lia]. intros E. apply Hnew. rw -E. by apply list_elem_of_fmap_2.
Qed.

Lemma missing_snoc done current def :
  Z.of_nat (length (missing (done ++ [current]) def))
  = (Z.of_nat (length (missing done def))
     - if bool_decide (current ∈ done) then 0 else count_of current (prerequisites byID def))%Z.
Proof.
  rw /missing. induction (prerequisites byID def) as [|dep deps IH].
  { rw /count_of /=. by destruct (bool_decide _). }
  rw count_of_cons. destruct (decide (dep ∈ done)) as [Hd|Hd].
  - rw filter_cons_False; [set_solver|]. rw filter_cons_False; [by intros ?|]. rw IH.
    destruct (bool_decide_reflect (current ∈ done)) as [?|Hc]; [done|].
    rw bool_decide_false; [congruence|lia].
  - rw (filter_cons_True _ dep deps Hd). destruct (decide (dep = current)) as [->|Hne].
    + rw filter_cons_False; [set_solver|]. rw IH (bool_decide_false (current ∈ done)) // (bool_decide_true (current = current)) //. cbn [length]. lia.
    + rw filter_cons_True; [set_solver|]. rw (bool_decide_false (dep = current)) //. cbn [length].
      case_bool_decide; lia.
Qed.

Lemma missing_spec done def dep : dep ∈ missing done def ↔ (dep ∉ done) ∧ dep ∈ prerequisites byID def.
Proof. by rw /missing list_elem_of_filter. Qed.

Lemma missing_nil done def : (missing done def = []) ↔ (∀ dep, dep ∈ prerequisites byID def → dep ∈ done).
Proof.
  split.
  - intros H dep Hdep. destruct (decide (dep ∈ done)) as [|Hn]; [done|exfalso].
    apply (not_elem_of_nil dep). rw -H. by apply missing_spec.
  - intros H. apply elem_of_nil_inv. intros dep [Hn Hdep]%missing_spec. by apply Hn, H.
Qed.

Lemma missing_nil_mono done current def : missing done def = [] → missing (done ++ [current]) def = [].
Proof. rw !missing_nil. set_solver. Qed.

Lemma outgoing_batch current id : id ∈ outgoing_of byID defs current → id ∈ ids defs.
Proof.
  rw /outgoing_of. intros (def & Hd%list_elem_of_In & Hin%list_elem_of_In)%list_elem_of_In%in_flat_map.
  apply list_elem_of_fmap in Hin as (y & -> & _). by apply list_elem_of_fmap_2.
Qed.

Lemma count_of_pos id l : id ∈ l → (0 < count_of id l)%Z.
Proof.
  intros H. rw /count_of. destruct (filter (λ x, x = id) l) eqn:E; [|simpl; lia].
  assert (id ∈ filter (λ x, x = id) l) as Hf by by apply list_elem_of_filter.
  rw E in Hf. by apply elem_of_nil in Hf.
Qed.

(** The dependents of a unit that is taken account for what they still miss. *)
Lemma outgoing_degree indegree queue ordered current id :
  kahn_inv indegree queue ordered → current ∉ ids ordered →
  (count_of id (sort_Strings (outgoing_of byID defs current)) ≤ degree indegree id)%Z
  ∧ ∀ def, def ∈ defs → df_WorkUnitID def = id →
      (degree indegree id - count_of id (sort_Strings (outgoing_of byID defs current)))%Z
      = Z.of_nat (length (missing (ids ordered ++ [current]) def)).
Proof.
  intros HI Hcur. rw (count_of_perm _ _ (outgoing_of byID defs current)); [apply merge_sort_Permutation|].
  assert (∀ def, def ∈ defs → df_WorkUnitID def = id →
      (degree indegree id - count_of id (outgoing_of byID defs current))%Z
      = Z.of_nat (length (missing (ids ordered ++ [current]) def))) as Hdeg.
  { intros def Hdef <-. rw (kh_degree _ _ _ HI def Hdef) count_outgoing //; [apply ids_NoDup|].
    rw missing_snoc bool_decide_false //. }
  split; [|done]. destruct (decide (id ∈ ids defs)) as [Hin|Hout].
  - apply list_elem_of_fmap in Hin as (def & -> & Hdef). specialize (Hdeg def Hdef eq_refl). lia.
  - rw count_of_zero; [by intros ?%outgoing_batch|]. by rw (kh_other _ _ _ HI).
Qed.

Lemma missing_length done def : (missing done def = []) ↔ Z.of_nat (length (missing done def)) = 0%Z.
Proof. split; [by intros ->|]. intros H. apply nil_length_inv. lia. Qed.

(** One turn of the loop. *)
Lemma kahn_turn indegree queue ordered current queue' :
  kahn_inv indegree queue ordered → sort_Strings queue = current :: queue' →
  ∃ indegree' queue'' def,
    foldl release (indegree, queue') (sort_Strings (outgoing_of byID defs current)) = (indegree', queue'')
    ∧ byID !! current = Some def ∧ kahn_inv indegree' queue'' (ordered ++ [def]).
Proof.
  intros HI Hsort.
  assert (queue ≡ₚ current :: queue') as Hperm by (rw -Hsort; symmetry; apply merge_sort_Permutation).
  assert (current ∈ queue) as Hq by (rw Hperm; by left).
  assert (∃ def, def ∈ defs ∧ df_WorkUnitID def = current) as (def & Hdef & Hid).
  { apply (kh_queue _ _ _ HI), list_elem_of_fmap in Hq as (def & -> & Hdef). by exists def. }
  assert (byID !! current = Some def) as Hlook by by apply byID_spec.
  pose proof (kh_nodup _ _ _ HI) as Hnd. rw Hperm in Hnd.
  apply NoDup_app in Hnd as (Hno & Hdisj & [Hcq Hnq]%NoDup_cons).
  assert (current ∉ ids ordered) as Hcur by (intros H; apply (Hdisj _ H); by left).
  pose proof (λ id, outgoing_degree _ _ _ _ id HI Hcur) as Hout.
  destruct (release_spec (sort_Strings (outgoing_of byID defs current)) indegree queue'
    (λ id, proj1 (Hout id))) as (indegree' & new & Hfold & Hdeg & Hnn & Hnew).
  assert (∀ id, id ∈ new → id ∈ ids defs) as Hbatch.
  { intros id [Hin _]%Hnew. apply (outgoing_batch current). move: Hin.
    by rw /sort_Strings merge_sort_Permutation. }
  assert (∀ id, id ∈ new → (id ∉ ids ordered) ∧ id ∉ queue) as Hfresh.
  { intros id Hid'. pose proof (Hbatch id Hid') as (def' & -> & Hdef')%list_elem_of_fmap.
    apply Hnew in Hid' as [Hin Hcount]. apply count_of_pos in Hin.
    rw (kh_degree _ _ _ HI def' Hdef') in Hcount.
    assert (df_WorkUnitID def' ∉ ids ordered ++ queue) as Hn; [|set_solver].
    intros Hx. pose proof (kh_free _ _ _ HI _ def' Hx) as Hfree.
    rw Hfree /= in Hcount; [by apply byID_spec|]. lia. }
  exists indegree', (queue' ++ new), def. split_and!; [done|done|].
  assert (ids (ordered ++ [def]) = ids ordered ++ [current]) as Hids by by rw fmap_app /= Hid.
  split; rw ?Hids.
  - intros d [Hd| ->%list_elem_of_singleton]%elem_of_app; [by apply (kh_sub _ _ _ HI)|done].
  - rw -app_assoc. apply NoDup_app. split_and!; [done| |].
    + intros id Hi [->|[Hiq|Hin]%elem_of_app]%elem_of_cons; [done| |by apply Hfresh in Hin as []].
      apply (Hdisj _ Hi). by right.
    + apply NoDup_cons. split.
      * intros [?|Hin]%elem_of_app; [done|]. by apply Hfresh in Hin as [].
      * apply NoDup_app. split_and!; [done| |done]. intros id Hi [_ Hx]%Hfresh. apply Hx.
        rw Hperm. by right.
  - intros id [Hi|Hi]%elem_of_app; [|by apply Hbatch]. apply (kh_queue _ _ _ HI). rw Hperm. by right.
  - intros def' Hdef'. rw Hdeg. by apply (proj2 (Hout _)).
  - intros id Hi. rw Hdeg (kh_other _ _ _ HI id Hi) count_of_zero; [|done].
    rw /sort_Strings merge_sort_Permutation. by intros ?%outgoing_batch.
  - intros def' Hdef' Hm. destruct (decide (missing (ids ordered) def' = [])) as [Hnil|Hnil].
    + destruct (kh_zero _ _ _ HI def' Hdef' Hnil) as [?|Hx]; [left; set_solver|].
      rw Hperm in Hx. set_solver.
    + right. apply elem_of_app. right. apply Hnew.
      pose proof (proj2 (Hout (df_WorkUnitID def')) def' Hdef' eq_refl) as E. rw Hm /= in E.
      rw (kh_degree _ _ _ HI def' Hdef') in E |- *. split; [|lia].
      destruct (decide (df_WorkUnitID def' ∈ sort_Strings (outgoing_of byID defs current))) as [|Hno']; [done|].
      exfalso. apply Hnil, missing_length. rw (count_of_zero _ _ Hno') in E. lia.
  - intros id def' Hi Hl. pose proof Hl as [Hdef' Hid']%byID_spec.
    assert (id ∈ ids ordered ++ queue ∨ id ∈ new) as [Hi'|Hi'].
    { rw !elem_of_app Hperm in Hi |- *. set_solver. }
    + by apply missing_nil_mono, (kh_free _ _ _ HI id).
    + apply missing_length. rw -(proj2 (Hout id) def' Hdef' Hid'). apply Hnew in Hi' as [_ ->]. lia.
  - intros l1 d l2 Heq dep Hdep.
    destruct (app_cons_split ordered [] l1 l2 def d) as [(p2 & -> & _)|[(-> & -> & _)|(r1 & _ & Hr)]]; [done|..].
    + by eapply (kh_order _ _ _ HI).
    + eapply missing_nil; [|done]. apply (kh_free _ _ _ HI current); [|done]. set_solver.
    + by destruct r1.
Qed.
Lemma ordered_length indegree queue ordered :
  kahn_inv indegree queue ordered → length ordered ≤ length defs.
Proof.
  intros HI. rw -(length_fmap df_WorkUnitID ordered) -(length_fmap df_WorkUnitID defs).
  apply submseteq_length, NoDup_submseteq.
  - by apply (NoDup_app (ids ordered) queue), (kh_nodup _ _ _ HI).
  - intros id (def & -> & Hdef)%list_elem_of_fmap. by apply list_elem_of_fmap_2, (kh_sub _ _ _ HI).
Qed.

(** The loop ends with an empty queue before its fuel does. *)
Lemma kahn_run fuel indegree queue ordered :
  kahn_inv indegree queue ordered → length defs < fuel + length ordered →
  ∃ indegree', kahn_inv indegree' [] (kahn byID (outgoing_of byID defs) fuel indegree queue ordered).
Proof.
  revert indegree queue ordered. induction fuel as [|fuel IH]; intros indegree queue ordered HI Hf.
  { pose proof (ordered_length _ _ _ HI). simpl in Hf. lia. }
  cbn [kahn]. destruct (sort_Strings queue) as [|current queue'] eqn:Hsort.
  - exists indegree. assert (queue = []) as ->; [|done].
    apply Permutation_nil. rw -Hsort. apply merge_sort_Permutation.
  - destruct (kahn_turn _ _ _ _ _ HI Hsort) as (ind' & queue'' & def & -> & -> & HI').
    apply IH; [done|]. rw length_app /=. lia.
Qed.

Lemma indegrees_spec def :
  def ∈ defs → degree (indegrees byID defs) (df_WorkUnitID def) = Z.of_nat (length (prerequisites byID def)).
Proof.
  assert (∀ l (m : gmap string Z), NoDup (ids l) → def ∈ l →
    degree (foldl (add_degree byID) m l) (df_WorkUnitID def)
    = (degree m (df_WorkUnitID def) + Z.of_nat (length (prerequisites byID def)))%Z) as Hfold.
  { assert (∀ (m : gmap string Z) d x, x ≠ df_WorkUnitID d → degree (add_degree byID m d) x = degree m x) as Hne.
    { intros m d x Hx. rw /add_degree. destruct (prerequisites byID d); [done|]. by rw lookup_insert_ne. }
    assert (∀ l (m : gmap string Z) x, x ∉ ids l → degree (foldl (add_degree byID) m l) x = degree m x) as Hout.
    { induction l as [|d l IH]; intros m x Hx; [done|]. simpl. apply not_elem_of_cons in Hx as [Hx Hl].
      by rw (IH _ _ Hl) Hne. }
    induction l as [|d l IH]; intros m Hnd Hin; [by apply elem_of_nil in Hin|].
    apply NoDup_cons in Hnd as [Hd Hnd]. simpl. apply elem_of_cons in Hin as [<-|Hin].
    - rw Hout //. rw /add_degree. destruct (prerequisites byID def) eqn:E; [simpl; lia|].
      by rw lookup_insert_eq.
    - rw (IH _ Hnd Hin) Hne //. intros E. apply Hd. rw -E. by apply list_elem_of_fmap_2. }
  intros Hin. rw /indegrees Hfold //; apply ids_NoDup.
Qed.

Lemma indegrees_other id : id ∉ ids defs → degree (indegrees byID defs) id = 0%Z.
Proof.
  intros Hid. rw /indegrees. assert (∀ l (m : gmap string Z), (∀ d, d ∈ l → d ∈ defs) →
    degree (foldl (add_degree byID) m l) id = degree m id) as Hfold; [|by rw Hfold].
  induction l as [|d l IH]; intros m Hl; [done|]. simpl. rw IH; [intros; apply Hl; by right|].
  rw /add_degree. destruct (prerequisites byID d); [done|]. rw lookup_insert_ne //.
  intros <-. apply Hid, list_elem_of_fmap_2, Hl. by left.
Qed.

Lemma missing_none def : missing [] def = prerequisites byID def.
Proof.
  rw /missing. induction (prerequisites byID def) as [|dep deps IH]; [done|].
  rw filter_cons_True; [apply not_elem_of_nil|by rw IH].
Qed.

Lemma kahn_start :
  kahn_inv (indegrees byID defs) (filter (λ id, degree (indegrees byID defs) id = 0%Z) (ids defs)) [].
Proof.
  split; simpl.
  - by intros def ?%elem_of_nil.
  - apply NoDup_filter, ids_NoDup.
  - by intros id [_ ?]%list_elem_of_filter.
  - intros def Hdef. by rw missing_none indegrees_spec.
  - apply indegrees_other.
  - intros def Hdef Hm. right. apply list_elem_of_filter. split; [|by apply list_elem_of_fmap_2].
    by rw indegrees_spec // -missing_none Hm.
  - intros id def [Hz Hid]%list_elem_of_filter [Hdef <-]%byID_spec. apply missing_length.
    rw missing_none -indegrees_spec //.
  - by intros [|? ?] ? ? [=].
Qed.

Lemma kahn_complete indegree ordered l :
  kahn_inv indegree [] ordered → l ≡ₚ defs → ordered_definitions byID l → length ordered = length defs.
Proof.
  intros HI Hperm Hl. pose proof (ordered_length _ _ _ HI).
  assert (∀ l1 l2, l = l1 ++ l2 → ∀ id, id ∈ ids l1 → id ∈ ids ordered) as Hall.
  { induction l1 as [|def l1 IH] using rev_ind; intros l2 E id Hid; [by apply elem_of_nil in Hid|].
    rw -app_assoc /= in E. rw fmap_app in Hid.
    apply elem_of_app in Hid as [Hid| ->%list_elem_of_singleton]; [by eapply IH|].
    assert (def ∈ defs) as Hdef by (rw -Hperm E; set_solver).
    destruct (kh_zero _ _ _ HI def Hdef) as [?|[]%elem_of_nil]; [|done].
    apply missing_nil. intros dep Hdep. eapply IH; [done|]. by eapply Hl. }
  assert (length (ids defs) ≤ length (ids ordered)) as Hle; [|rw !length_fmap in Hle; lia].
  apply submseteq_length, NoDup_submseteq; [apply ids_NoDup|]. intros id Hid.
  apply (Hall l []); [by rw app_nil_r|]. by rw Hperm.
Qed.
End kahn.

(** What a definition waits for, by its own fields. *)
Definition waits_for (def : Definition_) (dep : string) : Prop :=
  dep ∈ df_Dependencies def ∨ dep = df_ParentWorkUnitID def ∧ blank dep = false.

(** Every definition of [l] comes after the members of the batch it waits for. *)
Definition creation_order (batch l : list Definition_) : Prop :=
  l ≡ₚ batch
  ∧ ∀ l1 def l2, l = l1 ++ def :: l2 → ∀ dep, waits_for def dep → dep ∈ ids batch → dep ∈ ids l1.

Lemma prerequisites_spec defs byID def dep :
  by_id defs ∅ = Some byID →
  dep ∈ prerequisites byID def ↔ waits_for def dep ∧ dep ∈ ids defs.
Proof.
  intros Hby. assert (is_Some (byID !! dep) ↔ dep ∈ ids defs) as Hs.
  { rw list_elem_of_fmap /is_Some. setoid_rewrite (byID_spec _ _ Hby). naive_solver. }
  rw /prerequisites /waits_for elem_of_app list_elem_of_filter Hs.
  destruct (blank (df_ParentWorkUnitID def)) eqn:Hb.
  - rw elem_of_nil. naive_solver congruence.
  - rw list_elem_of_filter list_elem_of_singleton Hs. naive_solver.
Qed.

Lemma ordered_definitions_iff defs byID l :
  by_id defs ∅ = Some byID → l ≡ₚ defs → ordered_definitions byID l ↔ creation_order defs l.
Proof.
  intros Hby Hp. rw /ordered_definitions /creation_order. setoid_rewrite (prerequisites_spec _ _ _ _ Hby).
  naive_solver.
Qed.

Lemma topological_ok defs :
  match topologicalDefinitions defs with
  | inr ordered => NoDup (ids defs) ∧ creation_order defs ordered
  | inl _ => ¬ NoDup (ids defs) ∨ ¬ ∃ l, creation_order defs l
  end.
Proof.
  rw /topologicalDefinitions. destruct (by_id defs ∅) as [byID|] eqn:Hby.
  2: { left. destruct (by_id_None _ _ Hby) as [(id & _ & [? Hl])|]; [|done]. by rw lookup_empty in Hl. }
  destruct (kahn_run defs byID Hby (S (length defs)) _ _ [] (kahn_start _ _ Hby)) as [ind HI]; [simpl; lia|].
  set (ordered := kahn _ _ _ _ _ _) in *. destruct (Nat.eqb_spec (length ordered) (length defs)) as [El|El]; simpl.
  - split; [by eapply ids_NoDup|]. assert (ordered ≡ₚ defs) as Hp.
    { apply submseteq_length_Permutation; [|lia]. apply NoDup_submseteq; [|apply (kh_sub _ _ _ _ _ HI)].
      eapply (NoDup_fmap_1 df_WorkUnitID). by apply (NoDup_app _ []), (kh_nodup _ _ _ _ _ HI). }
    apply (ordered_definitions_iff _ _ _ Hby Hp), (kh_order _ _ _ _ _ HI).
  - right. intros (l & Hl). apply El. eapply (kahn_complete defs byID Hby _ _ l); [done|apply Hl|].
    apply (ordered_definitions_iff _ _ _ Hby); [apply Hl|done].
Qed.

(** [topologicalDefinitions] returns the definitions of a batch, each once and
    each after the members of the batch it depends on and after its parent when
    that is one of them; it reports an error only when an identifier appears
    twice or no such order of the batch exists. The loop needs one turn per
    definition. *)
Theorem topologicalDefinitions_spec defs :
  match topologicalDefinitions defs with
  | inr ordered => NoDup (ids defs) ∧ creation_order defs ordered
  | inl _ => ¬ NoDup (ids defs) ∨ ¬ ∃ l, creation_order defs l
  end.
Proof. apply topological_ok. Qed.

Section driver.
Context {DK : Disk} {CD : Codec} {PL : Plans}.
Context (d : Driver).

(** ** The gate of the parent *)

(** [GateParent] lets the parent complete exactly when it could list the units
    of the task and all of them are completed; it names precisely the units that
    are not, and never changes the store. *)
Theorem GateParent_spec s :
  let r := GateParent d s in
  tables r.2 = tables s ∧
  match r.1 with
  | inr _ => ∀ id row, unit_row (tables s) (TaskID_ d) id = Some row → row_status row = "completed"%string
  | inl (ErrParentCompletionGated open) =>
    open ≠ [] ∧ ∀ id status, (id, status) ∈ open ↔
      ∃ row, unit_row (tables s) (TaskID_ d) id = Some row ∧ row_status row = status
        ∧ status ≠ "completed"%string
  | inl e => ∃ cause, e = ErrStore cause
  end.
Proof.
  rw /GateParent /openUnits /andthen /from_store. pose proof (reading_List (TaskID_ d) s) as Hr.
  symmetry in Hr.
  destruct (ListWorkUnits (TaskID_ d) s) as [[e|units] s1] eqn:E; simpl in *; [split; [done|by eexists]|].
  apply List_ok in E as [_ Hall].
  set (open := List.filter _ units).
  assert (∀ id status, (id, status) ∈ ((λ u, (WorkUnitID u, Status u)) <$> open) ↔
    ∃ row, unit_row (tables s) (TaskID_ d) id = Some row ∧ row_status row = status
      ∧ status ≠ "completed"%string) as Hopen.
  { intros id status. rw list_elem_of_fmap. split.
    - intros (u & [= -> ->] & [Hu Hne%negb_true_iff%String.eqb_neq]%list_elem_of_In%filter_In).
      apply list_elem_of_In in Hu. destruct (loaded_row _ _ _ _ Hall Hu) as (row & Hrow & Hl).
      exists row. by rw (lf_status _ _ _ Hl) in Hne |- *.
    - intros (row & Hrow & <- & Hne). destruct (row_loaded _ _ _ _ _ Hall Hrow) as (u & Hu & Hl).
      exists u. rw (lf_id _ _ _ Hl) (lf_status _ _ _ Hl). split; [done|].
      apply list_elem_of_In, filter_In. split; [by apply list_elem_of_In|].
      apply negb_true_iff, String.eqb_neq. by rw (lf_status _ _ _ Hl). }
  destruct open as [|u open'] eqn:Ho; simpl; split; try done.
  intros id row Hrow. destruct (decide (row_status row = "completed"%string)) as [|Hne]; [done|exfalso].
  apply (not_elem_of_nil (id, row_status row)), Hopen. by exists row.
Qed.

(** ** Re-supply of a definition *)

Lemma same_text_refl a : same_text a a = true.
Proof. apply String.eqb_refl. Qed.

Lemma trimmed_ext l k : (∀ x, x ∈ l ↔ x ∈ k) → trimmed l = trimmed k.
Proof.
  intros H. apply set_eq. intros x. rw /trimmed !elem_of_list_to_set.
  rw !list_elem_of_In !filter_In -!list_elem_of_In !list_elem_of_fmap. naive_solver.
Qed.

Lemma toolEnvelope_refl tools : toolEnvelopeIdentical tools tools = true.
Proof. destruct tools; [|done]. by apply bool_decide_true. Qed.

(** What the redaction must leave alone for the definition to be recognised. *)
Definition left_alone (def : Definition_) (digest : string) : Prop :=
  same_text (Redact (df_Objective def)) (df_Objective def) = true
  ∧ same_text (Redact (df_ParentWorkUnitID def)) (df_ParentWorkUnitID def) = true
  ∧ same_text (Redact (df_WorkspaceScope def)) (df_WorkspaceScope def) = true
  ∧ Redact digest = digest.

Lemma loaded_created def digest at_ t t' row u :
  unit_row t' (TaskID_ d) (df_WorkUnitID def) = Some row →
  definition_of row = definition_of (new_row (create_record d def digest) at_) →
  loaded t (df_WorkUnitID def, row) u →
  Unmarshal (RedactJSON (Marshal (df_Tools def))) = Some (df_Tools def) →
  Objective u = Redact (df_Objective def) ∧ ParentWorkUnitID u = Redact (df_ParentWorkUnitID def)
  ∧ WorkspaceScope u = Redact (df_WorkspaceScope def) ∧ AcceptanceDigest u = Redact digest
  ∧ ContextBudget u = df_ContextBudget def ∧ ProviderBudget u = df_ProviderBudget def
  ∧ StepBudget u = df_StepBudget def ∧ Tools u = df_Tools def.
Proof.
  intros Hrow Hdef (base & Hscan & ->) Hcodec. move: Hscan. rw /scanWorkUnit. case_match; [done|].
  injection Hdef as Htask Hparent Hobj Htools Hscope Hplan Hdig Hcb Hpb Hsb Hv Hat. simpl in *.
  rw Htools Hcodec. destruct (Unmarshal (row_evidence_refs row)); [|done]. intros [= <-]. done.
Qed.

(** Re-supply.  A unit that was created from a definition and has since only
    moved along its lifecycle is recognised as the same definition exactly when
    the redaction of the store left its objective, parent, scope and digest
    alone; anything the redactor rewrites there is reported as drift. *)
Theorem resupply_spec fuel def digest id s s1 s2 u s3 :
  linked (tables s) →
  CreateWorkUnit fuel (create_record d def digest) s = (inr id, s1) →
  evolves (tables s1) (tables s2) →
  GetWorkUnit (TaskID_ d) (df_WorkUnitID def) s2 = (inr u, s3) →
  Unmarshal (RedactJSON (Marshal (df_Tools def))) = Some (df_Tools def) →
  ensureIdenticalDefinition u def digest = None ↔ left_alone def digest.
Proof.
  intros Hl Hc Hev Hg Hcodec. pose proof (create_effect fuel (create_record d def digest) s) as Heff.
  rw Hc /= in Heff. destruct Heff as (_ & _ & Hcr & at_ & event & Ht & _).
  apply Get_ok in Hg as (row & Hrow & Hload).
  assert (tbl_work_units (tables s1) !! df_WorkUnitID def = Some (new_row (create_record d def digest) at_))
    as Hnew by by rw Ht /created /= lookup_insert_eq.
  destruct (ev_row _ _ Hev _ _ Hnew) as (row' & Hrow' & Hdef & _).
  assert (row' = row) as ->.
  { move: Hrow. rw /unit_row Hrow' /=. by case_match; intros [= ->]. }
  destruct (loaded_created _ _ _ _ _ _ _ Hrow Hdef Hload Hcodec)
    as (Ho & Hp & Hw & Hd & Hb1 & Hb2 & Hb3 & Htools).
  assert (stringSetsEqual (Dependencies u) (df_Dependencies def) = true) as Hdeps.
  { apply bool_decide_true, trimmed_ext. intros x.
    rw (lf_deps _ _ _ (loaded_spec _ _ _ Hload)) elem_of_dependencies.
    rw -(ev_deps _ _ Hev); [by eexists|]. rw Ht /created /= elem_of_app list_elem_of_fmap. split.
    - intros [Hin|(y & [= ->] & Hy)]; [|done]. apply (lk_known _ Hl) in Hin as [r Hr].
      pose proof (cr_new _ _ Hcr) as Hn. simpl in *. congruence.
    - intros Hx. right. by exists x. }
  rw /ensureIdenticalDefinition /left_alone Ho Hp Hw Hd Hb1 Hb2 Hb3 Htools toolEnvelope_refl Hdeps !Z.eqb_refl.
  cbn [negb orb].
  destruct (same_text (Redact (df_Objective def)) _), (same_text (Redact (df_ParentWorkUnitID def)) _),
    (same_text (Redact (df_WorkspaceScope def)) _), (String.eqb_spec (Redact digest) digest); naive_solver.
Qed.

(** ** Creation of the definitions *)

(** From [t] to [t']: [n] units were added for the task and no other row of the
    table changed. *)
Record adds (n : nat) (t t' : Tables) : Prop := {
  ad_kept id row : tbl_work_units t !! id = Some row → tbl_work_units t' !! id = Some row;
  ad_size : size (tbl_work_units t') = size (tbl_work_units t) + n
}.

Lemma adds_same t : adds 0 t t.
Proof. by split; [|lia]. Qed.

Lemma adds_trans n m t t' t'' : adds n t t' → adds m t' t'' → adds (n + m) t t''.
Proof. intros [K S] [K' S']. split; [naive_solver|lia]. Qed.

Lemma adds_kept n t t' taskID id : adds n t t' → has_unit t taskID id = true → has_unit t' taskID id = true.
Proof. intros [K _] (row & Hrow & Ht)%has_unit_spec. apply has_unit_spec. exists row. split; [by apply K|done]. Qed.

Lemma create_adds fuel record s :
  let r := CreateWorkUnit fuel record s in
  match r.1 with
  | inl _ => tables r.2 = tables s
  | inr _ => adds 1 (tables s) (tables r.2)
      ∧ has_unit (tables r.2) (wc_TaskID record) (wc_WorkUnitID record) = true
  end.
Proof.
  pose proof (create_effect fuel record s) as H.
  destruct (CreateWorkUnit fuel record s) as [[e|id] s']; simpl in *; [done|].
  destruct H as (_ & _ & Hcr & at_ & event & -> & _). pose proof (cr_new _ _ Hcr) as Hn.
  split; [split|].
  - intros id' row Hrow. simpl. rw lookup_insert_ne //. congruence.
  - simpl. rw map_size_insert_None //. lia.
  - apply has_unit_spec. exists (new_row record at_). by rw /= lookup_insert_eq.
Qed.

(** The loop of creation, from any counts. *)
Lemma ensure_each_spec fuel items created skipped s :
  let r := ensure_each d fuel items created skipped s in
  ∃ n, adds n (tables s) (tables r.2) ∧
    (en_err r.1 = None → en_created r.1 = created + n
      ∧ en_created r.1 + en_skipped r.1 = created + skipped + length items
      ∧ Forall (λ item, has_unit (tables r.2) (TaskID_ d) (df_WorkUnitID item.1) = true) items).
Proof.
  revert created skipped s. induction items as [|[def digest] items IH]; intros created skipped s.
  { exists 0. split; [apply adds_same|]. simpl. intros _. split_and!; [lia|lia|constructor]. }
  cbn [ensure_each]. pose proof (reading_Get (TaskID_ d) (df_WorkUnitID def) s) as Hread.
  symmetry in Hread.
  destruct (GetWorkUnit _ _ s) as [[e|u] s1] eqn:Hget; simpl in Hread.
  - destruct e; try (exists 0; simpl; rw Hread; split; [apply adds_same|done]).
    pose proof (create_adds fuel (create_record d def digest) s1) as Hc.
    destruct (CreateWorkUnit fuel _ s1) as [[e|id'] s2]; simpl in Hc |- *.
    { exists 0. rw Hc Hread. split; [apply adds_same|done]. }
    destruct Hc as [Hc Hhas]. destruct (IH (S created) skipped s2) as (n & Hn & Hok).
    exists (1 + n). rw -Hread. split; [by eapply adds_trans|]. intros He.
    destruct (Hok He) as (-> & -> & Hall). split_and!; [lia|simpl; lia|].
    constructor; [by eapply adds_kept|done].
  - destruct (ensureIdenticalDefinition u def digest) as [e|].
    { exists 0. simpl. rw Hread. split; [apply adds_same|done]. }
    destruct (IH created (S skipped) s1) as (n & Hn & Hok). exists n. rw -Hread. split; [done|]. intros He.
    destruct (Hok He) as (-> & -> & Hall). split_and!; [lia|simpl; lia|].
    constructor; [|done]. eapply adds_kept; [done|]. apply Get_ok in Hget as (row & Hrow & _).
    by rw /has_unit Hread Hrow.
Qed.

Lemma inspect_all_spec defs :
  match inspect_all d defs with
  | inl _ => ∃ def e, def ∈ defs ∧ inspect_definition d def = inl e
  | inr items => fst <$> items = defs ∧ ∀ def, def ∈ defs → ∃ item, inspect_definition d def = inr item
  end.
Proof.
  assert (∀ def item, inspect_definition d def = inr item → item.1 = def) as Hsame.
  { intros def item. rw /inspect_definition. case_match; [done|]. case_match; [done|].
    case_match; [done|]. by intros [= <-]. }
  induction defs as [|def defs IH]; simpl; [split; [done|by intros ? ?%elem_of_nil]|].
  destruct (inspect_definition d def) as [e|item] eqn:E; [exists def, e; split; [by left|done]|].
  destruct (inspect_all d defs) as [e|items].
  - destruct IH as (def' & e' & Hin & He). exists def', e'. split; [by right|done].
  - destruct IH as [Hf Hall]. split; [by rw fmap_cons Hf (Hsame _ _ E)|].
    intros def' [->|Hin]%elem_of_cons; [by exists item|by apply Hall].
Qed.

(** [EnsureDefinitions] never touches a unit that is already stored; when it
    returns no error every definition of the batch has its unit, the counts add
    up to the batch and exactly the created ones are new in the table; a batch
    with a definition that does not pass inspection, a duplicate identifier or no
    creation order is refused with the store unchanged. *)
Theorem EnsureDefinitions_spec fuel defs s :
  let r := EnsureDefinitions d fuel defs s in
  (∃ n, adds n (tables s) (tables r.2) ∧
    (en_err r.1 = None → en_created r.1 = n ∧ en_created r.1 + en_skipped r.1 = length defs
      ∧ ∀ def, def ∈ defs → has_unit (tables r.2) (TaskID_ d) (df_WorkUnitID def) = true))
  ∧ (¬ NoDup (ids defs) ∨ (¬ ∃ l, creation_order defs l)
       ∨ (∃ def e, def ∈ defs ∧ inspect_definition d def = inl e) →
     r.2 = s ∧ ∃ e, r.1 = ensured 0 0 (Some e)).
Proof.
  rw /EnsureDefinitions. pose proof (topological_ok defs) as Htop.
  destruct (topologicalDefinitions defs) as [e|ordered].
  { split; [exists 0; split; [apply adds_same|done]|]. intros _. split; [done|by eexists]. }
  destruct Htop as [Hnd Hord]. pose proof (inspect_all_spec ordered) as Hins.
  destruct (inspect_all d ordered) as [e|items].
  { split; [exists 0; split; [apply adds_same|done]|]. intros _. split; [done|by eexists]. }
  destruct Hins as [Hitems Hall]. split.
  - destruct (ensure_each_spec fuel items 0 0 s) as (n & Hn & Hok). exists n. split; [done|]. intros He.
    destruct (Hok He) as (-> & Hsum & Hhas).
    rw -(Permutation_length (proj1 Hord)) -Hitems length_fmap. split_and!; [done|done|].
    intros def Hdef. rw -(proj1 Hord) -Hitems in Hdef. apply list_elem_of_fmap in Hdef as (item & -> & Hi).
    by eapply Forall_forall in Hhas.
  - intros [?|[Hno|(def & e & Hdef & He)]]; [done|by destruct Hno; exists ordered|].
    rw -(proj1 Hord) in Hdef. destruct (Hall def Hdef) as [item Hitem]. congruence.
Qed.
End driver.
