(* ===== verification/Scheduler.v ===== *)
(** * The work unit scheduler (internal/workunit/scheduler.go)

    The main loop dispatches units and counts them; one worker per dispatched
    unit runs it, writes its outcome and sends one event.  A state holds the
    store, the variables of the scheduler, the channel, the workers and the
    place where the main loop is; a label names who moves and what the outside
    answers. *)

From S2P Require Import Prelude GoTime Text Cycles Database WorkUnits Paths Driver.

Local Open Scope runstead_scope.

(** ** Data *)

Record RunResult := { Outcome : string; Reason : string }.

Record settleEvent := {
  ev_unitID : string;
  ev_outcome : string;
  ev_err : option DriverError;
  ev_exclusive : bool
}.

(** Where a worker is: its unit runs; it publishes a cancellation; it acts on the
    result; it completes or blocks a unit whose verification it has read; it
    sends; it is gone. *)
Inductive Phase :=
  | PRun
  | PRecord
  | PSettle (result : RunResult)
  | PComplete
  | PBlock (reason : string)
  | PSend (event : settleEvent)
  | PGone (event : settleEvent).

Record Worker := { w_unit : WorkUnit; w_phase : Phase }.

#[export] Instance eta_Worker : Settable Worker := λ w, Build_Worker (w_unit w) (w_phase w).

(** Where the main loop is. *)
Inductive Main :=
  | MTop
  | MCanceled
  | MResolve
  | MResolving (units : list WorkUnit)
  | MReady
  | MChoose (ready : list WorkUnit)
  | MFill (ready : list WorkUnit) (dispatched : bool)
  | MSettle
  | MDrain (final : DriverError)
  | MDone (result : option DriverError).

Record Sched := {
  store : Store;
  active : Z;
  activeExclusive : bool;
  stop : option DriverError;
  canceledOutcome : option settleEvent;
  settleCh : list settleEvent;
  workers : list Worker;
  main : Main
}.

#[export] Instance eta_Sched : Settable Sched := λ x,
  Build_Sched (store x) (active x) (activeExclusive x) (stop x) (canceledOutcome x) (settleCh x)
    (workers x) (main x).

Definition exclusive (unit : WorkUnit) : bool := bool_decide (Classify (Tools unit) = LaneExclusive).

Section scheduler.
Context `{Disk} `{Codec}.
Context (d : Driver) (concurrency : Z).

Definition canceledOutcomeError (x : Sched) : option DriverError :=
  (λ e, ErrCanceled (ev_unitID e)) <$> canceledOutcome x.

(** ** The main loop *)

Definition dispatch_store (unit : WorkUnit) : DB () :=
  _ ←? (if String.eqb (Status unit) "created"
        then TransitionWorkUnit (TaskID_ d) (WorkUnitID unit) "created" "ready" "" else return_ tt);
  TransitionWorkUnit (TaskID_ d) (WorkUnitID unit) "ready" "running" "".

Definition launch (unit : WorkUnit) (x : Sched) : Sched :=
  x <| active ::= Z.succ |> <| activeExclusive ::= λ b, b || exclusive unit |>
    <| workers ::= λ ws, ws ++ [{| w_unit := unit; w_phase := PRun |}] |>.

(** The body runs under [dispatchMu]. *)
Definition dispatch (unit : WorkUnit) (x : Sched) : option DriverError * Sched :=
  match canceledOutcomeError x with
  | Some e => (Some e, x)
  | None =>
    match ValidateEnvelope d (Tools unit) (WorkspaceScope unit) with
    | Some e => (Some e, x)
    | None =>
      match dispatch_store unit (store x) with
      | (inl e, s) => (Some (ErrStore e), x <| store := s |>)
      | (inr _, s) => (None, launch unit (x <| store := s |>))
      end
    end
  end.

(** A dispatch after which the loop goes on at [next]. *)
Definition dispatch_to (unit : WorkUnit) (next : Main) (x : Sched) : Sched :=
  match dispatch unit x with
  | (Some e, x) => x <| main := MDrain e |>
  | (None, x) => x <| main := next |>
  end.

(** [s.stop] or, when it is nil, [err], which it becomes. *)
Definition stop_with (err : DriverError) (x : Sched) : Sched :=
  let final := default err (stop x) in x <| stop := Some final |> <| main := MDrain final |>.

Definition choose (ready : list WorkUnit) (x : Sched) : Sched :=
  match ready with
  | [] => x <| main := if (active x =? 0)%Z then MDone None else MSettle |>
  | _ =>
    match List.find exclusive ready with
    | Some unit =>
      if (0 <? active x)%Z then x <| main := MSettle |> else dispatch_to unit MTop x
    | None =>
      if activeExclusive x then x <| main := MSettle |> else x <| main := MFill ready false |>
    end
  end.

Definition fill (ready : list WorkUnit) (dispatched : bool) (x : Sched) : Sched :=
  let ended := x <| main := if dispatched then MTop else MSettle |> in
  match ready with
  | [] => ended
  | unit :: rest =>
    if (concurrency <=? active x)%Z then ended else dispatch_to unit (MFill rest true) x
  end.

(** A call of the store whose result decides where the loop goes on. *)
Definition call {A} (m : DB A) (k : A → Main) (x : Sched) : Sched :=
  match m (store x) with
  | (inl e, s) => x <| store := s |> <| main := MDrain (ErrStore e) |>
  | (inr a, s) => x <| store := s |> <| main := k a |>
  end.

(** One step of the main loop; [None] when it waits for an event or has
    returned.  [ctx] is what [ctx.Err] answers. *)
Definition main_step (ctx : option string) (x : Sched) : option Sched :=
  match main x with
  | MTop =>
    Some (match ctx with
          | Some text => stop_with (ErrContext text) x
          | None => x <| main := MCanceled |>
          end)
  | MCanceled =>
    Some (match canceledOutcomeError x with
          | Some e => stop_with e x
          | None =>
            match stop x with
            | Some e => x <| main := MDrain e |>
            | None => x <| main := MResolve |>
            end
          end)
  | MResolve => Some (call (ListWorkUnits (TaskID_ d)) MResolving x)
  | MResolving [] => Some (x <| main := MReady |>)
  | MResolving (unit :: units) => Some (call (resolve_each d [unit]) (λ _, MResolving units) x)
  | MReady => Some (call (ReadyWorkUnits (TaskID_ d)) MChoose x)
  | MChoose ready => Some (choose ready x)
  | MFill ready dispatched => Some (fill ready dispatched x)
  | MDrain final => if (0 <? active x)%Z then None else Some (x <| main := MDone (Some final) |>)
  | MSettle | MDone _ => None
  end.

Definition handleSettle (event : settleEvent) (x : Sched) : Sched :=
  let x := x <| active ::= Z.pred |> in
  let x := if ev_exclusive event then x <| activeExclusive := false |> else x in
  match stop x with
  | Some _ => x
  | None =>
    match ev_err event with
    | Some e => x <| stop := Some e |>
    | None =>
      if String.eqb (ev_outcome event) "completed" then x
      else if String.eqb (ev_outcome event) "canceled" then
        x <| stop := Some (ErrCanceled (ev_unitID event)) |>
      else if existsb (String.eqb (ev_outcome event)) ["failed"; "blocked"; "uncertain"]%string then
        x <| stop := Some (ErrWorkUnitBlockedChain (ev_unitID event)) |>
      else x <| stop := Some (ErrInterrupted (ev_unitID event)) |>
    end
  end.

(** The main loop takes the oldest event from the channel. *)
Definition receive (x : Sched) : option Sched :=
  match settleCh x with
  | [] => None
  | event :: rest =>
    let x := x <| settleCh := rest |> in
    match main x with
    | MSettle => Some ((handleSettle event x) <| main := MTop |>)
    | MDrain final => if (0 <? active x)%Z then Some (x <| active ::= Z.pred |>) else None
    | _ => None
    end
  end.

(** ** The workers *)

Definition event_of (unit : WorkUnit) (outcome : string) (err : option DriverError) : settleEvent := {|
  ev_unitID := WorkUnitID unit; ev_outcome := outcome; ev_err := err; ev_exclusive := exclusive unit |}.

Definition or_default (reason fallback : string) : string :=
  if String.eqb reason "" then fallback else reason.

(** A transition of the unit, then the event. *)
Definition settle_transition (unit : WorkUnit) (to reason : string) (s : Store) : Phase * Store :=
  match TransitionWorkUnit (TaskID_ d) (WorkUnitID unit) "running" to reason s with
  | (inl e, s) => (PSend (event_of unit "" (Some (ErrStore e))), s)
  | (inr _, s) => (PSend (event_of unit to None), s)
  end.

Definition settle_step (unit : WorkUnit) (result : RunResult) (s : Store) : Phase * Store :=
  let outcome := Outcome result in
  if String.eqb outcome "completed" then
    match LatestWorkUnitVerification (TaskID_ d) (WorkUnitID unit) s with
    | (inl e, s) => (PSend (event_of unit "" (Some (ErrStore e))), s)
    | (inr (Some decision), s) =>
      if String.eqb decision "passed" then (PComplete, s)
      else (PBlock ("verification decision " +:+ decision), s)
    | (inr None, s) => (PBlock "verification did not pass for work unit", s)
    end
  else if String.eqb outcome "failed" then
    settle_transition unit "failed" (or_default (Reason result) "work unit failed") s
  else if String.eqb outcome "blocked" then
    settle_transition unit "blocked" (or_default (Reason result) "work unit blocked") s
  else if String.eqb outcome "uncertain" then
    settle_transition unit "uncertain" (or_default (Reason result) "work unit outcome uncertain") s
  else if String.eqb outcome "canceled" then (PSend (event_of unit "canceled" None), s)
  else (PSend (event_of unit "interrupted" None), s).

Definition set_worker (i : nat) (p : Phase) (x : Sched) : Sched :=
  x <| workers ::= alter (λ w, w <| w_phase := p |>) i |>.

(** The run of unit [i] returns. *)
Definition run_returns (i : nat) (result : RunResult) (runErr : option string) (x : Sched)
    : option Sched :=
  w ← workers x !! i;
  match w_phase w with
  | PRun =>
    Some (match runErr with
          | Some text => set_worker i (PSend (event_of (w_unit w) "" (Some (ErrRun text)))) x
          | None =>
            if String.eqb (Outcome result) "canceled" then set_worker i PRecord x
            else set_worker i (PSettle result) x
          end)
  | _ => None
  end.

Definition recordCanceledOutcome (event : settleEvent) (x : Sched) : Sched :=
  match canceledOutcome x with
  | Some _ => x
  | None => x <| canceledOutcome := Some event |>
  end.

(** The next step of worker [i]; a send waits while the channel is full. *)
Definition worker_step (i : nat) (x : Sched) : option Sched :=
  w ← workers x !! i;
  let unit := w_unit w in
  match w_phase w with
  | PRun | PGone _ => None
  | PRecord =>
    let event := event_of unit "canceled" None in
    Some (set_worker i (PSend event) (recordCanceledOutcome event x))
  | PSettle result =>
    let '(p, s) := settle_step unit result (store x) in
    Some (set_worker i p (x <| store := s |>))
  | PComplete =>
    let '(p, s) := settle_transition unit "completed" "" (store x) in
    Some (set_worker i p (x <| store := s |>))
  | PBlock reason =>
    let '(p, s) := settle_transition unit "blocked" reason (store x) in
    Some (set_worker i p (x <| store := s |>))
  | PSend event =>
    if (MaxConcurrency <=? Z.of_nat (length (settleCh x)))%Z then None
    else Some (set_worker i (PGone event) (x <| settleCh ::= λ ch, ch ++ [event] |>))
  end.

(** ** Steps *)

Inductive label :=
  | LMain (ctx : option string)
  | LReceive
  | LReturn (i : nat) (result : RunResult) (runErr : option string)
  | LWorker (i : nat).

Definition run (l : label) (x : Sched) : option Sched :=
  match l with
  | LMain ctx => main_step ctx x
  | LReceive => receive x
  | LReturn i result runErr => run_returns i result runErr x
  | LWorker i => worker_step i x
  end.

(** The unit of a worker whose run has not returned. *)
Definition in_run (x : Sched) (id : string) : Prop :=
  ∃ w, w ∈ workers x ∧ w_phase w = PRun ∧ WorkUnitID (w_unit w) = id.

(** What happens outside the scheduler: the runs of the units and the operator
    change the other tables; only the run of a unit records verification
    attempts for it. *)
Definition foreign (x x' : Sched) : Prop :=
  ∃ s, x' = x <| store := s |>
    ∧ tbl_work_units (tables s) = tbl_work_units (tables (store x))
    ∧ tbl_dependencies (tables s) = tbl_dependencies (tables (store x))
    ∧ ∀ id, ¬ in_run x id →
        latest_decision (tables s) (TaskID_ d) id = latest_decision (tables (store x)) (TaskID_ d) id.

Inductive sched_step (x x' : Sched) : Prop :=
  | StepLabel l : run l x = Some x' → sched_step x x'
  | StepOutside : foreign x x' → sched_step x x'.

Definition start (s : Store) : Sched := {|
  store := s; active := 0; activeExclusive := false; stop := None; canceledOutcome := None;
  settleCh := []; workers := []; main := MTop |}.
End scheduler.

(** [RunAll]: the bound the scheduler is started with. *)
Definition effective_concurrency (d : Driver) : DriverError + Z :=
  let concurrency := if (Concurrency d =? 0)%Z then DefaultConcurrency else Concurrency d in
  if (concurrency <? MinConcurrency)%Z || (MaxConcurrency <? concurrency)%Z then
    inl (ErrWorkUnitConcurrency concurrency)
  else inr concurrency.
