(* ===== verification/SchedulerLaws.v ===== *)
(** * What the scheduler guarantees

    An invariant of every reachable state of the scheduler: its counters match
    the workers and the events under way, exclusive units run alone, a unit is
    durably running before and while its worker runs it, and only a unit whose
    latest verification passed is completed. *)

From S2P Require Import Prelude GoTime Text Cycles Database WorkUnits UnitLaws UnitReady Paths Driver Scheduler.
From stdpp Require Import relations.

Local Open Scope runstead_scope.

(** ** Counting *)

Lemma split_at {A} (xs : list A) i x :
  xs !! i = Some x → ∃ l r, xs = l ++ x :: r ∧ length l = i ∧ ∀ f, alter f i xs = l ++ f x :: r.
Proof.
  revert i. induction xs as [|y xs IH]; intros [|i]; simpl; try done.
  - intros [= ->]. exists [], xs. by split_and!.
  - intros (l & r & -> & <- & Ha)%IH. exists (y :: l), r. split_and!; [done|done|].
    intros f. simpl. by rw -(Ha f).
Qed.

Lemma count_if_pos {A} (p : A → bool) xs x : x ∈ xs → p x = true → (0 < count_if p xs)%nat.
Proof.
  induction xs as [|y xs IH]; intros Hx Hp; [by apply elem_of_nil in Hx|]. rw count_if_cons.
  apply elem_of_cons in Hx as [<-|Hx]; [rw Hp; lia|specialize (IH Hx Hp); lia].
Qed.

Lemma count_if_exists {A} (p : A → bool) xs :
  (0 < count_if p xs)%nat → ∃ i x, xs !! i = Some x ∧ p x = true.
Proof.
  induction xs as [|y xs IH]; [rw count_if_nil; lia|]. rw count_if_cons.
  destruct (p y) eqn:E; [by exists 0, y|]. intros (i & x & Hx & Hp)%IH. by exists (S i), x.
Qed.

Lemma count_if_unique {A} (p : A → bool) xs i j :
  (count_if p xs ≤ 1)%nat → (∃ x, xs !! i = Some x ∧ p x = true) →
  (∃ x, xs !! j = Some x ∧ p x = true) → i = j.
Proof.
  revert i j. induction xs as [|y xs IH]; intros i j; [by intros _ (? & ? & _)|]. rw count_if_cons.
  intros Hle (x & Hx & Hpx) (z & Hz & Hpz).
  destruct i as [|i], j as [|j]; simpl in *; simplify_eq; try done.
  - pose proof (count_if_pos p xs z (list_elem_of_lookup_2 _ _ _ Hz) Hpz). rw Hpx in Hle. lia.
  - pose proof (count_if_pos p xs x (list_elem_of_lookup_2 _ _ _ Hx) Hpx). rw Hpz in Hle. lia.
  - f_equal. apply IH; [destruct (p y); lia|by exists x|by exists z].
Qed.

Definition is_gone (w : Worker) : bool := match w_phase w with PGone _ => true | _ => false end.
Definition busy (w : Worker) : bool := negb (is_gone w).
Definition busy_exclusive (w : Worker) : bool := busy w && exclusive (w_unit w).

(** Units that were dispatched and whose event the main loop has not taken. *)
Definition total (x : Sched) : nat := count_if busy (workers x) + length (settleCh x).
Definition exclusives (x : Sched) : nat :=
  count_if busy_exclusive (workers x) + count_if ev_exclusive (settleCh x).

(** ** The invariant of the counters *)

(** The main loop still schedules. *)
Definition scheduling (m : Main) : bool :=
  match m with MDrain _ | MDone _ => false | _ => true end.

Definition main_ok (x : Sched) : Prop :=
  match main x with
  | MSettle => (0 < total x)%nat
  | MFill ready dispatched => exclusives x = 0 ∧ Forall (λ u, exclusive u = false) ready
      ∧ (dispatched = false → ready ≠ [])
  | MDone _ => total x = 0
  | _ => True
  end.

Record counters (concurrency : Z) (x : Sched) : Prop := {
  ct_active : active x = Z.of_nat (total x);
  ct_exclusive : scheduling (main x) = true →
    activeExclusive x = bool_decide (0 < exclusives x)%nat;
  ct_alone : (0 < exclusives x)%nat → total x = 1;
  ct_bound : (Z.of_nat (total x) ≤ concurrency)%Z;
  ct_main : main_ok x;
  ct_event w e : w ∈ workers x → w_phase w = PSend e ∨ w_phase w = PGone e →
    ev_unitID e = WorkUnitID (w_unit w) ∧ ev_exclusive e = exclusive (w_unit w)
}.

Section counters.
Context {DK : Disk} {CD : Codec}.
Context (d : Driver) (concurrency : Z).
Context (Hbound : (1 ≤ concurrency)%Z).
Abbreviation counters := (counters concurrency).

Lemma counters_start s : counters (start s).
Proof.
  assert (total (start s) = 0 ∧ exclusives (start s) = 0) as [Ht Hx] by done.
  split; rw ?Ht ?Hx; try done; [lia..|]. by intros w e ?%elem_of_nil.
Qed.

(** Counts only depend on the workers and the channel. *)
Lemma counters_same x x' :
  active x' = active x → activeExclusive x' = activeExclusive x →
  workers x' = workers x → settleCh x' = settleCh x → main x' = main x → counters x → counters x'.
Proof.
  intros Ha He Hw Hc Hm [A E L B M V].
  assert (total x' = total x ∧ exclusives x' = exclusives x) as [Ht Hx]
    by by rw /total /exclusives Hw Hc.
  split; rw ?Ha ?He ?Ht ?Hx ?Hm ?Hw; try done. by rw /main_ok Hm Ht Hx.
Qed.

(** Only the place of the main loop changes. *)
Lemma counters_goto x m :
  counters x → main_ok (x <| main := m |>) →
  (scheduling (main x) = true ∨ scheduling m = false) → counters (x <| main := m |>).
Proof.
  intros [A E L B M V] Hm Hs. split; try done. simpl. intros Hsm. apply E. destruct Hs; congruence.
Qed.

(** What a worker settles on is an event of its own unit. *)
Definition own_phase (unit : WorkUnit) (p : Phase) : Prop :=
  (∀ e, p ≠ PGone e) ∧
  (∀ e, p = PSend e → ev_unitID e = WorkUnitID unit ∧ ev_exclusive e = exclusive unit).

(** A worker changes its phase and stays busy. *)
Lemma counters_worker x i w p :
  counters x → workers x !! i = Some w → busy w = true →
  own_phase (w_unit w) p → counters (set_worker i p x).
Proof.
  intros [A E L B M V] Hw Hbusy [Hp Hsend].
  destruct (split_at _ _ _ Hw) as (l & r & Hws & _ & Halter).
  set (w' := w <| w_phase := p |>).
  assert (busy w' = true) as Hbusy' by (rw /busy /is_gone /=; destruct p; try done; by destruct (Hp event)).
  assert (busy_exclusive w' = busy_exclusive w) as Hexcl by by rw /busy_exclusive Hbusy Hbusy'.
  assert (total (set_worker i p x) = total x ∧ exclusives (set_worker i p x) = exclusives x) as [Ht Hx].
  { rw /total /exclusives /set_worker /= Halter Hws !count_if_app !count_if_cons Hbusy.
    change (w <| w_phase := p |>) with w'. by rw Hbusy' Hexcl. }
  split; rw ?Ht ?Hx; try done.
  - by move: M; rw /main_ok Ht Hx.
  - intros v e. rw /set_worker /= Halter. intros [Hv|[->|Hv]%elem_of_cons]%elem_of_app.
    + apply V. rw Hws. set_solver.
    + simpl. intros [-> | ->]; [by apply Hsend|by destruct (Hp e)].
    + apply V. rw Hws. set_solver.
Qed.

(** A worker puts its event into the channel. *)
Lemma counters_send x i w e :
  counters x → workers x !! i = Some w → w_phase w = PSend e →
  counters (set_worker i (PGone e) (x <| settleCh ::= λ ch, ch ++ [e] |>)).
Proof.
  intros [A E L B M V] Hw Hp.
  destruct (split_at _ _ _ Hw) as (l & r & Hws & _ & Halter).
  destruct (V w e) as [Hid Hexcl]; [by eapply list_elem_of_lookup_2|by left|].
  set (x' := set_worker _ _ _).
  assert (total x' = total x ∧ exclusives x' = exclusives x) as [Ht Hx].
  { rw /total /exclusives /x' /set_worker /= Halter Hws !count_if_app !count_if_cons length_app /=.
    rw /busy_exclusive /busy /is_gone Hp /= Hexcl count_if_nil. destruct (exclusive (w_unit w)); lia. }
  split; rw ?Ht ?Hx; try done.
  - by move: M; rw /main_ok Ht Hx.
  - intros v e'. rw /x' /set_worker /= Halter. intros [Hv|[->|Hv]%elem_of_cons]%elem_of_app.
    + apply V. rw Hws. set_solver.
    + simpl. intros [?|[= <-]]; done.
    + apply V. rw Hws. set_solver.
Qed.

(** The main loop takes an event. *)
Lemma total_receive x e rest :
  settleCh x = e :: rest →
  total x = S (total (x <| settleCh := rest |>))
  ∧ exclusives x = (if ev_exclusive e then 1 else 0) + exclusives (x <| settleCh := rest |>).
Proof. intros Hc. rw /total /exclusives Hc /= count_if_cons. destruct (ev_exclusive e); simpl; lia. Qed.

Lemma counters_launch x unit m :
  counters x → scheduling (main x) = true → scheduling m = true →
  exclusives x = 0 → (Z.of_nat (total x) < concurrency)%Z →
  (exclusive unit = true → total x = 0) →
  main_ok ((launch unit x) <| main := m |>) →
  counters ((launch unit x) <| main := m |>).
Proof.
  intros [A E L B M V] Hs Hsm Hx Hlt Halone Hm. set (x' := (launch unit x) <| main := m |>) in *.
  assert (total x' = S (total x)) as Ht.
  { rw /total /x' /launch /= count_if_app count_if_cons count_if_nil /=. lia. }
  assert (exclusives x' = if exclusive unit then 1 else 0) as Hx'.
  { move: Hx. rw /exclusives /x' /launch /= count_if_app count_if_cons count_if_nil.
    rw /busy_exclusive /busy /is_gone /=. destruct (exclusive unit); lia. }
  split; rw ?Ht ?Hx'.
  - rw /x' /launch /= A. lia.
  - intros _. rw /x' /launch /= E // Hx. by destruct (exclusive unit).
  - destruct (exclusive unit); [rw Halone //; lia|lia].
  - lia.
  - done.
  - intros w e. rw /x' /launch /=. intros [Hw| ->%list_elem_of_singleton]%elem_of_app; [by apply V|].
    by intros [?|?].
Qed.

Lemma exclusives_total x : (exclusives x ≤ total x)%nat.
Proof.
  rw /exclusives /total. apply Nat.add_le_mono.
  - apply count_if_mono. intros w _. rw /busy_exclusive. by intros [? _]%andb_true_iff.
  - rw /count_if. apply length_filter.
Qed.

Lemma counters_store x s : counters x → counters (x <| store := s |>).
Proof. by apply counters_same. Qed.

Lemma counters_stop x s : counters x → counters (x <| stop := s |>).
Proof. by apply counters_same. Qed.

Lemma counters_drain x e : counters x → counters (x <| main := MDrain e |>).
Proof. intros Hx. apply counters_goto; [done|done|by right]. Qed.

Lemma counters_stop_with x e : counters x → counters (stop_with e x).
Proof. intros Hx. by apply counters_drain, counters_stop. Qed.

Lemma counters_call {A} (m : DB A) k x :
  counters x → scheduling (main x) = true → (∀ a, main_ok (x <| main := k a |>)) →
  counters (call m k x).
Proof.
  intros Hx Hs Hk. rw /call. destruct (m (store x)) as [[e|a] s].
  - by apply counters_drain, counters_store.
  - apply counters_goto; [by apply counters_store|exact (Hk a)|by left].
Qed.

Lemma counters_dispatch x unit next :
  counters x → scheduling (main x) = true → scheduling next = true →
  exclusives x = 0 → (Z.of_nat (total x) < concurrency)%Z →
  (exclusive unit = true → total x = 0) →
  (∀ s, main_ok ((launch unit (x <| store := s |>)) <| main := next |>)) →
  counters (dispatch_to d unit next x).
Proof.
  intros Hx Hs Hn He Hlt Halone Hm. rw /dispatch_to /dispatch.
  destruct (canceledOutcomeError x); [by apply counters_drain|].
  destruct (ValidateEnvelope d _ _); [by apply counters_drain|].
  destruct (dispatch_store d unit (store x)) as [[e|?] s]; [by apply counters_drain, counters_store|].
  by apply counters_launch; [apply counters_store|..].
Qed.

Lemma find_exclusive_None ready :
  List.find exclusive ready = None → Forall (λ u, exclusive u = false) ready.
Proof.
  intros H. apply Forall_forall. intros u Hu. apply (List.find_none _ _ H u). by apply list_elem_of_In.
Qed.

Lemma counters_choose ready x :
  counters x → main x = MChoose ready → counters (choose d ready x).
Proof.
  intros Hx Hmain. assert (scheduling (main x) = true) as Hs by by rw Hmain.
  rw /choose. destruct ready as [|u us].
  { apply counters_goto; [done| |by left]. rw (ct_active _ _ Hx).
    case_match eqn:E; [apply Z.eqb_eq in E|apply Z.eqb_neq in E]; rw /main_ok /=.
    - change (total x = 0). lia.
    - change (0 < total x)%nat. lia. }
  destruct (List.find exclusive (u :: us)) as [unit|] eqn:Hfind.
  - rw (ct_active _ _ Hx). destruct (Z.ltb_spec 0 (Z.of_nat (total x))) as [Hpos|Hzero].
    + apply counters_goto; [done| |by left]. change (0 < total x)%nat. lia.
    + assert (total x = 0) as Ht by lia. apply counters_dispatch; try done; [|lia].
      pose proof (exclusives_total x). lia.
  - rw (ct_exclusive _ _ Hx Hs). case_bool_decide as Hex.
    + apply counters_goto; [done| |by left]. change (0 < total x)%nat. rw (ct_alone _ _ Hx Hex). lia.
    + apply counters_goto; [done| |by left]. split_and!; [change (exclusives x = 0); lia| |done].
      by apply find_exclusive_None.
Qed.

Lemma counters_fill ready dispatched x :
  counters x → main x = MFill ready dispatched → counters (fill d concurrency ready dispatched x).
Proof.
  intros Hx Hmain. assert (scheduling (main x) = true) as Hs by by rw Hmain.
  pose proof (ct_main _ _ Hx) as Hok. rw /main_ok Hmain in Hok. destruct Hok as (He & Hall & Hne).
  assert (∀ b, (b = false → (0 < total x)%nat) →
    counters (x <| main := if b : bool then MTop else MSettle |>)) as Hended.
  { intros b Hb. apply counters_goto; [done| |by left]. destruct b; [done|]. by apply Hb. }
  rw /fill. destruct ready as [|unit rest].
  { apply Hended. intros ->. by destruct Hne. }
  rw (ct_active _ _ Hx). destruct (Z.leb_spec concurrency (Z.of_nat (total x))) as [Hfull|Hlt].
  { apply Hended. intros _. lia. }
  inv Hall. apply counters_dispatch; try done; [congruence|].
  intros s. rw /main_ok /=. split_and!; [|done|done].
  move: He. rw /exclusives /launch /= count_if_app count_if_cons count_if_nil.
  rw /busy_exclusive /busy /is_gone /= H1. lia.
Qed.

Lemma counters_main ctx x x' :
  counters x → main_step d concurrency ctx x = Some x' → counters x'.
Proof.
  intros Hx. rw /main_step. destruct (main x) eqn:Hmain; try done.
  - intros [= <-]. destruct ctx; [by apply counters_stop_with|].
    apply counters_goto; [done|done|left; by rw Hmain].
  - intros [= <-]. destruct (canceledOutcomeError x); [by apply counters_stop_with|].
    destruct (stop x); [by apply counters_drain|].
    apply counters_goto; [done|done|left; by rw Hmain].
  - intros [= <-]. apply counters_call; [done|by rw Hmain|done].
  - destruct units as [|unit units]; intros [= <-].
    + apply counters_goto; [done|done|left; by rw Hmain].
    + apply counters_call; [done|by rw Hmain|done].
  - intros [= <-]. apply counters_call; [done|by rw Hmain|done].
  - intros [= <-]. by apply counters_choose.
  - intros [= <-]. by apply counters_fill.
  - destruct (Z.ltb_spec 0 (active x)) as [|Hz]; [done|]. intros [= <-].
    apply counters_goto; [done| |by right]. rw (ct_active _ _ Hx) in Hz. change (total x = 0). lia.
Qed.

Lemma handleSettle_fields e x :
  active (handleSettle e x) = Z.pred (active x)
  ∧ activeExclusive (handleSettle e x) = (if ev_exclusive e then false else activeExclusive x)
  ∧ workers (handleSettle e x) = workers x ∧ settleCh (handleSettle e x) = settleCh x.
Proof.
  rw /handleSettle. destruct (ev_exclusive e); destruct (stop _); [done| |done|];
    destruct (ev_err e); try done; repeat case_match; done.
Qed.

Lemma counters_receive x x' : counters x → receive x = Some x' → counters x'.
Proof.
  intros [A E L B M V]. rw /receive. destruct (settleCh x) as [|e rest] eqn:Hch; [done|].
  destruct (total_receive x e rest Hch) as [Ht Hx].
  set (y := x <| settleCh := rest |>) in *. cbn zeta.
  change (main y) with (main x). destruct (main x) eqn:Hmain; try done.
  - intros [= <-]. destruct (handleSettle_fields e y) as (Ha & He & Hw & Hc).
    set (z := handleSettle e y) in *.
    assert (total (z <| main := MTop |>) = total y ∧ exclusives (z <| main := MTop |>) = exclusives y)
      as [Ht' Hx'] by by rw /total /exclusives /= Hw Hc.
    split; rw ?Ht' ?Hx'; [rw /= Ha /= A Ht; lia| | |lia|done|].
    + intros _. rw /= He /= E; [done|]. pose proof (exclusives_total y).
      destruct (ev_exclusive e); [|by rw Hx]. rw bool_decide_false //. lia.
    + intros Hpos. pose proof (exclusives_total y). lia.
    + intros w e'. rw /= Hw. apply V.
  - destruct (Z.ltb_spec 0 (active y)) as [Hpos|]; [|done]. intros [= <-].
    pose proof (exclusives_total y).
    set (z := _ <| active ::= Z.pred |>).
    assert (total z = total y ∧ exclusives z = exclusives y) as [Ht' Hx'] by done.
    assert (main z = MDrain final) as Hz by done.
    split; rw ?Ht' ?Hx' ?Hz; [rw /= A Ht; lia|done|lia|lia| |done].
    by rw /main_ok Hz.
Qed.

Lemma own_send unit outcome err : own_phase unit (PSend (event_of unit outcome err)).
Proof. split; [done|]. by intros e [= <-]. Qed.

Lemma own_transition unit to reason s : own_phase unit (settle_transition d unit to reason s).1.
Proof.
  rw /settle_transition. destruct (TransitionWorkUnit _ _ _ _ _ s) as [[e|?] s']; apply own_send.
Qed.

Lemma own_settle unit result s : own_phase unit (settle_step d unit result s).1.
Proof.
  rw /settle_step. case_match.
  { destruct (LatestWorkUnitVerification _ _ s) as [[e|[decision|]] s']; [apply own_send| |by split].
    by case_match. }
  repeat (case_match; [apply own_transition || apply own_send|]). apply own_send.
Qed.

Lemma counters_run l x x' :
  counters x → run d concurrency l x = Some x' → counters x'.
Proof.
  intros Hx. destruct l as [ctx| |i result runErr|i]; cbn [run].
  - by apply counters_main.
  - by apply counters_receive.
  - rw /run_returns. destruct (workers x !! i) as [w|] eqn:Hw; [|done]. simpl.
    destruct (w_phase w) eqn:Hp; try done. intros [= <-].
    assert (busy w = true) as Hbusy by by rw /busy /is_gone Hp.
    destruct runErr; [|case_match]; (eapply counters_worker; [done..|]);
      [apply own_send|by split|by split].
  - rw /worker_step. destruct (workers x !! i) as [w|] eqn:Hw; [|done]. simpl.
    destruct (w_phase w) eqn:Hp; try done.
    all: assert (busy w = true) as Hbusy by by rw /busy /is_gone Hp.
    + intros [= <-].
      assert (counters (recordCanceledOutcome (event_of (w_unit w) "canceled" None) x)) as Hrec
        by by rw /recordCanceledOutcome; destruct (canceledOutcome x); [|apply (counters_same x)].
      assert (workers (recordCanceledOutcome (event_of (w_unit w) "canceled" None) x) = workers x) as Hws
        by by rw /recordCanceledOutcome; destruct (canceledOutcome x).
      eapply counters_worker; [done|by rw Hws|done|apply own_send].
    + pose proof (own_settle (w_unit w) result (store x)) as Hown.
      destruct (settle_step _ _ _ _) as [p s]. intros [= <-].
      by eapply counters_worker; [apply counters_store|..].
    + pose proof (own_transition (w_unit w) "completed" "" (store x)) as Hown.
      destruct (settle_transition _ _ _ _ _) as [p s]. intros [= <-].
      by eapply counters_worker; [apply counters_store|..].
    + pose proof (own_transition (w_unit w) "blocked" reason (store x)) as Hown.
      destruct (settle_transition _ _ _ _ _) as [p s]. intros [= <-].
      by eapply counters_worker; [apply counters_store|..].
    + case_match; [done|]. intros [= <-]. by eapply counters_send.
Qed.

Lemma counters_step x x' : counters x → sched_step d concurrency x x' → counters x'.
Proof.
  intros Hx [l Hl|(s & -> & _)]; [by eapply counters_run|by apply counters_store].
Qed.

Lemma reachable_counters s x : rtc (sched_step d concurrency) (start s) x → counters x.
Proof.
  intros Hr. apply (rtc_ind_r (R := sched_step d concurrency) counters (start s)); [apply counters_start| |exact Hr].
  intros y z _ Hstep Hy. by eapply counters_step.
Qed.

(** C15: lanes.  In every state the scheduler can reach, whatever the interleaving
    of its workers, the failures of the disk and the acts of the outside, at
    most [concurrency] units have been dispatched and not yet settled, the
    channel never holds more events than that, and a unit that is not provably
    read-only is alone: nothing else is running or unsettled with it. *)
Theorem lanes_respected s x :
  rtc (sched_step d concurrency) (start s) x →
  (Z.of_nat (count_if busy (workers x) + length (settleCh x)) ≤ concurrency)%Z
  ∧ ∀ i w, workers x !! i = Some w → busy w = true → exclusive (w_unit w) = true →
      settleCh x = [] ∧ ∀ j v, workers x !! j = Some v → busy v = true → j = i.
Proof.
  intros Hx%reachable_counters. split; [apply Hx|]. intros i w Hw Hb He.
  assert (0 < count_if busy_exclusive (workers x))%nat as Hpos.
  { apply (count_if_pos _ _ w); [by eapply list_elem_of_lookup_2|]. by rw /busy_exclusive Hb He. }
  assert (total x = 1) as Ht by (apply (ct_alone _ _ Hx); rw /exclusives; lia).
  assert (0 < count_if busy (workers x))%nat as Hpos'
    by (apply (count_if_pos _ _ w); [by eapply list_elem_of_lookup_2|done]).
  rw /total in Ht. split; [apply nil_length_inv; lia|]. intros j v Hv Hbv.
  apply (count_if_unique busy (workers x)); [lia|by exists v|by exists w].
Qed.
End counters.
