(* ===== verification/SchedulerStore.v ===== *)
(** * The scheduler and the store

    A unit is durably running from before its worker starts until its outcome
    is written, no two workers run the same unit, a unit is completed only after
    a passed verification, and when the scheduler returns all its work is
    settled. *)

From stdpp Require Import relations.
From S2P Require Import Prelude GoTime Text Cycles Database WorkUnits UnitLaws UnitReady Paths Driver Scheduler.
From S2P Require Import SchedulerLaws.

Local Open Scope runstead_scope.

(** ** The status of a unit *)

Definition status_in (t : Tables) (taskID id : string) : option string :=
  row_status <$> unit_row t taskID id.

Section status.
Context {DK : Disk} {CD : Codec}.
Context (taskID : string).

Lemma status_insert t id row id' :
  row_task_id row = taskID →
  status_in (t <| tbl_work_units ::= insert id row |>) taskID id'
  = if bool_decide (id = id') then Some (row_status row) else status_in t taskID id'.
Proof.
  intros Htask. rw /status_in /unit_row /=. case_bool_decide as E.
  - rw E lookup_insert_eq /= Htask. by rw String.eqb_refl.
  - by rw lookup_insert_ne.
Qed.

Lemma unit_row_task t id row : unit_row t taskID id = Some row → row_task_id row = taskID.
Proof.
  rw /unit_row. destruct (tbl_work_units t !! id) as [row'|]; [|done]. simpl.
  destruct (String.eqb_spec (row_task_id row') taskID); [|done]. by intros [= <-].
Qed.

Lemma moved_status t id to reason at_ row :
  row_status (moved_row t taskID id to reason at_ row) = to
  ∧ row_task_id (moved_row t taskID id to reason at_ row) = row_task_id row.
Proof. rw /moved_row. by destruct (String.eqb to "completed"). Qed.

(** Only the status of one unit changes. *)
Record status_moved (t t' : Tables) (id from to : string) : Prop := {
  sm_from : status_in t taskID id = Some from;
  sm_to : status_in t' taskID id = Some to;
  sm_other id' : id' ≠ id → status_in t' taskID id' = status_in t taskID id';
  sm_verified id' : latest_decision t' taskID id' = latest_decision t taskID id'
}.

Lemma transition_status id from to reason s :
  match TransitionWorkUnit taskID id from to reason s with
  | (inl _, s') => tables s' = tables s
  | (inr _, s') => status_moved (tables s) (tables s') id from to
  end.
Proof.
  pose proof (transition_effect taskID id from to reason s) as H. cbn zeta in H.
  destruct (TransitionWorkUnit taskID id from to reason s) as [[e|?] s']; cbn [fst snd] in H; [done|].
  destruct H as (_ & row & at_ & event & Hrow & Hst & Ht & _).
  destruct (moved_status (tables s) id to reason at_ row) as [Hto Htask].
  assert (∀ id', status_in (tables s') taskID id' =
    if bool_decide (id = id') then Some to else status_in (tables s) taskID id') as Hall.
  { intros id'. rw Ht. etrans; [apply (status_insert (tables s) id (moved_row (tables s) taskID id to reason at_ row))|by rw Hto].
    rw Htask. by eapply unit_row_task. }
  split.
  - rw /status_in Hrow /=. by rw Hst.
  - by rw Hall bool_decide_true.
  - intros id' Hne. rw Hall bool_decide_false; [by intros ->|done].
  - intros id'. by rw Ht.
Qed.

(** Running and completed units, and all decisions, are left alone. *)
Record leaves (t t' : Tables) : Prop := {
  lv_running id : status_in t taskID id = Some "running"%string → status_in t' taskID id = Some "running"%string;
  lv_completed id : status_in t taskID id = Some "completed"%string ↔ status_in t' taskID id = Some "completed"%string;
  lv_verified id : latest_decision t' taskID id = latest_decision t taskID id
}.

#[export] Instance leaves_preorder : PreOrder leaves.
Proof.
  split; [done|]. intros t t' t'' [R C V] [R' C' V'].
  split; [by auto|intros id; by rw C C'|intros id; by rw V' V].
Qed.

Lemma leaves_moved t t' id from to :
  status_moved t t' id from to → from ≠ "running"%string → from ≠ "completed"%string →
  to ≠ "completed"%string → leaves t t'.
Proof.
  intros [F T O V] Hr Hc Hto. split; [..|done].
  - intros id' H. destruct (decide (id' = id)) as [->|Hne]; [congruence|by rw O].
  - intros id'. destruct (decide (id' = id)) as [->|Hne]; [|by rw O].
    rw F T. split; congruence.
Qed.

Lemma leaves_transition id from to reason s :
  from ≠ "running"%string → from ≠ "completed"%string → to ≠ "completed"%string →
  leaves (tables s) (tables (TransitionWorkUnit taskID id from to reason s).2).
Proof.
  intros Hr Hc Hto. pose proof (transition_status id from to reason s) as H.
  destruct (TransitionWorkUnit _ _ _ _ _ s) as [[e|?] s']; simpl; [by rw H|by eapply leaves_moved].
Qed.
End status.

(** ** The invariant *)

(** The outcome of the unit is not written yet. *)
Definition before_outcome (p : Phase) : bool :=
  match p with PSend _ | PGone _ => false | _ => true end.

Definition event_in (p : Phase) : option settleEvent :=
  match p with PSend e | PGone e => Some e | _ => None end.

(** The event tells of a completed unit. *)
Definition tells_completed (e : settleEvent) : Prop :=
  ev_err e = None ∧ ev_outcome e = "completed"%string.

Section durable.
Context {DK : Disk} {CD : Codec}.
Context (d : Driver) (concurrency : Z) (t0 : Tables).
Abbreviation status t id := (status_in t (TaskID_ d) id).
Abbreviation unit_id w := (WorkUnitID (w_unit w)).

Record durable (t : Tables) (ws : list Worker) : Prop := {
  du_running i w : ws !! i = Some w → before_outcome (w_phase w) = true →
    status t (unit_id w) = Some "running"%string;
  du_distinct i j w v : ws !! i = Some w → ws !! j = Some v →
    before_outcome (w_phase w) = true → before_outcome (w_phase v) = true →
    unit_id w = unit_id v → i = j;
  du_done i w e : ws !! i = Some w → event_in (w_phase w) = Some e → tells_completed e →
    status t (unit_id w) = Some "completed"%string;
  du_passed i w : ws !! i = Some w → w_phase w = PComplete →
    latest_decision t (TaskID_ d) (unit_id w) = Some "passed"%string;
  du_completed id : status t id = Some "completed"%string →
    status t0 id = Some "completed"%string ∨ latest_decision t (TaskID_ d) id = Some "passed"%string
}.

Lemma durable_leaves t t' ws : leaves (TaskID_ d) t t' → durable t ws → durable t' ws.
Proof.
  intros [R C V] [Hr Hd Hdone Hp Hc]. split; [by eauto|done| | |].
  - intros i w e Hw He Ht. apply C. by eapply Hdone.
  - intros i w Hw Hph. rw V. by eapply Hp.
  - intros id Hid%C. rw V. by apply Hc.
Qed.

Lemma lookup_phase (ws : list Worker) i p j w :
  alter (λ w, w <| w_phase := p |>) i ws !! j = Some w →
  ∃ v, ws !! j = Some v ∧ unit_id w = unit_id v
    ∧ (j = i ∧ w_phase w = p ∨ j ≠ i ∧ w_phase w = w_phase v).
Proof.
  destruct (decide (j = i)) as [->|Hne].
  - rw list_lookup_alter_eq. destruct (ws !! i) as [v|]; [|done]. intros [= <-].
    exists v. split_and!; [done|done|by left].
  - rw list_lookup_alter_ne //. intros Hw. exists w. split_and!; [done|done|by right].
Qed.

(** A worker goes on without writing: what it claims in its new phase must
    hold. *)
Lemma durable_phase t ws i w p :
  durable t ws → ws !! i = Some w → before_outcome (w_phase w) = true →
  (∀ e, event_in p = Some e → ¬ tells_completed e) →
  (p = PComplete → latest_decision t (TaskID_ d) (unit_id w) = Some "passed"%string) →
  durable t (alter (λ w, w <| w_phase := p |>) i ws).
Proof.
  intros [Hr Hd Hdone Hp Hc] Hw Hb He Hpass. split; [..|done].
  - intros j v (v' & Hv & -> & [[-> _]|[_ ->]])%lookup_phase; [|by eapply Hr].
    intros _. simplify_eq. by eapply Hr.
  - intros j k v1 v2 (v' & Hv & -> & Hpv)%lookup_phase (u' & Hu & -> & Hpu)%lookup_phase Hbv Hbu Heq.
    apply (Hd j k v' u'); [done|done| | |done].
    + destruct Hpv as [[-> _]|[_ <-]]; [by simplify_eq|done].
    + destruct Hpu as [[-> _]|[_ <-]]; [by simplify_eq|done].
  - intros j v e (v' & Hv & -> & [[-> ->]|[_ ->]])%lookup_phase; [|by apply (Hdone j)].
    intros Hev Ht. by destruct (He e Hev).
  - intros j v (v' & Hv & -> & [[-> ->]|[_ ->]])%lookup_phase; [|by apply (Hp j)].
    intros E. simplify_eq. by apply Hpass.
Qed.

(** The event leaves for the channel. *)
Lemma durable_send t ws i w e :
  durable t ws → ws !! i = Some w → w_phase w = PSend e →
  durable t (alter (λ w, w <| w_phase := PGone e |>) i ws).
Proof.
  intros [Hr Hd Hdone Hp Hc] Hw Hph. split; [..|done].
  - intros j v (v' & Hv & -> & [[-> ->]|[_ ->]])%lookup_phase; [done|by eapply Hr].
  - intros j k v1 v2 (v' & Hv & -> & Hpv)%lookup_phase (u' & Hu & -> & Hpu)%lookup_phase Hbv Hbu Heq.
    destruct Hpv as [[-> E]|[_ E]]; rw E in Hbv; [done|].
    destruct Hpu as [[-> E']|[_ E']]; rw E' in Hbu; [done|]. by apply (Hd j k v' u').
  - intros j v e' (v' & Hv & -> & [[-> ->]|[_ ->]])%lookup_phase; [|by apply (Hdone j)].
    simplify_eq. intros [= <-]. apply (Hdone i w e Hw). by rw Hph.
  - intros j v (v' & Hv & -> & [[-> ->]|[_ ->]])%lookup_phase; [done|by apply (Hp j)].
Qed.

(** A worker writes the outcome of its unit and turns to sending. *)
Lemma durable_transition t ws i w to reason s :
  durable t ws → ws !! i = Some w → before_outcome (w_phase w) = true → t = tables s →
  (to = "completed"%string → w_phase w = PComplete) →
  let r := settle_transition d (w_unit w) to reason s in
  durable (tables r.2) (alter (λ w, w <| w_phase := r.1 |>) i ws).
Proof.
  intros HD Hw Hb -> Hto. cbn zeta. rw /settle_transition.
  pose proof (transition_status (TaskID_ d) (unit_id w) "running" to reason s) as Hs.
  destruct (TransitionWorkUnit _ _ _ _ _ s) as [[e|?] s']; simpl.
  { rw Hs. eapply durable_phase; [done..| |done]. by intros ? [= <-] [? _]. }
  pose proof HD as [Hr Hd Hdone Hp Hc]. pose proof (Hr i w Hw Hb) as Hrun.
  destruct Hs as [F T O V]. split.
  - intros j v (v' & Hv & -> & [[-> ->]|[Hne ->]])%lookup_phase Hbv; [done|].
    rw O; [|by eapply Hr]. intros E. apply Hne. by apply (Hd j i v' w).
  - intros j k v1 v2 (v' & Hv & -> & Hpv)%lookup_phase (u' & Hu & -> & Hpu)%lookup_phase Hbv Hbu Heq.
    destruct Hpv as [[-> E]|[_ E]]; rw E in Hbv; [done|].
    destruct Hpu as [[-> E']|[_ E']]; rw E' in Hbu; [done|]. by apply (Hd j k v' u').
  - intros j v e (v' & Hv & -> & [[-> ->]|[Hne ->]])%lookup_phase.
    + intros [= <-] [_ E]. simplify_eq. simpl in E. by rw -E.
    + intros He Ht. pose proof (Hdone j v' e Hv He Ht) as Hcomp. rw O; [|done]. congruence.
  - intros j v (v' & Hv & -> & [[-> ->]|[Hne ->]])%lookup_phase; [done|]. rw V. by apply (Hp j).
  - intros id. rw V. destruct (decide (id = unit_id w)) as [->|Hne].
    + rw T. intros [= E]. right. by apply (Hp i), Hto.
    + rw O //. apply Hc.
Qed.

(** A worker is launched for a unit that was just marked running. *)
Lemma durable_launch t t' ws unit :
  durable t ws → status_moved (TaskID_ d) t t' (WorkUnitID unit) "ready" "running" →
  durable t' (ws ++ [{| w_unit := unit; w_phase := PRun |}]).
Proof.
  intros HD Hm. assert (leaves (TaskID_ d) t t') as Hl by by eapply leaves_moved.
  pose proof HD as [Hr0 _ _ _ _]. pose proof (durable_leaves _ _ _ Hl HD) as [Hr Hd Hdone Hp Hc].
  assert (∀ i w, ws !! i = Some w → before_outcome (w_phase w) = true → unit_id w ≠ WorkUnitID unit)
    as Hfresh.
  { intros i w Hw Hb E. pose proof (Hr0 i w Hw Hb) as Hs. rw E (sm_from _ _ _ _ _ _ Hm) in Hs. done. }
  assert (∀ i w, (ws ++ [{| w_unit := unit; w_phase := PRun |}]) !! i = Some w →
    ws !! i = Some w ∨ i = length ws ∧ w = {| w_unit := unit; w_phase := PRun |}) as Hcases.
  { intros i w [?|[? Hw]]%lookup_app_Some; [by left|right].
    apply list_lookup_singleton_Some in Hw as [Hi <-]. split; [lia|done]. }
  split; [..|done].
  - intros i w [Hw|[_ ->]]%Hcases Hb; [by eapply Hr|]. apply Hm.
  - intros i j w v [Hw|[-> ->]]%Hcases [Hv|[-> ->]]%Hcases Hbw Hbv E; [by eapply Hd| | |done].
    + by destruct (Hfresh i w Hw Hbw).
    + by destruct (Hfresh j v Hv Hbv).
  - intros i w e [Hw|[_ ->]]%Hcases; [by apply (Hdone i)|done].
  - intros i w [Hw|[_ ->]]%Hcases; [by apply (Hp i)|done].
Qed.

(** ** Every step keeps it *)

Abbreviation durable_in x := (durable (tables (store x)) (workers x)).

Lemma durable_dispatch x unit next : durable_in x → durable_in (dispatch_to d unit next x).
Proof.
  intros HD. rw /dispatch_to /dispatch.
  destruct (canceledOutcomeError x); [done|]. destruct (ValidateEnvelope d _ _); [done|].
  rw /dispatch_store /check.
  set (first := if String.eqb (Status unit) "created" then _ else _).
  assert (leaves (TaskID_ d) (tables (store x)) (tables (first (store x)).2)) as Hfirst.
  { rw /first. case_match; [by apply leaves_transition|reflexivity]. }
  destruct (first (store x)) as [[e|?] s1]; simpl in Hfirst; [by eapply durable_leaves|].
  pose proof (transition_status (TaskID_ d) (WorkUnitID unit) "ready" "running" "" s1) as Hs.
  destruct (TransitionWorkUnit _ _ _ _ _ s1) as [[e|?] s2]; simpl.
  - rw Hs. by eapply durable_leaves.
  - eapply durable_launch; [by eapply durable_leaves|done].
Qed.

Lemma durable_call {A} (m : DB A) k x :
  leaves (TaskID_ d) (tables (store x)) (tables (m (store x)).2) → durable_in x → durable_in (call m k x).
Proof.
  intros Hm HD. rw /call. destruct (m (store x)) as [[e|a] s]; by eapply durable_leaves.
Qed.

Lemma leaves_reading {A} (m : DB A) s :
  within eq m → leaves (TaskID_ d) (tables s) (tables (m s).2).
Proof. intros Hm. by rw -Hm. Qed.

Lemma leaves_resolve units s :
  leaves (TaskID_ d) (tables s) (tables (resolve_each d units s).2).
Proof.
  revert s. induction units as [|u units IH]; intros s; cbn [resolve_each]; [done|].
  case_match; [apply IH|]. rw {1}/check.
  pose proof (within_query eq (λ t, pending_approvals t (TaskID_ d) (WorkUnitID u)) s) as Hq.
  symmetry in Hq.
  rw /WorkUnitPendingApprovalCount. destruct (query _ s) as [[e|n] s1]; simpl in Hq; [by rw Hq|].
  rw -Hq. case_match; [|apply IH]. rw {1}/check.
  pose proof (leaves_transition (TaskID_ d) (WorkUnitID u) "blocked" "ready" "operator approval resolved" s1
    ltac:(done) ltac:(done) ltac:(done)) as Ht.
  destruct (TransitionWorkUnit _ _ _ _ _ s1) as [[e|?] s2]; simpl in Ht; [done|]. etrans; [done|apply IH].
Qed.

Lemma durable_main ctx x x' :
  durable_in x → main_step d concurrency ctx x = Some x' → durable_in x'.
Proof.
  intros HD. rw /main_step. destruct (main x) eqn:Hmain; try done.
  - intros [= <-]. by destruct ctx.
  - intros [= <-]. destruct (canceledOutcomeError x); [done|]. by destruct (stop x).
  - intros [= <-]. apply durable_call; [apply leaves_reading, reading_List|done].
  - destruct units as [|u units]; intros [= <-]; [done|].
    apply durable_call; [exact (leaves_resolve [u] (store x))|done].
  - intros [= <-]. apply durable_call; [apply leaves_reading, reading_Ready|done].
  - intros [= <-]. rw /choose. destruct ready as [|u us]; [done|].
    destruct (List.find _ _); [|by destruct (activeExclusive x)].
    case_match; [done|by apply durable_dispatch].
  - intros [= <-]. rw /fill. destruct ready as [|u us]; [done|]. case_match; [done|by apply durable_dispatch].
  - case_match; [done|]. by intros [= <-].
Qed.

Lemma handleSettle_store e x : store (handleSettle e x) = store x.
Proof.
  rw /handleSettle. destruct (ev_exclusive e); destruct (stop _); [done| |done|];
    destruct (ev_err e); try done; repeat case_match; done.
Qed.

Lemma durable_settle x i w result :
  durable_in x → workers x !! i = Some w → w_phase w = PSettle result →
  let r := settle_step d (w_unit w) result (store x) in
  durable (tables r.2) (alter (λ w, w <| w_phase := r.1 |>) i (workers x)).
Proof.
  intros HD Hw Hph. assert (before_outcome (w_phase w) = true) as Hb by by rw Hph.
  cbn zeta. rw /settle_step. case_match.
  { pose proof (query_ok (λ t, latest_decision t (TaskID_ d) (unit_id w)) (store x)) as Hok.
    pose proof (within_query eq (λ t, latest_decision t (TaskID_ d) (unit_id w)) (store x)) as Hq.
    symmetry in Hq. rw /LatestWorkUnitVerification. destruct (query _ (store x)) as [[e|[decision|]] s]; simpl in Hq |- *; try rw Hq.
    - eapply durable_phase; [done..| |done]. by intros ? [= <-] [? _].
    - destruct (Hok _ _ eq_refl) as [Hdec _]. destruct (String.eqb_spec decision "passed") as [->|]; simpl; rw Hq.
      + by eapply durable_phase.
      + by eapply durable_phase.
    - by eapply durable_phase. }
  repeat (case_match; [by eapply durable_transition|]).
  case_match; (eapply durable_phase; [done..| |done]); by intros ? [= <-] [_ ?].
Qed.

Lemma durable_run l x x' :
  durable_in x → run d concurrency l x = Some x' → durable_in x'.
Proof.
  intros HD. destruct l as [ctx| |i result runErr|i]; cbn [run].
  - by apply durable_main.
  - rw /receive. destruct (settleCh x) as [|e rest]; [done|]. cbn zeta.
    destruct (main _); try done.
    + intros [= <-]. simpl. rw handleSettle_store. by destruct (handleSettle_fields e (x <| settleCh := rest |>)) as (_ & _ & -> & _).
    + case_match; [|done]. by intros [= <-].
  - rw /run_returns. destruct (workers x !! i) as [w|] eqn:Hw; [|done]. simpl.
    destruct (w_phase w) eqn:Hp; try done. intros [= <-].
    assert (before_outcome (w_phase w) = true) as Hb by by rw Hp.
    destruct runErr; [|case_match]; (eapply durable_phase; [done..| |done]); [|done..].
    by intros ? [= <-] [? _].
  - rw /worker_step. destruct (workers x !! i) as [w|] eqn:Hw; [|done]. simpl.
    destruct (w_phase w) eqn:Hp; try done.
    all: try assert (before_outcome (w_phase w) = true) as Hb by by rw Hp.
    + intros [= <-].
      assert (store (recordCanceledOutcome (event_of (w_unit w) "canceled" None) x) = store x
        ∧ workers (recordCanceledOutcome (event_of (w_unit w) "canceled" None) x) = workers x) as [Hs Hws]
        by by rw /recordCanceledOutcome; destruct (canceledOutcome x).
      rw /set_worker /= Hs Hws. eapply durable_phase; [done..| |done]. by intros ? [= <-] [_ ?].
    + pose proof (durable_settle x i w result HD Hw Hp) as Hset. cbn zeta in Hset.
      destruct (settle_step _ _ _ _) as [p s]. by intros [= <-].
    + pose proof (durable_transition _ _ i w "completed" "" (store x) HD Hw Hb eq_refl) as Hset.
      cbn zeta in Hset. destruct (settle_transition _ _ _ _ _) as [p s]. intros [= <-]. by apply Hset.
    + pose proof (durable_transition _ _ i w "blocked" reason (store x) HD Hw Hb eq_refl) as Hset.
      cbn zeta in Hset. destruct (settle_transition _ _ _ _ _) as [p s]. intros [= <-]. by apply Hset.
    + case_match; [done|]. intros [= <-]. by eapply durable_send.
Qed.

Lemma durable_foreign x x' : durable_in x → foreign d x x' → durable_in x'.
Proof.
  intros [Hr Hd Hdone Hp Hc] (s & -> & Hu & _ & Hdec).
  assert (∀ id, status (tables s) id = status (tables (store x)) id) as Hst
    by (intros id; by rw /status_in /unit_row Hu).
  split; simpl.
  - intros i w. rw Hst. apply Hr.
  - done.
  - intros i w e. rw Hst. apply Hdone.
  - intros i w Hw Hph. rw Hdec; [|by eapply Hp].
    intros (v & [j Hv]%list_elem_of_lookup & Hpv & E).
    assert (j = i) as -> by (apply (Hd j i v w); try done; [by rw Hpv|by rw Hph]). congruence.
  - intros id. rw Hst. intros Hcomp. rw Hdec; [|by apply Hc].
    intros (v & [j Hv]%list_elem_of_lookup & Hpv & E).
    pose proof (Hr j v Hv ltac:(by rw Hpv)) as Hrun. rw E in Hrun. congruence.
Qed.

Lemma durable_step x x' : durable_in x → sched_step d concurrency x x' → durable_in x'.
Proof. intros HD [l Hl|Hf]; [by eapply durable_run|by eapply durable_foreign]. Qed.
End durable.

Section theorems.
Context {DK : Disk} {CD : Codec}.
Context (d : Driver) (concurrency : Z).
Abbreviation reachable s x := (rtc (sched_step d concurrency) (start s) x).

Lemma reachable_durable s x :
  reachable s x → durable d (tables s) (tables (store x)) (workers x).
Proof.
  intros Hr.
  apply (rtc_ind_r (R := sched_step d concurrency)
    (λ y, durable d (tables s) (tables (store y)) (workers y)) (start s)); [|..|exact Hr].
  - split; try done. intros id Hid. by left.
  - intros y z _ Hstep Hy. by eapply durable_step.
Qed.

(** C17: durable runs.  In every state the scheduler can reach, the unit of a
    worker whose outcome is not yet written is running in the store, so a crash
    leaves it there for recovery, and no two such workers have the same unit. *)
Theorem runs_are_durable s x i w :
  reachable s x → workers x !! i = Some w → before_outcome (w_phase w) = true →
  status_in (tables (store x)) (TaskID_ d) (WorkUnitID (w_unit w)) = Some "running"%string
  ∧ ∀ j v, workers x !! j = Some v → before_outcome (w_phase v) = true →
      WorkUnitID (w_unit v) = WorkUnitID (w_unit w) → j = i.
Proof.
  intros [Hr Hd _ _ _]%reachable_durable Hw Hb. split; [by eapply Hr|].
  intros j v Hv Hbv E. by apply (Hd j i v w).
Qed.

(** C16: verified completion.  In every state the scheduler can reach, a unit of
    the task that is completed was completed before the scheduler started, or
    its latest verification passed. *)
Theorem completion_is_verified s x id :
  reachable s x → status_in (tables (store x)) (TaskID_ d) id = Some "completed"%string →
  status_in (tables s) (TaskID_ d) id = Some "completed"%string
  ∨ latest_decision (tables (store x)) (TaskID_ d) id = Some "passed"%string.
Proof. intros [_ _ _ _ Hc]%reachable_durable. apply Hc. Qed.

(** ** The end of the schedule *)

(** While the main loop dispatches nothing has gone wrong, and every event it
    took told of a completed unit. *)
Definition untroubled (m : Main) : bool :=
  match m with
  | MTop | MCanceled | MDrain _ | MDone (Some _) => false
  | _ => true
  end.

Record results (x : Sched) : Prop := {
  rs_stop : untroubled (main x) = true → stop x = None;
  rs_taken : scheduling (main x) = true ∨ main x = MDone None → stop x = None →
    ∀ w e, w ∈ workers x → w_phase w = PGone e → e ∈ settleCh x ∨ tells_completed e
}.

Lemma results_keep x x' :
  results x → stop x' = stop x → workers x' = workers x → settleCh x' = settleCh x →
  (untroubled (main x') = true → stop x = None) →
  (scheduling (main x') = true ∨ main x' = MDone None → scheduling (main x) = true) → results x'.
Proof.
  intros [S T] Hs Hw Hc Hm Hsch. split; rw ?Hs ?Hw ?Hc; [done|].
  intros Hcase Hn w e. apply T; [left|done]. by apply Hsch.
Qed.

Lemma results_drain x e : results x → results (x <| main := MDrain e |>).
Proof. intros Hx. eapply results_keep; [exact Hx|done..|]. simpl. by intros [?|?]. Qed.

Lemma results_stopped x e : results (x <| stop := Some e |> <| main := MDrain e |>).
Proof. by split. Qed.

Lemma results_call {A} (m : DB A) k x :
  results x → stop x = None → scheduling (main x) = true → results (call m k x).
Proof.
  intros Hx Hs Hsch. rw /call. destruct (m (store x)) as [[e|a] s].
  - eapply results_keep; [exact Hx|done..|]. by intros [?|?].
  - by eapply results_keep.
Qed.

Lemma results_dispatch x unit next :
  results x → stop x = None → scheduling (main x) = true → results (dispatch_to d unit next x).
Proof.
  intros Hx Hs Hsch. rw /dispatch_to /dispatch.
  destruct (canceledOutcomeError x); [by apply results_drain|].
  destruct (ValidateEnvelope d _ _); [by apply results_drain|].
  destruct (dispatch_store d unit (store x)) as [[e|?] s].
  - eapply results_keep; [exact Hx|done..|]. by intros [?|?].
  - destruct Hx as [S T]. split; simpl; [done|]. intros _ _ w e.
    intros [Hw| ->%list_elem_of_singleton]%elem_of_app; [by apply T; [left|..]|done].
Qed.

Lemma results_main ctx x x' :
  results x → main_step d concurrency ctx x = Some x' → results x'.
Proof.
  intros Hx. pose proof (rs_stop _ Hx) as Hstop. rw /main_step.
  destruct (main x) eqn:Hmain; try done; try specialize (Hstop eq_refl).
  - intros [= <-]. destruct ctx; [apply results_stopped|]. eapply results_keep; [exact Hx|done..|].
    by rw Hmain.
  - intros [= <-]. destruct (canceledOutcomeError x); [apply results_stopped|].
    destruct (stop x) eqn:Hs; [by apply results_drain|].
    eapply results_keep; [exact Hx|done..|]. by rw Hmain.
  - intros [= <-]. apply results_call; [done|done|by rw Hmain].
  - destruct units as [|u units]; intros [= <-].
    + eapply results_keep; [exact Hx|done..|]. by rw Hmain.
    + apply results_call; [done|done|by rw Hmain].
  - intros [= <-]. apply results_call; [done|done|by rw Hmain].
  - intros [= <-]. rw /choose. destruct ready as [|u us].
    { eapply results_keep; [exact Hx|done..|]. by rw Hmain. }
    destruct (List.find _ _).
    + case_match; [|by apply results_dispatch; [..|rw Hmain]].
      eapply results_keep; [exact Hx|done..|]. by rw Hmain.
    + case_match; (eapply results_keep; [exact Hx|done..|]); by rw Hmain.
  - intros [= <-]. rw /fill. destruct ready as [|u us].
    { eapply results_keep; [exact Hx|done..|]. by rw Hmain. }
    case_match; [|by apply results_dispatch; [..|rw Hmain]].
    eapply results_keep; [exact Hx|done..|]. by rw Hmain.
  - case_match; [done|]. intros [= <-]. eapply results_keep; [exact Hx|done..|]. simpl. by intros [?|?].
Qed.

Lemma handleSettle_stop e x :
  stop (handleSettle e x) = None → stop x = None ∧ tells_completed e.
Proof.
  rw /handleSettle /tells_completed.
  destruct (ev_exclusive e); simpl; destruct (stop x) eqn:E; simpl; rw ?E; try done;
    (destruct (ev_err e); [done|]); destruct (String.eqb_spec (ev_outcome e) "completed"); simpl; try done;
    repeat case_match; try done; simpl; by rw ?E.
Qed.

Lemma results_receive x x' : results x → receive x = Some x' → results x'.
Proof.
  intros [S T]. rw /receive. destruct (settleCh x) as [|e rest] eqn:Hch; [done|]. cbn zeta.
  change (main (x <| settleCh := rest |>)) with (main x). destruct (main x) eqn:Hmain; try done.
  - intros [= <-]. set (y := x <| settleCh := rest |>).
    destruct (handleSettle_fields e y) as (_ & _ & Hw & Hc). split; [done|].
    intros _ Hs w e' Hin Hp. apply handleSettle_stop in Hs as [Hs Htells]. simpl in Hin |- *.
    rw Hw in Hin. rw Hc. destruct (T ltac:(by left) Hs w e' Hin Hp) as [He|?]; [|by right].
    apply elem_of_cons in He as [->|He]; [by right|by left].
  - case_match; [|done]. intros [= <-]. split; simpl; rw Hmain; [done|]. by intros [?|?].
Qed.

Lemma results_worker x i w p x0 :
  results x → workers x !! i = Some w → (∀ e, p = PGone e → e ∈ settleCh x0) →
  stop x0 = stop x → workers x0 = workers x → main x0 = main x →
  (∀ e, e ∈ settleCh x → e ∈ settleCh x0) →
  results (set_worker i p x0).
Proof.
  intros [S T] Hw Hp Hs Hws Hm Hch. split; rw /set_worker /= ?Hs ?Hws ?Hm; [done|].
  intros Hcase Hn v e [j Hv]%list_elem_of_lookup Hph.
  destruct (lookup_phase _ _ _ _ _ Hv) as (v' & Hv' & _ & [[-> E]|[_ E]]); rw E in Hph.
  - left. by apply Hp.
  - destruct (T Hcase Hn v' e (list_elem_of_lookup_2 _ _ _ Hv') Hph) as [?|?]; [left; by apply Hch|by right].
Qed.

Lemma results_run l x x' :
  counters concurrency x → results x → run d concurrency l x = Some x' → results x'.
Proof.
  intros Hcount Hx. destruct l as [ctx| |i result runErr|i]; cbn [run].
  - by apply results_main.
  - by apply results_receive.
  - rw /run_returns. destruct (workers x !! i) as [w|] eqn:Hw; [|done]. simpl.
    destruct (w_phase w); try done. intros [= <-].
    destruct runErr; [|case_match]; by eapply (results_worker x).
  - rw /worker_step. destruct (workers x !! i) as [w|] eqn:Hw; [|done]. simpl.
    destruct (w_phase w) eqn:Hp; try done.
    + intros [= <-]. set (y := recordCanceledOutcome _ x).
      assert (stop y = stop x ∧ workers y = workers x ∧ main y = main x ∧ settleCh y = settleCh x)
        as (Hs & Hws & Hm & Hch) by (rw /y /recordCanceledOutcome; by destruct (canceledOutcome x); split_and!).
      eapply (results_worker x); [done..|]. intros e. by rw Hch.
    + pose proof (own_settle d (w_unit w) result (store x)) as [Hgone _].
      destruct (settle_step _ _ _ _) as [p s]. intros [= <-]. eapply (results_worker x); try done.
      intros e ->. by destruct (Hgone e).
    + pose proof (own_transition d (w_unit w) "completed" "" (store x)) as [Hgone _].
      destruct (settle_transition _ _ _ _ _) as [p s]. intros [= <-]. eapply (results_worker x); try done.
      intros e ->. by destruct (Hgone e).
    + pose proof (own_transition d (w_unit w) "blocked" reason (store x)) as [Hgone _].
      destruct (settle_transition _ _ _ _ _) as [p s]. intros [= <-]. eapply (results_worker x); try done.
      intros e ->. by destruct (Hgone e).
    + case_match; [done|]. intros [= <-]. eapply (results_worker x); try done.
      * intros e [= <-]. simpl. set_solver.
      * intros e He. simpl. set_solver.
Qed.

Context (Hbound : (1 ≤ concurrency)%Z).

Lemma reachable_results s x : reachable s x → results x.
Proof.
  intros Hr.
  apply (rtc_ind_r (R := sched_step d concurrency) results (start s)); [|..|exact Hr].
  - split; [done|]. by intros _ _ w e ?%elem_of_nil.
  - intros y z Hy Hstep IH. pose proof (reachable_counters d concurrency Hbound s y Hy) as Hc.
    destruct Hstep as [l Hl|(s' & -> & _)]; [by eapply results_run|by destruct IH].
Qed.

(** Nothing is under way: every worker is gone and the channel is empty. *)
Lemma total_zero x : total x = 0 → settleCh x = [] ∧ ∀ w, w ∈ workers x → ∃ e, w_phase w = PGone e.
Proof.
  rw /total. intros Ht. split; [apply nil_length_inv; lia|]. intros w Hw.
  destruct (w_phase w) as [| | | | | |e] eqn:Hp; [..|by exists e].
  all: assert (busy w = true) as Hb by by rw /busy /is_gone Hp.
  all: pose proof (count_if_pos busy _ w Hw Hb); lia.
Qed.

(** Return.  When the scheduler has returned, every worker it started has
    ended and every event was taken, so nothing it started is still at work.
    When it returns without an error every unit it dispatched is completed in
    the store. *)
Theorem return_is_settled s x result :
  reachable s x → main x = MDone result →
  active x = 0%Z ∧ settleCh x = [] ∧ (∀ w, w ∈ workers x → ∃ e, w_phase w = PGone e)
  ∧ (result = None → ∀ w, w ∈ workers x →
       status_in (tables (store x)) (TaskID_ d) (WorkUnitID (w_unit w)) = Some "completed"%string).
Proof.
  intros Hr Hmain. pose proof (reachable_counters d concurrency Hbound s x Hr) as Hc.
  pose proof (ct_main _ _ Hc) as Ht. rw /main_ok Hmain in Ht.
  destruct (total_zero x Ht) as [Hch Hgone]. split_and!; [|done|done|].
  - by rw (ct_active _ _ Hc) Ht.
  - intros -> w Hw. destruct (Hgone w Hw) as [e Hp].
    assert (stop x = None) as Hs by (apply (rs_stop _ (reachable_results s x Hr)); by rw Hmain).
    destruct (rs_taken _ (reachable_results s x Hr) (or_intror Hmain) Hs w e Hw Hp) as [He|Htells].
    { rw Hch in He. by apply elem_of_nil in He. }
    apply list_elem_of_lookup in Hw as [i Hw].
    eapply (du_done _ _ _ _ (reachable_durable s x Hr) i w e); [done|by rw Hp|done].
Qed.

(** C18: progress.  The scheduler never deadlocks: until it has returned, its
    main loop can go on, or a unit that runs can return, or a worker can take its
    next step. *)
Theorem scheduler_progress s x :
  reachable s x → (∃ result, main x = MDone result) ∨ ∃ l x', run d concurrency l x = Some x'.
Proof.
  intros Hr. pose proof (reachable_counters d concurrency Hbound s x Hr) as Hc.
  assert ((0 < total x)%nat → ∀ m, main x = m → (m = MSettle ∨ ∃ final, m = MDrain final) →
    ∃ l x', run d concurrency l x = Some x') as Hwait.
  { intros Hpos m Hm Hcase. destruct (settleCh x) as [|e rest] eqn:Hch.
    - assert (∃ i w, workers x !! i = Some w ∧ busy w = true) as (i & w & Hw & Hb).
      { rw /total Hch /= Nat.add_0_r in Hpos. by apply count_if_exists in Hpos. }
      rw /busy /is_gone in Hb. destruct (w_phase w) eqn:Hp; try done.
      + exists (LReturn i {| Outcome := ""; Reason := "" |} None). eexists.
        by rw /= /run_returns Hw /= Hp.
      + exists (LWorker i). eexists. by rw /= /worker_step Hw /= Hp.
      + exists (LWorker i). rw /= /worker_step Hw /= Hp. destruct (settle_step _ _ _ _). by eexists.
      + exists (LWorker i). rw /= /worker_step Hw /= Hp. destruct (settle_transition _ _ _ _ _). by eexists.
      + exists (LWorker i). rw /= /worker_step Hw /= Hp. destruct (settle_transition _ _ _ _ _). by eexists.
      + exists (LWorker i). rw /= /worker_step Hw /= Hp Hch. by eexists.
    - exists LReceive. rw /= /receive Hch. cbn zeta. change (main (x <| settleCh := rest |>)) with (main x).
      rw Hm. destruct Hcase as [->|[final ->]]; [by eexists|].
      change (active (x <| settleCh := rest |>)) with (active x). rw (ct_active _ _ Hc).
      destruct (Z.ltb_spec 0 (Z.of_nat (total x))); [by eexists|lia]. }
  destruct (main x) eqn:Hmain; try (right; exists (LMain None); rw /= /main_step Hmain; by eexists).
  - right. exists (LMain None). rw /= /main_step Hmain. destruct units; by eexists.
  - right. eapply Hwait; [|done|by left]. pose proof (ct_main _ _ Hc) as Hok. by rw /main_ok Hmain in Hok.
  - right. destruct (decide (total x = 0)) as [Hz|Hnz].
    + exists (LMain None). rw /= /main_step Hmain (ct_active _ _ Hc) Hz. by eexists.
    + eapply Hwait; [lia|done|]. right. by eexists.
  - left. by eexists.
Qed.
End theorems.
