(* ===== verification/UnitScenarios.v ===== *)
(** * Concrete work units

    A database that never fails, a plain encoding of texts, two units of a task
    and a run of the scheduler over them.  Every theorem on work units that has
    hypotheses is applied here to a run that satisfies them. *)

From Stdlib Require Import Ascii.
From stdpp Require Import relations pretty.
From S2P Require Import Prelude GoTime Text Cycles Database WorkUnits UnitLaws UnitReady Paths Driver Scheduler.
From S2P Require Import SchedulerLaws SchedulerStore.

Local Open Scope string_scope.
Local Open Scope runstead_scope.

#[local] Existing Instance canonical_order.

(** ** A database, an encoding and plans *)

#[local] Instance sound_disk : Disk := {| io := λ _, None; stamp := λ n, pretty n |}.

Fixpoint join_commas (l : list string) : string :=
  match l with [] => "]" | x :: l' => x +:+ "," +:+ join_commas l' end.

Fixpoint split_commas (cur s : string) : option (list string) :=
  match s with
  | "" => None
  | "]" => Some []
  | String ","%char s' => (cons cur) <$> split_commas "" s'
  | String a s' => split_commas (cur +:+ String a "") s'
  end.

(** The redactor knows one secret. *)
#[local] Instance plain_codec : Codec := {|
  Redact := λ s, if String.eqb s "use key sk-1" then "use key [REDACTED]" else s;
  Marshal := λ l, match l with None => "null" | Some l => "[" +:+ join_commas l end;
  Unmarshal := λ s, match s with
    | "null" => Some None
    | String "["%char s' => Some <$> split_commas "" s'
    | _ => None
    end;
  MarshalPayload := λ p, kind_of p;
  MarshalEffect := λ diff _ _, Some diff;
  UnmarshalPlan := λ s, Some (1%Z, [(s, "file_exists")]) |}.

#[local] Instance plain_plans : Plans := {| plan_digest := λ s, Some ("sha256:" +:+ s) |}.

Definition demo_driver : Driver := {|
  TaskID_ := "task"; AllowedTools := ["read_file"; "write_file"]; Concurrency := 2 |}.

Definition definition_named (id : string) (deps : list string) (tools : option (list string))
    (objective : string) : Definition_ := {|
  df_WorkUnitID := id; df_Objective := objective; df_ParentWorkUnitID := ""; df_Dependencies := deps;
  df_Tools := tools; df_WorkspaceScope := "src"; df_AcceptancePlan := "plan"; df_ContextBudget := 0;
  df_ProviderBudget := 0; df_StepBudget := 10 |}.

Definition reader : Definition_ := definition_named "a" [] (Some ["read_file"]) "read the tree".
Definition writer : Definition_ := definition_named "b" ["a"] (Some ["write_file"]) "write the report".

Definition demo_task : TaskRow := {|
  tk_objective := "report"; tk_status := "running"; tk_outcome := ""; tk_stop_reason := "";
  tk_workspace := "/w"; tk_model := "m"; tk_config_json := "{}"; tk_execution_contract_json := "";
  tk_execution_contract_hash := ""; tk_summary := ""; tk_created_at := ""; tk_started_at := "";
  tk_finished_at := ""; tk_resume_count := 0 |}.

Definition empty_store : Store := {|
  tables := {| tbl_tasks := <["task" := demo_task]> ∅; tbl_work_units := ∅; tbl_dependencies := [];
    tbl_events := []; tbl_actions := []; tbl_tool_attempts := []; tbl_tool_results := [];
    tbl_verifications := []; tbl_checks := []; tbl_decisions := []; tbl_approvals := [];
    tbl_acceptance_plans := ∅; tbl_workspace_baselines := ∅;
    tbl_provider_attempts := []; tbl_provider_receipts := []; tbl_governor := no_governor; tbl_identity_sequence := 0 |};
  calls := 0 |}.

Definition record_of (def : Definition_) : WorkUnitCreate := create_record demo_driver def "sha256:plan".

Definition store_a : Store := (CreateWorkUnit 10 (record_of reader) empty_store).2.
Definition store_ab : Store := (CreateWorkUnit 10 (record_of writer) store_a).2.

(** The operator's file lists the units in the other order. *)
Example ensure_both :
  EnsureDefinitions demo_driver 10 [writer; reader] empty_store = (ensured 2 0 None, (EnsureDefinitions demo_driver 10 [writer; reader] empty_store).2)
  ∧ (EnsureDefinitions demo_driver 10 [writer; reader] empty_store).2.(tables).(tbl_dependencies) = [("b", "a")]
  ∧ (EnsureDefinitions demo_driver 10 [writer; reader] store_ab).1 = ensured 0 2 None.
Proof. by vm_compute. Qed.

(** A batch whose second definition drifted: the call reports that nothing was
    created, but the first unit is stored. *)
Example drift_after_creation :
  let r := EnsureDefinitions demo_driver 10
             [definition_named "0" [] None "prepare"; definition_named "a" ["0"] None "read the tree"] store_a in
  r.1 = ensured 0 0 (Some (ErrWorkUnitDefinitionDrift "tool envelope changed"))
  ∧ has_unit (tables store_a) "task" "0" = false ∧ has_unit (tables r.2) "task" "0" = true.
Proof. by vm_compute. Qed.

(** ** Cycles *)

Definition loop_edges : Edges := <["a" := ["b"]]> (<["b" := ["a"]]> ∅).

Lemma findWorkUnitCycle_spec_witness :
  findWorkUnitCycle 10 loop_edges = Some "b -> a" ∧
  (("b -> a" = "" ∧ acyclic loop_edges) ∨
   ∃ x y, "b -> a" = (x +:+ " -> " +:+ y) ∧ requires loop_edges x y ∧ rtc (requires loop_edges) y x).
Proof. split; [by vm_compute|]. apply (findWorkUnitCycle_spec 10). by vm_compute. Defined.


Lemma find_cycle_endless_witness :
  acyclic (<["a" := ["b"; "b"]]> ∅) ∧ findWorkUnitCycle 50 (<["a" := ["b"; "b"]]> ∅) = None.
Proof. apply (find_cycle_endless "a" "b" "c" 50); first [done|by vm_compute]. Defined.

Definition pair_edges : Edges := <["b" := ["a"]]> ∅.

Lemma find_cycle_ends_witness : is_Some (findWorkUnitCycle 4 pair_edges).
Proof.
  apply find_cycle_ends; [|by vm_compute]. split.
  - intros x. rw /pair_edges. destruct (decide (x = "b")) as [->|Hne]; [apply NoDup_singleton|].
    rw lookup_insert_ne //. apply NoDup_nil_2.
  - intros x y z. rw /pair_edges /requires. destruct (decide (x = "b")) as [->|Hx];
      [|rw lookup_insert_ne //; by intros ?%elem_of_nil].
    destruct (decide (y = "b")) as [->|Hy]; [done|]. rw (lookup_insert_ne _ _ y) //. by intros _ ?%elem_of_nil.
Defined.

(** ** Histories of the store *)

Lemma history_ab : rtc (store_step plain_parent) empty_store store_ab.
Proof.
  eapply rtc_l; [by eapply (StepCreate _ _ store_a 10 (record_of reader))|].
  apply rtc_once. by eapply (StepCreate _ _ store_ab 10 (record_of writer)).
Qed.

Lemma linked_ab : linked (tables store_a) ∧ linked (tables store_ab).
Proof.
  assert (linked (tables store_a)) as Ha.
  { eapply store_step_linked; [by eapply (StepCreate _ _ store_a 10 (record_of reader))|].
    by apply linked_empty. }
  split; [done|]. eapply store_step_linked; [|exact Ha].
  by eapply (StepCreate _ _ store_ab 10 (record_of writer)).
Qed.

Definition transition (id from to : string) (s : Store) : Store :=
  (TransitionWorkUnit "task" id from to "" s).2.

(** Unit [a] runs and completes; then [b] does. *)
Definition store_a_done : Store :=
  transition "a" "running" "completed" (transition "a" "ready" "running" (transition "a" "created" "ready" store_ab)).
Definition store_done : Store :=
  transition "b" "running" "completed" (transition "b" "ready" "running" (transition "b" "created" "ready" store_a_done)).

Definition status_row (s : Store) (id : string) : option string := row_status <$> tbl_work_units (tables s) !! id.

Lemma history_transition id from to s0 s :
  rtc (store_step plain_parent) s0 s → rtc (store_step plain_parent) s0 (transition id from to s).
Proof. intros H. eapply rtc_r; [exact H|]. by eapply StepTransition. Qed.

Lemma lifecycle_respected_witness :
  ∃ row row', tbl_work_units (tables store_ab) !! "a" = Some row
    ∧ tbl_work_units (tables store_a_done) !! "a" = Some row'
    ∧ definition_of row' = definition_of row ∧ row_status row = "created" ∧ row_status row' = "completed".
Proof.
  destruct (tbl_work_units (tables store_ab) !! "a") as [row|] eqn:E; [|by vm_compute in E].
  destruct (lifecycle_respected plain_parent store_ab store_a_done "a" row) as (row' & H' & Hdef & _).
  { by do 3 apply history_transition. }
  { exact E. }
  exists row, row'. split_and!; [done|done|done| |].
  - assert (status_row store_ab "a" = Some "created") as H by by vm_compute. rw /status_row E in H. by injection H.
  - assert (status_row store_a_done "a" = Some "completed") as H by by vm_compute.
    rw /status_row H' in H. by injection H.
Defined.

Lemma ReadyWorkUnits_spec_witness :
  ∃ units s', ReadyWorkUnits "task" store_ab = (inr units, s') ∧ WorkUnitID <$> units = ["a"]
    ∧ tables s' = tables store_ab
    ∧ ∀ id, id ∈ (WorkUnitID <$> units) ↔ ∃ row, ready_in (tables store_ab) "task" id row.
Proof.
  destruct (ReadyWorkUnits "task" store_ab) as [[e|units] s'] eqn:E.
  { exfalso. assert (match (ReadyWorkUnits "task" store_ab).1 with inl _ => false | _ => true end = true) as H
      by by vm_compute. by rw E in H. }
  destruct (ReadyWorkUnits_spec _ _ _ _ E) as (Ht & Hids & _). exists units, s'. split_and!; [done| |done|done].
  assert (match (ReadyWorkUnits "task" store_ab).1 with inl _ => [] | inr units => WorkUnitID <$> units end = ["a"]) as H
    by by vm_compute. by rw E in H.
Defined.

Lemma work_goes_on_witness : open_rows (tables store_done) "task" = [].
Proof.
  eapply (work_goes_on empty_store store_done "task" (ReadyWorkUnits "task" store_done).2); [done|done| |by vm_compute|].
  - do 6 apply history_transition. apply history_ab.
  - assert (∀ id row, unit_row (tables store_done) "task" id = Some row → row_status row = "completed") as Hall.
    { intros id row H. assert (Forall (λ p, row_status p.2 = "completed") (task_rows (tables store_done) "task")) as Hf
        by (vm_compute; repeat constructor).
      apply elem_of_task_rows in H. exact (proj1 (Forall_forall _ _) Hf _ H). }
    intros id row ->%Hall Hin. repeat (apply elem_of_cons in Hin as [?|Hin]; [done|]). by apply elem_of_nil in Hin.
Defined.

(** ** Re-supply *)

Lemma resupply_spec_witness :
  ∃ u, (GetWorkUnit "task" "a" store_a_done).1 = inr u
    ∧ (ensureIdenticalDefinition u reader "sha256:plan" = None ↔ left_alone reader "sha256:plan").
Proof.
  destruct (GetWorkUnit "task" "a" store_a_done) as [[e|u] s3] eqn:E.
  { exfalso. assert (match (GetWorkUnit "task" "a" store_a_done).1 with inl _ => false | _ => true end = true) as H
      by by vm_compute. by rw E in H. }
  exists u. split; [done|].
  eapply (resupply_spec demo_driver 10 reader "sha256:plan" "a" empty_store store_a store_a_done);
    [by apply linked_empty|by vm_compute| |exact E|by vm_compute].
  eapply (history_evolves plain_parent).
  do 3 apply history_transition. apply rtc_once. by eapply (StepCreate _ _ store_ab 10 (record_of writer)).
Defined.

(** A definition with a secret in its objective, and the unit it left behind. *)
Definition keyed : Definition_ := definition_named "k" [] None "use key sk-1".

Example secret_is_drift :
  let s := (EnsureDefinitions demo_driver 10 [keyed] empty_store).2 in
  (EnsureDefinitions demo_driver 10 [keyed] s).1
  = ensured 0 0 (Some (ErrWorkUnitDefinitionDrift "objective changed")).
Proof. by vm_compute. Qed.

(** ** A run of the scheduler *)

(** The driver's moves, and a verification that the run of a unit records. *)
Inductive move := Do (l : label) | Verify (id decision : string).

Definition runs_now (x : Sched) (id : string) : bool :=
  existsb (λ w, match w_phase w with PRun => String.eqb (WorkUnitID (w_unit w)) id | _ => false end) (workers x).

Definition verified (id decision : string) (t : Tables) : Tables :=
  t <| tbl_verifications ::= λ vs, (vs ++ [{| va_attempt_id := pretty (length vs); va_task_id := "task"; va_work_unit_id := id;
    va_report_json := "{}"; va_summary := ""; va_created_at := ""; va_sequence := Z.of_nat (length vs); va_decision := decision |}])%list |>.

Definition do_move (m : move) (x : Sched) : option Sched :=
  match m with
  | Do l => run demo_driver 2 l x
  | Verify id decision =>
    if runs_now x id then Some (x <| store ::= λ s, s <| tables ::= verified id decision |> |>) else None
  end.

Definition do_moves (ms : list move) (x : Sched) : option Sched :=
  foldl (λ x m, x ← x; do_move m x) (Some x) ms.

Lemma do_move_step m x x' : do_move m x = Some x' → sched_step demo_driver 2 x x'.
Proof.
  destruct m as [l|id decision]; simpl; [by apply StepLabel|].
  destruct (runs_now x id) eqn:Hruns; [|done]. intros [= <-]. apply StepOutside.
  eexists. split_and!; [done|done|done|]. intros id' Hnot.
  assert (id ≠ id') as Hne.
  { intros <-. apply Hnot. apply existsb_exists in Hruns as (w & Hw & Hp). exists w.
    split; [by apply list_elem_of_In|]. destruct (w_phase w); try done. split; [done|by apply String.eqb_eq]. }
  simpl. rw /latest_decision /verified /= filter_app filter_cons_False; [by intros [_ ?]|].
  by rw filter_nil app_nil_r.
Qed.

Lemma do_moves_steps ms x x' : do_moves ms x = Some x' → rtc (sched_step demo_driver 2) x x'.
Proof.
  revert x. induction ms as [|m ms IH]; intros x; rw /do_moves /=; [by intros [= <-]|].
  destruct (do_move m x) as [x1|] eqn:E.
  - intros H. eapply rtc_l; [by eapply do_move_step|by apply IH].
  - clear. intros H. exfalso. move: H. by induction ms.
Qed.

Definition mains (n : nat) : list move := replicate n (Do (LMain None)).
Definition completes (i : nat) (id : string) : list move :=
  [Verify id "passed"; Do (LReturn i {| Outcome := "completed"; Reason := "" |} None);
   Do (LWorker i); Do (LWorker i); Do (LWorker i)].

(** Unit [a] has run and was taken; unit [b] runs, alone. *)
Definition moves_mid : list move :=
  (mains 9 ++ completes 0 "a" ++ mains 9 ++ [Do LReceive] ++ mains 8)%list.
(** Unit [b] has run too and the scheduler has returned. *)
Definition moves_end : list move :=
  (moves_mid ++ completes 1 "b" ++ mains 8 ++ [Do LReceive] ++ mains 8)%list.

Definition state_after (ms : list move) : Sched := default (start store_ab) (do_moves ms (start store_ab)).

Lemma state_after_reached ms :
  match do_moves ms (start store_ab) with Some _ => true | None => false end = true →
  rtc (sched_step demo_driver 2) (start store_ab) (state_after ms).
Proof.
  rw /state_after. destruct (do_moves ms (start store_ab)) eqn:E; [|done]. intros _. by eapply do_moves_steps.
Qed.

Lemma reached_mid : rtc (sched_step demo_driver 2) (start store_ab) (state_after moves_mid).
Proof. apply state_after_reached. by vm_compute. Qed.

Lemma reached_end : rtc (sched_step demo_driver 2) (start store_ab) (state_after moves_end).
Proof. apply state_after_reached. by vm_compute. Qed.

(** The worker of the exclusive unit. *)
Definition worker_mid : Worker :=
  default {| w_unit := {| WorkUnitID := ""; TaskID := ""; ParentWorkUnitID := ""; Objective := ""; Status := "";
      Tools := None; WorkspaceScope := ""; AcceptancePlanSpec := ""; AcceptanceDigest := "";
      ContextBudget := 0; ProviderBudget := 0; StepBudget := 0; EvidenceRefs := None; FailureReason := "";
      BlockingReason := ""; Version := 0; CreatedAt := ""; UpdatedAt := ""; Dependencies := [] |};
    w_phase := PRun |} (workers (state_after moves_mid) !! 1).

Lemma lanes_respected_witness :
  busy worker_mid = true ∧ exclusive (w_unit worker_mid) = true
  ∧ ∀ j v, workers (state_after moves_mid) !! j = Some v → busy v = true → j = 1.
Proof.
  split_and!; [by vm_compute|by vm_compute|].
  apply (proj2 (lanes_respected demo_driver 2 ltac:(lia) store_ab (state_after moves_mid) reached_mid) 1 worker_mid);
    by vm_compute.
Defined.

Lemma runs_are_durable_witness :
  status_in (tables (store (state_after moves_mid))) "task" "b" = Some "running".
Proof.
  apply (runs_are_durable demo_driver 2 store_ab (state_after moves_mid) 1 worker_mid reached_mid); by vm_compute.
Defined.

Lemma completion_is_verified_witness :
  latest_decision (tables (store (state_after moves_end))) "task" "b" = Some "passed".
Proof.
  destruct (completion_is_verified demo_driver 2 store_ab (state_after moves_end) "b" reached_end) as [H|H];
    [by vm_compute| |exact H].
  by vm_compute in H.
Defined.

Lemma return_is_settled_witness :
  main (state_after moves_end) = MDone None
  ∧ ∀ w, w ∈ workers (state_after moves_end) →
      status_in (tables (store (state_after moves_end))) "task" (WorkUnitID (w_unit w)) = Some "completed".
Proof.
  assert (main (state_after moves_end) = MDone None) as Hm by by vm_compute.
  split; [exact Hm|].
  apply (return_is_settled demo_driver 2 ltac:(lia) store_ab (state_after moves_end) None reached_end Hm). done.
Defined.

Lemma scheduler_progress_witness : ∃ l x', run demo_driver 2 l (state_after moves_mid) = Some x'.
Proof.
  destruct (scheduler_progress demo_driver 2 ltac:(lia) store_ab (state_after moves_mid) reached_mid)
    as [[result H]|H]; [|exact H].
  exfalso. by vm_compute in H.
Defined.
