(* ===== verification/Actions.v ===== *)
(** * Durable actions, attempts, approvals and tasks

    The transactions around one effect and around the end of a task:
    internal/state/actions.go, tool_attempts.go, write_policy.go,
    approval_flow.go, tasks.go and verification.go. *)

From stdpp Require Import pretty.
From S2P Require Import Prelude GoTime Text Cycles Database WorkUnits.

Local Open Scope runstead_scope.

(** ** Records *)

Record ActionRecord := {
  ar_TaskID : string;
  ar_WorkUnitID : string;
  ar_Tool : string;
  ar_Arguments : string;
  ar_Fingerprint : string;
  ar_RecipeFingerprint : string;
  ar_WorkspaceSignature : string
}.

Record PlannedEffect := { pe_Diff : string; pe_DiffBytes : Z; pe_DiffTruncated : bool }.

Record ToolAttemptPrepared := {
  tp_TaskID : string;
  tp_WorkUnitID : string;
  tp_ActionID : string;
  tp_Tool : string;
  tp_Arguments : string;
  tp_RecoveryClass : Z;
  tp_EffectAfterHash : string;
  tp_PlannedEffect : PlannedEffect;
  tp_ProcessIntent : string
}.

(** A tool observation; data and metadata are kept as their JSON text, [None]
    when they cannot be encoded. *)
Record Observation := {
  ob_ID : string;
  ob_Tool : string;
  ob_Success : bool;
  ob_Failure : option string;
  ob_Untrusted : bool;
  ob_Data : option string;
  ob_Metadata : option string;
  (** the exit code when the data are evidence of a recipe *)
  ob_ExitCode : option Z
}.

Record ToolAttemptCompleted := {
  tc_TaskID : string;
  tc_ExecutionID : string;
  tc_Status : string;
  tc_Classification : string;
  tc_EvidenceID : string;
  tc_DurationNanos : Z;
  tc_Observation : Observation
}.

Record WritePolicyDecision := {
  pd_TaskID : string; pd_ActionID : string; pd_Tool : string; pd_Decision : string; pd_Reason : string }.

Record RecipePolicyDecision := {
  rd_TaskID : string; rd_ActionID : string; rd_Recipe : string; rd_Decision : string; rd_Reason : string }.

Record Approval := {
  av_ApprovalID : string;
  av_TaskID : string;
  av_ActionID : string;
  av_Fingerprint : string;
  av_Decision : string;
  av_Reason : string;
  av_Actor : string
}.

Record PendingApproval := { pa_ActionID : string; pa_Tool : string; pa_Fingerprint : string }.

Record TaskFinalize := {
  tf_TaskID : string;
  tf_Outcome : string;
  tf_StopReason : string;
  tf_Summary : string;
  tf_Classification : string;
  tf_Evidence : option (list string);
  (** turns, attempts, observations, corrections, repeated, mixed prose *)
  tf_Counters : list Z
}.

Record VerificationCheckRecord := {
  cr_CheckID : string; cr_Type : string; cr_Status : string; cr_Expected : string;
  cr_Observed : string; cr_Evidence : option (list string); cr_Reason : string }.

Record VerificationAttemptRecord := {
  vr_TaskID : string;
  vr_WorkUnitID : string;
  vr_Decision : string;
  vr_Summary : string;
  vr_ReportJSON : string;
  vr_Checks : list VerificationCheckRecord
}.

(** [fmt.Sprintf("%s-%06d", prefix, n)]. *)
Definition identity (prefix : string) (n : Z) : string :=
  let digits := pretty n in
  prefix +:+ "-" +:+ String.concat "" (repeat "0"%string (6 - String.length digits)) +:+ digits.

Example identity_example : identity "exec" 42 = "exec-000042"%string.
Proof. by vm_compute. Qed.

Section store.
Context `{Disk} `{Codec}.

(** ** Statements *)

Definition nextIdentity (prefix : string) : DB string :=
  statement (λ t, let next := (tbl_identity_sequence t + 1)%Z in
    inr (identity prefix next, t <| tbl_identity_sequence := next |>)).

(** The largest value, or zero, plus one. *)
Definition next_of (values : list Z) : Z := foldr Z.max 0%Z values + 1.

(** [INSERT] of a row that satisfies the constraints of its table. *)
Definition insert_row (table : string) (ok : Tables → bool) (f : Tables → Tables) : DB unit :=
  statement (λ t, if ok t then inr (tt, f t) else inl (ErrConstraint table)).

(** [UPDATE ... SET ... WHERE]: the number of rows selected. *)
Definition selected {A} (p : A → bool) (rows : list A) : nat := length (List.filter p rows).
Definition updated {A} (p : A → bool) (f : A → A) (rows : list A) : list A :=
  (λ row, if p row then f row else row) <$> rows.

Definition has_action (t : Tables) (actionID : string) : bool :=
  existsb (λ a, String.eqb (ac_action_id a) actionID) (tbl_actions t).
Definition has_execution (t : Tables) (executionID : string) : bool :=
  existsb (λ a, String.eqb (ta_execution_id a) executionID) (tbl_tool_attempts t).

Definition insert_action (row : ActionRow) : DB unit :=
  insert_row "actions" (λ t, has_task t (ac_task_id row) && negb (has_action t (ac_action_id row))
      && negb (existsb (λ a, String.eqb (ac_task_id a) (ac_task_id row)
                             && (ac_action_sequence a =? ac_action_sequence row)%Z) (tbl_actions t)))
    (λ t, t <| tbl_actions ::= λ rows, rows ++ [row] |>).

Definition update_actions (p : ActionRow → bool) (f : ActionRow → ActionRow) : DB nat :=
  statement (λ t, inr (selected p (tbl_actions t), t <| tbl_actions ::= updated p f |>)).

Definition insert_attempt (row : ToolAttemptRow) : DB unit :=
  insert_row "tool_attempts" (λ t, has_task t (ta_task_id row) && has_action t (ta_action_id row)
      && negb (has_execution t (ta_execution_id row)))
    (λ t, t <| tbl_tool_attempts ::= λ rows, rows ++ [row] |>).

(** The statuses the schema admits for a tool attempt. *)
Definition attempt_status (status : string) : bool :=
  bool_decide (status ∈ ["planned"; "prepared"; "running"; "observed"; "verified"; "completed"; "failed";
    "uncertain"; "verification_failed"; "reconciled"; "canceled"; "human_review_required"]%string).

(** The update sets the status, so it fails when a row would get a status the
    schema does not admit. *)
Definition update_attempts (status : string) (p : ToolAttemptRow → bool) (f : ToolAttemptRow → ToolAttemptRow)
    : DB nat :=
  statement (λ t,
    if Nat.eqb (selected p (tbl_tool_attempts t)) 0 || attempt_status status
    then inr (selected p (tbl_tool_attempts t), t <| tbl_tool_attempts ::= updated p f |>)
    else inl (ErrConstraint "tool_attempts")).

Definition insert_result (row : ToolResultRow) : DB unit :=
  insert_row "tool_results" (λ t, has_task t (tr_task_id row) && has_execution t (tr_execution_id row)
      && negb (existsb (λ r, String.eqb (tr_task_id r) (tr_task_id row)
                             && String.eqb (tr_evidence_id r) (tr_evidence_id row)) (tbl_tool_results t)))
    (λ t, t <| tbl_tool_results ::= λ rows, rows ++ [row] |>).

Definition insert_decision (row : DecisionRow) : DB unit :=
  insert_row "write_policy_decisions" (λ t, has_task t (wd_task_id row))
    (λ t, t <| tbl_decisions ::= λ rows, rows ++ [row] |>).

(** [UPDATE tasks ... WHERE task_id = ?], with a test of the status. *)
Definition update_task (taskID : string) (p : string → bool) (f : TaskRow → TaskRow) : DB nat :=
  statement (λ t, inr (
    match tbl_tasks t !! taskID with
    | Some row => if p (tk_status row) then (1%nat, t <| tbl_tasks ::= insert taskID (f row) |>) else (O, t)
    | None => (O, t)
    end)).

(** ** Actions *)

Definition action_row (record : ActionRecord) (id : string) (sequence : Z) (now : string) : ActionRow := {|
  ac_action_id := id;
  ac_task_id := ar_TaskID record;
  ac_work_unit_id := Redact (ar_WorkUnitID record);
  ac_action_sequence := sequence;
  ac_tool := Redact (ar_Tool record);
  ac_arguments_json := RedactJSON (ar_Arguments record);
  ac_fingerprint := Redact (ar_Fingerprint record);
  ac_recipe_fingerprint := Redact (ar_RecipeFingerprint record);
  ac_workspace_signature := Redact (ar_WorkspaceSignature record);
  ac_status := "planned";
  ac_created_at := now |}.

Definition RecordAction (record : ActionRecord) : DB string :=
  createdAt ←? now;
  transaction (
    actionID ←? nextIdentity "action";
    sequence ←? query (λ t, next_of (ac_action_sequence <$>
      filter (λ a, ac_task_id a = ar_TaskID record) (tbl_actions t)));
    _ ←? insert_action (action_row record actionID sequence createdAt);
    _ ←? appendEvent (ar_TaskID record) (ActionPlanned actionID (ar_Tool record)) createdAt;
    return_ actionID).

Definition is_action (taskID actionID status : string) (a : ActionRow) : bool :=
  String.eqb (ac_action_id a) actionID && String.eqb (ac_task_id a) taskID
  && String.eqb (ac_status a) status.

Definition RejectAction (taskID actionID reason : string) : DB unit :=
  at_ ←? now;
  transaction (
    n ←? update_actions (is_action taskID actionID "planned") (λ a, a <| ac_status := "rejected" |>);
    _ ←? assert_ (negb (Nat.eqb n 0)) (ErrNotFound "action" actionID);
    appendEvent taskID (ActionRejected actionID (Redact reason)) at_).

(** ** Attempts *)

Definition marshalPlannedEffect (e : PlannedEffect) : string :=
  if String.eqb (pe_Diff e) "" && (pe_DiffBytes e =? 0)%Z && negb (pe_DiffTruncated e) then ""
  else default ""%string (MarshalEffect (pe_Diff e) (pe_DiffBytes e) (pe_DiffTruncated e)).

Definition attempt_row (record : ToolAttemptPrepared) (id now : string) : ToolAttemptRow := {|
  ta_execution_id := id;
  ta_task_id := tp_TaskID record;
  ta_work_unit_id := Redact (tp_WorkUnitID record);
  ta_action_id := tp_ActionID record;
  ta_tool := Redact (tp_Tool record);
  ta_arguments_json := RedactJSON (tp_Arguments record);
  ta_status := "prepared";
  ta_classification := "";
  ta_recovery_class :=
    (if (tp_RecoveryClass record <? 1) || (4 <? tp_RecoveryClass record) then 1 else tp_RecoveryClass record)%Z;
  ta_evidence_id := "";
  ta_duration_ns := 0;
  ta_effect_after_hash := tp_EffectAfterHash record;
  ta_planned_diff_json := RedactJSON (marshalPlannedEffect (tp_PlannedEffect record));
  ta_process_intent_json := RedactJSON (tp_ProcessIntent record);
  ta_created_at := now;
  ta_prepared_at := now;
  ta_completed_at := "";
  ta_recovery_reason := "" |}.

Definition PrepareToolAttempt (record : ToolAttemptPrepared) : DB string :=
  at_ ←? now;
  transaction (
    executionID ←? nextIdentity "exec";
    _ ←? insert_attempt (attempt_row record executionID at_);
    _ ←? update_actions (is_action (tp_TaskID record) (tp_ActionID record) "planned")
           (λ a, a <| ac_status := "prepared" |>);
    _ ←? appendEvent (tp_TaskID record) (AttemptPrepared executionID (tp_ActionID record) (tp_Tool record)
           (tp_EffectAfterHash record)) at_;
    return_ executionID).

Definition is_attempt (taskID executionID : string) (a : ToolAttemptRow) : bool :=
  String.eqb (ta_execution_id a) executionID && String.eqb (ta_task_id a) taskID.

(** The action of the attempt: the sub-select of the update. *)
Definition action_of (t : Tables) (executionID : string) : option string :=
  ta_action_id <$> List.find (λ a, String.eqb (ta_execution_id a) executionID) (tbl_tool_attempts t).

Definition result_row (record : ToolAttemptCompleted) (data metadata now : string) : ToolResultRow := {|
  tr_evidence_id := tc_EvidenceID record;
  tr_task_id := tc_TaskID record;
  tr_execution_id := tc_ExecutionID record;
  tr_success := true;
  tr_untrusted := ob_Untrusted (tc_Observation record);
  tr_data_json := RedactJSON data;
  tr_metadata_json := RedactJSON metadata;
  tr_created_at := now |}.

Definition effective_status (record : ToolAttemptCompleted) : string :=
  if String.eqb (tc_Status record) "" then "completed" else tc_Status record.

Definition CompleteToolAttempt (record : ToolAttemptCompleted) : DB unit :=
  at_ ←? now;
  let status := effective_status record in
  let observation := tc_Observation record in
  transaction (
    n ←? update_attempts status (is_attempt (tc_TaskID record) (tc_ExecutionID record)) (λ a,
           a <| ta_status := status |> <| ta_classification := Redact (tc_Classification record) |>
             <| ta_evidence_id := tc_EvidenceID record |> <| ta_duration_ns := tc_DurationNanos record |>
             <| ta_completed_at := at_ |>);
    _ ←? assert_ (negb (Nat.eqb n 0)) (ErrNotFound "execution" (tc_ExecutionID record));
    action ←? query (λ t, action_of t (tc_ExecutionID record));
    _ ←? update_actions (λ a, bool_decide (action = Some (ac_action_id a))
             && String.eqb (ac_status a) "prepared")
           (λ a, a <| ac_status := if String.eqb status "completed" then "completed" else "failed" |>);
    _ ←? (if String.eqb status "completed" && ob_Success observation
              && negb (String.eqb (tc_EvidenceID record) "")
          then match ob_Data observation, ob_Metadata observation with
               | Some data, Some metadata => insert_result (result_row record data metadata at_)
               | _, _ => fail (ErrDecode "observation")
               end
          else return_ tt);
    appendEvent (tc_TaskID record) (AttemptOutcome (tc_ExecutionID record) status
      (tc_Classification record) (tc_EvidenceID record) (tc_DurationNanos record)) at_).

(** ** Decisions and approvals *)

Definition RecordWritePolicyDecision (record : WritePolicyDecision) : DB unit :=
  at_ ←? now;
  transaction (
    _ ←? insert_decision {| wd_task_id := pd_TaskID record; wd_action_id := Redact (pd_ActionID record);
           wd_tool := Redact (pd_Tool record); wd_decision := Redact (pd_Decision record);
           wd_reason := Redact (pd_Reason record); wd_created_at := at_ |};
    appendEvent (pd_TaskID record) (WritePolicyDecided (pd_ActionID record) (pd_Tool record)
      (pd_Decision record) (pd_Reason record)) at_).

Definition RecordRecipePolicyDecision (record : RecipePolicyDecision) : DB unit :=
  at_ ←? now;
  transaction (
    _ ←? insert_decision {| wd_task_id := rd_TaskID record; wd_action_id := Redact (rd_ActionID record);
           wd_tool := "run_recipe"; wd_decision := Redact (rd_Decision record);
           wd_reason := Redact (rd_Reason record); wd_created_at := at_ |};
    appendEvent (rd_TaskID record) (RecipePolicyDecided (rd_ActionID record) (rd_Recipe record)
      (rd_Decision record) (rd_Reason record)) at_).

(** The approval identity of an action of the task. *)
Definition fingerprint_of (t : Tables) (taskID actionID : string) : option string :=
  effectiveFingerprintExpr <$> List.find (λ a,
    String.eqb (ac_task_id a) taskID && String.eqb (ac_action_id a) actionID) (tbl_actions t).

Definition approval_row (record : Approval) (fingerprint now : string) : ApprovalRow := {|
  ap_approval_id := "approval-" +:+ av_TaskID record +:+ "-" +:+ fingerprint;
  ap_task_id := av_TaskID record;
  ap_action_id := Redact (av_ActionID record);
  ap_fingerprint := Redact fingerprint;
  ap_decision := Redact (av_Decision record);
  ap_reason := Redact (av_Reason record);
  ap_actor := Redact (if String.eqb (av_Actor record) "" then "operator" else av_Actor record);
  ap_created_at := now |}.

Definition is_approval (taskID fingerprint : string) (a : ApprovalRow) : bool :=
  String.eqb (ap_task_id a) taskID && String.eqb (ap_fingerprint a) fingerprint.

(** [INSERT ... ON CONFLICT (task_id, fingerprint) DO UPDATE]: the row keeps its
    identifier. *)
Definition upsert_approval (row : ApprovalRow) : DB unit :=
  let conflict := is_approval (ap_task_id row) (ap_fingerprint row) in
  insert_row "approvals" (λ t, has_task t (ap_task_id row)
      && (String.eqb (ap_decision row) "approved" || String.eqb (ap_decision row) "rejected")
      && (existsb conflict (tbl_approvals t)
          || negb (existsb (λ a, String.eqb (ap_approval_id a) (ap_approval_id row)) (tbl_approvals t))))
    (λ t, t <| tbl_approvals ::= λ rows,
      if existsb conflict rows then
        updated conflict (λ old, {| ap_approval_id := ap_approval_id old; ap_task_id := ap_task_id old;
          ap_action_id := ap_action_id row; ap_fingerprint := ap_fingerprint old;
          ap_decision := ap_decision row; ap_reason := ap_reason row; ap_actor := ap_actor row;
          ap_created_at := ap_created_at row |}) rows
      else rows ++ [row] |>).

Definition RecordApproval (record : Approval) : DB string :=
  at_ ←? now;
  transaction (
    found ←? query (λ t, fingerprint_of t (av_TaskID record) (av_ActionID record));
    match found with
    | None => fail (ErrNotFound "action" (av_ActionID record))
    | Some fingerprint =>
      _ ←? assert_ (negb (String.eqb fingerprint "")) (ErrInvalidRecord "action has no fingerprint");
      let row := approval_row record fingerprint at_ in
      _ ←? upsert_approval row;
      _ ←? appendEvent (av_TaskID record) (ApprovalRecorded (av_ActionID record) fingerprint
             (av_Decision record) (av_Reason record)
             (if String.eqb (av_Actor record) "" then "operator" else av_Actor record)) at_;
      return_ ("approval-" +:+ av_TaskID record +:+ "-" +:+ fingerprint)%string
    end).

Definition approval_at (t : Tables) (taskID fingerprint : string) : option ApprovalRow :=
  List.find (is_approval taskID fingerprint) (tbl_approvals t).

(** [Store.Approval]: [None] when there is no row. *)
Definition Approval_ (taskID fingerprint : string) : DB (option ApprovalRow) :=
  query (λ t, approval_at t taskID fingerprint).

(** The pending pairs in the order of the decisions. *)
Definition pending_rows (t : Tables) (taskID : string) : list PendingApproval :=
  flat_map (λ d, omap (λ a,
    if String.eqb (wd_task_id d) taskID && String.eqb (ac_task_id a) (wd_task_id d)
       && String.eqb (ac_action_id a) (wd_action_id d) && String.eqb (wd_decision d) "approval_required"
       && negb (approved t (wd_task_id d) (effectiveFingerprintExpr a))
    then Some {| pa_ActionID := wd_action_id d; pa_Tool := ac_tool a; pa_Fingerprint := ac_fingerprint a |}
    else None) (tbl_actions t)) (tbl_decisions t).

Definition PendingApprovals (taskID : string) : DB (list PendingApproval) :=
  query (λ t, pending_rows t taskID).

Definition HasPendingApprovals (taskID : string) : DB bool :=
  pending ←? PendingApprovals taskID;
  return_ (Nat.ltb 0 (length pending)).

(** ** Verification *)

Definition attempt_sequence (t : Tables) (taskID : string) : Z :=
  next_of (va_sequence <$> filter (λ v, va_task_id v = taskID) (tbl_verifications t)).

Definition verification_row (record : VerificationAttemptRecord) (id : string) (sequence : Z) (now : string)
    : VerificationRow := {|
  va_attempt_id := id;
  va_task_id := vr_TaskID record;
  va_work_unit_id := Redact (vr_WorkUnitID record);
  va_sequence := sequence;
  va_decision := Redact (vr_Decision record);
  va_report_json := RedactJSON (vr_ReportJSON record);
  va_summary := Redact (vr_Summary record);
  va_created_at := now |}.

(** The decisions, and the statuses of checks, that the schema admits. *)
Definition verdict (s : string) : bool :=
  bool_decide (s ∈ ["passed"; "failed"; "blocked"; "uncertain"]%string).

Definition insert_verification (row : VerificationRow) : DB unit :=
  insert_row "verification_attempts" (λ t, has_task t (va_task_id row) && verdict (va_decision row)
      && negb (existsb (λ v, String.eqb (va_attempt_id v) (va_attempt_id row)) (tbl_verifications t))
      && negb (existsb (λ v, String.eqb (va_task_id v) (va_task_id row) && (va_sequence v =? va_sequence row)%Z)
                 (tbl_verifications t)))
    (λ t, t <| tbl_verifications ::= λ rows, rows ++ [row] |>).

Definition check_row (record : VerificationAttemptRecord) (attemptID now : string)
    (check : VerificationCheckRecord) : CheckRow := {|
  vc_task_id := vr_TaskID record; vc_attempt_id := attemptID; vc_check_id := Redact (cr_CheckID check);
  vc_type := Redact (cr_Type check); vc_status := Redact (cr_Status check);
  vc_expected := Redact (cr_Expected check); vc_observed := Redact (cr_Observed check);
  vc_evidence_json := RedactJSON (Marshal (cr_Evidence check)); vc_reason := Redact (cr_Reason check);
  vc_created_at := now |}.

Definition insert_check (row : CheckRow) : DB unit :=
  insert_row "verification_checks" (λ t, has_task t (vc_task_id row) && verdict (vc_status row)
      && existsb (λ v, String.eqb (va_attempt_id v) (vc_attempt_id row)) (tbl_verifications t)
      && negb (existsb (λ c, String.eqb (vc_task_id c) (vc_task_id row)
                 && String.eqb (vc_attempt_id c) (vc_attempt_id row)
                 && String.eqb (vc_check_id c) (vc_check_id row)) (tbl_checks t)))
    (λ t, t <| tbl_checks ::= λ rows, rows ++ [row] |>).

Definition SaveVerificationAttempt (record : VerificationAttemptRecord) : DB unit :=
  at_ ←? now;
  transaction (
    attemptID ←? nextIdentity "verif";
    sequence ←? query (λ t, attempt_sequence t (vr_TaskID record));
    _ ←? insert_verification (verification_row record attemptID sequence at_);
    _ ←? for_each (λ check, insert_check (check_row record attemptID at_ check)) (vr_Checks record);
    appendEvent (vr_TaskID record) (VerificationRecorded attemptID (vr_Decision record) (vr_Summary record)) at_).

Definition SaveAcceptancePlan (taskID planJSON digest : string) : DB unit :=
  at_ ←? now;
  transaction (
    version ←? query (λ t, match tbl_acceptance_plans t !! taskID with
                           | Some row => pl_version row | None => 0%Z end);
    _ ←? (if (version =? 0)%Z then
            insert_row "acceptance_plans"
              (λ t, has_task t taskID && bool_decide (tbl_acceptance_plans t !! taskID = None))
              (λ t, t <| tbl_acceptance_plans ::= insert taskID {| pl_version := 1;
                 pl_spec_json := RedactJSON planJSON; pl_digest := Redact digest; pl_created_at := at_ |} |>)
          else
            statement (λ t, inr (tt, t <| tbl_acceptance_plans ::= alter (λ row, {|
              pl_version := pl_version row; pl_spec_json := RedactJSON planJSON; pl_digest := Redact digest;
              pl_created_at := at_ |}) taskID |>)));
    appendEvent taskID (AcceptancePlanSaved (Redact digest)) at_).

(** [None]: there is no plan. *)
Definition AcceptancePlan (taskID : string) : DB (option (string * string)) :=
  query (λ t, (λ row, (pl_spec_json row, pl_digest row)) <$> tbl_acceptance_plans t !! taskID).

Definition SaveWorkspaceBaseline (taskID gitStatus gitDiff : string) (statusTruncated diffTruncated : bool)
    : DB unit :=
  at_ ←? now;
  transaction (
    _ ←? insert_row "workspace_baselines" (λ t, has_task t taskID)
           (λ t, t <| tbl_workspace_baselines ::= insert taskID {|
              bl_git_status := Redact gitStatus; bl_git_diff := Redact gitDiff;
              bl_status_truncated := statusTruncated; bl_diff_truncated := diffTruncated;
              bl_created_at := at_ |} |>);
    appendEvent taskID (WorkspaceBaselineSaved (String.length gitStatus) (String.length gitDiff)
      statusTruncated diffTruncated) at_).

Definition WorkspaceBaseline (taskID : string) : DB (option BaselineRow) :=
  query (λ t, tbl_workspace_baselines t !! taskID).

(** Whatever unit the attempt belongs to. *)
Definition latest_of_task (t : Tables) (taskID : string) : option string :=
  va_decision <$> foldl later_attempt None (filter (λ v, va_task_id v = taskID) (tbl_verifications t)).

Definition LatestVerificationDecision (taskID : string) : DB (option string) :=
  query (λ t, latest_of_task t taskID).

(** ** Tasks *)

Definition StartTask (taskID : string) : DB unit :=
  at_ ←? now;
  transaction (
    n ←? update_task taskID (String.eqb "planned") (λ row,
           row <| tk_status := "running" |> <| tk_started_at := at_ |>);
    _ ←? assert_ (negb (Nat.eqb n 0)) (ErrNotFound "task" taskID);
    appendEvent taskID (TaskStarted "running") at_).

Definition MarkTaskApprovalRequired (taskID actionID reason : string) : DB unit :=
  at_ ←? now;
  transaction (
    let stopReason := if String.eqb actionID "" then "waiting for operator approval"%string
                      else ("waiting for operator approval: action " +:+ actionID)%string in
    n ←? update_task taskID (String.eqb "running") (λ row,
           row <| tk_outcome := "approval_required" |> <| tk_stop_reason := Redact stopReason |>);
    _ ←? assert_ (negb (Nat.eqb n 0)) (ErrNotFound "running task" taskID);
    appendEvent taskID (TaskApprovalRequired actionID (Redact reason)) at_).

(** The two pauses differ in the outcome and the event. *)
Definition mark_paused (taskID outcome stopReason : string) (event : Payload) : DB unit :=
  at_ ←? now;
  transaction (
    n ←? update_task taskID (λ s, String.eqb s "running" || String.eqb s "planned") (λ row,
           row <| tk_status := "running" |> <| tk_outcome := outcome |>
               <| tk_stop_reason := Redact stopReason |>);
    _ ←? assert_ (negb (Nat.eqb n 0)) (ErrNotFound "running task" taskID);
    appendEvent taskID event at_).

Definition MarkTaskVerificationPaused (taskID stopReason : string) : DB unit :=
  mark_paused taskID "verification_blocked" stopReason (TaskVerificationPaused (Redact stopReason)).

Definition MarkTaskPersistencePaused (taskID stopReason : string) : DB unit :=
  mark_paused taskID "persistence_paused" stopReason (TaskPersistencePaused (Redact stopReason)).

Definition terminalStatus (outcome : string) : string :=
  if String.eqb outcome "completed" then "completed"
  else if String.eqb outcome "canceled" then "canceled" else "failed".

(** The gates of a task that would be completed. *)
Definition completion_gates (taskID : string) : DB unit :=
  open ←? query (λ t, length (open_rows t taskID));
  _ ←? assert_ (Nat.eqb open 0) ErrOpenWorkUnitsBlockFinalize;
  pending ←? query (λ t, length (pending_rows t taskID));
  _ ←? assert_ (Nat.eqb pending 0) ErrPendingApprovals;
  latest ←? query (λ t, latest_of_task t taskID);
  match latest with
  | None => fail ErrVerificationRequired
  | Some decision => assert_ (String.eqb decision "passed") (ErrVerificationNotPassed decision)
  end.

Definition FinalizeTask (record : TaskFinalize) : DB unit :=
  at_ ←? now;
  let status := terminalStatus (tf_Outcome record) in
  transaction (
    _ ←? (if String.eqb status "completed" then completion_gates (tf_TaskID record) else return_ tt);
    n ←? update_task (tf_TaskID record) (λ _, true) (λ row,
           row <| tk_status := status |> <| tk_outcome := Redact (tf_Outcome record) |>
               <| tk_stop_reason := Redact (tf_StopReason record) |>
               <| tk_summary := Redact (tf_Summary record) |> <| tk_finished_at := at_ |>);
    _ ←? assert_ (negb (Nat.eqb n 0)) (ErrNotFound "task" (tf_TaskID record));
    appendEvent (tf_TaskID record) (TaskFinalized status (tf_Outcome record) (tf_StopReason record)
      (tf_Classification record) (tf_Summary record) (tf_Evidence record) (tf_Counters record)) at_).

Definition TaskStatus (taskID : string) : DB (option string) :=
  query (λ t, tk_status <$> tbl_tasks t !! taskID).

Definition TaskExists (taskID : string) : DB bool :=
  query (λ t, bool_decide (is_Some (tbl_tasks t !! taskID))).

(** ** Recovery *)

Definition MarkRecoveryStarted (taskID reason : string) : DB unit :=
  at_ ←? now;
  transaction (
    n ←? update_task taskID (λ s, String.eqb s "planned" || String.eqb s "running") (λ row,
           row <| tk_status := "running" |> <| tk_outcome := "" |> <| tk_stop_reason := "" |>
               <| tk_resume_count ::= Z.succ |>);
    _ ←? assert_ (negb (Nat.eqb n 0)) ErrNotResumable;
    appendEvent taskID (RecoveryStarted (Redact reason)) at_).

(** The statuses from which recovery may settle an attempt. *)
Definition reconcilable (status : string) : bool :=
  bool_decide (status ∈ ["planned"; "prepared"; "running"; "observed"; "verified"; "uncertain";
    "verification_failed"]%string).

Definition ReconcileToolAttempt (taskID executionID status reason : string) : DB unit :=
  at_ ←? now;
  transaction (
    n ←? update_attempts status (λ a, is_attempt taskID executionID a && reconcilable (ta_status a)) (λ a,
           a <| ta_status := status |> <| ta_recovery_reason := Redact reason |> <| ta_completed_at := at_ |>);
    _ ←? assert_ (negb (Nat.eqb n 0)) (ErrNotReconcilable executionID);
    _ ←? (if String.eqb status "human_review_required" then
            action ←? query (λ t, action_of t executionID);
            _ ←? update_actions (λ a, bool_decide (action = Some (ac_action_id a))
                   && String.eqb (ac_status a) "prepared")
                  (λ a, a <| ac_status := "human_review_required" |>);
            return_ tt
          else return_ tt);
    appendEvent taskID (AttemptReconciled executionID status reason) at_).

Definition MarkHumanReviewRequired (taskID reason : string) (attemptIDs : option (list string)) : DB unit :=
  at_ ←? now;
  transaction (
    n ←? update_task taskID (λ s, String.eqb s "planned" || String.eqb s "running") (λ row,
           row <| tk_status := "human_review_required" |> <| tk_outcome := "human_review_required" |>
               <| tk_stop_reason := Redact reason |> <| tk_finished_at := at_ |>);
    _ ←? assert_ (negb (Nat.eqb n 0)) ErrNotResumable;
    appendEvent taskID (TaskHumanReviewRequired (Redact reason) attemptIDs) at_).
End store.
