(* ===== verification/ActionLaws.v ===== *)
(** * What the durable operations keep

    The operations of Actions.v as one alphabet, and the laws of performing them:
    a failed call changes nothing; a call that succeeds appends one event, keeps
    the rows that are there and moves actions along their lifecycle; identities
    are never issued twice; only observations of completed attempts become
    evidence; and a task becomes completed only through the gates. *)

From stdpp Require Import relations pretty.
From S2P Require Import Prelude GoTime Text Cycles Database WorkUnits Actions.

Local Open Scope runstead_scope.

(** ** Histories *)

(** The lifecycle of a logical action. *)
Inductive action_edge : string → string → Prop :=
  | act_prepare : action_edge "planned" "prepared"
  | act_reject : action_edge "planned" "rejected"
  | act_complete : action_edge "prepared" "completed"
  | act_fail : action_edge "prepared" "failed"
  | act_review : action_edge "prepared" "human_review_required".

Definition proposal_of (a : ActionRow) :=
  (ac_action_id a, ac_task_id a, ac_work_unit_id a, ac_action_sequence a, ac_tool a, ac_arguments_json a,
   ac_fingerprint a, ac_recipe_fingerprint a, ac_workspace_signature a, ac_created_at a).

Definition same_action (a a' : ActionRow) : Prop :=
  proposal_of a' = proposal_of a ∧ rtc action_edge (ac_status a) (ac_status a').

(** What was written before the effect. *)
Definition intent_of (a : ToolAttemptRow) :=
  (ta_execution_id a, ta_task_id a, ta_work_unit_id a, ta_action_id a, ta_tool a, ta_arguments_json a,
   ta_recovery_class a, ta_effect_after_hash a, ta_planned_diff_json a, ta_process_intent_json a,
   (ta_created_at a, ta_prepared_at a)).

Definition same_attempt (a a' : ToolAttemptRow) : Prop := intent_of a' = intent_of a.

Definition same_approval (a a' : ApprovalRow) : Prop :=
  ap_approval_id a' = ap_approval_id a ∧ ap_task_id a' = ap_task_id a ∧ ap_fingerprint a' = ap_fingerprint a.

(** Every row is still at its place, related to what it was, and new rows are at
    the end. *)
Definition grown {A} (R : relation A) (xs ys : list A) : Prop :=
  ∃ old new, ys = old ++ new ∧ Forall2 R xs old.

#[export] Instance grown_preorder {A} (R : relation A) `{!PreOrder R} : PreOrder (grown R).
Proof.
  split.
  - intros xs. exists xs, []. split; [by rw app_nil_r|]. apply Forall_Forall2_diag, Forall_true. reflexivity.
  - intros xs ys zs (old & new & -> & H1) (old' & new' & -> & H2).
    apply Forall2_app_inv_l in H2 as (o1 & o2 & H21 & H22 & ->).
    exists o1, (o2 ++ new'). split; [by rw app_assoc|]. by etrans.
Qed.

#[export] Instance same_action_preorder : PreOrder same_action.
Proof.
  split; [by split|]. intros a b c [P1 S1] [P2 S2]. split; [congruence|by etrans].
Qed.
#[export] Instance same_attempt_preorder : PreOrder same_attempt.
Proof. split; [done|]. intros a b c H1 H2. rw /same_attempt. congruence. Qed.
#[export] Instance same_approval_preorder : PreOrder same_approval.
Proof. split; [done|]. intros a b c H1 H2. rw /same_approval in H1 H2 |- *. intuition congruence. Qed.

Lemma grown_app {A} (R : relation A) `{!PreOrder R} xs ys : grown R xs (xs ++ ys).
Proof. exists xs, ys. split; [done|]. apply Forall_Forall2_diag, Forall_true. reflexivity. Qed.

Lemma grown_updated {A} (R : relation A) `{!PreOrder R} (p : A → bool) (f : A → A) xs :
  (∀ x, p x = true → R x (f x)) → grown R xs (updated p f xs).
Proof.
  intros Hf. exists (updated p f xs), []. split; [by rw app_nil_r|]. rw /updated Forall2_fmap_r.
  apply Forall_Forall2_diag, Forall_true. intros x. change (R x (if p x then f x else x)).
  destruct (p x) eqn:E; [by apply Hf|reflexivity].
Qed.

(** From [t] to [t'] nothing that was recorded is lost. *)
Record history (t t' : Tables) : Prop := {
  hs_tasks id : is_Some (tbl_tasks t !! id) → is_Some (tbl_tasks t' !! id);
  hs_units : tbl_work_units t' = tbl_work_units t ∧ tbl_dependencies t' = tbl_dependencies t;
  hs_actions : grown same_action (tbl_actions t) (tbl_actions t');
  hs_attempts : grown same_attempt (tbl_tool_attempts t) (tbl_tool_attempts t');
  hs_results : tbl_tool_results t `prefix_of` tbl_tool_results t';
  hs_verifications : tbl_verifications t `prefix_of` tbl_verifications t';
  hs_checks : tbl_checks t `prefix_of` tbl_checks t';
  hs_decisions : tbl_decisions t `prefix_of` tbl_decisions t';
  hs_approvals : grown same_approval (tbl_approvals t) (tbl_approvals t');
  hs_identity : (tbl_identity_sequence t ≤ tbl_identity_sequence t')%Z
}.

#[export] Instance history_preorder : PreOrder history.
Proof.
  split.
  - intros t. split; solve [done|reflexivity].
  - intros t1 t2 t3 [] []. split; try (etrans; eassumption); [naive_solver|].
    intuition congruence.
Qed.

(** The part of a transaction before its event. *)
Definition unjournaled (t t' : Tables) : Prop := history t t' ∧ tbl_events t' = tbl_events t.

#[export] Instance unjournaled_preorder : PreOrder unjournaled.
Proof.
  split; [by split|]. intros t1 t2 t3 [H1 E1] [H2 E2]. split; [by etrans|congruence].
Qed.

(** A transaction that recorded one event of the task. *)
Definition journaled (kind taskID : string) (t t' : Tables) : Prop :=
  history t t' ∧ ∃ event, tbl_events t' = tbl_events t ++ [event] ∧ ev_kind event = kind
    ∧ ev_task_id event = taskID ∧ ev_sequence event = next_sequence (tbl_events t) taskID.

(** ** The alphabet of operations *)

Inductive Operation :=
  | DoRecordAction (record : ActionRecord)
  | DoRejectAction (taskID actionID reason : string)
  | DoPrepareToolAttempt (record : ToolAttemptPrepared)
  | DoCompleteToolAttempt (record : ToolAttemptCompleted)
  | DoRecordWritePolicyDecision (record : WritePolicyDecision)
  | DoRecordRecipePolicyDecision (record : RecipePolicyDecision)
  | DoRecordApproval (record : Approval)
  | DoSaveVerificationAttempt (record : VerificationAttemptRecord)
  | DoSaveAcceptancePlan (taskID planJSON digest : string)
  | DoSaveWorkspaceBaseline (taskID gitStatus gitDiff : string) (statusTruncated diffTruncated : bool)
  | DoStartTask (taskID : string)
  | DoMarkTaskApprovalRequired (taskID actionID reason : string)
  | DoMarkTaskVerificationPaused (taskID stopReason : string)
  | DoMarkTaskPersistencePaused (taskID stopReason : string)
  | DoFinalizeTask (record : TaskFinalize)
  | DoMarkRecoveryStarted (taskID reason : string)
  | DoReconcileToolAttempt (taskID executionID status reason : string)
  | DoMarkHumanReviewRequired (taskID reason : string) (attemptIDs : option (list string)).

Definition task_of (o : Operation) : string :=
  match o with
  | DoRecordAction record => ar_TaskID record
  | DoRejectAction taskID _ _ | DoStartTask taskID | DoMarkTaskApprovalRequired taskID _ _
  | DoMarkTaskVerificationPaused taskID _ | DoMarkTaskPersistencePaused taskID _
  | DoMarkRecoveryStarted taskID _ | DoReconcileToolAttempt taskID _ _ _
  | DoMarkHumanReviewRequired taskID _ _ | DoSaveAcceptancePlan taskID _ _
  | DoSaveWorkspaceBaseline taskID _ _ _ _ => taskID
  | DoPrepareToolAttempt record => tp_TaskID record
  | DoCompleteToolAttempt record => tc_TaskID record
  | DoRecordWritePolicyDecision record => pd_TaskID record
  | DoRecordRecipePolicyDecision record => rd_TaskID record
  | DoRecordApproval record => av_TaskID record
  | DoSaveVerificationAttempt record => vr_TaskID record
  | DoFinalizeTask record => tf_TaskID record
  end.

(** The kind of the event that the operation appends. *)
Definition event_of (o : Operation) : string :=
  match o with
  | DoRecordAction _ => "action_planned"
  | DoRejectAction _ _ _ => "action_rejected"
  | DoPrepareToolAttempt _ => "tool_attempt_prepared"
  | DoCompleteToolAttempt record =>
    if String.eqb (effective_status record) "completed" then "tool_attempt_completed" else "tool_attempt_failed"
  | DoRecordWritePolicyDecision _ => "write_policy_decision"
  | DoRecordRecipePolicyDecision _ => "recipe_policy_decision"
  | DoRecordApproval _ => "approval_recorded"
  | DoSaveVerificationAttempt _ => "verification_recorded"
  | DoSaveAcceptancePlan _ _ _ => "acceptance_plan_saved"
  | DoSaveWorkspaceBaseline _ _ _ _ _ => "workspace_baseline_saved"
  | DoStartTask _ => "task_started"
  | DoMarkTaskApprovalRequired _ _ _ => "task_approval_required"
  | DoMarkTaskVerificationPaused _ _ => "task_verification_paused"
  | DoMarkTaskPersistencePaused _ _ => "task_persistence_paused"
  | DoFinalizeTask _ => "task_finalized"
  | DoMarkRecoveryStarted _ _ => "recovery_started"
  | DoReconcileToolAttempt _ _ _ _ => "tool_attempt_reconciled"
  | DoMarkHumanReviewRequired _ _ _ => "task_human_review_required"
  end.

Definition ignore `{Disk} `{Codec} {A} (m : DB A) : DB unit := _ ←? m; return_ tt.

Definition perform `{Disk} `{Codec} (o : Operation) : DB unit :=
  match o with
  | DoRecordAction record => ignore (RecordAction record)
  | DoRejectAction taskID actionID reason => RejectAction taskID actionID reason
  | DoPrepareToolAttempt record => ignore (PrepareToolAttempt record)
  | DoCompleteToolAttempt record => CompleteToolAttempt record
  | DoRecordWritePolicyDecision record => RecordWritePolicyDecision record
  | DoRecordRecipePolicyDecision record => RecordRecipePolicyDecision record
  | DoRecordApproval record => ignore (RecordApproval record)
  | DoSaveVerificationAttempt record => SaveVerificationAttempt record
  | DoSaveAcceptancePlan taskID planJSON digest => SaveAcceptancePlan taskID planJSON digest
  | DoSaveWorkspaceBaseline taskID gitStatus gitDiff statusTruncated diffTruncated =>
    SaveWorkspaceBaseline taskID gitStatus gitDiff statusTruncated diffTruncated
  | DoStartTask taskID => StartTask taskID
  | DoMarkTaskApprovalRequired taskID actionID reason => MarkTaskApprovalRequired taskID actionID reason
  | DoMarkTaskVerificationPaused taskID stopReason => MarkTaskVerificationPaused taskID stopReason
  | DoMarkTaskPersistencePaused taskID stopReason => MarkTaskPersistencePaused taskID stopReason
  | DoFinalizeTask record => FinalizeTask record
  | DoMarkRecoveryStarted taskID reason => MarkRecoveryStarted taskID reason
  | DoReconcileToolAttempt taskID executionID status reason =>
    ReconcileToolAttempt taskID executionID status reason
  | DoMarkHumanReviewRequired taskID reason attemptIDs => MarkHumanReviewRequired taskID reason attemptIDs
  end.

Section journal.
Context {DK : Disk} {CD : Codec}.

(** ** One event for every change *)

Definition logs (kind taskID : string) {A} (m : DB A) : Prop := ∀ s a s',
  m s = (inr a, s') → journaled kind taskID (tables s) (tables s').

Lemma logs_check kind taskID {A B} (m : DB A) (k : A → DB B) :
  within unjournaled m → (∀ a, logs kind taskID (k a)) → logs kind taskID (check m k).
Proof.
  intros Hm Hk s b s' (a & s1 & E & Hb)%check_ok. specialize (Hm s). rw E in Hm.
  destruct Hm as [H1 E1]. apply Hk in Hb as (H2 & event & Hev & Hkind & Htask & Hseq).
  split; [by etrans|]. exists event. simpl in E1. by rw -E1.
Qed.

Lemma logs_append kind taskID payload at_ :
  kind_of payload = kind → logs kind taskID (appendEvent taskID payload at_).
Proof.
  intros <- s u s' (event & -> & Htask & Hkind & _ & Hseq)%appendEvent_ok.
  split; [split; solve [done|reflexivity]|]. by exists event.
Qed.

Lemma logs_then kind taskID {A B} (m : DB A) (b : B) :
  logs kind taskID m → logs kind taskID (_ ←? m; return_ b).
Proof. intros Hm s b' s' (a & s1 & E & [= _ <-])%check_ok. by eapply Hm. Qed.

Lemma logs_transaction kind taskID {A} (body : DB A) :
  logs kind taskID body → logs kind taskID (transaction body).
Proof. intros Hb s a s' (s1 & s2 & <- & E & ->)%transaction_ok. by eapply Hb. Qed.

Lemma logs_fail kind taskID {A} (e : StoreError) : logs kind taskID (fail (A := A) e).
Proof. done. Qed.

(** A failed call leaves the tables alone. *)
Definition aborts {A} (m : DB A) : Prop := ∀ s e s', m s = (inl e, s') → tables s' = tables s.

Lemma aborts_operation {A} (body : string → DB A) : aborts (at_ ←? now; transaction (body at_)).
Proof. intros s e s' E. rw /check /now in E. by apply transaction_failed in E as ->. Qed.

Lemma aborts_ignore {A} (m : DB A) : aborts m → aborts (ignore m).
Proof.
  intros Hm s e s' E. rw /ignore /check in E. destruct (m s) as [[e'|a] s1] eqn:Em; [|done].
  injection E as _ <-. by eapply Hm.
Qed.

Lemma aborts_perform o : aborts (perform o).
Proof. destruct o; first [apply aborts_ignore|idtac]; apply aborts_operation. Qed.

Lemma unjournaled_row table ok f :
  (∀ t, unjournaled t (f t)) → within unjournaled (insert_row table ok f).
Proof. intros Hf. apply (within_statement unjournaled). intros t [] t'. case_match; [by intros [= <-]|done]. Qed.

Lemma unjournaled_actions p f :
  (∀ a, p a = true → same_action a (f a)) → within unjournaled (update_actions p f).
Proof.
  intros Hf. apply (within_statement unjournaled). intros t n t' [= _ <-].
  split; [|done]. split; try solve [done|reflexivity]. by apply grown_updated; [apply _|].
Qed.

Lemma unjournaled_attempts status p f :
  (∀ a, same_attempt a (f a)) → within unjournaled (update_attempts status p f).
Proof.
  intros Hf. apply (within_statement unjournaled). intros t n t'. case_match; [|done]. intros [= _ <-].
  split; [|done]. split; try solve [done|reflexivity]. by apply grown_updated; [apply _|].
Qed.

Lemma unjournaled_task taskID p f : within unjournaled (update_task taskID p f).
Proof.
  apply (within_statement unjournaled). intros t n t' [= Ht].
  destruct (tbl_tasks t !! taskID) as [row|]; [|by injection Ht as _ <-].
  destruct (p (tk_status row)); injection Ht as _ <-; [|done].
  split; [|done]. split; try solve [done|reflexivity]. intros id. simpl. rw lookup_insert_is_Some'. by right.
Qed.

Lemma unjournaled_identity prefix : within unjournaled (nextIdentity prefix).
Proof.
  apply (within_statement unjournaled). intros t id t' [= _ <-].
  split; [|done]. split; try solve [done|reflexivity]. simpl. lia.
Qed.

Ltac unjournaled_solve := intros; split; [split|done]; simpl; try done; try reflexivity;
  first [apply grown_app; apply _|by eexists|idtac].

Lemma unjournaled_insert_action row : within unjournaled (insert_action row).
Proof. apply unjournaled_row. unjournaled_solve. Qed.
Lemma unjournaled_insert_attempt row : within unjournaled (insert_attempt row).
Proof. apply unjournaled_row. unjournaled_solve. Qed.
Lemma unjournaled_insert_result row : within unjournaled (insert_result row).
Proof. apply unjournaled_row. unjournaled_solve. Qed.
Lemma unjournaled_insert_decision row : within unjournaled (insert_decision row).
Proof. apply unjournaled_row. unjournaled_solve. Qed.
Lemma unjournaled_insert_verification row : within unjournaled (insert_verification row).
Proof. apply unjournaled_row. unjournaled_solve. Qed.
Lemma unjournaled_insert_check row : within unjournaled (insert_check row).
Proof. apply unjournaled_row. unjournaled_solve. Qed.

Lemma unjournaled_upsert row : within unjournaled (upsert_approval row).
Proof.
  apply unjournaled_row. unjournaled_solve. case_match; [|apply grown_app; apply _].
  apply grown_updated; [apply _|]. done.
Qed.

Lemma is_action_status taskID actionID status a :
  is_action taskID actionID status a = true → ac_status a = status.
Proof. rw /is_action !andb_true_iff. by intros [_ H%String.eqb_eq]. Qed.

Lemma same_action_status from to a :
  action_edge from to → ac_status a = from → same_action a (a <| ac_status := to |>).
Proof. intros He <-. split; [done|]. by apply rtc_once. Qed.

Lemma unjournaled_settle action to :
  action_edge "prepared" to →
  within unjournaled (update_actions (λ a, bool_decide (action = Some (ac_action_id a))
                                           && String.eqb (ac_status a) "prepared")
                        (λ a, a <| ac_status := to |>)).
Proof.
  intros He. apply unjournaled_actions. intros a [_ Ha%String.eqb_eq]%andb_true_iff.
  by eapply same_action_status.
Qed.

Lemma unjournaled_move taskID actionID to :
  action_edge "planned" to →
  within unjournaled (update_actions (is_action taskID actionID "planned") (λ a, a <| ac_status := to |>)).
Proof. intros He. apply unjournaled_actions. intros a Ha%is_action_status. by eapply same_action_status. Qed.

Lemma unjournaled_gates taskID : within unjournaled (completion_gates taskID).
Proof. rw /completion_gates. db_walk. Qed.

Ltac journal := repeat first
  [ progress intros
  | apply logs_transaction | apply logs_fail | (apply logs_append; reflexivity) | apply logs_then
  | apply logs_check | apply unjournaled_gates | apply unjournaled_task | apply unjournaled_identity
  | apply unjournaled_insert_action | apply unjournaled_insert_attempt | apply unjournaled_insert_result
  | apply unjournaled_insert_decision | apply unjournaled_insert_verification
  | apply unjournaled_insert_check | apply unjournaled_upsert
  | (apply unjournaled_move; constructor) | (apply unjournaled_settle; constructor)
  | (apply unjournaled_attempts; reflexivity)
  | (apply unjournaled_row; unjournaled_solve)
  | progress db_walk ].

Lemma logs_perform o : logs (event_of o) (task_of o) (perform o).
Proof.
  destruct o; cbn [perform event_of task_of]; rw /ignore; journal.
  apply (within_statement unjournaled). intros t u t' [= _ <-]. unjournaled_solve.
Qed.

(** C22: one event per change.  Whatever the disk does, an operation that fails
    leaves the tables as they were; one that succeeds appends exactly one event,
    of its kind, with the next sequence number of its task, loses no row of any
    table, changes only the outcome columns of attempts and the decision of
    approvals, and moves actions only along their lifecycle. *)
Theorem perform_journal o s :
  match perform o s with
  | (inl _, s') => tables s' = tables s
  | (inr _, s') => journaled (event_of o) (task_of o) (tables s) (tables s')
  end.
Proof.
  destruct (perform o s) as [[e|u] s'] eqn:E; [by eapply aborts_perform|by eapply logs_perform].
Qed.

(** ** Completion *)

Definition status_of (t : Tables) (taskID : string) : option string := tk_status <$> tbl_tasks t !! taskID.

(** The gates of a completed task. *)
Record gated (t : Tables) (taskID : string) : Prop := {
  gt_units id row : tbl_work_units t !! id = Some row → row_task_id row = taskID →
    row_status row = "completed"%string;
  gt_approvals : pending_rows t taskID = [];
  gt_verified : latest_of_task t taskID = Some "passed"%string
}.

(** No task becomes completed, except those of [P]. *)
Definition uncompleted (P : string → Prop) (t t' : Tables) : Prop := ∀ taskID,
  status_of t' taskID = Some "completed"%string → status_of t taskID = Some "completed"%string ∨ P taskID.

Section uncompleted.
Context (P : string → Prop).

#[export] Instance uncompleted_preorder : PreOrder (uncompleted P).
Proof.
  split; [by intros t taskID; left|]. intros t1 t2 t3 H1 H2 taskID [H|]%H2; [by apply H1|by right].
Qed.

Lemma uncompleted_task taskID p f :
  P taskID ∨ (∀ row, p (tk_status row) = true → tk_status (f row) = "completed"%string →
                tk_status row = "completed"%string) →
  within (uncompleted P) (update_task taskID p f).
Proof.
  intros Hf. apply (within_statement (uncompleted P)). intros t n t' [= Ht] taskID' H.
  destruct (tbl_tasks t !! taskID) as [row|] eqn:Hrow; [|injection Ht as _ <-; by left].
  destruct (p (tk_status row)) eqn:Hp; injection Ht as _ <-; [|by left].
  rw /status_of /= in H |- *. destruct (decide (taskID = taskID')) as [<-|Hne].
  - destruct Hf as [|Hf]; [by right|left]. rw lookup_insert_eq in H. injection H as H.
    rw Hrow /=. f_equal. by apply Hf.
  - rw lookup_insert_ne in H; [done|by left].
Qed.

(** Statements about other tables. *)
Lemma uncompleted_statement {A} (f : Tables → StoreError + (A * Tables)) :
  (∀ t a t', f t = inr (a, t') → tbl_tasks t' = tbl_tasks t) → within (uncompleted P) (statement f).
Proof.
  intros Hf. apply (within_statement (uncompleted P)). intros t a t' E id. rw /status_of (Hf _ _ _ E). by left.
Qed.

Lemma uncompleted_row table ok f :
  (∀ t, tbl_tasks (f t) = tbl_tasks t) → within (uncompleted P) (insert_row table ok f).
Proof. intros Hf. apply uncompleted_statement. intros t u t'. case_match; [intros [= _ <-]; apply Hf|done]. Qed.

Lemma uncompleted_append taskID payload at_ : within (uncompleted P) (appendEvent taskID payload at_).
Proof. apply uncompleted_statement. intros t u t'. case_match; [by intros [= _ <-]|done]. Qed.

Lemma uncompleted_identity prefix : within (uncompleted P) (nextIdentity prefix).
Proof. apply uncompleted_statement. by intros t u t' [= _ <-]. Qed.

Lemma uncompleted_actions p f : within (uncompleted P) (update_actions p f).
Proof. apply uncompleted_statement. by intros t u t' [= _ <-]. Qed.

Lemma uncompleted_attempts status p f : within (uncompleted P) (update_attempts status p f).
Proof. apply uncompleted_statement. intros t u t'. case_match; [by intros [= _ <-]|done]. Qed.

Lemma uncompleted_gates taskID : within (uncompleted P) (completion_gates taskID).
Proof. rw /completion_gates. db_walk. Qed.

End uncompleted.

Lemma terminal_completed outcome : terminalStatus outcome = "completed"%string → outcome = "completed"%string.
Proof. rw /terminalStatus. by destruct (String.eqb_spec outcome "completed"), (String.eqb outcome "canceled"). Qed.

Ltac uncompleted_walk := repeat first
  [ apply uncompleted_append | apply uncompleted_gates | apply uncompleted_identity
  | apply uncompleted_actions | apply uncompleted_attempts
  | (apply uncompleted_row; done)
  | (apply uncompleted_task; right; intros row Hp Hc; simpl in Hc; try done; apply String.eqb_eq in Hp; congruence)
  | progress db_walk
  | (apply uncompleted_statement; by intros ? ? ? [= _ <-]) ].

(** Only finalization with the outcome [completed] completes a task. *)
Definition finalizes (o : Operation) (taskID : string) : Prop :=
  ∃ record, o = DoFinalizeTask record ∧ tf_TaskID record = taskID ∧ tf_Outcome record = "completed"%string.

Lemma uncompleted_perform o : within (uncompleted (finalizes o)) (perform o).
Proof.
  destruct o; cbn [perform]; rw /ignore /upsert_approval; uncompleted_walk.
  apply uncompleted_task. destruct (decide (tf_Outcome record = "completed"%string)); [by left; exists record|].
  right. by intros row _ H%terminal_completed.
Qed.

Lemma gates_ok taskID s u s' :
  completion_gates taskID s = (inr u, s') → gated (tables s) taskID ∧ tables s' = tables s.
Proof.
  rw /completion_gates. intros E. db_inv.
  destruct (latest_of_task _ _) as [decision|] eqn:Hl; [|done]. db_inv.
  repeat match goal with H : Nat.eqb _ _ = true |- _ => apply Nat.eqb_eq, length_zero_iff_nil in H
    | H : String.eqb _ _ = true |- _ => apply String.eqb_eq in H end.
  split; [|congruence]. split; [|congruence|congruence]. intros id row Hrow Htask.
  destruct (decide (row_status row = "completed"%string)) as [|Hne]; [done|].
  assert ((id, row) ∈ open_rows (tables s) taskID) as Hin; [|by rw H0 in Hin; apply elem_of_nil in Hin].
  rw /open_rows list_elem_of_filter elem_of_map_to_list. done.
Qed.

Lemma finalize_gated record s u s' :
  FinalizeTask record s = (inr u, s') → tf_Outcome record = "completed"%string →
  gated (tables s) (tf_TaskID record).
Proof.
  rw /FinalizeTask. intros E Ho. db_inv. apply transaction_ok in E as (s1 & s2 & H1 & E & _).
  rw Ho /= in E. apply check_ok in E as ([] & s3 & [Hg _]%gates_ok & _). congruence.
Qed.

(** C23: completion.  A task becomes completed only when it is finalized with
    the outcome completed, and only when at that moment every work unit of the
    task is completed, no approval is pending and the last verification passed.
    No other operation, and no failing call, completes a task. *)
Theorem perform_completed o s taskID :
  let s' := (perform o s).2 in
  status_of (tables s') taskID = Some "completed"%string →
  status_of (tables s) taskID ≠ Some "completed"%string →
  ∃ record, o = DoFinalizeTask record ∧ tf_TaskID record = taskID
    ∧ tf_Outcome record = "completed"%string ∧ gated (tables s) taskID.
Proof.
  intros s' H' H. destruct (uncompleted_perform o s taskID H') as [|(record & -> & <- & Ho)]; [done|].
  exists record. split_and!; [done..|]. subst s'. destruct (perform _ s) as [[e|u] s''] eqn:E.
  { apply aborts_perform in E. simpl in H'. by rw E in H'. }
  by eapply finalize_gated.
Qed.
End journal.
