(* ===== verification/AttemptLaws.v ===== *)
(** * Identities, attempts, evidence and approvals

    What the transactions around one effect write, and the invariant that keeps
    identities unique, so that no insertion is refused for a duplicate key. *)

From Stdlib Require Import Ascii.
From stdpp Require Import relations pretty.
From S2P Require Import Prelude GoTime Text Cycles Database WorkUnits Actions ActionLaws.

Local Open Scope runstead_scope.

(** ** Identities are injective *)

Lemma pretty_char_zero x : (0 < x < 10)%N → pretty_N_char x ≠ "0"%char.
Proof.
  intros Hx. assert (x ∈ [1; 2; 3; 4; 5; 6; 7; 8; 9]%N) as Hin by (rw !elem_of_cons; lia).
  repeat (apply elem_of_cons in Hin as [->|Hin]; [done|]). by apply elem_of_nil in Hin.
Qed.

(** Digits do not begin with a zero. *)
Lemma pretty_go_head x s : (0 < x)%N → ∃ c s', pretty_N_go x s = String c s' ∧ c ≠ "0"%char.
Proof.
  revert s. induction (N.lt_wf_0 x) as [x _ IH]; intros s Hx. rw pretty_N_go_step //.
  destruct (decide (x / 10 = 0)%N) as [H0|Hne].
  - rw H0 pretty_N_go_0. eexists _, _. split; [done|]. apply pretty_char_zero.
    apply N.div_small_iff in H0; [|done]. rw N.mod_small //.
  - apply IH; [by apply N.div_lt|]. by apply N.neq_0_lt_0.
Qed.

Lemma pretty_head n : (0 < n)%Z → ∃ c s, pretty n = String c s ∧ c ≠ "0"%char.
Proof.
  intros Hn. destruct n as [|p|]; [done| |done]. apply (pretty_go_head (N.pos p) ""). done.
Qed.

Definition zeros (k : nat) : string := String.concat "" (repeat "0"%string k).

Lemma zeros_S k : zeros (S k) = String "0" (zeros k).
Proof. by destruct k. Qed.

Lemma zeros_inj j k c d s1 s2 :
  c ≠ "0"%char → d ≠ "0"%char → (zeros j +:+ String c s1 = zeros k +:+ String d s2)%string →
  String c s1 = String d s2.
Proof.
  intros Hc Hd. revert k. induction j as [|j IH]; intros [|k].
  - done.
  - rw zeros_S /=. intros [= -> _]. done.
  - rw zeros_S /=. intros [= <- _]. done.
  - rw !zeros_S /=. intros [= H]. by eapply IH.
Qed.

Lemma app_inj_l (p s1 s2 : string) : (p +:+ s1 = p +:+ s2)%string → s1 = s2.
Proof. induction p; simpl; [done|]. by intros [= H%IHp]. Qed.

Lemma identity_inj prefix n m :
  (0 < n)%Z → (0 < m)%Z → identity prefix n = identity prefix m → n = m.
Proof.
  intros Hn Hm H%app_inj_l%(app_inj_l "-"). apply (inj pretty).
  destruct (pretty_head n Hn) as (c & s1 & E1 & Hc), (pretty_head m Hm) as (d & s2 & E2 & Hd).
  rw E1 E2 in H |- *. by eapply zeros_inj.
Qed.

(** ** The keys of the tables *)

(** The identifiers and the unique columns of the tables. *)
Record Keys := {
  ks_sequence : Z;
  ks_actions : list string;
  ks_attempts : list string;
  ks_verifications : list string;
  ks_action_order : list (string * Z);
  ks_verification_order : list (string * Z);
  ks_evidence : list (string * string);
  ks_approvals : list (string * string)
}.

Definition keys_of (t : Tables) : Keys := {|
  ks_sequence := tbl_identity_sequence t;
  ks_actions := ac_action_id <$> tbl_actions t;
  ks_attempts := ta_execution_id <$> tbl_tool_attempts t;
  ks_verifications := va_attempt_id <$> tbl_verifications t;
  ks_action_order := (λ a, (ac_task_id a, ac_action_sequence a)) <$> tbl_actions t;
  ks_verification_order := (λ v, (va_task_id v, va_sequence v)) <$> tbl_verifications t;
  ks_evidence := (λ r, (tr_task_id r, tr_evidence_id r)) <$> tbl_tool_results t;
  ks_approvals := (λ a, (ap_task_id a, ap_fingerprint a)) <$> tbl_approvals t |}.

(** An identity that the counter has passed. *)
Definition issued (k : Keys) (prefix id : string) : Prop :=
  ∃ n, (0 < n ≤ ks_sequence k)%Z ∧ id = identity prefix n.

Record unique (k : Keys) : Prop := {
  uq_sequence : (0 ≤ ks_sequence k)%Z;
  uq_actions : NoDup (ks_actions k) ∧ ∀ id, id ∈ ks_actions k → issued k "action" id;
  uq_attempts : NoDup (ks_attempts k) ∧ ∀ id, id ∈ ks_attempts k → issued k "exec" id;
  uq_verifications : NoDup (ks_verifications k) ∧ ∀ id, id ∈ ks_verifications k → issued k "verif" id;
  uq_action_order : NoDup (ks_action_order k);
  uq_verification_order : NoDup (ks_verification_order k);
  uq_evidence : NoDup (ks_evidence k);
  uq_approvals : NoDup (ks_approvals k)
}.

(** The invariant, and with it that an identity was issued. *)
Definition sound (fresh : option (string * string)) (t : Tables) : Prop :=
  unique (keys_of t) ∧ ∀ prefix id, fresh = Some (prefix, id) → issued (keys_of t) prefix id.

Definition soundly (fresh : option (string * string)) (t t' : Tables) : Prop := sound fresh t → sound fresh t'.

#[export] Instance soundly_preorder fresh : PreOrder (soundly fresh).
Proof. split; [intros t H; exact H|]. intros t1 t2 t3 H1 H2 H. exact (H2 (H1 H)). Qed.

Lemma soundly_keys fresh t t' : keys_of t' = keys_of t → soundly fresh t t'.
Proof. intros E H. red in H |- *. rw E. exact H. Qed.

Lemma fmap_updated {A B} (g : A → B) (p : A → bool) (f : A → A) xs :
  (∀ x, g (f x) = g x) → g <$> updated p f xs = g <$> xs.
Proof.
  intros Hg. rw /updated -list_fmap_compose. apply list_fmap_ext. intros i x _.
  rw /compose. by destruct (p x).
Qed.

Lemma existsb_false_not_in {A B} (g : A → B) (p : A → bool) (b : B) xs :
  (∀ x, g x = b → p x = true) → existsb p xs = false → b ∉ g <$> xs.
Proof.
  intros Hp Hex (x & -> & Hx)%list_elem_of_fmap.
  assert (existsb p xs = true); [|congruence]. apply existsb_exists. exists x.
  split; [by apply list_elem_of_In|by apply Hp].
Qed.

Lemma NoDup_snoc {A} (xs : list A) x : NoDup xs → x ∉ xs → NoDup (xs ++ [x]).
Proof.
  intros Hxs Hx. apply NoDup_app. split_and!; [done| |by apply NoDup_singleton].
  intros y Hy ->%list_elem_of_singleton. done.
Qed.

Section identities.
Context {DK : Disk} {CD : Codec}.

Lemma soundly_statement fresh {A} (f : Tables → StoreError + (A * Tables)) :
  (∀ t a t', f t = inr (a, t') → keys_of t' = keys_of t) → within (soundly fresh) (statement f).
Proof.
  intros Hf. apply (within_statement (soundly fresh)). intros t a t' E. by eapply soundly_keys, Hf.
Qed.

Lemma soundly_row fresh table ok f :
  (∀ t, ok t = true → soundly fresh t (f t)) → within (soundly fresh) (insert_row table ok f).
Proof.
  intros Hf. apply (within_statement (soundly fresh)). intros t u t'.
  destruct (ok t) eqn:Hok; [intros [= _ <-]; by apply Hf|done].
Qed.

Lemma soundly_append fresh taskID payload at_ : within (soundly fresh) (appendEvent taskID payload at_).
Proof. apply soundly_statement. intros t u t'. case_match; [by intros [= _ <-]|done]. Qed.

Lemma soundly_task fresh taskID p f : within (soundly fresh) (update_task taskID p f).
Proof.
  apply soundly_statement. intros t n t' [= Ht].
  destruct (tbl_tasks t !! taskID) as [row|]; [|by injection Ht as _ <-].
  by destruct (p (tk_status row)); injection Ht as _ <-.
Qed.

Lemma soundly_actions fresh p f :
  (∀ a, proposal_of (f a) = proposal_of a) → within (soundly fresh) (update_actions p f).
Proof.
  intros Hf. apply soundly_statement. intros t n t' [= _ <-]. rw /keys_of /=.
  rw !fmap_updated //; intros a; specialize (Hf a); rw /proposal_of in Hf; congruence.
Qed.

Lemma soundly_attempts fresh status p f :
  (∀ a, intent_of (f a) = intent_of a) → within (soundly fresh) (update_attempts status p f).
Proof.
  intros Hf. apply soundly_statement. intros t n t'. case_match; [|done]. intros [= _ <-]. rw /keys_of /=.
  rw fmap_updated //. intros a. specialize (Hf a). rw /intent_of in Hf. congruence.
Qed.

(** The counter passes the identity that it gives out. *)
Lemma sound_next prefix t :
  let n := (tbl_identity_sequence t + 1)%Z in
  sound None t → sound (Some (prefix, identity prefix n)) (t <| tbl_identity_sequence := n |>).
Proof.
  intros n [[H0 [A1 A2] [B1 B2] [C1 C2] ? ? ? ?] _]. simpl in *.
  assert (∀ p id, issued (keys_of t) p id → issued (keys_of (t <| tbl_identity_sequence := n |>)) p id) as Hmono.
  { intros p id (m & Hm & ->). exists m. simpl in *. split; [lia|done]. }
  split; [split; naive_solver lia|]. intros p id [= <- <-]. exists n. split; [simpl; lia|done].
Qed.

Lemma soundly_identity prefix {A} (k : string → DB A) :
  (∀ id, within (soundly (Some (prefix, id))) (k id)) →
  within (soundly None) (check (nextIdentity prefix) k).
Proof.
  intros Hk s HU. rw /check /nextIdentity /statement.
  destruct (io (calls s)); [done|]. cbn. specialize (Hk (identity prefix (tbl_identity_sequence (tables s) + 1))
    (tick s <| tables := (tables s) <| tbl_identity_sequence := (tbl_identity_sequence (tables s) + 1)%Z |> |>)).
  split; [|done]. by apply Hk, sound_next.
Qed.

Lemma soundly_insert_action row :
  within (soundly (Some ("action", ac_action_id row))) (insert_action row).
Proof.
  apply soundly_row. intros t [[_ Hid%negb_true_iff]%andb_true_iff Hseq%negb_true_iff]%andb_true_iff [[] Hiss].
  split; [|exact Hiss]. specialize (Hiss _ _ eq_refl). split; simpl; try done.
  - destruct uq_actions0 as [HN Hall]. rw fmap_app /=. split.
    + apply NoDup_snoc; [done|]. eapply existsb_false_not_in; [|exact Hid].
      intros a Ha. by apply String.eqb_eq.
    + intros id [H| ->%list_elem_of_singleton]%elem_of_app; [by apply Hall|done].
  - rw fmap_app /=. apply NoDup_snoc; [done|]. eapply existsb_false_not_in; [|exact Hseq].
    intros a [= E1 E2]. simpl. by rw E1 E2 String.eqb_refl Z.eqb_refl.
Qed.

Lemma soundly_insert_attempt row :
  within (soundly (Some ("exec", ta_execution_id row))) (insert_attempt row).
Proof.
  apply soundly_row. intros t [_ Hid%negb_true_iff]%andb_true_iff [[] Hiss].
  split; [|exact Hiss]. specialize (Hiss _ _ eq_refl). split; simpl; try done.
  destruct uq_attempts0 as [HN Hall]. rw fmap_app /=. split.
  - apply NoDup_snoc; [done|]. eapply existsb_false_not_in; [|exact Hid].
    intros a Ha. by apply String.eqb_eq.
  - intros id [H| ->%list_elem_of_singleton]%elem_of_app; [by apply Hall|done].
Qed.

Lemma soundly_insert_verification row :
  within (soundly (Some ("verif", va_attempt_id row))) (insert_verification row).
Proof.
  apply soundly_row. intros t [[_ Hid%negb_true_iff]%andb_true_iff Hseq%negb_true_iff]%andb_true_iff [[] Hiss].
  split; [|exact Hiss]. specialize (Hiss _ _ eq_refl). split; simpl; try done.
  - destruct uq_verifications0 as [HN Hall]. rw fmap_app /=. split.
    + apply NoDup_snoc; [done|]. eapply existsb_false_not_in; [|exact Hid].
      intros a Ha. by apply String.eqb_eq.
    + intros id [H| ->%list_elem_of_singleton]%elem_of_app; [by apply Hall|done].
  - rw fmap_app /=. apply NoDup_snoc; [done|]. eapply existsb_false_not_in; [|exact Hseq].
    intros a [= E1 E2]. simpl. by rw E1 E2 String.eqb_refl Z.eqb_refl.
Qed.

Lemma soundly_insert_result fresh row : within (soundly fresh) (insert_result row).
Proof.
  apply soundly_row. intros t [_ Hid%negb_true_iff]%andb_true_iff [[] Hiss].
  split; [|exact Hiss]. split; simpl; try done. rw fmap_app /=. apply NoDup_snoc; [done|].
  eapply existsb_false_not_in; [|exact Hid]. intros a [= E1 E2]. simpl. by rw E1 E2 !String.eqb_refl.
Qed.

Lemma soundly_upsert fresh row : within (soundly fresh) (upsert_approval row).
Proof.
  apply soundly_row. intros t _. simpl.
  destruct (existsb (is_approval (ap_task_id row) (ap_fingerprint row)) (tbl_approvals t)) eqn:Hex.
  - apply soundly_keys. rw /keys_of /= Hex. by rw fmap_updated.
  - intros [[] Hiss]. split; [|exact Hiss]. split; simpl; try done. rw Hex fmap_app /=. apply NoDup_snoc; [done|].
    eapply existsb_false_not_in; [|exact Hex]. intros a [= E1 E2]. by rw /is_approval E1 E2 !String.eqb_refl.
Qed.

Lemma soundly_gates fresh taskID : within (soundly fresh) (completion_gates taskID).
Proof. rw /completion_gates. db_walk. Qed.

Ltac soundly_walk := repeat first
  [ progress intros
  | apply (soundly_insert_action (action_row _ _ _ _)) | apply (soundly_insert_attempt (attempt_row _ _ _))
  | apply (soundly_insert_verification (verification_row _ _ _ _))
  | apply soundly_append | apply soundly_gates | apply soundly_task | apply soundly_insert_result
  | apply soundly_upsert | (apply soundly_actions; done) | (apply soundly_attempts; done)
  | (apply soundly_row; intros ? _; by apply soundly_keys)
  | progress db_walk
  | (apply soundly_statement; by intros ? ? ? [= _ <-]) ].

(** An operation whose first statement issues an identity. *)
Lemma soundly_issuing prefix {A} (body : string → string → DB A) :
  (∀ at_ id, within (soundly (Some (prefix, id))) (body at_ id)) →
  within (soundly None) (at_ ←? now; transaction (check (nextIdentity prefix) (body at_))).
Proof.
  intros Hbody. apply (within_check (soundly None)); [apply (within_now (soundly None))|intros at_].
  apply (within_transaction (soundly None)). by apply soundly_identity.
Qed.

Lemma soundly_perform o : within (soundly None) (perform o).
Proof.
  destruct o; cbn [perform]; rw /ignore.
  1: apply (within_check (soundly None));
    [apply (soundly_issuing "action")|intros; apply (within_return (soundly None))].
  3: apply (within_check (soundly None));
    [apply (soundly_issuing "exec")|intros; apply (within_return (soundly None))].
  8: apply (soundly_issuing "verif").
  all: soundly_walk.
Qed.

(** The keys that the schema declares unique, and the counter they come from,
    after an operation: what the models of the constraints give. *)
Lemma identities_unique_step o s :
  unique (keys_of (tables s)) → unique (keys_of (tables (perform o s).2)).
Proof. intros HU. assert (sound None (tables s)) as Hs by by split. by apply (soundly_perform o s) in Hs as []. Qed.

(** ** What the operations around an effect write *)

Lemma insert_row_ok table ok f s u s' :
  insert_row table ok f s = (inr u, s') → ok (tables s) = true ∧ tables s' = f (tables s).
Proof. intros E%statement_ok. destruct (ok (tables s)); [|done]. by injection E. Qed.

Lemma nextIdentity_ok prefix s id s' :
  nextIdentity prefix s = (inr id, s') →
  id = identity prefix (tbl_identity_sequence (tables s) + 1)
  ∧ tables s' = (tables s) <| tbl_identity_sequence ::= Z.succ |>.
Proof. by intros [= <- <-]%statement_ok. Qed.

Lemma update_actions_ok p f s n s' :
  update_actions p f s = (inr n, s') →
  n = selected p (tbl_actions (tables s)) ∧ tables s' = (tables s) <| tbl_actions ::= updated p f |>.
Proof. by intros [= <- <-]%statement_ok. Qed.

Lemma update_attempts_ok status p f s n s' :
  update_attempts status p f s = (inr n, s') →
  n = selected p (tbl_tool_attempts (tables s)) ∧ (n = 0%nat ∨ attempt_status status = true)
  ∧ tables s' = (tables s) <| tbl_tool_attempts ::= updated p f |>.
Proof.
  intros E%statement_ok. destruct (_ || _) eqn:Ho; [|done]. injection E as <- <-.
  apply orb_true_iff in Ho as [H%Nat.eqb_eq|]; auto.
Qed.

Lemma selected_pos {A} (p : A → bool) xs : Nat.eqb (selected p xs) 0 = false → ∃ x, x ∈ xs ∧ p x = true.
Proof.
  rw /selected. intros H%Nat.eqb_neq. destruct (List.filter p xs) as [|x rest] eqn:E; [done|].
  assert (In x (List.filter p xs)) as [Hx Hp]%filter_In by (rw E; by left).
  exists x. split; [by apply list_elem_of_In|done].
Qed.

(** The event that an operation appends; its payload apart, what the journal
    theorem says. *)
Definition with_event (t : Tables) (t' : Tables) : Prop :=
  ∃ event, t' = t <| tbl_events ::= λ events, events ++ [event] |>.

Lemma append_with taskID payload at_ s u s' :
  appendEvent taskID payload at_ s = (inr u, s') → with_event (tables s) (tables s').
Proof. intros (event & -> & _)%appendEvent_ok. by exists event. Qed.

Ltac act_inv := repeat first [progress db_inv | match goal with
  | H : transaction _ _ = (inr _, _) |- _ => apply transaction_ok in H as (? & ? & ? & H & ?)
  | H : nextIdentity _ _ = (inr _, _) |- _ => apply nextIdentity_ok in H as [-> ?]
  | H : insert_action _ _ = (inr _, _) |- _ => apply insert_row_ok in H as [? ?]
  | H : insert_attempt _ _ = (inr _, _) |- _ => apply insert_row_ok in H as [? ?]
  | H : insert_result _ _ = (inr _, _) |- _ => apply insert_row_ok in H as [? ?]
  | H : insert_decision _ _ = (inr _, _) |- _ => apply insert_row_ok in H as [? ?]
  | H : upsert_approval _ _ = (inr _, _) |- _ => apply insert_row_ok in H as [? ?]
  | H : update_actions _ _ _ = (inr _, _) |- _ => apply update_actions_ok in H as [-> ?]
  | H : update_attempts _ _ _ _ = (inr _, _) |- _ => apply update_attempts_ok in H as (-> & ? & ?)
  | H : appendEvent _ _ _ _ = (inr _, _) |- _ => apply append_with in H
  | H : negb _ = true |- _ => apply negb_true_iff in H
  | H : _ && _ = true |- _ => apply andb_true_iff in H as [? H]
  end].

Lemma RecordAction_ok record s id s' :
  RecordAction record s = (inr id, s') → ∃ at_ sequence,
    id = identity "action" (tbl_identity_sequence (tables s) + 1) ∧ has_action (tables s) id = false
    ∧ has_task (tables s) (ar_TaskID record) = true
    ∧ with_event ((tables s) <| tbl_identity_sequence ::= Z.succ |>
        <| tbl_actions ::= λ rows, rows ++ [action_row record id sequence at_] |>) (tables s').
Proof. rw /RecordAction. intros E. act_inv. db_subst. simpl in *. act_inv. eauto 8. Qed.

Lemma RecordWritePolicyDecision_ok record s u s' :
  RecordWritePolicyDecision record s = (inr u, s') → ∃ d, d ∈ tbl_decisions (tables s') ∧ wd_task_id d = pd_TaskID record
    ∧ wd_action_id d = Redact (pd_ActionID record) ∧ wd_decision d = Redact (pd_Decision record).
Proof.
  rw /RecordWritePolicyDecision. intros E. act_inv. db_subst. simpl in *. act_inv.
  match goal with H : with_event _ _ |- _ => destruct H as [event H] end.
  repeat match goal with H : tables _ = _ |- _ => rw H; clear H end.
  eexists. split_and!; [apply elem_of_app; right; by apply list_elem_of_singleton|done..].
Qed.

(** The intent.  When an attempt is prepared, its row is there with the
    status prepared under a new identity, its action exists and has left the
    status planned, and nothing else but the counter and the journal changed. *)
Theorem PrepareToolAttempt_spec record s id s' :
  PrepareToolAttempt record s = (inr id, s') →
  let t := tables s in ∃ at_,
    id = identity "exec" (tbl_identity_sequence t + 1) ∧ has_execution t id = false
    ∧ has_action t (tp_ActionID record) = true
    ∧ ta_status (attempt_row record id at_) = "prepared"%string
    ∧ with_event (t <| tbl_identity_sequence ::= Z.succ |>
        <| tbl_tool_attempts ::= λ rows, rows ++ [attempt_row record id at_] |>
        <| tbl_actions ::= updated (is_action (tp_TaskID record) (tp_ActionID record) "planned")
             (λ a, a <| ac_status := "prepared" |>) |>) (tables s').
Proof. rw /PrepareToolAttempt. intros E. act_inv. db_subst. simpl in *. act_inv. eauto 10. Qed.

Definition outcome_of (record : ToolAttemptCompleted) (at_ : string) (a : ToolAttemptRow) : ToolAttemptRow :=
  a <| ta_status := effective_status record |> <| ta_classification := Redact (tc_Classification record) |>
    <| ta_evidence_id := tc_EvidenceID record |> <| ta_duration_ns := tc_DurationNanos record |>
    <| ta_completed_at := at_ |>.

(** An observation can be cited when its attempt completed and it succeeded. *)
Definition citable (record : ToolAttemptCompleted) : bool :=
  String.eqb (effective_status record) "completed" && ob_Success (tc_Observation record)
  && negb (String.eqb (tc_EvidenceID record) "").

Definition cited_rows (record : ToolAttemptCompleted) (at_ : string) : list ToolResultRow :=
  if citable record then
    match ob_Data (tc_Observation record), ob_Metadata (tc_Observation record) with
    | Some data, Some metadata => [result_row record data metadata at_]
    | _, _ => []
    end
  else [].

Definition settled (action : option string) (status : string) (a : ActionRow) : ActionRow :=
  if bool_decide (action = Some (ac_action_id a)) && String.eqb (ac_status a) "prepared"
  then a <| ac_status := if String.eqb status "completed" then "completed" else "failed" |> else a.

Lemma find_updated {A} (q p : A → bool) (f : A → A) xs :
  (∀ x, q (f x) = q x) →
  List.find q (updated p f xs) = (λ x, if p x then f x else x) <$> List.find q xs.
Proof.
  intros Hq. induction xs as [|x xs IH]; [done|]. cbn [List.find]. rw /updated fmap_cons -/(updated p f xs) /=.
  assert (q (if p x then f x else x) = q x) as -> by (destruct (p x); auto). by destruct (q x).
Qed.

Lemma action_of_updated t p f executionID :
  (∀ a, intent_of (f a) = intent_of a) →
  action_of (t <| tbl_tool_attempts ::= updated p f |>) executionID = action_of t executionID.
Proof.
  intros Hf. rw /action_of /=. rw find_updated.
  - intros a. specialize (Hf a). rw /intent_of in Hf. by injection Hf as ->.
  - destruct (List.find _ _) as [a|]; [|done]. simpl. destruct (p a); [|done].
    specialize (Hf a). rw /intent_of in Hf. congruence.
Qed.

Lemma results_nil t : t <| tbl_tool_results ::= λ rows, rows ++ [] |> = t.
Proof. destruct t. cbv -[app]. by rw app_nil_r. Qed.

Lemma CompleteToolAttempt_ok record s u s' :
  CompleteToolAttempt record s = (inr u, s') →
  let t := tables s in ∃ at_,
    (∃ a, a ∈ tbl_tool_attempts t ∧ is_attempt (tc_TaskID record) (tc_ExecutionID record) a = true)
    ∧ attempt_status (effective_status record) = true
    ∧ (citable record = true → is_Some (ob_Data (tc_Observation record))
                              ∧ is_Some (ob_Metadata (tc_Observation record)))
    ∧ with_event (t
        <| tbl_tool_attempts ::= updated (is_attempt (tc_TaskID record) (tc_ExecutionID record))
                                   (outcome_of record at_) |>
        <| tbl_actions ::= fmap (settled (action_of t (tc_ExecutionID record)) (effective_status record)) |>
        <| tbl_tool_results ::= λ rows, rows ++ cited_rows record at_ |>) (tables s').
Proof.
  rw /CompleteToolAttempt. intros E. act_inv. rename x into at_. db_subst.
  assert (∃ a, a ∈ tbl_tool_attempts (tables s)
            ∧ is_attempt (tc_TaskID record) (tc_ExecutionID record) a = true) as Ha by by apply selected_pos.
  assert (attempt_status (effective_status record) = true) as Hst.
  { destruct H2 as [H2|]; [|done]. apply Nat.eqb_neq in H3. by rw H2 in H3. }
  match goal with H : tables x10 = _ |- _ => rename H into Hx end.
  rw (action_of_updated _ _ _ (tc_ExecutionID record)) in Hx; [done|].
  exists at_. split_and!; [done|done| |].
  - intros Hc. rw -/(citable record) Hc in H6.
    by destruct (ob_Data (tc_Observation record)), (ob_Metadata (tc_Observation record)).
  - assert (tables x12 = (tables x10) <| tbl_tool_results ::= λ rows, rows ++ cited_rows record at_ |>) as Hx12.
    { rw -/(citable record) in H6. rw /cited_rows. destruct (citable record).
      - destruct (ob_Data (tc_Observation record)), (ob_Metadata (tc_Observation record)); act_inv; by db_subst.
      - act_inv. by rw results_nil. }
    rw Hx12 Hx in E. exact E.
Qed.

(** ** Where evidence comes from *)

Definition same_results (t t' : Tables) : Prop := tbl_tool_results t' = tbl_tool_results t.

#[local] Instance same_results_preorder : PreOrder same_results.
Proof. split; [done|]. rw /same_results. intros t1 t2 t3 H1 H2. congruence. Qed.

Lemma same_results_statement {A} (f : Tables → StoreError + (A * Tables)) :
  (∀ t a t', f t = inr (a, t') → tbl_tool_results t' = tbl_tool_results t) →
  within same_results (statement f).
Proof. apply (within_statement same_results). Qed.

Lemma same_results_row table ok f :
  (∀ t, tbl_tool_results (f t) = tbl_tool_results t) → within same_results (insert_row table ok f).
Proof.
  intros Hf. apply same_results_statement. intros t u t'. case_match; [intros [= _ <-]; apply Hf|done].
Qed.

Lemma same_results_task taskID p f : within same_results (update_task taskID p f).
Proof.
  apply same_results_statement. intros t n t' [= Ht].
  destruct (tbl_tasks t !! taskID) as [row|]; [|by injection Ht as _ <-].
  by destruct (p (tk_status row)); injection Ht as _ <-.
Qed.

Lemma same_results_gates taskID : within same_results (completion_gates taskID).
Proof. rw /completion_gates. db_walk. Qed.

Ltac results_walk := repeat first
  [ apply same_results_gates | apply same_results_task | (apply same_results_row; done) | progress db_walk
  | (apply same_results_statement; intros ? ? ?; repeat case_match; try done; by intros [= _ <-]) ].

Lemma same_results_perform o :
  (∃ record, o = DoCompleteToolAttempt record) ∨ within same_results (perform o).
Proof.
  destruct o; try (left; by eexists); right; cbn [perform]; rw /ignore; results_walk.
Qed.

(** Evidence.  Of the operations of [Operation], only the completion of an attempt
    with a successful observation and an evidence id adds a row of evidence; it
    belongs to that attempt, which then has the status completed and names the
    evidence.  The other writer of evidence, the settlement of an interrupted write
    by recovery, is [ReconcileWriteAttempt] of RecoveryStore and no [Operation]. *)
Theorem evidence_of_completed o s row :
  let t := tables s in
  let t' := tables (perform o s).2 in
  row ∈ tbl_tool_results t' → row ∉ tbl_tool_results t →
  ∃ record, o = DoCompleteToolAttempt record
    ∧ citable record = true ∧ tr_evidence_id row = tc_EvidenceID record
    ∧ tr_untrusted row = ob_Untrusted (tc_Observation record)
    ∧ ∃ a, a ∈ tbl_tool_attempts t' ∧ ta_execution_id a = tr_execution_id row
        ∧ ta_task_id a = tr_task_id row ∧ ta_status a = "completed"%string
        ∧ ta_evidence_id a = tr_evidence_id row.
Proof.
  intros t t' Hin Hnot. destruct (same_results_perform o) as [[record ->]|Hsame].
  2:{ specialize (Hsame s). rw /same_results -/t -/t' in Hsame. by rw Hsame in Hin. }
  exists record. destruct (perform _ s) as [[e|u] s'] eqn:E; subst t'.
  { apply aborts_perform in E. simpl in Hin. by rw E in Hin. }
  apply CompleteToolAttempt_ok in E as (at_ & (a & Ha & His) & _ & _ & event & E). simpl in Hin |- *.
  rw E /= in Hin |- *. apply elem_of_app in Hin as [|Hin]; [done|]. rw /cited_rows in Hin.
  destruct (citable record) eqn:Hc; [|by apply elem_of_nil in Hin].
  destruct (ob_Data (tc_Observation record)), (ob_Metadata (tc_Observation record));
    try by apply elem_of_nil in Hin.
  apply list_elem_of_singleton in Hin as ->. simpl. split_and!; [done..|].
  exists (outcome_of record at_ a). apply andb_true_iff in His as [Hid%String.eqb_eq Htask%String.eqb_eq].
  apply andb_true_iff in Hc as [[Hst%String.eqb_eq _]%andb_true_iff _].
  split_and!; [|done..]. apply list_elem_of_fmap. exists a. split; [|done].
  by rw /is_attempt Hid Htask !String.eqb_refl.
Qed.

(** ** Approvals *)

Lemma approved_spec t taskID fingerprint :
  approved t taskID fingerprint = existsb (is_approval taskID fingerprint) (tbl_approvals t).
Proof. done. Qed.

Lemma updated_exists {A} (p : A → bool) (f : A → A) xs :
  (∀ x, p x = true → p (f x) = true) → existsb p xs = true → existsb p (updated p f xs) = true.
Proof.
  intros Hf (x & Hx%list_elem_of_In & Hp)%existsb_exists. apply existsb_exists. exists (f x).
  split; [|by apply Hf]. apply list_elem_of_In, list_elem_of_fmap. exists x. by rw Hp.
Qed.

Lemma upsert_approved row s u s' :
  upsert_approval row s = (inr u, s') →
  (ap_decision row = "approved" ∨ ap_decision row = "rejected")%string
  ∧ approved (tables s') (ap_task_id row) (ap_fingerprint row) = true
  ∧ tbl_actions (tables s') = tbl_actions (tables s) ∧ tbl_decisions (tables s') = tbl_decisions (tables s).
Proof.
  intros [Hok ->]%insert_row_ok. simpl. apply andb_true_iff in Hok as [[_ Hd%orb_true_iff]%andb_true_iff _].
  split_and!; [by destruct Hd as [->%String.eqb_eq| ->%String.eqb_eq]; auto| |done|done].
  rw approved_spec /=. set (conflict := is_approval _ _). destruct (existsb conflict (tbl_approvals (tables s))) eqn:Hex.
  - apply updated_exists; [|done]. intros x Hx. exact Hx.
  - rw existsb_app orb_true_iff /=. right. by rw /conflict /is_approval !String.eqb_refl.
Qed.

Lemma elem_of_pending t taskID p :
  p ∈ pending_rows t taskID → ∃ d a, d ∈ tbl_decisions t ∧ a ∈ tbl_actions t ∧ wd_task_id d = taskID
    ∧ ac_task_id a = taskID ∧ ac_action_id a = wd_action_id d ∧ pa_ActionID p = ac_action_id a
    ∧ wd_decision d = "approval_required"%string
    ∧ approved t taskID (effectiveFingerprintExpr a) = false.
Proof.
  rw /pending_rows. intros (d & Hd%list_elem_of_In & Hp)%list_elem_of_In%in_flat_map.
  apply list_elem_of_In, list_elem_of_omap in Hp as (a & Ha & E).
  destruct (_ && _) eqn:Hc; [|done]. injection E as <-. exists d, a.
  apply andb_true_iff in Hc as [[[[H1%String.eqb_eq H2%String.eqb_eq]%andb_true_iff H3%String.eqb_eq]%andb_true_iff
    H4%String.eqb_eq]%andb_true_iff H5%negb_true_iff]. subst. simpl. rw -H2. split_and!; try done; congruence.
Qed.

(** Approvals.  An approval names an action of the task that has an
    identity, and records the decision approved or rejected.  From then on no
    proposal of the task with that identity is pending: neither the action that
    was decided nor any other proposal of the same effect.  (The identity is
    stored redacted; it must be one that redaction leaves alone.) *)
Theorem RecordApproval_spec record s id s' :
  unique (keys_of (tables s)) → RecordApproval record s = (inr id, s') →
  ∃ fingerprint, fingerprint_of (tables s) (av_TaskID record) (av_ActionID record) = Some fingerprint
    ∧ fingerprint ≠ ""%string
    ∧ (Redact (av_Decision record) = "approved" ∨ Redact (av_Decision record) = "rejected")%string
    ∧ (Redact fingerprint = fingerprint → ∀ a p,
         a ∈ tbl_actions (tables s') → effectiveFingerprintExpr a = fingerprint →
         p ∈ pending_rows (tables s') (av_TaskID record) → pa_ActionID p ≠ ac_action_id a).
Proof.
  intros HU. rw /RecordApproval. intros (at_ & s0 & H0%now_ok & E)%check_ok.
  apply transaction_ok in E as (s1 & s2 & H1 & E & ->).
  apply check_ok in E as (found & s3 & [-> H3]%query_ok & E). rw H1 H0 in E.
  destruct (fingerprint_of _ _ _) as [fingerprint|]; [|done].
  apply check_ok in E as ([] & s4 & [Hne%negb_true_iff%String.eqb_neq ->]%assert_ok & E).
  apply check_ok in E as ([] & s5 & (Hd & Hap & Hac & _)%upsert_approved & E).
  apply check_ok in E as ([] & s6 & (event & Hev & _)%appendEvent_ok & [= _ <-]).
  exists fingerprint. split_and!; [done|done|done|].
  intros Hred a p Ha Hfp Hp Hid. apply elem_of_pending in Hp as (d & a' & _ & Ha' & _ & _ & Haid & Hpid & _ & Hno).
  rw Hev /= in Ha Ha'. rw Hac H3 H1 H0 in Ha Ha'.
  assert (a' = a) as ->.
  { apply list_elem_of_lookup in Ha as [i Hi], Ha' as [j Hj].
    assert (i = j) as ->; [|congruence]. destruct HU as [_ [HN _] _ _ _ _ _ _].
    eapply NoDup_lookup; [exact HN|..]; simpl; rw list_lookup_fmap ?Hi ?Hj /=; [done|congruence]. }
  simpl in Hap. rw approved_spec Hev /= in Hno. rw approved_spec Hred -Hfp in Hap. congruence.
Qed.

(** ** Recovery settles an attempt once *)

(** The attempt can no longer be reconciled. *)
Definition attempt_settled (t : Tables) (taskID executionID : string) : Prop :=
  ∀ a, a ∈ tbl_tool_attempts t → is_attempt taskID executionID a = true → reconcilable (ta_status a) = false.

Lemma reconcile_ok taskID executionID status reason s u s' :
  ReconcileToolAttempt taskID executionID status reason s = (inr u, s') →
  (∃ a, a ∈ tbl_tool_attempts (tables s) ∧ is_attempt taskID executionID a = true
      ∧ reconcilable (ta_status a) = true)
  ∧ ∃ at_, tbl_tool_attempts (tables s') =
      updated (λ a, is_attempt taskID executionID a && reconcilable (ta_status a)) (λ a,
        a <| ta_status := status |> <| ta_recovery_reason := Redact reason |> <| ta_completed_at := at_ |>)
        (tbl_tool_attempts (tables s)).
Proof.
  rw /ReconcileToolAttempt. intros (at_ & s0 & H0%now_ok & E)%check_ok.
  apply transaction_ok in E as (s1 & s2 & H1 & E & ->).
  apply check_ok in E as (n & s3 & (-> & _ & H3)%update_attempts_ok & E).
  apply check_ok in E as ([] & s4 & [Hn%negb_true_iff%selected_pos ->]%assert_ok & E).
  rw H1 H0 in Hn H3. destruct Hn as (a & Ha & [Hat Hrec]%andb_true_iff).
  split; [by exists a|]. exists at_.
  apply check_ok in E as ([] & s5 & E5 & (event & -> & _)%appendEvent_ok).
  rw /=. assert (tbl_tool_attempts (tables s5) = tbl_tool_attempts (tables s3)) as ->; [|by rw H3].
  destruct (String.eqb status _); act_inv; [by db_subst|done].
Qed.

(** C24: recovery.  Only an attempt that is not terminal is reconciled.  Once it
    is settled, with whatever terminal status, no later call of recovery changes
    it, whatever the disk does: the call fails and leaves the tables alone. *)
Theorem reconcile_once taskID executionID status reason s u s' :
  ReconcileToolAttempt taskID executionID status reason s = (inr u, s') → reconcilable status = false →
  (∃ a, a ∈ tbl_tool_attempts (tables s) ∧ is_attempt taskID executionID a = true
      ∧ reconcilable (ta_status a) = true)
  ∧ ∀ status' reason' s1, tables s1 = tables s' →
      ∃ e s2, ReconcileToolAttempt taskID executionID status' reason' s1 = (inl e, s2)
        ∧ tables s2 = tables s'.
Proof.
  intros [Hex (at_ & Hrows)]%reconcile_ok Hst. split; [done|]. intros status' reason' s1 H1.
  destruct (ReconcileToolAttempt _ _ _ _ s1) as [[e|u'] s2] eqn:E.
  { exists e, s2. split; [done|].
    by rw (aborts_perform (DoReconcileToolAttempt taskID executionID status' reason') _ _ _ E). }
  apply reconcile_ok in E as [(a & Ha & Hat & Hrec) _]. rw H1 Hrows in Ha.
  apply list_elem_of_fmap in Ha as (b & -> & Hb). destruct (_ && _) eqn:Hp; simpl in *; [congruence|].
  by rw Hat Hrec in Hp.
Qed.
End identities.
