(* ===== verification/ActionScenarios.v ===== *)
(** * Concrete actions

    One write of a task from its proposal to the end of the task: proposed,
    stopped for an approval, approved, prepared, completed, verified, finalized.
    The theorems on the durable operations are applied to this run. *)

From stdpp Require Import relations.
From S2P Require Import Prelude GoTime Text Cycles Database WorkUnits Actions ActionLaws AttemptLaws UnitScenarios.

Local Open Scope string_scope.
Local Open Scope runstead_scope.

#[local] Existing Instance sound_disk.
#[local] Existing Instance plain_codec.

(** ** The run *)

Definition proposal : ActionRecord := {|
  ar_TaskID := "task"; ar_WorkUnitID := ""; ar_Tool := "write_file"; ar_Arguments := "{}";
  ar_Fingerprint := "fp"; ar_RecipeFingerprint := ""; ar_WorkspaceSignature := "sig" |}.

Definition proposed : Store := (perform (DoRecordAction proposal) empty_store).2.

Definition question : WritePolicyDecision := {|
  pd_TaskID := "task"; pd_ActionID := "action-000001"; pd_Tool := "write_file";
  pd_Decision := "approval_required"; pd_Reason := "" |}.

Definition asked : Store := (perform (DoRecordWritePolicyDecision question) proposed).2.

Definition decision : Approval := {|
  av_ApprovalID := ""; av_TaskID := "task"; av_ActionID := "action-000001"; av_Fingerprint := "";
  av_Decision := "approved"; av_Reason := ""; av_Actor := "" |}.

Definition decided : Store := (perform (DoRecordApproval decision) asked).2.

Definition intent : ToolAttemptPrepared := {|
  tp_TaskID := "task"; tp_WorkUnitID := ""; tp_ActionID := "action-000001"; tp_Tool := "write_file";
  tp_Arguments := "{}"; tp_RecoveryClass := 2; tp_EffectAfterHash := "hash";
  tp_PlannedEffect := {| pe_Diff := "+x"; pe_DiffBytes := 2; pe_DiffTruncated := false |};
  tp_ProcessIntent := "" |}.

Definition prepared : Store := (perform (DoPrepareToolAttempt intent) decided).2.

Definition outcome : ToolAttemptCompleted := {|
  tc_TaskID := "task"; tc_ExecutionID := "exec-000002"; tc_Status := "completed"; tc_Classification := "";
  tc_EvidenceID := "obs-000001"; tc_DurationNanos := 5;
  tc_Observation := {| ob_ID := "obs-000001"; ob_Tool := "write_file"; ob_Success := true; ob_Failure := None;
    ob_Untrusted := true; ob_Data := Some "{}"; ob_Metadata := Some "{}"; ob_ExitCode := None |} |}.

Definition completed : Store := (perform (DoCompleteToolAttempt outcome) prepared).2.

Definition verification (unit : string) : VerificationAttemptRecord := {|
  vr_TaskID := "task"; vr_WorkUnitID := unit; vr_Decision := "passed"; vr_Summary := "ok"; vr_ReportJSON := "{}";
  vr_Checks := [{| cr_CheckID := "c"; cr_Type := "file_exists"; cr_Status := "passed"; cr_Expected := "";
    cr_Observed := ""; cr_Evidence := None; cr_Reason := "" |}] |}.

Definition verified : Store := (perform (DoSaveVerificationAttempt (verification "")) completed).2.

Definition final : TaskFinalize := {|
  tf_TaskID := "task"; tf_Outcome := "completed"; tf_StopReason := "done"; tf_Summary := "written";
  tf_Classification := "passed"; tf_Evidence := Some ["obs-000001"]; tf_Counters := [1; 1; 1; 0; 0; 0]%Z |}.

Definition finalized : Store := (perform (DoFinalizeTask final) verified).2.

(** Without the approval the gate holds the task back. *)
Example pending_blocks :
  (FinalizeTask final (SaveVerificationAttempt (verification "") asked).2).1 = inl ErrPendingApprovals.
Proof. by vm_compute. Qed.

Example unverified_blocks : (FinalizeTask final completed).1 = inl ErrVerificationRequired.
Proof. by vm_compute. Qed.

(** The gate of a task counts the verification of one of its units: nothing at
    the level of the task was verified here. *)
Example unit_verification_opens_gate :
  (FinalizeTask final (SaveVerificationAttempt (verification "unit") completed).2).1 = inr tt.
Proof. by vm_compute. Qed.

(** ** Witnesses *)

Lemma perform_completed_witness : ∃ record,
  DoFinalizeTask final = DoFinalizeTask record ∧ tf_TaskID record = "task"
  ∧ tf_Outcome record = "completed" ∧ gated (tables verified) "task".
Proof. apply (perform_completed (DoFinalizeTask final) verified "task"); vm_compute; congruence. Defined.

Lemma unique_empty : unique (keys_of (tables empty_store)).
Proof. split; simpl; try apply NoDup_nil_2; try lia; split; try apply NoDup_nil_2; by intros id ?%elem_of_nil. Qed.

Lemma unique_asked : unique (keys_of (tables asked)).
Proof.
  apply (identities_unique_step (DoRecordWritePolicyDecision question) proposed).
  apply (identities_unique_step (DoRecordAction proposal) empty_store), unique_empty.
Qed.

Lemma RecordApproval_spec_witness :
  pending_rows (tables asked) "task" ≠ [] ∧ ∃ fingerprint,
    fingerprint_of (tables asked) (av_TaskID decision) (av_ActionID decision) = Some fingerprint
    ∧ fingerprint ≠ "" ∧ (Redact (av_Decision decision) = "approved" ∨ Redact (av_Decision decision) = "rejected")
    ∧ (Redact fingerprint = fingerprint → ∀ a p,
         a ∈ tbl_actions (tables (RecordApproval decision asked).2) → effectiveFingerprintExpr a = fingerprint →
         p ∈ pending_rows (tables (RecordApproval decision asked).2) (av_TaskID decision) →
         pa_ActionID p ≠ ac_action_id a).
Proof.
  split; [by vm_compute|].
  apply (RecordApproval_spec decision asked "approval-task-fp" (RecordApproval decision asked).2 unique_asked).
  by vm_compute.
Defined.

Lemma PrepareToolAttempt_spec_witness : ∃ at_,
  "exec-000002" = identity "exec" (tbl_identity_sequence (tables decided) + 1)
  ∧ has_execution (tables decided) "exec-000002" = false
  ∧ has_action (tables decided) (tp_ActionID intent) = true
  ∧ ta_status (attempt_row intent "exec-000002" at_) = "prepared"
  ∧ with_event ((tables decided) <| tbl_identity_sequence ::= Z.succ |>
      <| tbl_tool_attempts ::= λ rows, (rows ++ [attempt_row intent "exec-000002" at_])%list |>
      <| tbl_actions ::= updated (is_action (tp_TaskID intent) (tp_ActionID intent) "planned")
           (λ a, a <| ac_status := "prepared" |>) |>) (tables (PrepareToolAttempt intent decided).2).
Proof.
  apply (PrepareToolAttempt_spec intent decided "exec-000002" (PrepareToolAttempt intent decided).2).
  by vm_compute.
Defined.

(** The row of evidence. *)
Definition evidence_row : ToolResultRow := result_row outcome "{}" "{}" "25".

Lemma evidence_of_completed_witness : ∃ record,
  DoCompleteToolAttempt outcome = DoCompleteToolAttempt record
  ∧ citable record = true ∧ tr_evidence_id evidence_row = tc_EvidenceID record
  ∧ tr_untrusted evidence_row = ob_Untrusted (tc_Observation record)
  ∧ ∃ a, a ∈ tbl_tool_attempts (tables completed) ∧ ta_execution_id a = tr_execution_id evidence_row
      ∧ ta_task_id a = tr_task_id evidence_row ∧ ta_status a = "completed"
      ∧ ta_evidence_id a = tr_evidence_id evidence_row.
Proof.
  apply (evidence_of_completed (DoCompleteToolAttempt outcome) prepared evidence_row).
  - replace (tbl_tool_results _) with [evidence_row] by by vm_compute. by apply list_elem_of_singleton.
  - replace (tbl_tool_results _) with (@nil ToolResultRow) by by vm_compute. apply not_elem_of_nil.
Defined.

Lemma reconcile_once_witness :
  (∃ a, a ∈ tbl_tool_attempts (tables prepared) ∧ is_attempt "task" "exec-000002" a = true
      ∧ reconcilable (ta_status a) = true)
  ∧ ∀ status' reason' s1,
      tables s1 = tables (ReconcileToolAttempt "task" "exec-000002" "reconciled" "r" prepared).2 →
      ∃ e s2, ReconcileToolAttempt "task" "exec-000002" status' reason' s1 = (inl e, s2)
        ∧ tables s2 = tables (ReconcileToolAttempt "task" "exec-000002" "reconciled" "r" prepared).2.
Proof.
  apply (reconcile_once "task" "exec-000002" "reconciled" "r" prepared tt
    (ReconcileToolAttempt "task" "exec-000002" "reconciled" "r" prepared).2); by vm_compute.
Defined.
