(* ===== verification/Verifier.v ===== *)
(** * The verifier of completion proposals (internal/verifier)

    Acceptance checks and plans (plan.go, without the decoding of plans), the
    report of one verification (verifier.go) and its evaluation (verify.go).
    What the verifier sees of the world is an [Observer]: its answers to the
    questions of one verification, those on files numbered in the order in
    which they are asked.  Decoding the JSON of evidence is a parameter. *)

From stdpp Require Import pretty.
From S2P Require Import Prelude GoTime Text Policy Patch.
From Stdlib Require Import Ascii.

Local Open Scope runstead_scope.

(** ** Sorting by a key

    [sort.Slice] leaves the order of elements with equal keys open.  [Sorter]
    is the order the library produces. *)

Class Sorter := {
  sort_by : ∀ {A : Type}, (A → string) → list A → list A;
  sort_by_perm : ∀ {A : Type} (key : A → string) xs, sort_by key xs ≡ₚ xs;
  sort_by_sorted : ∀ {A : Type} (key : A → string) xs,
    StronglySorted (λ x y, String.le (key x) (key y)) (sort_by key xs)
}.

Definition ToolRunRecipe : string := "run_recipe".

(** ** Checks and plans (plan.go) *)

Definition PlanVersion : Z := 1.

Definition CheckFileExists : string := "file_exists".
Definition CheckFileAbsent : string := "file_absent".
Definition CheckFileHash : string := "file_hash".
Definition CheckRecipeExitZero : string := "recipe_exit_zero".

Definition AllCheckTypes : list string :=
  [CheckFileExists; CheckFileAbsent; CheckFileHash; CheckRecipeExitZero].

Definition ParseCheckType (value : string) : string + string :=
  match List.find (λ checkType, String.eqb checkType value) AllCheckTypes with
  | Some checkType => inr checkType
  | None => inl "unknown acceptance check type"
  end.

Record Check := {
  ck_ID : string;
  ck_Type : string;
  ck_Path : string;
  ck_SHA256 : string;
  ck_Recipe : string;
  ck_RequireUntruncated : bool
}.

Definition is_hex (c : ascii) : bool :=
  let n := byte_of c in
  (((48 <=? n) && (n <=? 57)) || ((97 <=? n) && (n <=? 102)) || ((65 <=? n) && (n <=? 70)))%Z.

Definition validHexSHA256 (value : string) : bool :=
  if negb (String.length value =? 64)%nat then false
  else forallb is_hex (String.list_ascii_of_string value).

(** [Check.Validate]; [None] is a nil error. *)
Definition Validate (c : Check) : option string :=
  if String.eqb (TrimSpace (ck_ID c)) "" then Some "acceptance check id must not be empty"
  else if String.eqb (ck_Type c) CheckFileExists || String.eqb (ck_Type c) CheckFileAbsent
       || String.eqb (ck_Type c) CheckFileHash then
    if String.eqb (TrimSpace (ck_Path c)) "" then Some "file checks require a path"
    else if String.eqb (ck_Type c) CheckFileHash && negb (validHexSHA256 (ck_SHA256 c)) then
      Some "file_hash requires a sha256"
    else None
  else if String.eqb (ck_Type c) CheckRecipeExitZero then
    if String.eqb (TrimSpace (ck_Recipe c)) "" then Some "recipe_exit_zero requires a recipe id" else None
  else Some "unknown type".

Record Plan := { Version : Z; Checks : list Check }.

(** [ParsePlan], from the decoded plan on. *)
Fixpoint accept_checks (seen : gset string) (checks : list Check) : option string :=
  match checks with
  | [] => None
  | check :: checks' =>
    match Validate check with
    | Some e => Some e
    | None =>
      if bool_decide (ck_ID check ∈ seen) then Some "decode acceptance plan: duplicate check id"
      else accept_checks ({[ck_ID check]} ∪ seen) checks'
    end
  end.

Definition accept_plan (plan : Plan) : string + Plan :=
  if negb (Version plan =? PlanVersion)%Z then inl "decode acceptance plan: unsupported version"
  else match accept_checks ∅ (Checks plan) with Some e => inl e | None => inr plan end.

Definition EmptyPlan : Plan := {| Version := PlanVersion; Checks := [] |}.

(** ** The report (verifier.go) *)

Inductive Decision := DecisionPassed | DecisionFailed | DecisionBlocked | DecisionUncertain.

#[export] Instance Decision_eq_dec : EqDecision Decision.
Proof. solve_decision. Defined.

(** The zero value of a status is the empty text. *)
Inductive CheckStatus := CheckUnset | CheckPassed | CheckFailed | CheckBlocked | CheckUncertain.

#[export] Instance CheckStatus_eq_dec : EqDecision CheckStatus.
Proof. solve_decision. Defined.

Record CheckResult := {
  cr_ID : string;
  cr_Type : string;
  cr_Status : CheckStatus;
  cr_Expected : string;
  cr_Observed : string;
  cr_EvidenceIDs : list string;
  cr_Reason : string
}.

#[export] Instance CheckResult_settable : Settable CheckResult := λ r, {|
  cr_ID := cr_ID r; cr_Type := cr_Type r; cr_Status := cr_Status r; cr_Expected := cr_Expected r;
  cr_Observed := cr_Observed r; cr_EvidenceIDs := cr_EvidenceIDs r; cr_Reason := cr_Reason r |}.

Record ChangedFile := { cf_Path : string; cf_Status : string }.

Record GitObservation := {
  go_CurrentStatus : string;
  go_CurrentDiff : string;
  go_Truncated : bool;
  go_Available : bool;
  go_Failure : string;
  go_PreExisting : list ChangedFile;
  go_DuringTask : list ChangedFile;
  go_BaselineTruncated : bool
}.

Record CitedEvidence := {
  ce_EvidenceID : string;
  ce_ClaimedTool : string;
  ce_Tool : string;
  ce_Exists : bool;
  ce_ToolMatches : bool
}.

Record AttemptRef := { ar_ExecutionID : string; ar_Tool : string; ar_Status : string; ar_Reason : string }.

Record WriteReconciled := {
  wr_Path : string;
  wr_ChangeKind : string;
  wr_AfterHash : string;
  wr_ObservedHash : string;
  wr_Matches : bool;
  wr_EvidenceID : string;
  wr_Superseded : list string
}.

Record Report := {
  rp_TaskID : string;
  rp_AttemptID : string;
  rp_Decision : Decision;
  rp_Summary : string;
  rp_Checks : list CheckResult;
  rp_CitedEvidence : list CitedEvidence;
  rp_UncertainAttempts : list AttemptRef;
  rp_PendingApprovals : list string;
  rp_TruncatedEvidence : list string;
  rp_Git : option GitObservation;
  rp_WriteReconciliation : list WriteReconciled;
  rp_Limitations : list string;
  rp_CreatedAt : string
}.

Record EvidenceClaim := { ec_EvidenceID : string; ec_Tool : string }.

(** [state.RecoveryToolAttempt]. *)
Record RecoveryToolAttempt := {
  ra_ExecutionID : string;
  ra_ActionID : string;
  ra_Tool : string;
  ra_ArgumentsJSON : string;
  ra_Status : string;
  ra_Classification : string;
  ra_RecoveryClass : Z;
  ra_EvidenceID : string;
  ra_RecoveryReason : string;
  ra_EffectAfterHash : string;
  ra_PlannedEffectJSON : string;
  ra_ProcessIntentJSON : string;
  ra_WorkUnitID : string
}.

(** [state.RecoveryEvidence]. *)
Record RecoveryEvidence := {
  re_EvidenceID : string;
  re_ExecutionID : string;
  re_Tool : string;
  re_ArgumentsJSON : string;
  re_DataJSON : string;
  re_MetadataJSON : string
}.

(** [Input]; the verifier does not read the actions of the task. *)
Record Input := {
  in_TaskID : string;
  in_FinalEvidence : list EvidenceClaim;
  in_ToolAttempts : list RecoveryToolAttempt;
  in_Evidence : list RecoveryEvidence;
  in_PendingApprovals : list string;
  in_Plan : option Plan;
  in_BaselineGitStatus : string;
  in_BaselineGitDiff : string;
  in_BaselineGitStatusTruncated : bool;
  in_BaselineGitDiffTruncated : bool;
  in_Now : string
}.

(** What [tools.WriteEvidence] and [recipe.Evidence] record. *)
Record WriteEvidence := {
  we_Path : string;
  we_BeforeHash : string;
  we_AfterHash : string;
  we_ByteCount : Z;
  we_ChangeKind : string;
  we_Outcome : string;
  we_Diff : string;
  we_DiffTruncated : bool;
  we_DiffBytes : Z;
  we_ActionID : string;
  we_ExecutionID : string;
  we_EvidenceID : string
}.

Record PolicyDecision := { rpd_Decision : string; rpd_Reason : string }.

Record Evidence := {
  pe_RecipeID : string;
  pe_Executable : string;
  pe_Argv : list string;
  pe_WorkingDirectory : string;
  pe_Capabilities : list string;
  pe_Policy : PolicyDecision;
  pe_DurationNanos : Z;
  pe_ExitCode : Z;
  pe_Signal : string;
  pe_Stdout : string;
  pe_Stderr : string;
  pe_StdoutBytes : Z;
  pe_StderrBytes : Z;
  pe_StdoutTruncated : bool;
  pe_StderrTruncated : bool;
  pe_TimedOut : bool;
  pe_Canceled : bool;
  pe_NetworkIsolation : string;
  pe_Started : bool;
  pe_ActionID : string;
  pe_ExecutionID : string;
  pe_EvidenceID : string
}.

(** [json.Unmarshal] into the two records; [None] is an error. *)
Class Decoder := {
  UnmarshalWrite : string → option WriteEvidence;
  UnmarshalProcess : string → option Evidence
}.

(** The answers of the environment in one verification: hash, presence and
    error of a file, and text, truncation and error of git. *)
Record Observer := {
  FileSHA256 : nat → string → string * bool * option string;
  GitStatusText : string * bool * option string;
  GitDiffText : string * bool * option string
}.

Record Limits := { MaxChecks : Z; MaxChangedFiles : Z; MaxObservedChars : Z }.

Definition DefaultLimits : Limits := {| MaxChecks := 256; MaxChangedFiles := 512; MaxObservedChars := 512 |}.

Record Verifier := { vf_observer : option Observer; vf_plan : option Plan; vf_limits : Limits }.

Definition New (observer : option Observer) (plan : option Plan) : Verifier :=
  let positive (z d : Z) := if (z <=? 0)%Z then d else z in
  let limits := DefaultLimits in
  {| vf_observer := observer; vf_plan := plan;
     vf_limits := {| MaxChecks := positive (MaxChecks limits) 256%Z;
                     MaxChangedFiles := positive (MaxChangedFiles limits) 512%Z;
                     MaxObservedChars := positive (MaxObservedChars limits) 512%Z |} |}.

(** A nil verifier is [None]. *)
Definition WithPlan (v : option Verifier) (plan : option Plan) : Verifier :=
  match v with
  | None => New None plan
  | Some v => {| vf_observer := vf_observer v; vf_plan := plan; vf_limits := vf_limits v |}
  end.

(** [Verifier.Plan]. *)
Definition Plan_ (v : option Verifier) : option Plan := v ≫= vf_plan.

(** The inner loop of [planChecks] carries a check down from the end of the
    sorted part, which is held backwards. *)
Fixpoint sink (check : Check) (before : list Check) : list Check :=
  match before with
  | [] => [check]
  | prior :: before' =>
    if String.ltb (ck_ID check) (ck_ID prior) then prior :: sink check before' else check :: before
  end.

Definition planChecks (v : Verifier) : list Check :=
  match vf_plan v with
  | None => []
  | Some plan => reverse (foldl (λ before check, sink check before) [] (Checks plan))
  end.

(** ** Texts (verify.go) *)

Definition shortHash (value : string) : string :=
  if (String.length value <=? 12)%nat then value else String.substring 0 12 value.

Definition boundText (limit : Z) (value : string) : string :=
  if (limit <=? 0)%Z || (Z.of_nat (String.length value) <=? limit)%Z then value
  else String.substring 0 (Z.to_nat limit) value +:+ "[truncated]".

(** [failureText]. *)
Definition failureText (failure : option string) : string := default ""%string failure.

Definition structural : string := "structural".
Definition checkEvidenceGrounded : string := "evidence_grounded".
Definition checkEvidenceClaimsTyped : string := "evidence_claims_typed".
Definition checkNoUncertainAttempt : string := "no_uncertain_attempts".
Definition checkNoPendingApproval : string := "no_pending_approvals".
Definition checkWritesReconciled : string := "writes_reconciled".
Definition checkGitObserved : string := "git_observed".
Definition checkAcceptanceCriteria : string := "acceptance_criteria_required".
Definition checkBudgetExceeded : string := "check_budget_exceeded".

(** [CheckResult{ID, Type: "structural", Status}] and the other literals. *)
Definition result_of (id type : string) (status : CheckStatus) (expected observed reason : string) : CheckResult := {|
  cr_ID := id; cr_Type := type; cr_Status := status; cr_Expected := expected; cr_Observed := observed;
  cr_EvidenceIDs := []; cr_Reason := reason |}.

Definition passing (id : string) : CheckResult := result_of id structural CheckPassed "" "" "".

Definition join_comma (parts : list string) : string := join_on comma parts.

(** ** The observation of git *)

(** [strings.TrimRight] of one character. *)
Definition trim_right (c : ascii) (s : string) : string := rev_string (drop_char c (rev_string s)).

Definition carriage_return : ascii := "013"%char.

Definition parse_status_line (line : string) : option (string * string) :=
  let line := trim_right carriage_return line in
  if (String.length line <? 3)%nat then None
  else if String.prefix "##" line then None
  else
    let status := String.substring 0 2 line in
    let path := TrimPrefix " " (String.substring 3 (String.length line - 3) line) in
    if String.eqb path "" || String.eqb path "." then None else Some (path, status).

Definition parseGitStatus (output : string) : gmap string string :=
  foldl (λ files line, match parse_status_line line with Some (path, status) => <[path := status]> files | None => files end)
    ∅ (split_on newline output).

Definition changed_since (baseline : gmap string string) (file : string * string) : bool :=
  match baseline !! file.1 with
  | None => true
  | Some baseStatus => negb (String.eqb baseStatus file.2)
  end.

Definition changedFiles (current baseline : gmap string string) (limit : Z) : list ChangedFile :=
  let paths := filter (λ file, changed_since baseline file = true) current in
  let ordered := sort_Strings (map_to_list paths).*1 in
  let ordered := if ((0 <? limit) && (limit <? Z.of_nat (length ordered)))%Z then take (Z.to_nat limit) ordered else ordered in
  (λ path, {| cf_Path := path; cf_Status := default ""%string (paths !! path) |}) <$> ordered.

Definition observeGit (v : Verifier) (o : Observer) (input : Input) : GitObservation :=
  let '(currentStatus, statusTruncated, statusFailure) := GitStatusText o in
  match statusFailure with
  | Some _ => {|
      go_CurrentStatus := ""; go_CurrentDiff := ""; go_Truncated := false; go_Available := false;
      go_Failure := failureText statusFailure; go_PreExisting := []; go_DuringTask := []; go_BaselineTruncated := false |}
  | None =>
    let '(diff, truncated) :=
      let '(diff, diffTruncated, diffFailure) := GitDiffText o in
      match diffFailure with None => (diff, statusTruncated || diffTruncated) | Some _ => (""%string, true) end in
    let baseline := parseGitStatus (in_BaselineGitStatus input) in
    let current := parseGitStatus currentStatus in
    {| go_CurrentStatus := currentStatus; go_CurrentDiff := diff; go_Truncated := truncated;
       go_Available := true; go_Failure := "";
       go_PreExisting := changedFiles baseline ∅ (MaxChangedFiles (vf_limits v));
       go_DuringTask := changedFiles current baseline (MaxChangedFiles (vf_limits v));
       go_BaselineTruncated := in_BaselineGitStatusTruncated input || in_BaselineGitDiffTruncated input |}
  end.

(** ** Attempts *)

Definition blocks_completion (attempt : RecoveryToolAttempt) : bool :=
  String.eqb (ra_Status attempt) "prepared" || String.eqb (ra_Status attempt) "uncertain"
  || String.eqb (ra_Status attempt) "human_review_required".

Definition attempt_ref (attempt : RecoveryToolAttempt) : AttemptRef := {|
  ar_ExecutionID := ra_ExecutionID attempt; ar_Tool := ra_Tool attempt;
  ar_Status := ra_Status attempt; ar_Reason := ra_RecoveryReason attempt |}.

Section evidence.
Context `{Sorter} `{Decoder}.

Definition uncertainAttempts (attempts : list RecoveryToolAttempt) : list AttemptRef :=
  sort_by ar_ExecutionID (attempt_ref <$> List.filter blocks_completion attempts).

(** ** Citations *)

Definition evidence_by_id (evidence : list RecoveryEvidence) : gmap string RecoveryEvidence :=
  foldl (λ byID item, <[re_EvidenceID item := item]> byID) ∅ evidence.

Definition cite (byID : gmap string RecoveryEvidence) (claim : EvidenceClaim) : CitedEvidence :=
  match byID !! ec_EvidenceID claim with
  | Some item => {|
      ce_EvidenceID := ec_EvidenceID claim; ce_ClaimedTool := ec_Tool claim; ce_Tool := re_Tool item;
      ce_Exists := true; ce_ToolMatches := String.eqb (re_Tool item) (ec_Tool claim) |}
  | None => {|
      ce_EvidenceID := ec_EvidenceID claim; ce_ClaimedTool := ec_Tool claim; ce_Tool := "";
      ce_Exists := false; ce_ToolMatches := false |}
  end.

Definition resolveCitedEvidence (input : Input) : list CitedEvidence :=
  cite (evidence_by_id (in_Evidence input)) <$> sort_by ec_EvidenceID (in_FinalEvidence input).

(** ** Writes *)

Definition write_candidate (item : RecoveryEvidence) : option (RecoveryEvidence * WriteEvidence) :=
  if negb (String.eqb (re_Tool item) ToolWriteFile) && negb (String.eqb (re_Tool item) ToolApplyPatch) then None
  else
    match UnmarshalWrite (re_DataJSON item) with
    | None => None
    | Some write =>
      if String.eqb (we_Path write) "" || String.eqb (we_AfterHash write) "" then None else Some (item, write)
    end.

Definition by_path (evidence : list RecoveryEvidence) : gmap string (list (RecoveryEvidence * WriteEvidence)) :=
  foldl (λ byPath item,
    match write_candidate item with
    | Some (item, write) => <[we_Path write := default [] (byPath !! we_Path write) ++ [(item, write)]]> byPath
    | None => byPath
    end) ∅ evidence.

(** One path; [calls] files have been asked for before.  [None] would be the
    index out of range that an empty list of writes is. *)
Definition reconcile_path (o : Observer) (calls : nat) (writes : list (RecoveryEvidence * WriteEvidence))
    : option WriteReconciled :=
  let writes := sort_by (λ c, re_EvidenceID c.1) writes in
  match last writes with
  | None => None
  | Some (item, write) =>
    let '(observed, present, failure) := FileSHA256 o calls (we_Path write) in
    Some {| wr_Path := we_Path write; wr_ChangeKind := we_ChangeKind write; wr_AfterHash := we_AfterHash write;
            wr_ObservedHash := match failure with
                               | Some _ => "unreadable"
                               | None => if present then observed else "absent"
                               end;
            wr_Matches := present && String.eqb observed (we_AfterHash write);
            wr_EvidenceID := re_EvidenceID item;
            wr_Superseded := (λ c, re_EvidenceID c.1) <$> take (length writes - 1) writes |}
  end.

Definition reconcileWrites (o : Observer) (input : Input) : list WriteReconciled :=
  let byPath := by_path (in_Evidence input) in
  let paths := sort_Strings (map_to_list byPath).*1 in
  omap id (imap (λ calls path, reconcile_path o calls (default [] (byPath !! path))) paths).

(** ** Recipes *)

Definition process_evidence (item : RecoveryEvidence) : option Evidence :=
  if String.eqb (re_Tool item) ToolRunRecipe then UnmarshalProcess (re_DataJSON item) else None.

Definition is_truncated (process : Evidence) : bool := pe_StdoutTruncated process || pe_StderrTruncated process.

Definition truncatedRecipeEvidence (evidence : list RecoveryEvidence) : list string :=
  sort_Strings (re_EvidenceID <$> List.filter (λ item,
    match process_evidence item with Some process => is_truncated process | None => false end) evidence).

Definition recipeEvidenceFor (evidence : list RecoveryEvidence) (recipeID : string) : list Evidence :=
  List.filter (λ process, String.eqb (pe_RecipeID process) recipeID) (omap process_evidence evidence).

Definition evidenceIDs (evidence : list Evidence) : list string :=
  sort_Strings (List.filter (λ id, negb (String.eqb id "")) (pe_EvidenceID <$> evidence)).

Definition latestRecipeEvidence (first : Evidence) (rest : list Evidence) : Evidence :=
  foldl (λ latest item, if String.ltb (pe_EvidenceID latest) (pe_EvidenceID item) then item else latest) first rest.

(** [%d] of an exit code. *)
Definition exit_text (process : Evidence) : string := "exit=" +:+ pretty (pe_ExitCode process).

(** The verdict on the latest run of a recipe: status, observation and reason. *)
Definition judge_process (check : Check) (process : Evidence) : CheckStatus * string * string :=
  let truncated := is_truncated process in
  if ck_RequireUntruncated check && truncated then
    (CheckFailed, exit_text process +:+ " truncated=yes (evidence " +:+ pe_EvidenceID process +:+ ")",
     "truncated_output_cannot_support_conclusion")
  else if negb (pe_Started process) then (CheckFailed, "process did not start", "recipe_start_failed")
  else if pe_TimedOut process then (CheckFailed, "timed out", "recipe_timed_out")
  else if pe_Canceled process then (CheckFailed, "canceled", "recipe_canceled")
  else if negb (String.eqb (pe_Signal process) "") then
    (CheckFailed, "signal " +:+ pe_Signal process, "recipe_terminated_by_signal")
  else if negb (pe_ExitCode process =? 0)%Z then (CheckFailed, exit_text process, "recipe_exit_nonzero")
  else (CheckPassed, "exit=0" +:+ (if truncated then " (output truncated, recorded)" else ""), "").

(** ** Acceptance checks *)

Definition is_file_check (type : string) : bool :=
  String.eqb type CheckFileExists || String.eqb type CheckFileAbsent || String.eqb type CheckFileHash.

(** The cases of file checks, given the answer of the observer. *)
Definition judge_file (check : Check) (answer : string * bool * option string) : CheckResult :=
  let '(hash, present, failure) := answer in
  let verdict := result_of (ck_ID check) (ck_Type check) in
  match failure with
  | Some _ => verdict CheckBlocked "" (failureText failure) "file_observation_failed"
  | None =>
    if String.eqb (ck_Type check) CheckFileExists then
      let expected := "file exists at " +:+ ck_Path check in
      if present then verdict CheckPassed expected "present" ""
      else verdict CheckFailed expected "absent" "file_not_found"
    else if String.eqb (ck_Type check) CheckFileAbsent then
      let expected := "file absent at " +:+ ck_Path check in
      if negb present then verdict CheckPassed expected "absent" ""
      else verdict CheckFailed expected ("present (hash " +:+ shortHash hash +:+ ")") "file_present"
    else
      let expected := "file at " +:+ ck_Path check +:+ " has sha256 " +:+ shortHash (ck_SHA256 check) in
      if negb present then verdict CheckFailed expected "absent" "file_not_found"
      else if String.eqb hash (ck_SHA256 check) then verdict CheckPassed expected "hash matches" ""
      else verdict CheckFailed expected ("hash " +:+ shortHash hash) "hash_mismatch"
  end.

Definition judge_recipe (check : Check) (input : Input) : CheckResult :=
  let expected := "a run_recipe evidence for " +:+ ck_Recipe check +:+ " with exit code 0" in
  let verdict status observed reason := result_of (ck_ID check) (ck_Type check) status expected observed reason in
  match recipeEvidenceFor (in_Evidence input) (ck_Recipe check) with
  | [] => verdict CheckFailed ("no executed recipe evidence for " +:+ ck_Recipe check) "recipe_evidence_missing"
  | first :: rest =>
    let '(status, observed, reason) := judge_process check (latestRecipeEvidence first rest) in
    (verdict status observed reason) <| cr_EvidenceIDs := evidenceIDs (first :: rest) |>
  end.

(** The state is the number of files asked for so far. *)
Definition evaluateCheck (o : Observer) (check : Check) (input : Input) : State nat CheckResult := λ calls,
  if is_file_check (ck_Type check) then (judge_file check (FileSHA256 o calls (ck_Path check)), S calls)
  else if String.eqb (ck_Type check) CheckRecipeExitZero then (judge_recipe check input, calls)
  else (result_of (ck_ID check) (ck_Type check) CheckUnset "" "" "", calls).

(** ** The structural checks *)

Definition grounding_result (cited : list CitedEvidence) : CheckResult :=
  match ce_EvidenceID <$> List.filter (λ c, negb (ce_Exists c)) cited with
  | [] => passing checkEvidenceGrounded
  | missing => result_of checkEvidenceGrounded structural CheckFailed
      "every cited evidence id exists in the task's persisted evidence"
      ("missing: " +:+ join_comma missing) "evidence_ids_not_found"
  end.

Definition mismatch_text (c : CitedEvidence) : string :=
  ce_EvidenceID c +:+ "(claimed=" +:+ ce_ClaimedTool c +:+ ",persisted=" +:+ ce_Tool c +:+ ")".

Definition typing_result (cited : list CitedEvidence) : CheckResult :=
  match mismatch_text <$> List.filter (λ c, ce_Exists c && negb (ce_ToolMatches c)) cited with
  | [] => passing checkEvidenceClaimsTyped
  | mismatched => result_of checkEvidenceClaimsTyped structural CheckFailed
      "every cited evidence's claimed tool matches its persisted tool"
      ("type mismatch: " +:+ join_comma mismatched) "evidence_type_mismatch"
  end.

Definition uncertain_result (uncertainRefs : list AttemptRef) : CheckResult :=
  match uncertainRefs with
  | [] => passing checkNoUncertainAttempt
  | _ => result_of checkNoUncertainAttempt structural CheckUncertain "no uncertain or interrupted effect"
      (pretty (length uncertainRefs) +:+ " uncertain attempt(s)") "uncertain_effect_blocks_completion"
  end.

Definition approval_result (pending : list string) : CheckResult :=
  match pending with
  | [] => passing checkNoPendingApproval
  | _ => result_of checkNoPendingApproval structural CheckBlocked "no pending operator approval"
      (pretty (length pending) +:+ " pending approval(s)") "approval_required_pending"
  end.

Definition write_result (reconciled : list WriteReconciled) : CheckResult :=
  match wr_Path <$> List.filter (λ item, negb (wr_Matches item)) reconciled with
  | [] => passing checkWritesReconciled
  | mismatches => result_of checkWritesReconciled structural CheckFailed
      "the latest persisted write of every target path matches the current filesystem"
      ("mismatch: " +:+ join_comma mismatches) "write_evidence_does_not_match_filesystem"
  end.

(** The result and the limitations of the observation of git. *)
Definition git_result (v : Verifier) (git : GitObservation) : CheckResult * list string :=
  let result := passing checkGitObserved in
  let '(result, limitations) :=
    if go_Available git then (result, [])
    else (result <| cr_Observed := "unavailable: " +:+ go_Failure git |>,
          [boundText (MaxObservedChars (vf_limits v)) ("git observation unavailable: " +:+ go_Failure git)]) in
  if go_BaselineTruncated git then
    (result <| cr_Observed := "baseline truncated at task start; pre-existing changes outside the truncated baseline may be attributed as during_task" |>,
     limitations ++ ["git baseline truncated at task start; pre-existing changes outside the truncated baseline window may be attributed as during_task"])
  else (result, limitations).

Definition acceptance_missing : CheckResult :=
  result_of checkAcceptanceCriteria structural CheckBlocked
    "an operator acceptance plan with at least one acceptance check"
    "no acceptance plan configured for the task" "acceptance_plan_missing".

Definition budget_exceeded (v : Verifier) : CheckResult :=
  result_of checkBudgetExceeded structural CheckBlocked
    ("at most " +:+ pretty (MaxChecks (vf_limits v)) +:+ " checks evaluated per attempt")
    "the operator plan has more checks than the attempt budget" "check_budget_exceeded".

(** ** Verify *)

(** The variables that [appendResult] changes. *)
Record Tally := {
  uncertain : list CheckResult;
  blocked : list CheckResult;
  failed : list CheckResult;
  passed : list CheckResult;
  checks : list CheckResult
}.

Definition no_results : Tally := {| uncertain := []; blocked := []; failed := []; passed := []; checks := [] |}.

Definition bounded (v : Verifier) (result : CheckResult) : CheckResult :=
  let bound := boundText (MaxObservedChars (vf_limits v)) in
  result <| cr_Expected ::= bound |> <| cr_Observed ::= bound |> <| cr_Reason ::= bound |>.

Definition appendResult (v : Verifier) (t : Tally) (result : CheckResult) : Tally :=
  let result := bounded v result in
  {| uncertain := uncertain t ++ (if bool_decide (cr_Status result = CheckUncertain) then [result] else []);
     blocked := blocked t ++ (if bool_decide (cr_Status result = CheckBlocked) then [result] else []);
     failed := failed t ++ (if bool_decide (cr_Status result = CheckFailed) then [result] else []);
     passed := passed t ++ (if bool_decide (cr_Status result = CheckPassed ∨ cr_Status result = CheckUnset)
                            then [result] else []);
     checks := checks t ++ [result] |}.

(** The loop over the plan; whether the budget ended it. *)
Fixpoint evaluate_plan (v : Verifier) (o : Observer) (input : Input) (plan : list Check) (t : Tally) (calls : nat)
    : Tally * bool :=
  match plan with
  | [] => (t, false)
  | check :: plan' =>
    if (MaxChecks (vf_limits v) <=? Z.of_nat (length (checks t)))%Z then (t, true)
    else
      let '(result, calls) := evaluateCheck o check input calls in
      evaluate_plan v o input plan' (appendResult v t result) calls
  end.

Definition summarize (v : Verifier) (t : Tally) : Decision * string :=
  match uncertain t, blocked t, failed t with
  | _ :: _, _, _ => (DecisionUncertain, "completion refused: an authoritative effect is uncertain")
  | [], _ :: _, _ => (DecisionBlocked, "completion refused: a control-plane dependency is pending")
  | [], [], _ :: _ =>
    (DecisionFailed, "completion refused: " +:+ pretty (length (failed t)) +:+ " check(s) failed")
  | [], [], [] =>
    let checkNames := cr_ID <$> List.filter (λ check, negb (String.eqb (cr_Type check) structural)) (passed t) in
    let summary :=
      match checkNames with
      | [] => "completion verified: all acceptance checks passed"
      | [name] => "completion verified: acceptance check passed (" +:+ name +:+ ")"
      | _ => "completion verified: " +:+ pretty (length checkNames) +:+ " acceptance checks passed ("
               +:+ join_comma checkNames +:+ ")"
      end in
    (DecisionPassed, boundText (MaxObservedChars (vf_limits v)) summary)
  end.

Definition unavailable (input : Input) (now : string) : Report := {|
  rp_TaskID := in_TaskID input; rp_AttemptID := ""; rp_Decision := DecisionBlocked;
  rp_Summary := "verification unavailable: no authoritative observer";
  rp_Checks := [result_of checkEvidenceGrounded structural CheckBlocked "" ""
    "verification has no authoritative observer; completion is refused"];
  rp_CitedEvidence := []; rp_UncertainAttempts := []; rp_PendingApprovals := []; rp_TruncatedEvidence := [];
  rp_Git := None; rp_WriteReconciliation := []; rp_Limitations := []; rp_CreatedAt := now |}.

(** [Verify] when there is an observer. *)
Definition observed_report (v : Verifier) (o : Observer) (input : Input) (now : string) : Report :=
  let cited := resolveCitedEvidence input in
  let t := appendResult v no_results (grounding_result cited) in
  let t := appendResult v t (typing_result cited) in
  let uncertainRefs := uncertainAttempts (in_ToolAttempts input) in
  let t := appendResult v t (uncertain_result uncertainRefs) in
  let t := appendResult v t (approval_result (in_PendingApprovals input)) in
  let reconciled := reconcileWrites o input in
  let t := appendResult v t (write_result reconciled) in
  let git := observeGit v o input in
  let '(gitResult, limitations) := git_result v git in
  let t := appendResult v t gitResult in
  let t := match planChecks v with [] => appendResult v t acceptance_missing | _ => t end in
  let '(t, exceeded) := evaluate_plan v o input (planChecks v) t (length reconciled) in
  let t := if exceeded : bool then appendResult v t (budget_exceeded v) else t in
  let '(decision, summary) := summarize v t in
  {| rp_TaskID := in_TaskID input; rp_AttemptID := ""; rp_Decision := decision; rp_Summary := summary;
     rp_Checks := checks t; rp_CitedEvidence := cited; rp_UncertainAttempts := uncertainRefs;
     rp_PendingApprovals := in_PendingApprovals input;
     rp_TruncatedEvidence := truncatedRecipeEvidence (in_Evidence input);
     rp_Git := Some git; rp_WriteReconciliation := reconciled; rp_Limitations := limitations;
     rp_CreatedAt := now |}.

(** [verifyNow] is what the clock says. *)
Definition Verify (verifyNow : string) (v : option Verifier) (input : Input) : Report :=
  let now := if String.eqb (TrimSpace (in_Now input)) "" then verifyNow else in_Now input in
  match v with
  | None => unavailable input now
  | Some v =>
    match vf_observer v with
    | None => unavailable input now
    | Some o => observed_report v o input now
    end
  end.
End evidence.

Arguments is_truncated : simpl never.
