(* ===== verification/VerifierLaws.v ===== *)
(** * Laws of the verifier

    A proposal passes exactly when the acceptance of its task holds of what was
    observed; a decision can be recomputed from its checks; the checks of a plan
    are evaluated in one order; reconciliation accounts for every write;
    attribution of changed files; bounds of the report. *)

From stdpp Require Import pretty.
From S2P Require Import Prelude GoTime Text Policy Patch Verifier.
From Stdlib Require Import Ascii.

Local Open Scope runstead_scope.

(** ** The order of texts *)

Lemma ltb_false a b : String.ltb a b = false → String.le b a.
Proof.
  rw /String.ltb /String.le /String.leb /is_true (String.compare_antisym b a).
  by destruct (String.compare a b).
Qed.

Lemma ltb_true a b : String.ltb a b = true ↔ String.le a b ∧ a ≠ b.
Proof.
  split.
  - rw /String.ltb /String.le /String.leb /is_true. destruct (String.compare a b) eqn:E; [done| |done].
    intros _. split; [done|]. intros ->. pose proof (String.compare_antisym b b) as H. by rw E in H.
  - intros [Hle Hne]. destruct (String.ltb a b) eqn:E; [done|]. apply ltb_false in E.
    destruct Hne. by apply (anti_symm String.le).
Qed.

(** ** Plans *)

Lemma sink_perm check before : sink check before ≡ₚ check :: before.
Proof.
  induction before as [|prior before IH]; [done|]. simpl. case_match; [|done]. rw IH. constructor.
Qed.

Abbreviation descending := (StronglySorted (λ x y, String.le (ck_ID y) (ck_ID x))).

Lemma sink_sorted check before : descending before → descending (sink check before).
Proof.
  induction 1 as [|prior before Hsorted IH Hall]; simpl; [by repeat constructor|].
  destruct (String.ltb _ _) eqn:E.
  - constructor; [done|]. rw Forall_forall. intros c. rw sink_perm. intros [->|Hc]%elem_of_cons.
    + by apply ltb_true in E as [? _].
    + rw Forall_forall in Hall. by apply Hall.
  - apply ltb_false in E. constructor; [by constructor|]. constructor; [done|].
    eapply Forall_impl; [exact Hall|]. simpl. intros c Hc. by etransitivity.
Qed.

Lemma StronglySorted_reverse {A} (R : A → A → Prop) xs :
  StronglySorted R xs → StronglySorted (λ x y, R y x) (reverse xs).
Proof.
  induction 1 as [|x xs Hs IH Hall]; [constructor|]. rw reverse_cons.
  apply StronglySorted_app_2; [|done|by repeat constructor].
  intros y z. rw elem_of_reverse list_elem_of_singleton. intros Hy ->.
  rw Forall_forall in Hall. by apply Hall.
Qed.

Lemma planChecks_sorted v : StronglySorted (λ x y, String.le (ck_ID x) (ck_ID y)) (planChecks v).
Proof.
  rw /planChecks. destruct (vf_plan v) as [plan|]; [|constructor].
  apply (StronglySorted_reverse (λ x y, String.le (ck_ID y) (ck_ID x))).
  assert (∀ cs acc, descending acc → descending (foldl (λ before check, sink check before) acc cs)) as H.
  { induction cs as [|c cs IH]; intros acc Hacc; [done|]. by apply IH, sink_sorted. }
  apply H. constructor.
Qed.

Lemma planChecks_perm v : planChecks v ≡ₚ default [] (Checks <$> vf_plan v).
Proof.
  rw /planChecks. destruct (vf_plan v) as [plan|]; [|done]. simpl. rw reverse_Permutation.
  assert (∀ cs acc, foldl (λ before check, sink check before) acc cs ≡ₚ cs ++ acc) as H.
  { induction cs as [|c cs IH]; intros acc; [done|]. simpl. rw IH sink_perm. by rw Permutation_middle. }
  by rw H app_nil_r.
Qed.

Lemma elem_of_planChecks v c : c ∈ planChecks v ↔ c ∈ default [] (Checks <$> vf_plan v).
Proof. by rw planChecks_perm. Qed.

Section verifier.
Context `{Sorter} `{Decoder}.

Lemma elem_of_sort_by {A} (key : A → string) x xs : x ∈ sort_by key xs ↔ x ∈ xs.
Proof. by rw sort_by_perm. Qed.

(** ** The results in order

    [results] is what the verification finds, in the order of the report. *)

Fixpoint plan_results (o : Observer) (input : Input) (plan : list Check) (calls : nat) : list CheckResult :=
  match plan with
  | [] => []
  | check :: plan' =>
    let '(result, calls) := evaluateCheck o check input calls in result :: plan_results o input plan' calls
  end.

Lemma length_plan_results o input plan calls : length (plan_results o input plan calls) = length plan.
Proof.
  revert calls. induction plan as [|check plan IH]; intros calls; [done|]. cbn [plan_results].
  destruct (evaluateCheck _ _ _ _). simpl. by rw IH.
Qed.

(** How many checks the budget leaves after [n] results. *)
Definition left_over (v : Verifier) (n : nat) : nat := Z.to_nat (MaxChecks (vf_limits v) - Z.of_nat n).

Definition structural_results (v : Verifier) (o : Observer) (input : Input) : list CheckResult :=
  [grounding_result (resolveCitedEvidence input); typing_result (resolveCitedEvidence input);
   uncertain_result (uncertainAttempts (in_ToolAttempts input)); approval_result (in_PendingApprovals input);
   write_result (reconcileWrites o input); (git_result v (observeGit v o input)).1]
  ++ match planChecks v with [] => [acceptance_missing] | _ => [] end.

Definition results (v : Verifier) (o : Observer) (input : Input) : list CheckResult :=
  let structural := structural_results v o input in
  let plan := planChecks v in
  let budget := left_over v (length structural) in
  structural ++ take budget (plan_results o input plan (length (reconcileWrites o input)))
  ++ (if (budget <? length plan)%nat then [budget_exceeded v] else []).

Definition tally (v : Verifier) (rs : list CheckResult) : Tally := foldl (appendResult v) no_results rs.

Lemma tally_snoc v rs r : appendResult v (tally v rs) r = tally v (rs ++ [r]).
Proof. by rw /tally foldl_snoc. Qed.

Lemma tally_checks v rs : checks (tally v rs) = bounded v <$> rs.
Proof.
  induction rs as [|r rs IH] using rev_ind; [done|]. rw -tally_snoc fmap_app. simpl. by rw IH.
Qed.

Lemma evaluate_plan_ok v o input plan rs calls :
  evaluate_plan v o input plan (tally v rs) calls =
  (tally v (rs ++ take (left_over v (length rs)) (plan_results o input plan calls)),
   (left_over v (length rs) <? length plan)%nat).
Proof.
  revert rs calls. induction plan as [|check plan IH]; intros rs calls.
  { simpl. by rw firstn_nil app_nil_r. }
  cbn [evaluate_plan plan_results]. rw {1}tally_checks length_fmap.
  destruct (evaluateCheck o check input calls) as [r calls'].
  destruct (Z.leb_spec (MaxChecks (vf_limits v)) (Z.of_nat (length rs))).
  - rw /left_over (_ : Z.to_nat _ = 0%nat); [lia|]. by rw take_0 app_nil_r.
  - rw tally_snoc IH. assert (left_over v (length rs) = S (left_over v (length (rs ++ [r])))) as ->.
    { rw /left_over length_app /=. lia. }
    rw /= -app_assoc. done.
Qed.

(** ** The decision *)

Definition of_status (s : CheckStatus) (r : CheckResult) : bool := bool_decide (cr_Status r = s).

(** The worst status decides. *)
Definition verdict_of (rs : list CheckResult) : Decision :=
  if existsb (of_status CheckUncertain) rs then DecisionUncertain
  else if existsb (of_status CheckBlocked) rs then DecisionBlocked
  else if existsb (of_status CheckFailed) rs then DecisionFailed
  else DecisionPassed.

Lemma tally_lists v rs :
  uncertain (tally v rs) = List.filter (of_status CheckUncertain) (bounded v <$> rs)
  ∧ blocked (tally v rs) = List.filter (of_status CheckBlocked) (bounded v <$> rs)
  ∧ failed (tally v rs) = List.filter (of_status CheckFailed) (bounded v <$> rs).
Proof.
  induction rs as [|r rs (IHu & IHb & IHf)] using rev_ind; [done|].
  rw -tally_snoc fmap_app !List.filter_app. cbn [appendResult uncertain blocked failed].
  rw IHu IHb IHf. cbn [fmap list_fmap List.filter]. rw /of_status.
  split_and!; by repeat case_bool_decide.
Qed.

Lemma existsb_filter {A} (p : A → bool) xs : existsb p xs = match List.filter p xs with [] => false | _ => true end.
Proof. induction xs as [|x xs IH]; [done|]. simpl. by destruct (p x). Qed.

Lemma summarize_decision v rs : (summarize v (tally v rs)).1 = verdict_of (bounded v <$> rs).
Proof.
  rw /summarize /verdict_of !existsb_filter. destruct (tally_lists v rs) as (-> & -> & ->).
  by repeat case_match.
Qed.

Lemma observed_report_results v o input now :
  rp_Checks (observed_report v o input now) = bounded v <$> results v o input
  ∧ rp_Decision (observed_report v o input now) = verdict_of (bounded v <$> results v o input).
Proof.
  rw /observed_report. destruct (git_result v _) as [gr limitations] eqn:Hg.
  change no_results with (tally v []). rw !tally_snoc.
  set (t := match planChecks v with [] => _ | _ => _ end).
  assert (t = tally v (structural_results v o input)) as ->.
  { rw /t /structural_results Hg. by destruct (planChecks v). }
  rw evaluate_plan_ok.
  set (body := _ ++ take _ _).
  assert ((if (left_over v (length (structural_results v o input)) <? length (planChecks v))%nat
      then appendResult v (tally v body) (budget_exceeded v) else tally v body) = tally v (results v o input)) as ->.
  { rw /results. case_match; [rw tally_snoc /body|rw app_nil_r //]. by rw -app_assoc. }
  pose proof (summarize_decision v (results v o input)) as Hd.
  destruct (summarize v _) as [decision summary]. simpl in *. by rw tally_checks Hd.
Qed.

(** The report explains its decision: it is the worst status among the checks
    it lists. *)
Theorem Verify_decision now v input :
  rp_Decision (Verify now v input) = verdict_of (rp_Checks (Verify now v input)).
Proof.
  rw /Verify. destruct v as [v|]; [|done]. destruct (vf_observer v) as [o|]; [|done].
  by destruct (observed_report_results v o input (if (TrimSpace (in_Now input) =? "")%string then now else in_Now input))
    as [-> ->].
Qed.

(** ** What the structural checks say *)

Definition fine (r : CheckResult) : Prop := cr_Status r = CheckPassed ∨ cr_Status r = CheckUnset.

Lemma verdict_passed rs : verdict_of rs = DecisionPassed ↔ Forall fine rs.
Proof.
  rw /verdict_of Forall_forall. split.
  - case_match eqn:Eu; [done|]. case_match eqn:Eb; [done|]. case_match eqn:Ef; [done|]. intros _ r Hr.
    assert (∀ s, existsb (of_status s) rs = false → cr_Status r ≠ s) as Hno.
    { intros s Hs E. assert (existsb (of_status s) rs = true); [|congruence]. apply existsb_exists.
      exists r. split; [by apply list_elem_of_In|]. by apply bool_decide_eq_true. }
    apply Hno in Eu, Eb, Ef. rw /fine. destruct (cr_Status r); naive_solver.
  - intros Hall. assert (∀ s, s ≠ CheckPassed → s ≠ CheckUnset → existsb (of_status s) rs = false) as Hno.
    { intros s H1 H2. apply not_true_iff_false. rw existsb_exists. intros (r & Hr%list_elem_of_In & E).
      apply bool_decide_eq_true in E. destruct (Hall r Hr); congruence. }
    by rw !Hno.
Qed.

Lemma fine_bounded v rs : Forall fine (bounded v <$> rs) ↔ Forall fine rs.
Proof. by rw Forall_fmap. Qed.

Lemma filter_nil {A} (p : A → bool) xs : List.filter p xs = [] ↔ ∀ x, x ∈ xs → p x = false.
Proof.
  induction xs as [|x xs IH]; [set_solver|]. simpl. destruct (p x) eqn:E.
  - split; [done|]. intros Hp. rw (Hp x) in E; [set_solver|done].
  - rw IH. set_solver.
Qed.

(** A structural check that lists offenders is fine when there are none. *)
Lemma fine_offenders {A B} (f : A → B) (p : A → bool) xs id r (k : list B → CheckResult) :
  (∀ y ys, cr_Status (k (y :: ys)) = r) → r ≠ CheckPassed → r ≠ CheckUnset →
  fine (match f <$> List.filter p xs with [] => passing id | l => k l end) ↔ ∀ x, x ∈ xs → p x = false.
Proof.
  intros Hk H1 H2. rw -filter_nil. destruct (List.filter p xs) as [|y ys]; simpl.
  - split; [done|]. by left.
  - split; [|done]. by intros [E|E]; rw Hk in E.
Qed.

Lemma grounding_fine cited : fine (grounding_result cited) ↔ ∀ c, c ∈ cited → ce_Exists c = true.
Proof.
  etransitivity; [by eapply (fine_offenders _ _ _ _ CheckFailed (λ l, result_of _ _ _ _ _ _))|].
  apply forall_proper. intros c. by rw negb_false_iff.
Qed.

Lemma typing_fine cited :
  fine (typing_result cited) ↔ ∀ c, c ∈ cited → ce_Exists c = true → ce_ToolMatches c = true.
Proof.
  etransitivity; [by eapply (fine_offenders _ _ _ _ CheckFailed (λ l, result_of _ _ _ _ _ _))|].
  apply forall_proper. intros c. destruct (ce_Exists c), (ce_ToolMatches c); naive_solver.
Qed.

Lemma write_fine reconciled : fine (write_result reconciled) ↔ ∀ w, w ∈ reconciled → wr_Matches w = true.
Proof.
  etransitivity; [by eapply (fine_offenders _ _ _ _ CheckFailed (λ l, result_of _ _ _ _ _ _))|].
  apply forall_proper. intros c. by rw negb_false_iff.
Qed.

Lemma uncertainAttempts_nil attempts :
  uncertainAttempts attempts = [] ↔ ∀ a, a ∈ attempts → blocks_completion a = false.
Proof.
  rw -filter_nil /uncertainAttempts. pose proof (sort_by_perm ar_ExecutionID
    (attempt_ref <$> List.filter blocks_completion attempts)) as Hp. split.
  - intros E. rw E in Hp. apply Permutation_nil in Hp. by destruct (List.filter _ _).
  - intros E. rw E in Hp. rw E. by apply Permutation_nil.
Qed.

Lemma uncertain_fine refs : fine (uncertain_result refs) ↔ refs = [].
Proof. destruct refs; [split; [done|by left]|]. split; [by intros []|done]. Qed.

Lemma approval_fine pending : fine (approval_result pending) ↔ pending = [].
Proof. destruct pending; [split; [done|by left]|]. split; [by intros []|done]. Qed.

Lemma git_fine v git : fine (git_result v git).1.
Proof. rw /git_result /fine. destruct (go_Available git), (go_BaselineTruncated git); by left. Qed.

(** ** Citations *)

Abbreviation distinct input := (NoDup (re_EvidenceID <$> in_Evidence input)).

Lemma same_evidence input x y :
  distinct input → x ∈ in_Evidence input → y ∈ in_Evidence input → re_EvidenceID x = re_EvidenceID y → x = y.
Proof.
  intros Hnd [i Hi]%list_elem_of_lookup [j Hj]%list_elem_of_lookup E.
  assert (i = j) as ->; [|congruence].
  eapply NoDup_lookup; [exact Hnd|..]; rw list_lookup_fmap; [by rw Hi|by rw Hj /= E].
Qed.

Lemma by_id_snoc evidence item : evidence_by_id (evidence ++ [item]) = <[re_EvidenceID item := item]> (evidence_by_id evidence).
Proof. by rw /evidence_by_id foldl_snoc. Qed.

Lemma by_id_sound evidence id item : evidence_by_id evidence !! id = Some item → item ∈ evidence ∧ re_EvidenceID item = id.
Proof.
  induction evidence as [|x evidence IH] using rev_ind; [done|]. rw by_id_snoc elem_of_app.
  destruct (decide (re_EvidenceID x = id)) as [<-|Hne].
  - rw lookup_insert_eq. intros [= ->]. split; [right; by apply list_elem_of_singleton|done].
  - rw lookup_insert_ne //. intros [? ?]%IH. by split; [left|].
Qed.

Lemma by_id_complete evidence item : item ∈ evidence → is_Some (evidence_by_id evidence !! re_EvidenceID item).
Proof.
  induction evidence as [|x evidence IH] using rev_ind; [set_solver|]. rw by_id_snoc elem_of_app.
  intros [Hi|Hi]; [|apply list_elem_of_singleton in Hi as ->].
  - destruct (decide (re_EvidenceID x = re_EvidenceID item)) as [<-|Hne]; [by rw lookup_insert_eq|].
    rw lookup_insert_ne //. by apply IH.
  - by rw lookup_insert_eq.
Qed.

(** A claim stands when evidence of its identity comes from its tool. *)
Definition stands (input : Input) (claim : EvidenceClaim) : Prop :=
  ∃ item, item ∈ in_Evidence input ∧ re_EvidenceID item = ec_EvidenceID claim ∧ re_Tool item = ec_Tool claim.

Lemma cite_stands input claim :
  distinct input →
  ce_Exists (cite (evidence_by_id (in_Evidence input)) claim) = true
    ∧ ce_ToolMatches (cite (evidence_by_id (in_Evidence input)) claim) = true ↔ stands input claim.
Proof.
  intros Hnd. rw /cite /stands. destruct (evidence_by_id _ !! _) as [item|] eqn:E; simpl.
  - apply by_id_sound in E as [Hi Hid]. rw String.eqb_eq. split; [naive_solver|].
    intros (item' & Hi' & Hid' & Ht). by rw (same_evidence input item item') // Hid.
  - split; [by intros []|]. intros (item & Hi%by_id_complete & Hid & _). rw Hid E in Hi. by destruct Hi.
Qed.

Lemma citations_fine input :
  distinct input →
  fine (grounding_result (resolveCitedEvidence input)) ∧ fine (typing_result (resolveCitedEvidence input))
  ↔ ∀ claim, claim ∈ in_FinalEvidence input → stands input claim.
Proof.
  intros Hnd. rw grounding_fine typing_fine /resolveCitedEvidence. split.
  - intros [Hg Ht] claim Hc. apply (cite_stands _ _ Hnd).
    assert (cite (evidence_by_id (in_Evidence input)) claim ∈ cite (evidence_by_id (in_Evidence input)) <$>
      sort_by ec_EvidenceID (in_FinalEvidence input)) as Hin.
    { apply list_elem_of_fmap_2. by rw sort_by_perm. }
    by split; [apply Hg|apply Ht, Hg].
  - intros Hall. split; intros c (claim & -> & Hc)%list_elem_of_fmap; rw sort_by_perm in Hc;
      by destruct (proj2 (cite_stands _ _ Hnd) (Hall _ Hc)).
Qed.

(** ** Writes *)

Definition writes_at (evidence : list RecoveryEvidence) (path : string) : list (RecoveryEvidence * WriteEvidence) :=
  List.filter (λ c, String.eqb (we_Path c.2) path) (omap write_candidate evidence).

Lemma by_path_lookup evidence path :
  by_path evidence !! path = match writes_at evidence path with [] => None | l => Some l end.
Proof.
  rw /by_path /writes_at. induction evidence as [|item evidence IH] using rev_ind; [done|].
  rw foldl_snoc omap_app List.filter_app. cbn [omap list_omap].
  destruct (write_candidate item) as [[item' write]|]; [|by rw app_nil_r].
  cbn [List.filter]. simpl. destruct (String.eqb_spec (we_Path write) path) as [<-|Hne].
  - rw lookup_insert_eq IH. by destruct (List.filter _ _).
  - by rw lookup_insert_ne // app_nil_r.
Qed.

Lemma elem_of_writes_at evidence path item write :
  (item, write) ∈ writes_at evidence path ↔
  item ∈ evidence ∧ write_candidate item = Some (item, write) ∧ we_Path write = path.
Proof.
  assert (∀ x y, write_candidate x = Some y → y.1 = x) as Hfst.
  { intros x [y w]. rw /write_candidate. by repeat case_match; intros [=]. }
  rw /writes_at list_elem_of_In filter_In -list_elem_of_In list_elem_of_omap String.eqb_eq /=. split.
  - intros ((x & Hx & E) & Hp). by pose proof (Hfst _ _ E) as <-.
  - intros (Hi & E & Hp). split; [by exists item|done].
Qed.

(** [item] records the last write of its path. *)
Definition latest_write (input : Input) (item : RecoveryEvidence) (write : WriteEvidence) : Prop :=
  (item, write) ∈ writes_at (in_Evidence input) (we_Path write)
  ∧ ∀ other, other ∈ writes_at (in_Evidence input) (we_Path write) →
      String.le (re_EvidenceID other.1) (re_EvidenceID item).

Lemma sorted_last {A} (R : A → A → Prop) `{!Reflexive R} xs x :
  StronglySorted R xs → last xs = Some x → ∀ y, y ∈ xs → R y x.
Proof.
  intros Hs [xs' ->]%last_Some y. rw elem_of_app list_elem_of_singleton. intros [Hy| ->]; [|done].
  eapply (StronglySorted_app_1_elem_of R); [exact Hs|done|set_solver].
Qed.

Lemma latest_of_path input path item write :
  last (sort_by (λ c, re_EvidenceID c.1) (writes_at (in_Evidence input) path)) = Some (item, write) →
  we_Path write = path ∧ latest_write input item write.
Proof.
  intros Hl. assert ((item, write) ∈ writes_at (in_Evidence input) path) as Hin.
  { apply (elem_of_sort_by (λ c, re_EvidenceID c.1)). apply last_Some in Hl as [l' E]. rw E. set_solver. }
  pose proof Hin as (Hi & Hc & <-)%elem_of_writes_at. split; [done|]. split; [done|].
  intros other Ho. apply (elem_of_sort_by (λ c, re_EvidenceID c.1)) in Ho.
  assert (Reflexive (λ x y : RecoveryEvidence * WriteEvidence, String.le (re_EvidenceID x.1) (re_EvidenceID y.1)))
    as Hr by (intros x; reflexivity).
  exact (sorted_last _ _ _ (sort_by_sorted (λ c, re_EvidenceID c.1) _) Hl other Ho).
Qed.

Lemma latest_unique input item write item' write' :
  distinct input → latest_write input item write → latest_write input item' write' →
  we_Path write = we_Path write' → item = item' ∧ write = write'.
Proof.
  intros Hnd [Hin Hmax] [Hin' Hmax'] E. rw -E in Hin' Hmax'.
  assert (re_EvidenceID item = re_EvidenceID item') as Hid.
  { apply (anti_symm String.le); [by apply (Hmax' (item, write))|by apply (Hmax (item', write'))]. }
  apply elem_of_writes_at in Hin as (Hi & Hc & _). apply elem_of_writes_at in Hin' as (Hi' & Hc' & _).
  pose proof (same_evidence input item item' Hnd Hi Hi' Hid) as ->. rw Hc in Hc'. by simplify_eq.
Qed.

(** The observer's answer shows the content that [write] left. *)
Definition shows (hash : string) (answer : string * bool * option string) : Prop :=
  answer.1.2 = true ∧ answer.1.1 = hash.

Definition paths_written (evidence : list RecoveryEvidence) : list string :=
  sort_Strings (map_to_list (by_path evidence)).*1.

Lemma elem_of_paths_written evidence path : path ∈ paths_written evidence ↔ writes_at evidence path ≠ [].
Proof.
  rw /paths_written elem_of_sort list_elem_of_fmap. split.
  - intros ([p l] & -> & Hp%elem_of_map_to_list). rw by_path_lookup in Hp. simpl.
    by destruct (writes_at evidence p).
  - intros Hne. exists (path, writes_at evidence path). split; [done|]. apply elem_of_map_to_list.
    rw by_path_lookup. by destruct (writes_at evidence path).
Qed.

(** What is reconciled: the latest write of every path, each with one question
    to the observer. *)
Lemma elem_of_reconciled o input w :
  w ∈ reconcileWrites o input ↔
  ∃ n path, paths_written (in_Evidence input) !! n = Some path
    ∧ reconcile_path o n (writes_at (in_Evidence input) path) = Some w.
Proof.
  rw /reconcileWrites list_elem_of_omap -/(paths_written _).
  assert (∀ path, default [] (by_path (in_Evidence input) !! path) = writes_at (in_Evidence input) path) as Hd.
  { intros path. rw by_path_lookup. by destruct (writes_at _ _). }
  split.
  - intros (x & Hx & E). simpl in E. subst x. apply list_elem_of_lookup in Hx as [n Hn].
    rw list_lookup_imap in Hn. destruct (_ !! n) as [path|] eqn:Hp; [|done]. simpl in Hn. rw Hd in Hn.
    exists n, path. split; [done|congruence].
  - intros (n & path & Hp & E). exists (Some w). split; [|done]. apply list_elem_of_lookup. exists n.
    by rw list_lookup_imap Hp /= Hd E.
Qed.

Lemma reconcile_path_matches o n writes w :
  reconcile_path o n writes = Some w →
  ∃ item write, last (sort_by (λ c, re_EvidenceID c.1) writes) = Some (item, write)
    ∧ (wr_Matches w = true ↔ shows (we_AfterHash write) (FileSHA256 o n (we_Path write))).
Proof.
  rw /reconcile_path /shows. destruct (last _) as [[item write]|]; [|done].
  destruct (FileSHA256 o n (we_Path write)) as [[observed present] failure] eqn:E. intros [= <-].
  exists item, write. split; [done|]. rw E /=. by rw andb_true_iff String.eqb_eq.
Qed.

(** ** What the checks say of the world

    [sees path P] is what an observation of [path] shows: [at_ n o] at question
    [n], [sometime o] at some question, [always o] at every question. *)

Abbreviation Answer := (string * bool * option string)%type.

Definition at_ (n : nat) (o : Observer) (path : string) (P : Answer → Prop) : Prop := P (FileSHA256 o n path).
Definition sometime (o : Observer) (path : string) (P : Answer → Prop) : Prop := ∃ n, at_ n o path P.
Definition always (o : Observer) (path : string) (P : Answer → Prop) : Prop := ∀ n, at_ n o path P.

(** [process] is the latest run of a recipe. *)
Definition latest_run (evidence : list RecoveryEvidence) (recipe : string) (process : Evidence) : Prop :=
  ∃ before after, recipeEvidenceFor evidence recipe = before ++ process :: after
    ∧ (∀ p, p ∈ before → String.le (pe_EvidenceID p) (pe_EvidenceID process) ∧ pe_EvidenceID p ≠ pe_EvidenceID process)
    ∧ (∀ p, p ∈ after → String.le (pe_EvidenceID p) (pe_EvidenceID process)).

Definition succeeded (check : Check) (process : Evidence) : Prop :=
  pe_Started process = true ∧ pe_TimedOut process = false ∧ pe_Canceled process = false
  ∧ pe_Signal process = "" ∧ pe_ExitCode process = 0%Z
  ∧ (ck_RequireUntruncated check = true → pe_StdoutTruncated process = false ∧ pe_StderrTruncated process = false).

(** The acceptance that a check states. *)
Definition check_holds (sees : string → (Answer → Prop) → Prop) (input : Input) (check : Check) : Prop :=
  (ck_Type check = CheckFileExists → sees (ck_Path check) (λ a, a.2 = None ∧ a.1.2 = true))
  ∧ (ck_Type check = CheckFileAbsent → sees (ck_Path check) (λ a, a.2 = None ∧ a.1.2 = false))
  ∧ (ck_Type check = CheckFileHash → sees (ck_Path check) (λ a, a.2 = None ∧ shows (ck_SHA256 check) a))
  ∧ (ck_Type check = CheckRecipeExitZero →
      ∃ process, latest_run (in_Evidence input) (ck_Recipe check) process ∧ succeeded check process).

Lemma latest_split first rest :
  ∃ before after, first :: rest = before ++ latestRecipeEvidence first rest :: after
    ∧ (∀ p, p ∈ before → String.le (pe_EvidenceID p) (pe_EvidenceID (latestRecipeEvidence first rest))
          ∧ pe_EvidenceID p ≠ pe_EvidenceID (latestRecipeEvidence first rest))
    ∧ (∀ p, p ∈ after → String.le (pe_EvidenceID p) (pe_EvidenceID (latestRecipeEvidence first rest))).
Proof.
  induction rest as [|item rest IH] using rev_ind; [exists [], []; set_solver|].
  rw /latestRecipeEvidence foldl_snoc -/(latestRecipeEvidence first rest).
  destruct IH as (before & after & E & Hb & Ha). set (latest := latestRecipeEvidence first rest) in *.
  destruct (String.ltb _ _) eqn:Hlt.
  - apply ltb_true in Hlt as [Hle Hne]. exists (first :: rest), []. split; [done|]. split; [|set_solver].
    assert (∀ p, String.le (pe_EvidenceID p) (pe_EvidenceID latest) →
      String.le (pe_EvidenceID p) (pe_EvidenceID item) ∧ pe_EvidenceID p ≠ pe_EvidenceID item) as Hstep.
    { intros p Hp. split; [by etransitivity|]. intros Ep. rw Ep in Hp. destruct Hne. by apply (anti_symm String.le). }
    intros p. rw E elem_of_app elem_of_cons. intros [Hp|[->|Hp]]; apply Hstep; [by apply Hb|done|by apply Ha].
  - apply ltb_false in Hlt. exists before, (after ++ [item]). split; [by rw app_comm_cons E -app_assoc|].
    split; [done|]. intros p. rw elem_of_app list_elem_of_singleton. intros [Hp| ->]; [by apply Ha|done].
Qed.

Lemma latest_run_iff evidence recipe process :
  latest_run evidence recipe process ↔
  ∃ first rest, recipeEvidenceFor evidence recipe = first :: rest ∧ latestRecipeEvidence first rest = process.
Proof.
  split.
  - intros (before & after & E & Hb & Ha). destruct (recipeEvidenceFor evidence recipe) as [|first rest] eqn:Er.
    { by destruct before. }
    exists first, rest. split; [done|]. destruct (latest_split first rest) as (before' & after' & E' & Hb' & Ha').
    set (latest := latestRecipeEvidence first rest) in *. rw E' in E.
    apply app_eq_inv in E as [(l & El1 & El2)|(l & El1 & El2)]; destruct l as [|p l]; simpl in El2;
      injection El2; [done| |done|]; intros Eafter ->.
    + destruct (Hb' p) as [H1 H2]; [rw El1; set_solver|]. destruct H2. apply (anti_symm String.le); [done|].
      apply Ha. rw Eafter. set_solver.
    + destruct (Hb p) as [H1 H2]; [rw El1; set_solver|]. destruct H2. apply (anti_symm String.le); [done|].
      apply Ha'. rw Eafter. set_solver.
  - intros (first & rest & E & <-). destruct (latest_split first rest) as (before & after & E' & Hb & Ha).
    exists before, after. by rw E E'.
Qed.

Lemma judge_process_passes check process :
  (judge_process check process).1.1 = CheckPassed ↔ succeeded check process.
Proof.
  rw /judge_process /succeeded /is_truncated.
  destruct (pe_StdoutTruncated process), (pe_StderrTruncated process), (ck_RequireUntruncated check),
    (pe_Started process), (pe_TimedOut process), (pe_Canceled process); simpl; try naive_solver;
    destruct (String.eqb_spec (pe_Signal process) ""); destruct (Z.eqb_spec (pe_ExitCode process) 0);
    simpl; naive_solver.
Qed.

Lemma judge_recipe_fine check input :
  fine (judge_recipe check input) ↔
  ∃ process, latest_run (in_Evidence input) (ck_Recipe check) process ∧ succeeded check process.
Proof.
  rw /judge_recipe. destruct (recipeEvidenceFor _ _) as [|first rest] eqn:E.
  - split; [by intros []|]. intros (p & (first & rest & E' & _)%latest_run_iff & _). congruence.
  - pose proof (judge_process_passes check (latestRecipeEvidence first rest)) as Hj.
    destruct (judge_process _ _) as [[status observed] reason] eqn:Ej. simpl in Hj.
    assert (status ≠ CheckUnset) as Hset.
    { intros ->. rw /judge_process in Ej. by repeat case_match. }
    rw /fine /=. split.
    + intros [Hs|Hs]; [|done]. exists (latestRecipeEvidence first rest). split; [|by apply Hj].
      apply latest_run_iff. by exists first, rest.
    + intros (p & (first' & rest' & E' & <-)%latest_run_iff & Hp). left. apply Hj. rw E in E'. by simplify_eq.
Qed.

Lemma judge_file_fine check n o :
  is_file_check (ck_Type check) = true →
  fine (judge_file check (FileSHA256 o n (ck_Path check))) ↔
  (ck_Type check = CheckFileExists → at_ n o (ck_Path check) (λ a, a.2 = None ∧ a.1.2 = true))
  ∧ (ck_Type check = CheckFileAbsent → at_ n o (ck_Path check) (λ a, a.2 = None ∧ a.1.2 = false))
  ∧ (ck_Type check = CheckFileHash → at_ n o (ck_Path check) (λ a, a.2 = None ∧ shows (ck_SHA256 check) a)).
Proof.
  rw /is_file_check /at_ /shows /fine. destruct (FileSHA256 o n (ck_Path check)) as [[hash present] failure].
  destruct (String.eqb_spec (ck_Type check) CheckFileExists) as [E|E];
  [|destruct (String.eqb_spec (ck_Type check) CheckFileAbsent) as [E'|E'];
  [|destruct (String.eqb_spec (ck_Type check) CheckFileHash) as [E''|E'']; [|done]]]; intros _.
  all: rw /judge_file /=; destruct failure as [f|]; [naive_solver|].
  - rw E /=. destruct present; simpl; naive_solver.
  - rw E' /=. destruct present; simpl; naive_solver.
  - rw E'' /=. destruct present; simpl; [|naive_solver].
    destruct (String.eqb_spec hash (ck_SHA256 check)); simpl; naive_solver.
Qed.

Lemma evaluateCheck_fine o check input n :
  fine (evaluateCheck o check input n).1 ↔ check_holds (at_ n o) input check.
Proof.
  rw /evaluateCheck /check_holds. destruct (is_file_check (ck_Type check)) eqn:Ef.
  - simpl. rw (judge_file_fine _ _ _ Ef). split; [|by intros (? & ? & ? & _)].
    intros (? & ? & ?). split_and!; [done..|]. intros E. by rw E in Ef.
  - rw /is_file_check in Ef. apply orb_false_iff in Ef as [[H1 H2]%orb_false_iff H3].
    apply String.eqb_neq in H1, H2, H3. destruct (String.eqb_spec (ck_Type check) CheckRecipeExitZero); simpl.
    + rw judge_recipe_fine. naive_solver.
    + split; [intros _; naive_solver|]. by right.
Qed.

(** Acceptance is monotone in what is seen. *)
Lemma check_holds_mono (sees sees' : string → (Answer → Prop) → Prop) input check :
  (∀ path P, sees path P → sees' path P) → check_holds sees input check → check_holds sees' input check.
Proof. rw /check_holds. naive_solver. Qed.

Lemma plan_results_sound o input plan n :
  Forall fine (plan_results o input plan n) → ∀ c, c ∈ plan → check_holds (sometime o) input c.
Proof.
  revert n. induction plan as [|check plan IH]; intros n; [set_solver|]. cbn [plan_results].
  pose proof (evaluateCheck_fine o check input n) as Hc.
  destruct (evaluateCheck o check input n) as [r n']. intros [Hr Hrs]%Forall_cons c [->|Hin]%elem_of_cons.
  - eapply check_holds_mono; [|by apply Hc]. intros path P HP. by exists n.
  - by eapply IH.
Qed.

Lemma plan_results_complete o input plan n :
  (∀ c, c ∈ plan → check_holds (always o) input c) → Forall fine (plan_results o input plan n).
Proof.
  revert n. induction plan as [|check plan IH]; intros n Hall; [constructor|]. cbn [plan_results].
  pose proof (evaluateCheck_fine o check input n) as Hc.
  destruct (evaluateCheck o check input n) as [r n']. constructor.
  - apply Hc. eapply check_holds_mono; [|apply Hall; set_solver]. intros path P HP. apply HP.
  - apply IH. set_solver.
Qed.

Lemma writes_sound o input :
  distinct input → fine (write_result (reconcileWrites o input)) →
  ∀ item write, latest_write input item write → sometime o (we_Path write) (shows (we_AfterHash write)).
Proof.
  intros Hnd Hf item write Hl. pose proof (proj1 (write_fine _) Hf) as Hall.
  assert (we_Path write ∈ paths_written (in_Evidence input)) as Hp.
  { apply elem_of_paths_written. destruct Hl as [Hl _]. by destruct (writes_at _ _); [set_solver|]. }
  apply list_elem_of_lookup in Hp as [n Hn].
  destruct (reconcile_path o n (writes_at (in_Evidence input) (we_Path write))) as [w|] eqn:E.
  - destruct (reconcile_path_matches _ _ _ _ E) as (item' & write' & Hlast & Hm).
    apply latest_of_path in Hlast as [Hp' Hl']. destruct (latest_unique _ _ _ _ _ Hnd Hl Hl' (eq_sym Hp')) as [-> ->].
    exists n. apply Hm, Hall, elem_of_reconciled. by exists n, (we_Path write').
  - exfalso. rw /reconcile_path in E. destruct (last _) as [[item' write']|] eqn:El.
    { by destruct (FileSHA256 _ _ _) as [[? ?] ?]. }
    apply last_None in El. destruct Hl as [Hl _].
    apply (elem_of_sort_by (λ c, re_EvidenceID c.1)) in Hl. rw El in Hl. set_solver.
Qed.

Lemma writes_complete o input :
  (∀ item write, latest_write input item write → always o (we_Path write) (shows (we_AfterHash write))) →
  fine (write_result (reconcileWrites o input)).
Proof.
  intros Hall. apply write_fine. intros w (n & path & Hn & E)%elem_of_reconciled.
  destruct (reconcile_path_matches _ _ _ _ E) as (item & write & Hlast & Hm).
  apply latest_of_path in Hlast as [_ Hl]. by apply Hm, (Hall _ _ Hl).
Qed.

(** ** The proposal passes exactly when it is acceptable *)

Record acceptable (sees : string → (Answer → Prop) → Prop) (v : Verifier) (input : Input) : Prop := {
  claims_stand : ∀ claim, claim ∈ in_FinalEvidence input → stands input claim;
  nothing_uncertain : ∀ a, a ∈ in_ToolAttempts input → blocks_completion a = false;
  nothing_pending : in_PendingApprovals input = [];
  writes_stand : ∀ item write, latest_write input item write → sees (we_Path write) (shows (we_AfterHash write));
  has_plan : (0 < length (planChecks v))%nat;
  within_budget : (Z.of_nat (length (planChecks v)) + 6 ≤ MaxChecks (vf_limits v))%Z;
  plan_holds : ∀ c, c ∈ planChecks v → check_holds sees input c
}.

Lemma structural_fine v o input :
  Forall fine (structural_results v o input) ↔
  (fine (grounding_result (resolveCitedEvidence input)) ∧ fine (typing_result (resolveCitedEvidence input)))
  ∧ (∀ a, a ∈ in_ToolAttempts input → blocks_completion a = false)
  ∧ in_PendingApprovals input = [] ∧ fine (write_result (reconcileWrites o input)) ∧ planChecks v ≠ [].
Proof.
  rw /structural_results Forall_app. repeat rw Forall_cons.
  rw uncertain_fine approval_fine uncertainAttempts_nil.
  pose proof (git_fine v (observeGit v o input)). destruct (planChecks v) as [|c cs].
  - split; [|naive_solver]. by intros [_ [[E|E] _]%Forall_cons].
  - split; [naive_solver|]. intros (? & ? & ? & ? & _). split; [|constructor]. naive_solver.
Qed.

Lemma results_fine v o input :
  planChecks v ≠ [] →
  Forall fine (results v o input) ↔
  Forall fine (structural_results v o input)
  ∧ (Z.of_nat (length (planChecks v)) + 6 ≤ MaxChecks (vf_limits v))%Z
  ∧ Forall fine (plan_results o input (planChecks v) (length (reconcileWrites o input))).
Proof.
  intros Hne. rw /results.
  assert (length (structural_results v o input) = 6%nat) as ->.
  { rw /structural_results. by destruct (planChecks v). }
  generalize (structural_results v o input). intros rs. rw !Forall_app.
  pose proof (length_plan_results o input (planChecks v) (length (reconcileWrites o input))) as Hlen.
  assert (0 < length (planChecks v))%nat by (destruct (planChecks v); [done|simpl; lia]).
  rw /left_over. destruct (Nat.ltb_spec (Z.to_nat (MaxChecks (vf_limits v) - Z.of_nat 6)) (length (planChecks v))) as [Hlt|Hle].
  - split; [|lia]. intros (_ & _ & [E _]%Forall_cons). by destruct E.
  - rw take_ge; [lia|]. split; [|naive_solver]. intros (? & ? & _). split_and!; [done| |done]. lia.
Qed.

Lemma observed_passes v o input now :
  rp_Decision (observed_report v o input now) = DecisionPassed ↔ Forall fine (results v o input).
Proof. destruct (observed_report_results v o input now) as [_ ->]. by rw verdict_passed fine_bounded. Qed.

Lemma passes_sound v o input :
  distinct input → Forall fine (results v o input) → acceptable (sometime o) v input.
Proof.
  intros Hnd Hall. assert (planChecks v ≠ []) as Hne.
  { rw /results Forall_app structural_fine in Hall. naive_solver. }
  apply (results_fine _ _ _ Hne) in Hall as (Hs & Hb & Hp).
  apply structural_fine in Hs as (Hc & Hu & Ha & Hw & _). constructor; try done.
  - exact (proj1 (citations_fine _ Hnd) Hc).
  - by apply writes_sound.
  - destruct (planChecks v); [done|simpl; lia].
  - by eapply plan_results_sound.
Qed.

Lemma passes_complete v o input :
  distinct input → acceptable (always o) v input → Forall fine (results v o input).
Proof.
  intros Hnd [Hc Hu Ha Hw Hpl Hb Hp]. assert (planChecks v ≠ []) as Hne by by destruct (planChecks v); [simpl in *; lia|].
  apply (results_fine _ _ _ Hne). split_and!; [|done|by apply plan_results_complete].
  apply structural_fine. split_and!; try done; [by apply citations_fine..|by apply writes_complete].
Qed.

(** C28: a proposal that passes was acceptable as observed: its claims stand, no
    attempt is open and no approval pending, the file of every path that was
    written showed its latest content, and every check of a plan that has one
    and keeps to the budget was seen to hold; and a proposal that is acceptable
    whenever one looks passes. *)
Theorem Verify_passed now v input :
  distinct input →
  (rp_Decision (Verify now v input) = DecisionPassed →
    ∃ v' o, v = Some v' ∧ vf_observer v' = Some o ∧ acceptable (sometime o) v' input)
  ∧ (∀ v' o, v = Some v' → vf_observer v' = Some o → acceptable (always o) v' input →
      rp_Decision (Verify now v input) = DecisionPassed).
Proof.
  intros Hnd. rw /Verify. split.
  - destruct v as [v|]; [|done]. destruct (vf_observer v) as [o|] eqn:Eo; [|done].
    intros Hp%observed_passes. exists v, o. split_and!; [done..|by apply passes_sound].
  - intros v' o -> -> Hacc. by apply observed_passes, passes_complete.
Qed.

(** ** Refusals *)

(** An open attempt, and nothing else, makes the decision uncertain. *)
Lemma evaluateCheck_status o check input n : cr_Status (evaluateCheck o check input n).1 ≠ CheckUncertain.
Proof.
  rw /evaluateCheck. case_match; [|case_match; [|done]].
  - rw /= /judge_file. by repeat case_match.
  - rw /= /judge_recipe. case_match; [done|]. destruct (judge_process _ _) as [[status observed] reason] eqn:E.
    intros Hs. simpl in Hs. subst status. rw /judge_process in E. by repeat case_match.
Qed.

Lemma plan_results_status o input plan n r : r ∈ plan_results o input plan n → cr_Status r ≠ CheckUncertain.
Proof.
  revert n. induction plan as [|check plan IH]; intros n; [set_solver|]. cbn [plan_results].
  pose proof (evaluateCheck_status o check input n). destruct (evaluateCheck o check input n) as [r' n'].
  intros [->|Hr]%elem_of_cons; [done|by eapply IH].
Qed.

Lemma verdict_uncertain rs : verdict_of rs = DecisionUncertain ↔ ∃ r, r ∈ rs ∧ cr_Status r = CheckUncertain.
Proof.
  rw /verdict_of. destruct (existsb (of_status CheckUncertain) rs) eqn:E.
  - apply existsb_exists in E as (r & Hr%list_elem_of_In & Hs%bool_decide_eq_true). naive_solver.
  - split; [by repeat case_match|]. intros (r & Hr & Hs).
    assert (existsb (of_status CheckUncertain) rs = true); [|congruence]. apply existsb_exists. exists r.
    split; [by apply list_elem_of_In|by apply bool_decide_eq_true].
Qed.

Lemma structural_status v o input r :
  r ∈ structural_results v o input → cr_Status r = CheckUncertain →
  r = uncertain_result (uncertainAttempts (in_ToolAttempts input)).
Proof.
  rw /structural_results. intros [Hr|Hr]%elem_of_app.
  - repeat (apply elem_of_cons in Hr as [->|Hr]); [..|by apply not_elem_of_nil in Hr].
    + rw /grounding_result. by case_match.
    + rw /typing_result. by case_match.
    + done.
    + rw /approval_result. by case_match.
    + rw /write_result. by case_match.
    + pose proof (git_fine v (observeGit v o input)) as [E|E]; congruence.
  - destruct (planChecks v); [|by apply not_elem_of_nil in Hr]. by apply list_elem_of_singleton in Hr as ->.
Qed.

(** C29: the verifier that has an observer refuses a proposal as uncertain exactly
    when an attempt of the task is prepared, uncertain or under review. *)
Theorem Verify_uncertain now v o input :
  vf_observer v = Some o →
  rp_Decision (Verify now (Some v) input) = DecisionUncertain ↔
  ∃ a, a ∈ in_ToolAttempts input ∧ ra_Status a ∈ ["prepared"; "uncertain"; "human_review_required"].
Proof.
  intros Ho. assert (∀ a, blocks_completion a = true ↔
    ra_Status a ∈ ["prepared"; "uncertain"; "human_review_required"]) as Hb.
  { intros a. rw /blocks_completion !orb_true_iff !String.eqb_eq. set_solver. }
  rw /Verify Ho. destruct (observed_report_results v o input
    (if (TrimSpace (in_Now input) =? "")%string then now else in_Now input)) as [_ ->].
  rw verdict_uncertain. split.
  - intros (r' & (r & -> & Hr)%list_elem_of_fmap & Hs). change (cr_Status r = CheckUncertain) in Hs.
    rw /results in Hr. apply elem_of_app in Hr as [Hr|[Hr|Hr]%elem_of_app].
    + pose proof (structural_status _ _ _ _ Hr Hs) as ->.
      destruct (existsb blocks_completion (in_ToolAttempts input)) eqn:E.
      { apply existsb_exists in E as (a & Ha%list_elem_of_In & Hba). exists a. by split; [|apply Hb]. }
      assert (uncertainAttempts (in_ToolAttempts input) = []) as E'; [|by rw E' in Hs].
      apply uncertainAttempts_nil. intros a Ha. apply not_true_iff_false. intros Hba.
      assert (existsb blocks_completion (in_ToolAttempts input) = true); [|congruence].
      apply existsb_exists. exists a. by split; [apply list_elem_of_In|].
    + apply elem_of_take in Hr as (i & Hr & _). apply list_elem_of_lookup_2, plan_results_status in Hr. done.
    + case_match; [by apply list_elem_of_singleton in Hr as ->|by apply not_elem_of_nil in Hr].
  - intros (a & Ha & Hst%Hb). exists (bounded v (uncertain_result (uncertainAttempts (in_ToolAttempts input)))).
    split.
    + apply list_elem_of_fmap_2. rw /results /structural_results. set_solver.
    + change (cr_Status (uncertain_result (uncertainAttempts (in_ToolAttempts input))) = CheckUncertain).
      destruct (uncertainAttempts (in_ToolAttempts input)) eqn:E; [|done].
      pose proof (proj1 (uncertainAttempts_nil _) E a Ha). congruence.
Qed.

(** ** Bounds of the report *)

Lemma length_substring n s : (String.length (String.substring 0 n s) ≤ n)%nat.
Proof. revert s. induction n as [|n IH]; intros [|c s]; simpl; [lia..|]. specialize (IH s). lia. Qed.

(** A bounded text keeps to the limit and the marker. *)
Lemma boundText_length limit s :
  (0 < limit)%Z → (String.length (boundText limit s) ≤ Z.to_nat limit + 11)%nat.
Proof.
  intros Hl. rw /boundText. destruct (Z.leb_spec limit 0); [lia|]. simpl.
  destruct (Z.leb_spec (Z.of_nat (String.length s)) limit); [lia|].
  rw length_app_text. pose proof (length_substring (Z.to_nat limit) s).
  change (String.length "[truncated]") with 11%nat. lia.
Qed.

Lemma length_changedFiles current baseline limit :
  (0 < limit)%Z → (length (changedFiles current baseline limit) ≤ Z.to_nat limit)%nat.
Proof.
  intros Hl. rw /changedFiles length_fmap.
  destruct (Z.ltb_spec 0 limit); [|lia]. simpl.
  destruct (Z.ltb_spec limit (Z.of_nat (length (sort_Strings (map_to_list (filter (λ file, changed_since baseline file = true) current)).*1)))).
  - rw length_take. lia.
  - lia.
Qed.

Lemma observeGit_length v o input :
  (0 < MaxChangedFiles (vf_limits v))%Z →
  (length (go_PreExisting (observeGit v o input)) ≤ Z.to_nat (MaxChangedFiles (vf_limits v)))%nat
  ∧ (length (go_DuringTask (observeGit v o input)) ≤ Z.to_nat (MaxChangedFiles (vf_limits v)))%nat.
Proof.
  intros Hl. rw /observeGit. destruct (GitStatusText o) as [[text t] [f|]]; [simpl; lia|].
  destruct (GitDiffText o) as [[d t'] [f|]]; split; by apply length_changedFiles.
Qed.

Lemma results_length v o input :
  (7 ≤ MaxChecks (vf_limits v))%Z → (length (results v o input) ≤ Z.to_nat (MaxChecks (vf_limits v)) + 1)%nat.
Proof.
  intros Hm. assert (length (structural_results v o input) ≤ 7)%nat as Hn.
  { rw /structural_results length_app. destruct (planChecks v); simpl; lia. }
  rw /results. generalize dependent (structural_results v o input). intros rs Hn.
  rw !length_app length_take /left_over. destruct (_ <? _)%nat; cbn [length]; lia.
Qed.

(** The report of a verifier that [New] made: at most 257 checks, none of
    their texts longer than 512 bytes and the marker, and at most 512 changed
    files of each kind. *)
Theorem Verify_bounds now observer plan input :
  let report := Verify now (Some (New observer plan)) input in
  (length (rp_Checks report) ≤ 257)%nat
  ∧ (∀ r, r ∈ rp_Checks report → (String.length (cr_Expected r) ≤ 523)%nat
      ∧ (String.length (cr_Observed r) ≤ 523)%nat ∧ (String.length (cr_Reason r) ≤ 523)%nat)
  ∧ (∀ git, rp_Git report = Some git →
      (length (go_PreExisting git) ≤ 512)%nat ∧ (length (go_DuringTask git) ≤ 512)%nat).
Proof.
  intros report. subst report. set (v := New observer plan). rw /Verify.
  change (vf_observer v) with observer.
  destruct observer as [o|].
  - set (t := if (_ =? _)%string then _ else _).
    destruct (observed_report_results v o input t) as [Hc _].
    rw Hc. split_and!.
    + rw length_fmap. by apply (results_length v o input).
    + intros r' (r & -> & _)%list_elem_of_fmap.
      split_and!; by apply (boundText_length 512).
    + intros git Hg. assert (git = observeGit v o input) as ->.
      { rw /observed_report in Hg. destruct (git_result _ _), (evaluate_plan _ _ _ _ _ _), (summarize _ _). by simplify_eq/=. }
      by apply (observeGit_length v o input).
  - split_and!; [simpl; lia| |done]. intros r ->%list_elem_of_singleton. split_and!; vm_compute; lia.
Qed.

(** ** Every write is accounted for *)

Lemma omap_imap_all {A B} (f : nat → A → option B) (P : A → B → Prop) xs :
  (∀ i x, x ∈ xs → ∃ y, f i x = Some y ∧ P x y) → Forall2 P xs (omap id (imap f xs)).
Proof.
  revert f. induction xs as [|x xs IH]; intros f Hall; [constructor|]. rw imap_cons. cbn [omap list_omap].
  destruct (Hall O x ltac:(set_solver)) as (y & E & HP). rw E /=. constructor; [done|].
  apply IH. intros i x' Hx'. apply Hall. set_solver.
Qed.

Definition accounted (w : WriteReconciled) : list string := wr_Superseded w ++ [wr_EvidenceID w].

Lemma reconcile_path_accounts o n path evidence :
  writes_at evidence path ≠ [] →
  ∃ w, reconcile_path o n (writes_at evidence path) = Some w
    ∧ (wr_Path w = path ∧ accounted w ≡ₚ (λ c, re_EvidenceID c.1) <$> writes_at evidence path).
Proof.
  intros Hne. rw /reconcile_path. set (ws := sort_by _ _).
  assert (ws ≡ₚ writes_at evidence path) as Hp by apply sort_by_perm.
  destruct (last ws) as [[item write]|] eqn:El.
  - destruct (FileSHA256 o n (we_Path write)) as [[observed present] failure]. eexists. split; [done|].
    apply last_Some in El as [ws' E]. rw /accounted /=. split.
    + assert ((item, write) ∈ writes_at evidence path) as Hin by (rw -Hp E; set_solver).
      by apply elem_of_writes_at in Hin as (_ & _ & ->).
    + rw -Hp E length_app /= Nat.add_sub take_app_length fmap_app. done.
  - apply last_None in El. rw El in Hp. by apply Permutation_nil in Hp.
Qed.

Lemma filter_other {A} (key : A → string) p (xs : list A) :
  (∀ x, x ∈ xs → key x ≠ p) → List.filter (λ x, String.eqb (key x) p) xs = [].
Proof. intros Hno. apply filter_nil. intros x Hx. by apply String.eqb_neq, Hno. Qed.

Lemma partition_perm {A} (key : A → string) (xs : list A) paths :
  NoDup paths → (∀ x, x ∈ xs → key x ∈ paths) →
  concat ((λ p, List.filter (λ x, String.eqb (key x) p) xs) <$> paths) ≡ₚ xs.
Proof.
  revert paths. induction xs as [|x xs IH]; intros paths Hnd Hall.
  { clear. induction paths; [done|]. by simpl. }
  assert (key x ∈ paths) as (before & after & ->)%list_elem_of_split by (apply Hall; set_solver).
  trans (x :: concat ((λ p, List.filter (λ x, String.eqb (key x) p) xs) <$> before ++ key x :: after));
    [|constructor; apply IH; [done|set_solver]].
  apply NoDup_app in Hnd as (_ & Hb & [Hni _]%NoDup_cons).
  assert (∀ ps : list string, key x ∉ ps → (λ p, List.filter (λ x, String.eqb (key x) p) (x :: xs)) <$> ps
    = (λ p, List.filter (λ x, String.eqb (key x) p) xs) <$> ps) as Hsame.
  { intros ps Hps. apply list_fmap_ext. intros i p Hp%list_elem_of_lookup_2. simpl.
    destruct (String.eqb_spec (key x) p); [congruence|done]. }
  rw !fmap_app !concat_app !fmap_cons. rw Hsame; [intros Hx; by apply (Hb _ Hx); left|]. rw Hsame //.
  simpl. rw String.eqb_refl /=. symmetry. apply Permutation_middle.
Qed.

(** The reconciliation mentions every recorded write exactly once, either as the
    latest of its path or as superseded. *)
Theorem reconcile_accounts o input :
  concat (accounted <$> reconcileWrites o input) ≡ₚ
    (λ c, re_EvidenceID c.1) <$> omap write_candidate (in_Evidence input)
  ∧ wr_Path <$> reconcileWrites o input = paths_written (in_Evidence input).
Proof.
  assert (Forall2 (λ path w, wr_Path w = path
      ∧ accounted w ≡ₚ (λ c, re_EvidenceID c.1) <$> writes_at (in_Evidence input) path)
    (paths_written (in_Evidence input)) (reconcileWrites o input)) as Hall.
  { apply omap_imap_all. intros n path Hp%elem_of_paths_written.
    assert (default [] (by_path (in_Evidence input) !! path) = writes_at (in_Evidence input) path) as ->.
    { rw by_path_lookup. by destruct (writes_at _ _). }
    by apply reconcile_path_accounts. }
  assert (NoDup (paths_written (in_Evidence input))) as Hnd.
  { rw /paths_written /sort_Strings merge_sort_Permutation. apply NoDup_fst_map_to_list. }
  split.
  - trans ((λ c : RecoveryEvidence * WriteEvidence, re_EvidenceID c.1) <$>
      concat (writes_at (in_Evidence input) <$> paths_written (in_Evidence input))).
    + clear Hnd. induction Hall as [|path w paths ws [_ Hw] _ IH]; [done|]. simpl. by rw fmap_app Hw IH.
    + f_equiv. apply (partition_perm (λ c, we_Path c.2)); [done|].
      intros [item write] Hin. simpl. apply elem_of_paths_written. rw /writes_at.
      intros E. pose proof (proj1 (filter_nil _ _) E (item, write) Hin) as Hf. by rw /= String.eqb_refl in Hf.
  - clear Hnd. induction Hall as [|path w paths ws [<- _] _ IH]; [done|]. simpl. by f_equal.
Qed.
End verifier.

(** ** Plans *)

Lemma accept_checks_None seen checks :
  accept_checks seen checks = None ↔
  Forall (λ c, Validate c = None) checks ∧ NoDup (ck_ID <$> checks) ∧ (∀ c, c ∈ checks → ck_ID c ∉ seen).
Proof.
  revert seen. induction checks as [|c checks IH]; intros seen.
  { split; [|done]. intros _. split_and!; [constructor..|set_solver]. }
  cbn [accept_checks fmap list_fmap]. rw Forall_cons NoDup_cons.
  destruct (Validate c) as [e|] eqn:Ev; [naive_solver|]. case_bool_decide as Hin.
  { split; [done|]. intros (_ & _ & Hno). by destruct (Hno c); [set_solver|]. }
  rw IH. split.
  - intros (Hv & Hnd & Hno). split_and!; [done|done| |done|].
    + intros (c' & E & Hc')%list_elem_of_fmap. apply (Hno c' Hc'). set_solver.
    + intros c' [->|Hc']%elem_of_cons; [done|]. specialize (Hno c' Hc'). set_solver.
  - intros ([_ Hv] & [Hni Hnd] & Hno). split_and!; [done..|]. intros c' Hc'.
    assert (ck_ID c' ≠ ck_ID c) by (intros E; apply Hni; rw -E; by apply list_elem_of_fmap_2).
    specialize (Hno c' ltac:(set_solver)). set_solver.
Qed.

(** Well-formed checks are of a known type and say what they are about. *)
Lemma Validate_type c : Validate c = None → ck_Type c ∈ AllCheckTypes.
Proof.
  rw /Validate /AllCheckTypes. intros H.
  destruct (String.eqb_spec (ck_Type c) CheckFileExists); [set_solver|].
  destruct (String.eqb_spec (ck_Type c) CheckFileAbsent); [set_solver|].
  destruct (String.eqb_spec (ck_Type c) CheckFileHash); [set_solver|].
  destruct (String.eqb_spec (ck_Type c) CheckRecipeExitZero); [set_solver|].
  by case_match.
Qed.

(** A plan is accepted as it is or not at all: exactly when its version is the
    supported one, every check is well formed and no identity is used twice. *)
Theorem accept_plan_spec plan plan' :
  accept_plan plan = inr plan' ↔
  plan' = plan ∧ Version plan = PlanVersion
  ∧ Forall (λ c, Validate c = None) (Checks plan) ∧ NoDup (ck_ID <$> Checks plan).
Proof.
  rw /accept_plan. destruct (Z.eqb_spec (Version plan) PlanVersion) as [Hv|Hv]; simpl; [|naive_solver].
  pose proof (accept_checks_None ∅ (Checks plan)) as Ha. destruct (accept_checks ∅ (Checks plan)) as [e|].
  - split; [done|]. intros (_ & _ & H1 & H2). assert (Some e = None); [|done]. apply Ha. set_solver.
  - destruct (proj1 Ha eq_refl) as (H1 & H2 & _). naive_solver.
Qed.

(** The order in which checks are evaluated does not depend on the order in
    which an accepted plan lists them. *)
Theorem planChecks_deterministic v v' plan plan' :
  vf_plan v = Some plan → vf_plan v' = Some plan' → accept_plan plan = inr plan → Checks plan ≡ₚ Checks plan' →
  planChecks v = planChecks v'.
Proof.
  intros Hp Hp' Ha%accept_plan_spec Hperm. destruct Ha as (_ & _ & _ & Hnd).
  assert (planChecks v ≡ₚ planChecks v') as Hc by by rw !planChecks_perm Hp Hp'.
  apply (StronglySorted_unique_strong (λ x y, String.le (ck_ID x) (ck_ID y)));
    [|apply planChecks_sorted..|done].
  intros x y Hx Hy H1 H2. apply elem_of_planChecks in Hx, Hy. rw Hp /= in Hx. rw Hp' /= in Hy. rw -Hperm in Hy.
  apply list_elem_of_lookup in Hx as [i Hi]. apply list_elem_of_lookup in Hy as [j Hj].
  assert (i = j) as ->; [|congruence].
  eapply NoDup_lookup; [exact Hnd|..]; rw list_lookup_fmap; [by rw Hi|].
  rw Hj /=. f_equal. by apply (anti_symm String.le).
Qed.

(** ** A hash in capitals

    [Validate] accepts capital digits; hashes are observed in small ones. *)

Fixpoint capital (s : string) : bool :=
  match s with
  | EmptyString => false
  | String c s' => ((65 <=? byte_of c) && (byte_of c <=? 70))%Z || capital s'
  end.

Definition demo_hash_check : Check := {|
  ck_ID := "sum"; ck_Type := CheckFileHash; ck_Path := "a.txt";
  ck_SHA256 := "ABCDEF0123456789ABCDEF0123456789ABCDEF0123456789ABCDEF0123456789";
  ck_Recipe := ""; ck_RequireUntruncated := false |}.

(** A check with such a hash is well formed and fails on every file. *)
Lemma capital_hash check input o n `{Sorter} `{Decoder} :
  ck_Type check = CheckFileHash → capital (ck_SHA256 check) = true →
  (∀ path, capital (FileSHA256 o n path).1.1 = false) →
  cr_Status (evaluateCheck o check input n).1 ≠ CheckPassed.
Proof.
  intros Ht Hc Hobs Hp. destruct (proj1 (evaluateCheck_fine o check input n) (or_introl Hp)) as (_ & _ & Hh & _).
  destruct (Hh Ht) as [_ [_ E]]. specialize (Hobs (ck_Path check)). congruence.
Qed.

Example demo_hash_check_valid :
  Validate demo_hash_check = None ∧ capital (ck_SHA256 demo_hash_check) = true.
Proof. by vm_compute. Qed.

(** ** Changed files *)

Definition new_status (current baseline : gmap string string) (f : ChangedFile) : Prop :=
  current !! cf_Path f = Some (cf_Status f) ∧ baseline !! cf_Path f ≠ Some (cf_Status f).

Lemma changed_since_spec baseline path status :
  changed_since baseline (path, status) = true ↔ baseline !! path ≠ Some status.
Proof.
  rw /changed_since /=. destruct (baseline !! path) as [s|]; [|naive_solver].
  destruct (String.eqb_spec s status); naive_solver.
Qed.

(** The files of the report before the limit cuts them. *)
Definition all_changed (current baseline : gmap string string) : list ChangedFile :=
  (λ path, {| cf_Path := path; cf_Status := default ""%string (current !! path) |}) <$>
    sort_Strings (map_to_list (filter (λ file, changed_since baseline file = true) current)).*1.

Lemma elem_of_all_changed current baseline f : f ∈ all_changed current baseline ↔ new_status current baseline f.
Proof.
  rw /all_changed /new_status list_elem_of_fmap. split.
  - intros (path & -> & Hp). rw elem_of_sort in Hp. apply list_elem_of_fmap in Hp as ([p s] & -> & Hp).
    apply elem_of_map_to_list, map_lookup_filter_Some in Hp as [Hp Hc%changed_since_spec]. by rw /= Hp.
  - intros [Hf Hb]. exists (cf_Path f). split; [by rw Hf; destruct f|].
    rw elem_of_sort. apply list_elem_of_fmap. exists (cf_Path f, cf_Status f). split; [done|].
    apply elem_of_map_to_list, map_lookup_filter_Some. split; [done|]. by apply changed_since_spec.
Qed.

Lemma changedFiles_all current baseline limit :
  changedFiles current baseline limit =
  if ((0 <? limit) && (limit <? Z.of_nat (length (all_changed current baseline))))%Z
  then take (Z.to_nat limit) (all_changed current baseline) else all_changed current baseline.
Proof.
  rw /changedFiles /all_changed length_fmap.
  set (paths := filter _ current). set (ordered := sort_Strings _).
  assert (∀ l : list string, (∀ p, p ∈ l → p ∈ ordered) →
    (λ path, {| cf_Path := path; cf_Status := default ""%string (paths !! path) |}) <$> l =
    (λ path, {| cf_Path := path; cf_Status := default ""%string (current !! path) |}) <$> l) as Heq.
  { intros l Hl. apply list_fmap_ext. intros i p Hp. f_equal.
    apply list_elem_of_lookup_2, Hl in Hp. rw /ordered elem_of_sort in Hp.
    apply list_elem_of_fmap in Hp as ([p' s] & -> & Hp%elem_of_map_to_list). rw Hp.
    apply map_lookup_filter_Some in Hp as [Hp _]. by rw /= Hp. }
  case_match; rw Heq //.
  - intros p (i & Hp & _)%elem_of_take. by eapply list_elem_of_lookup_2.
  - by rw fmap_take.
Qed.

(** A file is attributed to the task exactly when git reports it now with a
    status it did not have when the task started, as long as the limit does not
    cut the list; and what is listed is listed in the order of paths. *)
Theorem DuringTask_spec v o input text truncated :
  GitStatusText o = (text, truncated, None) →
  (Z.of_nat (length (all_changed (parseGitStatus text) (parseGitStatus (in_BaselineGitStatus input))))
    ≤ MaxChangedFiles (vf_limits v))%Z →
  StronglySorted (λ f g, String.le (cf_Path f) (cf_Path g)) (go_DuringTask (observeGit v o input))
  ∧ ∀ f, f ∈ go_DuringTask (observeGit v o input) ↔
      new_status (parseGitStatus text) (parseGitStatus (in_BaselineGitStatus input)) f.
Proof.
  intros Hg Hl. assert (go_DuringTask (observeGit v o input) =
    all_changed (parseGitStatus text) (parseGitStatus (in_BaselineGitStatus input))) as ->.
  { rw /observeGit Hg. destruct (GitDiffText o) as [[diff t] [f|]]; rw /= changedFiles_all.
    all: destruct (Z.ltb_spec (MaxChangedFiles (vf_limits v))
      (Z.of_nat (length (all_changed (parseGitStatus text) (parseGitStatus (in_BaselineGitStatus input))))));
      [lia|]; by rw andb_false_r. }
  split; [|intros f; apply elem_of_all_changed].
  rw /all_changed. apply (StronglySorted_fmap _ String.le); [done|].
  apply Sorted_StronglySorted; [apply _|]. apply Sorted_merge_sort. apply _.
Qed.

(** ** The status of git, printed and read back *)

Lemma list_ascii_app s t :
  String.list_ascii_of_string (s +:+ t) = String.list_ascii_of_string s ++ String.list_ascii_of_string t.
Proof. induction s as [|c s IH]; [done|]. by apply (f_equal (cons c)). Qed.

Lemma string_of_list_app l k :
  String.string_of_list_ascii (l ++ k) = String.string_of_list_ascii l +:+ String.string_of_list_ascii k.
Proof. induction l as [|c l IH]; [done|]. by apply (f_equal (String c)). Qed.

Lemma rev_string_app s t : rev_string (s +:+ t) = rev_string t +:+ rev_string s.
Proof. by rw /rev_string list_ascii_app reverse_app string_of_list_app. Qed.

Lemma rev_string_involutive s : rev_string (rev_string s) = s.
Proof.
  by rw /rev_string String.list_ascii_of_string_of_list_ascii reverse_involutive
    String.string_of_list_ascii_of_string.
Qed.

Lemma rev_string_empty s : rev_string s = ""%string → s = ""%string.
Proof. intros E. by rw -(rev_string_involutive s) E. Qed.

Lemma drop_char_keep c s t : s ≠ ""%string → drop_char c s = s → drop_char c (s +:+ t) = s +:+ t.
Proof.
  destruct s as [|x s]; [done|]. intros _ H. simpl in *. destruct (Ascii.eqb c x); [|done]. exfalso.
  assert (∀ u, (String.length (drop_char c u) ≤ String.length u)%nat) as Hlen.
  { induction u as [|y u IH]; simpl; [lia|]. case_match; simpl; lia. }
  specialize (Hlen s). rw H /= in Hlen. lia.
Qed.

Lemma trim_right_app c s t : t ≠ ""%string → trim_right c t = t → trim_right c (s +:+ t) = s +:+ t.
Proof.
  intros Hne Ht. rw /trim_right rev_string_app in Ht *. rw drop_char_keep.
  - by intros ?%rev_string_empty.
  - apply (f_equal rev_string) in Ht. by rw rev_string_involutive in Ht.
  - by rw -rev_string_app rev_string_involutive.
Qed.

Lemma substring_all s : String.substring 0 (String.length s) s = s.
Proof. induction s as [|c s IH]; [done|]. by apply (f_equal (String c)). Qed.

(** One line of the short format: two columns, a space, the path. *)
Definition status_line (file : string * string) : string := file.2 +:+ " " +:+ file.1.

(** Paths that the format shows as they are. *)
Record shown (file : string * string) : Prop := {
  shown_status : String.length file.2 = 2%nat ∧ file.2 ≠ "##"%string ∧ free_of newline file.2 = true;
  shown_path : file.1 ≠ ""%string ∧ file.1 ≠ "."%string ∧ free_of newline file.1 = true
    ∧ String.prefix " " file.1 = false ∧ trim_right carriage_return file.1 = file.1
}.

Lemma prefix_two a b c d s :
  String c (String d "") ≠ String a (String b "") → String.prefix (String a (String b "")) (String c (String d s)) = false.
Proof.
  intros H. simpl. destruct (ascii_dec a c) as [<-|]; [|done]. by destruct (ascii_dec b d) as [<-|]; [destruct H|].
Qed.

Lemma parse_status_line_shown file : shown file → parse_status_line (status_line file) = Some file.
Proof.
  destruct file as [path status]. intros [(Hl & Hh & _) (Hne & Hdot & _ & Hsp & Htrim)]. simpl in *.
  destruct status as [|a [|b [|]]]; try done. rw /parse_status_line.
  change (status_line (path, String a (String b ""))) with (String a (String b " ") +:+ path).
  rw trim_right_app //.
  assert (String.prefix "##" (String a (String b " ") +:+ path) = false) as ->.
  { by apply prefix_two. }
  assert (String.substring 3 (String.length (String a (String b " ") +:+ path) - 3) (String a (String b " ") +:+ path) = path) as ->.
  { simpl. rw Nat.sub_0_r. apply substring_all. }
  assert ((String.length (String a (String b " ") +:+ path) <? 3)%nat = false) as -> by done.
  rw /TrimPrefix Hsp. destruct (String.eqb_spec path ""); [done|]. by destruct (String.eqb_spec path ".").
Qed.

(** The header that [--branch] adds is not a file. *)
Lemma parse_status_line_header branch :
  branch ≠ ""%string → trim_right carriage_return branch = branch → parse_status_line ("## " +:+ branch) = None.
Proof.
  intros Hne Ht. rw /parse_status_line trim_right_app //.
Qed.

(** Reading the status that git prints, with a branch header and a final
    newline, gives back the files and their status columns. *)
Theorem parseGitStatus_print branch files :
  branch ≠ ""%string → free_of newline branch = true → trim_right carriage_return branch = branch →
  Forall shown files → NoDup files.*1 →
  parseGitStatus (join_on newline (("## " +:+ branch) :: (status_line <$> files) ++ [""%string])) = list_to_map files.
Proof.
  intros Hne Hb Ht Hs Hnd. rw /parseGitStatus split_join //.
  { constructor; [exact Hb|]. apply Forall_app. split; [|by repeat constructor].
    apply Forall_fmap. eapply Forall_impl; [exact Hs|]. intros [path status] [(_ & _ & H1) (_ & _ & H2 & _)].
    simpl in *. by rw /status_line /= !free_of_app H1 /= H2. }
  cbn [foldl]. rw parse_status_line_header // foldl_app. cbn [foldl].
  assert (parse_status_line "" = None) as -> by done.
  assert (∀ acc : gmap string string, foldl (λ fs line, match parse_status_line line with
      Some (path, status) => <[path := status]> fs | None => fs end) acc (status_line <$> files)
    = list_to_map files ∪ acc) as ->; [|by rw right_id_L].
  clear Hne Hb Ht. induction Hs as [|file files Hf Hs IH]; intros acc; [by rw left_id_L|].
  apply NoDup_cons in Hnd as [Hni Hnd]. cbn [fmap list_fmap foldl]. rw parse_status_line_shown //.
  destruct file as [path status]. rw IH // list_to_map_cons /= -insert_union_r.
  - by apply not_elem_of_list_to_map_1.
  - by rw insert_union_l.
Qed.
