(* ===== verification/VerifierScenarios.v ===== *)
(** * Concrete verifications

    A task that wrote one file twice and ran its tests, the witnesses of the
    theorems about the verifier, and two situations it does not notice. *)

From stdpp Require Import pretty.
From S2P Require Import Prelude GoTime Text Policy Patch Verifier VerifierLaws.
From Stdlib Require Import Ascii.

Local Open Scope runstead_scope.

(** ** Instances *)

Definition key_le {A} (key : A → string) (x y : A) : Prop := String.le (key x) (key y).

Lemma merge_sort_by_sorted {A} (key : A → string) (xs : list A) :
  StronglySorted (key_le key) (merge_sort (key_le key) xs).
Proof.
  apply Sorted_StronglySorted.
  - intros x y z. rw /key_le. apply transitivity.
  - apply Sorted_merge_sort. intros x y. rw /key_le. apply (total String.le).
Qed.

Definition merging : Sorter := {|
  sort_by := λ A key, merge_sort (key_le key);
  sort_by_perm := λ A key xs, merge_sort_Permutation (key_le key) xs;
  sort_by_sorted := λ A key xs, merge_sort_by_sorted key xs |}.

Definition demo_write (path hash id : string) : WriteEvidence := {|
  we_Path := path; we_BeforeHash := "absent"; we_AfterHash := hash; we_ByteCount := 5; we_ChangeKind := "modified";
  we_Outcome := "success"; we_Diff := ""; we_DiffTruncated := false; we_DiffBytes := 0;
  we_ActionID := ""; we_ExecutionID := ""; we_EvidenceID := id |}.

Definition demo_run (id : string) (exit : Z) : Evidence := {|
  pe_RecipeID := "test"; pe_Executable := "go"; pe_Argv := ["test"]; pe_WorkingDirectory := "."; pe_Capabilities := [];
  pe_Policy := {| rpd_Decision := "allowed"; rpd_Reason := "" |}; pe_DurationNanos := 10; pe_ExitCode := exit;
  pe_Signal := ""; pe_Stdout := ""; pe_Stderr := ""; pe_StdoutBytes := 0; pe_StderrBytes := 0;
  pe_StdoutTruncated := true; pe_StderrTruncated := false; pe_TimedOut := false; pe_Canceled := false;
  pe_NetworkIsolation := "unenforced"; pe_Started := true; pe_ActionID := ""; pe_ExecutionID := "";
  pe_EvidenceID := id |}.

(** A decoder of four documents. *)
Definition decoding : Decoder := {|
  UnmarshalWrite := λ s,
    if String.eqb s "w1" then Some (demo_write "a.txt" "h1" "obs-000001")
    else if String.eqb s "w2" then Some (demo_write "a.txt" "h2" "obs-000002") else None;
  UnmarshalProcess := λ s,
    if String.eqb s "r1" then Some (demo_run "obs-000003" 0)
    else if String.eqb s "r2" then Some (demo_run "obs-000004" 1) else None |}.

#[local] Existing Instance merging.
#[local] Existing Instance decoding.

Definition observation (id tool data : string) : RecoveryEvidence := {|
  re_EvidenceID := id; re_ExecutionID := "exec"; re_Tool := tool; re_ArgumentsJSON := "{}"; re_DataJSON := data;
  re_MetadataJSON := "{}" |}.

Definition attempt (status : string) : RecoveryToolAttempt := {|
  ra_ExecutionID := "exec-000001"; ra_ActionID := "act-000001"; ra_Tool := ToolWriteFile; ra_ArgumentsJSON := "{}";
  ra_Status := status; ra_Classification := ""; ra_RecoveryClass := 2; ra_EvidenceID := "obs-000001";
  ra_RecoveryReason := ""; ra_EffectAfterHash := "h1"; ra_PlannedEffectJSON := ""; ra_ProcessIntentJSON := "";
  ra_WorkUnitID := "" |}.

(** The file a.txt has the content h2, and git knows two changes. *)
Definition quiet : Observer := {|
  FileSHA256 := λ _ path, if String.eqb path "a.txt" then ("h2"%string, true, None) else (""%string, false, None);
  GitStatusText := (join_on newline ["## main"; " M a.txt"; "?? b.txt"; ""]%string, false, None);
  GitDiffText := (""%string, false, None) |}.

Definition file_check (id path : string) : Check := {|
  ck_ID := id; ck_Type := CheckFileExists; ck_Path := path; ck_SHA256 := ""; ck_Recipe := "";
  ck_RequireUntruncated := false |}.

Definition test_check (id : string) : Check := {|
  ck_ID := id; ck_Type := CheckRecipeExitZero; ck_Path := ""; ck_SHA256 := ""; ck_Recipe := "test";
  ck_RequireUntruncated := false |}.

Definition demo_plan : Plan := {| Version := 1; Checks := [test_check "tests"; file_check "artifact" "a.txt"] |}.

Definition demo_input (evidence : list RecoveryEvidence) (status : string) : Input := {|
  in_TaskID := "task-1"; in_FinalEvidence := [{| ec_EvidenceID := "obs-000002"; ec_Tool := ToolWriteFile |}];
  in_ToolAttempts := [attempt status]; in_Evidence := evidence; in_PendingApprovals := []; in_Plan := Some demo_plan;
  in_BaselineGitStatus := "?? b.txt"; in_BaselineGitDiff := ""; in_BaselineGitStatusTruncated := false;
  in_BaselineGitDiffTruncated := false; in_Now := "2026-01-01T00:00:00Z" |}.

Definition demo_evidence : list RecoveryEvidence :=
  [observation "obs-000001" ToolWriteFile "w1"; observation "obs-000002" ToolWriteFile "w2";
   observation "obs-000003" ToolRunRecipe "r1"].

Definition demo_verifier : Verifier := New (Some quiet) (Some demo_plan).

Example demo_passes :
  let report := Verify "" (Some demo_verifier) (demo_input demo_evidence "completed") in
  rp_Decision report = DecisionPassed
  ∧ rp_Summary report = "completion verified: 2 acceptance checks passed (artifact,tests)"
  ∧ rp_TruncatedEvidence report = ["obs-000003"]
  ∧ wr_Superseded <$> rp_WriteReconciliation report = [["obs-000001"]]
  ∧ go_DuringTask <$> rp_Git report = Some [{| cf_Path := "a.txt"; cf_Status := " M" |}].
Proof. vm_compute. done. Qed.

(** ** Witnesses *)

Lemma demo_distinct status : NoDup (re_EvidenceID <$> in_Evidence (demo_input demo_evidence status)).
Proof. apply (bool_decide_unpack _). by vm_compute. Qed.

Lemma Verify_passed_witness :
  ∃ v' o, Some demo_verifier = Some v' ∧ vf_observer v' = Some o
    ∧ acceptable (sometime o) v' (demo_input demo_evidence "completed").
Proof.
  apply (proj1 (Verify_passed "" (Some demo_verifier) (demo_input demo_evidence "completed")
    (demo_distinct "completed"))).
  by vm_compute.
Defined.

Lemma Verify_uncertain_witness :
  ∃ a, a ∈ in_ToolAttempts (demo_input demo_evidence "prepared")
    ∧ ra_Status a ∈ ["prepared"; "uncertain"; "human_review_required"]%string.
Proof.
  apply (proj1 (Verify_uncertain "" demo_verifier quiet (demo_input demo_evidence "prepared") eq_refl)).
  by vm_compute.
Defined.

Lemma DuringTask_spec_witness :
  {| cf_Path := "a.txt"; cf_Status := " M" |} ∈
    go_DuringTask (observeGit demo_verifier quiet (demo_input demo_evidence "completed")).
Proof.
  apply (proj2 (DuringTask_spec demo_verifier quiet (demo_input demo_evidence "completed")
    (join_on newline ["## main"; " M a.txt"; "?? b.txt"; ""]%string) false eq_refl ltac:(by vm_compute))
    {| cf_Path := "a.txt"; cf_Status := " M" |}).
  split; by vm_compute.
Defined.

Lemma parseGitStatus_print_witness :
  parseGitStatus (join_on newline ["## main"; " M a.txt"; "?? b.txt"; ""]%string)
  = list_to_map [("a.txt", " M"); ("b.txt", "??")]%string.
Proof.
  apply (parseGitStatus_print "main" [("a.txt", " M"); ("b.txt", "??")]%string); [done..| |].
  - repeat constructor; by vm_compute.
  - apply (bool_decide_unpack _). by vm_compute.
Defined.

Lemma planChecks_deterministic_witness :
  planChecks demo_verifier = planChecks (New (Some quiet) (Some {| Version := 1; Checks := reverse (Checks demo_plan) |})).
Proof.
  apply (planChecks_deterministic _ _ demo_plan {| Version := 1; Checks := reverse (Checks demo_plan) |});
    [done..|by vm_compute|]. symmetry. apply reverse_Permutation.
Defined.

(** ** What the verifier does not notice *)

(** The verdict on a recipe depends on the runs of recipes only: a run that
    succeeded before the last write still satisfies the check. *)
Lemma recipe_verdict_ignores_writes check input input' :
  omap process_evidence (in_Evidence input) = omap process_evidence (in_Evidence input') →
  judge_recipe check input = judge_recipe check input'.
Proof. intros E. by rw /judge_recipe /recipeEvidenceFor E. Qed.

(** The tests passed before the file was written again. *)
Example stale_run_passes :
  rp_Decision (Verify "" (Some demo_verifier) (demo_input
    [observation "obs-000001" ToolWriteFile "w1"; observation "obs-000000" ToolRunRecipe "r1";
     observation "obs-000002" ToolWriteFile "w2"] "completed")) = DecisionPassed.
Proof. by vm_compute. Qed.

(** A write whose evidence cannot be decoded is not reconciled: had it been
    readable, the file would not match. *)
Example damaged_write_skipped :
  rp_WriteReconciliation (Verify "" (Some demo_verifier) (demo_input
    [observation "obs-000002" ToolWriteFile "damaged"; observation "obs-000003" ToolRunRecipe "r1"] "completed")) = []
  ∧ rp_Decision (Verify "" (Some demo_verifier) (demo_input
    [observation "obs-000002" ToolWriteFile "damaged"; observation "obs-000003" ToolRunRecipe "r1"] "completed"))
    = DecisionPassed.
Proof. by vm_compute. Qed.

(** The limits count the structural checks: a plan of 251 checks is blocked. *)
Example large_plan_blocked :
  let checks := imap (λ n _, file_check (pretty n) "a.txt") (repeat () 251) in
  rp_Decision (Verify "" (Some (New (Some quiet) (Some {| Version := 1; Checks := checks |})))
    (demo_input demo_evidence "completed")) = DecisionBlocked
  ∧ rp_Decision (Verify "" (Some (New (Some quiet) (Some {| Version := 1; Checks := tail checks |})))
    (demo_input demo_evidence "completed")) = DecisionPassed.
Proof. by vm_compute. Qed.
