(* ===== verification/Json.v ===== *)
(** * JSON texts, as encoding/json reads and writes them

    Values with the texts of their numbers, the reader of the standard library,
    its compact writer with HTML escaping, and the decoding of objects into
    structs: names match up to case, the last occurrence wins.  Nesting beyond
    ten thousand is not refused here; every caller refuses it much earlier. *)

From stdpp Require Import pretty.
From S2P Require Import Prelude GoTime Text.
From Stdlib Require Import Ascii.

Local Open Scope runstead_scope.

#[warnings="-register-all"] Inductive json :=
  | JNull
  | JBool (b : bool)
  | JNumber (text : string)
  | JString (s : string)
  | JArray (values : list json)
  | JObject (members : list (string * json)).

(** ** Characters *)

Definition char (n : nat) : ascii := ascii_of_nat n.

Definition c_quote : ascii := char 34.
Definition c_backslash : ascii := char 92.
Definition c_comma : ascii := char 44.
Definition c_colon : ascii := char 58.
Definition c_open_brace : ascii := char 123.
Definition c_close_brace : ascii := char 125.
Definition c_open_bracket : ascii := char 91.
Definition c_close_bracket : ascii := char 93.
Definition c_minus : ascii := char 45.
Definition c_plus : ascii := char 43.
Definition c_point : ascii := char 46.
Definition c_zero : ascii := char 48.

Definition is_ws (c : ascii) : bool :=
  let n := byte_of c in ((n =? 32) || (n =? 9) || (n =? 10) || (n =? 13))%Z.

Fixpoint skip_ws (s : string) : string :=
  match s with
  | String c s' => if is_ws c then skip_ws s' else s
  | EmptyString => EmptyString
  end.

Definition digit (c : ascii) : bool := let n := byte_of c in ((48 <=? n) && (n <=? 57))%Z.

(** The longest run of digits at the front, and what follows. *)
Fixpoint digits (s : string) : string * string :=
  match s with
  | String c s' => if digit c then let '(ds, rest) := digits s' in (String c ds, rest) else (""%string, s)
  | EmptyString => (""%string, ""%string)
  end.

(** One byte, when it is the one expected. *)
Definition eat (c : ascii) (s : string) : option string :=
  match s with
  | String c' s' => if Ascii.eqb c c' then Some s' else None
  | EmptyString => None
  end.

(** ** Runes as bytes *)

Definition byte (z : Z) : ascii := ascii_of_nat (Z.to_nat z).

Definition encode_rune (r : Z) : string :=
  (if r <? 128 then String (byte r) ""
   else if r <? 2048 then String (byte (192 + r / 64)) (String (byte (128 + r mod 64)) "")
   else if r <? 65536 then
     String (byte (224 + r / 4096)) (String (byte (128 + r / 64 mod 64)) (String (byte (128 + r mod 64)) ""))
   else
     String (byte (240 + r / 262144)) (String (byte (128 + r / 4096 mod 64))
       (String (byte (128 + r / 64 mod 64)) (String (byte (128 + r mod 64)) ""))))%Z.

Definition hex_value (c : ascii) : option Z :=
  let n := byte_of c in
  if ((48 <=? n) && (n <=? 57))%Z then Some (n - 48)%Z
  else if ((97 <=? n) && (n <=? 102))%Z then Some (n - 87)%Z
  else if ((65 <=? n) && (n <=? 70))%Z then Some (n - 55)%Z
  else None.

Definition hex4 (s : string) : option (Z * string) :=
  match s with
  | String a (String b (String c (String d s'))) =>
    match hex_value a, hex_value b, hex_value c, hex_value d with
    | Some a, Some b, Some c, Some d => Some (((a * 16 + b) * 16 + c) * 16 + d, s')%Z
    | _, _, _, _ => None
    end
  | _ => None
  end.

Definition surrogate (r : Z) : bool := ((55296 <=? r) && (r <=? 57343))%Z.

(** After an escaped rune: a surrogate takes its partner with it or is replaced. *)
Definition pair_surrogate (r : Z) (s : string) : Z * string :=
  if negb (surrogate r) then (r, s)
  else
    match s with
    | String a (String b s') =>
      if Ascii.eqb a c_backslash && Ascii.eqb b (char 117) then
        match hex4 s' with
        | Some (r', s'') =>
          if ((r <=? 56319) && (56320 <=? r') && (r' <=? 57343))%Z
          then ((r - 55296) * 1024 + (r' - 56320) + 65536, s'')%Z
          else (RuneError, s)
        | None => (RuneError, s)
        end
      else (RuneError, s)
    | _ => (RuneError, s)
    end.

(** The letter after a backslash, other than [u]. *)
Definition escaped (c : ascii) : option ascii :=
  let n := byte_of c in
  (if (n =? 34) || (n =? 92) || (n =? 47) then Some c
   else if n =? 98 then Some (char 8)
   else if n =? 102 then Some (char 12)
   else if n =? 110 then Some (char 10)
   else if n =? 114 then Some (char 13)
   else if n =? 116 then Some (char 9)
   else None)%Z.

Fixpoint drop_bytes (n : nat) (s : string) : string :=
  match n, s with
  | S n', String _ s' => drop_bytes n' s'
  | _, _ => s
  end.

Fixpoint take_bytes (n : nat) (s : string) : string :=
  match n, s with
  | S n', String c s' => String c (take_bytes n' s')
  | _, _ => ""%string
  end.

(** The rest of a string, after its opening quote.  Every turn takes at least
    one byte. *)
Fixpoint read_string (fuel : nat) (s : string) : option (string * string) :=
  match fuel, s with
  | S fuel', String c s' =>
    let add text rest := '(t, rest') ← read_string fuel' rest; Some (text +:+ t, rest') in
    if Ascii.eqb c c_quote then Some (""%string, s')
    else if Ascii.eqb c c_backslash then
      match s' with
      | String e s'' =>
        if Ascii.eqb e (char 117) then
          '(r, s3) ← hex4 s'';
          let '(r, s4) := pair_surrogate r s3 in add (encode_rune r) s4
        else c' ← escaped e; add (String c' "") s''
      | EmptyString => None
      end
    else if (byte_of c <? 32)%Z then None
    else if (byte_of c <? 128)%Z then add (String c "") s'
    else
      let '(r, n) := decode_rune (bytes_of (take_bytes 4 s)) in
      if ((r =? RuneError)%Z && (n =? 1)%nat) then add (encode_rune RuneError) s'
      else add (take_bytes n s) (drop_bytes n s)
  | _, _ => None
  end.

(** ** Numbers *)

Definition read_fraction (s : string) : option (string * string) :=
  match eat c_point s with
  | None => Some (""%string, s)
  | Some s' => let '(ds, rest) := digits s' in
    if String.eqb ds "" then None else Some (String c_point ds, rest)
  end.

Definition read_exponent (s : string) : option (string * string) :=
  match s with
  | String e s' =>
    if Ascii.eqb e (char 101) || Ascii.eqb e (char 69) then
      let '(sign, s'') :=
        match s' with
        | String c rest => if Ascii.eqb c c_plus || Ascii.eqb c c_minus then (String c "", rest) else (""%string, s')
        | EmptyString => (""%string, s')
        end in
      let '(ds, rest) := digits s'' in
      if String.eqb ds "" then None else Some (String e sign +:+ ds, rest)
    else Some (""%string, s)
  | EmptyString => Some (""%string, s)
  end.

Definition read_integer (s : string) : option (string * string) :=
  match s with
  | String c s' =>
    if Ascii.eqb c c_zero then Some (String c "", s')
    else if digit c then Some (digits s) else None
  | EmptyString => None
  end.

Definition read_number (s : string) : option (string * string) :=
  let '(sign, s1) := match eat c_minus s with Some s' => (String c_minus "", s') | None => (""%string, s) end in
  '(whole, s2) ← read_integer s1;
  '(fraction, s3) ← read_fraction s2;
  '(exponent, s4) ← read_exponent s3;
  Some (sign +:+ whole +:+ fraction +:+ exponent, s4).

(** A literal name. *)
Definition read_name (name : string) (value : json) (s : string) : option (json * string) :=
  if String.prefix name s then Some (value, drop_bytes (String.length name) s) else None.

(** The key of a member and its colon. *)
Definition read_key (s : string) : option (string * string) :=
  s1 ← eat c_quote (skip_ws s);
  '(key, s2) ← read_string (String.length s1) s1;
  s3 ← eat c_colon (skip_ws s2);
  Some (key, s3).

(** ** Values *)

Fixpoint read_value (fuel : nat) (s : string) : option (json * string) :=
  match fuel with
  | O => None
  | S fuel' =>
    match skip_ws s with
    | String c s' =>
      if Ascii.eqb c c_quote then
        '(t, rest) ← read_string (String.length s') s'; Some (JString t, rest)
      else if Ascii.eqb c c_open_bracket then
        match eat c_close_bracket (skip_ws s') with
        | Some rest => Some (JArray [], rest)
        | None => '(values, rest) ← read_elements fuel' s'; Some (JArray values, rest)
        end
      else if Ascii.eqb c c_open_brace then
        match eat c_close_brace (skip_ws s') with
        | Some rest => Some (JObject [], rest)
        | None => '(members, rest) ← read_members fuel' s'; Some (JObject members, rest)
        end
      else if Ascii.eqb c (char 116) then read_name "true" (JBool true) (String c s')
      else if Ascii.eqb c (char 102) then read_name "false" (JBool false) (String c s')
      else if Ascii.eqb c (char 110) then read_name "null" JNull (String c s')
      else '(text, rest) ← read_number (String c s'); Some (JNumber text, rest)
    | EmptyString => None
    end
  end
with read_elements (fuel : nat) (s : string) : option (list json * string) :=
  match fuel with
  | O => None
  | S fuel' =>
    '(value, rest) ← read_value fuel' s;
    let rest := skip_ws rest in
    match eat c_comma rest with
    | Some rest' => '(values, rest'') ← read_elements fuel' rest'; Some (value :: values, rest'')
    | None => rest' ← eat c_close_bracket rest; Some ([value], rest')
    end
  end
with read_members (fuel : nat) (s : string) : option (list (string * json) * string) :=
  match fuel with
  | O => None
  | S fuel' =>
    '(key, s') ← read_key s;
    '(value, rest) ← read_value fuel' s';
    let rest := skip_ws rest in
    match eat c_comma rest with
    | Some rest' => '(members, rest'') ← read_members fuel' rest'; Some ((key, value) :: members, rest'')
    | None => rest' ← eat c_close_brace rest; Some ([(key, value)], rest')
    end
  end.

(** [Decoder.Decode] of the next value; the fuel covers every byte twice. *)
Definition decode (s : string) : option (json * string) := read_value (2 * String.length s + 2) s.

(** [json.Unmarshal], or a decoder whose next token is the end: one value and
    white space. *)
Definition parse (s : string) : option json :=
  '(value, rest) ← decode s;
  if String.eqb (skip_ws rest) "" then Some value else None.

(** ** Writing *)

Definition hex_digit (n : Z) : ascii := char (Z.to_nat (if n <? 10 then 48 + n else 87 + n)%Z).

(** [\u00xx]. *)
Definition unicode_escape (b : Z) : string :=
  String c_backslash (String (char 117) (String c_zero (String c_zero
    (String (hex_digit (b / 16)) (String (hex_digit (b mod 16)) ""))))).

Definition short_escape (letter : nat) : string := String c_backslash (String (char letter) "").

(** One ASCII byte of a string, as [json.Marshal] writes it. *)
Definition write_ascii (c : ascii) : string :=
  let n := byte_of c in
  (if (n =? 34) || (n =? 92) then String c_backslash (String c "")
   else if n =? 8 then short_escape 98
   else if n =? 12 then short_escape 102
   else if n =? 10 then short_escape 110
   else if n =? 13 then short_escape 114
   else if n =? 9 then short_escape 116
   else if (n <? 32) || (n =? 60) || (n =? 62) || (n =? 38) then unicode_escape n
   else String c "")%Z.

Definition ufffd : string :=
  String c_backslash (String (char 117) (String (char 102) (String (char 102) (String (char 102) (String (char 100) ""))))).

Definition line_separator (r : Z) : string :=
  String c_backslash (String (char 117) (String (char 50) (String (char 48) (String (char 50)
    (String (if r =? 8232 then char 56 else char 57)%Z ""))))).

Fixpoint write_body (fuel : nat) (s : string) : string :=
  match fuel, s with
  | S fuel', String c s' =>
    if (byte_of c <? 128)%Z then write_ascii c +:+ write_body fuel' s'
    else
      let '(r, n) := decode_rune (bytes_of (take_bytes 4 s)) in
      if ((r =? RuneError)%Z && (n =? 1)%nat) then ufffd +:+ write_body fuel' s'
      else if ((r =? 8232) || (r =? 8233))%Z then line_separator r +:+ write_body fuel' (drop_bytes n s)
      else take_bytes n s +:+ write_body fuel' (drop_bytes n s)
  | _, _ => ""%string
  end.

Definition write_string (s : string) : string :=
  String c_quote (write_body (String.length s) s +:+ String c_quote "").

Fixpoint write_value (v : json) : string :=
  match v with
  | JNull => "null"
  | JBool b => if b then "true" else "false"
  | JNumber text => text
  | JString s => write_string s
  | JArray values =>
    String c_open_bracket (String.concat "," (write_value <$> values) +:+ String c_close_bracket "")
  | JObject members =>
    String c_open_brace
      (String.concat "," ((λ '(key, value), write_string key +:+ String c_colon (write_value value)) <$> members)
       +:+ String c_close_brace "")
  end.

(** ** Numbers as values *)

Fixpoint digits_int (acc : Z) (s : string) : Z :=
  match s with
  | String c s' => digits_int (acc * 10 + (byte_of c - 48)) s'
  | EmptyString => acc
  end.

(** The parts of a number: sign, digits before and after the point, exponent. *)
Definition number_parts (text : string) : bool * string * string * Z :=
  let '(minus, s1) := match eat c_minus text with Some s' => (true, s') | None => (false, text) end in
  let '(whole, s2) := digits s1 in
  let '(fraction, s3) := match eat c_point s2 with Some s' => digits s' | None => (""%string, s2) end in
  let exponent :=
    match s3 with
    | String _ (String c rest as s4) =>
      if Ascii.eqb c c_minus then (- digits_int 0 rest)%Z
      else if Ascii.eqb c c_plus then digits_int 0 rest else digits_int 0 s4
    | _ => 0%Z
    end in
  (minus, whole, fraction, exponent).

(** Whether the number rounds to a finite float64. *)
Definition float_fits (text : string) : bool :=
  let '(_, whole, fraction, exponent) := number_parts text in
  let m := digits_int 0 (whole +:+ fraction) in
  let e := (exponent - Z.of_nat (String.length fraction))%Z in
  (if m =? 0 then true
   else if 400 <? e then false
   else if e <=? - Z.of_nat (String.length (whole +:+ fraction)) then true
   else if 0 <=? e then m * 10 ^ e <? 2 ^ 1024 - 2 ^ 970
   else m <? (2 ^ 1024 - 2 ^ 970) * 10 ^ (- e))%Z.

(** A 64-bit integer field: digits only, in range. *)
Definition read_int64 (text : string) : option Z :=
  let '(minus, s) := match eat c_minus text with Some s' => (true, s') | None => (false, text) end in
  let '(ds, rest) := digits s in
  if String.eqb ds "" || negb (String.eqb rest "") then None
  else
    let z := if minus : bool then (- digits_int 0 ds)%Z else digits_int 0 ds in
    if ((- 2 ^ 63 <=? z) && (z <=? 2 ^ 63 - 1))%Z then Some z else None.

(** ** Keys *)

(** The scan for duplicate keys over the tokens of a value: duplicates, nesting
    of [limit] or more, and numbers without a float64 are refused. *)
Fixpoint strict (limit depth : nat) (v : json) {struct v} : bool :=
  match v with
  | JNumber text => float_fits text
  | JArray values =>
    negb (limit <=? depth)%nat &&
    (fix all (vs : list json) : bool :=
       match vs with [] => true | v :: vs' => strict limit (S depth) v && all vs' end) values
  | JObject members =>
    negb (limit <=? depth)%nat &&
    (fix all (seen : list string) (ms : list (string * json)) : bool :=
       match ms with
       | [] => true
       | (key, v) :: ms' =>
         negb (existsb (String.eqb key) seen) && strict limit (S depth) v && all (key :: seen) ms'
       end) [] members
  | _ => true
  end.

(** The case folding of names: the letters of ASCII, the Kelvin sign and the
    long s. *)
Fixpoint fold_name (s : string) : string :=
  match s with
  | EmptyString => EmptyString
  | String c s' =>
    let n := byte_of c in
    if ((97 <=? n) && (n <=? 122))%Z then String (byte (n - 32)) (fold_name s')
    else
      match s' with
      | String d s2 =>
        if ((n =? 197) && (byte_of d =? 191))%Z then String (char 83) (fold_name s2)
        else
          match s2 with
          | String e s3 =>
            if ((n =? 226) && (byte_of d =? 132) && (byte_of e =? 170))%Z then String (char 75) (fold_name s3)
            else String c (fold_name s')
          | EmptyString => String c (fold_name s')
          end
      | EmptyString => String c (fold_name s')
      end
  end.

(** The field a key names: an exact name, or else one equal up to case. *)
Definition resolve (names : list string) (key : string) : option string :=
  match List.find (String.eqb key) names with
  | Some name => Some name
  | None => List.find (λ name, String.eqb (fold_name name) (fold_name key)) names
  end.

(** Decoding into a struct.  [set name value a] stores one field; [None] is an
    error.  A strict decoder refuses unknown names. *)
Definition decode_struct {A} (is_strict : bool) (names : list string) (set : string → json → A → option A)
    (zero : A) (v : json) : option A :=
  match v with
  | JNull => Some zero
  | JObject members =>
    foldl (λ acc '(key, value),
      a ← acc;
      match resolve names key with
      | Some name => set name value a
      | None => if is_strict then None else Some a
      end) (Some zero) members
  | _ => None
  end.

(** The values of fields by their Go types; null leaves a value as it is and
    clears a pointer. *)
Definition as_string (v : json) (old : string) : option string :=
  match v with JString s => Some s | JNull => Some old | _ => None end.
Definition as_string_pointer (v : json) : option (option string) :=
  match v with JString s => Some (Some s) | JNull => Some None | _ => None end.
Definition as_bool (v : json) (old : bool) : option bool :=
  match v with JBool b => Some b | JNull => Some old | _ => None end.
Definition as_int64 (v : json) (old : Z) : option Z :=
  match v with JNumber text => read_int64 text | JNull => Some old | _ => None end.

Example parse_example :
  parse (write_value (JObject [("a<b", JArray [JNumber "1.5e3"; JBool true; JNull]); ("k", JString "x")]))
  = Some (JObject [("a<b", JArray [JNumber "1.5e3"; JBool true; JNull]); ("k", JString "x")]%string).
Proof. by vm_compute. Qed.

Example float_fits_examples :
  float_fits "1e999" = false ∧ float_fits "1.7e308" = true ∧ float_fits "0e999" = true ∧ float_fits "5e-999" = true.
Proof. by vm_compute. Qed.

Example fold_example : resolve ["tool"; "version"]%string "TOOL" = Some "tool"%string.
Proof. by vm_compute. Qed.
