(* ===== verification/JsonLaws.v ===== *)
(** * Laws of JSON texts

    What [write_value] writes is read back, for values whose texts are ASCII and
    whose numbers are numbers. *)

From stdpp Require Import pretty.
From S2P Require Import Prelude GoTime Text Json.
From Stdlib Require Import Ascii.

Local Open Scope runstead_scope.

(** ** Induction on values *)

Section induction.
Context (P : json → Prop).
Hypothesis Hnull : P JNull.
Hypothesis Hbool : ∀ b, P (JBool b).
Hypothesis Hnumber : ∀ text, P (JNumber text).
Hypothesis Hstring : ∀ s, P (JString s).
Hypothesis Harray : ∀ values, Forall P values → P (JArray values).
Hypothesis Hobject : ∀ members, Forall (λ m, P m.2) members → P (JObject members).

Fixpoint json_induction (v : json) : P v :=
  match v with
  | JNull => Hnull
  | JBool b => Hbool b
  | JNumber text => Hnumber text
  | JString s => Hstring s
  | JArray values => Harray values
      ((fix all (vs : list json) : Forall P vs :=
          match vs with
          | [] => List.Forall_nil P
          | v :: vs' => List.Forall_cons P v vs' (json_induction v) (all vs')
          end) values)
  | JObject members => Hobject members
      ((fix all (ms : list (string * json)) : Forall (λ m, P m.2) ms :=
          match ms with
          | [] => List.Forall_nil _
          | m :: ms' => List.Forall_cons (λ m, P m.2) m ms' (json_induction m.2) (all ms')
          end) members)
  end.
End induction.

(** ** Strings *)

Fixpoint ascii_text (s : string) : bool :=
  match s with
  | EmptyString => true
  | String c s' => (byte_of c <? 128)%Z && ascii_text s'
  end.

Lemma read_write_ascii fuel c more :
  (byte_of c <? 128)%Z = true →
  read_string (S fuel) (write_ascii c +:+ more) =
    '(t, rest) ← read_string fuel more; Some (String c "" +:+ t, rest).
Proof.
  destruct c as [[] [] [] [] [] [] [] []]; intros H; first [discriminate H|reflexivity].
Qed.

Lemma read_write_body s fuel rest :
  ascii_text s = true → (String.length s < fuel)%nat →
  read_string fuel (write_body (String.length s) s +:+ String c_quote rest) = Some (s, rest).
Proof.
  revert fuel. induction s as [|c s IH]; intros fuel.
  { intros _ Hf. by destruct fuel; [lia|]. }
  intros [Hc Hs]%andb_true_iff Hf. destruct fuel as [|fuel]; [simpl in Hf; lia|].
  cbn [String.length write_body]. rw Hc app_assoc_text read_write_ascii // IH //. simpl in Hf. lia.
Qed.

Lemma length_write_ascii c : (1 ≤ String.length (write_ascii c))%nat.
Proof. by destruct c as [[] [] [] [] [] [] [] []]; vm_compute; lia. Qed.

Lemma length_write_body s : ascii_text s = true → (String.length s ≤ String.length (write_body (String.length s) s))%nat.
Proof.
  induction s as [|c s IH]; [done|]. intros [Hc Hs]%andb_true_iff. cbn [String.length write_body].
  rw Hc length_app_text. pose proof (length_write_ascii c). specialize (IH Hs). lia.
Qed.

(** ** Numbers *)

(** What may follow a value: the end, a comma or a closing bracket. *)
Definition delimited (rest : string) : Prop :=
  match rest with
  | EmptyString => True
  | String c _ => c = c_comma ∨ c = c_close_bracket ∨ c = c_close_brace
  end.

Definition valid_number (text : string) : Prop := read_number text = Some (text, ""%string).

Lemma digits_stable s rest :
  delimited rest → digits (s +:+ rest) = ((digits s).1, (digits s).2 +:+ rest).
Proof.
  intros Hd. induction s as [|c s IH].
  - destruct rest as [|c rest]; [done|]. simpl. destruct Hd as [->|[->| ->]]; done.
  - simpl. destruct (digit c); [|done]. rw IH. by destruct (digits s).
Qed.

Lemma eat_stable c s rest s' : eat c s = Some s' → eat c (s +:+ rest) = Some (s' +:+ rest).
Proof. destruct s as [|c' s]; [done|]. simpl. case_match; [|done]. by intros [= ->]. Qed.

Lemma eat_stable_None c s rest :
  c ≠ c_comma → c ≠ c_close_bracket → c ≠ c_close_brace →
  delimited rest → eat c s = None → eat c (s +:+ rest) = None.
Proof.
  intros H1 H2 H3 Hd. destruct s as [|c' s]; simpl; [|by case_match].
  intros _. destruct rest as [|c' rest]; [done|]. simpl. destruct (Ascii.eqb_spec c c') as [<-|]; [|done].
  by destruct Hd as [?|[?|?]].
Qed.

(** A reader whose result does not change when a delimiter follows. *)
Definition stable (f : string → option (string * string)) : Prop :=
  ∀ s t s' rest, delimited rest → f s = Some (t, s') → f (s +:+ rest) = Some (t, s' +:+ rest).

Lemma read_fraction_stable : stable read_fraction.
Proof.
  intros s t s' rest Hd. rw /read_fraction. destruct (eat c_point s) as [s1|] eqn:E.
  - rw (eat_stable _ _ _ _ E) (digits_stable s1 rest Hd). destruct (digits s1) as [ds r]. simpl.
    case_match; [done|]. by intros [= <- <-].
  - rw (eat_stable_None _ _ _ _ _ _ Hd E) //. by intros [= <- <-].
Qed.

Lemma read_integer_stable : stable read_integer.
Proof.
  intros s t s' rest Hd. destruct s as [|c s]; [done|]. rw /read_integer /=.
  destruct (Ascii.eqb c c_zero); [by intros [= <- <-]|]. destruct (digit c); [|done].
  rw (digits_stable s rest Hd). destruct (digits s) as [ds r]. by intros [= <- <-].
Qed.

Lemma read_exponent_stable : stable read_exponent.
Proof.
  intros s t s' rest Hd. destruct s as [|e s].
  { intros [= <- <-]. destruct rest as [|c rest]; [done|]. rw /read_exponent /=. destruct Hd as [->|[->| ->]]; done. }
  rw /read_exponent /=. destruct (Ascii.eqb e (char 101) || Ascii.eqb e (char 69)); [|by intros [= <- <-]].
  destruct s as [|c s].
  - simpl. done.
  - simpl. destruct (Ascii.eqb c c_plus || Ascii.eqb c c_minus).
    + rw (digits_stable s rest Hd). destruct (digits s) as [ds r]. simpl. case_match; [done|]. by intros [= <- <-].
    + change (String c (s +:+ rest)) with (String c s +:+ rest). rw (digits_stable (String c s) rest Hd).
      destruct (digits (String c s)) as [ds r]. simpl. case_match; [done|]. by intros [= <- <-].
Qed.

Lemma read_number_stable : stable read_number.
Proof.
  intros s t s' rest Hd. rw /read_number.
  destruct (eat c_minus s) as [s1|] eqn:E; [rw (eat_stable _ _ _ _ E)|rw (eat_stable_None _ _ _ _ _ _ Hd E) //].
  - destruct (read_integer s1) as [[w s2]|] eqn:E1; [|done]. rw /= (read_integer_stable _ _ _ _ Hd E1) /=.
    destruct (read_fraction s2) as [[f s3]|] eqn:E2; [|done]. rw /= (read_fraction_stable _ _ _ _ Hd E2) /=.
    destruct (read_exponent s3) as [[x s4]|] eqn:E3; [|done]. rw /= (read_exponent_stable _ _ _ _ Hd E3) /=.
    by intros [= <- <-].
  - destruct (read_integer s) as [[w s2]|] eqn:E1; [|done]. rw /= (read_integer_stable _ _ _ _ Hd E1) /=.
    destruct (read_fraction s2) as [[f s3]|] eqn:E2; [|done]. rw /= (read_fraction_stable _ _ _ _ Hd E2) /=.
    destruct (read_exponent s3) as [[x s4]|] eqn:E3; [|done]. rw /= (read_exponent_stable _ _ _ _ Hd E3) /=.
    by intros [= <- <-].
Qed.

(** ** Values *)

Definition valid_numberb (text : string) : bool :=
  match read_number text with Some (t, EmptyString) => String.eqb t text | _ => false end.

Lemma valid_numberb_spec text : valid_numberb text = true → valid_number text.
Proof.
  rw /valid_numberb /valid_number. destruct (read_number text) as [[t [|]]|]; [|done..].
  by intros ->%String.eqb_eq.
Qed.

(** Values of ASCII texts and of numbers. *)
Fixpoint plain (v : json) : bool :=
  match v with
  | JNumber text => valid_numberb text
  | JString s => ascii_text s
  | JArray values => forallb plain values
  | JObject members => forallb (λ '(key, value), ascii_text key && plain value) members
  | _ => true
  end.

(** The fuel that reading a value takes. *)
Fixpoint need (v : json) : nat :=
  match v with
  | JArray values => S (sum_list_with (λ v, S (need v)) values)
  | JObject members => S (sum_list_with (λ '(_, v), S (need v)) members)
  | _ => 1
  end.

Lemma number_head c :
  c = c_minus ∨ digit c = true →
  is_ws c = false ∧ Ascii.eqb c c_quote = false ∧ Ascii.eqb c c_open_bracket = false
  ∧ Ascii.eqb c c_open_brace = false ∧ Ascii.eqb c (char 116) = false ∧ Ascii.eqb c (char 102) = false
  ∧ Ascii.eqb c (char 110) = false ∧ Ascii.eqb c_close_bracket c = false.
Proof. intros [->|H]; [done|]. destruct c as [[] [] [] [] [] [] [] []]; first [discriminate H|done]. Qed.

Lemma read_integer_head c s r : read_integer (String c s) = Some r → digit c = true.
Proof. rw /read_integer. destruct (Ascii.eqb_spec c c_zero) as [->|]; [done|]. by destruct (digit c). Qed.

Lemma valid_number_head text :
  valid_number text → ∃ c s, text = String c s ∧ (c = c_minus ∨ digit c = true).
Proof.
  rw /valid_number /read_number. destruct text as [|c s]; [done|]. intros H. exists c, s. split; [done|].
  cbn [eat] in H. destruct (Ascii.eqb_spec c_minus c) as [<-|Hne]; [by left|]. right.
  destruct (read_integer (String c s)) as [r|] eqn:E; [|done]. by eapply read_integer_head.
Qed.

(** A written value begins neither with white space nor with a closing bracket. *)
Lemma write_value_head v :
  plain v = true → ∃ c s, write_value v = String c s ∧ is_ws c = false ∧ Ascii.eqb c_close_bracket c = false.
Proof.
  destruct v as [|[]|text|s|values|members]; intros Hp; try (eexists _, _; split; [reflexivity|by split; vm_compute]).
  apply valid_numberb_spec, valid_number_head in Hp as (c & s & -> & Hc).
  exists c, s. destruct (number_head c Hc) as (? & _ & _ & _ & _ & _ & _ & ?). done.
Qed.

Lemma skip_ws_head c s : is_ws c = false → skip_ws (String c s) = String c s.
Proof. simpl. by intros ->. Qed.

(** Reading back one value, whatever delimiter follows. *)
Definition reads_back (v : json) : Prop :=
  ∀ fuel rest, delimited rest → (need v ≤ fuel)%nat → read_value fuel (write_value v +:+ rest) = Some (v, rest).

Lemma number_reads_back text : valid_number text → reads_back (JNumber text).
Proof.
  intros Hv fuel rest Hd Hf. destruct fuel as [|fuel]; [simpl in Hf; lia|].
  pose proof (read_number_stable _ _ _ _ Hd Hv) as Hr.
  destruct (valid_number_head _ Hv) as (c & s & -> & Hc).
  destruct (number_head c Hc) as (Hw & H1 & H2 & H3 & H4 & H5 & H6 & _).
  cbn [read_value write_value]. rw skip_ws_head // H1 H2 H3 H4 H5 H6 Hr. done.
Qed.

Lemma string_reads_back s fuel rest :
  ascii_text s = true →
  (String.length (write_body (String.length s) s +:+ String c_quote rest) ≤ fuel)%nat →
  read_string fuel (write_body (String.length s) s +:+ String c_quote rest) = Some (s, rest).
Proof.
  intros Hs Hf. apply read_write_body; [done|].
  rw length_app_text /= in Hf. pose proof (length_write_body s Hs). lia.
Qed.

Lemma concat_cons v vs : 
  String.concat "," (v :: vs) = match vs with [] => v | _ => v +:+ String c_comma (String.concat "," vs) end.
Proof. by destruct vs. Qed.

Lemma elements_read_back v vs fuel rest :
  Forall reads_back (v :: vs) → (sum_list_with (λ v, S (need v)) (v :: vs) ≤ fuel)%nat →
  read_elements fuel (String.concat "," (write_value <$> v :: vs) +:+ String c_close_bracket rest)
  = Some (v :: vs, rest).
Proof.
  revert v fuel. induction vs as [|v' vs IH]; intros v fuel [Hv Hvs]%Forall_cons Hf;
    (destruct fuel as [|fuel]; [simpl in Hf; lia|]); cbn [read_elements].
  - rw /= Hv /=; [by right; left|simpl in Hf; lia|done].
  - change (String.concat "," (write_value <$> v :: v' :: vs))
      with (write_value v +:+ String c_comma (String.concat "," (write_value <$> v' :: vs))).
    rw app_assoc_text Hv /=; [by left|simpl in Hf; lia|].
    change (String c_comma (?x) +:+ ?y) with (String c_comma (x +:+ y)).
    rw IH //. simpl in Hf |- *. lia.
Qed.

Definition write_member (m : string * json) : string := write_string m.1 +:+ String c_colon (write_value m.2).

Lemma write_object members :
  write_value (JObject members) =
    String c_open_brace (String.concat "," (write_member <$> members) +:+ String c_close_brace "").
Proof.
  cbn [write_value]. do 2 f_equal. f_equal. apply list_fmap_ext. by intros i [key value].
Qed.

Lemma read_key_back key rest :
  ascii_text key = true → read_key (write_string key +:+ String c_colon rest) = Some (key, rest).
Proof.
  intros Hk. rw /read_key /write_string. set (body := write_body (String.length key) key).
  assert (String c_quote (body +:+ String c_quote "") +:+ String c_colon rest
    = String c_quote (body +:+ String c_quote (String c_colon rest))) as ->.
  { exact (f_equal (String c_quote) (app_assoc_text body _ _)). }
  rw skip_ws_head //. cbn [eat]. rw Ascii.eqb_refl. cbn [mbind option_bind].
  rw /body string_reads_back //.
Qed.

Lemma write_member_app m rest :
  write_member m +:+ rest = write_string m.1 +:+ String c_colon (write_value m.2 +:+ rest).
Proof. by rw /write_member app_assoc_text. Qed.

Lemma members_read_back m ms fuel rest :
  Forall (λ m, ascii_text m.1 = true ∧ reads_back m.2) (m :: ms) →
  (sum_list_with (λ '(_, v), S (need v)) (m :: ms) ≤ fuel)%nat →
  read_members fuel (String.concat "," (write_member <$> m :: ms) +:+ String c_close_brace rest)
  = Some (m :: ms, rest).
Proof.
  revert m fuel. induction ms as [|m' ms IH]; intros [key value] fuel [[Hk Hv] Hms]%Forall_cons Hf;
    (destruct fuel as [|fuel]; [simpl in Hf; lia|]); cbn [read_members]; simpl in Hk, Hv, Hf.
  - change (String.concat "," (write_member <$> [(key, value)])) with (write_member (key, value)).
    rw write_member_app read_key_back //. cbn [mbind option_bind snd]. rw Hv; [by right; right|lia|]. done.
  - change (String.concat "," (write_member <$> (key, value) :: m' :: ms))
      with (write_member (key, value) +:+ String c_comma (String.concat "," (write_member <$> m' :: ms))).
    rw app_assoc_text write_member_app read_key_back //. cbn [mbind option_bind snd].
    rw Hv; [by left|lia|]. cbn [mbind option_bind].
    change (skip_ws (String c_comma ?x +:+ ?y)) with (String c_comma (x +:+ y)).
    change (eat c_comma (String c_comma ?x)) with (Some x). cbv iota beta.
    rw IH //. simpl. lia.
Qed.

(** What is written is read back. *)
Lemma write_reads_back v : plain v = true → reads_back v.
Proof.
  induction v as [|b|text|s|values IH|members IH] using json_induction; intros Hp.
  - intros fuel rest _ Hf. destruct fuel; [simpl in Hf; lia|]. by destruct rest.
  - intros fuel rest _ Hf. destruct fuel; [simpl in Hf; lia|]. by destruct b, rest.
  - by apply number_reads_back, valid_numberb_spec.
  - intros fuel rest _ Hf. destruct fuel; [simpl in Hf; lia|].
    assert (write_value (JString s) +:+ rest = String c_quote (write_body (String.length s) s +:+ String c_quote rest)) as ->.
    { exact (f_equal (String c_quote) (app_assoc_text _ _ _)). }
    cbn [read_value]. rw skip_ws_head // Ascii.eqb_refl string_reads_back //.
  - intros fuel rest _ Hf. destruct fuel as [|fuel]; [simpl in Hf; lia|]. cbn [plain] in Hp.
    destruct values as [|v vs]; [done|].
    assert (write_value (JArray (v :: vs)) +:+ rest = String c_open_bracket
      (String.concat "," (write_value <$> v :: vs) +:+ String c_close_bracket rest)) as ->.
    { exact (f_equal (String c_open_bracket) (app_assoc_text _ _ _)). }
    cbn [read_value]. rw skip_ws_head //.
    change (Ascii.eqb c_open_bracket c_quote) with false. rw Ascii.eqb_refl. cbv iota.
    assert (eat c_close_bracket (skip_ws (String.concat "," (write_value <$> v :: vs) +:+ String c_close_bracket rest)) = None) as ->.
    { rw forallb_forall in Hp. destruct (write_value_head v) as (c & s & E & Hw & Hc); [apply Hp; by left|].
      assert (∃ s', String.concat "," (write_value <$> v :: vs) +:+ String c_close_bracket rest = String c s') as [s' ->].
      { rw fmap_cons concat_cons E. destruct (write_value <$> vs); by eexists. }
      rw skip_ws_head //. cbn [eat]. by rw Hc. }
    rw elements_read_back //; [|simpl in Hf |- *; lia].
    rw forallb_forall in Hp. rw Forall_forall in IH. apply Forall_forall. intros v' Hv'.
    apply IH; [done|]. apply Hp. by apply list_elem_of_In.
  - intros fuel rest _ Hf. destruct fuel as [|fuel]; [simpl in Hf; lia|]. cbn [plain] in Hp.
    destruct members as [|m ms]; [done|]. rw write_object.
    assert (String c_open_brace (String.concat "," (write_member <$> m :: ms) +:+ String c_close_brace "") +:+ rest
      = String c_open_brace (String.concat "," (write_member <$> m :: ms) +:+ String c_close_brace rest)) as ->.
    { exact (f_equal (String c_open_brace) (app_assoc_text _ _ _)). }
    cbn [read_value]. rw skip_ws_head //.
    change (Ascii.eqb c_open_brace c_quote) with false.
    change (Ascii.eqb c_open_brace c_open_bracket) with false. rw Ascii.eqb_refl. cbv iota.
    assert (eat c_close_brace (skip_ws (String.concat "," (write_member <$> m :: ms) +:+ String c_close_brace rest)) = None) as ->.
    { rw fmap_cons concat_cons. destruct (write_member <$> ms); done. }
    rw members_read_back //; [|simpl in Hf |- *; lia].
    rw forallb_forall in Hp. rw Forall_forall in IH. apply Forall_forall. intros [key value] Hm.
    specialize (IH _ Hm). apply list_elem_of_In in Hm. specialize (Hp _ Hm). simpl in *.
    apply andb_true_iff in Hp as [? ?]. split; [done|by apply IH].
Qed.

(** ** Fuel *)

Lemma length_concat l :
  (sum_list_with (λ x, S (String.length x)) l ≤ S (String.length (String.concat "," l)))%nat.
Proof.
  induction l as [|x l IH]; [simpl; lia|]. rw concat_cons. destruct l as [|y l]; [simpl; lia|].
  rw length_app_text. cbn [String.length]. change (sum_list_with ?f (x :: ?l)) with (f x + sum_list_with f l)%nat.
  cbv beta. lia.
Qed.

Lemma sum_list_with_fmap {A B} (f : B → nat) (g : A → B) l :
  sum_list_with f (g <$> l) = sum_list_with (λ x, f (g x)) l.
Proof. induction l as [|x l IH]; [done|]. simpl. by rw IH. Qed.

Lemma sum_bound {A} (n w : A → nat) (l : list A) :
  Forall (λ x, (n x ≤ 2 * w x)%nat) l →
  (sum_list_with (λ x, S (n x)) l ≤ 2 * sum_list_with (λ x, S (w x)) l)%nat.
Proof. induction 1 as [|x l Hx _ IH]; simpl; lia. Qed.

Lemma need_bound v : plain v = true → (need v ≤ 2 * String.length (write_value v))%nat.
Proof.
  induction v as [|b|text|s|values IH|members IH] using json_induction; intros Hp.
  - simpl. lia.
  - destruct b; simpl; lia.
  - apply valid_numberb_spec, valid_number_head in Hp as (c & s & -> & _). simpl. lia.
  - simpl. lia.
  - cbn [need write_value String.length]. rw length_app_text. cbn [plain] in Hp. rw forallb_forall in Hp.
    pose proof (sum_bound need (λ v, String.length (write_value v)) values) as Hs.
    pose proof (length_concat (write_value <$> values)) as Hc. rw sum_list_with_fmap in Hc.
    enough (Forall (λ v, (need v ≤ 2 * String.length (write_value v))%nat) values) as Hall.
    { specialize (Hs Hall). cbv beta in *. cbn [String.length]. lia. }
    rw Forall_forall in IH. apply Forall_forall. intros v Hv. apply IH; [done|]. by apply Hp, list_elem_of_In.
  - rw write_object. cbn [need String.length]. rw length_app_text. cbn [plain] in Hp. rw forallb_forall in Hp.
    pose proof (sum_bound (λ m, need m.2) (λ m, String.length (write_member m)) members) as Hs.
    pose proof (length_concat (write_member <$> members)) as Hc. rw sum_list_with_fmap in Hc.
    assert (sum_list_with (λ '(_, v), S (need v)) members = sum_list_with (λ m, S (need m.2)) members) as ->.
    { clear. induction members as [|[key v] members IH]; [done|]. simpl. by rw IH. }
    enough (Forall (λ m, (need m.2 ≤ 2 * String.length (write_member m))%nat) members) as Hall.
    { specialize (Hs Hall). cbv beta in *. cbn [String.length]. lia. }
    rw Forall_forall in IH. apply Forall_forall. intros [key v] Hm. specialize (IH _ Hm).
    apply list_elem_of_In, Hp, andb_true_iff in Hm as [_ Hv]. specialize (IH Hv).
    rw /write_member length_app_text /=. simpl in IH. lia.
Qed.

Lemma parse_write v : plain v = true → parse (write_value v) = Some v.
Proof.
  intros Hp. rw /parse /decode.
  pose proof (write_reads_back v Hp (2 * String.length (write_value v) + 2) "" I) as Hr.
  rw app_empty in Hr. rw Hr; [pose proof (need_bound v Hp); lia|]. done.
Qed.
