(* ===== verification/Protocol.v ===== *)
(** * The protocol of model responses (internal/protocol)

    Finding the one envelope of a response, decoding it strictly, the identity
    of an action, and the messages that ask for a correction.  The classification
    of prose without an envelope and the hash are parameters. *)

From stdpp Require Import pretty.
From S2P Require Import Prelude GoTime Text Patch Json.
From Stdlib Require Import Ascii.

Local Open Scope runstead_scope.

(** ** Versions, kinds and failures *)

Definition Current : string := "runstead.protocol.v1".

Definition maxResponseBytes : Z := 1048576.
Definition maxJSONDepth : nat := 128.

Inductive EnvelopeKind := KindInvalid | KindAction | KindFinal.

#[export] Instance EnvelopeKind_eq_dec : EqDecision EnvelopeKind.
Proof. solve_decision. Defined.

(** The map of arguments by name. *)
Abbreviation Arguments := (gmap string json).

Record Action := { act_Version : string; act_Tool : string; act_Arguments : Arguments }.

Inductive FinalStatus := StatusComplete | StatusIncomplete.

#[export] Instance FinalStatus_eq_dec : EqDecision FinalStatus.
Proof. solve_decision. Defined.

Record EvidenceCitation := { ev_EvidenceID : string; ev_Tool : string }.

Record FinalResponse := {
  fin_Version : string;
  fin_Status : FinalStatus;
  fin_Summary : string;
  fin_Evidence : list EvidenceCitation
}.

Inductive FailureCode :=
  | FailureMissingEnvelope | FailureProtocolRefusal | FailureUnsupportedExecutionClaim
  | FailureMultipleEnvelopes | FailureUnclosedEnvelope | FailureMalformedJSON
  | FailureInvalidActionSchema | FailureInvalidFinalSchema | FailureUnsupportedProtocolVersion
  | FailureUnknownTool | FailureInvalidArguments | FailureRepeatedAction.

#[export] Instance FailureCode_eq_dec : EqDecision FailureCode.
Proof. solve_decision. Defined.

(** The text of a code. *)
Definition code_text (code : FailureCode) : string :=
  match code with
  | FailureMissingEnvelope => "missing_envelope"
  | FailureProtocolRefusal => "protocol_refusal"
  | FailureUnsupportedExecutionClaim => "unsupported_execution_claim"
  | FailureMultipleEnvelopes => "multiple_envelopes"
  | FailureUnclosedEnvelope => "unclosed_envelope"
  | FailureMalformedJSON => "malformed_json"
  | FailureInvalidActionSchema => "invalid_action_schema"
  | FailureInvalidFinalSchema => "invalid_final_schema"
  | FailureUnsupportedProtocolVersion => "unsupported_protocol_version"
  | FailureUnknownTool => "unknown_tool"
  | FailureInvalidArguments => "invalid_arguments"
  | FailureRepeatedAction => "repeated_action"
  end.

Record ParseFailure := { pf_Code : FailureCode; pf_CorrectionReasonable : bool }.

(** [Result]. *)
Record ParseResult := {
  res_Kind : EnvelopeKind;
  res_Action : option Action;
  res_Final : option FinalResponse;
  res_Failure : option ParseFailure;
  res_MixedProse : bool;
  res_SchemaValid : bool;
  res_Accepted : bool;
  res_Executable : bool
}.

Definition failedResult (kind : EnvelopeKind) (action : option Action) (mixedProse schemaValid : bool)
    (code : FailureCode) : ParseResult := {|
  res_Kind := kind; res_Action := action; res_Final := None;
  res_Failure := Some {| pf_Code := code; pf_CorrectionReasonable := true |};
  res_MixedProse := mixedProse; res_SchemaValid := schemaValid; res_Accepted := false; res_Executable := false |}.

(** ** Envelopes *)

Record envelopeTag := { tag_kind : EnvelopeKind; tag_opening : bool; tag_start : nat; tag_end : nat }.

Definition envelopeMarkers : list (string * EnvelopeKind * bool) :=
  [("<runstead_action>", KindAction, true); ("</runstead_action>", KindAction, false);
   ("<runstead_final>", KindFinal, true); ("</runstead_final>", KindFinal, false)]%string.

(** [markerAt], on the rest of the response. *)
Definition markerAt (rest : string) : option (string * EnvelopeKind * bool) :=
  List.find (λ marker, String.prefix marker.1.1 rest) envelopeMarkers.

(** The variables of the scan: within an envelope, within a string of it, and
    just after a backslash. *)
Record ScanState := { inEnvelope : bool; inJSONString : bool; escaped_ : bool }.

(** One byte within a string. *)
Definition in_string (c : ascii) : ScanState :=
  {| inEnvelope := true; inJSONString := negb (Ascii.eqb c quote); escaped_ := Ascii.eqb c c_backslash |}.

(** The loop; every turn moves the offset on. *)
Fixpoint scan_from (fuel offset : nat) (rest : string) (st : ScanState) : list envelopeTag :=
  match fuel, rest with
  | S fuel', String c rest' =>
    if inEnvelope st && inJSONString st then
      scan_from fuel' (S offset) rest'
        (if escaped_ st then {| inEnvelope := true; inJSONString := true; escaped_ := false |} else in_string c)
    else
      match markerAt rest with
      | Some (text, kind, opening) =>
        let after := (offset + String.length text)%nat in
        {| tag_kind := kind; tag_opening := opening; tag_start := offset; tag_end := after |}
        :: scan_from fuel' after (drop_bytes (String.length text) rest)
             (if opening : bool then {| inEnvelope := true; inJSONString := inJSONString st; escaped_ := escaped_ st |}
              else {| inEnvelope := false; inJSONString := false; escaped_ := false |})
      | None =>
        scan_from fuel' (S offset) rest'
          (if inEnvelope st && Ascii.eqb c quote
           then {| inEnvelope := true; inJSONString := true; escaped_ := escaped_ st |} else st)
      end
  | _, _ => []
  end.

Definition scanEnvelopeTags (response : string) : list envelopeTag :=
  scan_from (String.length response) 0 response {| inEnvelope := false; inJSONString := false; escaped_ := false |}.

(** The regular expressions that recognise refusals and claims in prose. *)
Class Prose := { refusalPattern : string → bool; claimPattern : string → bool }.

(** [response[a:b]]. *)
Definition slice (a b : nat) (response : string) : string := take_bytes (b - a) (drop_bytes a response).

Section protocol.
Context `{Prose}.

Definition classifyMissingEnvelope (response : string) : FailureCode :=
  if refusalPattern response then FailureProtocolRefusal
  else if claimPattern response then FailureUnsupportedExecutionClaim
  else FailureMissingEnvelope.

(** Kind, block and mixed prose, or the kind and the code of the failure. *)
Definition extractEnvelope (response : string) : FailureCode + (EnvelopeKind * string * bool) :=
  let tags := scanEnvelopeTags response in
  match tags with
  | [] => inl (classifyMissingEnvelope response)
  | first :: _ =>
    let openCount := length (List.filter tag_opening tags) in
    if (openCount =? 0)%nat then inl FailureUnclosedEnvelope
    else if (1 <? openCount)%nat then inl FailureMultipleEnvelopes
    else if negb (tag_opening first) then inl FailureUnclosedEnvelope
    else
      match tags with
      | [_; second] =>
        if tag_opening second || negb (bool_decide (tag_kind first = tag_kind second)) then inl FailureMultipleEnvelopes
        else
          let outside := take_bytes (tag_start first) response +:+ drop_bytes (tag_end second) response in
          inr (tag_kind first, slice (tag_end first) (tag_start second) response,
               negb (String.eqb (TrimSpace outside) ""))
      | _ => inl FailureUnclosedEnvelope
      end
  end.

(** ** Decoding *)

Definition rejectDuplicateObjectKeys (raw : json) : bool := strict maxJSONDepth 0 raw.

(** One JSON value, without duplicate keys; [None] is an error. *)
Definition decodeSingleJSON (block : string) : option json :=
  raw ← parse block;
  if rejectDuplicateObjectKeys raw then Some raw else None.

Definition decodeArguments (raw : json) : option Arguments :=
  match raw with
  | JObject members => Some (foldl (λ arguments '(name, value), <[name := value]> arguments) ∅ members)
  | _ => None
  end.

Definition decode_citation (value : json) : option EvidenceCitation :=
  citation ← decode_struct true ["evidence_id"; "tool"]%string
    (λ name v c,
      if String.eqb name "evidence_id"
      then id ← as_string v (ev_EvidenceID c); Some {| ev_EvidenceID := id; ev_Tool := ev_Tool c |}
      else tool ← as_string v (ev_Tool c); Some {| ev_EvidenceID := ev_EvidenceID c; ev_Tool := tool |})
    {| ev_EvidenceID := ""; ev_Tool := "" |} value;
  if String.eqb (TrimSpace (ev_EvidenceID citation)) "" || String.eqb (TrimSpace (ev_Tool citation)) ""
  then None else Some citation.

Definition decodeEvidence (raw : json) : option (list EvidenceCitation) :=
  match raw with
  | JArray [] => None
  | JArray values => mapM decode_citation values
  | _ => None
  end.

(** The struct of the action envelope: version, tool, arguments. *)
Definition decode_action (raw : json) : option (option string * option string * option json) :=
  decode_struct true ["version"; "tool"; "arguments"]%string
    (λ name v '(version, tool, arguments),
      if String.eqb name "version" then p ← as_string_pointer v; Some (p, tool, arguments)
      else if String.eqb name "tool" then p ← as_string_pointer v; Some (version, p, arguments)
      else Some (version, tool, Some v))
    (None, None, None) raw.

(** What is registered, and whether the arguments are an error. *)
Class ToolCatalog := { ValidateArguments : string → Arguments → bool * bool }.

Definition parseAction (catalog : option ToolCatalog) (raw : json) (mixedProse : bool) : ParseResult :=
  match decode_action raw with
  | Some (Some version, Some tool, Some args) =>
    if negb (String.eqb version Current) then
      failedResult KindAction None mixedProse false FailureUnsupportedProtocolVersion
    else if String.eqb tool "" then failedResult KindAction None mixedProse false FailureInvalidActionSchema
    else
      match decodeArguments args with
      | None => failedResult KindAction None mixedProse false FailureInvalidActionSchema
      | Some arguments =>
        let action := {| act_Version := version; act_Tool := tool; act_Arguments := arguments |} in
        match catalog with
        | None => failedResult KindAction (Some action) mixedProse true FailureUnknownTool
        | Some catalog =>
          let '(registered, err) := @ValidateArguments catalog tool arguments in
          if negb registered then failedResult KindAction (Some action) mixedProse true FailureUnknownTool
          else if err : bool then failedResult KindAction (Some action) mixedProse true FailureInvalidArguments
          else {| res_Kind := KindAction; res_Action := Some action; res_Final := None; res_Failure := None;
                  res_MixedProse := mixedProse; res_SchemaValid := true; res_Accepted := true; res_Executable := true |}
        end
      end
  | _ => failedResult KindAction None mixedProse false FailureInvalidActionSchema
  end.

(** The struct of the final envelope: version, status, summary, evidence. *)
Definition decode_final (raw : json) : option (option string * option string * option string * option json) :=
  decode_struct true ["version"; "status"; "summary"; "evidence"]%string
    (λ name v '(version, status, summary, evidence),
      if String.eqb name "version" then p ← as_string_pointer v; Some (p, status, summary, evidence)
      else if String.eqb name "status" then p ← as_string_pointer v; Some (version, p, summary, evidence)
      else if String.eqb name "summary" then p ← as_string_pointer v; Some (version, status, p, evidence)
      else Some (version, status, summary, Some v))
    (None, None, None, None) raw.

Definition final_status (status : string) : option FinalStatus :=
  if String.eqb status "complete" then Some StatusComplete
  else if String.eqb status "incomplete" then Some StatusIncomplete else None.

Definition parseFinal (raw : json) (mixedProse : bool) : ParseResult :=
  let refuse := failedResult KindFinal None mixedProse false in
  match decode_final raw with
  | Some (Some version, Some status, Some summary, Some evidence) =>
    if negb (String.eqb version Current) then refuse FailureUnsupportedProtocolVersion
    else
      match final_status status, decodeEvidence evidence with
      | Some status, Some citations => {|
          res_Kind := KindFinal; res_Action := None;
          res_Final := Some {| fin_Version := version; fin_Status := status; fin_Summary := summary; fin_Evidence := citations |};
          res_Failure := None; res_MixedProse := mixedProse; res_SchemaValid := true; res_Accepted := true;
          res_Executable := false |}
      | _, _ => refuse FailureInvalidFinalSchema
      end
  | _ => refuse FailureInvalidFinalSchema
  end.

Definition Parse (catalog : option ToolCatalog) (response : string) : ParseResult :=
  if (maxResponseBytes <? Z.of_nat (String.length response))%Z then
    failedResult KindInvalid None false false FailureMalformedJSON
  else
    match extractEnvelope response with
    | inl code => failedResult KindInvalid None false false code
    | inr (kind, block, mixedProse) =>
      match decodeSingleJSON block with
      | None => failedResult KindInvalid None mixedProse false FailureMalformedJSON
      | Some raw => if bool_decide (kind = KindAction) then parseAction catalog raw mixedProse else parseFinal raw mixedProse
      end
    end.
End protocol.

(** ** The identity of an action *)

(** [json.Marshal] of a decoded object: the last value of a key, keys in order. *)
Definition order_members (members : list (string * json)) : list (string * json) :=
  let m := foldl (λ m '(key, value), <[key := value]> m) (∅ : gmap string json) members in
  (λ key, (key, default JNull (m !! key))) <$> sort_Strings (map_to_list m).*1.

(** [canonicalJSON], on decoded values; numbers keep their text. *)
Fixpoint canonicalJSON (v : json) : json :=
  match v with
  | JArray values => JArray (canonicalJSON <$> values)
  | JObject members => JObject (order_members ((λ '(key, value), (key, canonicalJSON value)) <$> members))
  | _ => v
  end.

(** Hexadecimal SHA-256. *)
Class Hash := { sha256_hex : string → string }.

Definition fingerprint_payload (action : Action) : json :=
  JObject [("tool", JString (act_Tool action));
           ("arguments", canonicalJSON (JObject (map_to_list (act_Arguments action))))]%string.

Definition ActionFingerprint `{Hash} (action : Action) : string := sha256_hex (write_value (fingerprint_payload action)).

(** The guard of the package: fingerprints that were seen; a repeated action is
    a failure. *)
Definition Check `{Hash} (seen : gset string) (action : Action) : option ParseFailure * gset string :=
  let fingerprint := ActionFingerprint action in
  if bool_decide (fingerprint ∈ seen) then
    (Some {| pf_Code := FailureRepeatedAction; pf_CorrectionReasonable := true |}, seen)
  else (None, {[fingerprint]} ∪ seen).

(** ** Guidance and corrections (guidance.go) *)

(** Texts with quotation marks, which are written as a caret here. *)
Fixpoint quoted (s : string) : string :=
  match s with
  | String c s' => String (if Ascii.eqb c "^"%char then quote else c) (quoted s')
  | EmptyString => EmptyString
  end.

Definition actionEnvelopeShape : string :=
  quoted "<runstead_action>{^version^:^runstead.protocol.v1^,^tool^:^<registered-tool-name>^,^arguments^:{...}}</runstead_action>".

Definition finalEnvelopeShape : string :=
  quoted "<runstead_final>{^version^:^runstead.protocol.v1^,^status^:^complete^,^summary^:^...^,^evidence^:[{^evidence_id^:^obs-...^,^tool^:^<producer-tool>^}]}</runstead_final>".

Definition line_end : string := String (char 10) "".

Definition ActionEnvelopeGuidance : string :=
  "Action envelope (exact shape):" +:+ line_end +:+ actionEnvelopeShape +:+ line_end +:+
  "The top-level JSON object contains exactly version, tool, and arguments." +:+ line_end +:+
  "version must be exactly runstead.protocol.v1." +:+ line_end +:+
  "tool must be one of the registered tools listed below." +:+ line_end +:+
  "arguments must be a JSON object matching that tool's declared arguments." +:+ line_end +:+
  "Use no Markdown code fence, no trailing comma, no pseudo-JSON, and no extra top-level fields." +:+ line_end +:+
  "Return exactly one envelope per model turn.".

Definition FinalEnvelopeGuidance : string :=
  "Final envelope (exact shape):" +:+ line_end +:+ finalEnvelopeShape +:+ line_end +:+
  "The top-level JSON object contains exactly version, status, summary, and evidence." +:+ line_end +:+
  "version must be exactly runstead.protocol.v1." +:+ line_end +:+
  "status must be exactly complete or incomplete." +:+ line_end +:+
  "evidence uses exactly evidence_id and tool for each entry and must be a non-empty array. Evidence IDs must have been observed, and the cited tool must be the producer tool." +:+ line_end +:+
  "A task cannot invent evidence merely to produce a final response. Completion remains a proposal and is independently verified by Runstead.".

Definition correction_common : string :=
  "Return exactly one valid runstead_action or runstead_final envelope; never claim local execution without an envelope.".

Definition correctionGuidance (code : FailureCode) : string :=
  correction_common +:+
  match code with
  | FailureMalformedJSON =>
    " Malformed JSON: return one strict JSON object inside one matching envelope. Use no Markdown code fence, no trailing comma, and no pseudo-JSON. Use either "
    +:+ actionEnvelopeShape +:+ " or " +:+ finalEnvelopeShape +:+ "."
  | FailureInvalidActionSchema | FailureInvalidArguments | FailureUnknownTool =>
    " Invalid action schema: use exactly the fields version, tool, and arguments, with version and tool as strings and arguments as a JSON object matching a registered tool's declared arguments. No extra fields. Shape: "
    +:+ actionEnvelopeShape +:+ "."
  | FailureInvalidFinalSchema =>
    " Invalid final schema: use exactly the fields version, status, summary, and evidence. Status is complete or incomplete; evidence is a non-empty array of entries with exactly evidence_id and tool. Shape: "
    +:+ finalEnvelopeShape +:+ ". Cite only observed evidence."
  | FailureMissingEnvelope | FailureUnclosedEnvelope =>
    " Return exactly one envelope with matching opening and closing tags: one <runstead_action>...</runstead_action> or one <runstead_final>...</runstead_final>; do not return prose instead of the envelope."
  | FailureMultipleEnvelopes =>
    " Do not return multiple envelopes. Return exactly one envelope with one matching opening and closing tag pair for this model turn."
  | FailureUnsupportedProtocolVersion =>
    " The version must be exactly runstead.protocol.v1, not another version. Return one strict action or final envelope."
  | FailureProtocolRefusal | FailureUnsupportedExecutionClaim =>
    " Do not describe an execution claim or refusal as a substitute for the required envelope."
  | FailureRepeatedAction =>
    " Do not repeat the same action proposal. Choose a different valid registered action or return a grounded final envelope using observed evidence."
  end.

Definition correction_message (code : FailureCode) (retriesRemaining : Z) : json :=
  JObject [("protocol_version", JString Current); ("type", JString "protocol_correction"); ("ok", JBool false);
           ("error_code", JString (code_text code)); ("retries_remaining", JNumber (pretty retriesRemaining));
           ("required", JString (correctionGuidance code))]%string.

(** An error is [None]; a code is never empty here. *)
Definition GenerateCorrectionMessage (code : FailureCode) (retriesRemaining : Z) : option string :=
  if (retriesRemaining <? 0)%Z then None else Some (write_value (correction_message code retriesRemaining)).
