(* ===== verification/ProtocolLaws.v ===== *)
(** * Laws of the protocol

    An envelope that is written as JSON among prose is found and decoded to what
    was written; what is accepted is a single, strict, registered envelope; two
    actions have one identity exactly when they are the same up to the order of
    their arguments. *)

From stdpp Require Import pretty.
From S2P Require Import Prelude GoTime Text Patch Json JsonLaws Protocol.
From Stdlib Require Import Ascii.

Local Open Scope runstead_scope.

(** ** Bytes *)

Lemma drop_bytes_app s t : drop_bytes (String.length s) (s +:+ t) = t.
Proof. by induction s. Qed.

Lemma take_bytes_app s t : take_bytes (String.length s) (s +:+ t) = s.
Proof. induction s as [|c s IH]; [by destruct t|]. by apply (f_equal (String c)). Qed.

Lemma take_drop_bytes n s : take_bytes n s +:+ drop_bytes n s = s.
Proof. revert s. induction n as [|n IH]; intros [|c s]; [done..|]. by apply (f_equal (String c)). Qed.

Lemma length_take_bytes n s : (String.length (take_bytes n s) ≤ n)%nat.
Proof. revert s. induction n as [|n IH]; intros [|c s]; simpl; [lia..|]. specialize (IH s). lia. Qed.

Lemma drop_bytes_add n m s : drop_bytes (n + m) s = drop_bytes m (drop_bytes n s).
Proof. revert s. induction n as [|n IH]; intros [|c s]; [done..|by destruct m|]. apply IH. Qed.

Lemma prefix_app s t : String.prefix s (s +:+ t) = true.
Proof.
  induction s as [|c s IH]; [by destruct t|]. simpl. by destruct (ascii_dec c c).
Qed.

(** ** Scanning *)

Definition less : ascii := "<"%char.

Lemma markerAt_None c rest : c ≠ less → markerAt (String c rest) = None.
Proof.
  intros Hc. rw /markerAt.
  rw /envelopeMarkers. cbn [List.find fst String.prefix].
  by destruct (ascii_dec "<" c) as [<-|].
Qed.

Definition outside_ : ScanState := {| inEnvelope := false; inJSONString := false; escaped_ := false |}.
Definition within_ : ScanState := {| inEnvelope := true; inJSONString := false; escaped_ := false |}.
Definition string_ : ScanState := {| inEnvelope := true; inJSONString := true; escaped_ := false |}.

(** Scanning [s] from one state to another without a tag. *)
Definition passes (s : string) (st st' : ScanState) : Prop :=
  ∀ fuel offset rest,
    scan_from (String.length s + fuel) offset (s +:+ rest) st = scan_from fuel (offset + String.length s) rest st'.

Lemma passes_nil st : passes "" st st.
Proof. intros fuel offset rest. simpl. by rw Nat.add_0_r. Qed.

Lemma passes_app s t st st' st'' : passes s st st' → passes t st' st'' → passes (s +:+ t) st st''.
Proof.
  intros Hs Ht fuel offset rest. rw app_assoc_text length_app_text -Nat.add_assoc Hs Ht. f_equal. lia.
Qed.

(** A character that is neither a quote nor the beginning of a tag. *)
Lemma passes_char c st :
  inJSONString st = false → c ≠ less → (inEnvelope st = true → c ≠ quote) → passes (String c "") st st.
Proof.
  intros Hs Hc Hq fuel offset rest. destruct st as [env str esc]. simpl in Hs, Hq. subst str.
  change (String.length (String c "") + fuel)%nat with (S fuel).
  change (String c "" +:+ rest) with (String c rest). cbn [scan_from inEnvelope inJSONString].
  rw andb_false_r markerAt_None //. rw Nat.add_1_r. destruct env; [|done].
  destruct (Ascii.eqb_spec c quote); [by destruct Hq|done].
Qed.

Lemma passes_quote_in : passes (String quote "") within_ string_.
Proof. intros fuel offset rest. rw Nat.add_1_r. done. Qed.

Lemma passes_quote_out : passes (String quote "") string_ within_.
Proof. intros fuel offset rest. rw Nat.add_1_r. done. Qed.

Lemma passes_ascii c : (byte_of c <? 128)%Z = true → passes (write_ascii c) string_ string_.
Proof.
  intros H fuel offset rest. rw (Nat.add_comm offset).
  destruct c as [[] [] [] [] [] [] [] []]; first [discriminate H|reflexivity].
Qed.

Lemma passes_body s : ascii_text s = true → passes (write_body (String.length s) s) string_ string_.
Proof.
  induction s as [|c s IH]; [intros _; apply passes_nil|]. intros [Hc Hs]%andb_true_iff.
  cbn [String.length write_body]. rw Hc. eapply passes_app; [by apply passes_ascii|by apply IH].
Qed.

Lemma passes_string s : ascii_text s = true → passes (write_string s) within_ within_.
Proof.
  intros Hs. rw /write_string.
  apply (passes_app (String quote "") _ _ string_); [apply passes_quote_in|].
  eapply passes_app; [by apply passes_body|apply passes_quote_out].
Qed.

(** Texts without a quote and without the beginning of a tag. *)
Definition tame (s : string) : bool := free_of less s && free_of quote s.

Lemma tame_cons c s : tame (String c s) = true ↔ (c ≠ less ∧ c ≠ quote) ∧ tame s = true.
Proof.
  rw /tame /=. destruct (Ascii.eqb_spec c less), (Ascii.eqb_spec c quote); simpl; rw ?andb_false_r; naive_solver.
Qed.

Lemma tame_app s t : tame s = true → tame t = true → tame (s +:+ t) = true.
Proof.
  induction s as [|c s IH]; [done|]. intros [Hc Hs]%tame_cons Ht. apply tame_cons. split; [done|by apply IH].
Qed.

Lemma passes_tame s : tame s = true → passes s within_ within_.
Proof.
  induction s as [|c s IH]; [intros _; apply passes_nil|]. intros [[H1 H2] Hs]%tame_cons.
  change (String c s) with (String c "" +:+ s). eapply passes_app; [by apply passes_char|by apply IH].
Qed.

Lemma passes_prose s : free_of less s = true → passes s outside_ outside_.
Proof.
  induction s as [|c s IH]; [intros _; apply passes_nil|]. simpl. intros [Hc%negb_true_iff Hs]%andb_true_iff.
  change (String c s) with (String c "" +:+ s). eapply passes_app; [|by apply IH].
  apply passes_char; [done| |done]. by apply Ascii.eqb_neq.
Qed.

Lemma digit_tame c : digit c = true → c ≠ less ∧ c ≠ quote.
Proof. intros H. split; intros ->; discriminate H. Qed.

Lemma digits_tame s : tame (digits s).1 = true.
Proof.
  induction s as [|c s IH]; [done|]. simpl. destruct (digit c) eqn:E; [|done].
  destruct (digits s) as [ds rest]. apply tame_cons. split; [by apply digit_tame|done].
Qed.

Lemma read_integer_tame s t s' : read_integer s = Some (t, s') → tame t = true.
Proof.
  destruct s as [|c s]; [done|]. pose proof (digits_tame (String c s)) as H. rw /read_integer.
  destruct (Ascii.eqb_spec c c_zero) as [->|]; [by intros [= <- _]|].
  destruct (digit c); [|done]. destruct (digits (String c s)) as [ds r]. by intros [= <- _].
Qed.

Lemma read_fraction_tame s t s' : read_fraction s = Some (t, s') → tame t = true.
Proof.
  rw /read_fraction. destruct (eat c_point s) as [s1|]; [|by intros [= <- _]].
  pose proof (digits_tame s1) as H. destruct (digits s1) as [ds r]. case_match; [done|]. intros [= <- _].
  by apply tame_cons.
Qed.

Lemma read_exponent_tame s t s' : read_exponent s = Some (t, s') → tame t = true.
Proof.
  rw /read_exponent. destruct s as [|e s]; [by intros [= <- _]|].
  destruct (Ascii.eqb e (char 101) || Ascii.eqb e (char 69)) eqn:Ee; [|by intros [= <- _]].
  assert (e ≠ less ∧ e ≠ quote) as He.
  { apply orb_true_iff in Ee as [Ee%Ascii.eqb_eq|Ee%Ascii.eqb_eq]; by subst e. }
  assert (∀ sign s1, tame sign = true → (let '(ds, rest) := digits s1 in
    if String.eqb ds "" then None else Some (String e sign +:+ ds, rest)) = Some (t, s') → tame t = true) as Hd.
  { intros sign s1 Hs. pose proof (digits_tame s1) as H. destruct (digits s1) as [ds r]. case_match; [done|].
    intros [= <- _]. apply (tame_app (String e sign)); [by apply tame_cons|done]. }
  destruct s as [|c s]; [by apply Hd|]. destruct (Ascii.eqb c c_plus || Ascii.eqb c c_minus) eqn:Ec; [|by apply Hd].
  apply Hd. apply orb_true_iff in Ec as [Ec%Ascii.eqb_eq|Ec%Ascii.eqb_eq]; by subst c.
Qed.

Lemma valid_number_tame text : valid_number text → tame text = true.
Proof.
  rw /valid_number /read_number. destruct (eat c_minus text) as [s1|].
  all: destruct (read_integer _) as [[w s2]|] eqn:E1; [|done]; simpl.
  all: destruct (read_fraction s2) as [[f s3]|] eqn:E2; [|done]; simpl.
  all: destruct (read_exponent s3) as [[x s4]|] eqn:E3; [|done]; simpl; intros E; injection E as <- _.
  all: assert (tame (w +:+ f +:+ x) = true) as Ht;
    [apply tame_app; [by eapply read_integer_tame|apply tame_app; [by eapply read_fraction_tame|by eapply read_exponent_tame]]|].
  all: first [exact Ht|by apply tame_cons].
Qed.

Lemma passes_concat (l : list string) :
  Forall (λ s, passes s within_ within_) l → passes (String.concat "," l) within_ within_.
Proof.
  induction 1 as [|s l Hs Hl IH]; [apply passes_nil|]. rw concat_cons. destruct l as [|s' l]; [done|].
  eapply passes_app; [done|]. change (String c_comma ?x) with (String c_comma "" +:+ x).
  eapply passes_app; [by apply passes_char|done].
Qed.

(** The scan of a written value sees no tag and ends outside strings. *)
Lemma passes_value v : plain v = true → passes (write_value v) within_ within_.
Proof.
  assert (∀ c d s, c ≠ less → c ≠ quote → d ≠ less → d ≠ quote → passes s within_ within_ →
    passes (String c (s +:+ String d "")) within_ within_) as Hwrap.
  { intros c d s H1 H2 H3 H4 Hs. change (String c ?x) with (String c "" +:+ x).
    eapply passes_app; [by apply passes_char|]. eapply passes_app; [done|by apply passes_char]. }
  induction v as [|b|text|s|values IH|members IH] using json_induction; intros Hp.
  - by apply passes_tame.
  - destruct b; by apply passes_tame.
  - by apply passes_tame, valid_number_tame, valid_numberb_spec.
  - by apply passes_string.
  - cbn [write_value]. apply Hwrap; [done..|]. apply passes_concat, Forall_fmap, Forall_forall.
    cbn [plain] in Hp. rw forallb_forall in Hp. rw Forall_forall in IH. intros v Hv. apply IH; [done|].
    by apply Hp, list_elem_of_In.
  - rw write_object. apply Hwrap; [done..|]. apply passes_concat, Forall_fmap, Forall_forall.
    cbn [plain] in Hp. rw forallb_forall in Hp. rw Forall_forall in IH. intros [key v] Hm.
    specialize (IH _ Hm). apply list_elem_of_In, Hp, andb_true_iff in Hm as [Hk Hv].
    rw /= /write_member. eapply passes_app; [by apply passes_string|].
    change (String c_colon ?x) with (String c_colon "" +:+ x).
    eapply passes_app; [by apply passes_char|by apply IH].
Qed.

(** ** Envelopes among prose *)

Definition tag_name (kind : EnvelopeKind) : string :=
  match kind with KindFinal => "runstead_final" | _ => "runstead_action" end.

Definition opening_tag (kind : EnvelopeKind) : string := "<" +:+ tag_name kind +:+ ">".
Definition closing_tag (kind : EnvelopeKind) : string := "</" +:+ tag_name kind +:+ ">".

(** [block] in an envelope. *)
Definition wrap (kind : EnvelopeKind) (block : string) : string :=
  opening_tag kind +:+ block +:+ closing_tag kind.

Definition a_kind (kind : EnvelopeKind) : Prop := kind = KindAction ∨ kind = KindFinal.

Lemma scan_opening kind fuel offset rest :
  a_kind kind →
  scan_from (S fuel) offset (opening_tag kind +:+ rest) outside_
  = {| tag_kind := kind; tag_opening := true; tag_start := offset;
       tag_end := offset + String.length (opening_tag kind) |}
    :: scan_from fuel (offset + String.length (opening_tag kind)) rest within_.
Proof. by intros [->| ->]; destruct rest. Qed.

Lemma scan_closing kind fuel offset rest :
  a_kind kind →
  scan_from (S fuel) offset (closing_tag kind +:+ rest) within_
  = {| tag_kind := kind; tag_opening := false; tag_start := offset;
       tag_end := offset + String.length (closing_tag kind) |}
    :: scan_from fuel (offset + String.length (closing_tag kind)) rest outside_.
Proof. by intros [->| ->]; destruct rest. Qed.

Lemma scan_end fuel offset st : scan_from fuel offset "" st = [].
Proof. by destruct fuel. Qed.

Lemma scan_prose q fuel offset : free_of less q = true → scan_from (String.length q + fuel) offset q outside_ = [].
Proof. intros Hq. rw -{2}(app_empty q) (passes_prose q Hq). apply scan_end. Qed.

Lemma scan_wrap kind p block q :
  a_kind kind → free_of less p = true → free_of less q = true → passes block within_ within_ →
  scanEnvelopeTags (p +:+ wrap kind block +:+ q)
  = let n := (String.length p + String.length (opening_tag kind))%nat in
    let m := (n + String.length block)%nat in
    [{| tag_kind := kind; tag_opening := true; tag_start := String.length p; tag_end := n |};
     {| tag_kind := kind; tag_opening := false; tag_start := m; tag_end := m + String.length (closing_tag kind) |}].
Proof.
  intros Hk Hp Hq Hb. rw /scanEnvelopeTags /wrap.
  pose proof (λ fuel offset rest, scan_opening kind fuel offset rest Hk) as Ho.
  pose proof (λ fuel offset rest, scan_closing kind fuel offset rest Hk) as Hc.
  assert (0 < String.length (opening_tag kind) ∧ 0 < String.length (closing_tag kind))%nat as [Hol Hcl]
    by (destruct Hk as [->| ->]; simpl; lia).
  revert Ho Hc Hol Hcl. generalize (opening_tag kind) as o, (closing_tag kind) as c. intros o c Ho Hc Hol Hcl.
  rw !app_assoc_text !length_app_text (passes_prose p Hp) Nat.add_0_l.
  replace (String.length o + _)%nat with (S (String.length block
    + S (String.length q + (Nat.pred (String.length o) + Nat.pred (String.length c)))))%nat by lia.
  by rw Ho Hb Hc scan_prose.
Qed.

Section envelopes.
Context `{Prose}.

Lemma extract_pair response kind a b c d :
  scanEnvelopeTags response
    = [{| tag_kind := kind; tag_opening := true; tag_start := a; tag_end := b |};
       {| tag_kind := kind; tag_opening := false; tag_start := c; tag_end := d |}] →
  extractEnvelope response
  = inr (kind, slice b c response,
         negb (String.eqb (TrimSpace (take_bytes a response +:+ drop_bytes d response)) "")).
Proof. intros H1. rw /extractEnvelope H1 /=. by rw bool_decide_eq_true_2. Qed.

(** An envelope among prose is extracted as it was put in. *)
Lemma extract_wrap kind p block q :
  a_kind kind → free_of less p = true → free_of less q = true → passes block within_ within_ →
  extractEnvelope (p +:+ wrap kind block +:+ q) = inr (kind, block, negb (String.eqb (TrimSpace (p +:+ q)) "")).
Proof.
  intros Hk Hp Hq Hb. pose proof (scan_wrap kind p block q Hk Hp Hq Hb) as Hs.
  rw (extract_pair _ _ _ _ _ _ Hs) /slice /wrap take_bytes_app. do 3 f_equal.
  - replace (p +:+ _ +:+ q) with ((p +:+ opening_tag kind) +:+ block +:+ (closing_tag kind +:+ q))
      by (by rw !app_assoc_text).
    rw -length_app_text drop_bytes_app. replace (_ - _)%nat with (String.length block) by lia.
    apply take_bytes_app.
  - replace (p +:+ _ +:+ q) with ((p +:+ opening_tag kind +:+ block +:+ closing_tag kind) +:+ q)
      by (by rw !app_assoc_text).
    replace (_ + _)%nat with (String.length (p +:+ opening_tag kind +:+ block +:+ closing_tag kind))
      by (rw !length_app_text; lia).
    by rw drop_bytes_app.
Qed.

Lemma decode_single_write v :
  plain v = true → rejectDuplicateObjectKeys v = true → decodeSingleJSON (write_value v) = Some v.
Proof. intros Hp Hs. rw /decodeSingleJSON parse_write //=. by rw Hs. Qed.

Lemma foldl_insert_notin (l : list (string * json)) (m : Arguments) key value :
  key ∉ l.*1 → foldl (λ a '(name, v), <[name := v]> a) (<[key := value]> m) l
    = <[key := value]> (foldl (λ a '(name, v), <[name := v]> a) m l).
Proof.
  revert m. induction l as [|[k v] l IH]; intros m; [done|]. simpl.
  intros [Hk Hl]%not_elem_of_cons. rw insert_insert_ne //. by apply IH.
Qed.

Lemma foldl_insert_list_to_map (l : list (string * json)) :
  NoDup l.*1 → foldl (λ a '(name, v), <[name := v]> a) ∅ l = (list_to_map l : Arguments).
Proof.
  induction l as [|[k v] l IH]; [done|]. simpl. intros [Hk Hl]%NoDup_cons.
  rw foldl_insert_notin //. by rw IH.
Qed.

(** The arguments of an object are its members, whatever their order. *)
Lemma decodeArguments_members m : decodeArguments (JObject (map_to_list m)) = Some m.
Proof.
  rw /decodeArguments foldl_insert_list_to_map; [apply NoDup_fst_map_to_list|]. by rw list_to_map_to_list.
Qed.

(** The object of an action envelope. *)
Definition action_json (action : Action) : json :=
  JObject [("version", JString (act_Version action)); ("tool", JString (act_Tool action));
           ("arguments", JObject (map_to_list (act_Arguments action)))]%string.

Definition citation_json (citation : EvidenceCitation) : json :=
  JObject [("evidence_id", JString (ev_EvidenceID citation)); ("tool", JString (ev_Tool citation))]%string.

Definition status_text (status : FinalStatus) : string :=
  match status with StatusComplete => "complete" | StatusIncomplete => "incomplete" end.

(** The object of a final envelope. *)
Definition final_json (final : FinalResponse) : json :=
  JObject [("version", JString (fin_Version final)); ("status", JString (status_text (fin_Status final)));
           ("summary", JString (fin_Summary final)); ("evidence", JArray (citation_json <$> fin_Evidence final))]%string.

Definition well_cited (citation : EvidenceCitation) : Prop :=
  TrimSpace (ev_EvidenceID citation) ≠ ""%string ∧ TrimSpace (ev_Tool citation) ≠ ""%string.

Lemma decode_citation_json citation : well_cited citation → decode_citation (citation_json citation) = Some citation.
Proof.
  intros [Hi Ht]. rw /decode_citation /=. apply String.eqb_neq in Hi, Ht. rw Hi Ht. by destruct citation.
Qed.

Lemma decodeEvidence_json citations :
  citations ≠ [] → Forall well_cited citations → decodeEvidence (JArray (citation_json <$> citations)) = Some citations.
Proof.
  intros Hne Hall. rw /decodeEvidence. destruct citations as [|c cs]; [done|].
  change (mapM decode_citation (citation_json <$> c :: cs) = Some (c :: cs)).
  apply mapM_Some_2, Forall2_fmap_l, Forall_Forall2_diag. eapply Forall_impl; [exact Hall|apply decode_citation_json].
Qed.

(** What a value must be to be written into an envelope: ASCII texts, numbers
    in their grammar, no duplicate key and bounded nesting. *)
Definition writable (v : json) : Prop := plain v = true ∧ rejectDuplicateObjectKeys v = true.

Definition accepted_action (action : Action) (mixedProse : bool) : ParseResult := {|
  res_Kind := KindAction; res_Action := Some action; res_Final := None; res_Failure := None;
  res_MixedProse := mixedProse; res_SchemaValid := true; res_Accepted := true; res_Executable := true |}.

Definition accepted_final (final : FinalResponse) (mixedProse : bool) : ParseResult := {|
  res_Kind := KindFinal; res_Action := None; res_Final := Some final; res_Failure := None;
  res_MixedProse := mixedProse; res_SchemaValid := true; res_Accepted := true; res_Executable := false |}.

(** A response: prose without the beginning of a tag around one envelope. *)
Record response_shape := { before : string; after : string }.

Definition respond (shape : response_shape) (kind : EnvelopeKind) (v : json) : string :=
  before shape +:+ wrap kind (write_value v) +:+ after shape.

Definition mixed (shape : response_shape) : bool := negb (String.eqb (TrimSpace (before shape +:+ after shape)) "").

Definition proper (shape : response_shape) (kind : EnvelopeKind) (v : json) : Prop :=
  free_of less (before shape) = true ∧ free_of less (after shape) = true
  ∧ (Z.of_nat (String.length (respond shape kind v)) ≤ maxResponseBytes)%Z.

Lemma Parse_respond catalog shape kind v :
  a_kind kind → proper shape kind v → writable v →
  Parse catalog (respond shape kind v)
  = if bool_decide (kind = KindAction) then parseAction catalog v (mixed shape) else parseFinal v (mixed shape).
Proof.
  intros Hk (Hb & Ha & Hl) [Hp Hd]. rw /Parse.
  apply Z.ltb_ge in Hl. rw Hl. rw /respond extract_wrap //; [by apply passes_value|].
  by rw decode_single_write.
Qed.

(** C31: an action written as JSON in one envelope is parsed to that action, when its
    texts are ASCII and its numbers are numbers of JSON, its nesting and the length of
    the response are within their bounds, the catalog accepts it, and the text around
    the envelope has no byte [<].
    The strings of the arguments may hold tags, quotes and backslashes.  Only the flag
    of mixed prose depends on what surrounds the envelope. *)
Theorem Parse_action_roundtrip (catalog : ToolCatalog) shape action :
  act_Version action = Current → act_Tool action ≠ ""%string →
  ValidateArguments (act_Tool action) (act_Arguments action) = (true, false) →
  proper shape KindAction (action_json action) → writable (action_json action) →
  Parse (Some catalog) (respond shape KindAction (action_json action)) = accepted_action action (mixed shape).
Proof.
  intros Hv Ht Hok Hs Hw. rw Parse_respond //; [by left|]. rw bool_decide_eq_true_2 // /parseAction.
  assert (decode_action (action_json action)
    = Some (Some (act_Version action), Some (act_Tool action), Some (JObject (map_to_list (act_Arguments action)))))
    as -> by done.
  apply String.eqb_neq in Ht. rw Hv decodeArguments_members Ht Hok /=. by destruct action; simplify_eq/=.
Qed.

(** Likewise for a final response with its citations. *)
Theorem Parse_final_roundtrip (catalog : option ToolCatalog) shape final :
  fin_Version final = Current → fin_Evidence final ≠ [] → Forall well_cited (fin_Evidence final) →
  proper shape KindFinal (final_json final) → writable (final_json final) →
  Parse catalog (respond shape KindFinal (final_json final)) = accepted_final final (mixed shape).
Proof.
  intros Hv Hne Hc Hs Hw. rw Parse_respond //; [by right|]. rw bool_decide_eq_false_2 // /parseFinal.
  assert (decode_final (final_json final)
    = Some (Some (fin_Version final), Some (status_text (fin_Status final)), Some (fin_Summary final),
            Some (JArray (citation_json <$> fin_Evidence final)))) as -> by done.
  rw decodeEvidence_json // Hv /=. destruct final as [version status summary evidence].
  simpl in *. subst. by destruct status.
Qed.

Definition refused (result : ParseResult) : Prop := ∃ kind action b valid code, result = failedResult kind action b valid code.

Definition of_catalog (catalog : option ToolCatalog) (action : Action) : Prop :=
  ∃ c, catalog = Some c ∧ act_Version action = Current ∧ act_Tool action ≠ ""%string
    ∧ @ValidateArguments c (act_Tool action) (act_Arguments action) = (true, false).

(** The action, the final response, is what the value says. *)
Definition says_action (raw : json) (action : Action) : Prop :=
  ∃ args, decode_action raw = Some (Some (act_Version action), Some (act_Tool action), Some args)
    ∧ decodeArguments args = Some (act_Arguments action).

Definition says_final (raw : json) (final : FinalResponse) : Prop :=
  ∃ status evidence,
    decode_final raw = Some (Some (fin_Version final), Some status, Some (fin_Summary final), Some evidence)
    ∧ final_status status = Some (fin_Status final) ∧ decodeEvidence evidence = Some (fin_Evidence final).

(** An action is refused, or it is one of the catalog. *)
Lemma parseAction_cases catalog raw b :
  refused (parseAction catalog raw b)
  ∨ ∃ action, parseAction catalog raw b = accepted_action action b ∧ says_action raw action ∧ of_catalog catalog action.
Proof.
  assert (∀ k a m s code, refused (failedResult k a m s code)) as Hf by (intros; by do 5 eexists).
  rw /parseAction /says_action. destruct (decode_action raw) as [[[[version|] [tool|]] [args|]]|]; try (left; apply Hf).
  destruct (String.eqb_spec version Current) as [->|]; [|left; apply Hf]. destruct (String.eqb_spec tool ""); [left; apply Hf|]. simpl.
  destruct (decodeArguments args) as [arguments|] eqn:Ea; [|left; apply Hf]. destruct catalog as [c|]; [|left; apply Hf].
  destruct (ValidateArguments tool arguments) as [[] []] eqn:E; try (left; apply Hf).
  right. exists {| act_Version := Current; act_Tool := tool; act_Arguments := arguments |}. split; [done|].
  split; [by exists args|by exists c].
Qed.

Lemma parseFinal_cases raw b :
  refused (parseFinal raw b) ∨ ∃ final, parseFinal raw b = accepted_final final b ∧ says_final raw final ∧ fin_Version final = Current.
Proof.
  assert (∀ k a m s code, refused (failedResult k a m s code)) as Hf by (intros; by do 5 eexists).
  rw /parseFinal /says_final. destruct (decode_final raw) as [[[[[version|] [status|]] [summary|]] [evidence|]]|]; try (left; apply Hf).
  destruct (String.eqb_spec version Current) as [->|]; [|left; apply Hf]. simpl.
  destruct (final_status status) as [st|] eqn:Est, (decodeEvidence evidence) as [cited|] eqn:Eev; try (left; apply Hf).
  right. eexists. split; [done|]. split; [|done]. by exists status, evidence.
Qed.

(** ** What the scan reports is there *)

Lemma prefix_drop t r : String.prefix t r = true → r = t +:+ drop_bytes (String.length t) r.
Proof.
  revert t. induction r as [|c r IH]; intros [|d t]; try done. simpl.
  destruct (ascii_dec d c) as [->|]; [|done]. intros E. by apply (f_equal (String c)), IH.
Qed.

Lemma app_split a b c d :
  a +:+ b = c +:+ d → (String.length a ≤ String.length c)%nat → ∃ e, c = a +:+ e ∧ b = e +:+ d.
Proof.
  revert c. induction a as [|x a IH]; intros c E Hl; [by exists c|].
  destruct c as [|y c]; [simpl in Hl; lia|]. injection E as -> E.
  destruct (IH c E) as (e & -> & ->); [simpl in Hl; lia|]. by exists e.
Qed.

Definition tag_text (tag : envelopeTag) : string :=
  (if tag_opening tag then opening_tag else closing_tag) (tag_kind tag).

(** The tag stands in the response where it says. *)
Definition stands (response : string) (tag : envelopeTag) : Prop :=
  a_kind (tag_kind tag)
  ∧ ∃ u w, response = u +:+ tag_text tag +:+ w ∧ String.length u = tag_start tag
      ∧ tag_end tag = (tag_start tag + String.length (tag_text tag))%nat.

(** Every tag begins where the one before has ended, or later. *)
Fixpoint spaced (low : nat) (tags : list envelopeTag) : Prop :=
  match tags with
  | [] => True
  | tag :: tags => (low ≤ tag_start tag)%nat ∧ spaced (tag_end tag) tags
  end.

Lemma spaced_mono low low' tags : (low ≤ low')%nat → spaced low' tags → spaced low tags.
Proof. destruct tags as [|t ts]; [done|]. simpl. intros ? [??]. split; [lia|done]. Qed.

Lemma markerAt_Some rest text kind opening :
  markerAt rest = Some (text, kind, opening) →
  a_kind kind ∧ text = (if opening then opening_tag else closing_tag) kind ∧ String.prefix text rest = true.
Proof.
  intros [Hin Hp]%List.find_some. split_and!; [..|done].
  all: destruct Hin as [E|[E|[E|[E|[]]]]]; injection E as <- <- <-; first [done|by left|by right].
Qed.

Lemma scan_stands fuel offset rest st pre :
  String.length pre = offset →
  Forall (stands (pre +:+ rest)) (scan_from fuel offset rest st) ∧ spaced offset (scan_from fuel offset rest st).
Proof.
  revert offset rest st pre. induction fuel as [|fuel IH]; intros offset rest st pre Hpre; [by split; [constructor|]|].
  destruct rest as [|c rest]; [by split; [constructor|]|]. simpl.
  assert (∀ st', let tags := scan_from fuel (S offset) rest st' in
    Forall (stands (pre +:+ String c rest)) tags ∧ spaced offset tags) as Hskip.
  { intros st'. destruct (IH (S offset) rest st' (pre +:+ String c "")) as [H1 H2].
    { rw length_app_text /=. lia. }
    rw app_assoc_text in H1. split; [done|]. eapply spaced_mono; [|done]. lia. }
  case_match; [apply Hskip|]. destruct (markerAt (String c rest)) as [[[text kind] opening]|] eqn:Hm; [|apply Hskip].
  apply markerAt_Some in Hm as (Hk & Ht & Hp%prefix_drop).
  set (rest' := drop_bytes (String.length text) (String c rest)) in *.
  destruct (IH (offset + String.length text)%nat rest'
    (if opening then {| inEnvelope := true; inJSONString := inJSONString st; escaped_ := escaped_ st |}
     else {| inEnvelope := false; inJSONString := false; escaped_ := false |}) (pre +:+ text)) as [H1 H2].
  { rw length_app_text. lia. }
  rw app_assoc_text -Hp in H1. split; [|by split; [simpl; lia|]]. constructor; [|done].
  split; [done|]. exists pre, rest'. rw /tag_text /= -Ht -Hp. by subst offset.
Qed.

(** No tag occurs in the text. *)
Definition clean (s : string) : Prop := ∀ kind (opening : bool) u w,
  a_kind kind → s ≠ u +:+ (if opening then opening_tag else closing_tag) kind +:+ w.

Lemma markerAt_tag kind (opening : bool) w :
  a_kind kind → markerAt ((if opening then opening_tag else closing_tag) kind +:+ w) ≠ None.
Proof. by intros [->| ->]; destruct opening, w. Qed.

(** Outside an envelope, the scan finds the first tag. *)
Lemma scan_finds fuel offset rest kind (opening : bool) u w :
  a_kind kind → (String.length rest ≤ fuel)%nat → rest = u +:+ (if opening then opening_tag else closing_tag) kind +:+ w →
  ∃ tag tags, scan_from fuel offset rest outside_ = tag :: tags ∧ (tag_start tag ≤ offset + String.length u)%nat.
Proof.
  intros Hk. revert offset rest u. induction fuel as [|fuel IH]; intros offset rest u Hf E.
  { exfalso. subst rest. rw !length_app_text in Hf. destruct Hk as [->| ->], opening; simpl in Hf; lia. }
  destruct rest as [|c rest]. { exfalso. by destruct Hk as [->| ->], opening, u. }
  cbn [scan_from outside_ inEnvelope andb]. destruct (markerAt (String c rest)) as [[[text k] o]|] eqn:Hm.
  - eexists _, _. split; [done|]. simpl. lia.
  - destruct u as [|c' u].
    + exfalso. rw E in Hm. by eapply markerAt_tag.
    + injection E as -> E. destruct (IH (S offset) rest u) as (tag & tags & Es & Hl); [simpl in Hf; lia|done|].
      exists tag, tags. split; [exact Es|]. simpl. lia.
Qed.

(** After a tag the scan goes on behind it, outside when the tag closes. *)
Lemma scan_goes_on fuel offset rest st tag tags :
  (String.length rest ≤ fuel)%nat → scan_from fuel offset rest st = tag :: tags →
  (offset ≤ tag_end tag)%nat ∧ ∃ fuel' st', let rest' := drop_bytes (tag_end tag - offset) rest in
    tags = scan_from fuel' (tag_end tag) rest' st' ∧ (String.length rest' ≤ fuel')%nat
    ∧ (tag_opening tag = false → st' = outside_).
Proof.
  revert offset rest st. induction fuel as [|fuel IH]; intros offset rest st Hf E; [done|].
  destruct rest as [|c rest]; [done|]. simpl in Hf.
  assert (∀ st1, scan_from fuel (S offset) rest st1 = tag :: tags →
    (offset ≤ tag_end tag)%nat ∧ ∃ fuel' st', let rest' := drop_bytes (tag_end tag - offset) (String c rest) in
      tags = scan_from fuel' (tag_end tag) rest' st' ∧ (String.length rest' ≤ fuel')%nat
      ∧ (tag_opening tag = false → st' = outside_)) as Hskip.
  { intros st1 E1. apply IH in E1 as (Hl & fuel' & st' & Et & Hr & Ho); [|lia]. split; [lia|]. exists fuel', st'.
    replace (tag_end tag - offset)%nat with (S (tag_end tag - S offset)) by lia. done. }
  cbn [scan_from] in E. destruct (_ && _); [by eapply Hskip|].
  destruct (markerAt (String c rest)) as [[[text kind] opening]|] eqn:Hm; [|by eapply Hskip].
  injection E as <- <-. cbn [tag_end tag_opening]. split; [lia|]. apply markerAt_Some in Hm as (Hk & Ht & Hp).
  replace (offset + String.length text - offset)%nat with (String.length text) by lia.
  eexists fuel, _. split; [done|]. split; [|by intros ->].
  assert (0 < String.length text)%nat by (rw Ht; destruct Hk as [->| ->], opening; simpl; lia).
  apply prefix_drop in Hp. apply (f_equal String.length) in Hp. rw length_app_text /= in Hp. simpl. lia.
Qed.

(** What the scan calls an envelope is the only one: no tag is before it or after it. *)
Lemma scan_clean response first second :
  scanEnvelopeTags response = [first; second] → tag_opening second = false →
  clean (take_bytes (tag_start first) response) ∧ clean (drop_bytes (tag_end second) response).
Proof.
  rw /scanEnvelopeTags -/outside_. intros E Hc. split; intros kind opening u w Hk Eu.
  - destruct (scan_finds (String.length response) 0 response kind opening u
      (w +:+ drop_bytes (tag_start first) response)) as (tag & tags & Es & Hl); [done|done| |].
    { rw -{1}(take_drop_bytes (tag_start first) response) Eu. by rw !app_assoc_text. }
    rw E in Es. injection Es as <- _. apply (f_equal String.length) in Eu. rw !length_app_text in Eu.
    pose proof (length_take_bytes (tag_start first) response) as Ht.
    destruct Hk as [->| ->], opening; simpl in Eu; lia.
  - destruct (scan_goes_on _ _ _ _ _ _ (le_n _) E) as (_ & f1 & st1 & E1 & Hf1 & _).
    symmetry in E1. destruct (scan_goes_on _ _ _ _ _ _ Hf1 E1) as (Hle & f2 & st2 & E2 & Hf2 & Ho). rw (Ho Hc) in E2.
    rw Nat.sub_0_r -drop_bytes_add in E2 Hf2.
    replace (tag_end first + (tag_end second - tag_end first))%nat with (tag_end second) in E2, Hf2 by lia.
    destruct (scan_finds f2 (tag_end second) (drop_bytes (tag_end second) response) kind opening u w)
      as (tag & tags & Es & _); [done..|]. congruence.
Qed.

(** What is extracted is the one envelope of the response, and the flag is about the rest of it. *)
Lemma extract_sound response kind block b :
  extractEnvelope response = inr (kind, block, b) →
  a_kind kind ∧ ∃ p q, response = p +:+ wrap kind block +:+ q ∧ b = negb (String.eqb (TrimSpace (p +:+ q)) "")
    ∧ clean p ∧ clean q.
Proof.
  pose proof (scan_clean response) as Hclean.
  rw /extractEnvelope. destruct (scan_stands (String.length response) 0 response outside_ "") as [Hs Hsp]; [done|].
  change (scan_from (String.length response) 0 response outside_) with (scanEnvelopeTags response) in *.
  change ("" +:+ response) with response in *.
  destruct (scanEnvelopeTags response) as [|first tags]; [done|].
  destruct (_ =? 0)%nat; [done|]. destruct (1 <? _)%nat; [done|].
  destruct (tag_opening first) eqn:Ho; [|done]. destruct tags as [|second [|]]; [done| |done]. simpl.
  destruct (tag_opening second) eqn:Hc; [done|]. simpl. case_bool_decide as Hkind; [|done]. simpl. intros [= <- <- <-].
  apply Forall_cons in Hs as [[Hk (u & w & H1 & H2 & H3)] [[_ (u' & w' & H4 & H5 & H6)] _]%Forall_cons].
  destruct Hsp as (_ & Hsp & _). rw /tag_text Ho in H1 H3. rw /tag_text Hc -Hkind in H4 H6.
  destruct (app_split (u +:+ opening_tag (tag_kind first)) w u' (closing_tag (tag_kind first) +:+ w'))
    as (block & -> & ->).
  { by rw app_assoc_text -H1. }
  { rw length_app_text. lia. }
  split; [done|]. exists u, w'.
  assert (response = u +:+ wrap (tag_kind first) block +:+ w') as Hresp by by rw H1 /wrap !app_assoc_text.
  split.
  - replace (slice _ _ _) with block; [exact Hresp|].
    assert (tag_end first = String.length (u +:+ opening_tag (tag_kind first))) as ->
      by (rw H3 length_app_text; lia).
    rw /slice -H5 H4. generalize (u +:+ opening_tag (tag_kind first)). intros a.
    rw app_assoc_text drop_bytes_app length_app_text.
    replace (_ - _)%nat with (String.length block) by lia. by rw take_bytes_app.
  - assert (take_bytes (tag_start first) response = u) as Hu by (rw -H2 Hresp; apply take_bytes_app).
    assert (drop_bytes (tag_end second) response = w') as Hw
      by (by rw H6 -H5 H4 -length_app_text -app_assoc_text drop_bytes_app).
    rw -Hu -Hw. split; [done|]. by apply Hclean.
Qed.

(** C30: soundness.  An accepted response is, byte for byte, one envelope between two
    texts in which no tag occurs; its block is one JSON value without duplicate keys
    and with bounded nesting; what the response carries is what that value says, with
    the current protocol version; and an action, the only executable result, names a
    registered tool whose arguments the catalog accepts.  Whatever is not accepted
    carries a failure and nothing executable. *)
Theorem Parse_sound catalog response :
  let result := Parse catalog response in
  (res_Accepted result = true →
   ∃ kind p q block raw, let b := negb (String.eqb (TrimSpace (p +:+ q)) "") in
     a_kind kind ∧ response = p +:+ wrap kind block +:+ q ∧ clean p ∧ clean q
     ∧ (Z.of_nat (String.length response) ≤ maxResponseBytes)%Z
     ∧ parse block = Some raw ∧ rejectDuplicateObjectKeys raw = true
     ∧ match kind with
       | KindAction => ∃ action, result = accepted_action action b ∧ says_action raw action ∧ of_catalog catalog action
       | _ => ∃ final, result = accepted_final final b ∧ says_final raw final ∧ fin_Version final = Current
       end)
  ∧ (res_Accepted result = false ↔ res_Failure result ≠ None)
  ∧ (res_Executable result = true → res_Accepted result = true ∧ ∃ action, res_Action result = Some action).
Proof.
  rw /Parse /=. case_match eqn:Hlen; [by split_and!|]. apply Z.ltb_ge in Hlen.
  destruct (extractEnvelope response) as [code|[[kind block] b]] eqn:He; [by split_and!|].
  apply extract_sound in He as (Hk & p & q & Hr & -> & Hcp & Hcq).
  destruct (decodeSingleJSON block) as [raw|] eqn:Hd; [|by split_and!].
  assert (parse block = Some raw ∧ rejectDuplicateObjectKeys raw = true) as [Hp Hdup].
  { rw /decodeSingleJSON in Hd. destruct (parse block) as [v|]; [|done]. simpl in Hd.
    destruct (rejectDuplicateObjectKeys v) eqn:E; [|done]. by injection Hd as ->. }
  destruct Hk as [->| ->]; simpl.
  - destruct (parseAction_cases catalog raw (negb (String.eqb (TrimSpace (p +:+ q)) "")))
      as [(k & a & m & s & code & ->)|(action & -> & Hsays & Hc)]; [by split_and!|].
    split; [intros _|split; [done|intros _; split; [done|by eexists]]].
    exists KindAction, p, q, block, raw. split_and!; try done; [by left|by exists action].
  - destruct (parseFinal_cases raw (negb (String.eqb (TrimSpace (p +:+ q)) "")))
      as [(k & a & m & s & code & ->)|(final & -> & Hsays & Hc)]; [by split_and!|].
    split; [intros _|split; [done|by intros]].
    exists KindFinal, p, q, block, raw. split_and!; try done; [by right|by exists final].
Qed.
End envelopes.

(** ** Canonical values *)

Definition canonical_member (m : string * json) : string * json := (m.1, canonicalJSON m.2).

Lemma canonical_object members : canonicalJSON (JObject members) = JObject (order_members (canonical_member <$> members)).
Proof. cbn [canonicalJSON]. do 2 f_equal. apply list_fmap_ext. by intros i [key v]. Qed.

(** With distinct keys, the members in the order of their keys. *)
Lemma order_members_spec (l : list (string * json)) :
  NoDup l.*1 → order_members l = (λ key, (key, default JNull ((list_to_map l : Arguments) !! key))) <$> sort_Strings l.*1.
Proof.
  intros Hl. rw /order_members foldl_insert_list_to_map //. f_equal. apply sort_perm.
  by rw map_to_list_to_map.
Qed.

(** The order of the members of an object does not matter. *)
Lemma order_members_perm l k : NoDup l.*1 → l ≡ₚ k → order_members l = order_members k.
Proof.
  intros Hl Hp. assert (NoDup k.*1) as Hk by by rw -Hp.
  rw !order_members_spec // (list_to_map_proper l k) //. by rw (sort_perm l.*1 k.*1) // Hp.
Qed.

Lemma keys_ordered l : NoDup l.*1 → (order_members l).*1 = sort_Strings l.*1.
Proof. intros Hl. rw order_members_spec // -list_fmap_compose. apply (list_fmap_id (sort_Strings l.*1)). Qed.

(** Nothing is lost. *)
Lemma order_members_members l : NoDup l.*1 → order_members l ≡ₚ l.
Proof.
  intros Hl. rw order_members_spec //. rw (_ : sort_Strings l.*1 ≡ₚ l.*1); [apply merge_sort_Permutation|].
  rw -list_fmap_compose. erewrite (list_fmap_ext _ id); [by rw list_fmap_id|].
  intros i [key v] Hi%list_elem_of_lookup_2. simpl. by rw (elem_of_list_to_map_1 _ key v).
Qed.

Lemma order_members_inj l k : NoDup l.*1 → NoDup k.*1 → order_members l = order_members k ↔ l ≡ₚ k.
Proof.
  intros Hl Hk. split; [|by apply order_members_perm].
  intros E. by rw -(order_members_members l) // E order_members_members.
Qed.

(** The canonical object of a map of arguments. *)
Lemma canonical_arguments (m : Arguments) :
  canonicalJSON (JObject (map_to_list m)) = JObject (order_members (map_to_list (canonicalJSON <$> m))).
Proof.
  rw canonical_object. f_equal. apply order_members_perm.
  - rw -list_fmap_compose. apply NoDup_fst_map_to_list.
  - by rw map_to_list_fmap.
Qed.

Lemma canonical_arguments_inj (m n : Arguments) :
  canonicalJSON (JObject (map_to_list m)) = canonicalJSON (JObject (map_to_list n)) ↔ canonicalJSON <$> m = canonicalJSON <$> n.
Proof.
  rw !canonical_arguments. split; [|by intros ->]. intros [= E].
  apply order_members_inj in E; [|apply NoDup_fst_map_to_list..]. by apply map_to_list_inj.
Qed.

Lemma plain_object members :
  plain (JObject members) = true ↔ Forall (λ m, ascii_text m.1 = true ∧ plain m.2 = true) members.
Proof.
  cbn [plain]. rw forallb_forall Forall_forall. split; intros H [key v] Hm.
  - apply list_elem_of_In, H in Hm. by apply andb_true_iff in Hm.
  - apply andb_true_iff, (H (key, v)). by apply list_elem_of_In.
Qed.

Lemma plain_order l : plain (JObject l) = true → plain (JObject (order_members l)) = true.
Proof.
  rw !plain_object /order_members. intros Hl. apply Forall_fmap, Forall_forall. intros key Hkey.
  set (m := foldl _ ∅ l) in *.
  assert (map_Forall (λ k v, ascii_text k = true ∧ plain v = true) m) as Hm.
  { assert (∀ m : Arguments, map_Forall (λ k v, ascii_text k = true ∧ plain v = true) m →
      map_Forall (λ k v, ascii_text k = true ∧ plain v = true) (foldl (λ m '(key, value), <[key := value]> m) m l)) as H.
    { clear m Hkey. induction Hl as [|[k v] l Hkv Hl IH]; [done|]. intros n Hn. simpl. apply IH. by apply map_Forall_insert_2. }
    apply H, map_Forall_empty. }
  apply elem_of_sort, list_elem_of_fmap in Hkey as ([k v] & -> & Hin%elem_of_map_to_list). simpl. rw Hin. by apply Hm.
Qed.

Lemma plain_canonical v : plain v = true → plain (canonicalJSON v) = true.
Proof.
  induction v as [|b|text|s|values IH|members IH] using json_induction; try done.
  - cbn [plain canonicalJSON]. rw !forallb_forall. intros Hp v (w & -> & Hw)%list_elem_of_In%list_elem_of_fmap.
    rw Forall_forall in IH. apply IH; [done|]. by apply Hp, list_elem_of_In.
  - rw canonical_object. intros Hp%plain_object. apply plain_order, plain_object, Forall_fmap.
    apply Forall_forall. intros [k v] Hm. rw Forall_forall in Hp. rw Forall_forall in IH. destruct (Hp _ Hm). split; [done|].
    by apply (IH (k, v)).
Qed.

(** The action can be written. *)
Definition plain_action (action : Action) : Prop := plain (action_json action) = true.

Lemma plain_payload action : plain_action action → plain (fingerprint_payload action) = true.
Proof.
  rw /plain_action !plain_object !Forall_cons /=. intros (_ & [_ Ht] & [_ Ha] & _).
  split_and!; try done. apply (plain_canonical (JObject _)). exact Ha.
Qed.

