(* ===== verification/ProtocolScenarios.v ===== *)
(** * Responses of models, evaluated

    Concrete responses, and the instances of the laws on them. *)

From S2P Require Import Prelude GoTime Text Patch Json JsonLaws Protocol ProtocolLaws.
From Stdlib Require Import Ascii.

Local Open Scope runstead_scope.

(** Prose is never a refusal here; two tools without argument schemas; a hash
    that does not collide. *)
#[local] Instance plain_prose : Prose := {| refusalPattern := λ _, false; claimPattern := λ _, false |}.

Definition two_tools : ToolCatalog := {|
  ValidateArguments := λ tool _, (String.eqb tool "read_file" || String.eqb tool "write_file", false) |}.

#[local] Instance transparent : Hash := {| sha256_hex := λ text, text |}.

Definition surrounding : response_shape := {| before := "I will read it. "; after := " Done." |}.
Definition nothing_else : response_shape := {| before := ""; after := "" |}.

(** An argument that holds a closing tag. *)
Definition read_tagged : Action := {|
  act_Version := Current; act_Tool := "read_file";
  act_Arguments := {["path" := JString (quoted "^</runstead_action>^ a<b")]} |}%string.

Definition cited : FinalResponse := {|
  fin_Version := Current; fin_Status := StatusComplete; fin_Summary := "fixed";
  fin_Evidence := [{| ev_EvidenceID := "obs-1"; ev_Tool := "run_recipe" |}] |}.

Lemma Parse_action_roundtrip_witness :
  proper surrounding KindAction (action_json read_tagged) ∧
  Parse (Some two_tools) (respond surrounding KindAction (action_json read_tagged)) = accepted_action read_tagged true.
Proof.
  assert (proper surrounding KindAction (action_json read_tagged)) as H by (by vm_compute).
  split; [exact H|]. exact (Parse_action_roundtrip two_tools surrounding read_tagged eq_refl
    ltac:(discriminate) eq_refl H ltac:(split; by vm_compute)).
Defined.

Lemma Parse_final_roundtrip_witness :
  proper nothing_else KindFinal (final_json cited) ∧
  Parse None (respond nothing_else KindFinal (final_json cited)) = accepted_final cited false.
Proof.
  assert (proper nothing_else KindFinal (final_json cited)) as H by (by vm_compute).
  split; [exact H|]. exact (Parse_final_roundtrip None nothing_else cited eq_refl ltac:(discriminate)
    ltac:(repeat constructor; by vm_compute) H ltac:(split; by vm_compute)).
Defined.


(** The order of keys within an argument is not part of the identity. *)
Example nested_order :
  ActionFingerprint {| act_Version := Current; act_Tool := "t";
    act_Arguments := {["a" := JObject [("x", JNull); ("b", JBool true)]]} |}%string
  = ActionFingerprint {| act_Version := ""; act_Tool := "t";
    act_Arguments := {["a" := JObject [("b", JBool true); ("x", JNull)]]} |}%string.
Proof. by vm_compute. Qed.

(** A key that differs in case is no duplicate, and it overrides the field: the
    action that runs is not the one that its field [tool] names. *)
Example case_variant_overrides :
  (λ r, (res_Accepted r, act_Tool <$> res_Action r))
    (Parse (Some two_tools) (quoted "<runstead_action>{^version^:^runstead.protocol.v1^,^tool^:^read_file^,^TOOL^:^write_file^,^arguments^:{}}</runstead_action>"))
  = (true, Some "write_file"%string).
Proof. by vm_compute. Qed.

(** Failures of each stage. *)
Example failures :
  (λ response, pf_Code <$> res_Failure (Parse (Some two_tools) (quoted response))) <$>
    ["no envelope"; "<runstead_action>{}"; "</runstead_final>"; "<runstead_action>{}</runstead_final>";
     "<runstead_action>{}</runstead_action><runstead_final>{}</runstead_final>";
     "<runstead_action>{^a^:1,^a^:2}</runstead_action>"; "<runstead_action>{^a^:1}</runstead_action>";
     "<runstead_action>{^version^:^v0^,^tool^:^x^,^arguments^:{}}</runstead_action>";
     "<runstead_action>{^version^:^runstead.protocol.v1^,^tool^:^x^,^arguments^:{}}</runstead_action>";
     "<runstead_final>{^version^:^runstead.protocol.v1^,^status^:^complete^,^summary^:^^,^evidence^:[]}</runstead_final>"]%string
  = Some <$> [FailureMissingEnvelope; FailureUnclosedEnvelope; FailureUnclosedEnvelope; FailureMultipleEnvelopes;
     FailureMultipleEnvelopes; FailureMalformedJSON; FailureInvalidActionSchema; FailureUnsupportedProtocolVersion;
     FailureUnknownTool; FailureInvalidFinalSchema].
Proof. by vm_compute. Qed.

(** A repeated action is reported, whatever the order of its arguments. *)
Example repeated :
  (let '(first, seen) := Check ∅ read_tagged in (first, (Check seen read_tagged).1))
  = (None, Some {| pf_Code := FailureRepeatedAction; pf_CorrectionReasonable := true |}).
Proof. by vm_compute. Qed.

