(* ===== verification/Recipe.v ===== *)
(** * Recipes: operator-declared processes (internal/recipe)

    The catalog and its normalization, the digest that binds approvals to a
    definition, the environment of the child, bounded capture and evidence.
    Starting and killing processes is left to the operating system: [Run] builds
    its result from what was observed of the process. *)

From stdpp Require Import pretty.
From S2P Require Import Prelude GoTime Text Paths Json Protocol.
From Stdlib Require Import Ascii.

Local Open Scope runstead_scope.

(** ** Capabilities *)

Inductive Capability :=
  | CapabilityReadWorkspace | CapabilityWriteWorkspace | CapabilityTemporaryFiles | CapabilityExecuteRepoCode
  | CapabilityNetwork | CapabilityGitMetadata | CapabilityInheritEnvironment.

#[export] Instance Capability_eq_dec : EqDecision Capability.
Proof. solve_decision. Defined.

Definition capability_name (capability : Capability) : string :=
  match capability with
  | CapabilityReadWorkspace => "read_workspace"
  | CapabilityWriteWorkspace => "write_workspace"
  | CapabilityTemporaryFiles => "temporary_files"
  | CapabilityExecuteRepoCode => "execute_repository_code"
  | CapabilityNetwork => "network"
  | CapabilityGitMetadata => "git_metadata"
  | CapabilityInheritEnvironment => "inherit_environment"
  end.

Definition AllCapabilities : list Capability :=
  [CapabilityReadWorkspace; CapabilityWriteWorkspace; CapabilityTemporaryFiles; CapabilityExecuteRepoCode;
   CapabilityNetwork; CapabilityGitMetadata; CapabilityInheritEnvironment].

Definition ParseCapability (value : string) : option Capability :=
  List.find (λ capability, String.eqb (capability_name capability) value) AllCapabilities.

(** ** Recipes *)

Record OutputLimits := { MaxStdoutBytes : Z; MaxStderrBytes : Z }.

(** Capabilities are texts until the recipe is normalized. *)
Record Recipe := {
  ID : string;
  Executable : string;
  Argv : list string;
  WorkingDirectory : string;
  TimeoutNanos : Z;
  rc_OutputLimits : OutputLimits;
  Capabilities : list string;
  AllowedEnvironment : list string
}.

Definition DefaultTimeout : Z := 60000000000.
Definition DefaultMaxStdoutBytes : Z := 262144.
Definition DefaultMaxStderrBytes : Z := 262144.
Definition MaxOutputBytes : Z := 4194304.

Definition Timeout_ (r : Recipe) : Z := if (TimeoutNanos r <=? 0)%Z then DefaultTimeout else TimeoutNanos r.

(** ** Credential names *)

(** [strings.ToUpper], up to characters that are no ASCII letter in either
    case: small letters, the long s and the dotless i become ASCII letters. *)
Fixpoint ToUpper (s : string) : string :=
  match s with
  | EmptyString => EmptyString
  | String c s' =>
    let n := byte_of c in
    if ((97 <=? n) && (n <=? 122))%Z then String (byte (n - 32)) (ToUpper s')
    else
      match s' with
      | String d s2 =>
        if ((n =? 197) && (byte_of d =? 191))%Z then String "S" (ToUpper s2)
        else if ((n =? 196) && (byte_of d =? 177))%Z then String "I" (ToUpper s2)
        else String c (ToUpper s')
      | EmptyString => String c EmptyString
      end
  end.

(** [strings.Contains]. *)
Fixpoint Contains (s part : string) : bool :=
  String.prefix part s || match s with String _ s' => Contains s' part | EmptyString => false end.

Definition credentialNameMarkers : list string :=
  ["API_KEY"; "APISECRET"; "AUTHORIZATION"; "CHATGPT"; "CLIENT_SECRET"; "COOKIE"; "CREDENTIAL"; "OMNIROUTE";
   "PASSWD"; "PASSWORD"; "SECRET"; "SESSION"; "TOKEN"]%string.

Definition isCredentialName (name : string) : bool := existsb (Contains (ToUpper name)) credentialNameMarkers.

(** ** Normalization *)

Inductive RecipeError :=
  | ErrRecipeID | ErrExecutable | ErrExecutableTraverses | ErrDirectoryAbsolute | ErrDirectoryTraverses
  | ErrStdoutCap | ErrStderrCap | ErrCapability | ErrCredentialName | ErrInheritUndeclared
  | ErrDuplicateRecipe | ErrRecipeMissing | ErrNoCatalog | ErrCatalogJSON.

(** Errors and the result of the rest. *)
Definition andThen {E A B} (m : E + A) (k : A → E + B) : E + B :=
  match m with inl e => inl e | inr a => k a end.
Notation "x ←+ m ; k" := (andThen m (λ x, k)) (at level 20, m at level 100, k at level 200, right associativity)
  : runstead_scope.

Definition guard_ {E} (ok : bool) (e : E) : E + unit := if ok then inr tt else inl e.

Definition normalize_executable (executable : string) : RecipeError + string :=
  let executable := TrimSpace executable in
  _ ←+ guard_ (negb (String.eqb executable "")) ErrExecutable;
  let clean := Clean executable in
  _ ←+ guard_ (negb (String.eqb clean ".." || String.prefix "../" clean)) ErrExecutableTraverses;
  inr executable.

Definition normalize_directory (directory : string) : RecipeError + string :=
  let wd := TrimSpace directory in
  if String.eqb wd "" then inr directory
  else
    _ ←+ guard_ (negb (IsAbs wd)) ErrDirectoryAbsolute;
    _ ←+ guard_ (negb (existsb (String.eqb "..") (split_slash wd))) ErrDirectoryTraverses;
    inr (Clean wd).

Definition default_positive (value default : Z) : Z := if (value <=? 0)%Z then default else value.

Definition normalize_limits (limits : OutputLimits) : RecipeError + OutputLimits :=
  let out := default_positive (MaxStdoutBytes limits) DefaultMaxStdoutBytes in
  let err := default_positive (MaxStderrBytes limits) DefaultMaxStderrBytes in
  _ ←+ guard_ (out <=? MaxOutputBytes)%Z ErrStdoutCap;
  _ ←+ guard_ (err <=? MaxOutputBytes)%Z ErrStderrCap;
  inr {| MaxStdoutBytes := out; MaxStderrBytes := err |}.

(** The loop over capabilities, with those seen so far in order. *)
Fixpoint normalize_capabilities (seen : list Capability) (raw : list string) : RecipeError + list Capability :=
  match raw with
  | [] => inr seen
  | text :: raw =>
    match ParseCapability (TrimSpace text) with
    | None => inl ErrCapability
    | Some capability =>
      normalize_capabilities (if bool_decide (capability ∈ seen) then seen else seen ++ [capability]) raw
    end
  end.

(** The loop over names of the environment. *)
Fixpoint normalize_names (inherit : bool) (seen names : list string) : RecipeError + list string :=
  match names with
  | [] => inr seen
  | name :: names =>
    let name := TrimSpace name in
    if String.eqb name "" then normalize_names inherit seen names
    else if isCredentialName name then inl ErrCredentialName
    else if negb inherit then inl ErrInheritUndeclared
    else normalize_names inherit (if bool_decide (name ∈ seen) then seen else seen ++ [name]) names
  end.

Definition Normalize (r : Recipe) : RecipeError + Recipe :=
  let id := TrimSpace (ID r) in
  _ ←+ guard_ (negb (String.eqb id "")) ErrRecipeID;
  executable ←+ normalize_executable (Executable r);
  directory ←+ normalize_directory (WorkingDirectory r);
  limits ←+ normalize_limits (rc_OutputLimits r);
  capabilities ←+ normalize_capabilities [] (Capabilities r);
  names ←+ normalize_names (bool_decide (CapabilityInheritEnvironment ∈ capabilities)) [] (AllowedEnvironment r);
  inr {| ID := id; Executable := executable; Argv := Argv r; WorkingDirectory := directory;
         TimeoutNanos := default_positive (TimeoutNanos r) DefaultTimeout; rc_OutputLimits := limits;
         Capabilities := capability_name <$> capabilities; AllowedEnvironment := sort_Strings names |}.

(** ** The catalog *)

Abbreviation Catalog := (gmap string Recipe).

Fixpoint index_recipes (index : Catalog) (recipes : list Recipe) : RecipeError + Catalog :=
  match recipes with
  | [] => inr index
  | raw :: recipes =>
    normalized ←+ Normalize raw;
    match index !! ID normalized with
    | Some _ => inl ErrDuplicateRecipe
    | None => index_recipes (<[ID normalized := normalized]> index) recipes
    end
  end.

Definition NewCatalog (recipes : list Recipe) : RecipeError + Catalog := index_recipes ∅ recipes.

(** A nil catalog has no recipe. *)
Definition Get (c : option Catalog) (id : string) : option Recipe := c ≫= lookup id.

Definition IDs (c : option Catalog) : list string :=
  match c with None => [] | Some c => sort_Strings (map_to_list c).*1 end.

Definition Len (c : option Catalog) : nat := match c with None => 0 | Some c => size c end.

Fixpoint select_loop (c : Catalog) (seen : list string) (selected : list Recipe) (ids : list string)
    : RecipeError + list Recipe :=
  match ids with
  | [] => inr selected
  | id :: ids =>
    let id := TrimSpace id in
    if String.eqb id "" then inl ErrRecipeID
    else if bool_decide (id ∈ seen) then inl ErrDuplicateRecipe
    else
      match c !! id with
      | None => inl ErrRecipeMissing
      | Some recipe => select_loop c (id :: seen) (selected ++ [recipe]) ids
      end
  end.

Definition Select (c : option Catalog) (ids : list string) : RecipeError + Catalog :=
  match c with
  | None => inl ErrNoCatalog
  | Some c => selected ←+ select_loop c [] [] ids; NewCatalog selected
  end.

(** *** Decoding *)

Definition maxCatalogJSONDepth : nat := 64.

(** A list of strings; null leaves an element as it was. *)
Definition as_strings (v : json) (old : list string) : option (list string) :=
  match v with
  | JArray values => mapM id (imap (λ i value, as_string value (default ""%string (old !! i))) values)
  | JNull => Some []
  | _ => None
  end.

Definition decode_limits (v : json) (old : OutputLimits) : option OutputLimits :=
  decode_struct true ["max_stdout_bytes"; "max_stderr_bytes"]%string
    (λ name v limits,
      if String.eqb name "max_stdout_bytes"
      then n ← as_int64 v (MaxStdoutBytes limits); Some {| MaxStdoutBytes := n; MaxStderrBytes := MaxStderrBytes limits |}
      else n ← as_int64 v (MaxStderrBytes limits); Some {| MaxStdoutBytes := MaxStdoutBytes limits; MaxStderrBytes := n |})
    old v.

#[export] Instance Recipe_settable : Settable Recipe :=
  λ r, Build_Recipe (ID r) (Executable r) (Argv r) (WorkingDirectory r) (TimeoutNanos r) (rc_OutputLimits r)
         (Capabilities r) (AllowedEnvironment r).

Definition zero_recipe : Recipe := {|
  ID := ""; Executable := ""; Argv := []; WorkingDirectory := ""; TimeoutNanos := 0;
  rc_OutputLimits := {| MaxStdoutBytes := 0; MaxStderrBytes := 0 |}; Capabilities := []; AllowedEnvironment := [] |}.

Definition decode_recipe (v : json) : option Recipe :=
  decode_struct true
    ["id"; "executable"; "argv"; "working_directory"; "timeout_nanos"; "output_limits"; "capabilities";
     "allowed_environment"]%string
    (λ name v r,
      (if String.eqb name "id" then s ← as_string v (ID r); Some (r <| ID := s |>)
       else if String.eqb name "executable" then s ← as_string v (Executable r); Some (r <| Executable := s |>)
       else if String.eqb name "argv" then l ← as_strings v (Argv r); Some (r <| Argv := l |>)
       else if String.eqb name "working_directory"
       then s ← as_string v (WorkingDirectory r); Some (r <| WorkingDirectory := s |>)
       else if String.eqb name "timeout_nanos" then n ← as_int64 v (TimeoutNanos r); Some (r <| TimeoutNanos := n |>)
       else if String.eqb name "output_limits"
       then l ← decode_limits v (rc_OutputLimits r); Some (r <| rc_OutputLimits := l |>)
       else if String.eqb name "capabilities" then l ← as_strings v (Capabilities r); Some (r <| Capabilities := l |>)
       else l ← as_strings v (AllowedEnvironment r); Some (r <| AllowedEnvironment := l |>))%runstead)
    zero_recipe v.

Definition decode_recipes (v : json) : option (list Recipe) :=
  match v with
  | JArray values => mapM decode_recipe values
  | JNull => Some []
  | _ => None
  end.

(** One array, without duplicate keys. *)
Definition ParseCatalog (data : string) : RecipeError + Catalog :=
  match (v ← parse data; if strict maxCatalogJSONDepth 0 v then decode_recipes v else None) with
  | None => inl ErrCatalogJSON
  | Some recipes => NewCatalog recipes
  end.

(** ** Digests *)

Definition strings_json (l : list string) : json := JArray (JString <$> l).

(** A member that is left out when its list or text is empty. *)
Definition omit_strings (name : string) (l : list string) : list (string * json) :=
  match l with [] => [] | _ => [(name, strings_json l)] end.
Definition omit_string (name value : string) : list (string * json) :=
  if String.eqb value "" then [] else [(name, JString value)].

Definition digest_payload (r : Recipe) : json :=
  JObject
    ([("executable", JString (Executable r))] ++ omit_strings "argv" (Argv r)
     ++ omit_string "working_directory" (WorkingDirectory r)
     ++ [("capabilities", match Capabilities r with [] => JNull | l => strings_json l end)]
     ++ omit_strings "allowed_environment" (AllowedEnvironment r)
     ++ [("timeout_nanos", JNumber (pretty (Timeout_ r)));
         ("max_stdout_bytes", JNumber (pretty (MaxStdoutBytes (rc_OutputLimits r))));
         ("max_stderr_bytes", JNumber (pretty (MaxStderrBytes (rc_OutputLimits r))))])%list.

Definition line_feed : string := String (char 10) "".

Section digests.
Context `{Hash}.

Definition Recipe_Digest (r : Recipe) : string := sha256_hex (write_value (digest_payload r)).

Definition ApprovalFingerprint (recipeID digest : string) : string :=
  sha256_hex ("run_recipe" +:+ line_feed +:+ recipeID +:+ line_feed +:+ digest).

Definition Catalog_Digest (c : option Catalog) : string :=
  match c with
  | None => ""
  | Some m =>
    if (size m =? 0)%nat then ""
    else sha256_hex (String.concat line_feed
      (omap (λ id, (λ r, id +:+ "=" +:+ Recipe_Digest r) <$> Get c id) (IDs c)))
  end.
End digests.

(** ** The environment of the child *)

(** [strings.IndexByte(entry, '=')], with what stands around it. *)
Fixpoint cut_equals (entry : string) : option (string * string) :=
  match entry with
  | EmptyString => None
  | String c entry' =>
    if Ascii.eqb c "="%char then Some (""%string, entry')
    else '(name, value) ← cut_equals entry'; Some (String c name, value)
  end.

Definition parent_values (parent : list string) : gmap string string :=
  foldl (λ m entry,
    match cut_equals entry with
    | Some (name, value) => if String.eqb name "" then m else <[name := value]> m
    | None => m
    end) ∅ parent.

(** [add]: the first entry of a name stays. *)
Definition add_entry (env : list (string * string)) (name value : string) : list (string * string) :=
  if String.eqb name "" || bool_decide (name ∈ env.*1) then env else env ++ [(name, value)].

Definition declares_inherit (r : Recipe) : bool :=
  bool_decide (capability_name CapabilityInheritEnvironment ∈ Capabilities r).

(** The entries, as pairs of names and values. *)
Definition child_entries (parent : list string) (r : Recipe) : list (string * string) :=
  let values := parent_values parent in
  let env := add_entry [] "PATH" (default "/usr/bin:/bin"%string (values !! "PATH"%string)) in
  let env := add_entry env "RUNSTEAD_RECIPE_ID" (ID r) in
  if declares_inherit r then
    foldl (λ env name,
      if isCredentialName name then env
      else match values !! name with Some value => add_entry env name value | None => env end)
      env (AllowedEnvironment r)
  else env.

Definition BuildEnvironment (parent : list string) (r : Recipe) : list string :=
  (λ '(name, value), name +:+ "=" +:+ value) <$> child_entries parent r.

(** ** Bounded capture *)

Record boundedBuffer := { bb_limit : Z; bb_total : Z; bb_data : string }.

Definition bb_Write (data : string) (b : boundedBuffer) : boundedBuffer :=
  let length_ s := Z.of_nat (String.length s) in
  {| bb_limit := bb_limit b; bb_total := bb_total b + length_ data;
     bb_data :=
       if (length_ (bb_data b) <? bb_limit b)%Z then
         bb_data b +:+ take_bytes (Z.to_nat (Z.min (bb_limit b - length_ (bb_data b)) (length_ data))) data
       else bb_data b |}.

Definition bb_truncated (b : boundedBuffer) : bool := (Z.of_nat (String.length (bb_data b)) <? bb_total b)%Z.

(** ** Running *)

(** [Result]. *)
Record RunResult := {
  Started : bool;
  ExitCode : Z;
  Signal : string;
  Stdout : string;
  Stderr : string;
  StdoutBytes : Z;
  StderrBytes : Z;
  StdoutTruncated : bool;
  StderrTruncated : bool;
  TimedOut : bool;
  Canceled : bool;
  DurationNanos : Z;
  run_Err : option string
}.

(** What the operating system shows of one process: whether it started, what it
    wrote, how it ended, and the state of the contexts afterwards. *)
Record Process := {
  pr_start_error : option string;
  pr_stdout : list string;
  pr_stderr : list string;
  pr_exit : Z;
  pr_signal : string;
  pr_wait_error : option string;
  pr_deadline : bool;
  pr_parent_canceled : bool;
  pr_duration : Z
}.

Definition capture (limit : Z) (writes : list string) : boundedBuffer :=
  foldl (λ b data, bb_Write data b) {| bb_limit := limit; bb_total := 0; bb_data := "" |} writes.

Definition Run (r : Recipe) (p : Process) : RunResult :=
  match pr_start_error p with
  | Some err => {|
      Started := false; ExitCode := 0; Signal := ""; Stdout := ""; Stderr := ""; StdoutBytes := 0; StderrBytes := 0;
      StdoutTruncated := false; StderrTruncated := false; TimedOut := false; Canceled := false; DurationNanos := 0;
      run_Err := Some ("recipe process could not start: " +:+ err) |}
  | None =>
    let out := capture (MaxStdoutBytes (rc_OutputLimits r)) (pr_stdout p) in
    let err := capture (MaxStderrBytes (rc_OutputLimits r)) (pr_stderr p) in {|
      Started := true; ExitCode := pr_exit p; Signal := pr_signal p; Stdout := bb_data out; Stderr := bb_data err;
      StdoutBytes := bb_total out; StderrBytes := bb_total err; StdoutTruncated := bb_truncated out;
      StderrTruncated := bb_truncated err; TimedOut := pr_deadline p; Canceled := pr_parent_canceled p;
      DurationNanos := pr_duration p;
      run_Err := if pr_deadline p || pr_parent_canceled p then None else pr_wait_error p |}
  end.

(** ** Evidence *)

Record PolicyDecision := { pd_Decision : string; pd_Reason : string }.

Definition NetworkIsolationValue : string := "unenforced".

(** [Evidence]. *)
Record RecipeEvidence := {
  re_RecipeID : string;
  re_Executable : string;
  re_Argv : list string;
  re_WorkingDirectory : string;
  re_Capabilities : list string;
  re_Policy : PolicyDecision;
  re_Result : RunResult;
  re_NetworkIsolation : string;
  re_ActionID : string;
  re_ExecutionID : string;
  re_EvidenceID : string
}.

Definition BuildEvidence (r : Recipe) (workingDirectory : string) (policy : PolicyDecision) (result : RunResult)
    : RecipeEvidence := {|
  re_RecipeID := ID r; re_Executable := Executable r; re_Argv := Argv r; re_WorkingDirectory := workingDirectory;
  re_Capabilities := Capabilities r; re_Policy := policy; re_Result := result;
  re_NetworkIsolation := NetworkIsolationValue; re_ActionID := ""; re_ExecutionID := ""; re_EvidenceID := "" |}.
