(* ===== verification/RecipeLaws.v ===== *)
(** * Laws of recipes

    What normalization guarantees, what reaches the environment of a child, what
    is captured of its output, and what the digest of a definition identifies. *)

From stdpp Require Import pretty.
From S2P Require Import Prelude GoTime Text Paths Json JsonLaws Protocol ProtocolLaws Recipe.
From Stdlib Require Import Ascii.

Local Open Scope runstead_scope.

Lemma andThen_inr {E A B} (m : E + A) (k : A → E + B) b : andThen m k = inr b ↔ ∃ a, m = inr a ∧ k a = inr b.
Proof. destruct m as [e|a]; simpl; [naive_solver|]. split; [by exists a|by intros (? & [= <-] & ?)]. Qed.

Lemma guard_inr {E} ok (e : E) u : guard_ ok e = inr u ↔ ok = true.
Proof. destruct ok, u; naive_solver. Qed.

(** ** Normal recipes *)

Definition names_ok (r : Recipe) : Prop :=
  Sorted String.le (AllowedEnvironment r) ∧ NoDup (AllowedEnvironment r)
  ∧ Forall (λ name, name ≠ ""%string ∧ isCredentialName name = false) (AllowedEnvironment r)
  ∧ (AllowedEnvironment r ≠ [] → declares_inherit r = true).

Definition limits_ok (limits : OutputLimits) : Prop :=
  (0 < MaxStdoutBytes limits ≤ MaxOutputBytes)%Z ∧ (0 < MaxStderrBytes limits ≤ MaxOutputBytes)%Z.

(** What the rest of the program may rely on. *)
Definition well_formed (r : Recipe) : Prop :=
  ID r ≠ ""%string ∧ Executable r ≠ ""%string ∧ (0 < TimeoutNanos r)%Z ∧ limits_ok (rc_OutputLimits r)
  ∧ (∃ capabilities, Capabilities r = capability_name <$> capabilities ∧ NoDup capabilities) ∧ names_ok r.

Lemma default_positive_pos value d : (0 < d)%Z → (0 < default_positive value d)%Z.
Proof. rw /default_positive. case_match; lia. Qed.

Lemma normalize_limits_ok limits limits' : normalize_limits limits = inr limits' → limits_ok limits'.
Proof.
  rw /normalize_limits !andThen_inr. intros (u & H1%guard_inr & H). apply andThen_inr in H as (v & H2%guard_inr & [= <-]).
  apply Z.leb_le in H1, H2. split; simpl; (split; [by apply default_positive_pos|lia]).
Qed.

Lemma normalize_capabilities_ok raw seen result :
  NoDup seen → normalize_capabilities seen raw = inr result → NoDup result.
Proof.
  revert seen. induction raw as [|text raw IH]; intros seen Hs; simpl; [by intros [= <-]|].
  destruct (ParseCapability _) as [c|]; [|done]. apply IH. case_bool_decide; [done|].
  apply NoDup_app. split_and!; [done|set_solver|apply NoDup_singleton].
Qed.

Lemma normalize_names_ok inherit names seen result :
  NoDup seen → Forall (λ name, name ≠ ""%string ∧ isCredentialName name = false) seen →
  (seen ≠ [] → inherit = true) → normalize_names inherit seen names = inr result →
  NoDup result ∧ Forall (λ name, name ≠ ""%string ∧ isCredentialName name = false) result ∧ (result ≠ [] → inherit = true).
Proof.
  revert seen. induction names as [|name names IH]; intros seen Hn Hf Hi; simpl; [by intros [= <-]|].
  destruct (String.eqb_spec (TrimSpace name) ""); [by apply IH|]. destruct (isCredentialName _) eqn:Ec; [done|].
  destruct inherit; [|done]. simpl. case_bool_decide; [by apply IH|]. apply IH; [| |done].
  - apply NoDup_app. split_and!; [done|set_solver|apply NoDup_singleton].
  - apply Forall_app. split; [done|]. by constructor.
Qed.

Lemma Normalize_well_formed r r' : Normalize r = inr r' → well_formed r'.
Proof.
  rw /Normalize. intros (u & Hid%guard_inr & H)%andThen_inr. apply andThen_inr in H as (executable & He & H).
  apply andThen_inr in H as (directory & Hd & H). apply andThen_inr in H as (limits & Hl & H).
  apply andThen_inr in H as (capabilities & Hc & H). apply andThen_inr in H as (names & Hn & [= <-]).
  apply normalize_limits_ok in Hl. apply normalize_capabilities_ok in Hc; [|constructor].
  apply normalize_names_ok in Hn as (Hn1 & Hn2 & Hn3); [|constructor|constructor|done].
  rw /normalize_executable in He. apply andThen_inr in He as ([] & He%guard_inr & Hx).
  apply andThen_inr in Hx as (? & _ & [= <-]). apply negb_true_iff, String.eqb_neq in Hid, He.
  split_and!; try done; simpl; [by apply default_positive_pos|by exists capabilities|].
  split_and!; simpl.
  - apply Sorted_merge_sort. apply _.
  - by rw /sort_Strings merge_sort_Permutation.
  - by rw /sort_Strings merge_sort_Permutation.
  - intros Hne. rw /declares_inherit /=. apply bool_decide_eq_true. apply list_elem_of_fmap.
    exists CapabilityInheritEnvironment. split; [done|]. apply (bool_decide_eq_true_1 _), Hn3.
    intros ->. by apply Hne.
Qed.

Definition catalog_ok (c : Catalog) : Prop := map_Forall (λ id r, id = ID r ∧ well_formed r) c.

(** The catalog of normal recipes. *)
Definition catalog_of (normals : list Recipe) : Catalog := list_to_map ((λ r, (ID r, r)) <$> normals).

Lemma index_recipes_spec recipes index c :
  index_recipes index recipes = inr c ↔
  ∃ normals, Forall2 (λ r r', Normalize r = inr r') recipes normals ∧ NoDup (ID <$> normals)
    ∧ (∀ r, r ∈ normals → index !! ID r = None) ∧ c = catalog_of normals ∪ index.
Proof.
  revert index. induction recipes as [|raw recipes IH]; intros index; simpl.
  { split.
    - intros [= <-]. exists []. split_and!; [constructor|constructor|set_solver|by rw /catalog_of /= left_id_L].
    - intros (normals & ->%Forall2_nil_inv_l & _ & _ & ->). by rw /catalog_of /= left_id_L. }
  rw andThen_inr. split.
  - intros (r & Hr & H). destruct (index !! ID r) as [|] eqn:E; [done|].
    apply IH in H as (normals & H1 & H2 & H3 & ->). exists (r :: normals).
    assert (ID r ∉ ID <$> normals) as Hnot.
    { intros (r' & Hid & Hr')%list_elem_of_fmap. specialize (H3 _ Hr'). rw -Hid lookup_insert_eq in H3. done. }
    split_and!; [by constructor|by constructor| |].
    + intros r' [->|Hr']%elem_of_cons; [done|]. specialize (H3 _ Hr').
      apply lookup_insert_None in H3. tauto.
    + rw /catalog_of /=. rw -insert_union_l insert_union_r //.
      apply not_elem_of_list_to_map_1. rw -list_fmap_compose. exact Hnot.
  - intros (normals & H1 & H2 & H3 & ->). apply Forall2_cons_inv_l in H1 as (r & normals' & Hr & H1 & ->).
    apply NoDup_cons in H2 as [Hnot H2]. exists r. split; [done|]. rw H3; [by left|].
    apply IH. exists normals'. split_and!; try done.
    + intros r' Hr'. apply lookup_insert_None. split; [apply H3; by right|]. intros Hid. apply Hnot. rw Hid.
      by apply list_elem_of_fmap_2.
    + rw /catalog_of /=. rw -insert_union_l insert_union_r //.
      apply not_elem_of_list_to_map_1. rw -list_fmap_compose. exact Hnot.
Qed.

(** C35: the catalog.  A list of recipes is accepted exactly when each has a normal
    form and no two of these share an identifier; the catalog holds the normal
    forms under their identifiers.  Every recipe in it has bounded time and
    output, recognized capabilities without repetition, and an allowlist that is
    sorted, without repetition, without a name that looks like a credential, and
    empty unless the recipe declares that it inherits the environment. *)
Theorem NewCatalog_spec recipes c :
  (NewCatalog recipes = inr c ↔
   ∃ normals, Forall2 (λ r r', Normalize r = inr r') recipes normals ∧ NoDup (ID <$> normals) ∧ c = catalog_of normals)
  ∧ (NewCatalog recipes = inr c → catalog_ok c).
Proof.
  assert (NewCatalog recipes = inr c ↔
    ∃ normals, Forall2 (λ r r', Normalize r = inr r') recipes normals ∧ NoDup (ID <$> normals) ∧ c = catalog_of normals)
    as Hspec.
  { rw /NewCatalog index_recipes_spec. split.
    - intros (normals & ? & ? & _ & ->). exists normals. by rw right_id_L.
    - intros (normals & ? & ? & ->). exists normals. by rw right_id_L. }
  split; [exact Hspec|]. intros (normals & Hn & Hid & ->)%Hspec id r Hr.
  apply elem_of_list_to_map_2, list_elem_of_fmap in Hr as (r' & [= -> ->] & Hr'). split; [done|].
  apply list_elem_of_lookup in Hr' as [i Hi]. destruct (Forall2_lookup_r _ _ _ _ _ Hn Hi) as (raw & _ & Hraw).
  by eapply Normalize_well_formed.
Qed.

(** ** The environment *)

Lemma add_entry_fresh env name value :
  name ≠ ""%string → name ∉ env.*1 → add_entry env name value = env ++ [(name, value)].
Proof. intros H1 H2. rw /add_entry. destruct (String.eqb_spec name ""); [done|]. by rw bool_decide_eq_false_2. Qed.

Lemma add_entry_known env name value : name ∈ env.*1 → add_entry env name value = env.
Proof. intros H. rw /add_entry bool_decide_eq_true_2 // orb_true_r. done. Qed.

Definition reserved (name : string) : bool := String.eqb name "PATH" || String.eqb name "RUNSTEAD_RECIPE_ID".

(** One allowed name. *)
Definition inherit_one (parent : list string) (env : list (string * string)) (name : string) : list (string * string) :=
  if isCredentialName name then env
  else match parent_values parent !! name with Some value => add_entry env name value | None => env end.

(** What the parent hands down under a name. *)
Definition handed (parent names : list string) (name value : string) : Prop :=
  name ∈ names ∧ name ≠ ""%string ∧ isCredentialName name = false ∧ parent_values parent !! name = Some value.

(** An entry for each name that is handed down and not there yet. *)
Record extends (parent names : list string) (env env' : list (string * string)) : Prop := {
  ex_prefix : env `prefix_of` env';
  ex_once : NoDup env'.*1;
  ex_clean : Forall (λ name, isCredentialName name = false) env'.*1;
  ex_entries name value : (name, value) ∈ env' ↔ (name, value) ∈ env ∨ name ∉ env.*1 ∧ handed parent names name value
}.

Lemma inherit_one_extends parent env name :
  NoDup env.*1 → Forall (λ name, isCredentialName name = false) env.*1 →
  extends parent [name] env (inherit_one parent env name).
Proof.
  intros Hn Hc. rw /inherit_one.
  assert ((∀ value, ¬ (name ∉ env.*1 ∧ handed parent [name] name value)) → extends parent [name] env env) as Hno.
  { intros H. split; [done..|]. intros n v. split; [by left|]. intros [?|[H1 H2]]; [done|].
    destruct (proj1 (list_elem_of_singleton _ _) (proj1 H2)). by destruct (H v). }
  destruct (isCredentialName name) eqn:Ec; [apply Hno; intros v (_ & _ & _ & ? & _); congruence|].
  destruct (parent_values parent !! name) as [value|] eqn:Ev; [|apply Hno; intros v (_ & _ & _ & _ & ?); congruence].
  destruct (decide (name = ""%string)) as [->|Hne]; [apply Hno; by intros v (_ & _ & ? & _)|].
  destruct (decide (name ∈ env.*1)) as [Hin|Hin]; [rw add_entry_known //; apply Hno; by intros v (? & _)|].
  rw add_entry_fresh //. split.
  - by apply prefix_app_r.
  - rw fmap_app. apply NoDup_app. split_and!; [done| |apply NoDup_singleton].
    intros x Hx Hx'%list_elem_of_singleton. simpl in Hx'. by subst.
  - rw fmap_app. apply Forall_app. split; [done|]. by constructor.
  - intros n v. rw elem_of_app list_elem_of_singleton. split.
    + intros [?|[= -> ->]]; [by left|right]. split; [done|]. split_and!; [by apply list_elem_of_singleton|done..].
    + intros [?|(H1 & H2%list_elem_of_singleton & _ & _ & H3)]; [by left|right]. subst. congruence.
Qed.

Lemma inherit_extends parent names env :
  NoDup env.*1 → Forall (λ name, isCredentialName name = false) env.*1 →
  extends parent names env (foldl (inherit_one parent) env names).
Proof.
  revert env. induction names as [|name names IH]; intros env Hn Hc; simpl.
  { split; [done..|]. intros n v. split; [by left|]. intros [?|(_ & H & _)]; [done|by apply elem_of_nil in H]. }
  destruct (inherit_one_extends parent env name Hn Hc) as [P1 N1 C1 E1].
  destruct (IH _ N1 C1) as [P2 N2 C2 E2]. split; [by etrans|done..|]. intros n v. rw E2 E1.
  assert (n ∉ env.*1 → n ∈ (inherit_one parent env name).*1 → n = name) as Hnew.
  { intros Hnot ([n' w] & -> & Hw)%list_elem_of_fmap. apply E1 in Hw as [Hw|(_ & Hw%list_elem_of_singleton & _)]; [|done].
    destruct Hnot. apply list_elem_of_fmap. by exists (n', w). }
  split.
  - intros [[?|(H1 & H2%list_elem_of_singleton & H3)]|(H1 & H2 & H3)]; [by left|right..].
    + split; [done|]. subst. split; [by left|done].
    + split; [|by split; [right|]]. intros Hin. apply H1. destruct P1 as [more ->]. rw fmap_app. by apply elem_of_app; left.
  - intros [?|(H1 & H2 & H3)]; [by left; left|].
    destruct (decide (n ∈ (inherit_one parent env name).*1)) as [Hin|Hin].
    + left. right. split; [done|]. split; [|done]. apply list_elem_of_singleton. by apply Hnew.
    + right. split; [done|]. split; [|done]. apply elem_of_cons in H2 as [->|]; [|done].
      destruct Hin. apply list_elem_of_fmap. exists (name, v). split; [done|]. apply E1. right.
      split; [done|]. split; [by apply list_elem_of_singleton|done].
Qed.

(** C36: the environment of a child, for any recipe, normal or not.  It begins with
    PATH and the identifier of the recipe; there is one entry for a name at most, and
    none for a name that looks like a credential.  Another variable is there exactly
    when the recipe declares that it inherits variables, lists the name, and the
    parent has the variable with that value. *)
Theorem BuildEnvironment_spec parent r :
  let path := default "/usr/bin:/bin"%string (parent_values parent !! "PATH"%string) in
  ∃ entries, BuildEnvironment parent r = (λ '(name, value), name +:+ "=" +:+ value) <$> entries
    ∧ take 2 entries = [("PATH", path); ("RUNSTEAD_RECIPE_ID", ID r)]%string
    ∧ NoDup entries.*1 ∧ Forall (λ name, isCredentialName name = false) entries.*1
    ∧ ∀ name value, reserved name = false → (name, value) ∈ entries ↔
        declares_inherit r = true ∧ handed parent (AllowedEnvironment r) name value.
Proof.
  intros path. exists (child_entries parent r). split; [done|]. rw /child_entries.
  change (add_entry (add_entry [] "PATH" _) "RUNSTEAD_RECIPE_ID" (ID r))
    with ([("PATH", path); ("RUNSTEAD_RECIPE_ID", ID r)]%string).
  set (env := [("PATH", path); ("RUNSTEAD_RECIPE_ID", ID r)]%string).
  assert (NoDup env.*1) as Hn by (repeat constructor; set_solver).
  assert (Forall (λ name, isCredentialName name = false) env.*1) as Hc by (by repeat constructor).
  assert (∀ name, reserved name = false → name ∉ env.*1) as Hr.
  { intros name [E1%String.eqb_neq E2%String.eqb_neq]%orb_false_iff. rw /env. set_solver. }
  assert (∀ name value, reserved name = false → (name, value) ∉ env) as Hr'.
  { intros name value Hres Hin. apply (Hr _ Hres), list_elem_of_fmap. by exists (name, value). }
  destruct (declares_inherit r).
  - destruct (inherit_extends parent (AllowedEnvironment r) env Hn Hc) as [[more P] N C E]. rw /inherit_one in P N C E.
    split; [by rw P|]. split; [done|]. split; [done|]. intros name value Hres. rw E. split.
    + intros [Hin|[_ ?]]; [by destruct (Hr' name value)|done].
    + intros [_ ?]. right. split; [by apply Hr|done].
  - split_and!; [done..|]. intros name value Hres. split; [|by intros []]. intros Hin. by destruct (Hr' name value).
Qed.

(** ** Bounded capture *)

Lemma take_bytes_length n s : String.length (take_bytes n s) = Nat.min n (String.length s).
Proof. revert s. induction n as [|n IH]; intros [|c s]; simpl; [done..|]. by rw IH. Qed.

Lemma take_bytes_all n s : (String.length s ≤ n)%nat → take_bytes n s = s.
Proof. revert s. induction n as [|n IH]; intros [|c s]; simpl; [done|lia|done|]. intros H. rw IH //. lia. Qed.

Lemma take_bytes_app_gen n s t : take_bytes n (s +:+ t) = take_bytes n s +:+ take_bytes (n - String.length s) t.
Proof.
  revert s. induction n as [|n IH]; intros [|c s]; simpl; [by destruct t|done|done|].
  change (String c s +:+ t) with (String c (s +:+ t)). simpl. rw IH. done.
Qed.

(** A buffer that has seen [text]. *)
Definition seen_ (limit : Z) (text : string) : boundedBuffer := {|
  bb_limit := limit; bb_total := Z.of_nat (String.length text); bb_data := take_bytes (Z.to_nat limit) text |}.

Lemma bb_Write_seen limit text data : bb_Write data (seen_ limit text) = seen_ limit (text +:+ data).
Proof.
  rw /bb_Write /seen_ length_app_text take_bytes_app_gen. cbn [bb_limit bb_total bb_data].
  rw take_bytes_length. f_equal; [lia|]. case_match eqn:Hc.
  - apply Z.ltb_lt in Hc. f_equal.
    replace (Z.to_nat (Z.min _ _)) with (Nat.min (Z.to_nat limit - String.length text) (String.length data)) by lia.
    destruct (Nat.le_ge_cases (Z.to_nat limit - String.length text) (String.length data)) as [H|H].
    + by rw Nat.min_l.
    + by rw Nat.min_r // !take_bytes_all.
  - apply Z.ltb_ge in Hc. replace (Z.to_nat limit - String.length text)%nat with 0%nat by lia. by rw app_empty.
Qed.

Lemma concat_empty_cons s l : String.concat "" (s :: l) = s +:+ String.concat "" l.
Proof. destruct l; [by rw /= app_empty|done]. Qed.

(** Whatever pieces the output comes in, the buffer holds its first bytes and
    counts all of it. *)
Lemma capture_spec limit writes :
  (0 ≤ limit)%Z →
  let all := String.concat "" writes in
  capture limit writes = seen_ limit all
  ∧ bb_truncated (capture limit writes) = (limit <? Z.of_nat (String.length all))%Z.
Proof.
  intros Hl. cbv zeta. assert (∀ text, foldl (λ b data, bb_Write data b) (seen_ limit text) writes
    = seen_ limit (text +:+ String.concat "" writes)) as H.
  { induction writes as [|data writes IH]; intros text; [by rw app_empty|].
    cbn [foldl]. by rw bb_Write_seen IH concat_empty_cons app_assoc_text. }
  assert (capture limit writes = seen_ limit (String.concat "" writes)) as E.
  { specialize (H ""%string). rw /capture. rw -{1}H. f_equal. rw /seen_. by destruct (Z.to_nat limit). }
  split; [exact E|]. rw E /bb_truncated /seen_ /= take_bytes_length. apply eq_true_iff_eq. rw !Z.ltb_lt. lia.
Qed.

(** ** Digests *)

(** The value of a member. *)
Definition member (name : string) (v : json) : option json :=
  match v with
  | JObject members => snd <$> List.find (λ m, String.eqb m.1 name) members
  | _ => None
  end.

Definition list_member (l : list string) : option json := match l with [] => None | _ => Some (strings_json l) end.

Lemma digest_members r :
  let v := digest_payload r in
  member "executable" v = Some (JString (Executable r))
  ∧ member "argv" v = list_member (Argv r)
  ∧ member "working_directory" v
    = (if String.eqb (WorkingDirectory r) "" then None else Some (JString (WorkingDirectory r)))
  ∧ member "capabilities" v = Some (match Capabilities r with [] => JNull | l => strings_json l end)
  ∧ member "allowed_environment" v = list_member (AllowedEnvironment r)
  ∧ member "timeout_nanos" v = Some (JNumber (pretty (Timeout_ r)))
  ∧ member "max_stdout_bytes" v = Some (JNumber (pretty (MaxStdoutBytes (rc_OutputLimits r))))
  ∧ member "max_stderr_bytes" v = Some (JNumber (pretty (MaxStderrBytes (rc_OutputLimits r)))).
Proof.
  cbv zeta. rw /digest_payload /omit_strings /omit_string /list_member.
  destruct (Argv r), (String.eqb (WorkingDirectory r) ""), (AllowedEnvironment r); by split_and!.
Qed.

Lemma strings_json_inj l l' : strings_json l = strings_json l' → l = l'.
Proof.
  rw /strings_json. intros [= H]. revert l' H. induction l as [|x l IH]; intros [|x' l']; try done.
  intros [= -> H]. f_equal. by apply IH.
Qed.

Lemma list_member_inj l l' : list_member l = list_member l' → l = l'.
Proof.
  destruct l as [|x l], l' as [|x' l']; try done. intros H. apply (strings_json_inj (x :: l) (x' :: l')).
  exact (f_equal (default JNull) H).
Qed.

(** What a digest stands for: everything but the identifier. *)
Definition definition_of (r : Recipe) : Recipe := r <| ID := ""%string |> <| TimeoutNanos := Timeout_ r |>.

Lemma timeout_of_definition r : Timeout_ (definition_of r) = Timeout_ r.
Proof. rw /definition_of /Timeout_ /=. destruct (TimeoutNanos r <=? 0)%Z eqn:H; simpl; [done|by rw H]. Qed.

Lemma digest_payload_inj r r' : digest_payload r = digest_payload r' ↔ definition_of r = definition_of r'.
Proof.
  split.
  - intros Heq. destruct (digest_members r) as (H1 & H2 & H3 & H4 & H5 & H6 & H7 & H8).
    rw Heq in H1 H2 H3 H4 H5 H6 H7 H8. destruct (digest_members r') as (K1 & K2 & K3 & K4 & K5 & K6 & K7 & K8).
    rw K1 in H1. rw K2 in H2. rw K3 in H3. rw K4 in H4. rw K5 in H5. rw K6 in H6. rw K7 in H7. rw K8 in H8.
    injection H1 as H1. apply list_member_inj in H2, H5. apply (inj Some) in H4.
    apply (inj Some) in H6, H7, H8. injection H6 as H6. injection H7 as H7. injection H8 as H8.
    assert (Capabilities r' = Capabilities r) as H4'.
    { destruct (Capabilities r') as [|x l], (Capabilities r) as [|y k]; try done.
      by apply (strings_json_inj (x :: l) (y :: k)). }
    assert (WorkingDirectory r' = WorkingDirectory r) as H3'.
    { destruct (String.eqb_spec (WorkingDirectory r') "") as [?|?], (String.eqb_spec (WorkingDirectory r) "") as [?|?];
        congruence. }
    apply (inj pretty) in H6, H7, H8.
    destruct r as [? ? ? ? ? [] ? ?], r' as [? ? ? ? ? [] ? ?]. unfold definition_of, upd. simpl in *. congruence.
  - intros Heq. assert (∀ r, digest_payload r = digest_payload (definition_of r)) as H.
    { intros q. rw /digest_payload timeout_of_definition. done. }
    by rw H Heq -H.
Qed.

(** A recipe whose texts can be written. *)
Definition plain_recipe (r : Recipe) : Prop := plain (digest_payload r) = true.

(** Unless the hash collides on them, two recipes have one digest exactly when
    their definitions are the same but for the identifier and for the spelling of
    the default timeout. *)
Theorem Digest_identity `{Hash} r r' :
  plain_recipe r → plain_recipe r' →
  (let text := write_value (digest_payload r) in let text' := write_value (digest_payload r') in
   sha256_hex text = sha256_hex text' → text = text') →
  Recipe_Digest r = Recipe_Digest r' ↔ definition_of r = definition_of r'.
Proof.
  intros Hp Hp' Hh. rw /Recipe_Digest -digest_payload_inj. split; [|by intros ->].
  intros Heq%Hh%(f_equal parse). rw !parse_write // in Heq. by apply (inj Some) in Heq.
Qed.

(** ** Selection *)

(** A recipe that is its own normal form. *)
Definition settled (r : Recipe) : Prop := Normalize r = inr r.

Lemma select_loop_spec c seen selected ids result :
  select_loop c seen selected ids = inr result →
  ∃ chosen, result = selected ++ chosen ∧ Forall2 (λ id r, c !! TrimSpace id = Some r) ids chosen
    ∧ NoDup (TrimSpace <$> ids) ∧ (∀ id, id ∈ ids → TrimSpace id ∉ seen).
Proof.
  revert seen selected. induction ids as [|id ids IH]; intros seen selected; simpl.
  { intros [= <-]. exists []. rw app_nil_r. split_and!; [done|constructor|constructor|set_solver]. }
  destruct (String.eqb _ _); [done|]. case_bool_decide as Hs; [done|]. destruct (c !! _) as [r|] eqn:Hr; [|done].
  intros (chosen & -> & Hc & Hn & Hi)%IH. exists (r :: chosen). rw -app_assoc. split_and!; [done|by constructor| |].
  - constructor; [|done]. intros (x & Hx & Hin)%list_elem_of_fmap. specialize (Hi x Hin). rw -Hx in Hi. set_solver.
  - intros x [->|Hin]%elem_of_cons; [done|]. specialize (Hi x Hin). set_solver.
Qed.

(** When the recipes of a catalog are their own normal forms, a selection is the
    part of the catalog with the selected identifiers. *)
Lemma Select_restricts c ids selection :
  catalog_ok c → map_Forall (λ _, settled) c → Select (Some c) ids = inr selection →
  ∀ id, selection !! id = if bool_decide (id ∈ TrimSpace <$> ids) then c !! id else None.
Proof.
  intros Hok Hset. rw /Select. intros (chosen & Hsel & Hnew)%andThen_inr.
  apply select_loop_spec in Hsel as (chosen' & -> & Hc & Hn & _). simpl in Hnew.
  apply index_recipes_spec in Hnew as (normals & Hnorm & Hid & _ & ->). rw right_id_L.
  assert (normals = chosen') as ->.
  { clear -Hset Hc Hnorm. revert normals Hnorm. induction Hc as [|id r ids chosen Hr Hc IH]; intros normals Hnorm.
    - by apply Forall2_nil_inv_l in Hnorm.
    - apply Forall2_cons_inv_l in Hnorm as (r' & normals' & Hr' & Hnorm & ->). f_equal; [|by apply IH].
      apply Hset in Hr. rw Hr in Hr'. by injection Hr'. }
  intros id. case_bool_decide as Hin.
  - apply list_elem_of_fmap in Hin as (raw & -> & Hraw). apply list_elem_of_lookup in Hraw as [i Hi].
    destruct (Forall2_lookup_l _ _ _ _ _ Hc Hi) as (r & Hri & Hr). rw Hr.
    destruct (Hok _ _ Hr) as [Hidr _]. apply elem_of_list_to_map_1; [by rw -list_fmap_compose|].
    apply list_elem_of_fmap. exists r. rw Hidr. split; [done|]. by eapply list_elem_of_lookup_2.
  - apply not_elem_of_list_to_map_1. rw -list_fmap_compose. intros (r & -> & Hr)%list_elem_of_fmap. apply Hin.
    apply list_elem_of_lookup in Hr as [i Hi]. destruct (Forall2_lookup_r _ _ _ _ _ Hc Hi) as (raw & Hraw & Hr).
    destruct (Hok _ _ Hr) as [Hidr _]. simpl. rw -Hidr. apply list_elem_of_fmap_2. by eapply list_elem_of_lookup_2.
Qed.

(** A normal form that normalization changes once more: the directory keeps a
    space at its front, so a selection runs the recipe in another directory. *)
Definition spaced_recipe : Recipe :=
  {| ID := "t"; Executable := "go"; Argv := []; WorkingDirectory := "./ a"; TimeoutNanos := 0;
     rc_OutputLimits := {| MaxStdoutBytes := 0; MaxStderrBytes := 0 |}; Capabilities := []; AllowedEnvironment := [] |}.

Example selection_moves_directory :
  (c ←+ NewCatalog [spaced_recipe]; s ←+ Select (Some c) ["t"%string];
   inr (WorkingDirectory <$> Get (Some c) "t", WorkingDirectory <$> Get (Some s) "t"))
  = inr (Some " a"%string, Some "a"%string).
Proof. by vm_compute. Qed.

(** Dot-dot components in an executable are refused only when they lead. *)
Example executable_with_dots :
  normalize_executable "/opt/x/../../bin/sh" = inr "/opt/x/../../bin/sh"%string
  ∧ normalize_executable "a/../b" = inr "a/../b"%string ∧ normalize_executable "a/../../b" = inl ErrExecutableTraverses.
Proof. by vm_compute. Qed.
