(* ===== verification/Observations.v ===== *)
(** * Observations of tools (internal/tools/observation.go)

    The typed failures of tools, what an execution returns, and the evidence a
    write leaves. *)

From S2P Require Import Prelude GoTime Text Protocol Recipe.

Local Open Scope runstead_scope.

(** ** Failures *)

Inductive FailureCode :=
  | FailureUnknownTool | FailureInvalidArguments | FailureAbsolutePath | FailurePathTraversal | FailureSymlinkEscape
  | FailurePathNotFound | FailureWrongType | FailureBinaryFile | FailureInvalidUTF8 | FailureOutputTruncated
  | FailureNotGitRepository | FailureGitFailure | FailureSearchFailure | FailureReadFailure | FailureListFailure
  | FailureCanceled | FailureTimeout | FailureStaleState | FailureInvalidPatch | FailureWriteFailure
  | FailureWriteTooLarge | FailureUnknownRecipe | FailureRecipeStart | FailureNoRecipes.

#[export] Instance FailureCode_eq_dec : EqDecision FailureCode.
Proof. solve_decision. Defined.

Definition failure_code_text (code : FailureCode) : string :=
  match code with
  | FailureUnknownTool => "unknown_tool"
  | FailureInvalidArguments => "invalid_arguments"
  | FailureAbsolutePath => "absolute_path"
  | FailurePathTraversal => "path_traversal"
  | FailureSymlinkEscape => "symlink_escape"
  | FailurePathNotFound => "path_not_found"
  | FailureWrongType => "wrong_type"
  | FailureBinaryFile => "binary_file"
  | FailureInvalidUTF8 => "invalid_utf8"
  | FailureOutputTruncated => "output_truncated"
  | FailureNotGitRepository => "not_git_repository"
  | FailureGitFailure => "git_failure"
  | FailureSearchFailure => "search_failure"
  | FailureReadFailure => "read_failure"
  | FailureListFailure => "list_failure"
  | FailureCanceled => "canceled"
  | FailureTimeout => "timeout"
  | FailureStaleState => "stale_state"
  | FailureInvalidPatch => "invalid_patch"
  | FailureWriteFailure => "write_failure"
  | FailureWriteTooLarge => "write_too_large"
  | FailureUnknownRecipe => "unknown_recipe"
  | FailureRecipeStart => "recipe_start_failed"
  | FailureNoRecipes => "no_recipes_configured"
  end.

Definition failureMessages (code : FailureCode) : string :=
  match code with
  | FailureUnknownTool => "the requested tool is not registered"
  | FailureInvalidArguments => "the tool arguments are invalid"
  | FailureAbsolutePath => "absolute paths are not allowed"
  | FailurePathTraversal => "path traversal is not allowed"
  | FailureSymlinkEscape => "the path resolves outside the workspace"
  | FailurePathNotFound => "the requested path does not exist"
  | FailureWrongType => "the target has the wrong type"
  | FailureBinaryFile => "binary content is not returned as text"
  | FailureInvalidUTF8 => "invalid UTF-8 content is not returned as text"
  | FailureOutputTruncated => "the observation output was truncated"
  | FailureNotGitRepository => "the workspace is not a Git repository"
  | FailureGitFailure => "the Git observation failed"
  | FailureSearchFailure => "the text search failed"
  | FailureReadFailure => "the file could not be read"
  | FailureListFailure => "the directory could not be listed"
  | FailureCanceled => "the observation was canceled"
  | FailureTimeout => "the observation timed out"
  | FailureStaleState => "the file changed since the observed before-state; the write is refused"
  | FailureInvalidPatch => "the patch is malformed or cannot be applied deterministically"
  | FailureWriteFailure => "the write effect failed"
  | FailureWriteTooLarge => "the write target exceeds the configured bound"
  | FailureUnknownRecipe => "the requested recipe is not in the configured catalog"
  | FailureRecipeStart => "the recipe process could not start"
  | FailureNoRecipes => "no recipes are configured; run_recipe is unavailable"
  end.

Record Failure := { f_Code : FailureCode; f_Message : string }.

Definition newFailure (code : FailureCode) : Failure := {| f_Code := code; f_Message := failureMessages code |}.

Definition Failure_Error (f : Failure) : string := "tool failure: " +:+ failure_code_text (f_Code f).

(** ** What a tool returns *)

(** The fields of [Metadata] that the modelled tools set; the others are zero. *)
Record Metadata := {
  md_Source : string;
  md_Backend : string;
  md_Untrusted : bool;
  md_Path : string;
  md_SizeBytes : Z;
  md_BytesOriginal : Z;
  md_BytesReturned : Z;
  md_EntriesOriginal : Z;
  md_EntriesReturned : Z;
  md_MatchesOriginal : Z;
  md_MatchesReturned : Z;
  md_StdoutBytesOriginal : Z;
  md_StdoutBytesReturned : Z;
  md_StderrBytesOriginal : Z;
  md_StderrBytesReturned : Z;
  md_ExitCode : Z;
  md_Signal : string
}.

#[export] Instance Metadata_settable : Settable Metadata :=
  λ m, Build_Metadata (md_Source m) (md_Backend m) (md_Untrusted m) (md_Path m) (md_SizeBytes m) (md_BytesOriginal m)
         (md_BytesReturned m) (md_EntriesOriginal m) (md_EntriesReturned m) (md_MatchesOriginal m) (md_MatchesReturned m) (md_StdoutBytesOriginal m)
         (md_StdoutBytesReturned m) (md_StderrBytesOriginal m) (md_StderrBytesReturned m) (md_ExitCode m) (md_Signal m).

(** [Metadata{Source: source, ExitCode: -1}]. *)
Definition metadata_of (source : string) : Metadata := {|
  md_Source := source; md_Backend := ""; md_Untrusted := false; md_Path := ""; md_SizeBytes := 0; md_BytesOriginal := 0;
  md_BytesReturned := 0; md_EntriesOriginal := 0; md_EntriesReturned := 0; md_MatchesOriginal := 0; md_MatchesReturned := 0;
  md_StdoutBytesOriginal := 0;
  md_StdoutBytesReturned := 0; md_StderrBytesOriginal := 0; md_StderrBytesReturned := 0; md_ExitCode := -1;
  md_Signal := "" |}.

Record FileData := { fd_Path : string; fd_Content : string; fd_SHA256 : string }.

Inductive EntryType := EntryFile | EntryDirectory | EntrySymlink | EntryOther.

Record FileEntry := { fe_Path : string; fe_Type : EntryType; fe_Size : Z }.

Record ListData := { ld_Path : string; ld_Entries : list FileEntry }.

Record SearchMatch := { sm_Path : string; sm_Line : Z; sm_Text : string }.

Record SearchData := { sd_Matches : list SearchMatch; sd_SkippedBinaryFiles : Z; sd_SkippedInvalidUTF8 : Z }.

Record GitData := { gd_Stdout : string; gd_Stderr : string }.

(** ** Evidence of writes (write.go) *)

Inductive WriteOutcome :=
  | WriteSuccess | WriteNoop | WriteDenied | WriteInvalidArguments | WritePathViolation | WriteStale
  | WriteInvalidPatch | WriteFailed | WriteUncertain | WriteReconciliationReq | WriteHumanReviewReq.

Inductive ChangeKind := changeCreated | changeModified | changeUnchanged.

Record WriteEvidence := {
  we_Path : string;
  we_BeforeHash : string;
  we_AfterHash : string;
  we_ByteCount : Z;
  we_ChangeKind : ChangeKind;
  we_Outcome : WriteOutcome;
  we_Diff : string;
  we_DiffTruncated : bool;
  we_DiffBytes : Z;
  we_ActionID : string;
  we_ExecutionID : string;
  we_EvidenceID : string
}.

#[export] Instance WriteEvidence_settable : Settable WriteEvidence :=
  λ e, Build_WriteEvidence (we_Path e) (we_BeforeHash e) (we_AfterHash e) (we_ByteCount e) (we_ChangeKind e)
         (we_Outcome e) (we_Diff e) (we_DiffTruncated e) (we_DiffBytes e) (we_ActionID e) (we_ExecutionID e)
         (we_EvidenceID e).

(** The types that [Observation.Data] holds. *)
Inductive Data :=
  | NoData
  | DataFile (d : FileData)
  | DataList (d : ListData)
  | DataSearch (d : SearchData)
  | DataGit (d : GitData)
  | DataWrite (d : WriteEvidence)
  | DataRecipe (d : RecipeEvidence).

Record Observation := {
  ob_ID : string;
  ob_Tool : string;
  ob_Arguments : gmap string string;
  ob_Success : bool;
  ob_Data : Data;
  ob_Failure : option Failure;
  ob_Truncated : bool;
  ob_Metadata : Metadata
}.

#[export] Instance Observation_settable : Settable Observation :=
  λ o, Build_Observation (ob_ID o) (ob_Tool o) (ob_Arguments o) (ob_Success o) (ob_Data o) (ob_Failure o)
         (ob_Truncated o) (ob_Metadata o).

(** [observation.Failure = newFailure(code); return observation]. *)
Definition fails_with (o : Observation) (failure : Failure) : Observation := o <| ob_Failure := Some failure |>.
Abbreviation fails o code := (fails_with o (newFailure code)).
