(* ===== verification/Workspace.v ===== *)
(** * The workspace (internal/tools/workspace.go, write.go)

    The lexical functions of path/filepath that the tools use, the file system as
    an interface, a monad of calls to the operating system between which other
    processes may act, and the resolution of paths inside the workspace. *)

From S2P Require Import Prelude GoTime Text Paths Protocol Observations.
From Stdlib Require Import Ascii.

Local Open Scope runstead_scope.

(** ** Lexical paths, on a system whose separator is the slash *)

(** The proper parts of a path. *)
Definition parts (path : string) : list string := filter (λ p, p ≠ ""%string) (split_slash path).

(** [filepath.Join] of two elements. *)
Definition Join (a b : string) : string :=
  if String.eqb a "" then (if String.eqb b "" then "" else Clean b)%string
  else if String.eqb b "" then Clean a else Clean (a +:+ "/" +:+ b).

(** [filepath.Dir]: what stands up to the last separator, cleaned. *)
Definition Dir (path : string) : string :=
  let ps := split_slash path in Clean (join_slash (take (length ps - 1) ps ++ [""%string])).

(** [filepath.Base]. *)
Definition Base (path : string) : string :=
  if String.eqb path "" then "."%string else default "/"%string (last (parts path)).

(** Two lists without their common beginning. *)
Fixpoint strip_common (a b : list string) : list string * list string :=
  match a, b with
  | x :: a', y :: b' => if String.eqb x y then strip_common a' b' else (a, b)
  | _, _ => (a, b)
  end.

Definition parts_of_clean (path : string) : list string := if String.eqb path "." then [] else parts path.

(** [filepath.Rel]; an error is [None]. *)
Definition Rel (base target : string) : option string :=
  let base := Clean base in
  let target := Clean target in
  if String.eqb base target then Some "."%string
  else if negb (Bool.eqb (IsAbs base) (IsAbs target)) then None
  else
    let '(up, down) := strip_common (parts_of_clean base) (parts_of_clean target) in
    match up with
    | first :: _ =>
      if String.eqb first ".." then None else Some (join_slash (replicate (length up) ".."%string ++ down))
    | [] => Some (join_slash down)
    end.

(** [within]: the target is the root or below it. *)
Definition within (root candidate : string) : bool :=
  match Rel root candidate with
  | None => false
  | Some relative => negb (String.eqb relative "..") && negb (String.prefix "../" relative) && negb (IsAbs relative)
  end.

Example path_examples :
  Join "/w" "a/b" = "/w/a/b"%string ∧ Dir "/w/a/b" = "/w/a"%string ∧ Base "/w/a/b" = "b"%string
  ∧ Dir "/w" = "/"%string ∧ Dir "a" = "."%string ∧ Join "/w" "." = "/w"%string
  ∧ within "/w" "/w/..x" = true ∧ within "/w" "/wx" = false ∧ within "/w" "/w" = true ∧ within "/" "/x" = true.
Proof. by vm_compute. Qed.

(** ** The file system *)

Inductive IOError := ErrNotExist | ErrIO (message : string).

Inductive FileMode := ModeRegular (perm : Z) | ModeDir | ModeSymlink | ModeOther.

Definition IsRegular (mode : FileMode) : bool := match mode with ModeRegular _ => true | _ => false end.
Definition IsDir (mode : FileMode) : bool := match mode with ModeDir => true | _ => false end.
Definition is_symlink (mode : FileMode) : bool := match mode with ModeSymlink => true | _ => false end.

(** Functions of package os on absolute paths.  [CreateTemp] to [Close] act on a
    temporary file by its name. *)
Class FileSystem := {
  fs : Type;
  EvalSymlinks : string → fs → IOError + string;
  Lstat : string → fs → IOError + (FileMode * Z);
  Stat : string → fs → IOError + (FileMode * Z);
  ReadFile : string → fs → IOError + string;
  ReadDir : string → fs → IOError + list string;
  CreateTemp : string → fs → (IOError + string) * fs;
  WriteTo : string → string → fs → option IOError * fs;
  Chmod : string → Z → fs → option IOError * fs;
  Sync : string → fs → option IOError * fs;
  Close : string → fs → option IOError * fs;
  Remove : string → fs → fs;
  Rename : string → string → fs → option IOError * fs
}.

(** Files other than temporary ones are as they were. *)
Definition untouched `{FileSystem} (temp : string → Prop) (s s' : fs) : Prop :=
  ∀ p, ¬ temp p → ReadFile p s' = ReadFile p s ∧ Lstat p s' = Lstat p s ∧ EvalSymlinks p s' = EvalSymlinks p s.

(** Something that a rename may replace: a regular file, or nothing. *)
Definition replaceable `{FileSystem} (p : string) (s : fs) : Prop :=
  Lstat p s = inl ErrNotExist ∨ ∃ perm size, Lstat p s = inr (ModeRegular perm, size).

(** What is relied on: what is resolved is absolute and clean; calls on a temporary
    file touch no other file and keep what was written to it; a rename that
    succeeds puts its content in place, keeps what resolved and every other file
    that is named by its canonical path; one that fails changes nothing. *)
Class FileLaws `{FileSystem} := {
  temp : string → Prop;
  eval_absolute p s q : EvalSymlinks p s = inr q → IsAbs q = true ∧ Clean q = q;
  create_named dir s name : (CreateTemp dir s).1 = inr name → temp name;
  create_untouched dir s : untouched temp s (CreateTemp dir s).2;
  write_untouched name content s : temp name → untouched temp s (WriteTo name content s).2;
  chmod_untouched name perm s : temp name → untouched temp s (Chmod name perm s).2;
  sync_untouched name s : temp name → untouched temp s (Sync name s).2;
  close_untouched name s : temp name → untouched temp s (Close name s).2;
  remove_untouched name s : temp name → untouched temp s (Remove name s);
  write_read name content s : temp name → (WriteTo name content s).1 = None →
    ReadFile name (WriteTo name content s).2 = inr content;
  chmod_read name perm s : temp name → ReadFile name (Chmod name perm s).2 = ReadFile name s;
  sync_read name s : temp name → ReadFile name (Sync name s).2 = ReadFile name s;
  close_read name s : temp name → ReadFile name (Close name s).2 = ReadFile name s;
  rename_failed name p s : temp name → (Rename name p s).1 ≠ None → untouched temp s (Rename name p s).2;
  rename_done name p s content : temp name → ReadFile name s = inr content → replaceable p s →
    (Rename name p s).1 = None → let s' := (Rename name p s).2 in
    ReadFile p s' = inr content ∧ (∃ perm size, Lstat p s' = inr (ModeRegular perm, size))
    ∧ (∀ q c, ¬ temp q → EvalSymlinks q s = inr c → EvalSymlinks q s' = inr c)
    ∧ ∀ q, ¬ temp q → q ≠ p → EvalSymlinks q s = inr q → ReadFile q s' = ReadFile q s ∧ Lstat q s' = Lstat q s
}.

(** ** Calls, and what happens between them *)

Inductive ContextError := Canceled | DeadlineExceeded.

(** At the [n]-th call: what other processes did before it, whether this process
    dies before it, and the state of the context. *)
Class Environment `{FileSystem} := {
  interfere : nat → fs → fs;
  crashes : nat → bool;
  context_error : nat → option ContextError
}.

(** A rename that took place: where, what was put there, and the file system that
    the call found. *)
Record Renamed `{FileSystem} := { rn_path : string; rn_content : string; rn_call : nat; rn_before : fs }.

Record Machine `{FileSystem} := { m_fs : fs; m_calls : nat; m_renames : list Renamed }.

#[export] Instance Machine_settable `{FileSystem} : Settable Machine :=
  λ m, Build_Machine _ (m_fs m) (m_calls m) (m_renames m).

(** A computation that may end by the death of the process. *)
Definition Cmd `{FileSystem} (A : Type) : Type := Machine → option A * Machine.

#[export] Instance Cmd_ret `{FileSystem} : MRet Cmd := λ A a m, (Some a, m).
#[export] Instance Cmd_bind `{FileSystem} : MBind Cmd :=
  λ A B k c m, match c m with (Some a, m') => k a m' | (None, m') => (None, m') end.

Section calls.
Context `{Environment}.

(** One call: others act, then it happens, unless the process is dead. *)
Definition syscall {A} (f : fs → A * fs) : Cmd A := λ m,
  let s := interfere (m_calls m) (m_fs m) in
  if crashes (m_calls m) then (None, m <| m_fs := s |> <| m_calls ::= S |>)
  else let '(a, s') := f s in (Some a, m <| m_fs := s' |> <| m_calls ::= S |>).

Definition query {A} (f : fs → A) : Cmd A := syscall (λ s, (f s, s)).

(** [os.Rename], remembered when it takes place. *)
Definition rename_call (name path content : string) : Cmd (option IOError) := λ m,
  let s := interfere (m_calls m) (m_fs m) in
  if crashes (m_calls m) then (None, m <| m_fs := s |> <| m_calls ::= S |>)
  else
    let '(err, s') := Rename name path s in
    let m' := (m <| m_fs := s' |> <| m_calls ::= S |>)%runstead in
    (Some err,
     match err with
     | Some _ => m'
     | None => m' <| m_renames ::= λ l, l ++ [{| rn_path := path; rn_content := content; rn_call := m_calls m; rn_before := s |}] |>
     end).

(** [contextFailure(ctx)]. *)
Definition contextFailure : Cmd (option Failure) := λ m,
  (Some (match context_error (m_calls m) with
         | None => None
         | Some DeadlineExceeded => Some (newFailure FailureTimeout)
         | Some Canceled => Some (newFailure FailureCanceled)
         end), m).

(** An early return of a failure. *)
Definition or_fail {A B} (c : Cmd (Failure + A)) (k : A → Cmd (Failure + B)) : Cmd (Failure + B) :=
  r ← c; match r with inl failure => mret (inl failure) | inr a => k a end.

(** A failure of the tools becomes the failure of the observation. *)
Definition observed_or {A} (o : Observation) (c : Cmd (Failure + A)) (k : A → Cmd Observation) : Cmd Observation :=
  r ← c; match r with inl failure => mret (fails_with o failure) | inr a => k a end.

Definition reject {A} (code : FailureCode) : Cmd (Failure + A) := mret (inl (newFailure code)).
End calls.

Notation "x ←? m ; k" := (or_fail m (λ x, k)) (at level 20, m at level 100, k at level 200, right associativity)
  : runstead_scope.

(** ** Resolution

    [filepath.Abs] leaves the absolute paths it is given here as they are. *)

Definition path_failure (failure : Paths.Failure) : Failure :=
  newFailure match failure with
             | Paths.FailureInvalidArguments => FailureInvalidArguments
             | Paths.FailureAbsolutePath => FailureAbsolutePath
             | Paths.FailurePathTraversal => FailurePathTraversal
             end.

(** [normalizeRelativePath]. *)
Definition normalizeRelativePath (input : string) : Failure + string :=
  match NormalizeWorkspacePath input with inl failure => inl (path_failure failure) | inr clean => inr clean end.

Record resolvedPath := { rp_relative : string; rp_canonical : string; rp_mode : FileMode; rp_size : Z }.

(** [writePath]: the mode is that of the existing file. *)
Record writePath := { wp_relative : string; wp_canonical : string; wp_exists : bool; wp_perm : Z }.

Section resolution.
Context `{Environment}.

(** [errors.Is(err, fs.ErrNotExist)] decides between two failures. *)
Definition not_found_or_read (err : IOError) : Failure :=
  newFailure (match err with ErrNotExist => FailurePathNotFound | _ => FailureReadFailure end).

Definition workspace_resolve (root input : string) : Cmd (Failure + resolvedPath) :=
  relative ←? mret (normalizeRelativePath input);
  let candidate := Join root relative in
  if negb (within root candidate) then reject FailurePathTraversal
  else
    r ← query (EvalSymlinks candidate);
    match r with
    | inl err => mret (inl (not_found_or_read err))
    | inr canonical =>
      if negb (within root canonical) then reject FailureSymlinkEscape
      else
        info ← query (Stat canonical);
        match info with
        | inl err => mret (inl (not_found_or_read err))
        | inr (mode, size) => mret (inr {| rp_relative := relative; rp_canonical := Clean canonical; rp_mode := mode; rp_size := size |})
        end
    end.

Definition subRoot (root scope : string) : Failure + string :=
  match normalizeRelativePath scope with
  | inl failure => inl failure
  | inr normalized =>
    let candidate := Join root normalized in
    if within root candidate then inr (Clean candidate) else inl (newFailure FailurePathTraversal)
  end.

Definition resolveWrite (root input : string) : Cmd (Failure + writePath) :=
  relative ←? mret (normalizeRelativePath input);
  let candidate := Join root relative in
  if negb (within root candidate) then reject FailurePathTraversal
  else
    r ← query (EvalSymlinks (Dir candidate));
    match r with
    | inl err => mret (inl (not_found_or_read err))
    | inr parent =>
      if negb (within root parent) then reject FailureSymlinkEscape
      else
        let target := Join parent (Base candidate) in
        info ← query (Lstat target);
        match info with
        | inl ErrNotExist =>
          mret (inr {| wp_relative := relative; wp_canonical := Clean target; wp_exists := false; wp_perm := 0 |})
        | inl _ => reject FailureReadFailure
        | inr (ModeSymlink, _) => reject FailureSymlinkEscape
        | inr (ModeRegular perm, _) =>
          mret (inr {| wp_relative := relative; wp_canonical := Clean target; wp_exists := true; wp_perm := perm |})
        | inr _ => reject FailureWrongType
        end
    end.

Context `{Hash}.

Definition HashBytes (data : string) : string := sha256_hex data.

(** The hash of the whole file, whether it exists, and whether there was an error. *)
Definition hashFile (path : string) : Cmd (string * bool * bool) :=
  r ← query (ReadFile path);
  mret (match r with
        | inl ErrNotExist => (""%string, false, false)
        | inl _ => (""%string, true, true)
        | inr content => (HashBytes content, true, false)
        end).

(** [-1] when it cannot be determined. *)
Definition fileSize (path : string) : Cmd Z :=
  r ← query (Stat path); mret (match r with inl _ => -1 | inr (_, size) => size end)%Z.

(** The observer seam of the verifier. *)
Definition FileSHA256 (root input : string) : Cmd (Failure + string * bool) :=
  r ← workspace_resolve root input;
  match r with
  | inl failure => mret (if bool_decide (f_Code failure = FailurePathNotFound) then inr (""%string, false) else inl failure)
  | inr resolved =>
    '(hash, present, err) ← hashFile (rp_canonical resolved);
    mret (if err : bool then inl (newFailure FailureReadFailure) else inr (hash, present))
  end.
End resolution.
