(* ===== verification/ToolArguments.v ===== *)
(** * Tools, their limits and their arguments (internal/tools/registry.go, execute.go, write.go) *)

From S2P Require Import Prelude GoTime Text Paths Json Protocol Recipe Observations Workspace.
From Stdlib Require Import Ascii.

Local Open Scope runstead_scope.

Definition ToolReadFile : string := "read_file".
Definition ToolListFiles : string := "list_files".
Definition ToolSearchText : string := "search_text".
Definition ToolGitStatus : string := "git_status".
Definition ToolGitDiff : string := "git_diff".
Definition ToolWriteFile : string := "write_file".
Definition ToolApplyPatch : string := "apply_patch".
Definition ToolRunRecipe : string := "run_recipe".

Record Limits := {
  MaxReadBytes : Z;
  MaxListEntries : Z;
  MaxSearchMatches : Z;
  MaxSearchBytes : Z;
  MaxGitStdoutBytes : Z;
  MaxGitStderrBytes : Z;
  MaxWriteBytes : Z;
  MaxPatchBytes : Z;
  MaxPatchTargetBytes : Z;
  MaxDiffBytes : Z;
  SearchTimeout : Z;
  GitTimeout : Z
}.

Definition DefaultLimits : Limits := {|
  MaxReadBytes := 65536; MaxListEntries := 256; MaxSearchMatches := 256; MaxSearchBytes := 131072;
  MaxGitStdoutBytes := 65536; MaxGitStderrBytes := 16384; MaxWriteBytes := 262144; MaxPatchBytes := 131072;
  MaxPatchTargetBytes := 4194304; MaxDiffBytes := 8192; SearchTimeout := 2000000000; GitTimeout := 2000000000 |}.

Definition limit_fields : list (Limits → Z) :=
  [MaxReadBytes; MaxListEntries; MaxSearchMatches; MaxSearchBytes; MaxGitStdoutBytes; MaxGitStderrBytes;
   MaxWriteBytes; MaxPatchBytes; MaxPatchTargetBytes; MaxDiffBytes; SearchTimeout; GitTimeout].

(** Zero fields take their default; a negative one is an error. *)
Definition normalizeLimits (limits : Limits) : option Limits :=
  let or_default (field : Limits → Z) := if (field limits =? 0)%Z then field DefaultLimits else field limits in
  let limits' := {|
    MaxReadBytes := or_default MaxReadBytes; MaxListEntries := or_default MaxListEntries;
    MaxSearchMatches := or_default MaxSearchMatches; MaxSearchBytes := or_default MaxSearchBytes;
    MaxGitStdoutBytes := or_default MaxGitStdoutBytes; MaxGitStderrBytes := or_default MaxGitStderrBytes;
    MaxWriteBytes := or_default MaxWriteBytes; MaxPatchBytes := or_default MaxPatchBytes;
    MaxPatchTargetBytes := or_default MaxPatchTargetBytes; MaxDiffBytes := or_default MaxDiffBytes;
    SearchTimeout := or_default SearchTimeout; GitTimeout := or_default GitTimeout |} in
  if existsb (λ field, field limits' <? 0)%Z limit_fields then None else Some limits'.

(** The view of a registry: workspace, limits, recipes and capability envelope.  The
    counter of observations is shared between views and is passed separately. *)
Record Registry := {
  rg_root : string;
  rg_limits : Limits;
  rg_rgPath : string;
  rg_recipes : option Catalog;
  rg_allowed : option (gset string)
}.

#[export] Instance Registry_settable : Settable Registry :=
  λ r, Build_Registry (rg_root r) (rg_limits r) (rg_rgPath r) (rg_recipes r) (rg_allowed r).

Definition WithRecipes (catalog : option Catalog) (r : Registry) : Registry := r <| rg_recipes := catalog |>.

Definition Recipe_of (r : Registry) (id : string) : option Recipe := Get (rg_recipes r) id.

Definition IsWriteTool (tool : string) : bool := String.eqb tool ToolWriteFile || String.eqb tool ToolApplyPatch.
Definition IsRecipeTool (tool : string) : bool := String.eqb tool ToolRunRecipe.
Definition IsPolicyGated (tool : string) : bool := IsWriteTool tool || IsRecipeTool tool.

Definition Allows (r : Registry) (tool : string) : bool :=
  match rg_allowed r with None => true | Some allowed => bool_decide (tool ∈ allowed) end.

(** The texts that are not blank, trimmed. *)
Definition trimmed_set (tools : list string) : gset string :=
  list_to_set (filter (λ t, t ≠ ""%string) (TrimSpace <$> tools)).

Definition Restricted (r : Registry) (allowed : list string) (workspaceScope : string) : Failure + Registry :=
  match (if String.eqb (TrimSpace workspaceScope) "" then inr (rg_root r) else subRoot (rg_root r) workspaceScope) with
  | inl failure => inl failure
  | inr root => inr {| rg_root := root; rg_limits := rg_limits r; rg_rgPath := rg_rgPath r;
                 rg_recipes := rg_recipes r; rg_allowed := Some (trimmed_set allowed) |}
  end.

(** ** Arguments *)

(** A string; null decodes to the empty one. *)
Definition stringArgumentAllowEmpty (arguments : Arguments) (name : string) : Failure + string :=
  match arguments !! name ≫= (λ raw, as_string raw "") with
  | Some value => inr value
  | None => inl (newFailure FailureInvalidArguments)
  end.

Definition stringArgument (arguments : Arguments) (name : string) : Failure + string :=
  match stringArgumentAllowEmpty arguments name with
  | inr value => if String.eqb value "" then inl (newFailure FailureInvalidArguments) else inr value
  | failure => failure
  end.

Definition AbsentBeforeHash : string := "absent".

Definition hash_digit (c : ascii) : bool :=
  let n := byte_of c in (((48 <=? n) && (n <=? 57)) || ((97 <=? n) && (n <=? 102)))%Z.

Fixpoint all_digits (s : string) : bool :=
  match s with EmptyString => true | String c s' => hash_digit c && all_digits s' end.

Definition validBeforeHash (value : string) : bool :=
  String.eqb value AbsentBeforeHash || ((String.length value =? 64)%nat && all_digits value).

(** Registered, and the failure of the arguments. *)
Definition invalid : bool * option Failure := (true, Some (newFailure FailureInvalidArguments)).

Definition with_argument (argument : Failure + string) (k : string → bool * option Failure) : bool * option Failure :=
  match argument with inl failure => (true, Some failure) | inr value => k value end.

Definition path_argument (value : string) (k : bool * option Failure) : bool * option Failure :=
  match normalizeRelativePath value with inl failure => (true, Some failure) | inr _ => k end.

Definition longer_than (limit : Z) (s : string) : bool := (limit <? Z.of_nat (String.length s))%Z.

(** The last argument of the tools that write. *)
Definition written_argument (r : Registry) (tool : string) (arguments : Arguments) : bool * option Failure :=
  if String.eqb tool ToolWriteFile then
    match stringArgumentAllowEmpty arguments "content" with
    | inl _ => invalid
    | inr content => if longer_than (MaxWriteBytes (rg_limits r)) content then invalid else (true, None)
    end
  else
    match stringArgumentAllowEmpty arguments "patch" with
    | inl _ => invalid
    | inr patch =>
      if String.eqb (TrimSpace patch) "" || longer_than (MaxPatchBytes (rg_limits r)) patch then invalid else (true, None)
    end.

Definition ValidateArguments_ (r : Registry) (tool : string) (arguments : Arguments) : bool * option Failure :=
  let n := size arguments in
  if negb (Allows r tool) then (false, None)
  else if String.eqb tool ToolReadFile || String.eqb tool ToolListFiles then
    if negb (n =? 1)%nat then invalid
    else with_argument (stringArgument arguments "path") (λ value, path_argument value (true, None))
  else if String.eqb tool ToolSearchText then
    if negb (n =? 2)%nat then invalid
    else
      match stringArgument arguments "query" with
      | inl _ => invalid
      | inr query =>
        if has_nul query then invalid
        else with_argument (stringArgument arguments "path") (λ path, path_argument path (true, None))
      end
  else if String.eqb tool ToolGitStatus || String.eqb tool ToolGitDiff then
    if negb (n =? 0)%nat then invalid else (true, None)
  else if IsWriteTool tool then
    if negb (n =? 3)%nat then invalid
    else
      with_argument (stringArgument arguments "path") (λ path, path_argument path
        match stringArgument arguments "expected_before_hash" with
        | inl _ => invalid
        | inr expected => if validBeforeHash expected then written_argument r tool arguments else invalid
        end)
  else if IsRecipeTool tool then
    if negb (n =? 1)%nat then invalid else with_argument (stringArgument arguments "recipe") (λ _, (true, None))
  else (false, None).

(** The catalog of tools that the protocol consults. *)
Definition registry_catalog (r : Registry) : ToolCatalog := {|
  ValidateArguments := λ tool arguments, let '(registered, err) := ValidateArguments_ r tool arguments in
    (registered, bool_decide (is_Some err)) |}.

(** ** The arguments as an observation shows them *)

(** Pairs of names and values, unless one of them is missing. *)
Definition normalized_path (arguments : Arguments) : option string :=
  match stringArgument arguments "path" with
  | inr path => match normalizeRelativePath path with inr normalized => Some normalized | inl _ => None end
  | inl _ => None
  end.

Definition optional_argument (argument : Failure + string) : option string :=
  match argument with inr value => Some value | inl _ => None end.

Definition normalizedArguments (action : Action) : gmap string string :=
  let tool := act_Tool action in
  let arguments := act_Arguments action in
  default ∅
    (if String.eqb tool ToolReadFile || String.eqb tool ToolListFiles then
       path ← normalized_path arguments; Some {["path"%string := path]}
     else if String.eqb tool ToolSearchText then
       query ← optional_argument (stringArgument arguments "query");
       path ← normalized_path arguments;
       Some (<["query"%string := query]> {["path"%string := path]})
     else if IsWriteTool tool then
       expected ← optional_argument (stringArgument arguments "expected_before_hash");
       path ← normalized_path arguments;
       let name := (if String.eqb tool ToolWriteFile then "content" else "patch")%string in
       let base : gmap string string := <["expected_before_hash"%string := expected]> {["path"%string := path]} in
       Some (match stringArgumentAllowEmpty arguments name with inr value => <[name := value]> base | inl _ => base end)
     else if IsRecipeTool tool then
       recipe ← optional_argument (stringArgument arguments "recipe"); Some {["recipe"%string := recipe]}
     else Some ∅).
