(* ===== verification/Writing.v ===== *)
(** * Write effects (internal/tools/write.go, write_file.go)

    The two writing tools as sequences of calls, the plan recorded before them and
    the reconciliation after an interruption. *)

From stdpp Require Import pretty.
From S2P Require Import Prelude GoTime Text Paths Patch Json Protocol Recipe Observations Workspace ToolArguments.

Local Open Scope runstead_scope.

(** ** Diffs *)

(** [boundedDiff]. *)
Definition boundedDiff (diff : string) (limit : Z) : string * Z * bool :=
  let n := Z.of_nat (String.length diff) in
  if (n <=? limit)%Z then (diff, n, false) else (take_bytes (Z.to_nat limit) diff, n, true).

Definition marked_lines (mark : string) (lines : list string) : string :=
  String.concat "" ((λ line, mark +:+ line +:+ line_feed) <$> lines).

Definition replacementDiffText (path before after : string) : string :=
  let old := contentLines before in
  let new := contentLines after in
  "--- " +:+ path +:+ line_feed +:+ "+++ " +:+ path +:+ line_feed +:+ "@@ -1," +:+ pretty (length old)
  +:+ " +1," +:+ pretty (length new) +:+ " @@" +:+ line_feed
  +:+ marked_lines "-" old +:+ marked_lines "+" new.

Definition changeKindFor (before after : string) : ChangeKind :=
  if String.eqb before AbsentBeforeHash then changeCreated
  else if String.eqb before after then changeUnchanged else changeModified.

Definition outcomeFor (before after : string) : WriteOutcome :=
  if String.eqb before after then WriteNoop else WriteSuccess.

(** What atomicWrite returns: a failure of the tools, or another error. *)
Inductive EffectError := Typed (failure : Failure) | Untyped (err : IOError).

Definition writeEffectFailure (err : EffectError) : Failure :=
  match err with
  | Typed failure => failure
  | Untyped ErrNotExist => newFailure FailurePathNotFound
  | Untyped (ErrIO message) =>
    {| f_Code := FailureWriteFailure; f_Message := failureMessages FailureWriteFailure +:+ ": " +:+ message |}
  end.

Record PlannedEffect := { pe_Diff : string; pe_DiffBytes : Z; pe_DiffTruncated : bool }.

Definition no_effect : PlannedEffect := {| pe_Diff := ""; pe_DiffBytes := 0; pe_DiffTruncated := false |}.
Definition planned_effect (diff : string) (limit : Z) : PlannedEffect :=
  let '(text, n, truncated) := boundedDiff diff limit in
  {| pe_Diff := text; pe_DiffBytes := n; pe_DiffTruncated := truncated |}.

Record PlannedWrite := { pw_AfterHash : string; pw_Effect : PlannedEffect }.

Section writing.
Context `{Environment} `{Hash}.

(** [revalidateWriteTarget]: the failure, if any. *)
Definition revalidateWriteTarget (root path expectedBefore : string) (original : writePath) : Cmd (option Failure) :=
  r ← resolveWrite root path;
  match r with
  | inl failure => mret (Some failure)
  | inr revalidated =>
    if negb (String.eqb (wp_canonical revalidated) (wp_canonical original)) then mret (Some (newFailure FailureSymlinkEscape))
    else
      let compare current :=
        if String.eqb current expectedBefore then None else Some (newFailure FailureStaleState) in
      if wp_exists revalidated then
        '(hash, exists_, err) ← hashFile (wp_canonical revalidated);
        mret (if (err : bool) || negb exists_ then Some (newFailure FailureReadFailure) else compare hash)
      else mret (compare AbsentBeforeHash)
  end.

(** A step on the temporary file: an error closes and removes it. *)
Definition temp_step (name : string) (close : bool) (step : Cmd (option IOError)) (k : Cmd (option EffectError))
    : Cmd (option EffectError) :=
  err ← step;
  match err with
  | None => k
  | Some e =>
    _ ← (if close then _ ← syscall (Close name); mret tt else mret tt);
    _ ← syscall (λ s, (tt, Remove name s));
    mret (Some (Untyped e))
  end.

(** The rest of [atomicWrite] once the temporary file is complete. *)
Definition abort_write (name : string) (err : EffectError) : Cmd (option EffectError) :=
  _ ← syscall (λ s, (tt, Remove name s)); mret (Some err).

Definition atomicWrite (path content : string) (existingMode : Z) (revalidate : Cmd (option Failure))
    : Cmd (option EffectError) :=
  let mode := (if existingMode =? 0 then 420 else existingMode mod 512)%Z in
  r ← syscall (CreateTemp (Dir path));
  match r with
  | inl err => mret (Some (Untyped err))
  | inr name =>
    temp_step name true (syscall (WriteTo name content))
    (temp_step name true (syscall (Chmod name mode))
    (temp_step name true (syscall (Sync name))
    (temp_step name false (syscall (Close name))
    (canceled ← contextFailure;
     match canceled with
     | Some failure => abort_write name (Untyped (ErrIO (failure_code_text (f_Code failure))))
     | None =>
       stale ← revalidate;
       match stale with
       | Some failure => abort_write name (Typed failure)
       | None => temp_step name false (rename_call name path content) (mret None)
       end
     end))))
  end.

(** ** The two effects

    The arguments of both: the resolved target, the hash found there and the
    content to be written. *)
Record effect := {
  ef_path : string;
  ef_target : writePath;
  ef_before : string;
  ef_expected : string;
  ef_content : string;
  ef_after : string;
  ef_changed : bool
}.

(** The last steps of both tools, from the check of the context on: the hash that is observed
    at the end. *)
Definition perform_effect (root : string) (e : effect) : Cmd (Failure + string) :=
  let target := ef_target e in
  let revalidate := revalidateWriteTarget root (ef_path e) (ef_expected e) target in
  canceled ← contextFailure;
  match canceled with
  | Some failure => mret (inl failure)
  | None =>
    stale ← revalidate;
    match stale with
    | Some failure => mret (inl failure)
    | None =>
      err ← (if ef_changed e then
               r ← atomicWrite (wp_canonical target) (ef_content e) (wp_perm target) revalidate;
               mret (writeEffectFailure <$> r)
             else revalidate);
      match err with
      | Some failure => mret (inl failure)
      | None =>
        '(observed, exists_, readErr) ← hashFile (wp_canonical target);
        mret (if (readErr : bool) || negb exists_ || (ef_changed e && negb (String.eqb observed (ef_after e)))
              then inl (newFailure FailureWriteFailure) else inr observed)
      end
    end
  end.

(** The observation of an effect that took place. *)
Definition written (o : Observation) (tool : string) (e : effect) (observed diff : string) (limit : Z) : Observation :=
  let '(text, n, truncated) := boundedDiff diff limit in
  let size := Z.of_nat (String.length (ef_content e)) in
  o <| ob_Success := true |>
    <| ob_Data := DataWrite {|
         we_Path := wp_relative (ef_target e); we_BeforeHash := ef_before e; we_AfterHash := observed;
         we_ByteCount := size; we_ChangeKind := changeKindFor (ef_before e) observed;
         we_Outcome := outcomeFor (ef_before e) observed; we_Diff := text; we_DiffTruncated := truncated;
         we_DiffBytes := n; we_ActionID := ""; we_ExecutionID := ""; we_EvidenceID := "" |} |>
    <| ob_Metadata := (metadata_of tool) <| md_Untrusted := true |> <| md_Path := wp_relative (ef_target e) |>
         <| md_SizeBytes := size |> <| md_BytesOriginal := size |> <| md_BytesReturned := size |> |>.

(** The state of the target before the effect: its hash, or absent. *)
Definition before_state (target : writePath) : Cmd (Failure + string) :=
  if wp_exists target then
    '(hash, exists_, err) ← hashFile (wp_canonical target);
    mret (if (err : bool) || negb exists_ then inl (newFailure FailureReadFailure) else inr hash)
  else mret (inr AbsentBeforeHash).

(** At most [limit] bytes of a file; nothing when it cannot be read. *)
Definition readBoundedPrefix (path : string) (limit : Z) : Cmd string :=
  r ← query (ReadFile path);
  let limit := (if limit <=? 0 then 65536 else limit)%Z in
  mret (match r with inl _ => ""%string | inr content => take_bytes (Z.to_nat limit) content end).

Definition executeWriteFile (r : Registry) (o : Observation) (path content expectedBefore : string) : Cmd Observation :=
  let root := rg_root r in
  let limit := MaxDiffBytes (rg_limits r) in
  observed_or o (resolveWrite root path) (λ target,
  observed_or o (before_state target) (λ before,
  if negb (String.eqb before expectedBefore) then mret (fails o FailureStaleState)
  else
    let after := HashBytes content in
    beforeContent ← (if wp_exists target then readBoundedPrefix (wp_canonical target) (limit * 2) else mret ""%string);
    let e := {| ef_path := path; ef_target := target; ef_before := before; ef_expected := expectedBefore;
                ef_content := content; ef_after := after; ef_changed := negb (String.eqb before after) |} in
    observed_or o (perform_effect root e) (λ observed,
    mret (written o ToolWriteFile e observed
            (if ef_changed e then replacementDiffText (wp_relative target) beforeContent content else "")%string limit)))).

(** The error of the patch engine as a failure. *)
Definition patch_failure (err : string) : Failure :=
  newFailure (if String.eqb err errPatchContentMismatch then FailureStaleState else FailureInvalidPatch).

Definition executeApplyPatch (r : Registry) (o : Observation) (path patch expectedBefore : string) : Cmd Observation :=
  let root := rg_root r in
  let limits := rg_limits r in
  observed_or o (resolveWrite root path) (λ target,
  if negb (wp_exists target) then mret (fails o FailurePathNotFound)
  else
  observed_or o (before_state target) (λ before,
  if negb (String.eqb before expectedBefore) then mret (fails o FailureStaleState)
  else
  size ← fileSize (wp_canonical target);
  if (MaxPatchTargetBytes limits <? size)%Z then mret (fails o FailureWriteTooLarge)
  else
  current ← query (ReadFile (wp_canonical target));
  match current with
  | inl _ => mret (fails o FailureReadFailure)
  | inr current =>
    match default (inl ""%string) (applyPatch current patch (wp_relative target) (MaxPatchTargetBytes limits)) with
    | inl err => mret (fails_with o (patch_failure err))
    | inr patched =>
      let e := {| ef_path := path; ef_target := target; ef_before := before; ef_expected := expectedBefore;
                  ef_content := patched; ef_after := HashBytes patched; ef_changed := negb (String.eqb current patched) |} in
      observed_or o (perform_effect root e) (λ observed,
      mret (written o ToolApplyPatch e observed patch (MaxDiffBytes limits)))
    end
  end)).

(** ** Planning *)

Definition PlanWrite (r : Registry) (action : Action) : Cmd PlannedWrite :=
  let nothing := {| pw_AfterHash := ""; pw_Effect := no_effect |} in
  let arguments := act_Arguments action in
  let limits := rg_limits r in
  let limit := MaxDiffBytes limits in
  if String.eqb (act_Tool action) ToolWriteFile then
    match stringArgument arguments "path", stringArgumentAllowEmpty arguments "content" with
    | inr path, inr content =>
      if longer_than (MaxWriteBytes limits) content then mret nothing
      else
        resolved ← resolveWrite (rg_root r) path;
        effect ←
          match resolved with
          | inl _ => mret no_effect
          | inr target =>
            before ← (if wp_exists target then readBoundedPrefix (wp_canonical target) (limit * 2) else mret ""%string);
            mret (if String.eqb before content then no_effect
                  else planned_effect (replacementDiffText (wp_relative target) before content) limit)
          end;
        mret {| pw_AfterHash := HashBytes content; pw_Effect := effect |}
    | _, _ => mret nothing
    end
  else if String.eqb (act_Tool action) ToolApplyPatch then
    match stringArgument arguments "path", stringArgumentAllowEmpty arguments "patch" with
    | inr path, inr patch =>
      if String.eqb (TrimSpace patch) "" then mret nothing
      else
        let effect := planned_effect patch limit in
        let unknown := {| pw_AfterHash := ""; pw_Effect := effect |} in
        resolved ← resolveWrite (rg_root r) path;
        match resolved with
        | inl _ => mret unknown
        | inr target =>
          if negb (wp_exists target) then mret unknown
          else
            current ← query (ReadFile (wp_canonical target));
            mret match current with
                 | inl _ => unknown
                 | inr current =>
                   match default (inl ""%string)
                     (applyPatch current patch (wp_relative target) (MaxPatchTargetBytes limits)) with
                   | inl _ => unknown
                   | inr patched => {| pw_AfterHash := HashBytes patched; pw_Effect := effect |}
                   end
                 end
        end
    | _, _ => mret nothing
    end
  else mret nothing.

(** ** Reconciliation *)

Record WriteIntent := {
  wi_Tool : string;
  wi_Arguments : string;
  wi_ExpectedAfterHash : string;
  wi_PlannedEffect : PlannedEffect
}.

Inductive ReconcileStatus := ReconcileNotStarted | ReconcileCompleted | ReconcileHumanReview.

#[export] Instance ReconcileStatus_eq_dec : EqDecision ReconcileStatus.
Proof. solve_decision. Defined.

Record ReconcileResult := {
  rr_Status : ReconcileStatus;
  rr_Evidence : option WriteEvidence;
  rr_Failure : option Failure
}.

Definition review (failure : option Failure) : ReconcileResult :=
  {| rr_Status := ReconcileHumanReview; rr_Evidence := None; rr_Failure := failure |}.

(** The path and the precondition of a decoded intent; the content or the patch
    is checked and not used. *)
Definition decodeWriteIntent (tool arguments : string) : Failure + string * string :=
  let invalid_arguments := newFailure FailureInvalidArguments in
  match parse arguments ≫= decodeArguments with
  | None => inl invalid_arguments
  | Some raw =>
    match stringArgument raw "path", stringArgument raw "expected_before_hash" with
    | inl failure, _ => inl failure
    | _, inl failure => inl failure
    | inr path, inr expected =>
      if String.eqb tool ToolWriteFile then
        match stringArgumentAllowEmpty raw "content" with inl failure => inl failure | inr _ => inr (path, expected) end
      else if String.eqb tool ToolApplyPatch then
        match stringArgumentAllowEmpty raw "patch" with
        | inl _ => inl invalid_arguments
        | inr patch => if String.eqb (TrimSpace patch) "" then inl invalid_arguments else inr (path, expected)
        end
      else inl invalid_arguments
    end
  end.

(** The workspace has been opened. *)
Definition ReconcileWrite (root : string) (intent : WriteIntent) : Cmd ReconcileResult :=
  match decodeWriteIntent (wi_Tool intent) (wi_Arguments intent) with
  | inl failure => mret (review (Some failure))
  | inr (path, expected) =>
    resolved ← resolveWrite root path;
    match resolved with
    | inl failure => mret (review (Some failure))
    | inr target =>
      before ← before_state target;
      match before with
      | inl failure => mret (review (Some failure))
      | inr before =>
        size ← (if wp_exists target then fileSize (wp_canonical target) else mret (-1)%Z);
        mret
          (if String.eqb before expected then {| rr_Status := ReconcileNotStarted; rr_Evidence := None; rr_Failure := None |}
           else if negb (String.eqb (wi_ExpectedAfterHash intent) "") && String.eqb before (wi_ExpectedAfterHash intent) then {|
             rr_Status := ReconcileCompleted;
             rr_Evidence := Some {|
               we_Path := wp_relative target; we_BeforeHash := expected; we_AfterHash := before; we_ByteCount := size;
               we_ChangeKind := if String.eqb expected AbsentBeforeHash then changeCreated else changeModified;
               we_Outcome := WriteSuccess; we_Diff := pe_Diff (wi_PlannedEffect intent);
               we_DiffTruncated := pe_DiffTruncated (wi_PlannedEffect intent);
               we_DiffBytes := pe_DiffBytes (wi_PlannedEffect intent);
               we_ActionID := ""; we_ExecutionID := ""; we_EvidenceID := "" |};
             rr_Failure := None |}
           else review None)
      end
    end
  end.
End writing.

(** [AnnotateWriteEvidence]: the identities of the execution. *)
Definition AnnotateWriteEvidence (o : Observation) (actionID executionID : string) : Observation :=
  if negb (ob_Success o) then o
  else
    match ob_Data o with
    | DataWrite e =>
      o <| ob_Data := DataWrite (e <| we_ActionID := actionID |> <| we_ExecutionID := executionID |> <| we_EvidenceID := ob_ID o |>) |>
    | _ => o
    end.
