(* ===== verification/Reading.v ===== *)
(** * Reading files and directories (internal/tools/read_file.go, list_files.go) *)

From S2P Require Import Prelude GoTime Text Paths Json Protocol Observations Workspace ToolArguments.

Local Open Scope runstead_scope.

(** ** UTF-8 in pieces *)

(** [utf8.FullRune]: a complete rune, or an encoding that no further byte can
    complete. *)
Definition FullRune (bs : list Z) : bool :=
  (match bs with
   | [] => false
   | b0 :: rest =>
     if (b0 <? 194) || (244 <? b0) then true
     else
       let size := if b0 <=? 223 then 2%nat else if b0 <=? 239 then 3%nat else 4%nat in
       if (size <=? length bs)%nat then true
       else
         let lo := if b0 =? 224 then 160 else if b0 =? 240 then 144 else 128 in
         let hi := if b0 =? 237 then 159 else if b0 =? 244 then 143 else 191 in
         match rest with
         | [] => false
         | b1 :: rest1 =>
           if negb (continuation lo hi b1) then true
           else match rest1 with [] => false | b2 :: _ => negb (continuation 128 191 b2) end
         end
   end)%Z.

Definition bad_rune (d : Z * nat) : bool := (d.1 =? RuneError)%Z && (d.2 =? 1)%nat.

(** The loop of [scanUTF8]; every turn takes at least one byte. *)
Fixpoint scan_utf8 (fuel : nat) (combined : list Z) : list Z * bool :=
  match fuel, combined with
  | S fuel', _ :: _ =>
    let d := decode_rune combined in
    if bad_rune d then (if negb (FullRune combined) then (combined, false) else ([], true))
    else scan_utf8 fuel' (drop d.2 combined)
  | _, _ => ([], false)
  end.

Definition scanUTF8 (pending chunk : list Z) : list Z * bool :=
  let combined := pending ++ chunk in scan_utf8 (length combined) combined.

(** [utf8.Valid]. *)
Definition valid_bytes (bs : list Z) : bool := forallb (λ d, negb (bad_rune d)) (runes_fuel (length bs) bs).

(** [validUTF8Prefix]: the last byte goes as long as the rest is not valid. *)
Fixpoint valid_prefix (n : nat) (content : string) : string :=
  let s := take_bytes n content in
  if valid_bytes (bytes_of s) then s else match n with O => s | S n' => valid_prefix n' content end.

Definition validUTF8Prefix (content : string) : string := valid_prefix (String.length content) content.

(** ** Files *)

(** The pieces in which a file is read. *)
Class Reads := {
  pieces : string → list string;
  pieces_all content : String.concat "" (pieces content) = content
}.

(** The variables of the loop of [readBoundedFile]. *)
Record ReadState := {
  rs_content : string;
  rs_original : Z;
  rs_pending : list Z;
  rs_binary : bool;
  rs_invalid : bool
}.

Definition read_piece (limit : Z) (st : ReadState) (chunk : string) : ReadState :=
  let '(pending, bad) := scanUTF8 (rs_pending st) (bytes_of chunk) in
  let have := Z.of_nat (String.length (rs_content st)) in
  {| rs_content := if (have <? limit)%Z then rs_content st +:+ take_bytes (Z.to_nat (limit - have)) chunk else rs_content st;
     rs_original := rs_original st + Z.of_nat (String.length chunk);
     rs_pending := pending;
     rs_binary := rs_binary st || has_nul chunk;
     rs_invalid := rs_invalid st || bad |}.

Definition read_start : ReadState :=
  {| rs_content := ""; rs_original := 0; rs_pending := []; rs_binary := false; rs_invalid := false |}.

Section reading.
Context `{Environment} `{Hash} `{Reads}.

(** The context is checked before every piece. *)
Fixpoint read_loop (limit : Z) (st : ReadState) (chunks : list string) : Cmd (Failure + ReadState) :=
  canceled ← contextFailure;
  match canceled with
  | Some failure => mret (inl failure)
  | None =>
    _ ← query (λ _, tt);
    match chunks with
    | [] => mret (inr st)
    | chunk :: chunks => read_loop limit (read_piece limit st chunk) chunks
    end
  end.

(** Content, size, and whether it is truncated, binary, invalid; the hash of all of
    it.  An opened file shows what it held when it was opened. *)
Record FileRead := { fr_content : string; fr_original : Z; fr_truncated : bool; fr_binary : bool; fr_invalid : bool; fr_hash : string }.

Definition readBoundedFile (path : string) (limit : Z) : Cmd (unit + FileRead) :=
  opened ← query (ReadFile path);
  match opened with
  | inl _ => mret (inl tt)
  | inr content =>
    r ← read_loop limit read_start (pieces content);
    mret match r with
         | inl _ => inl tt
         | inr st => inr {|
             fr_content := rs_content st; fr_original := rs_original st;
             fr_truncated := (limit <? rs_original st)%Z; fr_binary := rs_binary st;
             fr_invalid := rs_invalid st || negb (bool_decide (rs_pending st = [])); fr_hash := HashBytes content |}
         end
  end.

Definition executeReadFile (r : Registry) (o : Observation) (path : string) : Cmd Observation :=
  observed_or o (workspace_resolve (rg_root r) path) (λ resolved,
  if negb (IsRegular (rp_mode resolved)) then mret (fails o FailureWrongType)
  else
    file ← readBoundedFile (rp_canonical resolved) (MaxReadBytes (rg_limits r));
    match file with
    | inl _ =>
      canceled ← contextFailure;
      mret (fails_with o (default (newFailure FailureReadFailure) canceled))
    | inr f =>
      if fr_binary f then mret (fails o FailureBinaryFile)
      else if fr_invalid f then mret (fails o FailureInvalidUTF8)
      else
        let content := validUTF8Prefix (fr_content f) in
        mret (o <| ob_Success := true |> <| ob_Truncated := fr_truncated f |>
                <| ob_Data := DataFile {| fd_Path := rp_relative resolved; fd_Content := content; fd_SHA256 := fr_hash f |} |>
                <| ob_Metadata := (metadata_of ToolReadFile) <| md_Untrusted := true |> <| md_Path := rp_relative resolved |>
                     <| md_SizeBytes := fr_original f |> <| md_BytesOriginal := fr_original f |>
                     <| md_BytesReturned := Z.of_nat (String.length content) |> |>)
    end).

(** ** Directories *)

Definition entry_of (relative name : string) (mode : FileMode) (size : Z) : FileEntry := {|
  fe_Path := Join relative name;
  fe_Type := match mode with ModeSymlink => EntrySymlink | ModeDir => EntryDirectory | ModeRegular _ => EntryFile | ModeOther => EntryOther end;
  fe_Size := (if IsRegular mode then size else 0)%Z |}.

Fixpoint list_loop (canonical relative : string) (names : list string) (result : list FileEntry)
    : Cmd (Failure + list FileEntry) :=
  match names with
  | [] => mret (inr result)
  | name :: names =>
    canceled ← contextFailure;
    match canceled with
    | Some failure => mret (inl failure)
    | None =>
      info ← query (Lstat (Join canonical name));
      match info with
      | inl _ => reject FailureListFailure
      | inr (mode, size) => list_loop canonical relative names (result ++ [entry_of relative name mode size])
      end
    end
  end.

Definition executeListFiles (r : Registry) (o : Observation) (path : string) : Cmd Observation :=
  observed_or o (mret (normalizeRelativePath path)) (λ relative,
  observed_or o (workspace_resolve (rg_root r) (Dir relative)) (λ parent,
  if negb (IsDir (rp_mode parent)) then mret (fails o FailureWrongType)
  else
  info ← query (Lstat (Join (rp_canonical parent) (Base relative)));
  match info with
  | inl err => mret (fails_with o (not_found_or_read err))
  | inr (final, _) =>
    observed_or o (workspace_resolve (rg_root r) path) (λ resolved,
    if is_symlink final || negb (IsDir (rp_mode resolved)) then mret (fails o FailureWrongType)
    else
    names ← query (ReadDir (rp_canonical resolved));
    match names with
    | inl _ => mret (fails o FailureListFailure)
    | inr names =>
      observed_or o (list_loop (rp_canonical resolved) (rp_relative resolved) (sort_Strings names) []) (λ entries,
      let original := Z.of_nat (length entries) in
      let limit := MaxListEntries (rg_limits r) in
      let result := if (limit <? original)%Z then take (Z.to_nat limit) entries else entries in
      let returned := Z.of_nat (length result) in
      mret (o <| ob_Success := true |> <| ob_Truncated := (returned <? original)%Z |>
              <| ob_Data := DataList {| ld_Path := rp_relative resolved; ld_Entries := result |} |>
              <| ob_Metadata := (metadata_of ToolListFiles) <| md_Untrusted := true |> <| md_Path := rp_relative resolved |>
                   <| md_EntriesOriginal := original |> <| md_EntriesReturned := returned |> |>))
    end)
  end)).
End reading.
