(* ===== verification/Search.v ===== *)
(** * Commands and the search of texts (internal/tools/search_text.go, git.go)

    What git, ripgrep and recipe processes return is given by the environment, and so
    is what [filepath.WalkDir] visits. *)

From S2P Require Import Prelude GoTime Text Paths Patch Json Protocol Recipe Observations Workspace ToolArguments Reading.
From Stdlib Require Import Ascii.

Local Open Scope runstead_scope.

(** ** Commands *)

Record CommandResult := {
  cr_Stdout : string;
  cr_Stderr : string;
  cr_StdoutBytes : Z;
  cr_StderrBytes : Z;
  cr_ExitCode : Z;
  cr_Signal : string;
  cr_Err : bool
}.

(** At the [n]-th call: what a run of git or of ripgrep gives with the failure of its
    context ([commandResultContextFailure]), what a recipe process does, the
    environment of this process, the context of a search (with its own deadline),
    and what is visited below a directory: an error, or a path with its type. *)
Class Commands `{FileSystem} := {
  run_git : nat → list string → CommandResult * option Failure;
  run_rg : nat → string → list string → CommandResult * option Failure;
  run_process : nat → Recipe → string → list string → Process;
  environ : nat → list string;
  search_context : nat → option ContextError;
  walk : string → fs → list (IOError + string * FileMode)
}.

Definition boundedBytes (value : string) (limit : Z) : string :=
  if (Z.of_nat (String.length value) <=? limit)%Z then value else take_bytes (Z.to_nat limit) value.

(** ** The output of ripgrep *)

(** The members of an event that are read. *)
Record RGEvent := { ev_Type : string; ev_Path : string; ev_LineNumber : Z; ev_Lines : string }.

#[export] Instance RGEvent_settable : Settable RGEvent :=
  λ e, Build_RGEvent (ev_Type e) (ev_Path e) (ev_LineNumber e) (ev_Lines e).

(** A struct with one member [text]. *)
Definition decode_text (v : json) (old : string) : option string :=
  decode_struct false ["text"%string] (λ _ value old, as_string value old) old v.

Definition decode_event_data (v : json) (e : RGEvent) : option RGEvent :=
  decode_struct false ["path"; "line_number"; "lines"]%string
    (λ name value e,
      (if String.eqb name "path" then text ← decode_text value (ev_Path e); Some (e <| ev_Path := text |>)
       else if String.eqb name "line_number" then n ← as_int64 value (ev_LineNumber e); Some (e <| ev_LineNumber := n |>)
       else text ← decode_text value (ev_Lines e); Some (e <| ev_Lines := text |>))%runstead) e v.

Definition decode_event (v : json) : option RGEvent :=
  decode_struct false ["type"; "data"]%string
    (λ name value e,
      (if String.eqb name "type" then text ← as_string value (ev_Type e); Some (e <| ev_Type := text |>)
       else decode_event_data value e)%runstead)
    {| ev_Type := ""; ev_Path := ""; ev_LineNumber := 0; ev_Lines := "" |} v.

(** [strings.TrimSuffix] of one character. *)
Fixpoint TrimSuffix (s : string) (c : ascii) : string :=
  match s with
  | EmptyString => EmptyString
  | String d EmptyString => if Ascii.eqb d c then EmptyString else s
  | String d s' => String d (TrimSuffix s' c)
  end.

Definition carriage_return : ascii := char 13.
Definition trim_line (s : string) : string := TrimSuffix (TrimSuffix s (char 10)) carriage_return.

Definition relativeSearchPath (root value : string) : option string :=
  if String.eqb value "" then None
  else
    let path := Clean (if IsAbs value then value else Join root value) in
    if within root path then Rel root path else None.

(** The variables of the loops that collect matches. *)
Record Collected := { co_matches : list SearchMatch; co_original : Z; co_returned : Z; co_truncated : bool }.

Definition nothing_collected : Collected := {| co_matches := []; co_original := 0; co_returned := 0; co_truncated := false |}.

Definition payload (m : SearchMatch) : Z := Z.of_nat (String.length (sm_Path m) + String.length (sm_Text m)).

(** One match, within both limits. *)
Definition collect (maxMatches maxBytes : Z) (c : Collected) (m : SearchMatch) : Collected :=
  if ((maxMatches <=? Z.of_nat (length (co_matches c))) || (maxBytes <? co_returned c + payload m))%Z
  then {| co_matches := co_matches c; co_original := co_original c + 1; co_returned := co_returned c; co_truncated := true |}
  else {| co_matches := co_matches c ++ [m]; co_original := co_original c + 1; co_returned := co_returned c + payload m;
          co_truncated := co_truncated c |}.

(** One line: [None] is an error, a line may hold no match. *)
Definition rg_line (root line : string) : option (option SearchMatch) :=
  match parse line ≫= decode_event with
  | None => None
  | Some event =>
    if negb (String.eqb (ev_Type event) "match") then Some None
    else
      match relativeSearchPath root (ev_Path event) with
      | None => None
      | Some path =>
        if (ev_LineNumber event <? 1)%Z then None
        else Some (Some {| sm_Path := path; sm_Line := ev_LineNumber event; sm_Text := trim_line (ev_Lines event) |})
      end
  end.

(** The last line is dropped when the output was cut. *)
Fixpoint rg_lines (root : string) (maxMatches maxBytes : Z) (rawTruncated : bool) (c : Collected) (lines : list string)
    : option Collected :=
  match lines with
  | [] => Some c
  | line :: lines =>
    if String.eqb line "" then rg_lines root maxMatches maxBytes rawTruncated c lines
    else if rawTruncated && (length lines =? 0)%nat then Some c
    else
      match rg_line root line with
      | None => None
      | Some m =>
        rg_lines root maxMatches maxBytes rawTruncated
          (match m with None => c | Some m => collect maxMatches maxBytes c m end) lines
      end
  end.

Definition parseRGOutput (output root : string) (maxMatches maxBytes : Z) (rawTruncated : bool) : option Collected :=
  rg_lines root maxMatches maxBytes rawTruncated nothing_collected (split_on (char 10) output).

Definition rg_arguments (query relative : string) : list string :=
  ["--no-config"; "--json"; "--fixed-strings"; "--line-number"; "--color=never"; "--no-heading"; "-I"; "--"]%string
  ++ [query; relative].

(** ** Files, line by line *)

(** [ReadString] until the end: lines with their line feeds. *)
Fixpoint read_lines (s : string) : list string :=
  match s with
  | EmptyString => []
  | String c s' =>
    if Ascii.eqb c (char 10) then String c "" :: read_lines s'
    else match read_lines s' with
         | [] => [String c ""]
         | line :: lines => String c line :: lines
         end
  end.

Definition ends_line (line : string) : bool := negb (String.eqb (TrimSuffix line (char 10)) line).

(** How the scan of a file ends: an error, a file that is skipped, its matches. *)
Inductive Scan := ScanError | ScanBinary | ScanInvalid | ScanMatches (matches : list SearchMatch).

Section searching.
Context `{Environment, !Commands}.

(** [contextFailure] of the context of the search. *)
Definition searchFailure : Cmd (option Failure) := λ m,
  (Some (match search_context (m_calls m) with
         | None => None
         | Some DeadlineExceeded => Some (newFailure FailureTimeout)
         | Some Canceled => Some (newFailure FailureCanceled)
         end), m).

(** Visits in order; [None] is an error. *)
Fixpoint walk_loop (visits : list (IOError + string * FileMode)) (paths : list string) : Cmd (option (list string)) :=
  match visits with
  | [] => mret (Some paths)
  | visit :: visits =>
    _ ← query (λ _, tt);
    match visit with
    | inl _ => mret None
    | inr (path, mode) =>
      canceled ← searchFailure;
      match canceled with
      | Some _ => mret None
      | None => walk_loop visits (if IsRegular mode then paths ++ [path] else paths)
      end
    end
  end.

Definition searchFiles (root : string) : Cmd (option (list string)) :=
  info ← query (Stat root);
  match info with
  | inl _ => mret None
  | inr (ModeRegular _, _) => mret (Some [root])
  | inr _ =>
    visits ← query (walk root);
    paths ← walk_loop visits [];
    mret (sort_Strings <$> paths)
  end.

Fixpoint scan_lines (root path query_ : string) (number : Z) (matches : list SearchMatch) (lines : list string) : Cmd Scan :=
  canceled ← searchFailure;
  match canceled with
  | Some _ => mret ScanError
  | None =>
    _ ← query (λ _, tt);
    match lines with
    | [] => mret (ScanMatches matches)
    | line :: lines =>
      if has_nul line then mret ScanBinary
      else if negb (valid_bytes (bytes_of line)) then mret ScanInvalid
      else
        let number := (number + 1)%Z in
        let text := trim_line line in
        match (if Contains text query_
               then relative ← Rel root path;
                    Some (matches ++ [{| sm_Path := relative; sm_Line := number; sm_Text := text |}])
               else Some matches) with
        | None => mret ScanError
        | Some matches =>
          if ends_line line then scan_lines root path query_ number matches lines else mret (ScanMatches matches)
        end
    end
  end.

Definition scanSearchFile (path root query_ : string) : Cmd Scan :=
  opened ← query (ReadFile path);
  match opened with
  | inl _ => mret ScanError
  | inr content => scan_lines root path query_ 0 [] (read_lines content)
  end.

(** All files: what is collected, the bytes of all matches, and the files skipped. *)
Record Searched := { se_collected : Collected; se_bytes : Z; se_binary : Z; se_invalid : Z }.

#[local] Instance Searched_settable : Settable Searched :=
  λ s, Build_Searched (se_collected s) (se_bytes s) (se_binary s) (se_invalid s).

Fixpoint search_loop (limits : Limits) (root query_ : string) (s : Searched) (paths : list string) : Cmd (option Searched) :=
  match paths with
  | [] => mret (Some s)
  | path :: paths =>
    scan ← scanSearchFile path root query_;
    match scan with
    | ScanError => mret None
    | ScanBinary => search_loop limits root query_ (s <| se_binary ::= λ n, (n + 1)%Z |>) paths
    | ScanInvalid => search_loop limits root query_ (s <| se_invalid ::= λ n, (n + 1)%Z |>) paths
    | ScanMatches matches =>
      search_loop limits root query_
        (s <| se_collected := foldl (collect (MaxSearchMatches limits) (MaxSearchBytes limits)) (se_collected s) matches |>
           <| se_bytes ::= λ n, foldl (λ n m, n + payload m)%Z n matches |>) paths
    end
  end.

(** A search that ended with an error. *)
Definition search_failed (o : Observation) : Cmd Observation :=
  canceled ← searchFailure; mret (fails_with o (default (newFailure FailureSearchFailure) canceled)).

Definition searchWithFallback (r : Registry) (o : Observation) (query_ : string) (resolved : resolvedPath) : Cmd Observation :=
  let limits := rg_limits r in
  paths ← searchFiles (rp_canonical resolved);
  match paths with
  | None => search_failed o
  | Some paths =>
    searched ← search_loop limits (rg_root r) query_
      {| se_collected := nothing_collected; se_bytes := 0; se_binary := 0; se_invalid := 0 |} paths;
    match searched with
    | None => search_failed o
    | Some s =>
      let c := se_collected s in
      mret (o <| ob_Success := true |>
              <| ob_Truncated := co_truncated c || (MaxSearchMatches limits <? co_original c)%Z |>
              <| ob_Data := DataSearch {| sd_Matches := co_matches c; sd_SkippedBinaryFiles := se_binary s;
                                          sd_SkippedInvalidUTF8 := se_invalid s |} |>
              <| ob_Metadata := (metadata_of ToolSearchText) <| md_Backend := "fallback" |> <| md_Untrusted := true |>
                   <| md_Path := rp_relative resolved |> <| md_BytesOriginal := se_bytes s |>
                   <| md_BytesReturned := co_returned c |> <| md_MatchesOriginal := co_original c |>
                   <| md_MatchesReturned := Z.of_nat (length (co_matches c)) |> |>)
    end
  end.

(** The observation of a run of ripgrep. *)
Definition rg_observation (r : Registry) (o : Observation) (resolved : resolvedPath) (result : CommandResult)
    (failure : option Failure) : Observation :=
  let limit := MaxSearchBytes (rg_limits r) in
  match failure with
  | Some failure => fails_with o failure
  | None =>
    let outOriginal := Z.max (cr_StdoutBytes result) (Z.of_nat (String.length (cr_Stdout result))) in
    let errOriginal := Z.max (cr_StderrBytes result) (Z.of_nat (String.length (cr_Stderr result))) in
    let rawTruncated := (limit <? outOriginal)%Z in
    let out := boundedBytes (cr_Stdout result) limit in
    let err := boundedBytes (cr_Stderr result) limit in
    match parseRGOutput out (rg_root r) (MaxSearchMatches (rg_limits r)) limit rawTruncated with
    | None => fails o FailureSearchFailure
    | Some c =>
      if negb (cr_ExitCode result =? 0)%Z && negb (cr_ExitCode result =? 1)%Z then fails o FailureSearchFailure
      else if cr_Err result && negb (cr_ExitCode result =? 1)%Z then fails o FailureSearchFailure
      else
        let original := (if rawTruncated then -1 else co_original c)%Z in
        let truncated := rawTruncated || co_truncated c || ((0 <=? original) && (MaxSearchMatches (rg_limits r) <? original))%Z in
        o <| ob_Success := true |> <| ob_Truncated := truncated |>
          <| ob_Data := DataSearch {| sd_Matches := co_matches c; sd_SkippedBinaryFiles := 0; sd_SkippedInvalidUTF8 := 0 |} |>
          <| ob_Metadata := (metadata_of ToolSearchText) <| md_Backend := "rg" |> <| md_Untrusted := true |>
               <| md_Path := rp_relative resolved |> <| md_BytesOriginal := outOriginal |>
               <| md_BytesReturned := co_returned c |> <| md_MatchesOriginal := original |>
               <| md_MatchesReturned := Z.of_nat (length (co_matches c)) |>
               <| md_StdoutBytesOriginal := outOriginal |> <| md_StdoutBytesReturned := Z.of_nat (String.length out) |>
               <| md_StderrBytesOriginal := errOriginal |> <| md_StderrBytesReturned := Z.of_nat (String.length err) |>
               <| md_ExitCode := cr_ExitCode result |> <| md_Signal := cr_Signal result |> |>
    end
  end.

(** The number of the call that a command is. *)
Definition at_call {A} (f : nat → A) : Cmd A := λ m, syscall (λ s, (f (m_calls m), s)) m.

Definition searchWithRG (r : Registry) (o : Observation) (query_ : string) (resolved : resolvedPath) : Cmd Observation :=
  '(result, failure) ← at_call (λ n, run_rg n (rg_rgPath r) (rg_arguments query_ (rp_relative resolved)));
  mret (rg_observation r o resolved result failure).

Definition executeSearchText (r : Registry) (o : Observation) (query_ path : string) : Cmd Observation :=
  observed_or o (workspace_resolve (rg_root r) path) (λ resolved,
  if negb (IsDir (rp_mode resolved)) && negb (IsRegular (rp_mode resolved)) then mret (fails o FailureWrongType)
  else if negb (String.eqb (rg_rgPath r) "") then searchWithRG r o query_ resolved
  else searchWithFallback r o query_ resolved).
End searching.
