(* ===== verification/Tools.v ===== *)
(** * The registry of tools (internal/tools/registry.go, execute.go, git.go, run_recipe.go)

    Executing an action: the observation is numbered, the arguments are checked and
    the tool does its work.  What git and a recipe process return is
    given by the environment. *)

From stdpp Require Import pretty.
From S2P Require Import Prelude GoTime Text Paths Patch Json Protocol Recipe Observations Workspace ToolArguments Writing Reading Search.

Local Open Scope runstead_scope.

(** [gitArguments]. *)
Definition gitArguments (tool : string) : list string :=
  ["--no-pager"; "-c"; "color.ui=false"; "-c"; "core.quotepath=false"; "-c"; "core.pager=cat"; "-c"; "core.fsmonitor=false"]%string
  ++ (if String.eqb tool ToolGitStatus
      then ["status"; "--short"; "--branch"; "--no-renames"; "--untracked-files=all"; "--"; "."]
      else ["diff"; "--no-ext-diff"; "--no-textconv"; "--no-color"; "--no-renames"; "--"; "."])%string.

Record gitObservation := {
  go_stdout : string;
  go_stderr : string;
  go_exitCode : Z;
  go_signal : string;
  go_truncated : bool;
  go_metadata : Metadata;
  go_commandFailure : option Failure;
  go_err : bool
}.

Definition git_observation (r : Registry) (tool : string) (result : CommandResult) (failure : option Failure) : gitObservation :=
  let outLimit := MaxGitStdoutBytes (rg_limits r) in
  let errLimit := MaxGitStderrBytes (rg_limits r) in
  let outOriginal := Z.max (cr_StdoutBytes result) (Z.of_nat (String.length (cr_Stdout result))) in
  let errOriginal := Z.max (cr_StderrBytes result) (Z.of_nat (String.length (cr_Stderr result))) in
  let out := boundedBytes (cr_Stdout result) outLimit in
  let err := boundedBytes (cr_Stderr result) errLimit in {|
    go_stdout := out; go_stderr := err; go_exitCode := cr_ExitCode result; go_signal := cr_Signal result;
    go_truncated := (outLimit <? outOriginal)%Z || (errLimit <? errOriginal)%Z;
    go_metadata := (metadata_of tool) <| md_Untrusted := true |> <| md_StdoutBytesOriginal := outOriginal |>
      <| md_StdoutBytesReturned := Z.of_nat (String.length out) |> <| md_StderrBytesOriginal := errOriginal |>
      <| md_StderrBytesReturned := Z.of_nat (String.length err) |> <| md_ExitCode := cr_ExitCode result |>
      <| md_Signal := cr_Signal result |>;
    go_commandFailure := failure; go_err := cr_Err result |}.

(** The failure of a git observation. *)
Definition git_failure (g : gitObservation) : option Failure :=
  match go_commandFailure g with
  | Some failure => Some failure
  | None =>
    if (go_exitCode g =? 128)%Z then Some (newFailure FailureNotGitRepository)
    else if negb (go_exitCode g =? 0)%Z || go_err g then Some (newFailure FailureGitFailure) else None
  end.

(** [GitStatusText] and [GitDiffText]. *)
Definition git_text (g : gitObservation) : (string * bool) * option Failure :=
  match git_failure g with
  | Some failure => ((""%string, go_truncated g), Some failure)
  | None => ((go_stdout g, go_truncated g), None)
  end.

Definition git_observed (o : Observation) (g : gitObservation) : Observation :=
  let o := o <| ob_Metadata := go_metadata g |> <| ob_Truncated := go_truncated g |>
             <| ob_Data := DataGit {| gd_Stdout := go_stdout g; gd_Stderr := go_stderr g |} |> in
  match git_failure g with
  | Some failure => fails_with o failure
  | None => o <| ob_Success := true |>
  end.

Section tools.
Context `{Environment, Hash, Reads, !Commands}.

Definition executeGit (r : Registry) (o : Observation) (tool : string) : Cmd Observation :=
  '(result, failure) ← at_call (λ n, run_git n (gitArguments tool));
  mret (git_observed o (git_observation r tool result failure)).

Definition resolveRecipeWorkingDirectory (root relative : string) : Cmd (Failure + string * string) :=
  let target := if String.eqb (TrimSpace relative) "" then "."%string else relative in
  resolved ←? workspace_resolve root target;
  if negb (IsDir (rp_mode resolved)) then reject FailureWrongType
  else mret (inr (rp_canonical resolved, rp_relative resolved)).

Definition executeRunRecipe (r : Registry) (o : Observation) (recipeID : string) : Cmd Observation :=
  match rg_recipes r with
  | None => mret (fails o FailureNoRecipes)
  | Some catalog =>
    match catalog !! recipeID with
    | None => mret (fails o FailureUnknownRecipe)
    | Some selected =>
      observed_or o (resolveRecipeWorkingDirectory (rg_root r) (WorkingDirectory selected)) (λ '(cwd, normalized),
      env ← at_call (λ n, BuildEnvironment (environ n) selected);
      process ← at_call (λ n, run_process n selected cwd env);
      let result := Run selected process in
      if negb (Started result) then mret (fails o FailureRecipeStart)
      else
        let evidence := BuildEvidence selected normalized {| pd_Decision := "allowed"; pd_Reason := "policy_allow" |} result in
        mret (o <| ob_Success := true |> <| ob_Data := DataRecipe evidence |>
                <| ob_Metadata := (metadata_of ToolRunRecipe) <| md_Untrusted := true |> <| md_Path := normalized |>
                     <| md_StdoutBytesOriginal := StdoutBytes result |>
                     <| md_StdoutBytesReturned := Z.of_nat (String.length (Stdout result)) |>
                     <| md_StderrBytesOriginal := StderrBytes result |>
                     <| md_StderrBytesReturned := Z.of_nat (String.length (Stderr result)) |>
                     <| md_ExitCode := ExitCode result |> <| md_Signal := Signal result |> |>
                <| ob_Truncated := StdoutTruncated result || StderrTruncated result |>))
    end
  end.

(** Six digits. *)
Definition observation_id (sequence : nat) : string :=
  let text := pretty sequence in
  "obs-" +:+ String.concat "" (replicate (6 - String.length text) "0"%string) +:+ text.

(** The shared counter goes up by one. *)
Definition newObservation (sequence : nat) (tool : string) (arguments : gmap string string) : Observation := {|
  ob_ID := observation_id (S sequence); ob_Tool := tool; ob_Arguments := arguments; ob_Success := false;
  ob_Data := NoData; ob_Failure := None; ob_Truncated := false; ob_Metadata := metadata_of tool |}.

Definition argument (action : Action) (name : string) : string :=
  match stringArgumentAllowEmpty (act_Arguments action) name with inr value => value | inl _ => "" end.

Definition Execute (r : Registry) (sequence : nat) (action : Action) : Cmd Observation :=
  let tool := act_Tool action in
  let o := newObservation sequence tool (normalizedArguments action) in
  canceled ← contextFailure;
  match canceled with
  | Some failure => mret (fails_with o failure)
  | None =>
    match ValidateArguments_ r tool (act_Arguments action) with
    | (false, _) => mret (fails o FailureUnknownTool)
    | (true, Some failure) => mret (fails_with o failure)
    | (true, None) =>
      if String.eqb tool ToolReadFile then executeReadFile r o (argument action "path")
      else if String.eqb tool ToolListFiles then executeListFiles r o (argument action "path")
      else if String.eqb tool ToolSearchText then
        executeSearchText r o (argument action "query") (argument action "path")
      else if String.eqb tool ToolGitStatus || String.eqb tool ToolGitDiff then executeGit r o tool
      else if String.eqb tool ToolWriteFile then
        executeWriteFile r o (argument action "path") (argument action "content") (argument action "expected_before_hash")
      else if String.eqb tool ToolApplyPatch then
        executeApplyPatch r o (argument action "path") (argument action "patch") (argument action "expected_before_hash")
      else if String.eqb tool ToolRunRecipe then executeRunRecipe r o (argument action "recipe")
      else mret (fails o FailureInvalidArguments)
    end
  end.
End tools.

(** [AnnotateRecipeEvidence]: the identities and the decision of the policy. *)
Definition AnnotateRecipeEvidence (o : Observation) (actionID executionID decision reason : string) : Observation :=
  if negb (ob_Success o) then o
  else
    match ob_Data o with
    | DataRecipe e =>
      o <| ob_Data := DataRecipe {|
             re_RecipeID := re_RecipeID e; re_Executable := re_Executable e; re_Argv := re_Argv e;
             re_WorkingDirectory := re_WorkingDirectory e; re_Capabilities := re_Capabilities e;
             re_Policy := {| pd_Decision := decision; pd_Reason := reason |}; re_Result := re_Result e;
             re_NetworkIsolation := re_NetworkIsolation e; re_ActionID := actionID; re_ExecutionID := executionID;
             re_EvidenceID := ob_ID o |} |>
    | _ => o
    end.

(** ** The description of the tools *)

Record ArgumentSpec := { as_Name : string; as_Type : string; as_Required : bool }.

(** Summaries and notes are texts for the model and are left out. *)
Record ToolSpec := { ts_Name : string; ts_Arguments : list ArgumentSpec; ts_ReadOnly : bool }.

Definition text_argument (name : string) : ArgumentSpec := {| as_Name := name; as_Type := "string"; as_Required := true |}.

Definition all_specs : list ToolSpec :=
  (λ '(name, arguments, ro), {| ts_Name := name; ts_Arguments := text_argument <$> arguments; ts_ReadOnly := ro |}) <$>
  [(ToolReadFile, ["path"], true); (ToolListFiles, ["path"], true); (ToolSearchText, ["query"; "path"], true);
   (ToolGitStatus, [], true); (ToolGitDiff, [], true);
   (ToolWriteFile, ["path"; "content"; "expected_before_hash"], false);
   (ToolApplyPatch, ["path"; "patch"; "expected_before_hash"], false); (ToolRunRecipe, ["recipe"], false)]%string.

Definition Describe (r : Registry) : list ToolSpec := List.filter (λ spec, Allows r (ts_Name spec)) all_specs.
