(* ===== verification/PathLaws.v ===== *)
(** * Laws of lexical paths

    Absolute clean paths as lists of proper components: joining appends, [Dir] and
    [Base] take the last component off, and being within a root is to extend it. *)

From S2P Require Import Prelude GoTime Text Paths Protocol Observations Workspace.
From Stdlib Require Import Ascii.

Local Open Scope runstead_scope.

(** A proper component. *)
Definition good (part : string) : Prop := slash_free part = true ∧ kept part ∧ part ≠ ".."%string.

(** The absolute path of some components. *)
Definition abs (ps : list string) : string := "/" +:+ join_slash ps.

Definition rooted (path : string) : Prop := ∃ ps, Forall good ps ∧ path = abs ps.

Lemma split_from_app sep cur a b : split_from sep cur (a +:+ String sep b) = split_from sep cur a ++ split_on sep b.
Proof.
  revert cur. induction a as [|c a IH]; intros cur; simpl.
  - by rw Ascii.eqb_refl.
  - change (String c a +:+ String sep b) with (String c (a +:+ String sep b)). simpl.
    destruct (Ascii.eqb c sep); [by rw IH|apply IH].
Qed.

Lemma split_slash_app a b : split_slash (a +:+ "/" +:+ b) = split_slash a ++ split_slash b.
Proof. apply split_from_app. Qed.

Lemma split_abs ps : Forall good ps → split_slash (abs ps) = ""%string :: match ps with [] => [""%string] | _ => ps end.
Proof.
  intros Hps. change (abs ps) with ("" +:+ "/" +:+ join_slash ps). rw split_slash_app.
  destruct ps as [|p ps]; [done|]. change (split_slash "") with [""%string]. cbn [app]. f_equal.
  apply split_join; [done|]. eapply Forall_impl; [exact Hps|]. by intros x [].
Qed.

Lemma parts_good ps : Forall good ps → filter (λ p, p ≠ ""%string) ps = ps.
Proof. induction 1 as [|p ps (_ & [Hne _] & _) Hps IH]; [done|]. by rw filter_cons_True // IH. Qed.

Lemma parts_abs ps : Forall good ps → parts (abs ps) = ps.
Proof.
  intros Hps. rw /parts split_abs // filter_cons_False; [by intros []|].
  destruct ps as [|p ps]; [done|]. by apply parts_good.
Qed.

Lemma abs_inj ps qs : Forall good ps → Forall good qs → abs ps = abs qs → ps = qs.
Proof. intros Hp Hq H. by rw -(parts_abs ps) // H parts_abs. Qed.

Lemma clean_good ps out : Forall good ps → foldl (clean_step true) out ps = reverse ps ++ out.
Proof.
  intros Hps. revert out. induction Hps as [|p ps (_ & [H1 H2] & H3) Hps IH]; intros out; [done|].
  rw /= IH /clean_step. destruct (String.eqb_spec p ""); [done|]. destruct (String.eqb_spec p "."); [done|].
  destruct (String.eqb_spec p ".."); [done|]. by rw reverse_cons -app_assoc.
Qed.

Lemma clean_step_good out p : slash_free p = true → Forall good out → Forall good (clean_step true out p).
Proof.
  intros Hp Hout. rw /clean_step. destruct (String.eqb_spec p ""); [done|]. destruct (String.eqb_spec p "."); [done|].
  destruct (String.eqb_spec p ".."); simpl; [|by constructor].
  destruct Hout as [|q out Hq Hout]; [constructor|]. destruct (String.eqb_spec q "..") as [->|]; [by destruct Hq as (_ & _ & ?)|done].
Qed.

Lemma clean_parts_good ps out :
  Forall (λ p, slash_free p = true) ps → Forall good out → Forall good (foldl (clean_step true) out ps).
Proof.
  intros Hps. revert out. induction Hps as [|p ps Hp Hps IH]; intros out Hout; [done|]. by apply IH, clean_step_good.
Qed.

Lemma Forall_reverse_good ps : Forall good (reverse ps) ↔ Forall good ps.
Proof. by rw reverse_Permutation. Qed.

Lemma IsAbs_app a b : IsAbs (String slash a +:+ b) = true.
Proof. rw /IsAbs. simpl. by destruct (a +:+ b). Qed.

Lemma IsAbs_abs ps : IsAbs (abs ps) = true.
Proof. apply (IsAbs_app ""). Qed.

Lemma split_free s : Forall (λ p, slash_free p = true) (split_slash s).
Proof. apply Forall_forall. intros p Hp. by eapply split_parts; [|exact Hp]. Qed.

Lemma Clean_rooted path : IsAbs path = true → rooted (Clean path).
Proof.
  intros Ha. exists (reverse (foldl (clean_step true) [] (split_slash path))). split.
  - apply Forall_reverse_good, clean_parts_good; [apply split_free|constructor].
  - by rw /Clean Ha.
Qed.

Lemma Clean_abs ps : Forall good ps → Clean (abs ps) = abs ps.
Proof.
  intros Hps. rw /Clean IsAbs_abs split_abs //=.
  destruct ps as [|p ps]; [done|]. by rw clean_good // app_nil_r reverse_involutive.
Qed.

(** ** Joining *)

Lemma fold_abs ps : Forall good ps → foldl (clean_step true) [] (split_slash (abs ps)) = reverse ps.
Proof.
  intros Hps. rw split_abs //=. destruct ps as [|p ps]; [done|]. by rw clean_good // app_nil_r.
Qed.

Lemma abs_nonempty ps : abs ps ≠ ""%string.
Proof. done. Qed.

Lemma Join_abs ps b : Forall good ps → b ≠ ""%string →
  Join (abs ps) b = "/" +:+ join_slash (reverse (foldl (clean_step true) (reverse ps) (split_slash b))).
Proof.
  intros Hps Hb. rw /Join. destruct (String.eqb_spec b ""); [done|]. simpl.
  rw /Clean (IsAbs_app (join_slash ps) ("/" +:+ b)). change (String slash ?x) with ("/" +:+ x).
  rw split_slash_app foldl_app fold_abs //.
Qed.

Lemma Join_good ps qs : Forall good ps → qs ≠ [] → Forall good qs → Join (abs ps) (join_slash qs) = abs (ps ++ qs).
Proof.
  intros Hps Hne Hqs.
  assert (split_slash (join_slash qs) = qs) as Hsplit.
  { apply split_join; [done|]. eapply Forall_impl; [exact Hqs|]. by intros x []. }
  rw Join_abs //.
  - intros Hnil. rw Hnil in Hsplit. destruct qs as [|q [|]]; try done. injection Hsplit as <-.
    inv Hqs. by destruct H1 as (_ & [? _] & _).
  - rw Hsplit clean_good // -reverse_app reverse_involutive. done.
Qed.

Lemma Join_dot ps : Forall good ps → Join (abs ps) "." = abs ps.
Proof. intros Hps. rw Join_abs //= reverse_involutive. done. Qed.

Lemma Join_one ps b : Forall good ps → good b → Join (abs ps) b = abs (ps ++ [b]).
Proof. intros Hps Hb. apply (Join_good ps [b]); [done|done|by constructor]. Qed.

(** ** The last component *)

Lemma Base_abs ps : Forall good ps → Base (abs ps) = default "/"%string (last ps).
Proof. intros Hps. by rw /Base parts_abs. Qed.

Lemma Dir_abs ps b : Forall good (ps ++ [b]) → Dir (abs (ps ++ [b])) = abs ps.
Proof.
  intros Hall. rw /Dir split_abs //. pose proof Hall as [Hps _]%Forall_app.
  assert ((match ps ++ [b] with [] => [""%string] | _ => ps ++ [b] end) = ps ++ [b]) as -> by by destruct ps.
  replace (length _ - 1)%nat with (S (length ps)) by (rw /= length_app /=; lia).
  rw firstn_cons take_app_length.
  assert (join_slash ((""%string :: ps) ++ [""%string]) = match ps with [] => "/"%string | _ => abs ps +:+ "/" end) as ->.
  { destruct ps as [|p ps]; [done|]. assert (p :: ps ≠ []) as Hl by done. revert Hl. rw /abs.
    generalize (p :: ps) as l. intros l Hl.
    assert (∀ (l : list string) s, l ≠ [] → join_slash (l ++ [s]) = join_slash l +:+ "/" +:+ s) as Hsnoc.
    { clear. intros l s. induction l as [|x l IH]; intros Hl; [done|]. destruct l as [|y l]; [done|].
      change ((x :: y :: l) ++ [s]) with (x :: y :: (l ++ [s])). rw !join_cons app_assoc_text. f_equal.
      change (y :: (l ++ [s])) with ((y :: l) ++ [s]). rw IH //. }
    rw Hsnoc //. destruct l as [|x l]; [done|]. by rw join_cons. }
  destruct ps as [|p ps]; [done|]. rw /Clean.
  rw (IsAbs_app (join_slash (p :: ps)) "/"). rw (split_slash_app (abs (p :: ps)) "") foldl_app fold_abs //=.
  by rw reverse_involutive.
Qed.

(** ** Containment *)

Lemma strip_common_spec a b up down :
  strip_common a b = (up, down) →
  ∃ c, a = c ++ up ∧ b = c ++ down ∧ match up, down with x :: _, y :: _ => x ≠ y | _, _ => True end.
Proof.
  revert b. induction a as [|x a IH]; intros [|y b]; simpl; try (intros [= <- <-]; by exists []).
  destruct (String.eqb_spec x y) as [->|Hne].
  - intros (c & -> & -> & H)%IH. by exists (y :: c).
  - intros [= <- <-]. by exists [].
Qed.

Lemma join_good_shape ps : Forall good ps → ps ≠ [] →
  join_slash ps ≠ ".."%string ∧ String.prefix "../" (join_slash ps) = false ∧ IsAbs (join_slash ps) = false.
Proof.
  intros Hps Hne.
  assert (split_slash (join_slash ps) = ps) as Hs.
  { apply split_join; [done|]. eapply Forall_impl; [exact Hps|]. by intros x []. }
  assert (∀ pre, slash_free pre = true → (pre = "" ∨ pre = "..")%string → String.prefix (pre +:+ "/") (join_slash ps) = false)
    as Hpre.
  { intros pre Hf Hc. apply Bool.not_true_iff_false. intros Hh%prefix_head; [|done]. rw Hs in Hh.
    apply head_Some_elem_of in Hh. rw Forall_forall in Hps. destruct (Hps _ Hh) as (_ & [? _] & ?). naive_solver. }
  split_and!.
  - intros H. rw H in Hs. destruct ps as [|p [|]]; try done. injection Hs as <-. inv Hps. by destruct H2 as (_ & _ & ?).
  - apply (Hpre ".."%string); [done|by right].
  - apply (Hpre ""%string); [done|by left].
Qed.

Lemma parts_of_clean_abs ps : Forall good ps → parts_of_clean (abs ps) = ps.
Proof. intros Hps. rw /parts_of_clean. by apply parts_abs. Qed.

(** To be within a root is to extend its components. *)
Lemma within_abs ps qs : Forall good ps → Forall good qs → within (abs ps) (abs qs) = true ↔ ps `prefix_of` qs.
Proof.
  intros Hps Hqs. rw /within /Rel !Clean_abs //. destruct (String.eqb_spec (abs ps) (abs qs)) as [He|Hne].
  { apply abs_inj in He as ->; [|done..]. done. }
  rw !IsAbs_abs !parts_of_clean_abs //=. destruct (strip_common ps qs) as [up down] eqn:Hs.
  apply strip_common_spec in Hs as (c & -> & -> & Hd). apply Forall_app in Hps as [Hc Hup]. apply Forall_app in Hqs as [_ Hdown].
  destruct up as [|u up].
  - rw app_nil_r. split; [intros _; by exists down|]. intros _.
    destruct (join_good_shape down) as (H1 & H2 & H3); [done| |].
    + intros ->. by rw app_nil_r in Hne.
    + apply String.eqb_neq in H1. by rw H1 H2 H3.
  - inv Hup. destruct H1 as (_ & _ & Hdots). destruct (String.eqb_spec u ".."); [done|].
    assert (¬ c ++ u :: up `prefix_of` c ++ down) as Hnot.
    { intros [k Hk]. rw -app_assoc in Hk. apply app_inv_head in Hk. destruct down as [|y down]; [done|]. by injection Hk as ->. }
    split; [|by intros]. intros Hw. exfalso. revert Hw. cbn [length replicate app].
    generalize (replicate (length up) ".."%string ++ down). intros [|x l]; [done|].
    rw join_cons. generalize (join_slash (x :: l)). intros rest.
    assert (String.prefix "../" (".." +:+ String slash rest) = true) as -> by by destruct rest.
    by rw andb_false_r.
Qed.
