(* ===== verification/WritingLaws.v ===== *)
(** * Laws of write effects

    Whatever other processes do and wherever this one dies: what is renamed, and
    where; and, when nobody else acts, what reconciliation says afterwards. *)

From S2P Require Import Prelude GoTime Text Paths Patch Json Protocol Recipe Observations Workspace ToolArguments Writing Reading Search Tools PathLaws.

Local Open Scope runstead_scope.

(** ** Computations that rename nothing *)

Section silent.
Context `{Environment, Hash, Reads, !Commands}.

Definition silent {A} (c : Cmd A) : Prop := ∀ m, m_renames (c m).2 = m_renames m.

Lemma silent_ret {A} (a : A) : silent (mret a).
Proof. done. Qed.

Lemma silent_bind {A B} (c : Cmd A) (k : A → Cmd B) : silent c → (∀ a, silent (k a)) → silent (x ← c; k x).
Proof.
  intros Hc Hk m. specialize (Hc m). rw /mbind /Cmd_bind. destruct (c m) as [[a|] m']; simpl in *; [|done].
  by rw Hk.
Qed.

Lemma silent_syscall {A} (f : fs → A * fs) : silent (syscall f).
Proof. intros m. rw /syscall. destruct (crashes _); [done|]. by destruct (f _). Qed.

Lemma silent_query {A} (f : fs → A) : silent (query f).
Proof. apply silent_syscall. Qed.

Lemma silent_at_call {A} (f : nat → A) : silent (at_call f).
Proof. intros m. apply silent_syscall. Qed.

Lemma silent_search_context : silent searchFailure.
Proof. done. Qed.

Lemma silent_context : silent contextFailure.
Proof. done. Qed.
End silent.

#[export] Hint Resolve silent_ret silent_bind silent_syscall silent_query silent_at_call silent_search_context silent_context : runstead.

(** Taking the definition of a computation apart. *)
Ltac silently :=
  repeat first
    [ progress intros
    | solve [eauto with runstead]
    | apply silent_bind; [solve [eauto with runstead] || idtac|]
    | case_match ].

Section silent_calls.
Context `{Environment, Hash, Reads, !Commands}.

Lemma silent_or_fail {A B} (c : Cmd (Failure + A)) (k : A → Cmd (Failure + B)) :
  silent c → (∀ a, silent (k a)) → silent (or_fail c k).
Proof. intros Hc Hk. apply silent_bind; [done|]. intros [failure|a]; [done|apply Hk]. Qed.

Lemma silent_reject {A} code : silent (reject (A := A) code).
Proof. done. Qed.

Lemma silent_observed {A} o (c : Cmd (Failure + A)) k : silent c → (∀ a, silent (k a)) → silent (observed_or o c k).
Proof. intros Hc Hk. apply silent_bind; [done|]. intros [failure|a]; [done|apply Hk]. Qed.

#[local] Hint Resolve silent_or_fail silent_reject silent_observed : runstead.

Lemma silent_resolveWrite root path : silent (resolveWrite root path).
Proof. rw /resolveWrite. apply silent_or_fail; [done|]. silently. Qed.

Lemma silent_resolve root path : silent (workspace_resolve root path).
Proof. rw /workspace_resolve. apply silent_or_fail; [done|]. silently. Qed.

Lemma silent_hashFile path : silent (hashFile path).
Proof. rw /hashFile. silently. Qed.

Lemma silent_before_state target : silent (before_state target).
Proof. rw /before_state. case_match; [|done]. apply silent_bind; [apply silent_hashFile|]. silently. Qed.

#[local] Hint Resolve silent_resolveWrite silent_resolve silent_hashFile silent_before_state : runstead.

Lemma silent_revalidate root path expected target : silent (revalidateWriteTarget root path expected target).
Proof. rw /revalidateWriteTarget. silently. Qed.

Lemma silent_read_loop limit st chunks : silent (read_loop limit st chunks).
Proof. revert st. induction chunks as [|chunk chunks IH]; intros st; simpl; silently. Qed.

Lemma silent_list_loop canonical relative names result : silent (list_loop canonical relative names result).
Proof. revert result. induction names as [|name names IH]; intros result; simpl; silently. Qed.

Lemma silent_walk_loop visits paths : silent (walk_loop visits paths).
Proof. revert paths. induction visits as [|[err|[path mode]] visits IH]; intros paths; simpl; silently. Qed.

Lemma silent_scan_lines root path text number matches lines : silent (scan_lines root path text number matches lines).
Proof. revert number matches. induction lines as [|line lines IH]; intros number matches; simpl; silently. Qed.

Lemma silent_scanSearchFile path root text : silent (scanSearchFile path root text).
Proof. rw /scanSearchFile. apply silent_bind; [apply silent_query|]. intros [err|content]; [done|apply silent_scan_lines]. Qed.

Lemma silent_search_loop limits root text s paths : silent (search_loop limits root text s paths).
Proof.
  revert s. induction paths as [|path paths IH]; intros s; simpl; [done|].
  apply silent_bind; [apply silent_scanSearchFile|]. intros []; [done|apply IH..].
Qed.

Lemma silent_search r o text path : silent (executeSearchText r o text path).
Proof.
  rw /executeSearchText. apply silent_observed; [apply silent_resolve|]. intros resolved. case_match; [done|]. case_match.
  - rw /searchWithRG. apply silent_bind; [apply silent_at_call|]. by intros [].
  - rw /searchWithFallback. apply silent_bind.
    + rw /searchFiles. apply silent_bind; [apply silent_query|]. intros [|[[] ?]]; try done;
        (apply silent_bind; [apply silent_query|]; intros visits; apply silent_bind; [apply silent_walk_loop|done]).
    + intros [paths|]; [|by apply silent_bind; [apply silent_search_context|]]. apply silent_bind; [apply silent_search_loop|].
      intros [s|]; [done|by apply silent_bind; [apply silent_search_context|]].
Qed.
End silent_calls.

(** ** Where a resolved target is *)

Lemma normalize_shape input clean :
  normalizeRelativePath input = inr clean → clean = "."%string ∨ ∃ ps, ps ≠ [] ∧ Forall good ps ∧ clean = join_slash ps.
Proof.
  rw /normalizeRelativePath. destruct (NormalizeWorkspacePath input) as [|c] eqn:Hn; [done|]. intros [= <-].
  pose proof Hn as Hn'. rw /NormalizeWorkspacePath in Hn.
  destruct (String.eqb_spec input "") as [|Hne]; [done|]. destruct (has_nul input) eqn:Hnul; [done|].
  destruct (IsAbs input) eqn:Ha; [done|]. destruct (existsb _ _) eqn:Hd; [done|]. apply existsb_dots in Hd.
  destruct (normalize_plain input Hne Hnul Ha Hd) as [Hc Hshape]. rw Hc in Hn'. injection Hn' as <-.
  destruct Hshape as [[_ ->]|[[Hnil Hall] ->]]; [by left|right]. eexists; split_and!; [exact Hnil| |done].
  eapply Forall_impl; [exact Hall|]. intros p (H1 & _ & H2 & H3). by split_and!.
Qed.

Section targets.
Context `{FileLaws}.

Lemma candidate_shape root input relative :
  rooted root → normalizeRelativePath input = inr relative →
  ∃ ps, Forall good ps ∧ Join root relative = abs ps ∧ within root (Join root relative) = true.
Proof.
  intros (rs & Hrs & ->) [->|(ps & Hne & Hps & ->)]%normalize_shape.
  - exists rs. rw Join_dot //. split_and!; [done|done|]. by apply within_abs.
  - exists (rs ++ ps). rw Join_good //. assert (Forall good (rs ++ ps)) by by apply Forall_app.
    split_and!; [done|done|]. apply within_abs; [done..|]. by exists ps.
Qed.

Lemma target_within root parent ps :
  rooted root → rooted parent → Forall good ps → within root parent = true →
  Clean (Join parent (Base (abs ps))) = Join parent (Base (abs ps)) ∧ within root (Join parent (Base (abs ps))) = true
  ∧ rooted (Join parent (Base (abs ps))).
Proof.
  intros (rs & Hrs & ->) (qs & Hqs & ->) Hps Hw. apply within_abs in Hw as [k ->]; [|done..].
  rw Base_abs //. destruct (last ps) as [b|] eqn:Hl; simpl.
  - assert (good b) as Hb.
    { apply last_Some in Hl as [ps' ->]. apply Forall_app in Hps as [_ Hb]. by inv Hb. }
    assert (Forall good ((rs ++ k) ++ [b])) as Hall by by apply Forall_app; split; [|constructor].
    rw Join_one // Clean_abs //. split_and!; [done| |by eexists]. apply within_abs; [done..|]. rw -app_assoc. by eexists.
  - rw Join_abs //=. rw reverse_involutive. change ("/" +:+ ?x) with (abs (rs ++ k)). rw Clean_abs //.
    split; [done|]. split; [|by exists (rs ++ k)]. apply within_abs; [done..|]. by exists k.
Qed.

(** The target of a write, in a file system. *)
Definition at_target (root : string) (target : writePath) (s : fs) : Prop :=
  within root (wp_canonical target) = true ∧ rooted (wp_canonical target)
  ∧ if wp_exists target then ∃ size, Lstat (wp_canonical target) s = inr (ModeRegular (wp_perm target), size)
    else Lstat (wp_canonical target) s = inl ErrNotExist.

(** The state that a precondition names. *)
Definition before_hash `{Hash} (path expected : string) (s : fs) : Prop :=
  (∃ content, ReadFile path s = inr content ∧ HashBytes content = expected)
  ∨ (Lstat path s = inl ErrNotExist ∧ expected = AbsentBeforeHash).

Context `{!Environment} `{Hash}.

Lemma query_inv {A} (f : fs → A) m a m' :
  query f m = (Some a, m') → a = f (m_fs m') ∧ m_fs m' = interfere (m_calls m) (m_fs m) ∧ m_calls m' = S (m_calls m).
Proof. rw /query /syscall. case_match; [done|]. by intros [= <- <-]. Qed.

Lemma bind_inv {A B} (c : Cmd A) (k : A → Cmd B) m b m' :
  (x ← c; k x) m = (Some b, m') → ∃ a m1, c m = (Some a, m1) ∧ k a m1 = (Some b, m').
Proof. rw /mbind /Cmd_bind. destruct (c m) as [[a|] m1]; [|done]. by exists a, m1. Qed.

Lemma resolveWrite_at root path m target m' :
  rooted root → resolveWrite root path m = (Some (inr target), m') → at_target root target (m_fs m').
Proof.
  intros Hroot. rw /resolveWrite /or_fail. intros (r & m1 & [= <- <-] & Hk)%bind_inv.
  destruct (normalizeRelativePath path) as [|relative] eqn:Hrel; [done|].
  destruct (candidate_shape _ _ _ Hroot Hrel) as (ps & Hps & Hcand & _). rw Hcand in Hk.
  destruct (within root (abs ps)); [|done]. simpl in Hk.
  apply bind_inv in Hk as (r & m2 & Hq & Hk). apply query_inv in Hq as (-> & _).
  destruct (EvalSymlinks _ _) as [|parent] eqn:Hev; [done|]. apply eval_absolute in Hev as [Ha Hclean].
  assert (rooted parent) as Hparent by (rw -Hclean; by apply Clean_rooted).
  destruct (within root parent) eqn:Hwp; [|done]. simpl in Hk.
  destruct (target_within root parent ps) as (Hc1 & Hc2 & Hc3); [done..|].
  apply bind_inv in Hk as (info & m3 & Hq & Hk). apply query_inv in Hq as (-> & _).
  destruct (Lstat _ _) as [[|]|[[]]] eqn:Hl; try done; injection Hk as <- <-; rw /at_target /= Hc1; split_and!; try done.
  by eexists.
Qed.

Lemma hashFile_inv path m hash m' :
  hashFile path m = (Some (hash, true, false), m') → ∃ content, ReadFile path (m_fs m') = inr content ∧ HashBytes content = hash.
Proof.
  rw /hashFile. intros (r & m1 & (-> & _)%query_inv & Hk)%bind_inv. injection Hk as Hk <-.
  destruct (ReadFile _ _) as [[]|content]; try done. injection Hk as <-. by exists content.
Qed.

(** A revalidation that passes has just seen the expected state at the target. *)
Lemma revalidate_checked root path expected target m m' :
  rooted root → revalidateWriteTarget root path expected target m = (Some None, m') →
  before_hash (wp_canonical target) expected (m_fs m') ∧ within root (wp_canonical target) = true.
Proof.
  intros Hroot. rw /revalidateWriteTarget. intros (r & m1 & Hr & Hk)%bind_inv.
  destruct r as [|target']; [done|]. apply resolveWrite_at in Hr as (Hw & _ & Ht); [|done].
  destruct (String.eqb_spec (wp_canonical target') (wp_canonical target)) as [E|]; [|done].
  cbn [negb] in Hk. rw E in Hw Ht Hk.
  destruct (wp_exists target').
  - apply bind_inv in Hk as ([[hash exists_] err] & m2 & Hh & Hk). injection Hk as Hk <-.
    destruct err, exists_; try done. simpl in Hk. destruct (String.eqb_spec hash expected) as [->|]; [|done].
    apply hashFile_inv in Hh. split; [by left|done].
  - destruct (String.eqb_spec AbsentBeforeHash expected) as [<-|Hne]; [|done].
    injection Hk as <-. split; [by right|done].
Qed.
End targets.

(** ** Computations that rename at most once *)

Section adds.
Context `{Environment}.

(** From a machine that satisfies [pre]: nothing is renamed, or one rename [P], and
    then the result, if the process lives, is [ok]. *)
Definition adds {A} (pre : Machine → Prop) (P : Renamed → Prop) (ok : Renamed → A → Prop) (c : Cmd A) : Prop :=
  ∀ m, pre m → m_renames (c m).2 = m_renames m
    ∨ ∃ rn, m_renames (c m).2 = m_renames m ++ [rn] ∧ P rn ∧ ∀ a, (c m).1 = Some a → ok rn a.

Implicit Types (pre : Machine → Prop) (P : Renamed → Prop).

Lemma adds_silent {A} pre P ok (c : Cmd A) : silent c → adds pre P ok c.
Proof. intros Hc m _. by left. Qed.

Lemma adds_bind {A B} pre P ok (c : Cmd A) (k : A → Cmd B) :
  silent c → (∀ m a m', pre m → c m = (Some a, m') → adds (eq m') P ok (k a)) → adds pre P ok (x ← c; k x).
Proof.
  intros Hc Hk m Hm. specialize (Hc m). rw /mbind /Cmd_bind. destruct (c m) as [[a|] m'] eqn:E; [|by left].
  specialize (Hk m a m' Hm E m' eq_refl). simpl in Hc. by rw Hc in Hk.
Qed.

Lemma adds_then {A B} pre P ok ok' (c : Cmd A) (k : A → Cmd B) :
  adds pre P ok c → (∀ a, silent (k a)) → (∀ rn a, P rn → ok rn a → ∀ m b m', k a m = (Some b, m') → ok' rn b) →
  adds pre P ok' (x ← c; k x).
Proof.
  intros Hc Hs Hk m Hm. rw /mbind /Cmd_bind. destruct (Hc m Hm) as [Hsame|(rn & Hr & HP & Hok)].
  - left. destruct (c m) as [[a|] m']; [|done]. simpl in *. by rw Hs.
  - right. exists rn. destruct (c m) as [[a|] m'] eqn:E; simpl in *; [|by split_and!]. rw Hs. split_and!; [done..|].
    intros b Hb. destruct (k a m') as [r m''] eqn:Ek. simpl in Hb. subst r. by eapply Hk; [|apply Hok|exact Ek].
Qed.

Lemma adds_imp {A} pre pre' P P' ok ok' (c : Cmd A) :
  adds pre P ok c → (∀ m, pre' m → pre m) → (∀ rn, P rn → P' rn) → (∀ rn a, P rn → ok rn a → ok' rn a) → adds pre' P' ok' c.
Proof.
  intros Hc Hpre HP Hok m Hm. destruct (Hc m (Hpre m Hm)) as [?|(rn & ? & ? & ?)]; [by left|right].
  exists rn. naive_solver.
Qed.

(** A step that is silent, and whatever is given up, adds nothing. *)
Lemma silent_abort name err : silent (abort_write name err).
Proof. rw /abort_write. silently. Qed.

Lemma silent_abandon name close e :
  silent (_ ← (if close : bool then _ ← syscall (Close name); mret tt else mret tt);
          _ ← syscall (λ s, (tt, Remove name s)); mret (Some (Untyped e))).
Proof. apply silent_bind; [case_match; silently|silently]. Qed.

Lemma adds_temp_step pre P ok name close step k :
  silent step → adds (λ _, True) P ok k → adds pre P ok (temp_step name close step k).
Proof.
  intros Hs Hk. rw /temp_step. apply adds_bind; [done|]. intros m [e|] m' _ _.
  - apply adds_silent, silent_abandon.
  - by eapply adds_imp; [exact Hk| | |].
Qed.

(** The rename itself. *)
Lemma adds_rename name path content m checked :
  checked (m_fs m) →
  adds (eq m) (λ rn, rn_path rn = path ∧ rn_content rn = content
    ∧ ∃ s, rn_before rn = interfere (rn_call rn) s ∧ checked s) (λ _, eq None)
    (temp_step name false (rename_call name path content) (mret None)).
Proof.
  intros Hch m' <-. rw /temp_step /mbind /Cmd_bind /rename_call.
  destruct (crashes (m_calls m)); [by left|].
  destruct (Rename name path (interfere (m_calls m) (m_fs m))) as [[e|] s'].
  - left. rw /syscall. simpl. by destruct (crashes _).
  - right. eexists. split; [done|]. split; [|by intros a [= <-]]. split_and!; [done..|]. by exists (m_fs m).
Qed.

Context `{!FileLaws, Hash}.

(** The justification of a rename: its place and content, and the state that the
    call before it saw. *)
Definition justified (root expected content : string) (rn : Renamed) : Prop :=
  rn_content rn = content ∧ within root (rn_path rn) = true
  ∧ ∃ s, rn_before rn = interfere (rn_call rn) s ∧ before_hash (rn_path rn) expected s.

Lemma adds_atomicWrite pre root path expected target content mode :
  rooted root →
  adds pre (justified root expected content) (λ _, eq None)
    (atomicWrite (wp_canonical target) content mode (revalidateWriteTarget root path expected target)).
Proof.
  intros Hroot. rw /atomicWrite. apply adds_bind; [apply silent_syscall|]. intros a2 [err|name] a3 _ _.
  { by apply adds_silent. }
  do 4 (apply adds_temp_step; [apply silent_syscall|]).
  apply adds_bind; [done|]. intros m0 [failure|] m1 _ _; [apply adds_silent, silent_abort|].
  apply adds_bind; [apply silent_revalidate|]. intros m [failure|] m' _ Hre; [apply adds_silent, silent_abort|].
  apply revalidate_checked in Hre as [Hb Hw]; [|done].
  eapply adds_imp; [by apply (adds_rename name (wp_canonical target) content m' (before_hash (wp_canonical target) expected))
    |by intros|..]; [|done].
  intros rn (Hp & Hcon & s & Hs & Hc). split_and!; rw ?Hp //. by exists s.
Qed.

Definition effect_result (e : effect) (r : Failure + string) : Prop :=
  match r with inl failure => failure = newFailure FailureWriteFailure | inr observed => observed = ef_after e end.

Lemma adds_perform pre root e :
  rooted root →
  adds pre (λ rn, justified root (ef_expected e) (ef_content e) rn ∧ ef_changed e = true)
    (λ _, effect_result e) (perform_effect root e).
Proof.
  intros Hroot. rw /perform_effect. apply adds_bind; [done|]. intros m0 [failure|] m1 _ _; [by apply adds_silent|].
  apply adds_bind; [apply silent_revalidate|]. intros n0 [failure|] n1 _ _; [by apply adds_silent|].
  destruct (ef_changed e) eqn:Hch.
  - apply (adds_then _ _ (λ _, eq None)).
    + apply (adds_then _ _ (λ _, eq None)); [|silently|by intros rn a _ <- m b m' [= <- _]].
      eapply adds_imp; [by apply (adds_atomicWrite (λ _, True))|done| |done]. done.
    + intros [failure|]; [done|]. apply silent_bind; [apply silent_hashFile|]. by intros [[??]?].
    + intros rn a _ <- m b m' ([[observed exists_] err] & k1 & Hh & Hk)%bind_inv. injection Hk as <- _.
      destruct (_ || _) eqn:E; [done|]. apply orb_false_iff in E as [_ E]. simpl in E.
      by apply negb_false_iff, String.eqb_eq in E as ->.
  - apply adds_silent. apply silent_bind; [apply silent_revalidate|]. intros [failure|]; [done|].
    apply silent_bind; [apply silent_hashFile|]. by intros [[??]?].
Qed.

(** ** The tools *)

(** What a write tool may put in place. *)
Definition proposed (r : Registry) (action : Action) (content : string) : Prop :=
  if String.eqb (act_Tool action) ToolWriteFile then content = argument action "content"
  else ∃ current relative,
    applyPatch current (argument action "patch") relative (MaxPatchTargetBytes (rg_limits r)) = Some (inr content).

(** The observation after a rename: evidence of it, or a failure that says that the
    effect went wrong. *)
Definition reported (expected : string) (rn : Renamed) (o : Observation) : Prop :=
  match ob_Failure o with
  | Some failure => ob_Success o = false ∧ f_Code failure = FailureWriteFailure
  | None => ob_Success o = true ∧ ∃ evidence, ob_Data o = DataWrite evidence
      ∧ we_BeforeHash evidence = expected ∧ we_AfterHash evidence = HashBytes (rn_content rn)
  end.

Definition fresh (o : Observation) : Prop := ob_Failure o = None ∧ ob_Success o = false.

Lemma adds_observed {A} pre P ok o (c : Cmd (Failure + A)) k :
  silent c → (∀ m a m', pre m → c m = (Some (inr a), m') → adds (eq m') P ok (k a)) → adds pre P ok (observed_or o c k).
Proof. intros Hc Hk. apply adds_bind; [done|]. intros m [failure|a] m' Hm E; [by apply adds_silent|by eapply Hk]. Qed.

(** The effect and the observation made of it. *)
Lemma adds_written pre (r : Registry) o tool e diff limit :
  rooted (rg_root r) → fresh o → ef_before e = ef_expected e → ef_after e = HashBytes (ef_content e) →
  adds pre (justified (rg_root r) (ef_expected e) (ef_content e)) (reported (ef_expected e))
    (observed_or o (perform_effect (rg_root r) e) (λ observed, mret (written o tool e observed (diff observed) limit))).
Proof.
  intros Hroot [Hf Hs] Hb Ha. apply (adds_then _ _ (λ _, effect_result e)).
  - eapply adds_imp; [by apply (adds_perform (λ _, True))|done|by intros rn []|done].
  - by intros [failure|observed].
  - intros rn [failure|observed] (Hc & _) Hr m b m' Hk; simpl in Hr; injection Hk as <- _; rw /reported.
    + by rw Hr.
    + rw /written. destruct (boundedDiff _ _) as [[text n] truncated]. rw /= Hf. split; [done|].
      eexists. split; [done|]. rw /= Hb Hr Ha Hc. done.
Qed.

Lemma silent_readBoundedPrefix path limit : silent (readBoundedPrefix path limit).
Proof. rw /readBoundedPrefix. silently. Qed.

Lemma silent_fileSize path : silent (fileSize path).
Proof. rw /fileSize. silently. Qed.

Lemma adds_write_file pre r o path content expected :
  rooted (rg_root r) → fresh o →
  adds pre (justified (rg_root r) expected content) (reported expected) (executeWriteFile r o path content expected).
Proof.
  intros Hroot Ho. rw /executeWriteFile. apply adds_observed; [apply silent_resolveWrite|]. intros m target m1 _ _.
  apply adds_observed; [apply silent_before_state|]. intros m2 before m3 _ _.
  destruct (String.eqb_spec before expected) as [->|]; [|by apply adds_silent]. simpl.
  apply adds_bind; [case_match; [apply silent_readBoundedPrefix|done]|]. intros m4 text m5 _ _.
  set (e := {| ef_path := path; ef_target := target; ef_before := expected; ef_expected := expected;
               ef_content := content; ef_after := HashBytes content; ef_changed := _ |}).
  by apply (adds_written _ r o ToolWriteFile e (λ _, _)).
Qed.

Lemma adds_apply_patch pre r o path patch expected :
  rooted (rg_root r) → fresh o →
  adds pre (λ rn, ∃ content, justified (rg_root r) expected content rn
      ∧ ∃ current relative, applyPatch current patch relative (MaxPatchTargetBytes (rg_limits r)) = Some (inr content))
    (reported expected) (executeApplyPatch r o path patch expected).
Proof.
  intros Hroot Ho. rw /executeApplyPatch. apply adds_observed; [apply silent_resolveWrite|]. intros m target m1 _ _.
  destruct (wp_exists target) eqn:Hex; [|by apply adds_silent]. simpl.
  apply adds_observed; [apply silent_before_state|]. intros m2 before m3 _ _.
  destruct (String.eqb_spec before expected) as [->|]; [|by apply adds_silent]. simpl.
  apply adds_bind; [apply silent_fileSize|]. intros m4 size m5 _ _.
  case_match; [by apply adds_silent|]. apply adds_bind; [apply silent_query|]. intros m6 [err|current] m7 _ _; [by apply adds_silent|].
  destruct (applyPatch current patch _ _) as [[err|patched]|] eqn:Hp; simpl; [by apply adds_silent| |by apply adds_silent].
  set (e := {| ef_path := path; ef_target := target; ef_before := expected; ef_expected := expected;
               ef_content := patched; ef_after := HashBytes patched; ef_changed := _ |}).
  eapply adds_imp; [by apply (adds_written (λ _, True) r o ToolApplyPatch e (λ _, _))|done| |done].
  intros rn Hj. exists patched. split; [done|]. by exists current, (wp_relative target).
Qed.
End adds.

Section execution.
Context `{Environment, !FileLaws, Hash, Reads, !Commands}.

Lemma silent_read_file r o path : silent (executeReadFile r o path).
Proof.
  rw /executeReadFile. apply silent_observed; [apply silent_resolve|]. intros resolved. case_match; [done|].
  apply silent_bind; [|silently]. rw /readBoundedFile. apply silent_bind; [apply silent_query|].
  intros [|content]; [done|]. apply silent_bind; [apply silent_read_loop|done].
Qed.

Lemma silent_list_files r o path : silent (executeListFiles r o path).
Proof.
  rw /executeListFiles. apply silent_observed; [done|]. intros relative.
  apply silent_observed; [apply silent_resolve|]. intros parent. case_match; [done|].
  apply silent_bind; [apply silent_query|]. intros [|[final size]]; [done|].
  apply silent_observed; [apply silent_resolve|]. intros resolved. case_match; [done|].
  apply silent_bind; [apply silent_query|]. intros [|names]; [done|].
  apply silent_observed; [apply silent_list_loop|done].
Qed.

Lemma silent_git r o tool : silent (executeGit r o tool).
Proof. rw /executeGit. apply silent_bind; [apply silent_at_call|]. by intros []. Qed.

Lemma silent_recipe r o id : silent (executeRunRecipe r o id).
Proof.
  rw /executeRunRecipe. destruct (rg_recipes r) as [catalog|]; [|done]. destruct (catalog !! id) as [selected|]; [|done].
  apply silent_observed.
  - rw /resolveRecipeWorkingDirectory. apply silent_or_fail; [apply silent_resolve|]. intros resolved. by case_match.
  - intros [cwd normalized]. apply silent_bind; [apply silent_at_call|]. intros env.
    apply silent_bind; [apply silent_at_call|]. intros process. by case_match.
Qed.

Lemma Execute_adds (r : Registry) sequence action :
  rooted (rg_root r) → let expected := argument action "expected_before_hash" in
  adds (λ _, True) (λ rn, IsWriteTool (act_Tool action) = true ∧ Allows r (act_Tool action) = true
      ∧ ∃ content, justified (rg_root r) expected content rn ∧ proposed r action content)
    (reported expected) (Execute r sequence action).
Proof.
  intros Hroot expected. rw /Execute. set (o := newObservation _ _ _). assert (fresh o) as Ho by done.
  apply adds_bind; [done|]. intros m1 [failure|] m2 _ _; [by apply adds_silent|].
  destruct (ValidateArguments_ r (act_Tool action) (act_Arguments action)) as [[] [failure|]] eqn:Hv; try by apply adds_silent.
  assert (Allows r (act_Tool action) = true) as Hallow.
  { rw /ValidateArguments_ in Hv. by destruct (Allows r (act_Tool action)). }
  destruct (String.eqb_spec (act_Tool action) ToolReadFile); [apply adds_silent, silent_read_file|].
  destruct (String.eqb_spec (act_Tool action) ToolListFiles); [apply adds_silent, silent_list_files|].
  destruct (String.eqb_spec (act_Tool action) ToolSearchText); [apply adds_silent, silent_search|].
  destruct (String.eqb (act_Tool action) ToolGitStatus || String.eqb (act_Tool action) ToolGitDiff);
    [apply adds_silent, silent_git|].
  rw /IsWriteTool /proposed. destruct (String.eqb_spec (act_Tool action) ToolWriteFile).
  { eapply adds_imp; [by apply (adds_write_file (λ _, True))|done| |done]. intros rn Hj. split_and!; [done..|].
    by exists (argument action "content"). }
  destruct (String.eqb_spec (act_Tool action) ToolApplyPatch).
  { eapply adds_imp; [by apply (adds_apply_patch (λ _, True))|done| |done]. intros rn (content & Hj & Hp).
    split_and!; [done..|]. by exists content. }
  destruct (String.eqb _ _); [apply adds_silent, silent_recipe|by apply adds_silent].
Qed.

(** The rename of an execution: what is known of it. *)
Definition effect_of (r : Registry) (action : Action) (rn : Renamed) : Prop :=
  IsWriteTool (act_Tool action) = true ∧ Allows r (act_Tool action) = true
  ∧ within (rg_root r) (rn_path rn) = true ∧ proposed r action (rn_content rn)
  ∧ ∃ s, rn_before rn = interfere (rn_call rn) s ∧ before_hash (rn_path rn) (argument action "expected_before_hash") s.

Lemma Execute_effect (r : Registry) sequence action m :
  rooted (rg_root r) →
  let m' := (Execute r sequence action m).2 in
  m_renames m' = m_renames m
  ∨ ∃ rn, m_renames m' = m_renames m ++ [rn] ∧ effect_of r action rn
    ∧ ∀ o, (Execute r sequence action m).1 = Some o → reported (argument action "expected_before_hash") rn o.
Proof.
  intros Hroot. destruct (Execute_adds r sequence action Hroot m I)
    as [Hsame|(rn & Hr & (Hw & Ha & content & (Hc & Hin & Hb) & Hp) & Hok)]; [by left|right].
  exists rn. rw /effect_of Hc. by split_and!.
Qed.

(** C33: what an execution may change.  Whatever other processes do, wherever this one
    dies and whatever the model proposed: executing an action renames at most one
    file into place.  Then the action is a write that the view allows, the file is
    inside the workspace, its content is the proposed one (or the patched one), and
    just before the rename the target was seen in the state that the action expects;
    and what is reported, if the process lives, is evidence with the hashes of before
    and after or the failure of the effect: no other failure follows a change. *)
Theorem Execute_writes (r : Registry) sequence action m :
  rooted (rg_root r) →
  let m' := (Execute r sequence action m).2 in
  m_renames m' = m_renames m
  ∨ ∃ rn, m_renames m' = m_renames m ++ [rn]
    ∧ IsWriteTool (act_Tool action) = true ∧ Allows r (act_Tool action) = true
    ∧ within (rg_root r) (rn_path rn) = true ∧ proposed r action (rn_content rn)
    ∧ (∃ s, rn_before rn = interfere (rn_call rn) s
         ∧ before_hash (rn_path rn) (argument action "expected_before_hash") s)
    ∧ ∀ o, (Execute r sequence action m).1 = Some o → reported (argument action "expected_before_hash") rn o.
Proof.
  intros Hroot m'. destruct (Execute_effect r sequence action m Hroot) as [?|(rn & ? & (? & ? & ? & ? & ?) & ?)]; [by left|].
  right. exists rn. by split_and!.
Qed.
End execution.
