(* ===== verification/ReconcileLaws.v ===== *)
(** * Interrupted writes

    When no other process acts, the reconciliation of a write that died anywhere
    says exactly whether its effect took place. *)

From S2P Require Import Prelude GoTime Text Paths Patch Json Protocol Recipe Observations Workspace ToolArguments Writing Reading Search Tools PathLaws WritingLaws.

Local Open Scope runstead_scope.

(** Nobody else acts. *)
Definition undisturbed `{Environment} : Prop := ∀ n s, interfere n s = s.

(** A machine that only runs this process and does not die. *)
Definition calm `{FileSystem} : Environment := {|
  interfere := λ _ s, s; crashes := λ _, false; context_error := λ _, None |}.

Definition at_rest `{FileSystem} (s : fs) : Machine := {| m_fs := s; m_calls := 0; m_renames := [] |}.

(** ** What the queries find *)

Section finding.
Context `{FileSystem} `{Hash}.

Definition resolve_in (root path : string) (s : fs) : Failure + writePath :=
  match normalizeRelativePath path with
  | inl failure => inl failure
  | inr relative =>
    let candidate := Join root relative in
    if negb (within root candidate) then inl (newFailure FailurePathTraversal)
    else
      match EvalSymlinks (Dir candidate) s with
      | inl err => inl (not_found_or_read err)
      | inr parent =>
        if negb (within root parent) then inl (newFailure FailureSymlinkEscape)
        else
          let target := Join parent (Base candidate) in
          match Lstat target s with
          | inl ErrNotExist =>
            inr {| wp_relative := relative; wp_canonical := Clean target; wp_exists := false; wp_perm := 0 |}
          | inl _ => inl (newFailure FailureReadFailure)
          | inr (ModeSymlink, _) => inl (newFailure FailureSymlinkEscape)
          | inr (ModeRegular perm, _) =>
            inr {| wp_relative := relative; wp_canonical := Clean target; wp_exists := true; wp_perm := perm |}
          | inr _ => inl (newFailure FailureWrongType)
          end
      end
  end.

Definition state_in (target : writePath) (s : fs) : Failure + string :=
  if wp_exists target then
    match ReadFile (wp_canonical target) s with
    | inl _ => inl (newFailure FailureReadFailure)
    | inr content => inr (HashBytes content)
    end
  else inr AbsentBeforeHash.

End finding.

Section reading_only.
Context `{Environment} `{Hash}.

(** A computation that only reads, and what it finds in [s] unless the process dies. *)
Definition finds {A} (s : fs) (c : Cmd A) (a : A) : Prop :=
  ∀ m, m_fs m = s → m_fs (c m).2 = s ∧ m_renames (c m).2 = m_renames m
    ∧ ((c m).1 = Some a ∨ (c m).1 = None ∧ ∃ n, crashes n = true).

Lemma finds_ret {A} s (a : A) : finds s (mret a) a.
Proof. intros m <-. split_and!; [done..|by left]. Qed.

Lemma finds_bind {A B} s (c : Cmd A) (k : A → Cmd B) a b : finds s c a → finds s (k a) b → finds s (x ← c; k x) b.
Proof.
  intros Hc Hk m Hm. destruct (Hc m Hm) as (E1 & E2 & E3). rw /mbind /Cmd_bind.
  destruct (c m) as [[a'|] m']; simpl in *.
  - destruct E3 as [[= ->]|[? _]]; [|done]. destruct (Hk m' E1) as (K1 & K2 & K3). by rw K1 K2 E2.
  - destruct E3 as [|[_ E3]]; [done|]. by split_and!; [..|right].
Qed.

Lemma finds_or_fail {A B} s (c : Cmd (Failure + A)) (k : A → Cmd (Failure + B)) r b :
  finds s c r → match r with inl failure => b = inl failure | inr a => finds s (k a) b end → finds s (or_fail c k) b.
Proof. intros Hc Hk. eapply finds_bind; [exact Hc|]. destruct r; [subst b; apply finds_ret|done]. Qed.

Context (Hquiet : undisturbed).

Lemma finds_query {A} s (f : fs → A) : finds s (query f) (f s).
Proof.
  intros m <-. rw /query /syscall Hquiet. destruct (crashes (m_calls m)) eqn:E; simpl; split_and!; try done; [right|by left].
  split; [done|by eexists].
Qed.

Lemma finds_resolve s root path : finds s (resolveWrite root path) (resolve_in root path s).
Proof.
  rw /resolveWrite /resolve_in. eapply finds_or_fail; [apply finds_ret|].
  destruct (normalizeRelativePath path) as [failure|relative]; [done|].
  case_match; [apply finds_ret|]. eapply finds_bind; [apply finds_query|].
  destruct (EvalSymlinks _ s) as [err|parent]; [apply finds_ret|]. case_match; [apply finds_ret|].
  eapply finds_bind; [apply finds_query|]. destruct (Lstat _ s) as [[]|[[] size]]; apply finds_ret.
Qed.

Lemma finds_hashFile s path :
  finds s (hashFile path)
    match ReadFile path s with inl ErrNotExist => (""%string, false, false) | inl _ => (""%string, true, true)
                             | inr content => (HashBytes content, true, false) end.
Proof. rw /hashFile. eapply finds_bind; [apply finds_query|apply finds_ret]. Qed.

Lemma finds_state s target : finds s (before_state target) (state_in target s).
Proof.
  rw /before_state /state_in. case_match; [|apply finds_ret]. eapply finds_bind; [apply finds_hashFile|].
  destruct (ReadFile _ s) as [[]|content]; apply finds_ret.
Qed.

Lemma finds_fileSize s path : finds s (fileSize path) (match Stat path s with inl _ => -1 | inr (_, size) => size end)%Z.
Proof. rw /fileSize. eapply finds_bind; [apply finds_query|]. destruct (Stat path s) as [|[]]; apply finds_ret. Qed.
End reading_only.

(** ** Reconciliation as a function of the file system *)

Definition status_in `{FileSystem} `{Hash} (root path expected after : string) (s : fs) : ReconcileStatus :=
  match resolve_in root path s with
  | inl _ => ReconcileHumanReview
  | inr target =>
    match state_in target s with
    | inl _ => ReconcileHumanReview
    | inr before =>
      if String.eqb before expected then ReconcileNotStarted
      else if negb (String.eqb after "") && String.eqb before after then ReconcileCompleted else ReconcileHumanReview
    end
  end.

(** Reconciliation in peace: the status, and the evidence of a completed effect. *)
Definition reconciled `{FileSystem} `{Hash} (root : string) (intent : WriteIntent) (s : fs) : option ReconcileResult :=
  (@ReconcileWrite _ calm _ root intent (at_rest s)).1.

Lemma reconciled_spec `{FileSystem} `{Hash} root intent path expected s :
  decodeWriteIntent (wi_Tool intent) (wi_Arguments intent) = inr (path, expected) →
  ∃ result, reconciled root intent s = Some result
    ∧ rr_Status result = status_in root path expected (wi_ExpectedAfterHash intent) s
    ∧ (rr_Status result = ReconcileCompleted → ∃ evidence, rr_Evidence result = Some evidence
         ∧ we_BeforeHash evidence = expected ∧ we_AfterHash evidence = wi_ExpectedAfterHash intent).
Proof.
  intros Hd. assert (@undisturbed _ calm) as Hquiet by done.
  assert (∀ v, @finds _ calm _ s (@ReconcileWrite _ calm _ root intent) v → reconciled root intent s = Some v) as Hfinds.
  { intros v Hv. destruct (Hv (at_rest s) eq_refl) as (_ & _ & [?|[_ [n Hn]]]); done. }
  assert (∃ v, @finds _ calm _ s (@ReconcileWrite _ calm _ root intent) v
    ∧ rr_Status v = status_in root path expected (wi_ExpectedAfterHash intent) s
    ∧ (rr_Status v = ReconcileCompleted → ∃ evidence, rr_Evidence v = Some evidence
         ∧ we_BeforeHash evidence = expected ∧ we_AfterHash evidence = wi_ExpectedAfterHash intent)) as (v & Hv & Hrest);
    [|exists v; split; [by apply Hfinds|done]].
  rw /status_in. destruct (resolve_in root path s) as [failure|target] eqn:Hr.
  { eexists. split; [rw /ReconcileWrite Hd; eapply finds_bind; [by apply finds_resolve|]; rw Hr; apply finds_ret|].
    by split. }
  destruct (state_in target s) as [failure|before] eqn:Hs.
  { eexists. split.
    - rw /ReconcileWrite Hd. eapply finds_bind; [by apply finds_resolve|]. rw Hr.
      eapply finds_bind; [by apply finds_state|]. rw Hs. apply finds_ret.
    - by split. }
  eexists. split.
  { rw /ReconcileWrite Hd. eapply finds_bind; [by apply finds_resolve|]. rw Hr.
    eapply finds_bind; [by apply finds_state|]. rw Hs.
    eapply finds_bind; [|apply finds_ret].
    instantiate (1 := if wp_exists target then _ else _). destruct (wp_exists target); [by apply finds_fileSize|apply finds_ret]. }
  destruct (String.eqb before expected); [done|].
  destruct (negb (String.eqb (wi_ExpectedAfterHash intent) "")); [|done].
  destruct (String.eqb_spec before (wi_ExpectedAfterHash intent)) as [->|]; [|done]. simpl. split; [done|]. intros _. by eexists.
Qed.

(** ** Computations that change nothing *)

Section still.
Context `{Environment} `{Hash}.
Context (Hquiet : undisturbed).

Definition still {A} (c : Cmd A) : Prop := ∀ m, m_fs (c m).2 = m_fs m ∧ m_renames (c m).2 = m_renames m.

Lemma still_ret {A} (a : A) : still (mret a).
Proof. done. Qed.

Lemma still_context : still contextFailure.
Proof. done. Qed.

Lemma still_query {A} (f : fs → A) : still (query f).
Proof. intros m. rw /query /syscall Hquiet. by destruct (crashes _). Qed.

Lemma still_bind {A B} (c : Cmd A) (k : A → Cmd B) : still c → (∀ a, still (k a)) → still (x ← c; k x).
Proof.
  intros Hc Hk m. destruct (Hc m) as [E1 E2]. rw /mbind /Cmd_bind. destruct (c m) as [[a|] m']; [|done].
  simpl in *. destruct (Hk a m') as [E3 E4]. by rw E3 E4.
Qed.

Lemma still_finds {A} (c : Cmd A) f : (∀ s, finds s c (f s)) → still c.
Proof. intros Hf m. destruct (Hf (m_fs m) m eq_refl) as (E1 & E2 & _). done. Qed.

Lemma still_resolve root path : still (resolveWrite root path).
Proof. eapply still_finds. intros s. by apply finds_resolve. Qed.

Lemma still_hashFile path : still (hashFile path).
Proof. eapply (still_finds _ (λ s, _)). intros s. by apply finds_hashFile. Qed.

Lemma still_revalidate root path expected target : still (revalidateWriteTarget root path expected target).
Proof.
  rw /revalidateWriteTarget. apply still_bind; [apply still_resolve|]. intros [failure|t]; [done|].
  case_match; [done|]. case_match; [|done]. apply still_bind; [apply still_hashFile|]. by intros [[??]?].
Qed.

Lemma still_prefix path limit : still (readBoundedPrefix path limit).
Proof. rw /readBoundedPrefix. apply still_bind; [apply still_query|done]. Qed.
End still.

(** ** Untouched file systems *)

Section untouched_laws.
Context `{FileLaws}.

Lemma untouched_refl s : untouched temp s s.
Proof. done. Qed.

Lemma untouched_trans s1 s2 s3 : untouched temp s1 s2 → untouched temp s2 s3 → untouched temp s1 s3.
Proof.
  intros H12 H23 p Hp. destruct (H12 p Hp) as (E1 & E2 & E3), (H23 p Hp) as (K1 & K2 & K3).
  by rw K1 K2 K3 E1 E2 E3.
Qed.

Context `{Hash} (root path : string) (target : writePath).

(** The paths that a write consults are no temporary files. *)
Definition ordinary : Prop :=
  ¬ temp (wp_canonical target)
  ∧ ∀ relative, normalizeRelativePath path = inr relative → ¬ temp (Dir (Join root relative)).

Context (Hroot : rooted root) (Hord : ordinary).

(** What resolving consults. *)
Lemma resolve_in_inv s :
  resolve_in root path s = inr target →
  ∃ relative parent, normalizeRelativePath path = inr relative
    ∧ within root (Join root relative) = true ∧ EvalSymlinks (Dir (Join root relative)) s = inr parent
    ∧ within root parent = true ∧ Join parent (Base (Join root relative)) = wp_canonical target
    ∧ Clean (wp_canonical target) = wp_canonical target ∧ wp_relative target = relative
    ∧ (if wp_exists target then ∃ size, Lstat (wp_canonical target) s = inr (ModeRegular (wp_perm target), size)
       else Lstat (wp_canonical target) s = inl ErrNotExist ∧ wp_perm target = 0%Z).
Proof.
  rw /resolve_in. destruct (normalizeRelativePath path) as [|relative] eqn:Hrel; [done|].
  destruct (candidate_shape _ _ _ Hroot Hrel) as (ps & Hps & Hcand & Hw). rw Hw. simpl.
  destruct (EvalSymlinks _ s) as [|parent] eqn:Hev; [done|]. pose proof (eval_absolute _ _ _ Hev) as [Ha Hclean].
  assert (rooted parent) as Hparent by (rw -Hclean; by apply Clean_rooted).
  destruct (within root parent) eqn:Hwp; [|done]. simpl.
  destruct (target_within root parent ps) as (Hc1 & _); [done..|]. rw -Hcand in Hc1.
  intros Hres. exists relative, parent.
  destruct (Lstat _ s) as [[]|[[] size]] eqn:Hl; try done; injection Hres as <-; rw /= !Hc1; split_and!; try done.
  by eexists.
Qed.

Lemma resolve_in_intro s relative parent exists_ perm :
  normalizeRelativePath path = inr relative → within root (Join root relative) = true →
  EvalSymlinks (Dir (Join root relative)) s = inr parent → within root parent = true →
  Join parent (Base (Join root relative)) = wp_canonical target → Clean (wp_canonical target) = wp_canonical target →
  (if exists_ : bool then ∃ size, Lstat (wp_canonical target) s = inr (ModeRegular perm, size)
   else Lstat (wp_canonical target) s = inl ErrNotExist ∧ perm = 0%Z) →
  resolve_in root path s
  = inr {| wp_relative := relative; wp_canonical := wp_canonical target; wp_exists := exists_; wp_perm := perm |}.
Proof.
  intros Hrel Hw Hev Hwp Hj Hc Hl. rw /resolve_in Hrel Hw /= Hev Hwp /= Hj. destruct exists_.
  - destruct Hl as [size ->]. by rw Hc.
  - destruct Hl as [-> ->]. by rw Hc.
Qed.

Lemma resolve_untouched s s' : untouched temp s s' → resolve_in root path s = inr target → resolve_in root path s' = inr target.
Proof.
  intros Hu (relative & parent & Hrel & Hw & Hev & Hwp & Hj & Hc & Hr & Hl)%resolve_in_inv. destruct Hord as [Ht Hd].
  destruct (Hu _ Ht) as (_ & El & _), (Hu _ (Hd _ Hrel)) as (_ & _ & Ee).
  rw (resolve_in_intro s' relative parent (wp_exists target) (wp_perm target)) ?Ee ?El //.
  rw -Hr. by destruct target.
Qed.

Lemma state_untouched s s' : untouched temp s s' → state_in target s' = state_in target s.
Proof. intros Hu. destruct Hord as [Ht _]. destruct (Hu _ Ht) as (Er & _). by rw /state_in Er. Qed.

Lemma resolved_replaceable s : resolve_in root path s = inr target → replaceable (wp_canonical target) s.
Proof.
  intros (relative & parent & _ & _ & _ & _ & _ & _ & _ & Hl)%resolve_in_inv. rw /replaceable.
  destruct (wp_exists target); [right|left]; naive_solver.
Qed.

(** The file system right after the rename of a complete temporary file. *)
Definition placed (s0 : fs) (content : string) (s' : fs) : Prop :=
  ∃ name s, untouched temp s0 s ∧ temp name ∧ ReadFile name s = inr content
    ∧ (Rename name (wp_canonical target) s).1 = None ∧ s' = (Rename name (wp_canonical target) s).2.

Lemma placed_found s0 content s' :
  resolve_in root path s0 = inr target → placed s0 content s' →
  ReadFile (wp_canonical target) s' = inr content
  ∧ ∃ target', resolve_in root path s' = inr target' ∧ state_in target' s' = inr (HashBytes content).
Proof.
  intros Hs0 (name & s & Hu & Hn & Hc & Hok & ->). pose proof (resolve_untouched _ _ Hu Hs0) as Hs.
  destruct (rename_done name (wp_canonical target) s content Hn Hc (resolved_replaceable _ Hs) Hok)
    as (Hread & (perm & size & Hl) & Hev & _).
  split; [done|]. apply resolve_in_inv in Hs as (relative & parent & Hrel & Hw & He & Hwp & Hj & Hcl & Hr & _).
  eexists. split.
  - apply (resolve_in_intro _ relative parent true perm); try done; [|by eexists].
    apply Hev; [|done]. destruct Hord as [_ Hd]. by apply Hd.
  - by rw /state_in /= Hread.
Qed.
End untouched_laws.

(** ** Running a write from a given file system *)

Section interrupted.
Context `{Environment} `{!FileLaws} `{Hash} (Hquiet : undisturbed).
Context (root path : string) (target : writePath) (content expected : string) (s0 : fs) (before : list Renamed).
Context (Hroot : rooted root) (Hord : ordinary root path target) (Hres : resolve_in root path s0 = inr target)
  (Hstate : state_in target s0 = inr expected).

(** Nothing has happened, or the content is in place. *)
Definition settled_as (m : Machine) : Prop :=
  (untouched temp s0 (m_fs m) ∧ m_renames m = before)
  ∨ (placed target s0 content (m_fs m) ∧ ∃ rn, m_renames m = before ++ [rn]).

(** A property of file systems that none of the files of [s0] has changed in. *)
Definition harmless (P : fs → Prop) : Prop := ∀ s, P s → untouched temp s0 s.

Definition leads {A} (P : fs → Prop) (c : Cmd A) : Prop :=
  ∀ m, m_renames m = before → P (m_fs m) → settled_as (c m).2.

Lemma leads_still {A} P (c : Cmd A) : harmless P → still c → leads P c.
Proof. intros HP Hc m Hm Hs. destruct (Hc m) as [E1 E2]. left. rw E1 E2. split; [by apply HP|done]. Qed.

Lemma leads_ret {A} P (a : A) : harmless P → leads P (mret a).
Proof. intros HP. by apply leads_still. Qed.

Lemma leads_bind_still {A B} P (c : Cmd A) (k : A → Cmd B) :
  harmless P → still c → (∀ a, leads P (k a)) → leads P (x ← c; k x).
Proof.
  intros HP Hc Hk m Hm Hs. destruct (Hc m) as [E1 E2]. rw /mbind /Cmd_bind. destruct (c m) as [[a|] m']; simpl in *.
  - apply Hk; [by rw E2|by rw E1].
  - left. rw E1 E2. split; [by apply HP|done].
Qed.

Lemma leads_bind_finds {A B} P (c : Cmd A) (k : A → Cmd B) f :
  harmless P → (∀ s, P s → finds s c (f s)) → (∀ s, P s → leads (eq s) (k (f s))) → leads P (x ← c; k x).
Proof.
  intros HP Hc Hk m Hm Hs. destruct (Hc _ Hs m eq_refl) as (E1 & E2 & E3). rw /mbind /Cmd_bind.
  destruct (c m) as [[a|] m']; simpl in *.
  - destruct E3 as [[= ->]|[? _]]; [|done]. apply (Hk _ Hs); [by rw E2|by rw E1].
  - left. rw E1 E2. split; [by apply HP|done].
Qed.

Lemma leads_syscall {A B} P P' (f : fs → A * fs) (k : A → Cmd B) :
  harmless P → (∀ s, P s → P' (f s).1 (f s).2) → (∀ a, leads (P' a) (k a)) → leads P (x ← syscall f; k x).
Proof.
  intros HP Hf Hk m Hm Hs. rw /mbind /Cmd_bind /syscall Hquiet.
  destruct (crashes (m_calls m)); [left; split; [by apply HP|done]|].
  specialize (Hf _ Hs). destruct (f (m_fs m)) as [a s']. by apply Hk.
Qed.

Lemma leads_then {A B} P (c : Cmd A) (k : A → Cmd B) : leads P c → (∀ a, still (k a)) → leads P (x ← c; k x).
Proof.
  intros Hc Hk m Hm Hs. specialize (Hc m Hm Hs). rw /mbind /Cmd_bind. destruct (c m) as [[a|] m']; [|done].
  simpl in Hc. destruct (Hk a m') as [E1 E2]. rw /settled_as E1 E2. exact Hc.
Qed.

(** A temporary file, perhaps complete. *)
Definition staged (name : string) (s : fs) : Prop := temp name ∧ untouched temp s0 s.
Definition complete (name : string) (s : fs) : Prop := staged name s ∧ ReadFile name s = inr content.

Lemma harmless_staged name : harmless (staged name).
Proof. by intros s []. Qed.

Lemma harmless_complete name : harmless (complete name).
Proof. by intros s [[] _]. Qed.

(** A call on the temporary file. *)
Lemma staged_call {A} name (f : fs → A * fs) s : staged name s → untouched temp s (f s).2 → staged name (f s).2.
Proof. intros [Hn Hu] Hf. split; [done|]. by eapply untouched_trans. Qed.

Lemma leads_abandon name close err :
  leads (staged name)
    (_ ← (if close : bool then _ ← syscall (Close name); mret tt else mret tt);
     _ ← syscall (λ s, (tt, Remove name s)); mret (Some (Untyped err))).
Proof.
  assert (leads (staged name) (_ ← syscall (λ s, (tt, Remove name s)); mret (Some (Untyped err)))) as Hrest.
  { eapply (leads_syscall _ (λ _, staged name)); [apply harmless_staged| |intros; apply leads_ret, harmless_staged].
    intros s Hs. apply (staged_call name (λ s, (tt, Remove name s))); [done|]. by apply remove_untouched, Hs. }
  destruct close; [|exact Hrest]. intros m Hm Hs.
  assert (leads (staged name) (_ ← syscall (Close name); _ ← syscall (λ s, (tt, Remove name s)); mret (Some (Untyped err)))) as Hall.
  { eapply (leads_syscall _ (λ _, staged name)); [apply harmless_staged| |done].
    intros s Hs'. apply staged_call; [done|]. by apply close_untouched, Hs'. }
  specialize (Hall m Hm Hs). revert Hall. rw /mbind /Cmd_bind. by destruct (syscall (Close name) m) as [[]].
Qed.

Lemma leads_temp_step P name close (f : fs → option IOError * fs) k :
  (∀ s, P s → staged name s) → (∀ s, staged name s → untouched temp s (f s).2) →
  (∀ s, P s → (f s).1 = None → complete name (f s).2) → leads (complete name) k →
  leads P (temp_step name close (syscall f) k).
Proof.
  intros HP Hf Hc Hk. rw /temp_step.
  eapply (leads_syscall _ (λ a s, staged name s ∧ (a = None → complete name s))).
  - intros s Hs. by apply harmless_staged with name, HP.
  - intros s Hs. split; [apply staged_call; [by apply HP|by apply Hf, HP]|by apply Hc].
  - intros [err|] m Hm [Hs Hcomplete]; [by apply leads_abandon|]. by apply Hk, Hcomplete.
Qed.

Lemma leads_abort name err : leads (complete name) (abort_write name err).
Proof.
  rw /abort_write. eapply (leads_syscall _ (λ _, staged name)); [apply harmless_complete| |intros; apply leads_ret, harmless_staged].
  intros s [Hs _]. apply (staged_call name (λ s, (tt, Remove name s))); [done|]. by apply remove_untouched, Hs.
Qed.

Lemma leads_rename name :
  leads (complete name) (temp_step name false (rename_call name (wp_canonical target) content) (mret None)).
Proof.
  intros m Hm [[Hn Hu] Hc]. rw /temp_step /mbind /Cmd_bind /rename_call Hquiet.
  destruct (crashes (m_calls m)); [by left|].
  pose proof (rename_failed name (wp_canonical target) (m_fs m) Hn) as Hfail.
  destruct (Rename name (wp_canonical target) (m_fs m)) as [[err|] s'] eqn:Hr; simpl in *.
  - assert (staged name s') as Hs' by (split; [done|]; eapply untouched_trans; [exact Hu|by apply Hfail]).
    apply (leads_abandon name false err (m <| m_fs := s' |> <| m_calls ::= S |>)%runstead); [done|done].
  - right. simpl. split; [|eexists; by rw Hm]. exists name, (m_fs m). by rw Hr.
Qed.

Lemma leads_atomicWrite mode :
  leads (untouched temp s0)
    (atomicWrite (wp_canonical target) content mode (revalidateWriteTarget root path expected target)).
Proof.
  rw /atomicWrite.
  apply (leads_syscall _ (λ r s, match r with inl _ => untouched temp s0 s | inr name => staged name s end)); [by intros s| |].
  { intros s Hs. pose proof (create_named (Dir (wp_canonical target)) s) as Hn.
    pose proof (create_untouched (Dir (wp_canonical target)) s) as Hu. destruct (CreateTemp _ s) as [[err|name] s'].
    - by eapply untouched_trans.
    - split; [by apply Hn|by eapply untouched_trans]. }
  intros [err|name]; [apply leads_ret; by intros s|].
  apply leads_temp_step; [done|by intros s [? _]; apply write_untouched| |].
  { intros s Hs Hok. split; [apply staged_call; [done|by apply write_untouched, Hs]|]. apply write_read; [by apply Hs|done]. }
  apply leads_temp_step; [by intros s []|by intros s [? _]; apply chmod_untouched| |].
  { intros s [Hs Hc] _. split; [apply staged_call; [done|by apply chmod_untouched, Hs]|]. rw chmod_read //. by apply Hs. }
  apply leads_temp_step; [by intros s []|by intros s [? _]; apply sync_untouched| |].
  { intros s [Hs Hc] _. split; [apply staged_call; [done|by apply sync_untouched, Hs]|]. rw sync_read //. by apply Hs. }
  apply leads_temp_step; [by intros s []|by intros s [? _]; apply close_untouched| |].
  { intros s [Hs Hc] _. split; [apply staged_call; [done|by apply close_untouched, Hs]|]. rw close_read //. by apply Hs. }
  apply leads_bind_still; [apply harmless_complete|apply still_context|]. intros [failure|]; [apply leads_abort|].
  apply leads_bind_still; [apply harmless_complete|by apply still_revalidate|]. intros [failure|]; [apply leads_abort|].
  apply leads_rename.
Qed.

Lemma leads_perform e :
  ef_path e = path → ef_target e = target → ef_expected e = expected → ef_content e = content →
  leads (untouched temp s0) (perform_effect root e).
Proof.
  intros Hp Ht He Hc. rw /perform_effect Hp Ht He Hc.
  apply leads_bind_still; [by intros s|apply still_context|]. intros [failure|]; [apply leads_ret; by intros s|].
  apply leads_bind_still; [by intros s|by apply still_revalidate|]. intros [failure|]; [apply leads_ret; by intros s|].
  apply leads_then.
  - destruct (ef_changed e); [|apply leads_still; [by intros s|by apply still_revalidate]].
    apply leads_then; [apply leads_atomicWrite|done].
  - intros [failure|]; [done|]. apply still_bind; [by apply still_hashFile|]. by intros [[??]?].
Qed.

Lemma leads_observed {A} P o (c : Cmd (Failure + A)) k : leads P c → (∀ a, still (k a)) → leads P (observed_or o c k).
Proof. intros Hc Hk. apply leads_then; [done|]. intros [failure|a]; [done|apply Hk]. Qed.

Lemma leads_observed_finds {A} P o (c : Cmd (Failure + A)) k a :
  harmless P → (∀ s, P s → finds s c (inr a)) → (∀ s, P s → leads (eq s) (k a)) → leads P (observed_or o c k).
Proof. intros HP Hc Hk. by eapply (leads_bind_finds _ _ _ (λ _, inr a)). Qed.

Lemma harmless_now : harmless (eq s0).
Proof. by intros s <-. Qed.

Lemma leads_weaken {A} (P Q : fs → Prop) (c : Cmd A) : leads Q c → (∀ s, P s → Q s) → leads P c.
Proof. intros Hc HPQ m Hm Hs. by apply Hc, HPQ. Qed.

Lemma leads_write_file r o :
  rg_root r = root → leads (eq s0) (executeWriteFile r o path content expected).
Proof.
  intros Hr. rw /executeWriteFile Hr.
  apply (leads_observed_finds _ _ _ _ target harmless_now); [intros s <-; rw -Hres; by apply finds_resolve|].
  intros s <-. apply (leads_observed_finds _ _ _ _ expected harmless_now); [intros s <-; rw -Hstate; by apply finds_state|].
  intros s <-. case_match; [apply leads_ret, harmless_now|].
  apply leads_bind_still; [apply harmless_now|case_match; [by apply still_prefix|done]|]. intros text.
  apply leads_observed; [|done]. eapply leads_weaken; [by apply leads_perform|by intros s <-].
Qed.

Lemma leads_apply_patch r o patch current :
  rg_root r = root → ReadFile (wp_canonical target) s0 = inr current →
  applyPatch current patch (wp_relative target) (MaxPatchTargetBytes (rg_limits r)) = Some (inr content) →
  leads (eq s0) (executeApplyPatch r o path patch expected).
Proof.
  intros Hr Hread Hpatch. rw /executeApplyPatch Hr.
  apply (leads_observed_finds _ _ _ _ target harmless_now); [intros s <-; rw -Hres; by apply finds_resolve|].
  intros s <-. case_match; [apply leads_ret, harmless_now|].
  apply (leads_observed_finds _ _ _ _ expected harmless_now); [intros s <-; rw -Hstate; by apply finds_state|].
  intros s <-. case_match; [apply leads_ret, harmless_now|].
  apply leads_bind_still; [apply harmless_now|eapply (still_finds _ (λ s, _)); intros s; by apply finds_fileSize|].
  intros size. case_match; [apply leads_ret, harmless_now|].
  eapply (leads_bind_finds _ _ _ (ReadFile (wp_canonical target))); [apply harmless_now|intros s <-; by apply finds_query|].
  intros s <-. rw Hread Hpatch /=. apply leads_observed; [|done].
  eapply leads_weaken; [by apply leads_perform|by intros s <-].
Qed.
End interrupted.

(** ** The plan *)

Definition planned `{FileSystem} `{Hash} (r : Registry) (action : Action) (s : fs) : option PlannedWrite :=
  (@PlanWrite _ calm _ r action (at_rest s)).1.

(** What the plan of a write stands for. *)
Definition intended `{FileSystem} (r : Registry) (action : Action) (target : writePath) (s : fs) (content : string) : Prop :=
  if String.eqb (act_Tool action) ToolWriteFile then content = argument action "content"
  else ∃ current, ReadFile (wp_canonical target) s = inr current
    ∧ applyPatch current (argument action "patch") (wp_relative target) (MaxPatchTargetBytes (rg_limits r)) = Some (inr content).

Lemma argument_some action name value : stringArgumentAllowEmpty (act_Arguments action) name = inr value → argument action name = value.
Proof. rw /argument. by intros ->. Qed.

Lemma argument_string action name value : stringArgument (act_Arguments action) name = inr value → argument action name = value.
Proof.
  rw /stringArgument /argument. destruct (stringArgumentAllowEmpty _ _) as [|v]; [done|]. case_match; [done|]. by intros [= ->].
Qed.

Lemma planned_intended `{FileSystem} `{Hash} r action target s plan :
  IsWriteTool (act_Tool action) = true → resolve_in (rg_root r) (argument action "path") s = inr target →
  planned r action s = Some plan → pw_AfterHash plan ≠ ""%string →
  ∃ content, intended r action target s content ∧ pw_AfterHash plan = HashBytes content.
Proof.
  intros Hw Hres Hplan Hne. assert (@undisturbed _ calm) as Hquiet by done.
  assert (∀ p, @finds _ calm _ s (@PlanWrite _ calm _ r action) p → p = plan) as Huniq.
  { intros p Hp. destruct (Hp (at_rest s) eq_refl) as (_ & _ & [Hs|[_ [n Hn]]]); [|done].
    rw /planned in Hplan. rw Hplan in Hs. by injection Hs. }
  rw /PlanWrite /IsWriteTool in Huniq Hw. rw /intended.
  destruct (String.eqb (act_Tool action) ToolWriteFile).
  - destruct (stringArgument (act_Arguments action) "path") as [|path] eqn:Hpath.
    { rw -(Huniq _ (finds_ret _ _)) in Hne. done. }
    destruct (stringArgumentAllowEmpty (act_Arguments action) "content") as [|content] eqn:Hcontent.
    { rw -(Huniq _ (finds_ret _ _)) in Hne. done. }
    destruct (longer_than _ content); [rw -(Huniq _ (finds_ret _ _)) in Hne; done|].
    apply argument_string in Hpath. rw Hpath in Hres. exists content. split; [by rw (argument_some _ _ _ Hcontent)|].
    erewrite <- Huniq; last first.
    { eapply finds_bind; [by apply finds_resolve|]. rw Hres. eapply finds_bind; [|apply finds_ret].
      eapply finds_bind; [|apply finds_ret]. instantiate (1 := if wp_exists target then _ else _).
      destruct (wp_exists target); [|apply finds_ret]. eapply finds_bind; [by apply finds_query|apply finds_ret]. }
    done.
  - simpl in Hw. rw Hw in Huniq. destruct (stringArgument (act_Arguments action) "path") as [|path] eqn:Hpath.
    { rw -(Huniq _ (finds_ret _ _)) in Hne. done. }
    destruct (stringArgumentAllowEmpty (act_Arguments action) "patch") as [|patch] eqn:Hpatch.
    { rw -(Huniq _ (finds_ret _ _)) in Hne. done. }
    destruct (String.eqb (TrimSpace patch) ""); [rw -(Huniq _ (finds_ret _ _)) in Hne; done|].
    apply argument_string in Hpath. rw Hpath in Hres. apply argument_some in Hpatch. rw Hpatch.
    pose proof (λ p Hp, Huniq p (finds_bind s _ _ _ p (finds_resolve Hquiet s (rg_root r) path) Hp)) as Hrest.
    clear Huniq. rw Hres in Hrest. cbv beta iota in Hrest.
    destruct (wp_exists target); cbn [negb] in Hrest; [|rw -(Hrest _ (finds_ret _ _)) in Hne; done].
    assert (∃ p, p = plan ∧ pw_AfterHash p = match ReadFile (wp_canonical target) s with
      | inl _ => ""%string
      | inr current => match applyPatch current patch (wp_relative target) (MaxPatchTargetBytes (rg_limits r)) with
          | Some (inr patched) => HashBytes patched | _ => ""%string end end) as (p & -> & Hp).
    { eexists. split; [apply Hrest; eapply finds_bind; [apply finds_query; exact Hquiet|apply finds_ret]|].
      cbv beta. destruct (ReadFile (wp_canonical target) s) as [|current]; [reflexivity|].
      by destruct (applyPatch current patch _ _) as [[]|]. }
    clear Hrest Hplan. rw Hp in Hne. rw Hp.
    destruct (ReadFile (wp_canonical target) s) as [|current]; [done|].
    destruct (applyPatch current patch _ _) as [[|patched]|] eqn:Hpp; try done.
    exists patched. split; [|done]. by exists current.
Qed.

(** C34: interrupted writes.  When no other process acts, a write that finds its target
    in the expected state, and that dies anywhere or fails or succeeds, is
    reconciled exactly: not started when nothing was renamed, and then no file has
    changed; completed, with the planned hashes as evidence, when the rename took
    place, and then the planned content is in place.  A human is never asked. *)
Theorem interrupted_writes `{Environment, !FileLaws, Hash, Reads, !Commands}
    (r : Registry) sequence action target plan intent m :
  let path := argument action "path" in
  let expected := argument action "expected_before_hash" in
  undisturbed → rooted (rg_root r) → IsWriteTool (act_Tool action) = true →
  resolve_in (rg_root r) path (m_fs m) = inr target → ordinary (rg_root r) path target →
  state_in target (m_fs m) = inr expected →
  planned r action (m_fs m) = Some plan → pw_AfterHash plan ≠ ""%string → pw_AfterHash plan ≠ expected →
  decodeWriteIntent (wi_Tool intent) (wi_Arguments intent) = inr (path, expected) →
  wi_ExpectedAfterHash intent = pw_AfterHash plan →
  let m' := (Execute r sequence action m).2 in
  ∃ result, reconciled (rg_root r) intent (m_fs m') = Some result
    ∧ ((m_renames m' = m_renames m ∧ untouched temp (m_fs m) (m_fs m') ∧ rr_Status result = ReconcileNotStarted)
       ∨ (m_renames m' ≠ m_renames m ∧ rr_Status result = ReconcileCompleted
          ∧ (∃ content, ReadFile (wp_canonical target) (m_fs m') = inr content ∧ HashBytes content = pw_AfterHash plan)
          ∧ ∃ evidence, rr_Evidence result = Some evidence
              ∧ we_BeforeHash evidence = expected ∧ we_AfterHash evidence = pw_AfterHash plan)).
Proof.
  intros path expected Hquiet Hroot Hw Hres Hord Hstate Hplan Hne1 Hne2 Hdec Hafter m'.
  destruct (planned_intended _ _ _ _ _ Hw Hres Hplan Hne1) as (content & Hint & Hhash).
  assert (leads target content (m_fs m) (m_renames m) (eq (m_fs m)) (Execute r sequence action)) as Hleads.
  { assert (harmless (m_fs m) (eq (m_fs m))) as Hnow by by apply harmless_now.
    rw /Execute. apply leads_bind_still; [done|apply still_context|]. intros [failure|]; [by apply leads_ret|].
    rw /IsWriteTool in Hw. rw /intended in Hint.
    destruct (ValidateArguments_ _ _ _) as [[] [failure|]]; try by apply leads_ret.
    destruct (String.eqb_spec (act_Tool action) ToolWriteFile) as [E|].
    - rw E /=. rw -Hint. by eapply leads_write_file.
    - destruct (String.eqb_spec (act_Tool action) ToolApplyPatch) as [E|]; [|done]. rw E /=.
      destruct Hint as (current & Hread & Hpatch). by eapply leads_apply_patch. }
  destruct (reconciled_spec (rg_root r) intent path expected (m_fs m') Hdec) as (result & Hrec & Hstatus & Hev).
  exists result. split; [done|]. rw Hafter in Hstatus Hev.
  destruct (Hleads m eq_refl eq_refl) as [[Hu Hr]|[Hpl [rn Hr]]]; fold m' in Hr; [left|right].
  - split_and!; [done..|]. rw Hstatus /status_in (resolve_untouched (rg_root r) path target Hroot Hord _ _ Hu Hres).
    rw (state_untouched (rg_root r) path target Hord _ _ Hu) Hstate. by rw String.eqb_refl.
  - destruct (placed_found (rg_root r) path target Hroot Hord _ _ _ Hres Hpl) as (Hread & target' & Hres' & Hstate').
    assert (rr_Status result = ReconcileCompleted) as Hdone.
    { rw Hstatus /status_in Hres' Hstate' -Hhash. apply String.eqb_neq in Hne1, Hne2. by rw Hne1 Hne2 String.eqb_refl. }
    split_and!; [|done|by exists content|by apply Hev].
    rw Hr. intros Habs. apply (f_equal length) in Habs. rw length_app /= in Habs. lia.
Qed.
