(* ===== verification/ToolScenarios.v ===== *)
(** * Tools and recipes, evaluated

    A file system whose only directory is the workspace, with the laws that the
    theorems rely on; concrete writes on it; the instances of the laws of the tools
    and of the recipes. *)

From S2P Require Import Prelude GoTime Text Paths Patch Json Protocol Recipe RecipeLaws Observations Workspace ToolArguments Writing Reading Search Tools PathLaws WritingLaws ReconcileLaws.
From Stdlib Require Import Ascii.

Local Open Scope runstead_scope.

(** ** A file system *)

(** Regular files with their permissions, by absolute path. *)
Definition files : Type := gmap string (string * Z).

Definition the_root : string := "/w".
Definition the_temp : string := "/w/.runstead-write-1".

Definition flat_lstat (p : string) (s : files) : IOError + (FileMode * Z) :=
  if String.eqb p the_root then inr (ModeDir, 0%Z)
  else match s !! p with
       | Some (content, perm) => inr (ModeRegular perm, Z.of_nat (String.length content))
       | None => inl ErrNotExist
       end.

Definition flat_read (p : string) (s : files) : IOError + string :=
  match s !! p with Some (content, _) => inr content | None => inl ErrNotExist end.

Definition flat_eval (p : string) (s : files) : IOError + string :=
  if IsAbs p && String.eqb (Clean p) p && (String.eqb p the_root || bool_decide (is_Some (s !! p))) then inr p
  else inl ErrNotExist.

(** A change of an existing file. *)
Definition on_file (f : string * Z → string * Z) (p : string) (s : files) : option IOError * files :=
  match s !! p with Some v => (None, <[p := f v]> s) | None => (Some ErrNotExist, s) end.

#[local] Instance flat_system : FileSystem := {|
  fs := files;
  EvalSymlinks := flat_eval;
  Lstat := flat_lstat;
  Stat := flat_lstat;
  ReadFile := flat_read;
  ReadDir := λ _ s, inr (map_to_list s).*1;
  CreateTemp := λ _ s, (inr the_temp, <[the_temp := (""%string, 384%Z)]> s);
  WriteTo := λ p content, on_file (λ v, (content, v.2)) p;
  Chmod := λ p perm, on_file (λ v, (v.1, perm)) p;
  Sync := λ _ s, (None, s);
  Close := λ _ s, (None, s);
  Remove := λ p s, delete p s;
  Rename := λ a b s, match s !! a with Some v => (None, <[b := v]> (delete a s)) | None => (Some ErrNotExist, s) end
|}.

Lemma only_temp (s s' : files) : (∀ p, p ≠ the_temp → s' !! p = s !! p) → untouched (eq the_temp) s s'.
Proof.
  intros Hs p Hp. assert (s' !! p = s !! p) as E by (apply Hs; intros ->; by apply Hp).
  by rw /= /flat_read /flat_lstat /flat_eval E.
Qed.

Lemma on_file_temp f (s : files) : untouched (eq the_temp) s (on_file f the_temp s).2.
Proof.
  apply only_temp. intros p Hp. rw /on_file. destruct (s !! the_temp); [|done].
  by rw /= lookup_insert_ne //.
Qed.

Lemma flat_eval_inr p s q : flat_eval p s = inr q → q = p ∧ IsAbs p = true ∧ Clean p = p.
Proof.
  rw /flat_eval. destruct (IsAbs p); [|done]. destruct (String.eqb_spec (Clean p) p); [|done].
  simpl. case_match; [|done]. by intros [= <-].
Qed.

#[local] Instance flat_laws : FileLaws.
Proof.
  refine {| temp := eq the_temp |}; change (@fs flat_system) with files; simpl.
  - intros p s q (-> & ?)%flat_eval_inr. done.
  - by intros _ s name [= <-].
  - intros _ s. apply only_temp. intros p Hp. by rw lookup_insert_ne.
  - intros name content s <-. apply on_file_temp.
  - intros name perm s <-. apply on_file_temp.
  - intros name s <-. by apply only_temp.
  - intros name s <-. by apply only_temp.
  - intros name s <-. apply only_temp. intros p Hp. by rw lookup_delete_ne.
  - intros name content s <-. rw /on_file /flat_read. destruct (s !! the_temp); [|done]. intros _. simpl.
    by rw lookup_insert_eq.
  - intros name perm s <-. rw /on_file /flat_read. destruct (s !! the_temp) as [v|] eqn:E; simpl; [|by rw E].
    rw lookup_insert_eq. by destruct v.
  - done.
  - done.
  - intros name p s <-. by destruct (s !! the_temp).
  - intros name p s content <-. rw /flat_read. destruct (s !! the_temp) as [[c perm]|] eqn:E; [|done].
    intros [= <-] Hrep _. simpl. split_and!.
    + by rw lookup_insert_eq.
    + exists perm, (Z.of_nat (String.length c)). rw /flat_lstat. destruct (String.eqb_spec p the_root) as [->|].
      * exfalso. revert Hrep. rw /replaceable /= /flat_lstat /=. intros [|(? & ? & ?)]; done.
      * by rw lookup_insert_eq.
    + intros q c' Hq Hev. pose proof Hev as (-> & Ha & Hc)%flat_eval_inr. revert Hev. rw /flat_eval Ha Hc String.eqb_refl /=.
      destruct (String.eqb q the_root); [done|]. simpl. case_bool_decide as Hs; [|done]. intros _.
      destruct (decide (q = p)) as [->|]; [by rw lookup_insert_eq bool_decide_eq_true_2|].
      rw lookup_insert_ne // lookup_delete_ne //. by rw bool_decide_eq_true_2.
    + intros q Hq Hne _. rw /flat_lstat lookup_insert_ne // lookup_delete_ne //.
Defined.

(** A hash that tells the lengths of texts apart; git, ripgrep and processes that
    find nothing; files read in one piece. *)
#[local] Instance length_hash : Hash := {|
  sha256_hex := λ text,
    (String.concat "" (replicate 63 "0") +:+ String (ascii_of_nat (48 + String.length text mod 10)) "")%string |}.

#[local] Instance no_commands : Commands := {|
  run_git := λ _ _, ({| cr_Stdout := ""; cr_Stderr := ""; cr_StdoutBytes := 0; cr_StderrBytes := 0; cr_ExitCode := 0;
                        cr_Signal := ""; cr_Err := false |}, None);
  run_process := λ _ _ _ _, {| pr_start_error := Some "missing"; pr_stdout := []; pr_stderr := []; pr_exit := 0; pr_signal := "";
                               pr_wait_error := None; pr_deadline := false; pr_parent_canceled := false; pr_duration := 0 |};
  environ := λ _, [];
  run_rg := λ _ _ _, ({| cr_Stdout := ""; cr_Stderr := ""; cr_StdoutBytes := 0; cr_StderrBytes := 0; cr_ExitCode := 1;
                         cr_Signal := ""; cr_Err := true |}, None);
  search_context := λ _, None;
  walk := λ _ s, inr (the_root, ModeDir) :: ((λ '(p, (_, perm)), inr (p, ModeRegular perm)) <$> map_to_list s) |}.

#[local] Instance one_piece : Reads := {| pieces := λ content, [content]; pieces_all content := eq_refl |}.

Definition the_limits : Limits := DefaultLimits.

Definition the_registry : Registry :=
  {| rg_root := the_root; rg_limits := the_limits; rg_rgPath := ""; rg_recipes := None; rg_allowed := None |}.

(** One file, and its replacement. *)
Definition the_files : files := {["/w/a" := ("old", 420%Z)]}%string.

Definition the_write : Action := {|
  act_Version := Current; act_Tool := ToolWriteFile;
  act_Arguments := {["path" := JString "a"; "content" := JString "newer"; "expected_before_hash" := JString (sha256_hex "old")]}
|}%string.

(** Nobody else acts, and the process dies at the call of number [n]. *)
Definition dies_at (n : nat) : Environment := {|
  interfere := λ _ s, s; crashes := λ k, (k =? n)%nat; context_error := λ _, None |}.

(** Someone removes the file before the call of number [n]. *)
Definition removed_at (n : nat) : Environment := {|
  interfere := λ k s, if (k =? n)%nat then delete "/w/a"%string s : files else s; crashes := λ _, false;
  context_error := λ _, None |}.

Lemma the_root_rooted : rooted the_root.
Proof. exists ["w"%string]. split; [|done]. repeat constructor; by vm_compute. Qed.

Definition resting (s : files) : Machine := at_rest s.

(** What is left of an execution that starts at rest, and what the file holds then. *)
Definition execution (e : Environment) (s : files) (action : Action) : Machine :=
  (@Execute flat_system e _ _ _ the_registry 0 action (resting s)).2.

Definition after_execution (e : Environment) (s : files) (action : Action) : IOError + string :=
  flat_read "/w/a" (m_fs (execution e s action)).

Definition executed (e : Environment) (s : files) (action : Action) : option Observation :=
  (@Execute flat_system e _ _ _ the_registry 0 action (at_rest s)).1.

Definition failure_of (o : option Observation) : option FailureCode := o ≫= λ o, f_Code <$> ob_Failure o.

Example writes_evaluated :
  after_execution calm the_files the_write = inr "newer"%string
  ∧ (ob_Success <$> executed calm the_files the_write) = Some true
  ∧ failure_of (executed calm (<["/w/a" := ("other text", 420%Z)]> the_files)%string the_write) = Some FailureStaleState
  ∧ failure_of (executed (removed_at 5) the_files the_write) = Some FailureStaleState
  ∧ (after_execution (dies_at 14) the_files the_write, executed (dies_at 14) the_files the_write) = (inr "old"%string, None)
  ∧ after_execution (dies_at 16) the_files the_write = inr "newer"%string.
Proof. by vm_compute. Qed.

Lemma Execute_writes_witness :
  rooted (rg_root the_registry) ∧ length (m_renames (execution calm the_files the_write)) = 1
  ∧ ∃ rn, m_renames (execution calm the_files the_write) = [rn]
      ∧ within the_root (rn_path rn) = true.
Proof.
  split; [exact the_root_rooted|]. split; [by vm_compute|].
  destruct (@Execute_writes flat_system calm _ _ _ _ the_registry 0 the_write (resting the_files) the_root_rooted)
    as [Habs|(rn & Hr & _ & _ & Hw & _)].
  - exfalso. apply (f_equal length) in Habs. revert Habs. by vm_compute.
  - exists rn. split; [exact Hr|exact Hw].
Defined.

(** ** Reconciliation *)

Definition the_intent : WriteIntent := {|
  wi_Tool := ToolWriteFile; wi_Arguments := write_value (JObject (map_to_list (act_Arguments the_write)));
  wi_ExpectedAfterHash := HashBytes "newer"; wi_PlannedEffect := no_effect |}.

Definition the_target : writePath := {| wp_relative := "a"; wp_canonical := "/w/a"; wp_exists := true; wp_perm := 420 |}.

Lemma the_target_ordinary : ordinary the_root "a" the_target.
Proof. split; [by vm_compute|]. intros relative [= <-]. by vm_compute. Qed.

Definition the_plan : PlannedWrite :=
  default {| pw_AfterHash := ""; pw_Effect := no_effect |} (planned the_registry the_write the_files).

Lemma interrupted_writes_witness :
  ∃ result, reconciled the_root the_intent (m_fs (execution (dies_at 14) the_files the_write)) = Some result
    ∧ rr_Status result = ReconcileNotStarted.
Proof.
  destruct (@interrupted_writes flat_system (dies_at 14) _ _ _ _ the_registry 0 the_write the_target the_plan the_intent (resting the_files))
    as (result & Hrec & [(_ & _ & Hs)|(Habs & _)]).
  - by intros n s.
  - exact the_root_rooted.
  - by vm_compute.
  - by vm_compute.
  - exact the_target_ordinary.
  - by vm_compute.
  - by vm_compute.
  - by vm_compute.
  - by vm_compute.
  - by vm_compute.
  - by vm_compute.
  - exists result. split; [exact Hrec|exact Hs].
  - exfalso. apply Habs. by vm_compute.
Defined.

(** The same file, when the process dies after the rename. *)
Example completed_after_death :
  (rr_Status <$> reconciled the_root the_intent (m_fs (execution (dies_at 16) the_files the_write)))
  = Some ReconcileCompleted.
Proof. by vm_compute. Qed.

(** ** What the comments of the code do not say *)

(** A view restricted to reading, and its own view that may write. *)
Example restriction_widens :
  match Restricted (the_registry <| rg_allowed := Some {[ToolReadFile]} |>) [ToolReadFile; ToolWriteFile] "" with
    | inr view => Allows (the_registry <| rg_allowed := Some {[ToolReadFile]} |>) ToolWriteFile = false ∧ Allows view ToolWriteFile = true
    | inl _ => False
    end.
Proof. by vm_compute. Qed.

(** A content that is null empties the file. *)
Example null_content :
  let action := {| act_Version := Current; act_Tool := ToolWriteFile;
    act_Arguments := <["content"%string := JNull]> (act_Arguments the_write) |} in
  after_execution calm the_files action = inr ""%string.
Proof. by vm_compute. Qed.

(** A file without any permission gets some when it is written. *)
Example permissions_appear :
  (m_fs (execution calm {["/w/a" := ("old", 0%Z)]}%string the_write) : files) !! "/w/a"%string
  = Some ("newer"%string, 420%Z).
Proof. by vm_compute. Qed.

(** A context that is canceled from the call of number [n] on. *)
Definition canceled_from (n : nat) : Environment := {|
  interfere := λ _ s, s; crashes := λ _, false; context_error := λ k, if (n <=? k)%nat then Some Canceled else None |}.

(** Cancellation just before the rename is a failure of the write. *)
Example cancellation_is_write_failure :
  failure_of (executed (canceled_from 3) the_files the_write) = Some FailureCanceled
  ∧ failure_of (executed (canceled_from 12) the_files the_write) = Some FailureWriteFailure.
Proof. by vm_compute. Qed.

(** ** Searches *)

Definition the_search : Action := {|
  act_Version := Current; act_Tool := ToolSearchText;
  act_Arguments := {["path" := JString "."; "query" := JString "ld"]} |}%string.

Definition lines_of_text : string := ("new" +:+ line_feed +:+ "old" +:+ line_feed +:+ "cold")%string.

(** Two lines of one file; the other file is binary. *)
Example search_evaluated :
  (ob_Data <$> executed calm {["/w/a" := (lines_of_text, 420%Z); "/w/b" := (String zero "old", 420%Z)]}%string the_search)
  = Some (DataSearch {| sd_Matches := [{| sm_Path := "a"; sm_Line := 2; sm_Text := "old" |};
                                       {| sm_Path := "a"; sm_Line := 3; sm_Text := "cold" |}];
                        sd_SkippedBinaryFiles := 1; sd_SkippedInvalidUTF8 := 0 |}).
Proof. by vm_compute. Qed.

(** What ripgrep prints for one match. *)
Definition rg_match : string :=
  write_value (JObject [("type", JString "match");
    ("data", JObject [("path", JObject [("text", JString "./a")]); ("lines", JObject [("text", JString ("old" +:+ line_feed))]);
                      ("line_number", JNumber "2")])])%string.

(** A path outside the workspace ends the search, and so does one that is no text. *)
Example rg_output_evaluated :
  (co_matches <$> parseRGOutput (rg_match +:+ line_feed) "/w" 8 100 false)
  = Some [{| sm_Path := "a"; sm_Line := 2; sm_Text := "old" |}]
  ∧ relativeSearchPath "/w" "/x/a" = None ∧ relativeSearchPath "/w" "" = None.
Proof. by vm_compute. Qed.

(** ** Recipes *)

Definition go_test : Recipe :=
  {| ID := " test "; Executable := "go"; Argv := ["test"; "./..."]%string; WorkingDirectory := "./src/";
     TimeoutNanos := 0; rc_OutputLimits := {| MaxStdoutBytes := 0; MaxStderrBytes := 0 |};
     Capabilities := ["read_workspace"; "inherit_environment"]%string; AllowedEnvironment := ["HOME"]%string |}.

Definition go_test_normal : Recipe := match Normalize go_test with inr r => r | inl _ => go_test end.

Lemma NewCatalog_spec_witness :
  NewCatalog [go_test] = inr {["test"%string := go_test_normal]} ∧ catalog_ok {["test"%string := go_test_normal]}.
Proof.
  assert (NewCatalog [go_test] = inr {["test"%string := go_test_normal]}) as H by (by vm_compute).
  split; [exact H|]. exact (proj2 (NewCatalog_spec [go_test] _) H).
Defined.

Lemma go_test_well_formed : well_formed go_test_normal.
Proof. apply (Normalize_well_formed go_test). by vm_compute. Qed.

Example environment_evaluated :
  BuildEnvironment ["HOME=/h"; "SECRET_TOKEN=x"; "PATH=/bin"]%string go_test_normal
  = ["PATH=/bin"; "RUNSTEAD_RECIPE_ID=test"; "HOME=/h"]%string.
Proof. by vm_compute. Qed.

Lemma Digest_identity_witness :
  plain_recipe go_test_normal ∧
  (Recipe_Digest go_test_normal = Recipe_Digest go_test_normal ↔ definition_of go_test_normal = definition_of go_test_normal).
Proof.
  assert (plain_recipe go_test_normal) as H by (by vm_compute).
  split; [exact H|]. exact (Digest_identity go_test_normal go_test_normal H H (λ _, eq_refl)).
Defined.
