(* ===== verification/TimeText.v ===== *)
(** * Times as text (internal/state/store.go)

    [formatTime] and [parseTime]: RFC 3339 with the fraction of a second and
    without its trailing zeros, the form in which every time is stored.  The
    calendar is the one of package time: the Gregorian one, also before it was
    introduced. *)

From Stdlib Require Import Ascii.
From S2P Require Import Prelude GoTime Json.

Local Open Scope Z_scope.
Local Open Scope runstead_scope.

(** ** The calendar

    Years are counted from March, so that the day that may be missing is the last
    one; four hundred of them have [146097] days.  Day zero is the first of
    January of year one. *)

Definition is_leap (year : Z) : bool :=
  (year mod 4 =? 0) && (negb (year mod 100 =? 0) || (year mod 400 =? 0)).

Definition days_in (month year : Z) : Z :=
  if month =? 2 then (if is_leap year then 29 else 28)
  else if (month =? 4) || (month =? 6) || (month =? 9) || (month =? 11) then 30 else 31.

(** The days before a month, from March, and its inverse. *)
Definition days_before (m : Z) : Z := (153 * m + 2) / 5.
Definition month_of (doy : Z) : Z := (5 * doy + 2) / 153.

(** The March-based year of the cycle and the day in it. *)
Definition year_of_cycle (doe : Z) : Z * Z :=
  let c := Z.min 3 (doe / 36524) in
  let r := doe - 36524 * c in
  let q := r / 1461 in
  let s := r - 1461 * q in
  let y := Z.min 3 (s / 365) in
  (100 * c + 4 * q + y, s - 365 * y).

(** Year, month and day of a day number. *)
Definition civil_of_days (days : Z) : Z * Z * Z :=
  let z := days + 306 in
  let '(yoe, doy) := year_of_cycle (z mod 146097) in
  let m := month_of doy in
  let year := 400 * (z / 146097) + yoe in
  (if m <? 10 then year else year + 1, if m <? 10 then m + 3 else m - 9, doy - days_before m + 1).

Definition days_of_civil (year month day : Z) : Z :=
  let y := if month <? 3 then year - 1 else year in
  let m := if month <? 3 then month + 9 else month - 3 in
  let yoe := y mod 400 in
  146097 * (y / 400) + (365 * yoe + yoe / 4 - yoe / 100) + days_before m + day - 1 - 306.

Example calendar_examples :
  civil_of_days 0 = (1, 1, 1) ∧ civil_of_days 719162 = (1970, 1, 1) ∧ days_of_civil 2024 2 29 = 738944
  ∧ civil_of_days 738944 = (2024, 2, 29) ∧ civil_of_days (days_of_civil 9999 12 31) = (9999, 12, 31).
Proof. by vm_compute. Qed.

(** ** Text *)

Definition digit_of (d : Z) : ascii := char (Z.to_nat (48 + d)).
Definition digit_value (c : ascii) : option Z := if digit c then Some (byte_of c - 48) else None.

Definition two (n : Z) (rest : string) : string := String (digit_of (n / 10)) (String (digit_of (n mod 10)) rest).
Definition four (n : Z) (rest : string) : string := two (n / 100) (two (n mod 100) rest).

(** The digits of a fraction of [10 ^ n], without trailing zeros. *)
Fixpoint fraction_digits (n : nat) (value : Z) : list Z :=
  match n with
  | O => []
  | S n' =>
    let d := value / 10 ^ Z.of_nat n' in
    match fraction_digits n' (value mod 10 ^ Z.of_nat n') with
    | [] => if d =? 0 then [] else [d]
    | ds => d :: ds
    end
  end.

Definition text_of_digits (ds : list Z) (rest : string) : string :=
  foldr (λ d, String (digit_of d)) rest ds.

Definition fraction (nanos : Z) (rest : string) : string :=
  match fraction_digits 9 nanos with [] => rest | ds => String "." (text_of_digits ds rest) end.

Definition day : Z := 86400 * Second.

(** [t.UTC().Format(time.RFC3339Nano)], for the years from zero to 9999. *)
Definition format_RFC3339Nano (t : Time) : string :=
  let '(year, month, dom) := civil_of_days (t / day) in
  let nanos := t mod day in
  let secs := nanos / Second in
  four year (String "-" (two month (String "-" (two dom (String "T"
    (two (secs / 3600) (String ":" (two (secs / 60 mod 60) (String ":" (two (secs mod 60)
      (fraction (nanos mod Second) "Z"))))))))))).

Definition formatTime (value : Time) : string := if IsZero value then "" else format_RFC3339Nano value.

(** [parseUint]: [None] when a byte is no digit or the number is out of range. *)
Definition parse_uint (cs : list ascii) (lo hi : Z) : option Z :=
  let value := foldl (λ acc c, x ← acc; d ← digit_value c; Some (10 * x + d)) (Some 0) cs in
  value ≫= λ x, if (lo <=? x) && (x <=? hi) then Some x else None.

(** [parseNanoseconds]: the digits after the point, at most nine of which count. *)
Definition parse_nanoseconds (digits_ : string) : Z :=
  let ds := firstn 9 (String.list_ascii_of_string digits_) in
  digits_int 0 (String.string_of_list_ascii ds) * 10 ^ (9 - Z.of_nat (length ds)).

(** The offset of a zone, in seconds. *)
Definition parse_zone (s : string) : option Z :=
  match s with
  | String c EmptyString => if Ascii.eqb c "Z" then Some 0 else None
  | String sign (String h1 (String h2 (String colon (String m1 (String m2 EmptyString))))) =>
    hours ← parse_uint [h1; h2] 0 24;
    minutes ← parse_uint [m1; m2] 0 60;
    if negb (Ascii.eqb colon ":") then None
    else if Ascii.eqb sign "+" then Some ((hours * 60 + minutes) * 60)
    else if Ascii.eqb sign "-" then Some (- ((hours * 60 + minutes) * 60))
    else None
  | _ => None
  end.

(** What stands after the seconds: the fraction and the zone. *)
Definition after_seconds (rest : string) : Z * string :=
  match rest with
  | String point (String c rest') =>
    if Ascii.eqb point "." && digit c
    then let '(ds, after) := digits (String c rest') in (parse_nanoseconds ds, after)
    else (0, rest)
  | _ => (0, rest)
  end.

(** [parseRFC3339] of package time. *)
Definition parse_RFC3339 (s : string) : option Time :=
  match s with
  | String y1 (String y2 (String y3 (String y4 (String d1 (String m1 (String m2 (String d2 (String a1 (String a2
      (String t1 (String h1 (String h2 (String c1 (String n1 (String n2 (String c2 (String s1 (String s2 rest
      )))))))))))))))))) =>
    year ← parse_uint [y1; y2; y3; y4] 0 9999;
    month ← parse_uint [m1; m2] 1 12;
    dom ← parse_uint [a1; a2] 1 (days_in month year);
    hour ← parse_uint [h1; h2] 0 23;
    minute ← parse_uint [n1; n2] 0 59;
    second ← parse_uint [s1; s2] 0 59;
    if negb (Ascii.eqb d1 "-" && Ascii.eqb d2 "-" && Ascii.eqb t1 "T" && Ascii.eqb c1 ":" && Ascii.eqb c2 ":")
    then None
    else
      let '(nanos, zone) := after_seconds rest in
      offset ← parse_zone zone;
      Some (days_of_civil year month dom * day + (hour * 3600 + minute * 60 + second - offset) * Second + nanos)
  | _ => None
  end.

(** What [time.Parse] makes of a text that [parseRFC3339] refuses. *)
Class LenientParse := { parse_other : string → option Time }.

Definition parseTime `{LenientParse} (value : string) : Time :=
  match parse_RFC3339 value with
  | Some t => t
  | None => default zeroTime (parse_other value)
  end.

(** ** The calendar is inverted *)

#[local] Ltac Zify.zify_post_hook ::= Z.to_euclidean_division_equations.

Lemma div_mod_eq x n : 0 < n → x = n * (x / n) + x mod n ∧ 0 ≤ x mod n < n.
Proof. intros H. split; [by apply Z.div_mod; lia|by apply Z.mod_pos_bound]. Qed.

Lemma year_of_cycle_spec doe yoe doy :
  0 ≤ doe < 146097 → year_of_cycle doe = (yoe, doy) →
  0 ≤ yoe < 400 ∧ 0 ≤ doy < 366 ∧ doe = 365 * yoe + yoe / 4 - yoe / 100 + doy
  ∧ (doy = 365 → (yoe + 1) mod 4 = 0 ∧ ((yoe + 1) mod 100 = 0 → (yoe + 1) mod 400 = 0)).
Proof.
  rw /year_of_cycle. intros Hd. set c := Z.min 3 (doe / 36524). set r := doe - 36524 * c.
  set q := r / 1461. set s := r - 1461 * q. set y := Z.min 3 (s / 365). intros [= <- <-].
  assert (0 ≤ c ≤ 3 ∧ 0 ≤ r ≤ 36524 ∧ (c < 3 → r < 36524)) as (Hc & Hr & Hr') by (rw /r /c; lia).
  assert (0 ≤ q ≤ 24 ∧ 0 ≤ s ≤ 1460) as [Hq Hs] by (rw /s /q; lia).
  assert (q = 24 → c < 3 → s < 1460) as Hs' by (rw /s; lia).
  assert (0 ≤ y ≤ 3 ∧ 0 ≤ s - 365 * y ≤ 365 ∧ (s - 365 * y = 365 → y = 3 ∧ s = 1460)) as (Hy & Hdoy & Hlast)
    by (rw /y; lia).
  assert ((100 * c + 4 * q + y) / 4 = 25 * c + q) as -> by lia.
  assert ((100 * c + 4 * q + y) / 100 = c) as -> by lia.
  split_and!; [lia..|rw /s /r; lia|]. intros Hl. apply Hlast in Hl as [-> Hl]. lia.
Qed.

Definition month_ok (doy : Z) : bool :=
  let m := month_of doy in
  let d := doy - days_before m + 1 in
  (0 <=? m) && (m <=? 11) && (1 <=? d) && (d <=? 31)
  && (if m =? 11 then d <=? (if doy =? 365 then 29 else 28)
      else if m <? 10 then d <=? days_in (m + 3) 1 else d <=? days_in (m - 9) 1).

Lemma month_ok_all doy : 0 ≤ doy < 366 → month_ok doy = true.
Proof.
  intros H.
  assert (Forall (λ n, month_ok (Z.of_nat n) = true) (seq 0 366)) as Hall by
    (apply (bool_decide_unpack _); by vm_compute).
  rw Forall_forall in Hall. rw -(Z2Nat.id doy); [lia|]. apply Hall. apply elem_of_seq. lia.
Qed.

Lemma cycle_split e yoe : 0 ≤ yoe < 400 → (400 * e + yoe) mod 400 = yoe ∧ (400 * e + yoe) / 400 = e.
Proof. lia. Qed.

(** The last day of February. *)
Lemma february e yoe doy :
  (doy = 365 → (yoe + 1) mod 4 = 0 ∧ ((yoe + 1) mod 100 = 0 → (yoe + 1) mod 400 = 0)) →
  (if doy =? 365 then 29 else 28) ≤ days_in 2 (400 * e + yoe + 1).
Proof.
  intros H. rw /days_in /=. destruct (Z.eqb_spec doy 365) as [Hd|]; [|by case_match; lia].
  destruct (H Hd) as [H4 H100]. assert (is_leap (400 * e + yoe + 1) = true) as ->; [|lia].
  rw /is_leap. apply andb_true_iff. split; [lia|]. apply orb_true_iff. rw negb_true_iff !Z.eqb_eq Z.eqb_neq. lia.
Qed.

Lemma days_in_other month year year' : month ≠ 2 → days_in month year = days_in month year'.
Proof. intros H. rw /days_in. by apply Z.eqb_neq in H as ->. Qed.

(** The number of a day is the number of its date, and the date is one. *)
Lemma civil_days days year month dom :
  civil_of_days days = (year, month, dom) →
  days_of_civil year month dom = days ∧ 1 ≤ month ≤ 12 ∧ 1 ≤ dom ≤ days_in month year.
Proof.
  rw /civil_of_days. destruct (year_of_cycle _) as [yoe doy] eqn:Ey.
  apply year_of_cycle_spec in Ey as (Hyoe & Hdoy & Hdoe & Hleap); [|lia].
  pose proof (month_ok_all doy Hdoy) as Hm. rw /month_ok !andb_true_iff !Z.leb_le in Hm.
  destruct Hm as [[[[Hm0 Hm1] Hd0] Hd1] Hlen]. set m := month_of doy in Hm0 Hm1 Hd0 Hd1 Hlen |- *.
  set d := doy - days_before m + 1 in Hd0 Hd1 Hlen |- *. set e := (days + 306) / 146097.
  intros [= <- <- <-]. destruct (cycle_split e yoe Hyoe) as [Hmod Hdiv]. revert Hlen.
  assert (10 ≤ m → days_of_civil (400 * e + yoe + 1) (m - 9) d = days) as late_month.
  { intros Hge. rw /days_of_civil. destruct (Z.ltb_spec (m - 9) 3); [|lia]. replace (m - 9 + 9) with m by lia.
    replace (400 * e + yoe + 1 - 1) with (400 * e + yoe) by lia. rw Hmod Hdiv /d /e. lia. }
  destruct (Z.eqb_spec m 11) as [E|E], (Z.ltb_spec m 10) as [Hlt|Hge]; intros Hlen%Z.leb_le; [lia| | |].
  - split; [by apply late_month|split; [lia|]].
    rw E. split; [done|]. etransitivity; [exact Hlen|]. by apply february.
  - split; [|split; [lia|]].
    + rw /days_of_civil. destruct (Z.ltb_spec (m + 3) 3); [lia|]. replace (m + 3 - 3) with m by lia.
      rw Hmod Hdiv /d /e. lia.
    + rw (days_in_other _ _ 1); lia.
  - split; [by apply late_month|split; [lia|]]. rw (days_in_other _ _ 1); lia.
Qed.

(** ** The text is read back *)

Lemma digit_value_of d : 0 ≤ d ≤ 9 → digit_value (digit_of d) = Some d ∧ digit (digit_of d) = true
  ∧ byte_of (digit_of d) = 48 + d.
Proof.
  intros H. assert (d ∈ [0; 1; 2; 3; 4; 5; 6; 7; 8; 9]) as Hin by (rw !elem_of_cons; lia).
  rw !elem_of_cons in Hin. repeat (destruct Hin as [->|Hin]; [by vm_compute|]). set_solver.
Qed.

(** A number of [length ds] digits. *)
Definition number (ds : list Z) : Z := foldl (λ acc d, 10 * acc + d) 0 ds.

Lemma parse_digits ds lo hi :
  Forall (λ d, 0 ≤ d ≤ 9) ds → lo ≤ number ds ≤ hi → parse_uint (digit_of <$> ds) lo hi = Some (number ds).
Proof.
  intros Hds Hr. rw /parse_uint.
  assert (∀ a, foldl (λ acc c, x ← acc; d ← digit_value c; Some (10 * x + d)) (Some a) (digit_of <$> ds)
    = Some (foldl (λ acc d, 10 * acc + d) a ds)) as ->.
  { clear Hr. induction Hds as [|d ds Hd Hds IH]; intros a; [done|]. cbn [fmap list_fmap foldl].
    destruct (digit_value_of d Hd) as [-> _]. cbn. apply IH. }
  cbn. fold (number ds). assert ((lo <=? number ds) && (number ds <=? hi) = true) as -> by lia. done.
Qed.

Lemma parse_two n lo hi : 0 ≤ n < 100 → lo ≤ n ≤ hi →
  parse_uint [digit_of (n / 10); digit_of (n mod 10)] lo hi = Some n.
Proof.
  intros Hn Hr. assert (number [n / 10; n mod 10] = n) as E by (cbn; lia).
  rw -{3}E. apply (parse_digits [n / 10; n mod 10]); [repeat constructor; lia|by rw E].
Qed.

Lemma parse_four n lo hi : 0 ≤ n < 10000 → lo ≤ n ≤ hi →
  parse_uint [digit_of (n / 100 / 10); digit_of ((n / 100) mod 10); digit_of (n mod 100 / 10);
    digit_of ((n mod 100) mod 10)] lo hi = Some n.
Proof.
  intros Hn Hr. set ds := [n / 100 / 10; (n / 100) mod 10; n mod 100 / 10; (n mod 100) mod 10].
  assert (number ds = n) as E by (cbn; lia).
  rw -{5}E. apply (parse_digits ds); [repeat constructor; lia|by rw E].
Qed.

(** The fraction *)

Lemma number_cons d ds : number (d :: ds) = d * 10 ^ Z.of_nat (length ds) + number ds.
Proof.
  rw /number /=. assert (∀ a, foldl (λ acc d, 10 * acc + d) a ds
    = a * 10 ^ Z.of_nat (length ds) + foldl (λ acc d, 10 * acc + d) 0 ds) as H; [|by rw H].
  induction ds as [|d' ds IH]; intros a; cbn [foldl length]; [lia|].
  rw IH (IH (10 * 0 + d')) Nat2Z.inj_succ Z.pow_succ_r; lia.
Qed.

Lemma fraction_digits_range n value : 0 ≤ value < 10 ^ Z.of_nat n →
  let ds := fraction_digits n value in
  Forall (λ d, 0 ≤ d ≤ 9) ds ∧ (length ds ≤ n)%nat
  ∧ number ds * 10 ^ (Z.of_nat n - Z.of_nat (length ds)) = value.
Proof.
  revert value. induction n as [|n IH]; intros value Hv; cbn zeta; cbn [fraction_digits].
  { rw Z.pow_0_r in Hv. split_and!; [done..|]. cbn. lia. }
  rw Nat2Z.inj_succ Z.pow_succ_r in Hv; [lia|].
  assert (0 < 10 ^ Z.of_nat n) as Hp by (apply Z.pow_pos_nonneg; lia).
  destruct (div_mod_eq value (10 ^ Z.of_nat n) Hp) as [Hdiv Hmod].
  set d := value / _ in Hdiv |- *. set r := value mod _ in Hdiv Hmod |- *.
  assert (0 ≤ d ≤ 9) as Hd by (clear -Hdiv Hmod Hv Hp; clearbody d r; nia).
  destruct (IH r Hmod) as (Hds & Hlen & Hnum).
  destruct (fraction_digits n r) as [|d' ds]; [destruct (Z.eqb_spec d 0) as [E|E]|].
  - split_and!; [done|cbn; lia|]. rw /number /= in Hnum. rw /number /=. clearbody d r. nia.
  - split_and!; [by apply Forall_singleton|cbn; lia|]. cbn [length] in Hnum |- *.
    replace (Z.of_nat (S n) - Z.of_nat 1) with (Z.of_nat n) by lia.
    rw /number /= in Hnum. rw number_cons /number /=. clearbody d r. nia.
  - set l := d' :: ds in Hds Hlen Hnum |- *. split_and!; [by constructor|cbn [length]; lia|]. rw number_cons.
    cbn [length]. replace (Z.of_nat (S n) - Z.of_nat (S (length l))) with (Z.of_nat n - Z.of_nat (length l)) by lia.
    rw Z.mul_add_distr_r Hnum -Z.mul_assoc -Z.pow_add_r; [lia|lia|].
    replace (Z.of_nat (length l) + (Z.of_nat n - Z.of_nat (length l))) with (Z.of_nat n) by lia. lia.
Qed.

Lemma fraction_digits_last n value d : last (fraction_digits n value) = Some d → d ≠ 0.
Proof.
  revert value. induction n as [|n IH]; intros value; cbn; [done|].
  specialize (IH (value mod 10 ^ Z.of_nat n)). destruct (fraction_digits n _) as [|d' ds].
  - destruct (Z.eqb_spec (value / 10 ^ Z.of_nat n) 0); [done|]. by intros [= <-].
  - intros H. apply IH. exact H.
Qed.

Lemma digits_text ds rest : Forall (λ d, 0 ≤ d ≤ 9) ds → digits rest = (""%string, rest) →
  digits (text_of_digits ds rest) = (text_of_digits ds "", rest).
Proof.
  intros Hds Hr. induction Hds as [|d ds Hd Hds IH]; [done|]. cbn [text_of_digits foldr digits].
  destruct (digit_value_of d Hd) as (_ & -> & _). fold (text_of_digits ds rest). by rw IH.
Qed.

Lemma digits_int_text ds : Forall (λ d, 0 ≤ d ≤ 9) ds → digits_int 0 (text_of_digits ds "") = number ds.
Proof.
  intros Hds. rw /number. generalize 0. induction Hds as [|d ds Hd Hds IH]; intros a; [done|].
  cbn [text_of_digits foldr digits_int foldl]. destruct (digit_value_of d Hd) as (_ & _ & ->).
  fold (text_of_digits ds ""). rw IH. f_equal. lia.
Qed.

Lemma list_of_text ds : String.list_ascii_of_string (text_of_digits ds "") = digit_of <$> ds.
Proof. induction ds as [|d ds IH]; [done|]. cbn. by f_equal. Qed.

Lemma text_of_list ds : String.string_of_list_ascii (digit_of <$> ds) = text_of_digits ds "".
Proof. by rw -list_of_text String.string_of_list_ascii_of_string. Qed.

Lemma fraction_read nanos : 0 ≤ nanos < Second → after_seconds (fraction nanos "Z") = (nanos, "Z"%string).
Proof.
  intros Hn. destruct (fraction_digits_range 9 nanos Hn) as (Hds & Hlen & Hnum). rw /fraction.
  destruct (fraction_digits 9 nanos) as [|d ds]; [rw /number /= in Hnum; by subst|].
  set l := d :: ds in Hds Hlen Hnum |- *. assert (digits (text_of_digits l "Z") = (text_of_digits l "", "Z"%string)) as H.
  { by apply digits_text. }
  rw /after_seconds. cbn [text_of_digits foldr l].
  assert (digit (digit_of d) = true) as -> by (apply digit_value_of; by apply Forall_inv in Hds).
  cbn [Ascii.eqb andb]. change (String (digit_of d) _) with (text_of_digits l "Z"). rw H. f_equal.
  rw /parse_nanoseconds list_of_text. rw take_ge; [by rw length_fmap|]. rw text_of_list length_fmap digits_int_text //.
Qed.

Lemma civil_year days year month dom : 0 ≤ days < 3652059 → civil_of_days days = (year, month, dom) → 1 ≤ year ≤ 9999.
Proof.
  intros Hdays. rw /civil_of_days. destruct (year_of_cycle _) as [yoe doy] eqn:Ey.
  apply year_of_cycle_spec in Ey as (Hyoe & Hdoy & Hdoe & _); [|lia]. rw /month_of.
  destruct (Z.ltb_spec ((5 * doy + 2) / 153) 10) as [Hm|Hm]; intros [= <- <- <-]; lia.
Qed.

(** The instants of the years that the format has four digits for. *)
Definition writable (t : Time) : Prop := 0 ≤ t < 3652059 * day.

Lemma parse_format t : writable t → parse_RFC3339 (format_RFC3339Nano t) = Some t.
Proof.
  intros Ht. assert (0 < day) as Hday by done. destruct (div_mod_eq t day Hday) as [Hdiv Hmod].
  set days := t / day in Hdiv |- *. set nanos := t mod day in Hdiv Hmod |- *.
  assert (0 ≤ days < 3652059) as Hdays by (clearbody nanos days; rw /writable in Ht; nia).
  rw /format_RFC3339Nano -/days -/nanos. destruct (civil_of_days days) as [[year month] dom] eqn:Ec.
  pose proof (civil_year _ _ _ _ Hdays Ec) as Hyear. apply civil_days in Ec as (Hnum & Hmonth & Hdom).
  assert (days_in month year ≤ 31) as Hlen by (rw /days_in; repeat case_match; lia).
  set secs := nanos / Second. assert (nanos = Second * secs + nanos mod Second ∧ 0 ≤ nanos mod Second < Second
    ∧ 0 ≤ secs < 86400) as (Hsecs & Hn & Hs) by (rw /secs; rw /day /Second in Hmod; rw /Second; lia).
  rw /four /two /parse_RFC3339. cbn -[Z.div Z.modulo parse_uint digit_of Z.mul Z.add Z.sub].
  rw parse_four; [lia..|]. cbn [mbind option_bind]. rw parse_two; [lia..|]. cbn [mbind option_bind].
  do 4 (rw parse_two; [lia..|]; cbn [mbind option_bind]). rw fraction_read //. cbn. f_equal.
  assert (secs / 3600 * 3600 + (secs / 60) mod 60 * 60 + secs mod 60 - 0 = secs) as -> by (clear -Hs; lia).
  rw Hnum Hdiv. clearbody days. clear Hdiv. rw {2}Hsecs. ring.
Qed.

(** What is stored is read back, for every reading of the other texts. *)
Lemma parseTime_formatTime `{LenientParse} t :
  writable t → parse_other "" = None → parseTime (formatTime t) = t.
Proof.
  intros Ht He. rw /formatTime. destruct (IsZero t) eqn:E.
  - apply IsZero_spec in E as ->. by rw /parseTime /= He.
  - by rw /parseTime parse_format.
Qed.

(** The order of the texts is not the order of the times: where one is a whole
    second, the point of the other comes before the letter of its zone. *)
Lemma text_order_differs :
  let t := days_of_civil 2026 1 1 * day in
  t < t + 1 ∧ String.ltb (formatTime (t + 1)) (formatTime t) = true.
Proof. by vm_compute. Qed.
