(* ===== verification/ProviderStore.v ===== *)
(** * Provider attempts and the protection state in the database
    (internal/state: provider_attempts.go, governor_state.go)

    The two transactions around a provider call, and the tables in which the
    protection state of the governor survives a restart. *)

From S2P Require Import Prelude GoTime Provider Receipts GovTypes Ledger GovState Persist Execute.
From S2P Require Import Text Json TimeText Cycles Database WorkUnits Actions.

Local Open Scope runstead_scope.

(** ** Named values as text

    The types are strings in the code; a text that names no state reads as the
    state that equals none of the named ones. *)

Definition named {A} (table : list (string * A)) (other : string → A) (s : string) : A :=
  match List.find (λ '(name, _), String.eqb name s) table with
  | Some (_, a) => a
  | None => other s
  end.

Definition allowance_profiles : list (string * AllowanceProfile) := [
  ("plus_go_instant", AllowanceProfileInstant); ("reasoning", AllowanceProfileReasoning);
  ("unknown", AllowanceProfileUnknown); ("luna_unlimited_text", AllowanceProfileLunaUnlimitedText)]%string.

Definition AllowanceProfile_String (p : AllowanceProfile) : string :=
  match p with
  | AllowanceProfileInstant => "plus_go_instant"
  | AllowanceProfileReasoning => "reasoning"
  | AllowanceProfileUnknown => "unknown"
  | AllowanceProfileLunaUnlimitedText => "luna_unlimited_text"
  | AllowanceProfileOther s => s
  end.

Definition AllowanceKind_String (k : AllowanceKind) : string :=
  match k with
  | AllowanceKindEmpty => ""
  | AllowanceKindPublishedQuota => "published_quota"
  | AllowanceKindUnlimitedText => "unlimited_text"
  | AllowanceKindUnknown => "unknown"
  | AllowanceKindOther s => s
  end.

Definition outcome_classes : list (string * OutcomeClass) := [
  ("", OutcomeUnset); ("success", OutcomeSuccess); ("rate_or_capacity", OutcomeRateCapacity);
  ("authentication_expired", OutcomeAuthenticationExpired);
  ("authentication_denied", OutcomeAuthenticationDenied); ("http_403", OutcomeHTTP403);
  ("login_challenge", OutcomeLoginChallenge); ("captcha", OutcomeCAPTCHA);
  ("suspicious_activity", OutcomeSuspiciousActivity); ("account_warning", OutcomeAccountWarning);
  ("feature_restriction", OutcomeFeatureRestriction); ("connection_reset", OutcomeConnectionReset);
  ("timeout", OutcomeTimeout); ("empty_response", OutcomeEmptyResponse);
  ("malformed_upstream_response", OutcomeMalformedUpstream);
  ("upstream_server_failure", OutcomeUpstreamServerFailure);
  ("cancelled_before_upstream", OutcomeCancelledBeforeUpstream);
  ("uncertain_reached", OutcomeUncertainReached)]%string.

Definition OutcomeClass_String (c : OutcomeClass) : string :=
  match c with
  | OutcomeOther s => s
  | _ => match List.find (λ '(_, d), bool_decide (d = c)) outcome_classes with
         | Some (s, _) => s
         | None => ""
         end
  end.

Definition circuit_states : list (string * CircuitState) := [
  ("closed", CircuitClosed); ("open_until", CircuitOpenUntil);
  ("human_review_required", CircuitHumanReviewRequired)]%string.

Definition CircuitState_String (s : CircuitState) : string :=
  match s with
  | CircuitNone => ""
  | CircuitClosed => "closed"
  | CircuitOpenUntil => "open_until"
  | CircuitHumanReviewRequired => "human_review_required"
  end.

Definition upstream_circuits : list (string * UpstreamCircuitState) := [
  ("unknown", UpstreamCircuitUnknown); ("closed", UpstreamCircuitClosed);
  ("open", UpstreamCircuitOpen)]%string.

Definition UpstreamCircuitState_String (s : UpstreamCircuitState) : string :=
  match s with
  | UpstreamCircuitNone => ""
  | UpstreamCircuitUnknown => "unknown"
  | UpstreamCircuitClosed => "closed"
  | UpstreamCircuitOpen => "open"
  end.

Definition ReceiptErrorCode_String (c : option AttemptReceiptErrorCode) : string :=
  match c with
  | None => ""
  | Some AttemptReceiptMissing => "missing"
  | Some AttemptReceiptMalformed => "malformed"
  | Some AttemptReceiptUnknownVersion => "unknown_version"
  | Some AttemptReceiptNotFinalized => "not_finalized"
  | Some AttemptReceiptEmpty => "empty"
  | Some AttemptReceiptTooMany => "too_many"
  | Some AttemptReceiptTooLarge => "too_large"
  | Some AttemptReceiptInvalidField => "invalid_field"
  | Some AttemptReceiptDuplicateID => "duplicate_attempt_id"
  | Some AttemptReceiptSequence => "invalid_sequence"
  | Some AttemptReceiptCorrelation => "correlation_mismatch"
  | Some AttemptReceiptRouteMismatch => "route_mismatch"
  | Some AttemptReceiptTimestamp => "invalid_timestamp"
  | Some AttemptReceiptUnknownOutcome => "unknown_outcome"
  | Some AttemptReceiptUnknownTrigger => "unknown_trigger"
  | Some AttemptReceiptTriggerMismatch => "trigger_mismatch"
  | Some AttemptReceiptAmplification => "amplification_disabled"
  end.

(** ** Evidence of rate limits *)

Definition MaxRateLimitCounter : Z := 1000000000.
Definition maxRateLimitObservationDuration : Duration := (30 * 24 * Hour)%Z.

Definition sanitizeRateLimitCounter (allowZero : bool) (value : option Z) : option Z :=
  v ← value;
  if (v <? 0)%Z || (MaxRateLimitCounter <? v)%Z || (negb allowZero && (v =? 0)%Z) then None else Some v.

Definition sanitizeRateLimitDuration (value : Duration) : Duration :=
  if (value <=? 0)%Z || (maxRateLimitObservationDuration <? value)%Z then 0%Z else value.

Definition Sanitized (o : RateLimitObservation) : RateLimitObservation := {|
  ObservedRetryAfter := sanitizeRateLimitDuration (ObservedRetryAfter o);
  LimitRequests := sanitizeRateLimitCounter false (LimitRequests o);
  RemainingRequests := sanitizeRateLimitCounter true (RemainingRequests o);
  ResetRequests := sanitizeRateLimitDuration (ResetRequests o);
  LimitTokens := sanitizeRateLimitCounter false (LimitTokens o);
  RemainingTokens := sanitizeRateLimitCounter true (RemainingTokens o);
  ResetTokens := sanitizeRateLimitDuration (ResetTokens o) |}.

Definition maxObservedResetDistance : Duration := (30 * 24 * Hour)%Z.

Definition persistObservedResetAt (value recordedAt : Time) : option string :=
  if IsZero value || IsZero recordedAt || Before value (Add recordedAt (- maxObservedResetDistance)%Z)
     || After value (Add recordedAt maxObservedResetDistance)
  then None else Some (formatTime value).

Definition persistObservedDuration (value : Duration) : option Z :=
  if (value <=? 0)%Z || (30 * 24 * Hour <? value)%Z then None else Some value.

(** [persistRateLimitObservation]: the columns of a finished attempt. *)
Definition persistRateLimitObservation (record : ProviderFinished) (recordedAt : Time) (row : ProviderAttemptRow)
    : ProviderAttemptRow :=
  let o := Sanitized (pf_RateLimitObservation record) in
  row <| pv_status_code := if (100 <=? pf_StatusCode record)%Z && (pf_StatusCode record <=? 599)%Z
                           then Some (pf_StatusCode record) else None |>
      <| pv_observed_reset_at := persistObservedResetAt (pf_ObservedResetAt record) recordedAt |>
      <| pv_observed_retry_after_ns := persistObservedDuration (ObservedRetryAfter o) |>
      <| pv_limit_requests := LimitRequests o |> <| pv_remaining_requests := RemainingRequests o |>
      <| pv_reset_requests_ns := persistObservedDuration (ResetRequests o) |>
      <| pv_limit_tokens := LimitTokens o |> <| pv_remaining_tokens := RemainingTokens o |>
      <| pv_reset_tokens_ns := persistObservedDuration (ResetTokens o) |>.

(** ** Attempts *)

Definition providerAttemptStatus (outcome : OutcomeClass) (uncertain : bool) : string :=
  if uncertain || bool_decide (outcome = OutcomeUncertainReached) then "uncertain"
  else if bool_decide (outcome = OutcomeSuccess) then "completed" else "failed".

Definition persistedDeliveryState (state : DeliveryState) : string :=
  if DeliveryState_Valid state then DeliveryState_String state else "".

(** [None]: the text is not one that is stored. *)
Definition parsePersistedDeliveryState (raw : string) : option DeliveryState :=
  if String.eqb raw "" then Some DeliveryUnobserved
  else named [("not_sent", Some DeliveryNotSent); ("sent_confirmed", Some DeliverySentConfirmed);
              ("sent_unconfirmed", Some DeliverySentUnconfirmed); ("response_started", Some DeliveryResponseStarted);
              ("completed", Some DeliveryCompleted)]%string (λ _, None) raw.

(** [-r[0-9]+$]: the identifier of a retry. *)
Definition is_retry_child (id : string) : bool :=
  let backwards := reverse (String.list_ascii_of_string id) in
  let '(ds, rest) := digits (String.string_of_list_ascii backwards) in
  negb (String.eqb ds "") && String.prefix "r-" rest.

(** ** The rows of the protection state *)

Definition governor_row (state : PersistedState) (updatedAt : string) : GovernorRow :=
  let c := ps_Circuit state in
  let t := ps_Telemetry state in
  let b := ps_Ceilings state in {|
  gr_account_policy_id := ps_AccountPolicyID state;
  gr_provider_id := ps_ProviderID state;
  gr_model_pool := ps_ModelPool state;
  gr_model := ps_Model state;
  gr_allowance_profile := AllowanceProfile_String (ps_AllowanceProfile state);
  gr_next_attempt := ps_NextAttempt state;
  gr_last_start := formatTime (ps_LastStart state);
  gr_cooldown_until := formatTime (ps_CooldownUntil state);
  gr_circuit_state := CircuitState_String (cs_State c);
  gr_circuit_reason := OutcomeClass_String (cs_Reason c);
  gr_circuit_open_until := formatTime (cs_OpenUntil c);
  gr_circuit_refresh_required := cs_RefreshRequired c;
  gr_circuit_last_rate_reset := formatTime (ps_LastRateReset state);
  gr_telemetry_available := pt_Available t;
  gr_telemetry_reset_at := formatTime (pt_ResetAt t);
  gr_telemetry_cooldown_until := formatTime (pt_CooldownUntil t);
  gr_telemetry_rate_limited := pt_RateLimited t;
  gr_telemetry_capacity_exhausted := pt_CapacityExhausted t;
  gr_telemetry_upstream_circuit := UpstreamCircuitState_String (pt_UpstreamCircuit t);
  gr_telemetry_unsafe := pt_Unsafe t;
  gr_rolling_3h_ceiling := bc_Rolling3h b;
  gr_rolling_1h_ceiling := bc_Rolling1h b;
  gr_rolling_10m_ceiling := bc_Rolling10m b;
  gr_task_budget_ceiling := bc_TaskBudget b;
  gr_retry_budget_ceiling := bc_RetryBudget b;
  gr_manual_reserve_ceiling := bc_ManualReserve b;
  gr_updated_at := updatedAt |}.

Definition ledger_entry (event : ledgerEvent) : string * string := (formatTime (at_ event), le_taskID event).

Definition task_state_row (record : TaskStateRecord) : TaskStateRow := {|
  ts_task_id := tr_TaskID record; ts_attempts := tr_Attempts record; ts_retries := tr_Retries record;
  ts_last_touched := formatTime (tr_LastTouched record) |}.

Definition request_row (record : RequestRecordState) : RequestRecordRow := {|
  rq_request_id := rr_RequestID record; rq_state := rr_State record;
  rq_completed_at := formatTime (rr_CompletedAt record) |}.

Definition attempt_id_row (record : AttemptIDRecord) : string * string :=
  (ar_AttemptID record, formatTime (ar_SeenAt record)).

#[export] Instance eta_GovernorTables : Settable GovernorTables := λ g,
  Build_GovernorTables (tbl_governor_state g) (tbl_governor_ledger g) (tbl_governor_task_states g)
    (tbl_governor_request_records g) (tbl_governor_attempt_ids g) (tbl_governor_rate_events g).

(** The wall clock that is read outside the store's own clock. *)
Class WallClock := { wall_clock : nat → Time }.

Section store.
Context `{Disk} `{Codec} `{WallClock} `{LenientParse}.

Definition wall : DB Time := λ s, (inr (wall_clock (calls s)), tick s).

(** A statement on the tables of the governor; [None]: a key is there already. *)
Definition on_governor (table : string) (f : GovernorTables → option GovernorTables) : DB unit :=
  statement (λ t, match f (tbl_governor t) with
                  | Some g => inr (tt, t <| tbl_governor := g |>)
                  | None => inl (ErrConstraint table)
                  end).

Definition always (f : GovernorTables → GovernorTables) : GovernorTables → option GovernorTables := λ g, Some (f g).

(** Insertion into a table whose first column is its key. *)
Definition insert_keyed {A} (key : A → string) (row : A) (rows : list A) : option (list A) :=
  if existsb (λ r, String.eqb (key r) (key row)) rows then None else Some (rows ++ [row]).

Definition saveGovernorStateInTx (state : PersistedState) (updatedAt : string) : DB unit :=
  _ ←? on_governor "governor_state" (always (λ g, g <| tbl_governor_state := Some (governor_row state updatedAt) |>));
  _ ←? on_governor "governor_ledger" (always (λ g, g <| tbl_governor_ledger := [] |>));
  _ ←? for_each (λ event, on_governor "governor_ledger"
         (always (λ g, g <| tbl_governor_ledger ::= λ rows, rows ++ [ledger_entry event] |>))) (ps_RollingEvents state);
  _ ←? on_governor "governor_task_states" (always (λ g, g <| tbl_governor_task_states := [] |>));
  _ ←? for_each (λ record, on_governor "governor_task_states" (λ g,
         rows ← insert_keyed ts_task_id (task_state_row record) (tbl_governor_task_states g);
         Some (g <| tbl_governor_task_states := rows |>))) (ps_TaskStates state);
  _ ←? on_governor "governor_request_records" (always (λ g, g <| tbl_governor_request_records := [] |>));
  _ ←? for_each (λ record, on_governor "governor_request_records" (λ g,
         rows ← insert_keyed rq_request_id (request_row record) (tbl_governor_request_records g);
         Some (g <| tbl_governor_request_records := rows |>))) (ps_RequestRecords state);
  _ ←? on_governor "governor_attempt_ids" (always (λ g, g <| tbl_governor_attempt_ids := [] |>));
  _ ←? for_each (λ record, on_governor "governor_attempt_ids" (λ g,
         rows ← insert_keyed fst (attempt_id_row record) (tbl_governor_attempt_ids g);
         Some (g <| tbl_governor_attempt_ids := rows |>))) (ps_AttemptIDs state);
  _ ←? on_governor "governor_rate_events" (always (λ g, g <| tbl_governor_rate_events := [] |>));
  for_each (λ at_, on_governor "governor_rate_events"
    (always (λ g, g <| tbl_governor_rate_events ::= λ rows, rows ++ [formatTime at_] |>))) (ps_RateEvents state).

(** ** Reading it back *)

(** [ORDER BY] a key column. *)
Definition by_key {A} (key : A → string) (a b : A) : Prop := String.le (key a) (key b).
#[local] Instance by_key_dec {A} (key : A → string) : RelDecision (by_key key) := λ a b, _.
Definition order_by {A} (key : A → string) : list A → list A := merge_sort (by_key key).

Definition read_state (row : GovernorRow) (g : GovernorTables) : PersistedState :=
  let profile := named allowance_profiles AllowanceProfileOther (gr_allowance_profile row) in {|
  ps_AccountPolicyID := gr_account_policy_id row;
  ps_ProviderID := gr_provider_id row;
  ps_ModelPool := gr_model_pool row;
  ps_Model := gr_model row;
  ps_AllowanceProfile := profile;
  ps_AllowanceKind := AllowanceKindForProfile profile;
  ps_NextAttempt := gr_next_attempt row;
  ps_LastStart := parseTime (gr_last_start row);
  ps_CooldownUntil := parseTime (gr_cooldown_until row);
  ps_Circuit := {|
    cs_State := named circuit_states (λ _, CircuitNone) (gr_circuit_state row);
    cs_Reason := named outcome_classes OutcomeOther (gr_circuit_reason row);
    cs_OpenUntil := parseTime (gr_circuit_open_until row);
    cs_RefreshRequired := gr_circuit_refresh_required row |};
  ps_RateEvents := parseTime <$> tbl_governor_rate_events g;
  ps_LastRateReset := parseTime (gr_circuit_last_rate_reset row);
  ps_Telemetry := {|
    pt_Available := gr_telemetry_available row;
    pt_ResetAt := parseTime (gr_telemetry_reset_at row);
    pt_CooldownUntil := parseTime (gr_telemetry_cooldown_until row);
    pt_RateLimited := gr_telemetry_rate_limited row;
    pt_CapacityExhausted := gr_telemetry_capacity_exhausted row;
    pt_UpstreamCircuit := named upstream_circuits (λ _, UpstreamCircuitNone) (gr_telemetry_upstream_circuit row);
    pt_Unsafe := gr_telemetry_unsafe row |};
  ps_RollingEvents :=
    (λ '(at_, taskID), {| at_ := parseTime at_; le_taskID := taskID |}) <$> tbl_governor_ledger g;
  ps_TaskStates := (λ r, {| tr_TaskID := ts_task_id r; tr_Attempts := ts_attempts r; tr_Retries := ts_retries r;
    tr_LastTouched := parseTime (ts_last_touched r) |}) <$> order_by ts_task_id (tbl_governor_task_states g);
  ps_RequestRecords := (λ r, {| rr_RequestID := rq_request_id r; rr_State := rq_state r;
    rr_CompletedAt := parseTime (rq_completed_at r) |}) <$> order_by rq_request_id (tbl_governor_request_records g);
  ps_AttemptIDs := (λ '(id, seen), {| ar_AttemptID := id; ar_SeenAt := parseTime seen |}) <$>
    order_by fst (tbl_governor_attempt_ids g);
  ps_Ceilings := {|
    bc_Rolling3h := gr_rolling_3h_ceiling row; bc_Rolling1h := gr_rolling_1h_ceiling row;
    bc_Rolling10m := gr_rolling_10m_ceiling row; bc_TaskBudget := gr_task_budget_ceiling row;
    bc_RetryBudget := gr_retry_budget_ceiling row; bc_ManualReserve := gr_manual_reserve_ceiling row |} |}.

(** One query per table; [None]: nothing was saved. *)
Definition loadGovernorState : DB (option PersistedState) :=
  row ←? query (λ t, tbl_governor_state (tbl_governor t));
  match row with
  | None => return_ None
  | Some row =>
    ledger ←? query (λ t, tbl_governor_ledger (tbl_governor t));
    tasks ←? query (λ t, tbl_governor_task_states (tbl_governor t));
    requests ←? query (λ t, tbl_governor_request_records (tbl_governor t));
    ids ←? query (λ t, tbl_governor_attempt_ids (tbl_governor t));
    rates ←? query (λ t, tbl_governor_rate_events (tbl_governor t));
    return_ (Some (read_state row {| tbl_governor_state := Some row; tbl_governor_ledger := ledger;
      tbl_governor_task_states := tasks; tbl_governor_request_records := requests;
      tbl_governor_attempt_ids := ids; tbl_governor_rate_events := rates |}))
  end.

Definition GovernorState : DB (option PersistedState) := loadGovernorState.

Definition rollingCount (events : list ledgerEvent) (now : Time) (window : Duration) : nat :=
  length (filter (λ e, After (at_ e) (Add now (- window)%Z) = true) events).

Definition governorEventPayload (state : PersistedState) (now : Time) : GovernorSummary := {|
  gs_next_attempt := ps_NextAttempt state;
  gs_allowance_kind := AllowanceKind_String (ps_AllowanceKind state);
  gs_rolling_3h := length (ps_RollingEvents state);
  gs_rolling_1h := rollingCount (ps_RollingEvents state) now Hour;
  gs_rolling_10m := rollingCount (ps_RollingEvents state) now (10 * Minute)%Z;
  gs_task_used := foldr Z.add 0%Z (tr_Attempts <$> ps_TaskStates state);
  gs_cooldown_until := formatTime (ps_CooldownUntil state);
  gs_circuit := CircuitState_String (cs_State (ps_Circuit state));
  gs_circuit_until := formatTime (cs_OpenUntil (ps_Circuit state)) |}.

(** ** The transactions around a provider call *)

Definition prepared_row (record : ProviderPrepared) (id now : string) : ProviderAttemptRow := {|
  pv_execution_id := id;
  pv_task_id := pp_TaskID record;
  pv_work_unit_id := Redact (pp_WorkUnitID record);
  pv_client_request_id := pp_ClientRequestID record;
  pv_provider := pp_ProviderID record;
  pv_model_pool := pp_ModelPool record;
  pv_model := pp_Model record;
  pv_attempt_sequence := pp_AttemptSequence record;
  pv_receipt_aware := pp_ReceiptAware record;
  pv_protocol_family := pp_ProtocolFamily record;
  pv_config_identity := Redact (pp_ConfigIdentity record);
  pv_status := "prepared";
  pv_outcome := "";
  pv_upstream_reached := false;
  pv_uncertain := false;
  pv_attempt_debited := 0;
  pv_selected_backoff_ns := 0;
  pv_error_class := "";
  pv_provider_failure_class := "";
  pv_delivery_state := "";
  pv_request_id := "";
  pv_created_at := now;
  pv_prepared_at := formatTime (pp_StartedAt record);
  pv_completed_at := "";
  pv_recovery_reason := "";
  pv_status_code := None; pv_observed_reset_at := None; pv_observed_retry_after_ns := None;
  pv_limit_requests := None; pv_remaining_requests := None; pv_reset_requests_ns := None;
  pv_limit_tokens := None; pv_remaining_tokens := None; pv_reset_tokens_ns := None |}.

Definition same_request (taskID requestID : string) (r : ProviderAttemptRow) : bool :=
  String.eqb (pv_task_id r) taskID && String.eqb (pv_client_request_id r) requestID.

(** The execution identifier is the key; a task has one attempt per request. *)
Definition insert_provider_attempt (row : ProviderAttemptRow) : DB unit :=
  insert_row "provider_attempts" (λ t, has_task t (pv_task_id row)
      && negb (existsb (λ r, String.eqb (pv_execution_id r) (pv_execution_id row)) (tbl_provider_attempts t))
      && negb (existsb (same_request (pv_task_id row) (pv_client_request_id row)) (tbl_provider_attempts t)))
    (λ t, t <| tbl_provider_attempts ::= λ rows, rows ++ [row] |>).

Definition update_provider_attempts (p : ProviderAttemptRow → bool) (f : ProviderAttemptRow → ProviderAttemptRow)
    : DB nat :=
  statement (λ t, inr (selected p (tbl_provider_attempts t), t <| tbl_provider_attempts ::= updated p f |>)).

Definition RecordProviderPrepared (record : ProviderPrepared) : DB unit :=
  at_ ←? now;
  transaction (
    executionID ←? nextIdentity "exec";
    _ ←? insert_provider_attempt (prepared_row record executionID at_);
    _ ←? saveGovernorStateInTx (pp_State record) at_;
    clock ←? wall;
    appendEvent (pp_TaskID record) (ProviderAttemptPrepared executionID (pp_ClientRequestID record)
      (pp_ProviderID record) (pp_Model record) (pp_ModelPool record) (pp_AttemptSequence record)
      (pp_ReceiptAware record) (pp_ProtocolFamily record) (Redact (pp_ConfigIdentity record))
      (governorEventPayload (pp_State record) clock)) at_).

(** The columns that the second transaction sets. *)
Definition finished_row (record : ProviderFinished) (now : string) (row : ProviderAttemptRow) : ProviderAttemptRow :=
  persistRateLimitObservation record (parseTime now)
    (row <| pv_status := providerAttemptStatus (pf_Outcome record) (pf_Uncertain record) |>
         <| pv_outcome := OutcomeClass_String (pf_Outcome record) |>
         <| pv_upstream_reached := pf_UpstreamReached record |> <| pv_uncertain := pf_Uncertain record |>
         <| pv_attempt_debited := pf_AttemptDebited record |>
         <| pv_selected_backoff_ns := pf_SelectedBackoff record |>
         <| pv_error_class := ReceiptErrorCode_String (pf_ReceiptErrorCode record) |>
         <| pv_provider_failure_class := ProviderFailureClass_String (pf_ProviderFailureClass record) |>
         <| pv_delivery_state := persistedDeliveryState (pf_DeliveryState record) |>
         <| pv_request_id := Redact (pf_RequestID record) |> <| pv_completed_at := now |>).

Definition receipt_row (taskID executionID : string) (r : AttemptReceipt) : ReceiptRow := {|
  rp_receipt_attempt_id := rc_AttemptID r; rp_task_id := taskID; rp_execution_id := executionID;
  rp_schema_version := rc_SchemaVersion r; rp_client_request_id := rc_ClientRequestID r;
  rp_sequence := rc_Sequence r; rp_provider := rc_Provider r; rp_model := rc_Model r;
  rp_account_lane_hash := rc_AccountLaneHash r; rp_started_at := formatTime (rc_StartedAt r);
  rp_completed_at := formatTime (rc_CompletedAt r); rp_outcome := AttemptOutcome_String (rc_Outcome r);
  rp_trigger := AttemptTrigger_String (rc_Trigger r); rp_upstream_reached := rc_UpstreamReached r |}.

(** The sub-select of the execution may find no row; the column is not null. *)
Definition insert_receipt (taskID requestID : string) (r : AttemptReceipt) : DB unit :=
  statement (λ t,
    match List.find (same_request taskID requestID) (tbl_provider_attempts t) with
    | None => inl (ErrConstraint "provider_attempt_receipts")
    | Some attempt =>
      if has_task t taskID
         && negb (existsb (λ x, String.eqb (rp_receipt_attempt_id x) (rc_AttemptID r)) (tbl_provider_receipts t))
      then inr (tt, t <| tbl_provider_receipts ::= λ rows, rows ++ [receipt_row taskID (pv_execution_id attempt) r] |>)
      else inl (ErrConstraint "provider_attempt_receipts")
    end).

(** A row of nulls, to which the columns of an event are written. *)
Definition no_attempt : ProviderAttemptRow := {|
  pv_execution_id := ""; pv_task_id := ""; pv_work_unit_id := ""; pv_client_request_id := ""; pv_provider := "";
  pv_model_pool := ""; pv_model := ""; pv_attempt_sequence := 0; pv_receipt_aware := false; pv_protocol_family := "";
  pv_config_identity := ""; pv_status := ""; pv_outcome := ""; pv_upstream_reached := false; pv_uncertain := false;
  pv_attempt_debited := 0; pv_selected_backoff_ns := 0; pv_error_class := ""; pv_provider_failure_class := "";
  pv_delivery_state := ""; pv_request_id := ""; pv_created_at := ""; pv_prepared_at := ""; pv_completed_at := "";
  pv_recovery_reason := ""; pv_status_code := None; pv_observed_reset_at := None; pv_observed_retry_after_ns := None;
  pv_limit_requests := None; pv_remaining_requests := None; pv_reset_requests_ns := None; pv_limit_tokens := None;
  pv_remaining_tokens := None; pv_reset_tokens_ns := None |}.

Definition RecordProviderFinished (record : ProviderFinished) : DB unit :=
  at_ ←? now;
  transaction (
    _ ←? update_provider_attempts
           (λ r, same_request (pf_TaskID record) (pf_ClientRequestID record) r && String.eqb (pv_status r) "prepared")
           (finished_row record at_);
    _ ←? for_each (insert_receipt (pf_TaskID record) (pf_ClientRequestID record)) (pf_Receipts record);
    _ ←? saveGovernorStateInTx (pf_State record) at_;
    clock ←? wall;
    appendEvent (pf_TaskID record)
      (ProviderAttemptFinished
        ((finished_row record at_ no_attempt) <| pv_client_request_id := pf_ClientRequestID record |>)
        (pf_ProtocolFamily record) (Redact (pf_ConfigIdentity record)) (DeliveryState_String (pf_DeliveryState record))
        (length (pf_Receipts record)) (CircuitState_String (cs_State (pf_Circuit record)))
        (governorEventPayload (pf_State record) clock)) at_).

(** [WorkUnitLogicalTurnCount]: the distinct requests of a unit that are no retries. *)
Definition WorkUnitLogicalTurnCount (taskID workUnitID : string) : DB nat :=
  if String.eqb workUnitID "" then fail (ErrInvalidRecord "WorkUnitLogicalTurnCount requires a work unit id")
  else query (λ t, length (remove_dups (pv_client_request_id <$>
    filter (λ r, pv_task_id r = taskID ∧ pv_work_unit_id r = workUnitID
                 ∧ is_retry_child (pv_client_request_id r) = false) (tbl_provider_attempts t)))).
End store.
