(* ===== verification/ProviderLaws.v ===== *)
(** * What the database keeps of the provider (theorems on ProviderStore.v)

    The transaction before a provider call leaves the attempt, the protection
    state and the event, or nothing; a governor restored from what was saved is
    the governor that was saved. *)

From S2P Require Import Prelude GoTime Provider Receipts GovTypes Ledger GovState Persist Execute.
From S2P Require Import Text TimeText Cycles Database WorkUnits Actions ActionLaws AttemptLaws ProviderStore.

Local Open Scope runstead_scope.

(** ** Named values are read back *)

(** Values that are not a known name in disguise. *)
Definition plain_profile (p : AllowanceProfile) : Prop :=
  named allowance_profiles AllowanceProfileOther (AllowanceProfile_String p) = p.
Definition plain_class (c : OutcomeClass) : Prop := named outcome_classes OutcomeOther (OutcomeClass_String c) = c.

Lemma circuit_read s : named circuit_states (λ _, CircuitNone) (CircuitState_String s) = s.
Proof. by destruct s. Qed.

Lemma upstream_read s : named upstream_circuits (λ _, UpstreamCircuitNone) (UpstreamCircuitState_String s) = s.
Proof. by destruct s. Qed.

Lemma known_profile p : (∀ s, p ≠ AllowanceProfileOther s) → plain_profile p.
Proof. destruct p as [| | | |s]; intros H; [reflexivity..|exfalso; exact (H s eq_refl)]. Qed.

Lemma known_class c : (∀ s, c ≠ OutcomeOther s) → plain_class c.
Proof. destruct c as [| | | | | | | | | | | | | | | | | |s]; intros H; [reflexivity..|exfalso; exact (H s eq_refl)]. Qed.

(** ** Orders do not matter to a restoration *)

Lemma foldl_permutation {A B} (f : B → A → B) (key : A → string) (b : B) l l' :
  l ≡ₚ l' → NoDup (key <$> l) →
  (∀ x y b, key x ≠ key y → f (f b x) y = f (f b y) x) → foldl f b l = foldl f b l'.
Proof.
  intros Hl Hnd Hf. revert b. induction Hl as [|x l l' Hl IH|x y l|l1 l2 l3 H1 IH1 H2 IH2]; intros b; [done|..].
  - simpl. apply IH. by apply NoDup_cons in Hnd as [].
  - simpl. rw Hf //. cbn in Hnd. apply NoDup_cons in Hnd as [Hx _]. set_solver.
  - rw IH1 //. apply IH2. by rw -H1.
Qed.

Lemma restore_task_comm x y m : tr_TaskID x ≠ tr_TaskID y →
  restore_task (restore_task m x) y = restore_task (restore_task m y) x.
Proof. intros H. rw /restore_task insert_insert_ne //. Qed.

Lemma restore_request_comm x y m : rr_RequestID x ≠ rr_RequestID y →
  restore_request (restore_request m x) y = restore_request (restore_request m y) x.
Proof. intros H. rw /restore_request insert_insert_ne //. Qed.

Lemma restore_attempt_comm x y m : ar_AttemptID x ≠ ar_AttemptID y →
  restore_attempt (restore_attempt m x) y = restore_attempt (restore_attempt m y) x.
Proof. intros H. rw /restore_attempt. destruct (IsZero _), (IsZero _); simpl; [done..|]. by rw insert_insert_ne. Qed.

(** ** States that can be stored *)

Record persistable (st : PersistedState) : Prop := {
  p_profile : plain_profile (ps_AllowanceProfile st);
  p_reason : plain_class (cs_Reason (ps_Circuit st));
  p_times : Forall writable [ps_LastStart st; ps_CooldownUntil st; cs_OpenUntil (ps_Circuit st);
    ps_LastRateReset st; pt_ResetAt (ps_Telemetry st); pt_CooldownUntil (ps_Telemetry st)];
  p_events : Forall (λ e, writable (at_ e)) (ps_RollingEvents st);
  p_rates : Forall writable (ps_RateEvents st);
  p_tasks : Forall (λ r, writable (tr_LastTouched r)) (ps_TaskStates st);
  p_requests : Forall (λ r, writable (rr_CompletedAt r)) (ps_RequestRecords st);
  p_attempts : Forall (λ r, writable (ar_SeenAt r)) (ps_AttemptIDs st);
  p_task_keys : NoDup (tr_TaskID <$> ps_TaskStates st);
  p_request_keys : NoDup (rr_RequestID <$> ps_RequestRecords st);
  p_attempt_keys : NoDup (ar_AttemptID <$> ps_AttemptIDs st)
}.

(** The tables after a save. *)
Definition governor_tables (st : PersistedState) (updatedAt : string) : GovernorTables := {|
  tbl_governor_state := Some (governor_row st updatedAt);
  tbl_governor_ledger := ledger_entry <$> ps_RollingEvents st;
  tbl_governor_task_states := task_state_row <$> ps_TaskStates st;
  tbl_governor_request_records := request_row <$> ps_RequestRecords st;
  tbl_governor_attempt_ids := attempt_id_row <$> ps_AttemptIDs st;
  tbl_governor_rate_events := formatTime <$> ps_RateEvents st |}.

Section laws.
Context {DK : Disk} {CD : Codec} {WC : WallClock} {LP : LenientParse}.

(** ** Saving *)

Lemma on_governor_ok table f s u s' :
  on_governor table f s = (inr u, s') →
  ∃ g, f (tbl_governor (tables s)) = Some g ∧ tables s' = (tables s) <| tbl_governor := g |>.
Proof.
  intros H%statement_ok. cbn in H. destruct (f (tbl_governor (tables s))) as [g|]; [|done].
  exists g. by injection H as _ <-.
Qed.

(** A loop that appends to one table of the governor. *)
Lemma for_each_appends {A B} (get : GovernorTables → list B) (put : list B → GovernorTables → GovernorTables)
    (row : A → B) table (step : A → GovernorTables → option GovernorTables) xs s u s' :
  (∀ g, put (get g) g = g) → (∀ l g, get (put l g) = l) → (∀ l k g, put l (put k g) = put l g) →
  (∀ x g g', step x g = Some g' → g' = put (get g ++ [row x]) g) →
  for_each (λ x, on_governor table (step x)) xs s = (inr u, s') →
  tables s' = (tables s) <| tbl_governor :=
    put (get (tbl_governor (tables s)) ++ (row <$> xs)) (tbl_governor (tables s)) |>.
Proof.
  intros Hpg Hgp Hpp Hstep. revert s. induction xs as [|x xs IH]; intros s.
  - intros [= _ <-]. rw app_nil_r Hpg. by destruct (tables s) as [].
  - intros (a & s1 & (g & Hg & H1)%on_governor_ok & H2)%check_ok. apply Hstep in Hg. rw (IH _ H2) H1 Hg.
    rw fmap_cons. destruct (tables s) as []. simpl. by rw Hgp Hpp -app_assoc.
Qed.

Lemma insert_keyed_some {A} (key : A → string) row rows rows' :
  insert_keyed key row rows = Some rows' → rows' = rows ++ [row].
Proof. rw /insert_keyed. case_match; naive_solver. Qed.

Lemma save_ok st at_ s u s' :
  saveGovernorStateInTx st at_ s = (inr u, s') →
  tables s' = (tables s) <| tbl_governor := governor_tables st at_ |>.
Proof.
  rw /saveGovernorStateInTx.
  intros (? & s1 & (? & [= <-] & H1)%on_governor_ok & H)%check_ok.
  apply check_ok in H as (? & s2 & (? & [= <-] & H2)%on_governor_ok & H).
  apply check_ok in H as (? & s3 & H3 & H).
  apply (for_each_appends tbl_governor_ledger (λ l g, g <| tbl_governor_ledger := l |>) ledger_entry) in H3;
    [|by intros []|done|done|by intros ? ? ? [= <-]].
  apply check_ok in H as (? & s4 & (? & [= <-] & H4)%on_governor_ok & H).
  apply check_ok in H as (? & s5 & H5 & H).
  apply (for_each_appends tbl_governor_task_states (λ l g, g <| tbl_governor_task_states := l |>) task_state_row) in H5;
    [|by intros []|done|done|by intros ? ? ? (? & ->%insert_keyed_some & [= <-])%bind_Some].
  apply check_ok in H as (? & s6 & (? & [= <-] & H6)%on_governor_ok & H).
  apply check_ok in H as (? & s7 & H7 & H).
  apply (for_each_appends tbl_governor_request_records (λ l g, g <| tbl_governor_request_records := l |>) request_row) in H7;
    [|by intros []|done|done|by intros ? ? ? (? & ->%insert_keyed_some & [= <-])%bind_Some].
  apply check_ok in H as (? & s8 & (? & [= <-] & H8)%on_governor_ok & H).
  apply check_ok in H as (? & s9 & H9 & H).
  apply (for_each_appends tbl_governor_attempt_ids (λ l g, g <| tbl_governor_attempt_ids := l |>) attempt_id_row) in H9;
    [|by intros []|done|done|by intros ? ? ? (? & ->%insert_keyed_some & [= <-])%bind_Some].
  apply check_ok in H as (? & s10 & (? & [= <-] & H10)%on_governor_ok & H11).
  apply (for_each_appends tbl_governor_rate_events (λ l g, g <| tbl_governor_rate_events := l |>) formatTime) in H11;
    [|by intros []|done|done|by intros ? ? ? [= <-]].
  rw H11 H10 H9 H8 H7 H6 H5 H4 H3 H2 H1. by destruct (tables s) as [].
Qed.

(** ** Reading *)

(** Two states with the same contents: the kind of the allowance follows the
    profile, and the tables with a key may come in another order. *)
Record same_contents (st st' : PersistedState) : Prop := {
  c_rest : st <| ps_AllowanceKind := AllowanceKindEmpty |> <| ps_TaskStates := [] |>
              <| ps_RequestRecords := [] |> <| ps_AttemptIDs := [] |>
         = st' <| ps_AllowanceKind := AllowanceKindEmpty |> <| ps_TaskStates := [] |>
              <| ps_RequestRecords := [] |> <| ps_AttemptIDs := [] |>;
  c_tasks : ps_TaskStates st' ≡ₚ ps_TaskStates st;
  c_requests : ps_RequestRecords st' ≡ₚ ps_RequestRecords st;
  c_attempts : ps_AttemptIDs st' ≡ₚ ps_AttemptIDs st
}.

Lemma order_by_perm {A} (key : A → string) l : order_by key l ≡ₚ l.
Proof. apply merge_sort_Permutation. Qed.

Lemma loadGovernorState_ok s r s' :
  loadGovernorState s = (inr r, s') →
  r = (λ row, read_state row (tbl_governor (tables s))) <$> tbl_governor_state (tbl_governor (tables s))
  ∧ tables s' = tables s.
Proof.
  rw /loadGovernorState. intros (row & s1 & [-> H1]%query_ok & H)%check_ok.
  destruct (tbl_governor_state (tbl_governor (tables s))) as [row|] eqn:E; [|by injection H as <- <-].
  apply check_ok in H as (? & s2 & [-> H2]%query_ok & H). apply check_ok in H as (? & s3 & [-> H3]%query_ok & H).
  apply check_ok in H as (? & s4 & [-> H4]%query_ok & H). apply check_ok in H as (? & s5 & [-> H5]%query_ok & H).
  apply check_ok in H as (? & s6 & [-> H6]%query_ok & H). injection H as <- <-.
  rw H6 H5 H4 H3 H2 H1. split; [|done]. cbn. by destruct (tbl_governor (tables s)).
Qed.

(** Rows that are read as the records they were written for. *)
Lemma read_rows {A B} (key : B → string) (write : A → B) (read : B → A) (ok : A → Prop) l :
  Forall ok l → (∀ a, ok a → read (write a) = a) → read <$> order_by key (write <$> l) ≡ₚ l.
Proof.
  intros Hl Hr. rw order_by_perm -list_fmap_compose. rewrite <- (list_fmap_id l) at 2.
  induction Hl as [|a l Ha Hl IH]; [done|]. rw !fmap_cons IH. cbn. by rw Hr.
Qed.

Lemma read_list {A B} (write : A → B) (read : B → A) (ok : A → Prop) l :
  Forall ok l → (∀ a, ok a → read (write a) = a) → read <$> (write <$> l) = l.
Proof. intros Hl Hr. induction Hl as [|a l Ha Hl IH]; [done|]. by rw !fmap_cons IH Hr. Qed.

Lemma read_saved st upd :
  parse_other "" = None → persistable st → same_contents st (read_state (governor_row st upd) (governor_tables st upd)).
Proof.
  intros He [Hprofile Hreason Htimes Hevents Hrates Htasks Hreq Hids _ _ _].
  assert (∀ t, writable t → parseTime (formatTime t) = t) as Ht by (intros; by apply parseTime_formatTime).
  rw !Forall_cons in Htimes. destruct Htimes as (T1 & T2 & T3 & T4 & T5 & T6 & _).
  rw /plain_profile in Hprofile. rw /plain_class in Hreason. split.
  - rw /read_state /governor_row /governor_tables. cbn -[formatTime parseTime named AllowanceProfile_String
      CircuitState_String OutcomeClass_String UpstreamCircuitState_String].
    rw !Ht // Hprofile Hreason circuit_read upstream_read.
    rw (read_list ledger_entry _ (λ e, writable (at_ e)) (ps_RollingEvents st)) //;
      [by intros [] ?; cbn -[formatTime parseTime]; rw Ht|].
    rw (read_list formatTime parseTime writable) //. destruct st as [? ? ? ? ? ? ? ? ? [] ? ? [] ? ? ? ? []]. done.
  - apply (read_rows ts_task_id task_state_row _ (λ r, writable (tr_LastTouched r))); [done|].
    intros [] ?; cbn -[formatTime parseTime]. by rw Ht.
  - apply (read_rows rq_request_id request_row _ (λ r, writable (rr_CompletedAt r))); [done|].
    intros [] ?; cbn -[formatTime parseTime]. by rw Ht.
  - apply (read_rows fst attempt_id_row _ (λ r, writable (ar_SeenAt r))); [done|].
    intros [] ?; cbn -[formatTime parseTime]. by rw Ht.
Qed.

Lemma bind_ext {S A B} (m m' : State S A) (k k' : A → State S B) s :
  m s = m' s → (∀ a s, k a s = k' a s) → (x ← m; k x) s = (x ← m'; k' x) s.
Proof. intros Hm Hk. by rw !bind_run Hm Hk. Qed.

Lemma restore_same `{MapOrder} `{Env} st st' g :
  same_contents st st' → persistable st → RestorePersistedState st' g = RestorePersistedState st g.
Proof.
  intros [Hrest Htasks Hreq Hids] Hp. destruct Hp as [_ _ _ _ _ _ _ _ Ktasks Kreq Kids].
  destruct st, st'. cbn in *. injection Hrest as -> -> -> -> -> -> -> -> -> -> -> -> -> ->.
  rw /RestorePersistedState.
  assert (∀ m, foldl restore_task m ps_TaskStates0 = foldl restore_task m ps_TaskStates) as E1.
  { intros m. symmetry. apply (foldl_permutation _ tr_TaskID); [done|done|]. apply restore_task_comm. }
  assert (∀ m, foldl restore_request m ps_RequestRecords0 = foldl restore_request m ps_RequestRecords) as E2.
  { intros m. symmetry. apply (foldl_permutation _ rr_RequestID); [done|done|]. apply restore_request_comm. }
  assert (∀ m, foldl restore_attempt m ps_AttemptIDs0 = foldl restore_attempt m ps_AttemptIDs) as E3.
  { intros m. symmetry. apply (foldl_permutation _ ar_AttemptID); [done|done|]. apply restore_attempt_comm. }
  do 7 (apply bind_ext; [done|intros ? ?]).
  apply bind_ext; [by rw /modify /upd /= E1|intros ? ?]. apply bind_ext; [by rw /modify /upd /= E2|intros ? ?].
  apply bind_ext; [by rw /modify /upd /= E3|done].
Qed.

Lemma wall_ok s clock s' : wall s = (inr clock, s') → tables s' = tables s.
Proof. by intros [= _ <-]. Qed.

(** ** A save on a database that works *)

(** The keys of the tables that have one are distinct. *)
Definition distinct_keys (st : PersistedState) : Prop :=
  NoDup (tr_TaskID <$> ps_TaskStates st) ∧ NoDup (rr_RequestID <$> ps_RequestRecords st)
  ∧ NoDup (ar_AttemptID <$> ps_AttemptIDs st).

Section healthy.
Context (Hio : ∀ n, io n = None).

Lemma on_governor_runs table f s g :
  f (tbl_governor (tables s)) = Some g → ∃ s', on_governor table f s = (inr tt, s') ∧ tables s' = (tables s) <| tbl_governor := g |>.
Proof. intros Hf. rw /on_governor /statement Hio Hf. by eexists. Qed.

(** The steps of a loop all succeed when each step does after those before it. *)
Lemma for_each_runs {A} (f : A → DB unit) (P : list A → Tables → Prop) xs s :
  P [] (tables s) →
  (∀ done x todo s, xs = done ++ x :: todo → P done (tables s) → ∃ s', f x s = (inr tt, s') ∧ P (done ++ [x]) (tables s')) →
  ∃ s', for_each f xs s = (inr tt, s') ∧ P xs (tables s').
Proof.
  intros H0 Hstep. enough (∀ todo done s, xs = done ++ todo → P done (tables s) →
    ∃ s', for_each f todo s = (inr tt, s') ∧ P xs (tables s')) as H by (by apply (H xs [] s)).
  clear s H0. intros todo. induction todo as [|x todo IH]; intros done s Hxs Hd.
  - rw app_nil_r in Hxs. subst done. by exists s.
  - destruct (Hstep _ _ _ _ Hxs Hd) as (s1 & H1 & HP). simpl. rw /check H1.
    apply (IH (done ++ [x])); [|done]. by rw -app_assoc.
Qed.

Lemma insert_keyed_fresh {A} (key : A → string) row rows :
  key row ∉ key <$> rows → insert_keyed key row rows = Some (rows ++ [row]).
Proof.
  intros H. rw /insert_keyed. destruct (existsb _ rows) eqn:E; [|done]. exfalso. apply H.
  apply existsb_exists in E as (r & Hr%list_elem_of_In & Hk%String.eqb_eq). rw -Hk. by apply list_elem_of_fmap_2.
Qed.

(** Inserting records with distinct keys into an empty table. *)
Lemma keyed_loop_runs {A B} (get : GovernorTables → list B) (put : list B → GovernorTables → GovernorTables)
    (row : A → B) (key : A → string) (column : B → string) table xs s :
  (∀ l g, get (put l g) = l) → (∀ a, column (row a) = key a) → get (tbl_governor (tables s)) = [] →
  NoDup (key <$> xs) →
  ∃ s', for_each (λ x, on_governor table (λ g, rows ← insert_keyed column (row x) (get g); Some (put rows g))) xs s
        = (inr tt, s').
Proof.
  intros Hgp Hk H0 Hnd.
  destruct (for_each_runs
    (λ x, on_governor table (λ g, rows ← insert_keyed column (row x) (get g); Some (put rows g)))
    (λ done t, get (tbl_governor t) = row <$> done) xs s) as (s' & H & _); [done| |by eauto].
  intros done x todo s1 -> Hs1.
  destruct (on_governor_runs table (λ g, rows ← insert_keyed column (row x) (get g); Some (put rows g)) s1
    (put ((row <$> done) ++ [row x]) (tbl_governor (tables s1)))) as (s2 & H2 & Ht).
  - rw Hs1 insert_keyed_fresh //. rw Hk -list_fmap_compose. intros (y & Hy & Hin)%list_elem_of_fmap.
    rw fmap_app fmap_cons in Hnd. apply NoDup_app in Hnd as (_ & Hd & _). apply (Hd (key x)); [|left].
    rw Hy /= Hk. by apply list_elem_of_fmap_2.
  - exists s2. split; [done|]. rw Ht. destruct (tables s1). simpl. by rw Hgp fmap_app.
Qed.

Lemma append_loop_runs {A} table (step : A → GovernorTables → GovernorTables) xs s :
  ∃ s', for_each (λ x, on_governor table (always (step x))) xs s = (inr tt, s').
Proof.
  destruct (for_each_runs (λ x, on_governor table (always (step x))) (λ _ _, True) xs s) as (s' & H & _); [done| |by eauto].
  intros done x todo s1 _ _. destruct (on_governor_runs table (always (step x)) s1 _ eq_refl) as (s2 & H2 & _). eauto.
Qed.

Lemma then_loop {A} (m : DB unit) (k : unit → DB A) s a :
  (∃ s1, m s = (inr tt, s1)) → (∀ s1, ∃ s', k tt s1 = (inr a, s')) → ∃ s', check m k s = (inr a, s').
Proof. intros (s1 & Hm) Hk. rw /check Hm. by apply Hk. Qed.

Lemma then_clear {A} table (f : GovernorTables → GovernorTables) (k : unit → DB A) s a :
  (∀ s1, tables s1 = (tables s) <| tbl_governor := f (tbl_governor (tables s)) |> → ∃ s', k tt s1 = (inr a, s')) →
  ∃ s', check (on_governor table (always f)) k s = (inr a, s').
Proof.
  intros Hk. destruct (on_governor_runs table (always f) s _ eq_refl) as (s1 & H & E). rw /check H. by apply Hk.
Qed.

Lemma save_runs st at_ s : distinct_keys st → ∃ s', saveGovernorStateInTx st at_ s = (inr tt, s').
Proof.
  intros (K1 & K2 & K3). rw /saveGovernorStateInTx.
  apply then_clear; intros s1 _. apply then_clear; intros s2 _. apply then_loop; [apply append_loop_runs|intros s3].
  apply then_clear; intros s4 E4. apply then_loop; [|intros s5].
  { by apply (keyed_loop_runs _ (λ l g, g <| tbl_governor_task_states := l |>) _ tr_TaskID); [..|rw E4|]. }
  apply then_clear; intros s6 E6. apply then_loop; [|intros s7].
  { by apply (keyed_loop_runs _ (λ l g, g <| tbl_governor_request_records := l |>) _ rr_RequestID); [..|rw E6|]. }
  apply then_clear; intros s8 E8. apply then_loop; [|intros s9].
  { by apply (keyed_loop_runs _ (λ l g, g <| tbl_governor_attempt_ids := l |>) _ ar_AttemptID); [..|rw E8|]. }
  apply then_clear; intros s10 _. apply append_loop_runs.
Qed.
End healthy.


(** ** The two transactions *)

(** A record that the schema accepts. *)
Definition acceptable (t : Tables) (record : ProviderPrepared) : Prop :=
  has_task t (pp_TaskID record) = true
  ∧ existsb (same_request (pp_TaskID record) (pp_ClientRequestID record)) (tbl_provider_attempts t) = false
  ∧ existsb (λ r, String.eqb (pv_execution_id r) (identity "exec" (tbl_identity_sequence t + 1)))
      (tbl_provider_attempts t) = false
  ∧ distinct_keys (pp_State record).

Lemma transaction_runs {A} (body : DB A) s :
  (∀ n, io n = None) → (∀ s1, tables s1 = tables s → ∃ a s2, body s1 = (inr a, s2)) →
  ∃ a s', transaction body s = (inr a, s').
Proof.
  intros Hio Hbody. rw /transaction /check /query /statement !Hio.
  destruct (Hbody (tick s <| tables := tables s |>) eq_refl) as (a & s2 & E). rw /= E Hio. eauto.
Qed.

Lemma prepared_runs record s :
  (∀ n, io n = None) → acceptable (tables s) record → ∃ u s', RecordProviderPrepared record s = (inr u, s').
Proof.
  intros Hio (Ht & Hr & Hid & Hk). rw /RecordProviderPrepared {1}/check. cbn [now].
  apply transaction_runs; [done|]. intros s1 H1. rw {1}/check /nextIdentity {1}/statement Hio {1}/check.
  set (id := identity _ _). set (s2 := tick _ <| tables := _ |>).
  assert (has_task (tables s2) (pp_TaskID record)
    && negb (existsb (λ r, String.eqb (pv_execution_id r) id) (tbl_provider_attempts (tables s2)))
    && negb (existsb (same_request (pp_TaskID record) (pp_ClientRequestID record)) (tbl_provider_attempts (tables s2)))
    = true) as Hins.
  { rw /s2 /id /= H1 Hid Hr. rw /has_task in Ht |- *. by rw /= Ht. }
  rw /insert_provider_attempt /insert_row {1}/statement Hio. cbn [pv_task_id pv_execution_id pv_client_request_id prepared_row].
  rw Hins {1}/check. set (s3 := tick s2 <| tables := _ |>).
  destruct (save_runs Hio (pp_State record) (stamp (calls s)) s3 Hk) as (s4 & E4). rw E4 {1}/check /wall.
  apply save_ok in E4. rw /appendEvent /statement Hio /= E4 /s3 /s2 /= H1. rw /has_task in Ht |- *. rw /= Ht. eauto.
Qed.

(** What a committed intent leaves. *)
Definition intended (t : Tables) (record : ProviderPrepared) (at_ : string) : Tables :=
  t <| tbl_identity_sequence ::= Z.succ |>
    <| tbl_provider_attempts ::= λ rows,
         rows ++ [prepared_row record (identity "exec" (tbl_identity_sequence t + 1)) at_] |>
    <| tbl_governor := governor_tables (pp_State record) at_ |>.

Lemma prepared_tables record s u s' :
  RecordProviderPrepared record s = (inr u, s') →
  has_task (tables s) (pp_TaskID record) = true
  ∧ existsb (same_request (pp_TaskID record) (pp_ClientRequestID record)) (tbl_provider_attempts (tables s)) = false
  ∧ ∃ at_, with_event (intended (tables s) record at_) (tables s').
Proof.
  intros E. rw /RecordProviderPrepared in E. db_inv. apply transaction_ok in E as (s1 & s2 & H1 & E & H2).
  db_inv. apply nextIdentity_ok in H0 as [-> H0]. apply insert_row_ok in H3 as [Hok H3]. apply save_ok in H4.
  apply wall_ok in H5. apply append_with in E. rw H5 H4 H3 H0 H1 H -H2 in E. rw H0 H1 H in Hok.
  apply andb_true_iff in Hok as [[Ht _]%andb_true_iff Hr%negb_true_iff]. split_and!; [exact Ht|exact Hr|].
  by eexists.
Qed.

(** The intent of a provider call.  The transaction before it leaves the
    attempt, with the status prepared under a new identity, the protection state as
    it is after the start and one event, all three, for a task that is there and a
    request it has no attempt for; or it fails and leaves the tables as they were,
    which on a database that works happens only to a record the schema refuses. *)
Theorem RecordProviderPrepared_spec record s :
  let t := tables s in
  match RecordProviderPrepared record s with
  | (inl _, s') => tables s' = t ∧ ((∀ n, io n = None) → ¬ acceptable t record)
  | (inr _, s') => ∃ at_,
      has_task t (pp_TaskID record) = true
      ∧ existsb (same_request (pp_TaskID record) (pp_ClientRequestID record)) (tbl_provider_attempts t) = false
      ∧ with_event (intended t record at_) (tables s')
  end.
Proof.
  destruct (RecordProviderPrepared record s) as [[e|u] s'] eqn:E.
  - split; [by apply aborts_operation in E|]. intros Hio Hok. destruct (prepared_runs _ _ Hio Hok) as (? & ? & ?). congruence.
  - apply prepared_tables in E as (? & ? & at_ & ?). by exists at_.
Qed.

(** C37: a restart.  Whatever the protection state that was saved with the intent of
    a provider call, the governor restored from the database is the governor that
    restoring that state itself gives: no debit, no cooldown, no open circuit and
    no seen attempt is lost on the way through the tables. *)
Theorem restart_restores `{MapOrder} `{Env} record s u s' s1 r s2 g :
  RecordProviderPrepared record s = (inr u, s') → persistable (pp_State record) → parse_other "" = None →
  tbl_governor (tables s1) = tbl_governor (tables s') → GovernorState s1 = (inr r, s2) →
  ∃ st, r = Some st ∧ RestorePersistedState st g = RestorePersistedState (pp_State record) g.
Proof.
  intros E Hp He Hs [-> _]%loadGovernorState_ok.
  apply prepared_tables in E as (_ & _ & upd & event & E).
  rw Hs E. cbn -[governor_row governor_tables read_state].
  eexists. split; [done|]. apply restore_same; [|done]. by apply read_saved.
Qed.

(** *** The outcome *)

Definition finishes (record : ProviderFinished) (r : ProviderAttemptRow) : bool :=
  same_request (pf_TaskID record) (pf_ClientRequestID record) r && String.eqb (pv_status r) "prepared".

Lemma finished_status record at_ row :
  pv_status (finished_row record at_ row) = providerAttemptStatus (pf_Outcome record) (pf_Uncertain record).
Proof. done. Qed.

Lemma finished_settled record at_ row : pv_status (finished_row record at_ row) ≠ "prepared"%string.
Proof. rw finished_status /providerAttemptStatus. by destruct (_ || _); [|destruct (bool_decide _)]. Qed.

Lemma find_finished record at_ rows :
  pv_execution_id <$> List.find (same_request (pf_TaskID record) (pf_ClientRequestID record))
    (updated (finishes record) (finished_row record at_) rows)
  = pv_execution_id <$> List.find (same_request (pf_TaskID record) (pf_ClientRequestID record)) rows.
Proof.
  induction rows as [|r rows IH]; [done|]. rw /updated fmap_cons /=.
  destruct (finishes record r) eqn:E; [|destruct (same_request _ _ r); [done|exact IH]].
  apply andb_true_iff in E as [E _]. by rw E /same_request /=; rw /same_request in E; rw E.
Qed.

(** The receipts of a set go to the execution of the request, each identifier once. *)
Lemma receipts_ok task request rs s u s' :
  for_each (insert_receipt task request) rs s = (inr u, s') →
  ∃ rows, tables s' = (tables s) <| tbl_provider_receipts ::= λ old, old ++ rows |>
    ∧ (rs ≠ [] → ∃ id, pv_execution_id <$> List.find (same_request task request) (tbl_provider_attempts (tables s)) = Some id
                 ∧ rows = receipt_row task id <$> rs)
    ∧ (rs = [] → rows = []).
Proof.
  revert s. induction rs as [|r rs IH]; intros s; simpl.
  { intros [= _ <-]. exists []. split_and!; [|done|done]. destruct (tables s). by rw /upd /= app_nil_r. }
  intros (? & s1 & E1%statement_ok & E2)%check_ok. apply IH in E2 as (rows & E2 & Hid & Hnil).
  destruct (List.find _ _) as [attempt|] eqn:Ef; [|done]. destruct (_ && _); [|done]. injection E1 as _ E1.
  exists (receipt_row task (pv_execution_id attempt) r :: rows). split_and!; [| |done].
  - rw E2 -E1. destruct (tables s). by rw /upd /= -app_assoc.
  - intros _. exists (pv_execution_id attempt). split; [done|]. destruct rs as [|r' rs]; [by rw Hnil|].
    destruct Hid as (id & Hid & ->); [done|]. rw -E1 /= Ef in Hid. by injection Hid as <-.
Qed.

(** What a committed outcome leaves, where the receipts of the set became [rows]. *)
Definition concluded (t : Tables) (record : ProviderFinished) (rows : list ReceiptRow) (at_ : string) : Tables :=
  t <| tbl_provider_attempts ::= updated (finishes record) (finished_row record at_) |>
    <| tbl_provider_receipts ::= λ old, old ++ rows |>
    <| tbl_governor := governor_tables (pf_State record) at_ |>.

Lemma update_provider_attempts_ok p f s n s' :
  update_provider_attempts p f s = (inr n, s') →
  n = selected p (tbl_provider_attempts (tables s))
  ∧ tables s' = (tables s) <| tbl_provider_attempts ::= updated p f |>.
Proof. intros H%statement_ok. by injection H as <- <-. Qed.

Lemma concluded_tables record s u s' :
  RecordProviderFinished record s = (inr u, s') →
  ∃ at_ rows, with_event (concluded (tables s) record rows at_) (tables s')
    ∧ (pf_Receipts record = [] → rows = [])
    ∧ (pf_Receipts record ≠ [] → ∃ id,
         pv_execution_id <$> List.find (same_request (pf_TaskID record) (pf_ClientRequestID record))
           (tbl_provider_attempts (tables s)) = Some id
         ∧ rows = receipt_row (pf_TaskID record) id <$> pf_Receipts record).
Proof.
  intros E. rw /RecordProviderFinished in E. db_inv. apply transaction_ok in E as (s1 & s2 & H1 & E & H2).
  db_inv. apply update_provider_attempts_ok in H0 as [_ H0].
  apply receipts_ok in H3 as (rows & H3 & Hid & Hnil). apply save_ok in H4. apply wall_ok in H5.
  apply append_with in E. rw H5 H4 H3 H0 H1 H -H2 in E. exists x, rows. split_and!; [exact E|done|].
  intros Hne. destruct (Hid Hne) as (id & Hf & ->). exists id. split; [|done]. rw H0 H1 H in Hf.
  by rw -Hf /= find_finished.
Qed.

(** The outcome columns of an attempt are those of the record, and the intent columns
    are as they were. *)
Definition settled_as (record : ProviderFinished) (at_ : string) (r r' : ProviderAttemptRow) : Prop :=
  (pv_execution_id r' = pv_execution_id r ∧ pv_task_id r' = pv_task_id r ∧ pv_work_unit_id r' = pv_work_unit_id r
   ∧ pv_client_request_id r' = pv_client_request_id r ∧ pv_provider r' = pv_provider r ∧ pv_model r' = pv_model r
   ∧ pv_attempt_sequence r' = pv_attempt_sequence r ∧ pv_prepared_at r' = pv_prepared_at r)
  ∧ (pv_status r' = providerAttemptStatus (pf_Outcome record) (pf_Uncertain record)
     ∧ pv_outcome r' = OutcomeClass_String (pf_Outcome record) ∧ pv_upstream_reached r' = pf_UpstreamReached record
     ∧ pv_uncertain r' = pf_Uncertain record ∧ pv_attempt_debited r' = pf_AttemptDebited record
     ∧ pv_selected_backoff_ns r' = pf_SelectedBackoff record
     ∧ pv_error_class r' = ReceiptErrorCode_String (pf_ReceiptErrorCode record)
     ∧ pv_provider_failure_class r' = ProviderFailureClass_String (pf_ProviderFailureClass record)
     ∧ pv_delivery_state r' = persistedDeliveryState (pf_DeliveryState record)
     ∧ pv_request_id r' = Redact (pf_RequestID record) ∧ pv_completed_at r' = at_).

(** The row is the receipt, under the execution of the request. *)
Definition booked (record : ProviderFinished) (attempts : list ProviderAttemptRow) (r : AttemptReceipt) (row : ReceiptRow) : Prop :=
  (∃ attempt, attempt ∈ attempts ∧ same_request (pf_TaskID record) (pf_ClientRequestID record) attempt = true
     ∧ rp_execution_id row = pv_execution_id attempt)
  ∧ rp_task_id row = pf_TaskID record ∧ rp_receipt_attempt_id row = rc_AttemptID r
  ∧ rp_client_request_id row = rc_ClientRequestID r ∧ rp_sequence row = rc_Sequence r
  ∧ rp_provider row = rc_Provider r ∧ rp_model row = rc_Model r ∧ rp_account_lane_hash row = rc_AccountLaneHash r
  ∧ rp_started_at row = formatTime (rc_StartedAt r) ∧ rp_completed_at row = formatTime (rc_CompletedAt r)
  ∧ rp_outcome row = AttemptOutcome_String (rc_Outcome r) ∧ rp_trigger row = AttemptTrigger_String (rc_Trigger r)
  ∧ rp_upstream_reached row = rc_UpstreamReached r.

Lemma finished_settled_as record at_ r : settled_as record at_ r (finished_row record at_ r).
Proof. done. Qed.

Lemma receipt_booked record attempts id r :
  pv_execution_id <$> List.find (same_request (pf_TaskID record) (pf_ClientRequestID record)) attempts = Some id →
  booked record attempts r (receipt_row (pf_TaskID record) id r).
Proof.
  destruct (List.find _ _) as [attempt|] eqn:E; [|done]. intros [= <-]. apply find_some in E as [Hin%list_elem_of_In Hs].
  split; [by exists attempt|done].
Qed.

(** C38: the outcome of a provider call.  The transaction after it fails and leaves the
    tables as they were; or it leaves them as they were but for this, together: the
    attempts of the request that were still prepared have the outcome of the record;
    the receipts of the call are there, each under the execution of the request;
    the protection state is the one after the call; and one event.  Then no attempt of
    the request is prepared, and whatever is recorded for the request later changes no
    attempt. *)
Theorem RecordProviderFinished_spec record s :
  let t := tables s in
  match RecordProviderFinished record s with
  | (inl _, s') => tables s' = t
  | (inr _, s') => ∃ at_ attempts rows,
      with_event (t <| tbl_provider_attempts := attempts |> <| tbl_provider_receipts ::= λ old, old ++ rows |>
                    <| tbl_governor := governor_tables (pf_State record) at_ |>) (tables s')
      ∧ Forall2 (λ r r', if finishes record r then settled_as record at_ r r' else r' = r) (tbl_provider_attempts t) attempts
      ∧ Forall2 (booked record (tbl_provider_attempts t)) (pf_Receipts record) rows
      ∧ (∀ r, r ∈ attempts → finishes record r = false)
      ∧ ∀ record2 s2, pf_TaskID record2 = pf_TaskID record → pf_ClientRequestID record2 = pf_ClientRequestID record →
          tbl_provider_attempts (tables s2) = attempts →
          tbl_provider_attempts (tables (RecordProviderFinished record2 s2).2) = attempts
  end.
Proof.
  destruct (RecordProviderFinished record s) as [[e|u] s'] eqn:E; [by apply aborts_operation in E|].
  apply concluded_tables in E as (at_ & rows & Hev & Hnil & Hid).
  set (attempts := updated (finishes record) (finished_row record at_) (tbl_provider_attempts (tables s))).
  exists at_, attempts, rows.
  assert (∀ r, r ∈ attempts → finishes record r = false) as Hdone.
  { intros r (r0 & -> & _)%list_elem_of_fmap. destruct (finishes record r0) eqn:E; [|done].
    apply andb_false_iff. right. apply String.eqb_neq, finished_settled. }
  split_and!; [exact Hev| | |exact Hdone|].
  - rw /attempts /updated. apply Forall2_fmap_r, Forall_Forall2_diag, Forall_true. intros r.
    change (let r' := if finishes record r then finished_row record at_ r else r in
      if finishes record r then settled_as record at_ r r' else r' = r).
    destruct (finishes record r); [apply finished_settled_as|done].
  - destruct (pf_Receipts record) as [|r rs]; [by rw Hnil|]. destruct Hid as (id & Hf & ->); [done|].
    apply Forall2_fmap_r, Forall_Forall2_diag, Forall_true. intros r'. by apply receipt_booked.
  - intros record2 s2 H1 H2 Hs2. destruct (RecordProviderFinished record2 s2) as [[e|u2] s3] eqn:E.
    { apply aborts_operation in E. simpl in *. by rw E. }
    apply concluded_tables in E as (at2 & rows2 & [event E] & _). simpl. rw E /= Hs2.
    rewrite <- (list_fmap_id attempts) at 2. apply list_fmap_ext. intros i r Hr%list_elem_of_lookup_2.
    apply Hdone in Hr. rw /finishes in Hr |- *. by rw H1 H2 Hr.
Qed.
End laws.
