(* ===== verification/ProviderScenarios.v ===== *)
(** * Concrete provider attempts

    One provider call of a task through the database: the intent, the outcome
    with a receipt, and a restart from what was saved. *)

From S2P Require Import Prelude GoTime Provider Receipts GovTypes Ledger GovState Persist System Execute Scenarios.
From S2P Require Import Text TimeText Cycles Database WorkUnits Actions ActionLaws UnitScenarios.
From S2P Require Import ProviderStore ProviderLaws.

Local Open Scope string_scope.
Local Open Scope runstead_scope.

#[local] Existing Instance canonical_order.
#[local] Existing Instance day_env.
#[local] Existing Instance sound_disk.
#[local] Existing Instance plain_codec.

#[local] Instance wall_seconds : WallClock := {| wall_clock := λ n, (day_start + Z.of_nat n * Second)%Z |}.
#[local] Instance strict_parse : LenientParse := {| parse_other := λ _, None |}.

(** ** The two transactions *)

Definition started_state : PersistedState := persistedStateLocked (gov two_attempts).

Definition provider_intent : ProviderPrepared := {|
  pp_TaskID := "task"; pp_WorkUnitID := "unit"; pp_ClientRequestID := "t1"; pp_ProviderID := "provider";
  pp_ModelPool := "pool"; pp_Model := "model"; pp_ProtocolFamily := ""; pp_ConfigIdentity := "use key sk-1";
  pp_AllowanceProfile := AllowanceProfileInstant; pp_AttemptSequence := 2; pp_StartedAt := day_start;
  pp_ReceiptAware := true; pp_TelemetryHealthy := true; pp_State := started_state |}.

Definition intended_store : Store := (RecordProviderPrepared provider_intent empty_store).2.

Definition paid_receipt : AttemptReceipt := {|
  rc_SchemaVersion := 1; rc_AttemptID := "att-1"; rc_ClientRequestID := "t1"; rc_Sequence := 1;
  rc_Provider := "provider"; rc_Model := "model"; rc_AccountLaneHash := "lane"; rc_StartedAt := day_start;
  rc_CompletedAt := (day_start + Second)%Z; rc_Outcome := AttemptOutcomeSuccess; rc_Trigger := AttemptTriggerInitial;
  rc_UpstreamReached := true |}.

Definition provider_outcome : ProviderFinished := {|
  pf_TaskID := "task"; pf_WorkUnitID := "unit"; pf_ClientRequestID := "t1"; pf_Outcome := OutcomeSuccess;
  pf_ProviderFailureClass := FailureNone; pf_ProtocolFamily := ""; pf_ConfigIdentity := "";
  pf_RequestID := "up-1"; pf_UpstreamReached := true; pf_Uncertain := false; pf_DeliveryState := DeliveryCompleted;
  pf_StatusCode := 200; pf_ObservedResetAt := zeroTime; pf_RateLimitObservation := zeroRateLimitObservation;
  pf_AttemptDebited := 1; pf_SelectedBackoff := 0; pf_Circuit := ps_Circuit started_state;
  pf_RetryEligible := false; pf_Receipts := [paid_receipt]; pf_ReceiptErrorCode := None;
  pf_State := started_state |}.

Definition concluded_store : Store := (RecordProviderFinished provider_outcome intended_store).2.

Example attempt_recorded :
  (λ r, (pv_execution_id r, pv_status r, pv_config_identity r)) <$> tbl_provider_attempts (tables intended_store)
  = [("exec-000001", "prepared", "use key [REDACTED]")].
Proof. by vm_compute. Qed.

Example attempt_concluded :
  (λ r, (pv_status r, pv_outcome r, pv_status_code r)) <$> tbl_provider_attempts (tables concluded_store)
  = [("completed", "success", Some 200%Z)]
  ∧ rp_execution_id <$> tbl_provider_receipts (tables concluded_store) = ["exec-000001"].
Proof. by vm_compute. Qed.

(** The second intent of a request breaks a constraint of the schema. *)
Example request_once : (RecordProviderPrepared provider_intent intended_store).1 = inl (ErrConstraint "provider_attempts").
Proof. by vm_compute. Qed.

(** Nothing checks that a row was selected: an outcome without an intent is
    accepted when it has no receipts, and only its protection state is kept. *)
Definition stray_outcome : ProviderFinished := {|
  pf_TaskID := "task"; pf_WorkUnitID := ""; pf_ClientRequestID := "t9"; pf_Outcome := OutcomeSuccess;
  pf_ProviderFailureClass := FailureNone; pf_ProtocolFamily := ""; pf_ConfigIdentity := "";
  pf_RequestID := ""; pf_UpstreamReached := true; pf_Uncertain := false; pf_DeliveryState := DeliveryCompleted;
  pf_StatusCode := 200; pf_ObservedResetAt := zeroTime; pf_RateLimitObservation := zeroRateLimitObservation;
  pf_AttemptDebited := 1; pf_SelectedBackoff := 0; pf_Circuit := ps_Circuit started_state;
  pf_RetryEligible := false; pf_Receipts := []; pf_ReceiptErrorCode := None; pf_State := started_state |}.

Example outcome_without_intent :
  let r := RecordProviderFinished stray_outcome empty_store in
  r.1 = inr tt ∧ tbl_provider_attempts (tables r.2) = [] ∧ ev_kind <$> tbl_events (tables r.2) = ["provider_attempt_completed"].
Proof. by vm_compute. Qed.

Example turns_of_unit :
  (WorkUnitLogicalTurnCount "task" "unit" concluded_store).1 = inr 1 ∧ is_retry_child "t1-r2" = true
  ∧ is_retry_child "t1-r" = false.
Proof. by vm_compute. Qed.

(** ** A restart *)

#[local] Instance writable_dec t : Decision (writable t).
Proof. rw /writable. apply _. Defined.

Lemma started_persistable : persistable started_state.
Proof. by split; apply (bool_decide_unpack _); vm_compute. Qed.

Lemma intended_runs : RecordProviderPrepared provider_intent empty_store = (inr tt, intended_store).
Proof. by vm_compute. Qed.

Definition state_read : option PersistedState :=
  match (GovernorState intended_store).1 with inr r => r | inl _ => None end.

Lemma state_is_read : GovernorState intended_store = (inr state_read, (GovernorState intended_store).2).
Proof. by vm_compute. Qed.

(** Both debits of the run are there after the restart. *)
Lemma restart_restores_witness :
  length (ps_RollingEvents started_state) = 2%nat
  ∧ ∃ st, state_read = Some st
    ∧ RestorePersistedState st demo_governor = RestorePersistedState started_state demo_governor.
Proof.
  split; [by vm_compute|].
  exact (restart_restores (LP := strict_parse) provider_intent empty_store tt intended_store intended_store _ _
    demo_governor intended_runs started_persistable eq_refl eq_refl state_is_read).
Defined.
