(* ===== verification/Encode.v ===== *)
(** * Observations as JSON (internal/tools/observation.go, write.go; internal/recipe/recipe.go)

    The JSON text of an observation, of its data and of its metadata, with the
    tags of the structs: what the model is shown and what is stored. *)

From stdpp Require Import pretty.
From S2P Require Import Prelude GoTime Text Json Protocol Recipe Observations Writing.

Local Open Scope runstead_scope.

Definition int_json (n : Z) : json := JNumber (pretty n).

(** Members with [omitempty]. *)
Definition omit_int (name : string) (n : Z) : list (string * json) :=
  if (n =? 0)%Z then [] else [(name, int_json n)].
Definition omit_bool (name : string) (b : bool) : list (string * json) := if b then [(name, JBool true)] else [].

Definition entry_type_text (t : EntryType) : string :=
  match t with
  | EntryFile => "file" | EntryDirectory => "directory" | EntrySymlink => "symlink" | EntryOther => "other"
  end.

Definition change_kind_text (k : ChangeKind) : string :=
  match k with changeCreated => "created" | changeModified => "modified" | changeUnchanged => "unchanged" end.

Definition write_outcome_text (o : WriteOutcome) : string :=
  match o with
  | WriteSuccess => "success"
  | WriteNoop => "noop"
  | WriteDenied => "denied"
  | WriteInvalidArguments => "invalid_arguments"
  | WritePathViolation => "path_violation"
  | WriteStale => "stale"
  | WriteInvalidPatch => "invalid_patch"
  | WriteFailed => "failed"
  | WriteUncertain => "uncertain"
  | WriteReconciliationReq => "reconciliation_required"
  | WriteHumanReviewReq => "human_review_required"
  end.

Definition file_json (d : FileData) : json :=
  JObject ([("path", JString (fd_Path d)); ("content", JString (fd_Content d))] ++ omit_string "sha256" (fd_SHA256 d)).

Definition entry_json (e : FileEntry) : json :=
  JObject ([("path", JString (fe_Path e)); ("type", JString (entry_type_text (fe_Type e)))]
           ++ omit_int "size_bytes" (fe_Size e)).

Definition match_json (m : SearchMatch) : json :=
  JObject [("path", JString (sm_Path m)); ("line", int_json (sm_Line m)); ("text", JString (sm_Text m))].

Definition write_json (e : WriteEvidence) : json :=
  JObject ([("path", JString (we_Path e)); ("before_hash", JString (we_BeforeHash e));
            ("after_hash", JString (we_AfterHash e)); ("byte_count", int_json (we_ByteCount e));
            ("change_kind", JString (change_kind_text (we_ChangeKind e)));
            ("outcome", JString (write_outcome_text (we_Outcome e)))]
           ++ omit_string "diff" (we_Diff e) ++ omit_bool "diff_truncated" (we_DiffTruncated e)
           ++ omit_int "diff_bytes" (we_DiffBytes e) ++ omit_string "action_id" (we_ActionID e)
           ++ omit_string "execution_id" (we_ExecutionID e) ++ omit_string "evidence_id" (we_EvidenceID e)).

Definition policy_json (p : PolicyDecision) : json :=
  JObject ([("decision", JString (pd_Decision p))] ++ omit_string "reason" (pd_Reason p)).

(** A nil slice of capabilities is null. *)
Definition recipe_json (e : RecipeEvidence) : json :=
  let r := re_Result e in
  JObject ([("recipe_id", JString (re_RecipeID e)); ("executable", JString (re_Executable e))]
    ++ omit_strings "argv" (re_Argv e)
    ++ [("working_directory", JString (re_WorkingDirectory e));
        ("capabilities", match re_Capabilities e with [] => JNull | l => strings_json l end);
        ("policy", policy_json (re_Policy e)); ("duration_nanos", int_json (DurationNanos r));
        ("exit_code", int_json (ExitCode r))]
    ++ omit_string "signal" (Signal r) ++ omit_string "stdout" (Stdout r) ++ omit_string "stderr" (Stderr r)
    ++ [("stdout_bytes", int_json (StdoutBytes r)); ("stderr_bytes", int_json (StderrBytes r));
        ("stdout_truncated", JBool (StdoutTruncated r)); ("stderr_truncated", JBool (StderrTruncated r))]
    ++ omit_bool "timed_out" (TimedOut r) ++ omit_bool "canceled" (Canceled r)
    ++ [("network_isolation", JString (re_NetworkIsolation e)); ("started", JBool (Started r))]
    ++ omit_string "action_id" (re_ActionID e) ++ omit_string "execution_id" (re_ExecutionID e)
    ++ omit_string "evidence_id" (re_EvidenceID e)).

Definition data_json (d : Data) : json :=
  match d with
  | NoData => JNull
  | DataFile d => file_json d
  | DataList d => JObject [("path", JString (ld_Path d)); ("entries", JArray (entry_json <$> ld_Entries d))]
  | DataSearch d => JObject [("matches", JArray (match_json <$> sd_Matches d));
      ("skipped_binary_files", int_json (sd_SkippedBinaryFiles d));
      ("skipped_invalid_utf8_files", int_json (sd_SkippedInvalidUTF8 d))]
  | DataGit d => JObject [("stdout", JString (gd_Stdout d)); ("stderr", JString (gd_Stderr d))]
  | DataWrite d => write_json d
  | DataRecipe d => recipe_json d
  end.

Definition metadata_json (m : Metadata) : json :=
  JObject ([("source", JString (md_Source m))] ++ omit_string "backend" (md_Backend m)
    ++ [("untrusted", JBool (md_Untrusted m))] ++ omit_string "path" (md_Path m)
    ++ omit_int "size_bytes" (md_SizeBytes m)
    ++ omit_int "bytes_original" (md_BytesOriginal m) ++ omit_int "bytes_returned" (md_BytesReturned m)
    ++ omit_int "entries_original" (md_EntriesOriginal m) ++ omit_int "entries_returned" (md_EntriesReturned m)
    ++ omit_int "matches_original" (md_MatchesOriginal m) ++ omit_int "matches_returned" (md_MatchesReturned m)
    ++ omit_int "stdout_bytes_original" (md_StdoutBytesOriginal m)
    ++ omit_int "stdout_bytes_returned" (md_StdoutBytesReturned m)
    ++ omit_int "stderr_bytes_original" (md_StderrBytesOriginal m)
    ++ omit_int "stderr_bytes_returned" (md_StderrBytesReturned m)
    ++ [("exit_code", int_json (md_ExitCode m))] ++ omit_string "signal" (md_Signal m)).

Definition failure_json (f : Failure) : json :=
  JObject [("code", JString (failure_code_text (f_Code f))); ("message", JString (f_Message f))].

Definition arguments_json (arguments : gmap string string) : json :=
  JObject (order_members ((λ '(name, value), (name, JString value)) <$> map_to_list arguments)).

Definition observation_json (o : Observation) : json :=
  JObject ([("id", JString (ob_ID o)); ("tool", JString (ob_Tool o)); ("arguments", arguments_json (ob_Arguments o));
            ("success", JBool (ob_Success o))]
    ++ match ob_Data o with NoData => [] | d => [("data", data_json d)] end
    ++ match ob_Failure o with None => [] | Some f => [("failure", failure_json f)] end
    ++ [("truncated", JBool (ob_Truncated o)); ("metadata", metadata_json (ob_Metadata o))]).
