(* ===== verification/RecoveryStore.v ===== *)
(** * Task roots and recovery in the database
    (internal/state: tasks.go, execution_contract.go, recovery.go, write_reconcile.go)

    The creation of a task under a frozen contract, the settlement of provider
    attempts and of writes that an interruption left open, and the snapshot of
    everything that was recorded for a task. *)

From S2P Require Import Prelude GoTime Verifier Provider Receipts GovTypes Ledger GovState Persist Execute.
From S2P Require Import Text Json TimeText Cycles Database WorkUnits Protocol Recipe Observations Encode.
From S2P Require Import Actions ProviderStore.
From Stdlib Require Import Ascii.

Local Open Scope runstead_scope.

(** ** Frozen contracts *)

Definition hash_prefix : string := "sha256:".

(** [validExecutionContractHash]: the prefix and 64 hexadecimal digits. *)
Definition validExecutionContractHash (value : string) : bool :=
  (String.length value =? 71)%nat && String.prefix hash_prefix value
  && forallb (λ c, bool_decide (is_Some (hex_value c))) (String.list_ascii_of_string (drop_bytes 7 value)).

Definition maxExecutionContractJSONDepth : nat := 64.

Definition validateStrictJSONObject (data : string) : bool :=
  match parse data with
  | Some (JObject members) => strict maxExecutionContractJSONDepth 0 (JObject members)
  | _ => false
  end.

Definition ErrExecutionContractCorrupt : StoreError := ErrInvalidRecord "corrupt frozen execution contract".

(** [None] is a nil error. *)
Definition validateExecutionContractPair `{Hash} (data hash : string) : option StoreError :=
  if String.eqb data "" && String.eqb hash "" then None
  else if String.eqb data "" || String.eqb hash "" then Some ErrExecutionContractCorrupt
  else if negb (validExecutionContractHash hash) then Some ErrExecutionContractCorrupt
  else if negb (validateStrictJSONObject data) then Some ErrExecutionContractCorrupt
  else if String.eqb hash (hash_prefix +:+ sha256_hex data) then None else Some ErrExecutionContractCorrupt.

Record TaskRecord := {
  nt_TaskID : string;
  nt_Objective : string;
  nt_Workspace : string;
  nt_Model : string;
  nt_ConfigJSON : string;
  nt_ExecutionContractJSON : string;
  nt_ExecutionContractHash : string
}.

(** ** The records of a snapshot *)

Record RecoveryTask := {
  rt_TaskID : string;
  rt_Objective : string;
  rt_Status : string;
  rt_Workspace : string;
  rt_Model : string;
  rt_ConfigJSON : string;
  rt_ResumeCount : Z;
  rt_ExecutionContractJSON : string;
  rt_ExecutionContractHash : string
}.

Record RecoveryAction := {
  rn_ActionID : string;
  rn_Tool : string;
  rn_ArgumentsJSON : string;
  rn_Fingerprint : string;
  rn_RecipeFingerprint : string;
  rn_Status : string;
  rn_WorkspaceSignature : string
}.

Record RecoveryProviderAttempt := {
  rv_ExecutionID : string;
  rv_ClientRequestID : string;
  rv_Status : string;
  rv_Outcome : string;
  rv_DeliveryState : DeliveryState;
  rv_UpstreamReached : bool;
  rv_Uncertain : bool;
  rv_AttemptDebited : Z;
  rv_AttemptSequence : Z;
  rv_ReceiptAware : bool;
  rv_PreparedAt : Time;
  rv_RecoveryReason : string
}.

Record RecoveryWorkUnit := {
  ru_WorkUnitID : string;
  ru_TaskID : string;
  ru_ParentWorkUnitID : string;
  ru_Objective : string;
  ru_Status : string;
  ru_Dependencies : list string;
  ru_Tools : option (list string);
  ru_WorkspaceScope : string;
  ru_AcceptanceDigest : string;
  ru_FailureReason : string;
  ru_BlockingReason : string;
  ru_ContextBudget : Z;
  ru_ProviderBudget : Z;
  ru_StepBudget : Z;
  ru_Version : Z
}.

Record VerificationCheckRow := {
  vk_CheckID : string; vk_Type : string; vk_Status : string; vk_Expected : string; vk_Observed : string;
  vk_Evidence : list string; vk_Reason : string }.

Record VerificationAttemptRow := {
  vt_AttemptID : string;
  vt_Sequence : Z;
  vt_Decision : string;
  vt_Summary : string;
  vt_ReportJSON : string;
  vt_CreatedAt : string;
  vt_Checks : list VerificationCheckRow
}.

(** The plan and the baseline are [None] when the task has none. *)
Record RecoverySnapshot := {
  sn_Task : RecoveryTask;
  sn_Actions : list RecoveryAction;
  sn_ToolAttempts : list RecoveryToolAttempt;
  sn_ProviderAttempts : list RecoveryProviderAttempt;
  sn_Evidence : list RecoveryEvidence;
  sn_AcceptancePlan : option (string * string);
  sn_Baseline : option BaselineRow;
  sn_VerificationAttempts : list VerificationAttemptRow;
  sn_WorkUnits : list RecoveryWorkUnit
}.

Record ReconcileProvider := {
  rc_TaskID : string;
  rc_ExecutionID : string;
  rc_RequestID : string;
  rc_Status : string;
  rc_Reason : string;
  rc_Uncertain : bool;
  rc_AttemptDebited : Z;
  rc_DebitAt : Time;
  rc_ApplyConservativeDebit : bool
}.

Record ReconcileWrite_ := {
  rw_TaskID : string;
  rw_ExecutionID : string;
  rw_Status : string;
  rw_Reason : string;
  rw_EvidenceID : string;
  rw_Evidence : Observations.WriteEvidence
}.

(** ** Ordering rows *)

(** [ORDER BY] two text columns, and [ORDER BY] a number. *)
Definition by_columns {A} (k1 k2 : A → string) (a b : A) : Prop :=
  String.ltb (k1 a) (k1 b) = true ∨ k1 a = k1 b ∧ String.le (k2 a) (k2 b).
#[local] Instance by_columns_dec {A} (k1 k2 : A → string) : RelDecision (by_columns k1 k2) := λ a b, _.
Definition order_by2 {A} (k1 k2 : A → string) : list A → list A := merge_sort (by_columns k1 k2).

Definition by_number {A} (k : A → Z) (a b : A) : Prop := (k a ≤ k b)%Z.
#[local] Instance by_number_dec {A} (k : A → Z) : RelDecision (by_number k) := λ a b, Z_le_dec (k a) (k b).
Definition order_by_number {A} (k : A → Z) : list A → list A := merge_sort (by_number k).

(** ** Rows as they are read *)

Definition read_action (a : ActionRow) : RecoveryAction := {|
  rn_ActionID := ac_action_id a; rn_Tool := ac_tool a; rn_ArgumentsJSON := ac_arguments_json a;
  rn_Fingerprint := ac_fingerprint a; rn_RecipeFingerprint := ac_recipe_fingerprint a; rn_Status := ac_status a;
  rn_WorkspaceSignature := ac_workspace_signature a |}.

Definition recovery_actions (t : Tables) (taskID : string) : list RecoveryAction :=
  read_action <$> order_by_number ac_action_sequence (filter (λ a, ac_task_id a = taskID) (tbl_actions t)).

Definition read_tool_attempt (a : ToolAttemptRow) : RecoveryToolAttempt := {|
  ra_ExecutionID := ta_execution_id a; ra_ActionID := ta_action_id a; ra_Tool := ta_tool a;
  ra_ArgumentsJSON := ta_arguments_json a; ra_Status := ta_status a; ra_Classification := ta_classification a;
  ra_RecoveryClass := ta_recovery_class a; ra_EvidenceID := ta_evidence_id a;
  ra_RecoveryReason := ta_recovery_reason a; ra_EffectAfterHash := ta_effect_after_hash a;
  ra_PlannedEffectJSON := ta_planned_diff_json a; ra_ProcessIntentJSON := ta_process_intent_json a;
  ra_WorkUnitID := ta_work_unit_id a |}.

Definition recovery_tool_attempts (t : Tables) (taskID : string) : list RecoveryToolAttempt :=
  read_tool_attempt <$> order_by2 ta_created_at ta_execution_id
    (filter (λ a, ta_task_id a = taskID) (tbl_tool_attempts t)).

(** [None]: the delivery state is not one that is stored. *)
Definition read_provider_attempt `{LenientParse} (a : ProviderAttemptRow) : option RecoveryProviderAttempt :=
  delivery ← parsePersistedDeliveryState (pv_delivery_state a);
  Some {|
    rv_ExecutionID := pv_execution_id a; rv_ClientRequestID := pv_client_request_id a; rv_Status := pv_status a;
    rv_Outcome := pv_outcome a; rv_DeliveryState := delivery; rv_UpstreamReached := pv_upstream_reached a;
    rv_Uncertain := pv_uncertain a; rv_AttemptDebited := pv_attempt_debited a;
    rv_AttemptSequence := pv_attempt_sequence a; rv_ReceiptAware := pv_receipt_aware a;
    rv_PreparedAt := parseTime (pv_prepared_at a); rv_RecoveryReason := pv_recovery_reason a |}.

Definition recovery_provider_attempts `{LenientParse} (t : Tables) (taskID : string)
    : option (list RecoveryProviderAttempt) :=
  mapM read_provider_attempt (order_by2 pv_created_at pv_execution_id
    (filter (λ a, pv_task_id a = taskID) (tbl_provider_attempts t))).

(** The join with the attempts: a result refers to one attempt. *)
Definition read_evidence (t : Tables) (r : ToolResultRow) : option RecoveryEvidence :=
  a ← List.find (λ a, String.eqb (ta_execution_id a) (tr_execution_id r)) (tbl_tool_attempts t);
  Some {| Verifier.re_EvidenceID := tr_evidence_id r; Verifier.re_ExecutionID := tr_execution_id r;
    Verifier.re_Tool := ta_tool a; re_ArgumentsJSON := ta_arguments_json a; re_DataJSON := tr_data_json r;
    re_MetadataJSON := tr_metadata_json r |}.

Definition recovery_evidence (t : Tables) (taskID : string) : list RecoveryEvidence :=
  omap (read_evidence t) (order_by2 tr_created_at tr_evidence_id
    (filter (λ r, tr_task_id r = taskID) (tbl_tool_results t))).

(** A list that cannot be decoded is left nil. *)
Definition read_check `{Codec} (c : CheckRow) : VerificationCheckRow := {|
  vk_CheckID := vc_check_id c; vk_Type := vc_type c; vk_Status := vc_status c; vk_Expected := vc_expected c;
  vk_Observed := vc_observed c;
  vk_Evidence := match Unmarshal (vc_evidence_json c) with Some (Some ids) => ids | _ => [] end;
  vk_Reason := vc_reason c |}.

Section store.
Context `{Disk} `{Codec} `{WallClock} `{LenientParse} `{Hash}.

(** ** Task roots *)

Definition task_row (task : TaskRecord) (now : string) : TaskRow := {|
  tk_objective := Redact (nt_Objective task); tk_status := "planned"; tk_outcome := ""; tk_stop_reason := "";
  tk_workspace := Redact (nt_Workspace task); tk_model := Redact (nt_Model task);
  tk_config_json := RedactJSON (nt_ConfigJSON task);
  tk_execution_contract_json := nt_ExecutionContractJSON task;
  tk_execution_contract_hash := nt_ExecutionContractHash task;
  tk_summary := ""; tk_created_at := now; tk_started_at := now; tk_finished_at := ""; tk_resume_count := 0 |}.

Definition insert_task (taskID : string) (row : TaskRow) : DB unit :=
  insert_row "tasks" (λ t, negb (has_task t taskID)) (λ t, t <| tbl_tasks ::= insert taskID row |>).

Definition CreateTask (task : TaskRecord) : DB unit :=
  match validateExecutionContractPair (nt_ExecutionContractJSON task) (nt_ExecutionContractHash task) with
  | Some e => fail e
  | None =>
    createdAt ←? now;
    transaction (
      _ ←? insert_task (nt_TaskID task) (task_row task createdAt);
      appendEvent (nt_TaskID task) (TaskCreated "planned") createdAt)
  end.

(** [None]: the task has no contract. *)
Definition LoadExecutionContract (taskID : string) : DB (option (string * string)) :=
  row ←? query (λ t, tbl_tasks t !! taskID);
  match row with
  | None => fail (ErrNotFound "task" taskID)
  | Some row =>
    let data := tk_execution_contract_json row in
    let hash := tk_execution_contract_hash row in
    match validateExecutionContractPair data hash with
    | Some e => fail e
    | None => return_ (if String.eqb (TrimSpace data) "" then None else Some (data, hash))
    end
  end.

(** ** Settling provider attempts *)

(** The statuses from which recovery may settle a provider attempt. *)
Definition reconcilable_provider (status : string) : bool :=
  bool_decide (status ∈ ["planned"; "prepared"; "running"; "uncertain"]%string).

(** The statuses the schema admits for a provider attempt. *)
Definition provider_status (status : string) : bool :=
  bool_decide (status ∈ ["planned"; "prepared"; "running"; "completed"; "failed"; "uncertain"; "reconciled"; "canceled";
    "human_review_required"]%string).

(** The protection state of a database that has none. *)
Definition fallback_state : PersistedState := {|
  ps_AccountPolicyID := "runstead-cli"; ps_ProviderID := "scripted"; ps_ModelPool := "instant"; ps_Model := "";
  ps_AllowanceProfile := AllowanceProfileInstant; ps_AllowanceKind := AllowanceKindEmpty; ps_NextAttempt := 0;
  ps_LastStart := zeroTime; ps_CooldownUntil := zeroTime;
  ps_Circuit := {| cs_State := CircuitClosed; cs_Reason := OutcomeUnset; cs_OpenUntil := zeroTime;
                   cs_RefreshRequired := false |};
  ps_RateEvents := []; ps_LastRateReset := zeroTime;
  ps_Telemetry := {| pt_Available := None; pt_ResetAt := zeroTime; pt_CooldownUntil := zeroTime;
    pt_RateLimited := false; pt_CapacityExhausted := false; pt_UpstreamCircuit := UpstreamCircuitNone; pt_Unsafe := false |};
  ps_RollingEvents := []; ps_TaskStates := []; ps_RequestRecords := []; ps_AttemptIDs := [];
  ps_Ceilings := {| bc_Rolling3h := 0; bc_Rolling1h := 0; bc_Rolling10m := 0; bc_TaskBudget := 0;
                    bc_RetryBudget := 0; bc_ManualReserve := 0 |} |}.

(** The first record of the task is charged; without one a record is added. *)
Fixpoint charge_task (taskID : string) (at_ : Time) (records : list TaskStateRecord) : list TaskStateRecord :=
  match records with
  | [] => [{| tr_TaskID := taskID; tr_Attempts := 1; tr_Retries := 0; tr_LastTouched := at_ |}]
  | record :: records' =>
    if String.eqb (tr_TaskID record) taskID
    then {| tr_TaskID := tr_TaskID record; tr_Attempts := tr_Attempts record + 1; tr_Retries := tr_Retries record;
            tr_LastTouched := at_ |} :: records'
    else record :: charge_task taskID at_ records'
  end.

Definition charge (taskID : string) (at_ : Time) (state : PersistedState) : PersistedState :=
  let telemetry := ps_Telemetry state in
  state <| ps_Telemetry := {|
             pt_Available := match pt_Available telemetry with
                             | Some value => if (0 <? value)%Z then Some (value - 1)%Z else Some value
                             | None => None
                             end;
             pt_ResetAt := pt_ResetAt telemetry; pt_CooldownUntil := pt_CooldownUntil telemetry;
             pt_RateLimited := pt_RateLimited telemetry; pt_CapacityExhausted := pt_CapacityExhausted telemetry;
             pt_UpstreamCircuit := pt_UpstreamCircuit telemetry; pt_Unsafe := true |} |>
        <| ps_LastStart := at_ |>
        <| ps_TaskStates ::= charge_task taskID at_ |>
        <| ps_RollingEvents ::= λ events, events ++ [{| at_ := at_; le_taskID := taskID |}] |>.

Definition applyConservativeGovernorDebit (taskID : string) (debitAt : Time) : DB unit :=
  loaded ←? loadGovernorState;
  clock ←? (if IsZero debitAt then wall else return_ debitAt);
  at_ ←? now;
  saveGovernorStateInTx (charge taskID clock (default fallback_state loaded)) at_.

Definition settled_provider (record : ReconcileProvider) (now : string) (row : ProviderAttemptRow) : ProviderAttemptRow :=
  row <| pv_status := rc_Status record |> <| pv_recovery_reason := Redact (rc_Reason record) |>
      <| pv_uncertain := rc_Uncertain record |> <| pv_attempt_debited := rc_AttemptDebited record |>
      <| pv_completed_at := now |>.

Definition is_provider_attempt (taskID executionID : string) (r : ProviderAttemptRow) : bool :=
  String.eqb (pv_execution_id r) executionID && String.eqb (pv_task_id r) taskID.

Definition update_provider_status (status : string) (p : ProviderAttemptRow → bool)
    (f : ProviderAttemptRow → ProviderAttemptRow) : DB nat :=
  statement (λ t,
    if Nat.eqb (selected p (tbl_provider_attempts t)) 0 || provider_status status
    then inr (selected p (tbl_provider_attempts t), t <| tbl_provider_attempts ::= updated p f |>)
    else inl (ErrConstraint "provider_attempts")).

Definition ReconcileProviderAttempt (record : ReconcileProvider) : DB unit :=
  at_ ←? now;
  transaction (
    n ←? update_provider_status (rc_Status record)
           (λ r, is_provider_attempt (rc_TaskID record) (rc_ExecutionID record) r && reconcilable_provider (pv_status r))
           (settled_provider record at_);
    _ ←? assert_ (negb (Nat.eqb n 0)) (ErrNotReconcilable (rc_ExecutionID record));
    _ ←? (if rc_ApplyConservativeDebit record
          then applyConservativeGovernorDebit (rc_TaskID record) (rc_DebitAt record) else return_ tt);
    appendEvent (rc_TaskID record) (ProviderAttemptReconciled (rc_ExecutionID record) (rc_Status record)
      (rc_Reason record) (rc_Uncertain record) (rc_AttemptDebited record) (rc_RequestID record)
      (rc_ApplyConservativeDebit record)) at_).

(** [AppendRecoveryEvent] *)
Definition AppendRecoveryEvent (taskID : string) (event : Payload) : DB unit :=
  at_ ←? now;
  transaction (appendEvent taskID event at_).

(** ** Settling writes *)

Definition reconciled_metadata (path : string) : Metadata :=
  (metadata_of "reconciled-write") <| md_Untrusted := true |> <| md_Path := path |>.

Definition reconciled_result (record : ReconcileWrite_) (now : string) : ToolResultRow :=
  let evidence := (rw_Evidence record) <| we_EvidenceID := rw_EvidenceID record |>
                                     <| we_ExecutionID := rw_ExecutionID record |> in {|
  tr_evidence_id := rw_EvidenceID record; tr_task_id := rw_TaskID record; tr_execution_id := rw_ExecutionID record;
  tr_success := true; tr_untrusted := true;
  tr_data_json := RedactJSON (write_value (write_json evidence));
  tr_metadata_json := RedactJSON (write_value (metadata_json (reconciled_metadata (we_Path evidence))));
  tr_created_at := now |}.

Definition ReconcileWriteAttempt (record : ReconcileWrite_) : DB unit :=
  at_ ←? now;
  let completed := String.eqb (rw_Status record) "reconciled" in
  transaction (
    n ←? update_attempts (rw_Status record)
           (λ a, is_attempt (rw_TaskID record) (rw_ExecutionID record) a && reconcilable (ta_status a))
           (λ a, a <| ta_status := rw_Status record |> <| ta_recovery_reason := Redact (rw_Reason record) |>
                   <| ta_evidence_id := rw_EvidenceID record |> <| ta_completed_at := at_ |>);
    _ ←? assert_ (negb (Nat.eqb n 0)) (ErrNotReconcilable (rw_ExecutionID record));
    _ ←? (if completed && negb (String.eqb (rw_EvidenceID record) "")
          then insert_result (reconciled_result record at_) else return_ tt);
    _ ←? (if completed && String.eqb (rw_Reason record) "write_effect_completed" then
            action ←? query (λ t, action_of t (rw_ExecutionID record));
            _ ←? update_actions (λ a, bool_decide (action = Some (ac_action_id a)) && String.eqb (ac_status a) "prepared")
                   (λ a, a <| ac_status := "completed" |>);
            return_ tt
          else return_ tt);
    appendEvent (rw_TaskID record) (WriteAttemptReconciled (rw_ExecutionID record) (rw_Status record)
      (rw_Reason record) (rw_EvidenceID record)) at_).

(** ** The snapshot *)

Definition loadRecoveryTask (taskID : string) : DB RecoveryTask :=
  row ←? query (λ t, tbl_tasks t !! taskID);
  match row with
  | None => fail (ErrNotFound "task" taskID)
  | Some row =>
    match validateExecutionContractPair (tk_execution_contract_json row) (tk_execution_contract_hash row) with
    | Some e => fail e
    | None => return_ {|
        rt_TaskID := taskID; rt_Objective := tk_objective row; rt_Status := tk_status row;
        rt_Workspace := tk_workspace row; rt_Model := tk_model row; rt_ConfigJSON := tk_config_json row;
        rt_ResumeCount := tk_resume_count row; rt_ExecutionContractJSON := tk_execution_contract_json row;
        rt_ExecutionContractHash := tk_execution_contract_hash row |}
    end
  end.

Definition loadRecoveryProviderAttempts (taskID : string) : DB (list RecoveryProviderAttempt) :=
  attempts ←? query (λ t, recovery_provider_attempts t taskID);
  match attempts with None => fail (ErrDecode "delivery_state") | Some attempts => return_ attempts end.

Definition loadVerificationChecks (taskID attemptID : string) : DB (list VerificationCheckRow) :=
  query (λ t, read_check <$> order_by vc_check_id
    (filter (λ c, vc_task_id c = taskID ∧ vc_attempt_id c = attemptID) (tbl_checks t))).

Definition VerificationAttempts (taskID : string) : DB (list VerificationAttemptRow) :=
  rows ←? query (λ t, order_by_number va_sequence (filter (λ v, va_task_id v = taskID) (tbl_verifications t)));
  map_each (λ v,
    checks ←? loadVerificationChecks taskID (va_attempt_id v);
    return_ {| vt_AttemptID := va_attempt_id v; vt_Sequence := va_sequence v; vt_Decision := va_decision v;
      vt_Summary := va_summary v; vt_ReportJSON := va_report_json v; vt_CreatedAt := va_created_at v;
      vt_Checks := checks |}) rows.

Definition scan_recovery_unit (id : string) (row : WorkUnitRow) : StoreError + RecoveryWorkUnit :=
  if negb (row_version row =? supportedWorkUnitVersion)%Z then
    inl (ErrUnsupportedWorkUnitVersion id (row_version row))
  else
    match Unmarshal (row_tools_json row) with
    | None => inl (ErrDecode "tools_json")
    | Some tools => inr {|
        ru_WorkUnitID := id; ru_TaskID := row_task_id row; ru_ParentWorkUnitID := row_parent_work_unit_id row;
        ru_Objective := row_objective row; ru_Status := row_status row; ru_Dependencies := []; ru_Tools := tools;
        ru_WorkspaceScope := row_workspace_scope row; ru_AcceptanceDigest := row_acceptance_digest row;
        ru_FailureReason := row_failure_reason row; ru_BlockingReason := row_blocking_reason row;
        ru_ContextBudget := row_context_budget row; ru_ProviderBudget := row_provider_budget row;
        ru_StepBudget := row_step_budget row; ru_Version := row_version row |}
    end.

Fixpoint scan_recovery_units (rows : list (string * WorkUnitRow)) : StoreError + list RecoveryWorkUnit :=
  match rows with
  | [] => inr []
  | (id, row) :: rows' =>
    match scan_recovery_unit id row with
    | inl e => inl e
    | inr unit => match scan_recovery_units rows' with inl e => inl e | inr units => inr (unit :: units) end
    end
  end.

Definition loadRecoveryWorkUnits (taskID : string) : DB (list RecoveryWorkUnit) :=
  scanned ←? query (λ t, scan_recovery_units (task_rows t taskID));
  match scanned with
  | inl e => fail e
  | inr units => map_each (λ unit,
      dependencies ←? workUnitDependencies (ru_WorkUnitID unit);
      return_ {| ru_WorkUnitID := ru_WorkUnitID unit; ru_TaskID := ru_TaskID unit;
        ru_ParentWorkUnitID := ru_ParentWorkUnitID unit; ru_Objective := ru_Objective unit; ru_Status := ru_Status unit;
        ru_Dependencies := dependencies; ru_Tools := ru_Tools unit; ru_WorkspaceScope := ru_WorkspaceScope unit;
        ru_AcceptanceDigest := ru_AcceptanceDigest unit; ru_FailureReason := ru_FailureReason unit;
        ru_BlockingReason := ru_BlockingReason unit; ru_ContextBudget := ru_ContextBudget unit;
        ru_ProviderBudget := ru_ProviderBudget unit; ru_StepBudget := ru_StepBudget unit; ru_Version := ru_Version unit |}) units
  end.

Definition LoadRecoverySnapshot (taskID : string) : DB RecoverySnapshot :=
  task ←? loadRecoveryTask taskID;
  actions ←? query (λ t, recovery_actions t taskID);
  attempts ←? query (λ t, recovery_tool_attempts t taskID);
  providers ←? loadRecoveryProviderAttempts taskID;
  evidence ←? query (λ t, recovery_evidence t taskID);
  plan ←? AcceptancePlan taskID;
  baseline ←? WorkspaceBaseline taskID;
  verifications ←? VerificationAttempts taskID;
  units ←? loadRecoveryWorkUnits taskID;
  return_ {| sn_Task := task; sn_Actions := actions; sn_ToolAttempts := attempts; sn_ProviderAttempts := providers;
    sn_Evidence := evidence; sn_AcceptancePlan := plan; sn_Baseline := baseline;
    sn_VerificationAttempts := verifications; sn_WorkUnits := units |}.

End store.
