(* ===== verification/Outcomes.v ===== *)
(** * What surrounds a run of the agent
    (internal/agent: outcome.go, trace.go, transcript.go, grounding.go, guard.go)

    The outcomes of a run with their exit codes and reasons, the lines of the
    trace, the transcript the model reads, the evidence it may cite and the guard
    against repeated actions with the signature of the workspace. *)

From S2P Require Import Prelude GoTime Text Json Protocol Recipe Observations Workspace Encode ProviderStore.
From Stdlib Require Import Ascii.

Local Open Scope runstead_scope.

(** ** Outcomes (outcome.go) *)

Inductive LoopOutcome :=
  | OutcomeCompleted | OutcomeStepsExhausted | OutcomeCorrectionsExhausted | OutcomeRepeatedAction
  | OutcomeTimeBudgetExhausted | OutcomeProviderBudgetExhausted | OutcomeAccountDelayTimeout
  | OutcomeAccountCircuitOpen | OutcomeCanceled | OutcomeFinalNotGrounded | OutcomeProviderFailure
  | OutcomePersistenceFailure | OutcomePersistencePaused | OutcomeFinalIncomplete | OutcomeApprovalRequired
  | OutcomeVerificationBlocked | OutcomeConsecutiveFailuresExhausted | OutcomeVerificationFailuresExhausted.

#[export] Instance LoopOutcome_eq_dec : EqDecision LoopOutcome.
Proof. solve_decision. Defined.

Definition LoopOutcome_String (o : LoopOutcome) : string :=
  match o with
  | OutcomeCompleted => "completed"
  | OutcomeStepsExhausted => "steps_exhausted"
  | OutcomeCorrectionsExhausted => "corrections_exhausted"
  | OutcomeRepeatedAction => "repeated_action"
  | OutcomeTimeBudgetExhausted => "time_budget_exhausted"
  | OutcomeProviderBudgetExhausted => "provider_budget_exhausted"
  | OutcomeAccountDelayTimeout => "account_delay_timeout"
  | OutcomeAccountCircuitOpen => "account_circuit_open"
  | OutcomeCanceled => "canceled"
  | OutcomeFinalNotGrounded => "final_not_grounded"
  | OutcomeProviderFailure => "provider_failure"
  | OutcomePersistenceFailure => "persistence_failure"
  | OutcomePersistencePaused => "persistence_paused"
  | OutcomeFinalIncomplete => "final_incomplete"
  | OutcomeApprovalRequired => "approval_required"
  | OutcomeVerificationBlocked => "verification_blocked"
  | OutcomeConsecutiveFailuresExhausted => "consecutive_failures_exhausted"
  | OutcomeVerificationFailuresExhausted => "verification_failures_exhausted"
  end.

Definition exitSuccess : Z := 0.
Definition exitCanceled : Z := 130.
Definition exitOutcomeBase : Z := 20.

(** [Outcome.ExitCode] *)
Definition LoopOutcome_ExitCode (o : LoopOutcome) : Z :=
  match o with
  | OutcomeCompleted => exitSuccess
  | OutcomeCanceled => exitCanceled
  | OutcomeStepsExhausted => exitOutcomeBase
  | OutcomeCorrectionsExhausted => exitOutcomeBase + 1
  | OutcomeRepeatedAction => exitOutcomeBase + 2
  | OutcomeTimeBudgetExhausted => exitOutcomeBase + 3
  | OutcomeProviderBudgetExhausted => exitOutcomeBase + 4
  | OutcomeAccountDelayTimeout => exitOutcomeBase + 5
  | OutcomeAccountCircuitOpen => exitOutcomeBase + 6
  | OutcomeFinalNotGrounded => exitOutcomeBase + 7
  | OutcomeProviderFailure => exitOutcomeBase + 8
  | OutcomePersistenceFailure => exitOutcomeBase + 11
  | OutcomeFinalIncomplete => exitOutcomeBase + 9
  | OutcomeApprovalRequired => exitOutcomeBase + 12
  | OutcomeVerificationBlocked => exitOutcomeBase + 13
  | OutcomeConsecutiveFailuresExhausted => exitOutcomeBase + 14
  | OutcomeVerificationFailuresExhausted => exitOutcomeBase + 15
  | OutcomePersistencePaused => exitOutcomeBase + 16
  end.

(** [Outcome.StopReason] *)
Definition StopReason (o : LoopOutcome) : string :=
  match o with
  | OutcomeCompleted => "completion verified by the control plane"
  | OutcomeStepsExhausted => "model-turn budget exhausted"
  | OutcomeCorrectionsExhausted => "protocol correction attempts exhausted"
  | OutcomeRepeatedAction => "repeated action guard exceeded"
  | OutcomeTimeBudgetExhausted => "task time budget exhausted"
  | OutcomeProviderBudgetExhausted => "provider attempt budget exhausted"
  | OutcomeAccountDelayTimeout => "account lane delay exceeded task deadline"
  | OutcomeAccountCircuitOpen => "account circuit open"
  | OutcomeCanceled => "task canceled"
  | OutcomeFinalNotGrounded => "final evidence not grounded"
  | OutcomeProviderFailure => "provider attempt failed"
  | OutcomePersistenceFailure => "durable state could not be persisted"
  | OutcomeFinalIncomplete => "grounded final reported incomplete"
  | OutcomeApprovalRequired => "write approval required"
  | OutcomeVerificationBlocked => "completion refused by control-plane verification"
  | OutcomeConsecutiveFailuresExhausted => "consecutive tool/process failures exhausted"
  | OutcomeVerificationFailuresExhausted => "repeated verification failures exhausted"
  | OutcomePersistencePaused =>
    "durable write failed after a potentially executed effect; task remains resumable for recovery"
  end.

(** The text of an error is kept where the code keeps the error; a nil list of
    evidence is [None]. *)
Record Result := {
  lr_Outcome : LoopOutcome;
  lr_StopReason : string;
  lr_Turns : Z;
  lr_Attempts : Z;
  lr_Observations : Z;
  lr_Corrections : Z;
  lr_Repeated : Z;
  lr_MixedProse : Z;
  lr_Summary : string;
  lr_Note : string;
  lr_Evidence : option (list string);
  lr_Classification : string;
  lr_Err : option string;
  lr_PendingActionID : string
}.

#[export] Instance eta_Result : Settable Result := λ r,
  Build_Result (lr_Outcome r) (lr_StopReason r) (lr_Turns r) (lr_Attempts r) (lr_Observations r) (lr_Corrections r)
    (lr_Repeated r) (lr_MixedProse r) (lr_Summary r) (lr_Note r) (lr_Evidence r) (lr_Classification r) (lr_Err r)
    (lr_PendingActionID r).

(** ** The trace (trace.go) *)

Record TraceLine := {
  tl_Sequence : Z;
  tl_Kind : string;
  tl_Status : string;
  tl_Duration : Duration;
  tl_EvidenceID : string;
  tl_Classification : string;
  tl_StopReason : string;
  tl_Tool : string;
  tl_Code : string;
  tl_RetriesRemaining : Z;
  tl_ExitCode : Z
}.

#[export] Instance eta_TraceLine : Settable TraceLine := λ t,
  Build_TraceLine (tl_Sequence t) (tl_Kind t) (tl_Status t) (tl_Duration t) (tl_EvidenceID t) (tl_Classification t)
    (tl_StopReason t) (tl_Tool t) (tl_Code t) (tl_RetriesRemaining t) (tl_ExitCode t).

Definition trace_line (kind status : string) : TraceLine := {|
  tl_Sequence := 0; tl_Kind := kind; tl_Status := status; tl_Duration := 0; tl_EvidenceID := "";
  tl_Classification := ""; tl_StopReason := ""; tl_Tool := ""; tl_Code := ""; tl_RetriesRemaining := 0; tl_ExitCode := 0 |}.

Definition TraceAttempt : string := "attempt".
Definition TraceAction : string := "action".
Definition TraceObservation : string := "observation".
Definition TraceCorrection : string := "correction".
Definition TraceDeviation : string := "deviation".
Definition TraceStop : string := "stop".
Definition TraceVerification : string := "verification".
Definition TraceRecoveryStart : string := "recovery_start".
Definition TraceRecoveryReconcile : string := "reconcile".
Definition TraceRecoveryUncertain : string := "recovery_uncertain".
Definition TraceRecoveryContext : string := "recovery_context".
Definition TraceRecoveryBoundary : string := "recovery_boundary".
Definition TraceRecoveryBlocked : string := "recovery_blocked".

(** ** The transcript (transcript.go) *)

Record message := { ms_role : string; ms_content : string }.

Abbreviation transcript := (list message).

Definition roleSystem : string := "system".
Definition roleUser : string := "user".
Definition roleAssistant : string := "assistant".
Definition roleObservation : string := "observation".
Definition roleCorrection : string := "correction".
Definition roleRecovery : string := "recovery".
Definition roleVerification : string := "verification".

Definition said_by (role content : string) (t : transcript) : transcript :=
  t ++ [{| ms_role := role; ms_content := content |}].

Definition newTranscript (contract task : string) : transcript :=
  let t := said_by roleSystem contract [] in
  if String.eqb (TrimSpace task) "" then t else said_by roleUser task t.

Definition transcript_recovery (content : string) (t : transcript) : transcript :=
  if String.eqb (TrimSpace content) "" then t else said_by roleRecovery content t.

Definition transcript_observation (o : Observation) : transcript → transcript :=
  said_by roleObservation (write_value (observation_json o)).

Record verificationCheckView := {
  vw_ID : string; vw_Type : string; vw_Status : string; vw_Expected : string; vw_Observed : string;
  vw_Evidence : list string; vw_Reason : string }.

Definition view_json (v : verificationCheckView) : json :=
  JObject ([("id", JString (vw_ID v)); ("type", JString (vw_Type v)); ("status", JString (vw_Status v))]
    ++ omit_string "expected" (vw_Expected v) ++ omit_string "observed" (vw_Observed v)
    ++ omit_strings "evidence_ids" (vw_Evidence v) ++ omit_string "reason" (vw_Reason v)).

Definition transcript_verification (decision summary : string) (checks : list verificationCheckView)
    : transcript → transcript :=
  said_by roleVerification (write_value (JObject [("type", JString "verification"); ("decision", JString decision);
    ("summary", JString summary); ("checks", JArray (view_json <$> checks))])).

Definition newline : string := String (char 10) "".

Definition render (t : transcript) : string :=
  String.concat "" ((λ m, "=== runstead:" +:+ ms_role m +:+ " ===" +:+ newline +:+ ms_content m +:+ newline) <$> t).

(** ** Evidence that may be cited (grounding.go) *)

Abbreviation EvidenceSet := (gmap string Observation).

Definition evidence_add (o : Observation) (e : EvidenceSet) : EvidenceSet :=
  if ob_Success o then <[ob_ID o := o]> e else e.

Definition Ground (e : EvidenceSet) (final : FinalResponse) : bool * list string :=
  let missing := filter (λ id, e !! id = None) (ev_EvidenceID <$> fin_Evidence final) in
  (bool_decide (missing = []), missing).

(** ** The repeat guard (guard.go) *)

Abbreviation repeatGuard := (gmap string string).

Section guard.
Context `{Hash}.

Definition guard_repeat (g : repeatGuard) (action : Action) (signature : string) : bool :=
  match g !! ActionFingerprint action with
  | Some recorded => String.eqb recorded signature && negb (String.eqb signature "")
  | None => false
  end.

Definition guard_record (action : Action) (signature : string) (g : repeatGuard) : repeatGuard :=
  <[ActionFingerprint action := signature]> g.

Definition guard_seed (fingerprint signature : string) (g : repeatGuard) : repeatGuard :=
  if String.eqb fingerprint "" then g else <[fingerprint := signature]> g.

(** *** The signature of the workspace *)

Definition signatureMaxEntries : nat := 1024.
Definition signatureContentMaxRead : Z := 4096.

(** What [filepath.WalkDir] visits: the root first, directories before what is in
    them.  [None] in the place of sizes and times, or of a content, is an error. *)
Record WalkItem := {
  wi_error : bool;
  wi_path : string;
  wi_root : bool;
  wi_name : string;
  wi_dir : bool;
  wi_regular : bool;
  wi_info : option (Z * Z);
  wi_content : option string
}.

Record signatureEntry := { sg_path : string; sg_isDir : bool; sg_size : Z; sg_modTime : Z; sg_content : string }.

(** Inside a directory that is skipped. *)
Definition skipped (skip : list string) (path : string) : bool :=
  existsb (λ dir, String.prefix (dir +:+ "/") path) skip.

Definition entry_content (item : WalkItem) (size : Z) : option string :=
  if negb (wi_dir item) && wi_regular item && (size <=? signatureContentMaxRead)%Z && (0 <=? size)%Z
  then wi_content item else Some ""%string.

(** The walk; [None] is an error.  It stops when enough entries are there. *)
Fixpoint signature_entries (canceled : bool) (skip : list string) (entries : list signatureEntry)
    (items : list WalkItem) : option (list signatureEntry) :=
  match items with
  | [] => Some entries
  | item :: items' =>
    if skipped skip (wi_path item) then signature_entries canceled skip entries items'
    else if wi_error item || canceled then None
    else if wi_dir item && String.eqb (wi_name item) ".git" && negb (wi_root item)
    then signature_entries canceled (wi_path item :: skip) entries items'
    else if wi_root item then signature_entries canceled skip entries items'
    else
      '(size, modTime) ← wi_info item;
      content ← entry_content item size;
      let entries' := entries ++ [{| sg_path := wi_path item; sg_isDir := wi_dir item; sg_size := size;
                                     sg_modTime := modTime; sg_content := content |}] in
      if (signatureMaxEntries <=? length entries')%nat then Some entries'
      else signature_entries canceled skip entries' items'
  end.

Definition signature_json (e : signatureEntry) : json :=
  JObject ([("path", JString (sg_path e)); ("dir", JBool (sg_isDir e)); ("size", int_json (sg_size e));
            ("mtime", int_json (sg_modTime e))] ++ omit_string "content" (sg_content e)).

Definition workspaceSignature (canceled : bool) (items : list WalkItem) : option string :=
  entries ← signature_entries canceled [] [] items;
  Some (sha256_hex (write_value (match order_by sg_path entries with
                                 | [] => JNull | entries => JArray (signature_json <$> entries) end))).
End guard.

Example exit_codes_distinct :
  let all := [OutcomeCompleted; OutcomeStepsExhausted; OutcomeCorrectionsExhausted; OutcomeRepeatedAction;
    OutcomeTimeBudgetExhausted; OutcomeProviderBudgetExhausted; OutcomeAccountDelayTimeout; OutcomeAccountCircuitOpen;
    OutcomeCanceled; OutcomeFinalNotGrounded; OutcomeProviderFailure; OutcomePersistenceFailure;
    OutcomePersistencePaused; OutcomeFinalIncomplete; OutcomeApprovalRequired; OutcomeVerificationBlocked;
    OutcomeConsecutiveFailuresExhausted; OutcomeVerificationFailuresExhausted] in
  NoDup (LoopOutcome_ExitCode <$> all) ∧ NoDup (LoopOutcome_String <$> all).
Proof. split; apply (bool_decide_unpack _); by vm_compute. Qed.
