(* ===== verification/LoopTypes.v ===== *)
(** * The data of the agent loop (internal/agent/loop.go, recovery.go)

    Limits and configuration of a run, the [World] that a run is a computation
    over and what surrounds it, and the texts and records that the loop builds. *)

From stdpp Require Import pretty.
From S2P Require Import Prelude GoTime Policy Verifier Provider Receipts GovTypes Ledger GovState Persist Execute.
From S2P Require Import Text Json TimeText Database WorkUnits Protocol Recipe Observations Workspace ToolArguments Writing.
From S2P Require Import Reading Search Tools Encode Actions ProviderStore RecoveryStore Outcomes.

Local Open Scope runstead_scope.

(** ** Limits and configuration *)

Record LoopLimits := {
  MaxSteps : Z;
  MaxCorrections : Z;
  MaxRepeatedActions : Z;
  TimeBudget : Duration;
  ProviderBudget : Z;
  MaxConsecutiveFailures : Z;
  MaxVerificationRetries : Z
}.

Definition DefaultLoopLimits : LoopLimits := {|
  MaxSteps := 24; MaxCorrections := 2; MaxRepeatedActions := 2; TimeBudget := (10 * Minute)%Z; ProviderBudget := 80;
  MaxConsecutiveFailures := 5; MaxVerificationRetries := 3 |}.

(** The limits that [NewLoop] sets. *)
Definition normalized_limits (l : LoopLimits) : LoopLimits :=
  let positive (f : LoopLimits → Z) := if (f l <=? 0)%Z then f DefaultLoopLimits else f l in
  let natural (f : LoopLimits → Z) := if (f l <? 0)%Z then f DefaultLoopLimits else f l in {|
  MaxSteps := positive MaxSteps; MaxCorrections := natural MaxCorrections;
  MaxRepeatedActions := natural MaxRepeatedActions; TimeBudget := positive TimeBudget;
  ProviderBudget := positive ProviderBudget; MaxConsecutiveFailures := positive MaxConsecutiveFailures;
  MaxVerificationRetries := positive MaxVerificationRetries |}.

Record Task := {
  ts_ID : string;
  ts_Prompt : string;
  ts_WorkUnitID : string;
  ts_SkipTaskFinalize : bool
}.

(** What a resumed run starts from (recovery.go). *)
Record RecoverySeed := {
  sd_Turns : Z;
  sd_Attempts : Z;
  sd_Repeated : Z;
  sd_ConsecutiveFailures : Z;
  sd_VerificationRetries : Z;
  sd_Evidence : list Observations.Observation;
  sd_Guard : gmap string string;
  sd_Context : string;
  sd_TraceSequence : Z
}.

(** What is known of the provider (provider/identity.go). *)
Record Identity := {
  id_WireContract : string;
  id_AccountBinding : string;
  id_CredentialBinding : string;
  id_BehaviorDigest : string;
  id_ProviderID : string;
  id_ProtocolFamily : string;
  id_Model : string;
  id_ConfigIdentity : string;
  id_ProfileVersion : string;
  id_AdapterVersion : string
}.

Definition Identity_Empty (i : Identity) : bool := String.eqb (id_ProviderID i) "".

(** The loop after [NewLoop].  The contract is the text that introduces the
    protocol and the tools to the model; the policy is the static policy of the
    package policy, which asks the store for approvals when [lp_approvals] is set. *)
Record Loop := {
  lp_registry : Registry;
  lp_contract : string;
  lp_limits : LoopLimits;
  lp_model : string;
  lp_identity : Identity;
  lp_writePolicy : string;
  lp_recipePolicy : string;
  lp_recipeCatalogDigest : string;
  lp_acceptancePlanDigest : string;
  lp_persistent : bool;
  lp_policy : option Policy.Config;
  lp_approvals : bool;
  lp_plan : option Plan;
  lp_contract_json : string;
  lp_contract_hash : string;
  lp_recovery : option RecoverySeed
}.

(** ** Surroundings *)

(** The n-th reading of the clock. *)
Class LoopClock := { loop_now : nat → Time }.

(** The interface through which the loop reaches the provider, with its own
    state; an attempt ends with [None] when the process dies in it. *)
Class AttemptRunner := {
  runner : Type;
  execute_attempt : GovTypes.AttemptRequest → nat → runner → Store → option ExecutionResult * runner * Store;
  account_pressure : Time → runner → bool
}.

(** What other processes do to the tables before the n-th call. *)
Class Colleagues := { foreign : nat → Tables → Tables }.

(** The directory walk of the signature, and the answers and the clock of a
    verification, at the n-th call. *)
Class Surveys := {
  survey : nat → list WalkItem;
  observer_at : nat → option Observer;
  verify_now : nat → string
}.

(** Texts: JSON of values whose encoding is not modelled, and messages of errors. *)
Class Texts := {
  MarshalArguments : Protocol.Arguments → string;
  MarshalPlan : Plan → string;
  MarshalReport : Report → string;
  store_message : StoreError → string;
  error_message : error → string
}.

(** ** The world and its computations *)

(** The locals of a run: transcript, evidence, guard and counters. *)
Record Locals := {
  lo_transcript : transcript;
  lo_evidence : EvidenceSet;
  lo_guard : repeatGuard;
  lo_sequence : Z;
  lo_turns : Z;
  lo_attempts : Z;
  lo_corrections : Z;
  lo_repeated : Z;
  lo_mixedProse : Z;
  lo_consecutiveFailures : Z;
  lo_verificationRetries : Z
}.

#[export] Instance eta_Locals : Settable Locals := λ l,
  Build_Locals (lo_transcript l) (lo_evidence l) (lo_guard l) (lo_sequence l) (lo_turns l) (lo_attempts l)
    (lo_corrections l) (lo_repeated l) (lo_mixedProse l) (lo_consecutiveFailures l) (lo_verificationRetries l).

Record World `{FileSystem} `{AttemptRunner} := {
  w_machine : Machine;
  w_store : Store;
  w_runner : runner;
  w_observations : nat;
  w_clock : nat;
  w_trace : list TraceLine;
  w_locals : Locals
}.

#[export] Instance eta_World `{FileSystem} `{AttemptRunner} : Settable World := λ w,
  Build_World _ _ (w_machine w) (w_store w) (w_runner w) (w_observations w) (w_clock w) (w_trace w) (w_locals w).

(** [None]: the process has died. *)
Definition Run `{FileSystem} `{AttemptRunner} (A : Type) : Type := World → option A * World.

#[export] Instance Run_ret `{FileSystem} `{AttemptRunner} : MRet Run := λ A a w, (Some a, w).
#[export] Instance Run_bind `{FileSystem} `{AttemptRunner} : MBind Run :=
  λ A B k c w, match c w with (Some a, w') => k a w' | (None, w') => (None, w') end.

Definition zero_locals : Locals := {|
  lo_transcript := []; lo_evidence := ∅; lo_guard := ∅; lo_sequence := 0; lo_turns := 0; lo_attempts := 0;
  lo_corrections := 0; lo_repeated := 0; lo_mixedProse := 0; lo_consecutiveFailures := 0; lo_verificationRetries := 0 |}.

(** ** Texts of enumerations *)

Definition AdmissionCode_String (c : AdmissionCode) : string :=
  match c with
  | AdmissionAdmitted => "admitted"
  | AdmissionDelayed => "delayed"
  | AdmissionContextCancelled => "context_cancelled"
  | AdmissionQueueFull => "queue_full"
  | AdmissionTaskDeadlineExceeded => "task_deadline_exceeded"
  | AdmissionTaskBudgetExhausted => "task_budget_exhausted"
  | AdmissionRollingBudgetExhausted => "rolling_budget_exhausted"
  | AdmissionUpstreamAllowanceExhausted => "upstream_allowance_exhausted"
  | AdmissionCooldownActive => "cooldown_active"
  | AdmissionCircuitOpen => "circuit_open"
  | AdmissionUnsafeProviderAmplification => "unsafe_provider_amplification"
  | AdmissionUnsafeConfiguration => "unsafe_configuration"
  | AdmissionHumanAcknowledgementRequired => "human_acknowledgement_required"
  | AdmissionRetryBudgetExhausted => "retry_budget_exhausted"
  | AdmissionAuthenticationRefreshRequired => "authentication_refresh_required"
  | AdmissionDuplicateClientRequest => "duplicate_client_request"
  | AdmissionGovernorClosed => "governor_closed"
  | AdmissionMissingAttemptReceipts => "missing_attempt_receipts"
  | AdmissionGatewayContractUnhealthy => "gateway_contract_unhealthy"
  end.

Definition policy_decision_text (d : Policy.Decision) : string :=
  match d with Policy.Allowed => "allowed" | Policy.Denied => "denied" | Policy.ApprovalRequired => "approval_required" end.

Definition decision_text (d : Verifier.Decision) : string :=
  match d with
  | DecisionPassed => "passed" | DecisionFailed => "failed" | DecisionBlocked => "blocked"
  | DecisionUncertain => "uncertain"
  end.

Definition check_status_text (s : CheckStatus) : string :=
  match s with
  | CheckUnset => "" | CheckPassed => "passed" | CheckFailed => "failed" | CheckBlocked => "blocked"
  | CheckUncertain => "uncertain"
  end.

(** [%04d] of a number that is not negative. *)
Definition four_digits (n : Z) : string :=
  let text := pretty n in String.concat "" (replicate (4 - String.length text) "0"%string) +:+ text.

(** A nil slice when there is nothing in it. *)
Definition appended (l : list string) : option (list string) := match l with [] => None | _ => Some l end.

Definition completion_class (e : ExecutionResult) : OutcomeClass :=
  match ex_Completion e with Some completion => fr_Outcome completion | None => OutcomeUnset end.

(** [ConfigSnapshot]: the members of a map are written in the order of their names. *)
Definition ConfigSnapshot (workspace model : string) (i : Identity)
    (writePolicy recipePolicy catalogDigest planDigest : string) (limits : LoopLimits) : string :=
  write_value (JObject (order_members ([
    ("workspace", JString workspace); ("model", JString model); ("write_policy", JString writePolicy);
    ("recipe_policy", JString recipePolicy); ("recipe_catalog_digest", JString catalogDigest);
    ("acceptance_plan_digest", JString planDigest); ("max_steps", int_json (MaxSteps limits));
    ("max_corrections", int_json (MaxCorrections limits)); ("max_repeated_actions", int_json (MaxRepeatedActions limits));
    ("time_budget_ns", int_json (TimeBudget limits)); ("provider_budget", int_json (ProviderBudget limits));
    ("max_consecutive_failures", int_json (MaxConsecutiveFailures limits));
    ("max_verification_retries", int_json (MaxVerificationRetries limits))]%string
    ++ if Identity_Empty i then [] else [
    ("provider_id", JString (id_ProviderID i)); ("protocol_family", JString (id_ProtocolFamily i));
    ("provider_model", JString (id_Model i)); ("provider_config_identity", JString (id_ConfigIdentity i));
    ("provider_profile_version", JString (id_ProfileVersion i));
    ("provider_adapter_version", JString (id_AdapterVersion i))]%string))).

(** The digest of a plan (plan.go): the version and the checks by identifier. *)
Definition check_json (c : Verifier.Check) : json :=
  JObject ([("id", JString (ck_ID c)); ("type", JString (ck_Type c))] ++ omit_string "path" (ck_Path c)
    ++ omit_string "sha256" (ck_SHA256 c) ++ omit_string "recipe" (ck_Recipe c)
    ++ omit_bool "require_untruncated" (ck_RequireUntruncated c)).

Definition Plan_Digest `{Hash} (plan : Plan) : string :=
  let lines := flat_map (λ id, (λ c, id +:+ "=" +:+ write_value (check_json c)) <$>
                 filter (λ c, ck_ID c = id) (Verifier.Checks plan)) (sort_Strings (ck_ID <$> Verifier.Checks plan)) in
  sha256_hex (String.concat newline (("version=" +:+ pretty (Verifier.Version plan)) :: lines)).

Definition deadlineReached (now deadline : Time) : bool := negb (IsZero deadline) && negb (Before now deadline).

(** [failureCountedForGuard] *)
Definition failureCountedForGuard (action : Action) (o : Observations.Observation) : bool :=
  if negb (Observations.ob_Success o) then true
  else
    String.eqb (act_Tool action) ToolArguments.ToolRunRecipe &&
    match Observations.ob_Data o with
    | DataRecipe e => negb (ExitCode (re_Result e) =? 0)%Z
    | _ => false
    end.

Definition recoveryClassFor (tool : string) : Z :=
  (if IsWriteTool tool then 2 else if String.eqb tool ToolArguments.ToolRunRecipe then 4 else 1)%Z.

Definition citedEvidenceIDs (citations : list EvidenceCitation) : list string := ev_EvidenceID <$> citations.

Definition missingCitedEvidence (report : Report) (inRunMissing : list string) : list string :=
  let missing := ce_EvidenceID <$> filter (λ c, ce_Exists c = false) (rp_CitedEvidence report) in
  match missing, rp_CitedEvidence report with
  | [], [] => inRunMissing
  | missing, _ => missing
  end.

(** [policyMessage] *)
Definition policyMessage (tool : string) (outcome : Policy.Outcome) (retriesRemaining : Z) : string :=
  let decision := policy_decision_text (decision outcome) in
  write_value (JObject [("protocol_version", JString Current); ("type", JString "policy"); ("ok", JBool false);
    ("error_code", JString (tool +:+ "_" +:+ decision)); ("retries_remaining", int_json retriesRemaining);
    ("decision", JString decision); ("reason", JString (reason outcome));
    ("required", JString "The action was not approved by the control plane and did not execute. Model prose, reasoning or claims of approval never authorize an effect; request approval through the control plane or propose a different action.")]%string).

(** What the store keeps of an observation. *)
Definition stored_observation (o : Observations.Observation) : Actions.Observation := {|
  Actions.ob_ID := Observations.ob_ID o; Actions.ob_Tool := Observations.ob_Tool o;
  Actions.ob_Success := Observations.ob_Success o;
  Actions.ob_Failure := (λ f, failure_code_text (f_Code f)) <$> Observations.ob_Failure o;
  ob_Untrusted := md_Untrusted (Observations.ob_Metadata o);
  Actions.ob_Data := Some (write_value (data_json (Observations.ob_Data o)));
  Actions.ob_Metadata := Some (write_value (metadata_json (Observations.ob_Metadata o)));
  ob_ExitCode := match Observations.ob_Data o with DataRecipe e => Some (ExitCode (re_Result e)) | _ => None end |}.

Definition check_record (c : CheckResult) : VerificationCheckRecord := {|
  cr_CheckID := cr_ID c; Actions.cr_Type := Verifier.cr_Type c; Actions.cr_Status := check_status_text (Verifier.cr_Status c);
  Actions.cr_Expected := Verifier.cr_Expected c; Actions.cr_Observed := Verifier.cr_Observed c;
  cr_Evidence := appended (cr_EvidenceIDs c); Actions.cr_Reason := Verifier.cr_Reason c |}.

Definition check_view (c : CheckResult) : verificationCheckView := {|
  vw_ID := cr_ID c; vw_Type := Verifier.cr_Type c; vw_Status := check_status_text (Verifier.cr_Status c);
  vw_Expected := Verifier.cr_Expected c; vw_Observed := Verifier.cr_Observed c; vw_Evidence := cr_EvidenceIDs c;
  vw_Reason := Verifier.cr_Reason c |}.

(** The report of a verification that could not be persisted. *)
Definition unpersisted_report (taskID message : string) : Report := {|
  rp_TaskID := taskID; rp_AttemptID := ""; rp_Decision := DecisionBlocked;
  rp_Summary := "verification could not be persisted";
  rp_Checks := [{| cr_ID := "verification_persisted"; Verifier.cr_Type := "structural"; Verifier.cr_Status := CheckBlocked;
                   Verifier.cr_Expected := ""; Verifier.cr_Observed := ""; cr_EvidenceIDs := [];
                   Verifier.cr_Reason := message |}];
  rp_CitedEvidence := []; rp_UncertainAttempts := []; rp_PendingApprovals := []; rp_TruncatedEvidence := [];
  rp_Git := None; rp_WriteReconciliation := []; rp_Limitations := []; rp_CreatedAt := "" |}.

(** The input without a history: evidence is that of the run, or nothing. *)
Definition bare_input (taskID : string) (claims : list EvidenceClaim) (plan : option Plan)
    (evidence : list RecoveryEvidence) : Input := {|
  in_TaskID := taskID; in_FinalEvidence := claims; in_ToolAttempts := []; in_Evidence := evidence; in_PendingApprovals := [];
  in_Plan := plan; in_BaselineGitStatus := ""; in_BaselineGitDiff := ""; in_BaselineGitStatusTruncated := false;
  in_BaselineGitDiffTruncated := false; in_Now := "" |}.

(** The input that the history of the task gives; a unit sees its own attempts. *)
Definition history_input (taskID unit : string) (claims : list EvidenceClaim) (plan : option Plan)
    (snapshot : RecoverySnapshot) (pending : list string) : Input := {|
  in_TaskID := taskID; in_FinalEvidence := claims;
  in_ToolAttempts := if String.eqb unit "" then sn_ToolAttempts snapshot
                     else filter (λ a, ra_WorkUnitID a = unit) (sn_ToolAttempts snapshot);
  in_Evidence := sn_Evidence snapshot; in_PendingApprovals := pending; in_Plan := plan;
  in_BaselineGitStatus := match sn_Baseline snapshot with Some b => bl_git_status b | None => "" end;
  in_BaselineGitDiff := match sn_Baseline snapshot with Some b => bl_git_diff b | None => "" end;
  in_BaselineGitStatusTruncated := match sn_Baseline snapshot with Some b => bl_status_truncated b | None => false end;
  in_BaselineGitDiffTruncated := match sn_Baseline snapshot with Some b => bl_diff_truncated b | None => false end;
  in_Now := "" |}.

(** The input of a run without a store: its own evidence. *)
Definition memory_evidence (o : Observations.Observation) : RecoveryEvidence := {|
  Verifier.re_EvidenceID := Observations.ob_ID o; Verifier.re_ExecutionID := ""; Verifier.re_Tool := Observations.ob_Tool o;
  re_ArgumentsJSON := ""; re_DataJSON := write_value (data_json (Observations.ob_Data o)); re_MetadataJSON := "" |}.

Definition intent_json `{Hash} (r : Recipe) (decision reason : string) : json :=
  JObject ([("recipe_id", JString (Recipe.ID r)); ("executable", JString (Executable r))]
    ++ omit_strings "argv" (Argv r) ++ omit_string "working_directory" (WorkingDirectory r)
    ++ [("capabilities", match Capabilities r with [] => JNull | l => strings_json l end);
        ("timeout_nanos", int_json (Timeout_ r)); ("max_stdout_bytes", int_json (MaxStdoutBytes (rc_OutputLimits r)));
        ("max_stderr_bytes", int_json (MaxStderrBytes (rc_OutputLimits r))); ("digest", JString (Recipe_Digest r));
        ("decision", JString decision); ("reason", JString reason)]).

(** The approvals that the policy finds in the store. *)
Definition approvals_at `{Disk} (s : Store) : Approvals := λ taskID fingerprint,
  match (Approval_ taskID fingerprint s).1 with
  | inl _ => inl "approval lookup failed"
  | inr row => inr ((λ a, {| approval_decision := ap_decision a; approval_reason := ap_reason a |}) <$> row)
  end.
