(* ===== verification/Loop.v ===== *)
(** * The agent loop (internal/agent/loop.go)

    One run of a task as a computation over a [World]: the machine its tools act
    on, the database, the runner of provider attempts and the locals of the run.
    Before every call to the database other processes may act, on files and on
    tables, and the process may die; it may also die inside a tool or a provider
    attempt.  What a death leaves behind is the world. *)

From stdpp Require Import pretty.
From S2P Require Import Prelude GoTime Policy Verifier Provider Receipts GovTypes Ledger GovState Persist Execute.
From S2P Require Import Text Json TimeText Database WorkUnits Protocol Recipe Observations Workspace ToolArguments Writing.
From S2P Require Import Reading Search Tools Encode Actions ProviderStore RecoveryStore Outcomes LoopTypes.

Local Open Scope runstead_scope.

Section loop.
Context `{Environment, Hash, Reads, !Commands} `{Disk} `{Codec} `{WallClock} `{LenientParse} `{Sorter} `{Decoder}
  `{Prose} `{MapOrder} `{LoopClock} `{AttemptRunner} `{Colleagues} `{Surveys} `{Texts}.
Variables (l : Loop) (task : Task).

(** ** Steps *)

Definition local {A} (f : Locals → A) : Run A := λ w, (Some (f (w_locals w)), w).
Definition set_local (f : Locals → Locals) : Run unit := λ w, (Some tt, w <| w_locals ::= f |>).

(** A computation given by its function. *)
Definition run_of {A} (f : World → option A * World) : Run A := f.

(** [l.clock.Now()] and [ctx.Err()]. *)
Definition clock_now : Run Time := λ w, (Some (loop_now (w_clock w)), w <| w_clock ::= S |>).
Definition ctx_error : Run (option ContextError) := λ w, (Some (context_error (m_calls (w_machine w))), w).

(** What the tools do. *)
Definition os {A} (c : Cmd A) : Run A := λ w, let r := c (w_machine w) in (r.1, w <| w_machine := r.2 |>).

(** Others act, and the process may die. *)
Definition elapse : Run unit := os (syscall (λ s, (tt, s))).

(** One use of the store, others having acted on it. *)
Definition on_store {A} (c : Store → A * Store) : Run A :=
  _ ← elapse;
  run_of (λ w, let r := c ((w_store w) <| tables ::= foreign (m_calls (w_machine w)) |>) in
    (Some r.1, w <| w_store := r.2 |>)).

Definition db {A} (c : DB A) : Run (StoreError + A) := on_store c.

(** One provider attempt. *)
Definition provider_attempt (request : GovTypes.AttemptRequest) : Run ExecutionResult :=
  _ ← elapse;
  run_of (λ w, let r := execute_attempt request (m_calls (w_machine w)) (w_runner w) (w_store w) in
    (r.1.1, w <| w_runner := r.1.2 |> <| w_store := r.2 |>)).

Definition emit (line : TraceLine) : Run unit :=
  _ ← set_local (λ s, s <| lo_sequence ::= Z.succ |>);
  sequence ← local lo_sequence;
  run_of (λ w, (Some tt, w <| w_trace ::= λ t, t ++ [line <| tl_Sequence := sequence |>] |>)).

Definition say (f : transcript → transcript) : Run unit := set_local (λ s, s <| lo_transcript ::= f |>).

(** ** The end of a run *)

Definition result_of (outcome : LoopOutcome) (reason : string) (s : Locals) : Result := {|
  lr_Outcome := outcome; lr_StopReason := reason; lr_Turns := lo_turns s; lr_Attempts := lo_attempts s;
  lr_Observations := Z.of_nat (size (lo_evidence s)); lr_Corrections := lo_corrections s;
  lr_Repeated := lo_repeated s; lr_MixedProse := lo_mixedProse s; lr_Summary := ""; lr_Note := "";
  lr_Evidence := None; lr_Classification := ""; lr_Err := None; lr_PendingActionID := "" |}.

Definition persistence_reason (message : string) : string :=
  StopReason OutcomePersistenceFailure +:+ ": " +:+ message.

(** [persistenceFailure] *)
Definition persistenceFailure (message : string) : Result :=
  result_of OutcomePersistenceFailure (persistence_reason message) zero_locals.

Definition task_finalize (r : Result) : TaskFinalize := {|
  tf_TaskID := ts_ID task; tf_Outcome := LoopOutcome_String (lr_Outcome r); tf_StopReason := lr_StopReason r;
  tf_Summary := lr_Summary r; tf_Classification := lr_Classification r; tf_Evidence := lr_Evidence r;
  tf_Counters := [lr_Turns r; lr_Attempts r; lr_Observations r; lr_Corrections r; lr_Repeated r; lr_MixedProse r] |}.

(** What [stop] asks of the store. *)
Definition final_record (outcome : LoopOutcome) (r : Result) : option (DB unit) :=
  if negb (lp_persistent l) then None
  else
    match outcome with
    | OutcomeApprovalRequired => Some (MarkTaskApprovalRequired (ts_ID task) (lr_PendingActionID r) (lr_StopReason r))
    | OutcomeVerificationBlocked => Some (MarkTaskVerificationPaused (ts_ID task) (lr_StopReason r))
    | OutcomePersistencePaused => Some (MarkTaskPersistencePaused (ts_ID task) (lr_StopReason r))
    | _ => if ts_SkipTaskFinalize task then None else Some (FinalizeTask (task_finalize r))
    end.

(** The closure [stop] of [Run]. *)
Definition stop (outcome : LoopOutcome) (reason : string) (extra : Result → Result) : Run Result :=
  s ← local id;
  let r := extra (result_of outcome reason s) in
  recorded ← match final_record outcome r with None => mret (inr tt) | Some c => db c end;
  let r := match recorded with
           | inl e => r <| lr_Outcome := OutcomePersistenceFailure |> <| lr_StopReason := persistence_reason (store_message e) |>
           | inr _ => r
           end in
  _ ← emit ((trace_line TraceStop (LoopOutcome_String (lr_Outcome r))) <| tl_StopReason := lr_StopReason r |>);
  mret r.

(** A turn ends the run, or does not. *)
Definition ends (outcome : LoopOutcome) (reason : string) (extra : Result → Result) : Run (option Result) :=
  r ← stop outcome reason extra; mret (Some r).

Definition ends_plainly (outcome : LoopOutcome) : Run (option Result) := ends outcome (StopReason outcome) id.

Definition goes_on : Run (option Result) := mret None.

(** A use of the store when there is one; a failure ends the run. *)
Definition durably {A} (absent : A) (c : DB A) (k : A → Run (option Result)) : Run (option Result) :=
  r ← (if lp_persistent l then db c else mret (inr absent));
  match r with
  | inl e => ends OutcomePersistenceFailure (persistence_reason (store_message e)) id
  | inr a => k a
  end.

(** ** The start of a task *)

Definition git_observed_text (tool : string) : Cmd ((string * bool) * option Observations.Failure) :=
  '(result, failure) ← at_call (λ n, run_git n (gitArguments tool));
  mret (git_text (git_observation (lp_registry l) tool result failure)).

(** [captureGitBaselineFor]; [None] when git has nothing to say. *)
Definition captureGitBaseline : Cmd (option (string * string * bool * bool)) :=
  '((status, statusTruncated), failure) ← git_observed_text ToolGitStatus;
  match failure with
  | Some _ => mret None
  | None =>
    '((diff, diffTruncated), _) ← git_observed_text ToolGitDiff;
    mret (Some (status, diff, statusTruncated, diffTruncated))
  end.

(** [Loop.configSnapshot] *)
Definition configSnapshot : string :=
  ConfigSnapshot (rg_root (lp_registry l)) (lp_model l) (lp_identity l) (lp_writePolicy l) (lp_recipePolicy l)
    (lp_recipeCatalogDigest l) (lp_acceptancePlanDigest l) (lp_limits l).

Definition task_record : TaskRecord := {|
  nt_TaskID := ts_ID task; nt_Objective := ts_Prompt task; nt_Workspace := rg_root (lp_registry l);
  nt_Model := lp_model l; nt_ConfigJSON := configSnapshot; nt_ExecutionContractJSON := lp_contract_json l;
  nt_ExecutionContractHash := lp_contract_hash l |}.

(** One step of the bootstrap: the text of its error, or the rest. *)
Definition bootstrap_step (what : string) (c : DB unit) (k : Run (option string)) : Run (option string) :=
  r ← db c;
  match r with
  | inl e => mret (Some (what +:+ ": " +:+ store_message e)%string)
  | inr _ => k
  end.

(** [BootstrapTask]; [None] is a nil error. *)
Definition BootstrapTask : Run (option string) :=
  bootstrap_step "persist task root" (CreateTask task_record) (
  bootstrap_step "start task" (StartTask (ts_ID task)) (
  let baseline :=
    captured ← os captureGitBaseline;
    match captured with
    | None => mret None
    | Some (status, diff, statusTruncated, diffTruncated) =>
      bootstrap_step "save workspace baseline"
        (SaveWorkspaceBaseline (ts_ID task) status diff statusTruncated diffTruncated) (mret None)
    end in
  match lp_plan l with
  | None => baseline
  | Some plan =>
    bootstrap_step "save acceptance plan" (SaveAcceptancePlan (ts_ID task) (MarshalPlan plan) (Plan_Digest plan)) baseline
  end)).

(** ** Policy *)

(** [recipeArgument]; [None] is a failure. *)
Definition recipeArgument (action : Action) : option string :=
  raw ← act_Arguments action !! "recipe"%string;
  value ← as_string raw "";
  if String.eqb value "" then None else Some value.

(** The recipe that an action of the tool for recipes names: its identifier, and
    its definition when there is one in the catalog. *)
Definition selected_recipe (action : Action) : option (string * option Recipe) :=
  if IsRecipeTool (act_Tool action)
  then id ← recipeArgument action; Some (id, Recipe_of (lp_registry l) id)
  else None.

Definition recipeApprovalFingerprint (action : Action) : string :=
  match selected_recipe action with
  | Some (id, Some selected) => ApprovalFingerprint id (Recipe_Digest selected)
  | _ => ""
  end.

(** Whether the recipe is unknown, and the request that the policy is asked. *)
Definition policy_request (actionID : string) (action : Action) : bool * Policy.Request :=
  let request (recipe fingerprint : string) : Policy.Request := {|
    Policy.TaskID := ts_ID task; Policy.ActionID := actionID; Policy.Tool := act_Tool action;
    Policy.Fingerprint := fingerprint; Policy.Workspace := rg_root (lp_registry l); Policy.Recipe := recipe |} in
  match selected_recipe action with
  | None => (false, request "" (ActionFingerprint action))
  | Some (_, None) => (true, request "" (ActionFingerprint action))
  | Some (id, Some selected) => (false, request id (ApprovalFingerprint id (Recipe_Digest selected)))
  end.

(** The policy that is configured looks for approvals in the store. *)
Definition consult (config : Policy.Config) (request : Policy.Request) : Run Policy.Outcome :=
  on_store (λ s, (Policy.Evaluate
    (Policy.NewStatic config (if lp_approvals l then Some (approvals_at s) else None)) request, tick s)).

Definition record_decision (request : Policy.Request) (outcome : Policy.Outcome) : DB unit :=
  if negb (String.eqb (Policy.Recipe request) "") then
    RecordRecipePolicyDecision {| rd_TaskID := ts_ID task; rd_ActionID := Policy.ActionID request;
      rd_Recipe := Policy.Recipe request; rd_Decision := policy_decision_text (decision outcome);
      rd_Reason := reason outcome |}
  else
    RecordWritePolicyDecision {| Actions.pd_TaskID := ts_ID task; pd_ActionID := Policy.ActionID request;
      pd_Tool := Policy.Tool request; Actions.pd_Decision := policy_decision_text (decision outcome);
      Actions.pd_Reason := reason outcome |}.

Definition evaluatePolicy (actionID : string) (action : Action) : Run (StoreError + Policy.Outcome) :=
  let '(unknown, request) := policy_request actionID action in
  outcome ← (if unknown then mret (Policy.outcome Policy.Denied "unknown_recipe")
             else
               match lp_policy l with
               | None => mret (Policy.outcome Policy.Denied "no_write_policy")
               | Some config => consult config request
               end);
  recorded ← (if lp_persistent l then db (record_decision request outcome) else mret (inr tt));
  mret (match recorded with inl e => inl e | inr _ => inr outcome end).

(** The empty text is nil. *)
Definition buildProcessIntent (action : Action) (decision reason : string) : string :=
  match selected_recipe action with
  | Some (_, Some selected) => write_value (intent_json selected decision reason)
  | _ => ""
  end.

(** ** Corrections *)

Definition correction_line (code : string) (retriesRemaining : Z) : TraceLine :=
  (trace_line TraceCorrection code) <| tl_Code := code |> <| tl_RetriesRemaining := retriesRemaining |>.

(** The model is told what was wrong. *)
Definition correct (code message : string) (retriesRemaining : Z) : Run (option Result) :=
  _ ← emit (correction_line code retriesRemaining);
  _ ← say (said_by roleCorrection message);
  goes_on.

Definition policyCorrection (tool : string) (outcome : Policy.Outcome) : Run (option Result) :=
  let code := policy_decision_text (decision outcome) in
  corrections ← local lo_corrections;
  if (MaxCorrections (lp_limits l) <=? corrections)%Z then
    ends OutcomeCorrectionsExhausted ("correction exhausted: " +:+ tool +:+ " " +:+ code) (λ r, r <| lr_Classification := code |>)
  else
    _ ← set_local (λ s, s <| lo_corrections ::= Z.succ |>);
    let retriesRemaining := (MaxCorrections (lp_limits l) - (corrections + 1))%Z in
    correct code (policyMessage tool outcome retriesRemaining) retriesRemaining.

Definition handleParseFailure (failure : ParseFailure) : Run (option Result) :=
  let code := code_text (pf_Code failure) in
  corrections ← local lo_corrections;
  if negb (pf_CorrectionReasonable failure) || (MaxCorrections (lp_limits l) <=? corrections)%Z then
    ends OutcomeCorrectionsExhausted ("protocol correction exhausted: " +:+ code) id
  else
    _ ← set_local (λ s, s <| lo_corrections ::= Z.succ |>);
    let retriesRemaining := (MaxCorrections (lp_limits l) - (corrections + 1))%Z in
    match GenerateCorrectionMessage (pf_Code failure) retriesRemaining with
    | None => ends OutcomeProviderFailure "provider failure: correction message generation failed" id
    | Some message => correct code message retriesRemaining
    end.

(** ** Actions *)

(** The signature of the workspace; no text when it cannot be computed. *)
Definition probe : Run string :=
  os (at_call (λ n, default ""%string (workspaceSignature (bool_decide (is_Some (context_error n))) (survey n)))).

Definition action_record (action : Action) (signature : string) : ActionRecord := {|
  ar_TaskID := ts_ID task; ar_WorkUnitID := ts_WorkUnitID task; ar_Tool := act_Tool action;
  ar_Arguments := MarshalArguments (act_Arguments action); ar_Fingerprint := ActionFingerprint action;
  ar_RecipeFingerprint := recipeApprovalFingerprint action; ar_WorkspaceSignature := signature |}.

(** The guard rejects the action. *)
Definition reject_repeated (actionID : string) : Run (option Result) :=
  _ ← set_local (λ s, s <| lo_repeated ::= Z.succ |>);
  durably tt (RejectAction (ts_ID task) actionID "repeated_action") (λ _,
  repeated ← local lo_repeated;
  if (MaxRepeatedActions (lp_limits l) <? repeated)%Z then ends_plainly OutcomeRepeatedAction
  else
    let retriesRemaining := (MaxRepeatedActions (lp_limits l) - repeated)%Z in
    match GenerateCorrectionMessage FailureRepeatedAction retriesRemaining with
    | None => ends OutcomeProviderFailure "provider failure: correction message generation failed" id
    | Some message => correct (code_text FailureRepeatedAction) message retriesRemaining
    end).

(** The first transaction: the intent. *)
Definition attempt_intent (actionID decision reason : string) (action : Action) (plan : PlannedWrite)
    : ToolAttemptPrepared := {|
  tp_TaskID := ts_ID task; tp_WorkUnitID := ts_WorkUnitID task; tp_ActionID := actionID; tp_Tool := act_Tool action;
  tp_Arguments := MarshalArguments (act_Arguments action); tp_RecoveryClass := recoveryClassFor (act_Tool action);
  tp_EffectAfterHash := pw_AfterHash plan;
  tp_PlannedEffect := {| Actions.pe_Diff := Writing.pe_Diff (pw_Effect plan);
    Actions.pe_DiffBytes := Writing.pe_DiffBytes (pw_Effect plan);
    Actions.pe_DiffTruncated := Writing.pe_DiffTruncated (pw_Effect plan) |};
  tp_ProcessIntent := buildProcessIntent action decision reason |}.

Definition prepare (actionID decision reason : string) (action : Action) (k : string → Run (option Result))
    : Run (option Result) :=
  if lp_persistent l then
    plan ← os (PlanWrite (lp_registry l) action);
    durably "" (PrepareToolAttempt (attempt_intent actionID decision reason action plan)) k
  else k ""%string.

(** The effect. *)
Definition execute_action (action : Action) : Run Observations.Observation :=
  run_of (λ w, let r := Tools.Execute (lp_registry l) (w_observations w) action (w_machine w) in
    (r.1, w <| w_machine := r.2 |> <| w_observations ::= S |>)).

Definition annotate (actionID executionID decision reason : string) (action : Action) (o : Observations.Observation)
    : Observations.Observation :=
  if IsWriteTool (act_Tool action) then AnnotateWriteEvidence o actionID executionID
  else if IsRecipeTool (act_Tool action) then AnnotateRecipeEvidence o actionID executionID decision reason
  else o.

Definition failure_text (o : Observations.Observation) : string :=
  match Observations.ob_Failure o with Some f => failure_code_text (f_Code f) | None => "" end.

Definition action_line (action : Action) (o : Observations.Observation) (duration : Duration) : TraceLine :=
  (trace_line TraceAction (if Observations.ob_Success o then "executed"
     else match Observations.ob_Failure o with Some _ => failure_text o | None => "failed" end))
    <| tl_Tool := act_Tool action |> <| tl_Duration := duration |> <| tl_EvidenceID := Observations.ob_ID o |>
    <| tl_ExitCode := match Observations.ob_Data o with
                      | DataRecipe e => if IsRecipeTool (act_Tool action) then ExitCode (re_Result e) else 0%Z
                      | _ => 0%Z
                      end |>.

Definition observation_line (o : Observations.Observation) (duration : Duration) : TraceLine :=
  (trace_line TraceObservation (if Observations.ob_Success o then "success" else "failed"))
    <| tl_EvidenceID := Observations.ob_ID o |> <| tl_Duration := duration |>.

(** The second transaction: what came of it. *)
Definition attempt_result (executionID : string) (o : Observations.Observation) (duration : Duration)
    : ToolAttemptCompleted := {|
  tc_TaskID := ts_ID task; tc_ExecutionID := executionID;
  tc_Status := if Observations.ob_Success o then "completed" else "failed";
  tc_Classification := if Observations.ob_Success o then "" else failure_text o;
  tc_EvidenceID := if Observations.ob_Success o then Observations.ob_ID o else "";
  tc_DurationNanos := duration; tc_Observation := stored_observation o |}.

(** The guard against failures, and what the model may use from now on. *)
Definition settle (action : Action) (signature : string) (o : Observations.Observation) : Run (option Result) :=
  let counted := failureCountedForGuard action o in
  _ ← set_local (λ s, s <| lo_consecutiveFailures ::= λ n, if counted then Z.succ n else 0%Z |>);
  failures ← local lo_consecutiveFailures;
  if counted && (MaxConsecutiveFailures (lp_limits l) <? failures)%Z then
    ends OutcomeConsecutiveFailuresExhausted (StopReason OutcomeConsecutiveFailuresExhausted +:+ ": " +:+ pretty failures
      +:+ " consecutive failing observation(s)") id
  else
    _ ← set_local (λ s, s <| lo_guard ::= guard_record action signature |> <| lo_evidence ::= evidence_add o |>);
    _ ← say (transcript_observation o);
    goes_on.

Definition perform_action (actionID decision reason signature : string) (action : Action) : Run (option Result) :=
  prepare actionID decision reason action (λ executionID,
  start ← clock_now;
  observed ← execute_action action;
  finish ← clock_now;
  let duration := Sub finish start in
  let o := annotate actionID executionID decision reason action observed in
  _ ← emit (action_line action o duration);
  _ ← emit (observation_line o duration);
  completed ← (if lp_persistent l then db (CompleteToolAttempt (attempt_result executionID o duration)) else mret (inr tt));
  match completed with
  | inl e => ends OutcomePersistencePaused
      ("durable tool result could not be persisted after the effect; task remains resumable for recovery: "
       +:+ store_message e) id
  | inr _ => settle action signature o
  end).

(** The repeat guard, and then the effect. *)
Definition guard_action (actionID decision reason : string) (early : option string) (action : Action)
    : Run (option Result) :=
  signature ← match early with Some signature => mret signature | None => probe end;
  guard ← local lo_guard;
  if guard_repeat guard action signature then reject_repeated actionID
  else perform_action actionID decision reason signature action.

Definition decided_line (action : Action) (outcome : Policy.Outcome) : TraceLine :=
  (trace_line TraceAction (policy_decision_text (decision outcome)))
    <| tl_Tool := act_Tool action |> <| tl_Classification := reason outcome |>.

(** What the policy decides about a gated action. *)
Definition gate_action (actionID : string) (early : option string) (action : Action) : Run (option Result) :=
  evaluated ← evaluatePolicy actionID action;
  match evaluated with
  | inl e => ends OutcomePersistenceFailure (persistence_reason (store_message e)) id
  | inr outcome =>
    match decision outcome with
    | Policy.Denied =>
      durably tt (RejectAction (ts_ID task) actionID (reason outcome)) (λ _,
      _ ← emit (decided_line action outcome);
      policyCorrection (act_Tool action) outcome)
    | Policy.ApprovalRequired =>
      _ ← emit (decided_line action outcome);
      ends OutcomeApprovalRequired (StopReason OutcomeApprovalRequired) (λ r, r <| lr_PendingActionID := actionID |>)
    | Policy.Allowed => guard_action actionID (policy_decision_text Policy.Allowed) (reason outcome) early action
    end
  end.

Definition handleAction (action : Action) : Run (option Result) :=
  early ← (if lp_persistent l then s ← probe; mret (Some s) else mret None);
  durably ""%string (RecordAction (action_record action (default ""%string early))) (λ actionID,
  if IsPolicyGated (act_Tool action) then gate_action actionID early action
  else guard_action actionID "" "" early action).

(** ** Completion *)

Definition evidence_claims (final : FinalResponse) : list EvidenceClaim :=
  (λ c, {| ec_EvidenceID := ev_EvidenceID c; ec_Tool := ev_Tool c |}) <$> fin_Evidence final.

(** What the verifier is given: the history of the task, or the evidence of the
    run when there is no store.  A history that cannot be loaded is empty. *)
Definition verification_input (final : FinalResponse) : Run Input :=
  let claims := evidence_claims final in
  if lp_persistent l then
    loaded ← db (LoadRecoverySnapshot (ts_ID task));
    match loaded with
    | inl _ => mret (bare_input (ts_ID task) claims (lp_plan l) [])
    | inr snapshot =>
      pending ← db (PendingApprovals (ts_ID task));
      mret (history_input (ts_ID task) (ts_WorkUnitID task) claims (lp_plan l) snapshot
        match pending with inl _ => [] | inr items => pa_ActionID <$> items end)
    end
  else
    evidence ← local lo_evidence;
    mret (bare_input (ts_ID task) claims (lp_plan l) ((λ entry, memory_evidence entry.2) <$> range evidence)).

Definition verification_record (report : Report) : VerificationAttemptRecord := {|
  vr_TaskID := ts_ID task; vr_WorkUnitID := ts_WorkUnitID task; vr_Decision := decision_text (rp_Decision report);
  vr_Summary := rp_Summary report; vr_ReportJSON := MarshalReport report; vr_Checks := check_record <$> rp_Checks report |}.

(** The observations of the verifier are made while others may act. *)
Definition verify (input : Input) : Run Report :=
  os (at_call (λ n, Verify (verify_now n) (Some (Verifier.New (observer_at n) (lp_plan l))) input)).

Definition verifyCompletion (final : FinalResponse) : Run Report :=
  input ← verification_input final;
  report ← verify input;
  recorded ← (if lp_persistent l then db (SaveVerificationAttempt (verification_record report)) else mret (inr tt));
  mret match recorded with
       | inl e => unpersisted_report (ts_ID task) (store_message e)
       | inr _ => report
       end.

Definition not_grounded (missing : list string) (evidence : option (list string)) : Run (option Result) :=
  ends OutcomeFinalNotGrounded ("final evidence not grounded: missing " +:+ String.concat "," missing)
    (λ r, r <| lr_Evidence := evidence |>).

(** A completion that the verifier did not pass. *)
Definition refuse_completion (report : Report) (final : FinalResponse) (missing : list string) : Run (option Result) :=
  if bool_decide (rp_Decision report = DecisionFailed) then
    _ ← set_local (λ s, s <| lo_verificationRetries ::= Z.succ |>);
    retries ← local lo_verificationRetries;
    if (MaxVerificationRetries (lp_limits l) <? retries)%Z then
      match missingCitedEvidence report missing with
      | [] => ends OutcomeVerificationFailuresExhausted (StopReason OutcomeVerificationFailuresExhausted +:+ ": "
                +:+ pretty retries +:+ " consecutive failed verification attempt(s)") id
      | missingIDs => not_grounded missingIDs (Some missingIDs)
      end
    else
      _ ← say (transcript_verification (decision_text (rp_Decision report)) (rp_Summary report)
                 (check_view <$> rp_Checks report));
      goes_on
  else
    match missingCitedEvidence report missing with
    | [] => ends OutcomeVerificationBlocked (rp_Summary report) (λ r,
        r <| lr_Summary := fin_Summary final |> <| lr_Evidence := Some (citedEvidenceIDs (fin_Evidence final)) |>
          <| lr_Classification := decision_text (rp_Decision report) |>)
    | missingIDs => not_grounded missingIDs (Some missingIDs)
    end.

(** The proposal goes to the verifier. *)
Definition propose_completion (final : FinalResponse) (missing : list string) : Run (option Result) :=
  report ← verifyCompletion final;
  _ ← emit ((trace_line TraceVerification (decision_text (rp_Decision report))) <| tl_Classification := rp_Summary report |>);
  if bool_decide (rp_Decision report = DecisionPassed) then
    ends OutcomeCompleted ("verification passed: " +:+ rp_Summary report) (λ r,
      r <| lr_Summary := rp_Summary report |> <| lr_Note := fin_Summary final |>
        <| lr_Evidence := Some (citedEvidenceIDs (fin_Evidence final)) |>
        <| lr_Classification := decision_text (rp_Decision report) |>)
  else refuse_completion report final missing.

Definition handleFinal (final : FinalResponse) : Run (option Result) :=
  evidence ← local lo_evidence;
  let '(grounded, missing) := Ground evidence final in
  let incomplete := bool_decide (fin_Status final = StatusIncomplete) in
  if incomplete && negb grounded then not_grounded missing (appended missing)
  else
    durably [] (PendingApprovals (ts_ID task)) (λ pending,
    match pending with
    | first :: _ =>
      _ ← emit ((trace_line TraceAction "approval_required") <| tl_Tool := pa_Tool first |>
                  <| tl_Classification := "approval_required" |>);
      ends OutcomeApprovalRequired (StopReason OutcomeApprovalRequired) (λ r, r <| lr_PendingActionID := pa_ActionID first |>)
    | [] =>
      if incomplete then
        ends OutcomeFinalIncomplete (StopReason OutcomeFinalIncomplete) (λ r,
          r <| lr_Summary := fin_Summary final |> <| lr_Evidence := Some (citedEvidenceIDs (fin_Evidence final)) |>)
      else propose_completion final missing
    end).

(** ** Turns *)

Definition canceled_reason (message : string) : string := StopReason OutcomeCanceled +:+ ": " +:+ message.

Definition context_message : string := "context canceled".

(** [outcomeReasonCanceled] *)
Definition outcomeReasonCanceled (err : option error) : string :=
  match err with None => StopReason OutcomeCanceled | Some e => canceled_reason (error_message e) end.

Definition classifyAdmission (admission : AdmissionResult) (pressure : bool) : Run (option Result) :=
  match GovTypes.Code admission with
  | AdmissionContextCancelled => ends OutcomeCanceled (outcomeReasonCanceled (Err admission)) id
  | AdmissionTaskDeadlineExceeded =>
    ends_plainly (if pressure then OutcomeAccountDelayTimeout else OutcomeTimeBudgetExhausted)
  | AdmissionTaskBudgetExhausted | AdmissionRollingBudgetExhausted | AdmissionUpstreamAllowanceExhausted
  | AdmissionRetryBudgetExhausted => ends_plainly OutcomeProviderBudgetExhausted
  | AdmissionCircuitOpen | AdmissionHumanAcknowledgementRequired | AdmissionAuthenticationRefreshRequired =>
    ends_plainly OutcomeAccountCircuitOpen
  | AdmissionDelayed | AdmissionCooldownActive => ends_plainly OutcomeAccountDelayTimeout
  | code => ends OutcomeProviderFailure ("provider failure: " +:+ AdmissionCode_String code)
              (λ r, r <| lr_Classification := AdmissionCode_String code |>)
  end.

Definition providerFailureReason (class : OutcomeClass) (err : error) : string :=
  "provider failure: " +:+
  (if String.eqb (OutcomeClass_String class) "" then error_message err else OutcomeClass_String class).

Definition stopOutcomeForContext (now deadline : Time) (extra : Result → Result) : Run (option Result) :=
  err ← ctx_error;
  match err with
  | Some Canceled => ends OutcomeCanceled (canceled_reason context_message) extra
  | _ =>
    let outcome := if deadlineReached now deadline then OutcomeTimeBudgetExhausted else OutcomeProviderFailure in
    ends outcome (StopReason outcome) extra
  end.

(** The outcome of the attempt could not be recorded. *)
Definition outcome_unrecorded (err : error) : bool :=
  match err with ErrProviderOutcomePersist _ => true | _ => false end.

(** An attempt that was admitted and failed. *)
Definition attempt_failed (execution : ExecutionResult) (err : error) (deadline : Time) : Run (option Result) :=
  let class := completion_class execution in
  if outcome_unrecorded err then
    ends OutcomePersistencePaused
      ("durable provider outcome could not be persisted; task remains resumable for recovery: " +:+ error_message err)
      (λ r, r <| lr_Classification := OutcomeClass_String class |> <| lr_Err := Some (error_message err) |>)
  else
    now ← clock_now;
    stopOutcomeForContext now deadline (λ r,
      r <| lr_Classification := OutcomeClass_String class |> <| lr_StopReason := providerFailureReason class err |>
        <| lr_Err := Some (error_message err) |>).

(** The envelope that the model answered with. *)
Definition handle_response (text : string) : Run (option Result) :=
  _ ← say (said_by roleAssistant text);
  let parsed := Parse (Some (registry_catalog (lp_registry l))) text in
  _ ← (if res_MixedProse parsed then
         _ ← set_local (λ s, s <| lo_mixedProse ::= Z.succ |>);
         emit (trace_line TraceDeviation "mixed_prose")
       else mret tt);
  match res_Failure parsed with
  | Some failure => handleParseFailure failure
  | None =>
    match res_Kind parsed, res_Action parsed, res_Final parsed with
    | KindAction, Some action, _ => handleAction action
    | KindFinal, _, Some final => handleFinal final
    | _, _, _ => ends OutcomeProviderFailure "provider failure: unrecognized envelope kind" id
    end
  end.

Definition request_id (turns : Z) : string :=
  if String.eqb (ts_WorkUnitID task) "" then ts_ID task +:+ "-" +:+ four_digits turns
  else ts_ID task +:+ "-" +:+ ts_WorkUnitID task +:+ "-" +:+ four_digits turns.

Definition attempt_request (turns : Z) (t : transcript) : GovTypes.AttemptRequest := {|
  GovTypes.TaskID := ts_ID task; GovTypes.WorkUnitID := ts_WorkUnitID task;
  GovTypes.ClientRequestID := request_id turns; ar_ModelPool := ""; Retry := false;
  ProviderRequest := {| req_Protocol := Current; req_Prompt := render t; req_Model := lp_model l;
                        req_ClientRequestID := "" |} |}.

Definition attempt_line (execution : ExecutionResult) (duration : Duration) : TraceLine :=
  (trace_line TraceAttempt (if Admitted_ (ex_Admission execution) then "admitted"
                            else AdmissionCode_String (GovTypes.Code (ex_Admission execution))))
    <| tl_Duration := duration |> <| tl_Classification := OutcomeClass_String (completion_class execution) |>.

Definition modelTurn (deadline : Time) : Run (option Result) :=
  start ← clock_now;
  _ ← set_local (λ s, s <| lo_turns ::= Z.succ |> <| lo_attempts ::= Z.succ |>);
  s ← local id;
  sampled ← clock_now;
  pressure ← run_of (λ w, (Some (account_pressure sampled (w_runner w)), w));
  execution ← provider_attempt (attempt_request (lo_turns s) (lo_transcript s));
  finish ← clock_now;
  _ ← emit (attempt_line execution (Sub finish start));
  if negb (Admitted_ (ex_Admission execution)) then classifyAdmission (ex_Admission execution) pressure
  else
    match ex_Err execution with
    | Some err => attempt_failed execution err deadline
    | None =>
      let text := match ex_Response execution with Some response => resp_Text response | None => "" end in
      if String.eqb (TrimSpace text) "" then
        ends OutcomeProviderFailure "provider failure: empty_response" (λ r, r <| lr_Classification := "empty_response" |>)
      else handle_response text
    end.

(** ** The run *)

(** What stops the run before a turn. *)
Definition before_turn (deadline : Time) : Run (option Result) :=
  err ← ctx_error;
  match err with
  | Some Canceled => ends OutcomeCanceled (canceled_reason context_message) id
  | Some DeadlineExceeded => ends_plainly OutcomeTimeBudgetExhausted
  | None =>
    now ← clock_now;
    if deadlineReached now deadline then ends_plainly OutcomeTimeBudgetExhausted
    else
      s ← local id;
      if (MaxSteps (lp_limits l) <=? lo_turns s)%Z then ends_plainly OutcomeStepsExhausted
      else if (ProviderBudget (lp_limits l) <=? lo_attempts s)%Z then ends_plainly OutcomeProviderBudgetExhausted
      else goes_on
  end.

(** The loop of [Run]; no result when the fuel ends. *)
Fixpoint run_loop (fuel : nat) (deadline : Time) : Run (option Result) :=
  match fuel with
  | O => mret None
  | S fuel' =>
    stopped ← before_turn deadline;
    match stopped with
    | Some r => mret (Some r)
    | None =>
      turn ← modelTurn deadline;
      match turn with Some r => mret (Some r) | None => run_loop fuel' deadline end
    end
  end.

(** The locals of a run that is resumed. *)
Definition seeded (seed : RecoverySeed) (s : Locals) : Locals :=
  s <| lo_transcript ::= transcript_recovery (sd_Context seed) |>
    <| lo_evidence ::= λ e, foldl (λ e o, evidence_add o e) e (sd_Evidence seed) |>
    <| lo_guard ::= λ g, foldl (λ g entry, guard_seed entry.1 entry.2 g) g (range (sd_Guard seed)) |>
    <| lo_turns ::= Z.max (sd_Turns seed) |> <| lo_attempts ::= Z.max (sd_Attempts seed) |>
    <| lo_repeated ::= Z.max (sd_Repeated seed) |>
    <| lo_consecutiveFailures ::= Z.max (sd_ConsecutiveFailures seed) |>
    <| lo_verificationRetries ::= Z.max (sd_VerificationRetries seed) |>
    <| lo_sequence ::= Z.max (sd_TraceSequence seed) |>.

(** What comes before the first turn: the text of an error ends the run. *)
Definition begin_run : Run (option string) :=
  _ ← set_local (λ _, zero_locals <| lo_transcript := newTranscript (lp_contract l) (ts_Prompt task) |>);
  match lp_recovery l with
  | None => if lp_persistent l then BootstrapTask else mret None
  | Some seed =>
    _ ← set_local (seeded seed);
    _ ← emit (trace_line TraceRecoveryBoundary "new execution begins");
    mret None
  end.

Definition run_with (fuel : nat) : Run (option Result) :=
  startedAt ← clock_now;
  failed ← begin_run;
  match failed with
  | Some message => mret (Some (persistenceFailure message))
  | None =>
    run_loop fuel (if (0 <? TimeBudget (lp_limits l))%Z then Add startedAt (TimeBudget (lp_limits l)) else zeroTime)
  end.

(** [Loop.Run] *)
Definition RunTask : Run (option Result) := run_with (S (Z.to_nat (MaxSteps (lp_limits l)))).

End loop.
