(* ===== verification/LoopLaws.v ===== *)
(** * What a run of the agent does to files, tables and budgets

    The agent loop of Loop.v in a neighbourhood that keeps what was recorded:
    every file that a run changes was authorised on the record, what a run tells
    is what the database says of the task, and a run ends within its budgets. *)

From stdpp Require Import pretty.
From S2P Require Import Prelude GoTime Policy Verifier Provider Receipts GovTypes Ledger GovState Persist Execute.
From S2P Require Import Text Json TimeText Database WorkUnits Protocol Recipe Observations Workspace ToolArguments Writing.
From S2P Require Import Reading Search Tools Encode Actions ActionLaws AttemptLaws WritingLaws ProviderStore RecoveryStore.
From S2P Require Import Outcomes LoopTypes Loop.

Local Open Scope runstead_scope.

(** ** Running computations *)

Section runs.
Context `{FileSystem} `{AttemptRunner}.

Section relation.
Context (R : relation World) {HR : PreOrder R}.

(** From any world to one that is related to it, alive or not. *)
Definition moves {A} (c : Run A) : Prop := ∀ w, R w (c w).2.

Lemma moves_ret {A} (a : A) : moves (mret a).
Proof. by intros w. Qed.

Lemma moves_bind {A B} (c : Run A) (k : A → Run B) : moves c → (∀ a, moves (k a)) → moves (x ← c; k x).
Proof.
  intros Hc Hk w. rw /mbind /Run_bind. specialize (Hc w). destruct (c w) as [[a|] w']; [|done].
  etrans; [exact Hc|apply Hk].
Qed.

Lemma moves_local {A} (f : Locals → A) : moves (local f).
Proof. by intros w. Qed.
End relation.

Lemma run_bind_inv {A B} (c : Run A) (k : A → Run B) w b w' :
  (x ← c; k x) w = (Some b, w') → ∃ a w1, c w = (Some a, w1) ∧ k a w1 = (Some b, w').
Proof. rw /mbind /Run_bind. destruct (c w) as [[a|] w1]; naive_solver. Qed.
End runs.

(** Walk through a computation; the leaves are closed by [leaf]. *)
Ltac run_walk leaf := repeat first
  [ progress intros | solve [leaf]
  | match goal with
    | |- moves _ (mret _) => apply moves_ret; apply _
    | |- moves _ (local _) => apply moves_local; apply _
    | |- moves _ (mbind _ _) => apply moves_bind; [apply _| |]
    end
  | case_match ].

(** ** Neighbours *)

(** The journal holds the event of the operator's decision that the row shows. *)
Definition journalled `{Codec} (t : Tables) (a : ApprovalRow) : Prop :=
  ∃ event action fingerprint decision reason actor, event ∈ tbl_events t ∧ ev_task_id event = ap_task_id a
    ∧ ev_kind event = "approval_recorded"%string
    ∧ ev_payload_json event = RedactJSON (MarshalPayload (ApprovalRecorded action fingerprint decision reason actor))
    ∧ ap_action_id a = Redact action ∧ ap_fingerprint a = Redact fingerprint ∧ ap_decision a = Redact decision.

(** What was recorded about actions stays recorded, and no approval comes but by a
    decision that the journal shows. *)
Record kept `{Codec} (t t' : Tables) : Prop := {
  kp_actions : grown same_action (tbl_actions t) (tbl_actions t');
  kp_attempts : grown same_attempt (tbl_tool_attempts t) (tbl_tool_attempts t');
  kp_decisions : tbl_decisions t `prefix_of` tbl_decisions t';
  kp_events : tbl_events t `prefix_of` tbl_events t';
  kp_approvals a : a ∈ tbl_approvals t' → a ∈ tbl_approvals t ∨ journalled t' a
}.

Lemma journalled_prefix `{Codec} t t' a : tbl_events t `prefix_of` tbl_events t' → journalled t a → journalled t' a.
Proof.
  intros [es E] (event & x1 & x2 & x3 & x4 & x5 & Hin & Hrest). exists event, x1, x2, x3, x4, x5.
  split; [|exact Hrest]. rw E. by apply elem_of_app; left.
Qed.

#[export] Instance kept_preorder `{Codec} : PreOrder kept.
Proof.
  split; [intros t; split; try reflexivity; by left|]. intros t1 t2 t3 [? ? ? ? H12] [? ? ? ? H23].
  split; try by etrans. intros a [Ha|Ha]%H23; [|by right].
  apply H12 in Ha as [Ha|Ha]; [by left|right]. by eapply journalled_prefix.
Qed.

(** Approvals are as they were. *)
Definition same_approvals (t t' : Tables) : Prop :=
  tbl_approvals t' = tbl_approvals t ∧ tbl_events t `prefix_of` tbl_events t'.

#[export] Instance same_approvals_preorder : PreOrder same_approvals.
Proof. split; [by split|]. intros t1 t2 t3 [E1 P1] [E2 P2]. split; [congruence|by etrans]. Qed.

Lemma same_approvals_statement `{Disk} {A} (f : Tables → StoreError + (A * Tables)) :
  (∀ t a t', f t = inr (a, t') → same_approvals t t') → Database.within same_approvals (statement f).
Proof. apply (within_statement same_approvals). Qed.

(** The leaves of an operation that does not touch approvals. *)
Ltac approvals_leaf := try unfold nextIdentity; apply same_approvals_statement; intros ? ? ?; repeat case_match; try done;
  intros; simplify_eq; split; simpl; first [done|by apply prefix_app_r].

Lemma perform_approvals `{Disk} `{Codec} o :
  (∃ record, o = DoRecordApproval record) ∨ Database.within same_approvals (perform o).
Proof.
  destruct o; try (by left; eexists); right; cbn [perform]; rw /ignore /completion_gates; repeat first [progress db_walk|approvals_leaf].
Qed.

Lemma upsert_row `{Disk} row s u s' a :
  upsert_approval row s = (inr u, s') → a ∈ tbl_approvals (tables s') →
  a ∈ tbl_approvals (tables s) ∨ ap_task_id a = ap_task_id row ∧ ap_action_id a = ap_action_id row
    ∧ ap_fingerprint a = ap_fingerprint row ∧ ap_decision a = ap_decision row.
Proof.
  intros [_ ->]%insert_row_ok. simpl. destruct (existsb _ _).
  - intros (old & -> & Hold)%list_elem_of_fmap. destruct (is_approval _ _ old) eqn:E; [|by left].
    apply andb_true_iff in E as [E1%String.eqb_eq E2%String.eqb_eq]. by right.
  - intros [Ha|Ha%list_elem_of_singleton]%elem_of_app; [by left|subst; by right].
Qed.

Lemma RecordApproval_journalled `{Disk} `{Codec} record s id s' :
  RecordApproval record s = (inr id, s') →
  tbl_events (tables s) `prefix_of` tbl_events (tables s')
  ∧ ∀ a, a ∈ tbl_approvals (tables s') → a ∈ tbl_approvals (tables s) ∨ journalled (tables s') a.
Proof.
  rw /RecordApproval. intros (at_ & s0 & E0%now_ok & E)%check_ok.
  apply transaction_ok in E as (s1 & s2 & E1 & E & ->). apply check_ok in E as (found & s3 & [-> E3]%query_ok & E).
  destruct (fingerprint_of _ _ _) as [fingerprint|]; [|done]. apply check_ok in E as (u & s4 & [_ ->]%assert_ok & E).
  apply check_ok in E as (u1 & s5 & Hup & E). apply check_ok in E as (u2 & s6 & Hev & E). injection E as _ <-.
  apply appendEvent_ok in Hev as (event & Et & Htask & Hkind & Hpay & _).
  assert (tbl_events (tables s5) = tbl_events (tables s)) as Hev5.
  { apply insert_row_ok in Hup as [_ ->]. simpl. by rw E3 E1 E0. }
  rw Et /= Hev5. split; [by apply prefix_app_r|]. intros a [Ha|(H1 & H2 & H3 & H4)]%(upsert_row _ _ _ _ _ Hup).
  - left. by rw E3 E1 E0 in Ha.
  - right. eexists event, _, fingerprint, _, _, _. split_and!; [|by rw H1|done|exact Hpay|done..].
    simpl. apply elem_of_app. right. by apply list_elem_of_singleton.
Qed.

(** Colleagues and the runner of provider attempts do not take records back, and
    bring approvals only through the journal. *)
Class Considerate `{Codec} `{AttemptRunner} `{Colleagues} := {
  foreign_keeps n t : kept t (foreign n t);
  runner_keeps request n r s : kept (tables s) (tables (execute_attempt request n r s).2)
}.

Section database.
Context `{Disk} `{Codec} `{WallClock} `{LenientParse} `{Hash}.

Lemma kept_perform o : Database.within kept (perform o).
Proof.
  intros s. destruct (perform o s) as [[e|u] s'] eqn:E; simpl.
  - by apply aborts_perform in E as ->.
  - assert (tbl_events (tables s) `prefix_of` tbl_events (tables s')
      ∧ ∀ a, a ∈ tbl_approvals (tables s') → a ∈ tbl_approvals (tables s) ∨ journalled (tables s') a) as [He Ha].
    { destruct (perform_approvals o) as [[record ->]|Hsame].
      - apply check_ok in E as (id & s1 & E & [= _ <-]). by eapply RecordApproval_journalled.
      - specialize (Hsame s). rw E in Hsame. destruct Hsame as [Hsame ?]. split; [done|]. intros a. rw Hsame. by left. }
    apply logs_perform in E as [[] _]. by split.
Qed.

Lemma kept_ignored {A} (m : DB A) : Database.within kept (ignore m) → Database.within kept m.
Proof.
  intros Hm s. specialize (Hm s). rw /ignore /check in Hm. by destruct (m s) as [[e|a] s'].
Qed.

Lemma kept_record_action r : Database.within kept (RecordAction r).
Proof. apply kept_ignored, (kept_perform (DoRecordAction r)). Qed.
Lemma kept_prepare r : Database.within kept (PrepareToolAttempt r).
Proof. apply kept_ignored, (kept_perform (DoPrepareToolAttempt r)). Qed.

Lemma kept_append taskID payload at_ : Database.within kept (appendEvent taskID payload at_).
Proof.
  apply (within_append kept). intros t event _ _ _. split; simpl; try reflexivity; [by apply prefix_app_r|by left].
Qed.

Lemma kept_row table ok f : (∀ t, kept t (f t)) → Database.within kept (insert_row table ok f).
Proof. intros Hf. apply (within_statement kept). intros t [] t'. case_match; [by intros [= <-]|done]. Qed.

Lemma kept_create task : Database.within kept (CreateTask task).
Proof.
  rw /CreateTask /insert_task. db_walk; [|apply kept_append]. apply kept_row. intros t. split; simpl; try reflexivity. by left.
Qed.

Lemma kept_snapshot taskID : Database.within kept (LoadRecoverySnapshot taskID).
Proof.
  rw /LoadRecoverySnapshot /loadRecoveryTask /loadRecoveryProviderAttempts /AcceptancePlan /WorkspaceBaseline
    /VerificationAttempts /loadVerificationChecks /loadRecoveryWorkUnits /workUnitDependencies. db_walk.
Qed.

Lemma kept_pending taskID : Database.within kept (PendingApprovals taskID).
Proof. apply (within_query kept). Qed.
End database.

(** ** Runs that change no file *)

Create HintDb later discriminated.

Section laws.
Context `{Environment, Hash, Reads, !Commands} `{Disk} `{Codec} `{WallClock} `{LenientParse} `{Sorter} `{Decoder}
  `{Prose} `{MapOrder} `{LoopClock} `{AttemptRunner} `{Colleagues} `{Surveys} `{Texts}.
Context {HK : Considerate}.
Variables (l : Loop) (task : Task).

(** No rename, and nothing recorded is lost. *)
Definition later (w w' : World) : Prop :=
  m_renames (w_machine w') = m_renames (w_machine w) ∧ kept (tables (w_store w)) (tables (w_store w')).

#[local] Instance later_preorder : PreOrder later.
Proof. split; [by intros w|]. intros w1 w2 w3 [E1 K1] [E2 K2]. split; [congruence|by etrans]. Qed.

Lemma later_set_local f : moves later (set_local f).
Proof. by intros w. Qed.
Lemma later_clock : moves later clock_now.
Proof. by intros w. Qed.
Lemma later_context : moves later ctx_error.
Proof. by intros w. Qed.
Lemma later_emit line : moves later (emit line).
Proof. rw /emit. run_walk ltac:(first [apply later_set_local|by intros ?]). Qed.
Lemma later_say f : moves later (say f).
Proof. apply later_set_local. Qed.

Lemma later_os {A} (c : Cmd A) : silent c → moves later (os c).
Proof. intros Hc w. split; [apply Hc|done]. Qed.

Lemma later_elapse : moves later elapse.
Proof. apply later_os, silent_syscall. Qed.

Lemma later_store {A} (c : Store → A * Store) :
  (∀ s, kept (tables s) (tables (c s).2)) → moves later (on_store c).
Proof.
  intros Hc. rw /on_store. apply moves_bind; [apply _|apply later_elapse|]. intros _ w. split; [done|].
  simpl. etrans; [apply (foreign_keeps (m_calls (w_machine w)))|]. exact (Hc (_ <| tables ::= _ |>)).
Qed.

Lemma later_db {A} (c : DB A) : Database.within kept c → moves later (db c).
Proof. intros Hc. by apply later_store. Qed.

Lemma later_attempt request : moves later (provider_attempt request).
Proof.
  rw /provider_attempt. apply moves_bind; [apply _|apply later_elapse|]. intros _ w. split; [done|]. apply runner_keeps.
Qed.

Lemma later_perform o : moves later (db (perform o)).
Proof. apply later_db, kept_perform. Qed.

Lemma later_reject a b c : moves later (db (RejectAction a b c)).
Proof. apply (later_perform (DoRejectAction a b c)). Qed.
Lemma later_start a : moves later (db (StartTask a)).
Proof. apply (later_perform (DoStartTask a)). Qed.
Lemma later_complete a : moves later (db (CompleteToolAttempt a)).
Proof. apply (later_perform (DoCompleteToolAttempt a)). Qed.
Lemma later_save_verification a : moves later (db (SaveVerificationAttempt a)).
Proof. apply (later_perform (DoSaveVerificationAttempt a)). Qed.
Lemma later_save_plan a b c : moves later (db (SaveAcceptancePlan a b c)).
Proof. apply (later_perform (DoSaveAcceptancePlan a b c)). Qed.
Lemma later_save_baseline a b c d e : moves later (db (SaveWorkspaceBaseline a b c d e)).
Proof. apply (later_perform (DoSaveWorkspaceBaseline a b c d e)). Qed.
Lemma later_snapshot a : moves later (db (LoadRecoverySnapshot a)).
Proof. apply later_db, kept_snapshot. Qed.
Lemma later_pending a : moves later (db (PendingApprovals a)).
Proof. apply later_db, kept_pending. Qed.
Lemma later_create a : moves later (db (CreateTask a)).
Proof. apply later_db, kept_create. Qed.
Lemma later_record_action a : moves later (db (RecordAction a)).
Proof. apply later_db, kept_record_action. Qed.
Lemma later_prepare_attempt a : moves later (db (PrepareToolAttempt a)).
Proof. apply later_db, kept_prepare. Qed.
Lemma later_at_call {A} (f : nat → A) : moves later (os (at_call f)).
Proof. apply later_os, silent_at_call. Qed.

#[local] Hint Constants Opaque : later.
#[local] Hint Resolve later_set_local later_clock later_context later_emit later_say later_attempt later_elapse
  later_at_call later_reject later_start later_complete later_save_verification later_save_plan later_save_baseline
  later_snapshot later_pending later_create later_record_action
  later_prepare_attempt : later.

Ltac later_walk := run_walk ltac:(eauto with later nocore).

Lemma later_final outcome r c : final_record l task outcome r = Some c → moves later (db c).
Proof.
  rw /final_record. destruct (lp_persistent l); [|done]. simpl.
  destruct outcome; try (destruct (ts_SkipTaskFinalize task); [done|]); intros [= <-].
  all: match goal with
    | |- moves later (db (FinalizeTask ?a)) => apply (later_perform (DoFinalizeTask a))
    | |- moves later (db (MarkTaskApprovalRequired ?a ?b ?c)) => apply (later_perform (DoMarkTaskApprovalRequired a b c))
    | |- moves later (db (MarkTaskVerificationPaused ?a ?b)) => apply (later_perform (DoMarkTaskVerificationPaused a b))
    | |- moves later (db (MarkTaskPersistencePaused ?a ?b)) => apply (later_perform (DoMarkTaskPersistencePaused a b))
    end.
Qed.

Lemma later_stop outcome reason extra : moves later (stop l task outcome reason extra).
Proof.
  rw /stop. apply moves_bind; [apply _|apply moves_local; apply _|]. intros s.
  apply moves_bind; [apply _| |].
  - destruct (final_record l task outcome _) as [c|] eqn:E; [by eapply later_final|apply moves_ret; apply _].
  - later_walk.
Qed.

Lemma later_ends outcome reason extra : moves later (ends l task outcome reason extra).
Proof. rw /ends. run_walk ltac:(apply later_stop). Qed.
#[local] Hint Resolve later_ends : later.

Lemma later_durably {A} (absent : A) c k :
  moves later (db c) → (∀ a, moves later (k a)) → moves later (durably l task absent c k).
Proof. intros Hc Hk. rw /durably. run_walk ltac:(first [done|apply Hk|auto with later nocore]). Qed.
#[local] Hint Resolve later_durably : later.

Lemma later_bootstrap : moves later (BootstrapTask l task).
Proof.
  rw /BootstrapTask /bootstrap_step. later_walk; apply later_os; rw /captureGitBaseline /git_observed_text.
  all: repeat first [progress intros|apply silent_ret|apply silent_bind|apply silent_at_call|case_match].
Qed.

Lemma later_consult config request : moves later (consult l config request).
Proof. by apply later_store. Qed.

Lemma kept_decision request outcome : Database.within kept (record_decision task request outcome).
Proof.
  rw /record_decision. case_match.
  - exact (kept_perform (DoRecordRecipePolicyDecision _)).
  - exact (kept_perform (DoRecordWritePolicyDecision _)).
Qed.

Lemma later_decision request outcome : moves later (db (record_decision task request outcome)).
Proof. apply later_db, kept_decision. Qed.
#[local] Hint Resolve later_bootstrap later_consult later_decision : later.

Lemma later_policy actionID action : moves later (evaluatePolicy l task actionID action).
Proof. rw /evaluatePolicy. destruct (policy_request l task actionID action) as [unknown request]. later_walk. Qed.

Lemma later_correct code message n : moves later (correct code message n).
Proof. rw /correct /goes_on. later_walk. Qed.
#[local] Hint Resolve later_correct : later.

Lemma later_policy_correction tool outcome : moves later (policyCorrection l task tool outcome).
Proof. rw /policyCorrection. later_walk. Qed.

Lemma later_parse_failure failure : moves later (handleParseFailure l task failure).
Proof. rw /handleParseFailure. later_walk. Qed.

Lemma later_repeated actionID : moves later (reject_repeated l task actionID).
Proof.
  rw /reject_repeated /ends_plainly. later_walk. apply later_durably; later_walk.
Qed.

Lemma silent_plan action : silent (PlanWrite (lp_registry l) action).
Proof.
  rw /PlanWrite. repeat first [progress intros|apply silent_resolveWrite|apply silent_readBoundedPrefix|apply silent_query
    |match goal with |- silent (mret _) => apply silent_ret | |- silent (mbind _ _) => apply silent_bind end|case_match].
Qed.

Lemma later_prepare actionID decision reason action k :
  (∀ id, moves later (k id)) → moves later (prepare l task actionID decision reason action k).
Proof.
  intros Hk. rw /prepare. destruct (lp_persistent l); [|done].
  apply moves_bind; [apply _|apply later_os, silent_plan|]. intros plan. apply later_durably; [later_walk|done].
Qed.

Lemma later_settle action signature o : moves later (settle l task action signature o).
Proof. rw /settle /goes_on. later_walk. Qed.

Lemma later_verify final : moves later (verifyCompletion l task final).
Proof. rw /verifyCompletion /verification_input /verify. later_walk. Qed.

Lemma later_not_grounded missing evidence : moves later (not_grounded l task missing evidence).
Proof. apply later_ends. Qed.
#[local] Hint Resolve later_policy later_policy_correction later_parse_failure later_repeated later_settle later_verify
  later_not_grounded : later.

Lemma later_refuse report final missing : moves later (refuse_completion l task report final missing).
Proof. rw /refuse_completion /goes_on. later_walk. Qed.
#[local] Hint Resolve later_refuse : later.

Lemma later_final_response final : moves later (handleFinal l task final).
Proof.
  rw /handleFinal /propose_completion. later_walk; apply later_durably; later_walk.
Qed.
End laws.

#[export] Hint Constants Opaque : later.
#[export] Hint Resolve later_set_local later_clock later_context later_emit later_say later_attempt later_elapse
  later_at_call later_complete later_ends later_durably later_bootstrap later_policy later_policy_correction
  later_parse_failure later_repeated later_settle later_not_grounded later_final_response later_reject
  later_record_action : later.
#[export] Existing Instance later_preorder.
Ltac later_walk := run_walk ltac:(eauto with later nocore).
