(* ===== verification/LoopEffects.v ===== *)
(** * What a run may change on disk

    Whatever the model answers, whatever others do and wherever the process dies:
    behind every file that a run has put in place stands an attempt in the
    database and a policy that allowed it. *)

From S2P Require Import Prelude GoTime Policy Verifier Provider Receipts GovTypes Ledger GovState Persist Execute.
From S2P Require Import Text Json TimeText Database WorkUnits Protocol Recipe Observations Workspace ToolArguments Writing.
From S2P Require Import Reading Search Tools Encode Actions ActionLaws AttemptLaws WritingLaws ProviderStore RecoveryStore.
From S2P Require Import PathLaws Outcomes LoopTypes Loop LoopLaws.

Local Open Scope runstead_scope.

Section effects.
Context `{Environment, Hash, Reads, !Commands} `{Disk} `{Codec} `{WallClock} `{LenientParse} `{Sorter} `{Decoder}
  `{Prose} `{MapOrder} `{LoopClock} `{AttemptRunner} `{Colleagues} `{Surveys} `{Texts}.
Context {FL : FileLaws} {HK : Considerate}.
Variables (l : Loop) (task : Task).

(** ** Authority *)

(** The policy as it reads the store. *)
Definition policy_at (config : Policy.Config) (s : Store) : Policy.Static :=
  Policy.NewStatic config (if lp_approvals l then Some (approvals_at s) else None).

(** The tables when the run began. *)
Variable start : Tables.

(** The operator approved this fingerprint for the task: the row was there when the
    run began, or the journal holds the event that brought it. *)
Definition approved_for (t : Tables) (fingerprint : string) : Prop :=
  ∃ a, ap_task_id a = ts_ID task ∧ ap_fingerprint a = fingerprint ∧ ap_decision a = "approved"%string
    ∧ (a ∈ tbl_approvals start ∨ journalled t a).

(** The mode of the tool allows the action, or asks for an approval that exists. *)
Definition permitted (t : Tables) (config : Policy.Config) (action : Action) : Prop :=
  let mode := Policy.Modes config !! act_Tool action in
  mode = Some Policy.ModeAllow
  ∨ mode = Some Policy.ModeApprovalRequired ∧ lp_approvals l = true ∧ approved_for t (ActionFingerprint action).

(** The configured policy permits the action, and that was written down. *)
Definition cleared (t : Tables) (actionID : string) (action : Action) : Prop :=
  ∃ config d, lp_policy l = Some config ∧ permitted t config action
    ∧ d ∈ tbl_decisions t ∧ wd_task_id d = ts_ID task ∧ wd_action_id d = Redact actionID
    ∧ wd_decision d = Redact "allowed".

(** An attempt that carries the action, written before its effect. *)
Definition intended (t : Tables) (actionID : string) (action : Action) : Prop :=
  ∃ a, a ∈ tbl_tool_attempts t ∧ ta_task_id a = ts_ID task ∧ ta_action_id a = actionID
    ∧ ta_tool a = Redact (act_Tool action)
    ∧ ta_arguments_json a = RedactJSON (MarshalArguments (act_Arguments action)).

Definition authorised (t : Tables) (rn : Renamed) : Prop :=
  ∃ action actionID, effect_of (lp_registry l) action rn ∧ intended t actionID action ∧ cleared t actionID action.

Lemma permitted_kept t t' config action : kept t t' → permitted t config action → permitted t' config action.
Proof.
  intros [_ _ _ He _] [Hm|(Hm & Hl & a & Ea1 & Ea2 & Ea3 & Ha)]; [by left|right]. split_and!; [done..|].
  exists a. split_and!; [done..|]. destruct Ha as [Ha|Ha]; [by left|right]. by eapply journalled_prefix.
Qed.

Lemma cleared_kept t t' actionID action : kept t t' → cleared t actionID action → cleared t' actionID action.
Proof.
  intros Hk (config & d & ? & Hp & Hd & ?). exists config, d. split_and!; try done; [by eapply permitted_kept| |naive_solver..].
  destruct Hk as [_ _ [ds ->] _ _]. by apply elem_of_app; left.
Qed.

Lemma intended_kept t t' actionID action : kept t t' → intended t actionID action → intended t' actionID action.
Proof.
  intros [_ (old & new & E & Hold) _ _ _] (a & Ha & ? & ? & ? & ?).
  apply list_elem_of_lookup in Ha as [i Hi]. destruct (Forall2_lookup_l _ _ _ _ _ Hold Hi) as (a' & Ha' & Hs).
  rw /same_attempt /intent_of in Hs. injection Hs as ? ? ? ? ? ? ? ? ? ? ? ?.
  exists a'. split_and!; try congruence. rw E. apply elem_of_app. left. by eapply list_elem_of_lookup_2.
Qed.

Lemma authorised_kept t t' rn : kept t t' → authorised t rn → authorised t' rn.
Proof.
  intros Hk (action & id & He & Hi & Hc). exists action, id.
  split_and!; [done|by eapply intended_kept|by eapply cleared_kept].
Qed.

(** ** Uses of the store *)

Lemma on_store_inv {A} (c : Store → A * Store) w a w' :
  on_store c w = (Some a, w') → ∃ s, c s = (a, w_store w') ∧ kept (tables (w_store w)) (tables s).
Proof.
  intros (u & w1 & Hl & Hc)%run_bind_inv. destruct (later_elapse w) as [_ K]. rw Hl /= in K.
  injection Hc as <- <-. exists ((w_store w1) <| tables ::= foreign (m_calls (w_machine w1)) |>).
  split; [by simpl; destruct (c _)|]. etrans; [exact K|apply foreign_keeps].
Qed.

Lemma write_not_recipe action : IsWriteTool (act_Tool action) = true → selected_recipe l action = None.
Proof. rw /selected_recipe. intros [->%String.eqb_eq | ->%String.eqb_eq]%orb_true_iff; done. Qed.

(** What the policy finds in the approvals of the store, it finds on record. *)
Lemma approval_found s t fingerprint a :
  kept start (tables s) → kept (tables s) t →
  approvals_at s (ts_ID task) fingerprint = inr (Some a) → Policy.approval_decision a = "approved"%string →
  approved_for t fingerprint.
Proof.
  intros Hs Ht. rw /approvals_at. destruct (Approval_ _ _ s) as [[e|row] s'] eqn:E; [done|].
  apply query_ok in E as [-> _]. rw /approval_at /=.
  destruct (List.find _ _) as [row|] eqn:Ef; [|done]. simpl. intros [= <-] Hd.
  apply find_some in Ef as [Hin%list_elem_of_In [Ea1%String.eqb_eq Ea2%String.eqb_eq]%andb_true_iff].
  exists row. split_and!; [done..|]. apply Hs in Hin as [Hin|Hin]; [by left|right].
  by eapply journalled_prefix; [apply Ht|].
Qed.

Lemma Evaluate_permitted config s t actionID action :
  IsWriteTool (act_Tool action) = true → kept start (tables s) → kept (tables s) t →
  Policy.decision (Policy.Evaluate (policy_at config s) (policy_request l task actionID action).2) = Policy.Allowed →
  permitted t config action.
Proof.
  intros Hw Hs Ht. rw /policy_request (write_not_recipe _ Hw) /=.
  rw Policy.Evaluate_mode /Policy.effective_mode bool_decide_eq_true_2 // /=. rw /permitted.
  destruct (Policy.Modes config !! act_Tool action) as [mode|]; [|done]. rw /Policy.evaluateMode.
  destruct (String.eqb_spec mode Policy.ModeAllow) as [->|_]; [by left|].
  destruct (String.eqb_spec mode Policy.ModeDeny) as [->|_]; [done|].
  destruct (String.eqb_spec mode Policy.ModeApprovalRequired) as [->|_]; [|done]. intros Ha. right. split; [done|].
  rw /Policy.evaluateApproval /policy_at /= in Ha. destruct (lp_approvals l); [|done]. split; [done|].
  destruct (String.eqb _ _); [done|]. simpl in Ha.
  destruct (approvals_at s _ _) as [e|[a|]] eqn:Ea; [done| |done].
  destruct (String.eqb_spec (Policy.approval_decision a) "approved"); [by eapply approval_found|].
  by destruct (String.eqb _ _).
Qed.

Lemma evaluatePolicy_cleared actionID action w outcome w' :
  lp_persistent l = true → IsWriteTool (act_Tool action) = true → kept start (tables (w_store w)) →
  evaluatePolicy l task actionID action w = (Some (inr outcome), w') → decision outcome = Policy.Allowed →
  cleared (tables (w_store w')) actionID action.
Proof.
  intros Hp Hw Hstart E Ha. rw /cleared. rw /evaluatePolicy in E.
  pose proof (Evaluate_permitted) as Hpermit.
  destruct (policy_request l task actionID action) as [unknown request] eqn:Hq. pose proof Hq as Hr.
  rw /policy_request (write_not_recipe _ Hw) in Hq. injection Hq as <- <-.
  apply run_bind_inv in E as (o & w1 & Ho & E). rw Hp in E. apply run_bind_inv in E as (r & w2 & Hd & E).
  destruct r as [e|u]; injection E as ?; [done|]. simplify_eq.
  destruct (lp_policy l) as [config|] eqn:Hconf; [|injection Ho as <- _; done].
  apply on_store_inv in Ho as (s & Hs & Hk1). apply on_store_inv in Hd as (s2 & Hs2 & Hk2). injection Hs as Ho Hs1.
  match type of Hs2 with ?c s2 = _ => assert (kept (tables s2) (tables (c s2).2)) as Hk3 by apply kept_decision end.
  rw Hs2 /= in Hk3.
  apply RecordWritePolicyDecision_ok in Hs2 as (d & ? & ? & ? & Hdd). simpl in *.
  exists config, d. split_and!; try done.
  - apply (Hpermit config s _ actionID); [done|by etrans| |by rw Hr -Ho in Ha |- *].
    etrans; [|exact Hk3]. by rw -Hs1 in Hk2.
  - by rw Ha in Hdd.
Qed.

(** ** Safety of the whole run *)

Variable old : list Renamed.

(** What is not old is authorised, and nothing recorded since the start is lost. *)
Definition safe (w : World) : Prop :=
  kept start (tables (w_store w))
  ∧ ∀ rn, rn ∈ m_renames (w_machine w) → rn ∈ old ∨ authorised (tables (w_store w)) rn.

Definition keeps_safe (P : Tables → Prop) {A} (c : Run A) : Prop :=
  ∀ w, safe w → P (tables (w_store w)) → safe (c w).2.

Lemma later_safe w w' : later w w' → safe w → safe w'.
Proof.
  intros [E K] [Hk Hs]. split; [by etrans|]. intros rn. rw E. intros [?|Ha]%Hs; [by left|right]. by eapply authorised_kept.
Qed.

Lemma safe_later P {A} (c : Run A) : moves later c → keeps_safe P c.
Proof. intros Hc w Hs _. by eapply later_safe, Hs. Qed.

(** A step that changes no file, and then one that needs what is stable. *)
Lemma safe_bind (P : Tables → Prop) {A B} (c : Run A) (k : A → Run B) :
  moves later c → (∀ t t', kept t t' → P t → P t') → (∀ a, keeps_safe P (k a)) → keeps_safe P (x ← c; k x).
Proof.
  intros Hc Hstable Hk w Hs HP. rw /mbind /Run_bind. specialize (Hc w). destruct (c w) as [[a|] w'] eqn:E; simpl in *.
  - apply Hk; [by eapply later_safe|]. by eapply Hstable, HP; destruct Hc.
  - by eapply later_safe.
Qed.

Lemma safe_then P {A B} (c : Run A) (k : A → Run B) :
  keeps_safe P c → (∀ a, moves later (k a)) → keeps_safe P (x ← c; k x).
Proof.
  intros Hc Hk w Hs HP. rw /mbind /Run_bind. specialize (Hc w Hs HP). destruct (c w) as [[a|] w']; [|done].
  by eapply later_safe; [apply Hk|].
Qed.

Context (Hroot : rooted (rg_root (lp_registry l))) (Hstored : lp_persistent l = true).

(** What stands behind an action that is about to be executed. *)
Definition covered (actionID : string) (action : Action) (t : Tables) : Prop :=
  IsWriteTool (act_Tool action) = true → cleared t actionID action.

Definition ready (actionID : string) (action : Action) (t : Tables) : Prop :=
  covered actionID action t ∧ intended t actionID action.

Lemma covered_kept actionID action t t' : kept t t' → covered actionID action t → covered actionID action t'.
Proof. intros Hk Hc Hw. by eapply cleared_kept, Hc. Qed.

Lemma ready_kept actionID action t t' : kept t t' → ready actionID action t → ready actionID action t'.
Proof. intros Hk [Hc Hi]. split; [by eapply covered_kept|by eapply intended_kept]. Qed.

Lemma safe_execute actionID action : keeps_safe (ready actionID action) (execute_action l action).
Proof.
  intros w [Hk Hs] [Hc Hi]. split; [exact Hk|]. intros rn Hrn. simpl in *.
  destruct (Execute_effect (lp_registry l) (w_observations w) action (w_machine w) Hroot) as [E|(rn' & E & He & _)];
    rw E in Hrn; [by apply Hs|].
  apply elem_of_app in Hrn as [?| ->%list_elem_of_singleton]; [by apply Hs|right].
  exists action, actionID. split_and!; [done..|]. apply Hc, He.
Qed.

Lemma prepared_intended actionID decision reason action plan s id s' :
  PrepareToolAttempt (attempt_intent l task actionID decision reason action plan) s = (inr id, s') →
  intended (tables s') actionID action.
Proof.
  intros (at_ & _ & _ & _ & _ & event & ->)%PrepareToolAttempt_spec. eexists. split_and!.
  - simpl. apply elem_of_app. right. by apply list_elem_of_singleton.
  - done.
  - done.
  - done.
  - done.
Qed.

Lemma safe_prepare actionID decision reason action k :
  (∀ id, keeps_safe (ready actionID action) (k id)) →
  keeps_safe (covered actionID action) (prepare l task actionID decision reason action k).
Proof.
  intros Hk. rw /prepare Hstored. apply safe_bind; [apply later_os, silent_plan|apply covered_kept|]. intros plan w Hs Hc.
  set (c := PrepareToolAttempt (attempt_intent l task actionID decision reason action plan)).
  pose proof (later_prepare_attempt (attempt_intent l task actionID decision reason action plan) w) as Hl.
  rw /durably Hstored /mbind /Run_bind. fold c in Hl |- *. destruct (db c w) as [[[e|id]|] w1] eqn:E; simpl in *; [|apply Hk|].
  - eapply later_safe; [apply later_ends|]. by eapply later_safe.
  - by eapply later_safe.
  - split; [by eapply covered_kept, Hc; destruct Hl|]. apply on_store_inv in E as (s & E & _).
    by eapply prepared_intended.
  - by eapply later_safe.
Qed.

Lemma safe_perform actionID decision reason signature action :
  keeps_safe (covered actionID action) (perform_action l task actionID decision reason signature action).
Proof.
  apply safe_prepare. intros id. apply safe_bind; [apply later_clock|apply ready_kept|]. intros began.
  apply safe_then; [apply safe_execute|]. intros o. later_walk.
Qed.

Lemma safe_guard actionID decision reason early action :
  keeps_safe (covered actionID action) (guard_action l task actionID decision reason early action).
Proof.
  rw /guard_action. apply safe_bind; [rw /probe; later_walk|apply covered_kept|]. intros signature.
  apply safe_bind; [apply moves_local, _|apply covered_kept|]. intros guard.
  case_match; [apply safe_later, later_repeated|apply safe_perform].
Qed.
(** The rest of a run knows nothing of the action. *)
Definition keeps {A} (c : Run A) : Prop := ∀ w, safe w → safe (c w).2.

Lemma keeps_later {A} (c : Run A) : moves later c → keeps c.
Proof. intros Hc w Hs. by eapply later_safe, Hs. Qed.

(** What the first part returned is known to the second. *)
Lemma keeps_bind_known {A B} (c : Run A) (k : A → Run B) :
  keeps c → (∀ w a w1, safe w → c w = (Some a, w1) → safe w1 → safe (k a w1).2) → keeps (x ← c; k x).
Proof.
  intros Hc Hk w Hs. rw /mbind /Run_bind. specialize (Hc w Hs). destruct (c w) as [[a|] w1] eqn:E; [by eapply Hk|done].
Qed.

Lemma keeping_bind {A B} (c : Run A) (k : A → Run B) : keeps c → (∀ a, keeps (k a)) → keeps (x ← c; k x).
Proof. intros Hc Hk. apply keeps_bind_known; [done|]. intros w a w1 _ _. apply Hk. Qed.

Lemma keeps_durably {A} (absent : A) c k :
  moves later (db c) → (∀ a, keeps (k a)) → keeps (durably l task absent c k).
Proof.
  intros Hc Hk. apply keeping_bind; [apply keeps_later; later_walk|]. intros [e|a]; [apply keeps_later; later_walk|apply Hk].
Qed.

Lemma keeps_gate actionID early action : keeps (gate_action l task actionID early action).
Proof.
  apply keeps_bind_known; [apply keeps_later; later_walk|]. intros w [e|outcome] w1 Hs0 E; [apply keeps_later, later_ends|].
  destruct (decision outcome) eqn:Ho.
  - intros Hs. apply safe_guard; [done|]. intros Hw. by eapply evaluatePolicy_cleared; [..|apply Hs0|exact E|].
  - apply keeps_later, later_durably; later_walk.
  - apply (keeps_later (_ ← _; _)). later_walk.
Qed.

Lemma keeps_action action : keeps (handleAction l task action).
Proof.
  rw /handleAction. apply keeping_bind; [apply keeps_later; rw /probe; later_walk|]. intros early.
  apply keeps_durably; [later_walk|]. intros actionID. destruct (IsPolicyGated (act_Tool action)) eqn:Hg; [apply keeps_gate|].
  intros w Hs. apply safe_guard; [done|]. intros Hw. by rw /IsPolicyGated Hw in Hg.
Qed.

Lemma later_admission admission pressure : moves later (classifyAdmission l task admission pressure).
Proof. rw /classifyAdmission /ends_plainly. later_walk. Qed.

Lemma later_attempt_failed execution err deadline : moves later (attempt_failed l task execution err deadline).
Proof. rw /attempt_failed /stopOutcomeForContext. later_walk. Qed.

Lemma keeps_response text : keeps (handle_response l task text).
Proof.
  rw /handle_response. do 2 (apply keeping_bind; [apply keeps_later; later_walk|intros ?]).
  set (parsed := Parse _ text). destruct (res_Failure parsed); [apply keeps_later, later_parse_failure|].
  repeat case_match; try (apply keeps_later, later_ends); [apply keeps_action|apply keeps_later, later_final_response].
Qed.

Lemma keeps_turn deadline : keeps (modelTurn l task deadline).
Proof.
  rw /modelTurn. do 4 (apply keeping_bind; [apply keeps_later; later_walk|intros ?]).
  apply keeping_bind; [apply keeps_later; by intros w|intros pressure].
  apply keeping_bind; [apply keeps_later, later_attempt|intros execution].
  do 2 (apply keeping_bind; [apply keeps_later; later_walk|intros ?]).
  destruct (negb _); [apply keeps_later, later_admission|].
  destruct (ex_Err execution); [apply keeps_later, later_attempt_failed|].
  destruct (String.eqb _ _); [apply keeps_later, later_ends|apply keeps_response].
Qed.

Lemma later_before deadline : moves later (before_turn l task deadline).
Proof. rw /before_turn /ends_plainly /goes_on. later_walk. Qed.

Lemma keeps_loop fuel deadline : keeps (run_loop l task fuel deadline).
Proof.
  induction fuel as [|fuel IH]; [by intros w|]. simpl. apply keeping_bind; [apply keeps_later, later_before|].
  intros [r|]; [by intros w|]. apply keeping_bind; [apply keeps_turn|]. intros [r|]; [by intros w|done].
Qed.

Lemma keeps_run : keeps (RunTask l task).
Proof.
  rw /RunTask /run_with. apply keeping_bind; [apply keeps_later; later_walk|intros startedAt].
  apply keeping_bind; [apply keeps_later; rw /begin_run; later_walk|]. intros [message|]; [by intros w|apply keeps_loop].
Qed.
End effects.

(** C1: the effects of a run with a store.  Whatever the model answers, whatever
    colleagues and other processes do, whichever call fails and wherever the process
    dies: each file that a run of the agent renames into place is the effect of a
    write inside the workspace that the view allows, in the state the action expected;
    and by then the database holds an attempt that carries the tool and the arguments
    of that action, and a decision that allowed it.  The configured mode of the tool
    is to allow it, or to ask for an approval: then the operator approved the very
    fingerprint of the action for the task, in a row that was there when the run began
    or that came with an event in the journal. *)
Theorem RunTask_writes `{Environment, !FileLaws, Hash, Reads, !Commands} `{Disk} `{Codec} `{WallClock} `{LenientParse}
    `{Sorter} `{Decoder} `{Prose} `{MapOrder} `{LoopClock} `{AttemptRunner} `{Colleagues} `{Surveys} `{Texts}
    `{!Considerate} (l : Loop) (task : Task) (w : World) (rn : Renamed) :
  rooted (rg_root (lp_registry l)) → lp_persistent l = true →
  let w' := (RunTask l task w).2 in
  rn ∈ m_renames (w_machine w') →
  rn ∈ m_renames (w_machine w) ∨ authorised l task (tables (w_store w)) (tables (w_store w')) rn.
Proof.
  intros Hroot Hstored w' Hrn.
  by apply (keeps_run l task (tables (w_store w)) (m_renames (w_machine w)) Hroot Hstored w); [split; [|by left]|].
Qed.
