(* ===== verification/LoopReports.v ===== *)
(** * What a run reports

    A result of a run is what the database says of the task: the end of a run and
    the row of the task agree, and a run that reports completion has left behind a
    task that the verifier passed and that nothing holds open. *)

From S2P Require Import Prelude GoTime Policy Verifier Provider Receipts GovTypes Ledger GovState Persist Execute.
From S2P Require Import Text Json TimeText Protocol Recipe Observations Workspace ToolArguments Writing.
From S2P Require Import Reading Search Tools Encode Database WorkUnits Actions ActionLaws AttemptLaws ProviderStore RecoveryStore.
From S2P Require Import Outcomes LoopTypes Loop LoopLaws.

Local Open Scope runstead_scope.

(** ** The row of a task *)

Section database.
Context `{Disk} `{Codec}.

Lemma update_task_ok taskID p f s n s' :
  update_task taskID p f s = (inr n, s') → n ≠ 0%nat →
  ∃ row, tbl_tasks (tables s) !! taskID = Some row ∧ p (tk_status row) = true
    ∧ tables s' = (tables s) <| tbl_tasks ::= insert taskID (f row) |>.
Proof.
  intros E%statement_ok Hn. destruct (tbl_tasks (tables s) !! taskID) as [row|] eqn:Hrow; [|by injection E as <- _].
  destruct (p (tk_status row)) eqn:Hp; injection E as <- E; [|done]. by exists row.
Qed.

(** The row after an update, when nothing but it and the journal changed. *)
Definition row_becomes (taskID : string) (f : TaskRow → TaskRow) (t t' : Tables) : Prop :=
  ∃ row, tbl_tasks t !! taskID = Some row ∧ with_event (t <| tbl_tasks ::= insert taskID (f row) |>) t'.

Lemma row_becomes_gated taskID f t t' id : row_becomes taskID f t t' → gated t id → gated t' id.
Proof. by intros (row & Hrow & event & ->) []. Qed.

(** An update of the row of the task that is noted in the journal. *)
Lemma noted_update taskID p f (e : StoreError) payload at_ s u s' :
  (n ←? update_task taskID p f; _ ←? assert_ (negb (Nat.eqb n 0)) e; appendEvent taskID payload at_) s = (inr u, s') →
  row_becomes taskID f (tables s) (tables s') ∧
  ∃ row, p (tk_status row) = true ∧ tbl_tasks (tables s') !! taskID = Some (f row).
Proof.
  intros E. db_inv. apply update_task_ok in H1 as (row & Hrow & Hp & Ht); [|by apply negb_true_iff, Nat.eqb_neq in H2].
  apply append_with in E. rw Ht in E. split; [by exists row|]. exists row. split; [done|].
  destruct E as [event ->]. by rw /= lookup_insert_eq.
Qed.

Lemma operation_ok {A} (body : string → DB A) s a s' :
  (at_ ←? now; transaction (body at_)) s = (inr a, s') →
  ∃ at_ s1 s2, tables s1 = tables s ∧ body at_ s1 = (inr a, s2) ∧ tables s' = tables s2.
Proof.
  intros (at_ & s0 & Hn%now_ok & (s1 & s2 & E1 & E & E2)%transaction_ok)%check_ok. exists at_, s1, s2. by rw E1 Hn.
Qed.

End database.

(** What the row of a task says when a run ended with the result. *)
Definition row_told `{Codec} (r : Result) (row : TaskRow) : Prop :=
  let says status outcome reason :=
    tk_status row = status ∧ tk_outcome row = outcome ∧ tk_stop_reason row = Redact reason in
  match lr_Outcome r with
  | OutcomeApprovalRequired => says "running"%string "approval_required"%string
      (if String.eqb (lr_PendingActionID r) "" then "waiting for operator approval"
       else "waiting for operator approval: action " +:+ lr_PendingActionID r)%string
  | OutcomeVerificationBlocked => says "running" "verification_blocked" (lr_StopReason r)
  | OutcomePersistencePaused => says "running" "persistence_paused" (lr_StopReason r)
  | outcome => says (terminalStatus (LoopOutcome_String outcome)) (Redact (LoopOutcome_String outcome)) (lr_StopReason r)
      ∧ tk_summary row = Redact (lr_Summary r)
  end%string.

Section reports.
Context `{Environment, Hash, Reads, !Commands} `{Disk} `{Codec} `{WallClock} `{LenientParse} `{Sorter} `{Decoder}
  `{Prose} `{MapOrder} `{LoopClock} `{AttemptRunner} `{Colleagues} `{Surveys} `{Texts}.
Variables (l : Loop) (task : Task).

Lemma finalize_row record s u s' :
  FinalizeTask record s = (inr u, s') → ∃ row, tbl_tasks (tables s') !! tf_TaskID record = Some row
    ∧ tk_status row = terminalStatus (tf_Outcome record) ∧ tk_outcome row = Redact (tf_Outcome record)
    ∧ tk_stop_reason row = Redact (tf_StopReason record) ∧ tk_summary row = Redact (tf_Summary record)
    ∧ (tf_Outcome record = "completed"%string → gated (tables s') (tf_TaskID record)).
Proof.
  intros E. assert (tf_Outcome record = "completed"%string → gated (tables s) (tf_TaskID record)) as Hg.
  { by eapply finalize_gated. }
  apply operation_ok in E as (at_ & s1 & s2 & E1 & E & E2). apply check_ok in E as (v & s3 & Hgates & E).
  assert (tables s3 = tables s1) as E3.
  { destruct (String.eqb _ _); [by apply gates_ok in Hgates as [_ ?]|]. by injection Hgates as _ <-. }
  apply noted_update in E as (Hb & row & _ & Hrow). rw -E2 E3 E1 in Hb. rw -E2 in Hrow.
  eexists. split; [exact Hrow|]. split_and!; [done..|]. intros Ho. by eapply row_becomes_gated, Hg.
Qed.

Lemma marked_row taskID p f (e : StoreError) payload s u s' :
  (at_ ←? now; transaction (n ←? update_task taskID p f; _ ←? assert_ (negb (Nat.eqb n 0)) e;
                            appendEvent taskID payload at_)) s = (inr u, s') →
  ∃ row, p (tk_status row) = true ∧ tbl_tasks (tables s') !! taskID = Some (f row).
Proof.
  intros (at_ & s1 & s2 & _ & [_ ?]%noted_update & ->)%operation_ok. done.
Qed.

Lemma recorded_row outcome r c s u s' :
  lr_Outcome r = outcome → final_record l task outcome r = Some c → c s = (inr u, s') →
  ∃ row, tbl_tasks (tables s') !! ts_ID task = Some row ∧ row_told r row
    ∧ (outcome = OutcomeCompleted → gated (tables s') (ts_ID task)).
Proof.
  intros Hr Hc E. rw /final_record in Hc. destruct (lp_persistent l); [|done]. simpl in Hc. rw /row_told Hr.
  destruct outcome; try (destruct (ts_SkipTaskFinalize task); [done|]); injection Hc as <-.
  all: match type of E with
    | FinalizeTask _ _ = _ =>
      apply finalize_row in E as (row & Hrow & Hs & Ho & Hreason & Hsum & Hg); rw /= Hr in Hs Ho Hg; exists row;
      split_and!; [done..|]; intros ?; try done; by apply Hg
    | _ => idtac
    end.
  - apply marked_row in E as (row & _ & Hrow). eexists. split; [exact Hrow|]. by split.
  - apply marked_row in E as (row & Hp%String.eqb_eq & Hrow). eexists. split; [exact Hrow|].
    split; [|done]. split_and!; [by rw Hp|done..].
  - apply marked_row in E as (row & _ & Hrow). eexists. split; [exact Hrow|]. by split.
Qed.

(** ** Every end of a run *)

(** What the store and others do between a verification and the end of the run. *)
Inductive settling : relation Tables :=
  | settling_foreign n t : settling t (foreign n t)
  | settling_verification record s : settling (tables s) (tables (SaveVerificationAttempt record s).2)
  | settling_final record s : settling (tables s) (tables (FinalizeTask record s).2).

Definition settled (w w' : World) : Prop := rtc settling (tables (w_store w)) (tables (w_store w')).

(** The input of a verification is what the store held: the attempts, of the unit if
    there is one, and the evidence of the task at [t1], its pending approvals at [t2];
    or the store failed to say so. *)
Definition informed (input : Input) (t1 t2 : Tables) : Prop :=
  let id := ts_ID task in
  (in_ToolAttempts input = filter (λ a, ts_WorkUnitID task = "" ∨ ra_WorkUnitID a = ts_WorkUnitID task)%string
                             (recovery_tool_attempts t1 id)
   ∧ in_Evidence input = recovery_evidence t1 id
   ∧ (in_PendingApprovals input = pa_ActionID <$> pending_rows t2 id
      ∨ ∃ s e, tables s = t2 ∧ (PendingApprovals id s).1 = inl e))
  ∨ ∃ s e, tables s = t1 ∧ (LoadRecoverySnapshot id s).1 = inl e.

(** The verifier passed the proposal that the result cites, on the plan of the task
    and on what the store held; since then the run has recorded the verification and
    the end of the task, and nothing else. *)
Definition verified (r : Result) (w : World) : Prop :=
  ∃ n final input t1 t2,
    let report := Verify (verify_now n) (Some (Verifier.New (observer_at n) (lp_plan l))) input in
    rp_Decision report = DecisionPassed ∧ lr_Summary r = rp_Summary report
    ∧ in_TaskID input = ts_ID task ∧ in_Plan input = lp_plan l
    ∧ (λ c, (ec_EvidenceID c, ec_Tool c)) <$> in_FinalEvidence input = (λ c, (ev_EvidenceID c, ev_Tool c)) <$> fin_Evidence final
    ∧ (lr_Note r = fin_Summary final ∧ lr_Evidence r = Some (ev_EvidenceID <$> fin_Evidence final))
    ∧ informed input t1 t2 ∧ rtc settling t1 t2 ∧ rtc settling t2 (tables (w_store w)).

(** Whether the end of a run is written to the row of its task: a unit that runs on
    behalf of another task records only that it paused. *)
Definition on_record (r : Result) : Prop :=
  ts_SkipTaskFinalize task = false
  ∨ lr_Outcome r ∈ [OutcomeApprovalRequired; OutcomeVerificationBlocked; OutcomePersistencePaused].

Definition told (r : Result) (w : World) : Prop :=
  lr_Outcome r = OutcomePersistenceFailure ∨
  (on_record r → ∃ row, tbl_tasks (tables (w_store w)) !! ts_ID task = Some row ∧ row_told r row
     ∧ (lr_Outcome r = OutcomeCompleted → gated (tables (w_store w)) (ts_ID task)))
  ∧ (lr_Outcome r = OutcomeCompleted → verified r w).

(** Whatever result a computation ends a run with is told. *)
Definition ending (c : Run (option Result)) : Prop := ∀ w r w', c w = (Some (Some r), w') → told r w'.

Lemma ending_goes_on : ending goes_on.
Proof. by intros w r w' [=]. Qed.

Lemma ending_bind {A} (c : Run A) k : (∀ a, ending (k a)) → ending (x ← c; k x).
Proof. intros Hk w r w' (a & w1 & _ & E)%run_bind_inv. by eapply Hk. Qed.

Context (Hstored : lp_persistent l = true).

#[local] Instance settled_preorder : PreOrder settled.
Proof. split; [by intros w; apply rtc_refl|]. intros w1 w2 w3 E1 E2. rw /settled. by etrans. Qed.

Lemma settled_os {A} (c : Cmd A) : moves settled (os c).
Proof. intros w. apply rtc_refl. Qed.

Lemma settled_emit line : moves settled (emit line).
Proof. intros w. apply rtc_refl. Qed.

Lemma settled_db {A} (c : DB A) : (∀ s, rtc settling (tables s) (tables (c s).2)) → moves settled (db c).
Proof.
  intros Hc. rw /db /on_store. apply moves_bind; [apply _|apply settled_os|]. intros _ w. rw /settled /=.
  eapply rtc_l; [apply (settling_foreign (m_calls (w_machine w)))|]. exact (Hc (_ <| tables ::= _ |>)).
Qed.

Lemma settled_stop reason extra :
  (∀ r, lr_Outcome (extra r) = lr_Outcome r) → moves settled (stop l task OutcomeCompleted reason extra).
Proof.
  intros Hx. rw /stop. apply moves_bind; [apply _|apply moves_local, _|]. intros s.
  apply moves_bind; [apply _| |].
  - rw /final_record. destruct (lp_persistent l); [|by apply moves_ret, _]. simpl.
    destruct (ts_SkipTaskFinalize task); [by apply moves_ret, _|]. apply settled_db. intros s'. apply rtc_once, settling_final.
  - intros recorded. apply moves_bind; [apply _|apply settled_emit|]. intros u. by apply moves_ret, _.
Qed.

(** The end of a run at a world from which a completion is known to be verified. *)
Lemma ends_told_at outcome reason extra w :
  (∀ r, lr_Outcome (extra r) = lr_Outcome r) →
  (outcome = OutcomeCompleted → ∀ s w', settled w w' → verified (extra (result_of outcome reason s)) w') →
  ∀ r w', ends l task outcome reason extra w = (Some (Some r), w') → told r w'.
Proof.
  intros Hx Hv r w' E. rw /ends in E. apply run_bind_inv in E as (r1 & w1 & E & E1). injection E1 as <- <-.
  assert (outcome = OutcomeCompleted → settled w w1) as Hset.
  { intros ->. pose proof (settled_stop reason extra Hx w) as Hs. by rw E in Hs. }
  rw /stop in E. apply run_bind_inv in E as (s & w2 & _ & E). set (r0 := extra (result_of outcome reason s)) in E.
  apply run_bind_inv in E as (recorded & w3 & Hrec & E). apply run_bind_inv in E as (u & w4 & Hemit & E).
  injection E as <- <-. assert (w_store w4 = w_store w3) as Hw. { by injection Hemit as _ <-. }
  assert (lr_Outcome r0 = OutcomeCompleted → verified r0 w4) as Hver.
  { rw Hx /=. intros Ho. by apply Hv; [|apply Hset]. }
  rw /told. destruct recorded as [e|u']; [by left|right]. split; [|exact Hver]. rw Hw.
  destruct (final_record l task outcome r0) as [c|] eqn:Hc.
  - intros _. apply run_bind_inv in Hrec as (v & w5 & _ & Hrec).
    injection Hrec as Hrec Hw3. destruct (c _) as [res s'] eqn:Hrun; simpl in *. subst res.
    rw -Hw3. simpl. destruct (recorded_row outcome r0 c _ _ _ (Hx _) Hc Hrun) as (row & Hrow & Htold & Hg).
    exists row. split_and!; [done..|]. rw Hx /=. exact Hg.
  - rw /final_record Hstored /= in Hc. rw /on_record Hx /=. intros [Hskip|Hp].
    + rw Hskip in Hc. by destruct outcome.
    + exfalso. rw !elem_of_cons in Hp. destruct Hp as [->|[->|[->|Hp]]]; [done..|by apply elem_of_nil in Hp].
Qed.

Lemma ends_otherwise outcome reason extra :
  outcome ≠ OutcomeCompleted → (∀ r, lr_Outcome (extra r) = lr_Outcome r) → ending (ends l task outcome reason extra).
Proof. intros Ho Hx w r w'. by apply ends_told_at. Qed.

Lemma ending_durably {A} (absent : A) c k : (∀ a, ending (k a)) → ending (durably l task absent c k).
Proof. intros Hk. rw /durably. apply ending_bind. intros [e|a]; [by apply ends_otherwise|apply Hk]. Qed.

Ltac ending_walk := repeat first
  [ progress intros
  | match goal with
    | |- ending goes_on => apply ending_goes_on
    | |- ending (ends _ _ _ _ _) => apply ends_otherwise; [done|by intros]
    | |- ending (durably _ _ _ _ _) => apply ending_durably
    | |- ending (mbind _ _) => apply ending_bind
    end
  | solve [eauto 2]
  | case_match ].

Lemma ending_correct code message n : ending (correct code message n).
Proof. rw /correct. ending_walk. Qed.
#[local] Hint Resolve ending_correct : core.

Lemma ending_policy_correction tool outcome : ending (policyCorrection l task tool outcome).
Proof. rw /policyCorrection. ending_walk. Qed.

Lemma ending_parse_failure failure : ending (handleParseFailure l task failure).
Proof. rw /handleParseFailure. ending_walk. Qed.

Lemma ending_repeated actionID : ending (reject_repeated l task actionID).
Proof. rw /reject_repeated /ends_plainly. ending_walk. Qed.

Lemma ending_settle action signature o : ending (settle l task action signature o).
Proof. rw /settle. ending_walk. Qed.
#[local] Hint Resolve ending_policy_correction ending_parse_failure ending_repeated ending_settle : core.

Lemma ending_perform actionID decision reason signature action :
  ending (perform_action l task actionID decision reason signature action).
Proof. rw /perform_action /prepare Hstored. ending_walk. Qed.
#[local] Hint Resolve ending_perform : core.

Lemma ending_guard actionID decision reason early action :
  ending (guard_action l task actionID decision reason early action).
Proof. rw /guard_action. ending_walk. Qed.
#[local] Hint Resolve ending_guard : core.

Lemma ending_action action : ending (handleAction l task action).
Proof. rw /handleAction /gate_action. ending_walk. Qed.

Lemma snapshot_reads id s snapshot s' :
  LoadRecoverySnapshot id s = (inr snapshot, s') →
  sn_ToolAttempts snapshot = recovery_tool_attempts (tables s) id ∧ sn_Evidence snapshot = recovery_evidence (tables s) id.
Proof.
  intros E. rw /LoadRecoverySnapshot in E.
  apply check_ok in E as (row & s1 & Erow & E). apply check_ok in E as (actions & s2 & [-> E2]%query_ok & E).
  apply check_ok in E as (attempts & s3 & [-> E3]%query_ok & E). apply check_ok in E as (providers & s4 & Eprov & E).
  apply check_ok in E as (evidence & s5 & [-> _]%query_ok & E).
  do 4 apply check_ok in E as (? & ? & _ & E). injection E as <- _. simpl.
  assert (tables s1 = tables s) as E1.
  { assert (within eq (loadRecoveryTask id)) as Hw by (rw /loadRecoveryTask; db_walk).
    specialize (Hw s). by rw Erow in Hw. }
  assert (tables s4 = tables s3) as E4.
  { assert (within eq (loadRecoveryProviderAttempts id)) as Hw by (rw /loadRecoveryProviderAttempts; db_walk).
    specialize (Hw s3). by rw Eprov in Hw. }
  by rw E4 E3 E2 E1.
Qed.

Lemma snapshot_looks id s : tables (LoadRecoverySnapshot id s).2 = tables s.
Proof.
  assert (within eq (LoadRecoverySnapshot id)) as Hw; [|by rw -Hw].
  rw /LoadRecoverySnapshot /loadRecoveryTask /loadRecoveryProviderAttempts /AcceptancePlan /WorkspaceBaseline
    /VerificationAttempts /loadVerificationChecks /loadRecoveryWorkUnits /workUnitDependencies. db_walk.
Qed.

Lemma pending_looks id s : tables (PendingApprovals id s).2 = tables s.
Proof. assert (within eq (PendingApprovals id)) as Hw by apply (within_query eq). by rw -Hw. Qed.

(** The store that a call sees. *)
Lemma db_seen {A} (c : DB A) w r w' :
  db c w = (Some r, w') → ∃ s, c s = (r, w_store w') ∧ settling (tables (w_store w)) (tables s).
Proof.
  intros (u & w1 & Hl & Hc)%run_bind_inv. assert (w_store w1 = w_store w) as <- by (by injection Hl as _ <-).
  injection Hc as <- <-. exists ((w_store w1) <| tables ::= foreign (m_calls (w_machine w1)) |>).
  split; [by simpl; destruct (c _)|]. apply settling_foreign.
Qed.

Lemma filter_everything {A} (P : A → Prop) `{∀ x, base.Decision (P x)} (xs : list A) : (∀ x, P x) → filter P xs = xs.
Proof. intros Hall. induction xs as [|x xs IH]; [done|]. by rw filter_cons_True // IH. Qed.

Definition claims_of (input : Input) : list (string * string) := (λ c, (ec_EvidenceID c, ec_Tool c)) <$> in_FinalEvidence input.

Lemma verification_input_informed final w input w' :
  verification_input l task final w = (Some input, w') →
  in_TaskID input = ts_ID task ∧ in_Plan input = lp_plan l
  ∧ claims_of input = (λ c, (ev_EvidenceID c, ev_Tool c)) <$> fin_Evidence final
  ∧ ∃ t1, informed input t1 (tables (w_store w')) ∧ rtc settling t1 (tables (w_store w')).
Proof.
  rw /verification_input Hstored. intros (loaded & w1 & E1 & E)%run_bind_inv.
  apply db_seen in E1 as (s & Es & _). pose proof (snapshot_looks (ts_ID task) s) as Hs. rw Es /= in Hs.
  destruct loaded as [e|snapshot].
  - injection E as <- <-. rw /claims_of /= -list_fmap_compose. split_and!; [done..|]. exists (tables s).
    split; [right; exists s, e; by rw Es|by rw Hs].
  - apply run_bind_inv in E as (pending & w2 & E2 & E). injection E as <- <-.
    apply db_seen in E2 as (s2 & Es2 & Hstep). pose proof (pending_looks (ts_ID task) s2) as Hs2. rw Es2 /= in Hs2.
    rw /claims_of /= -list_fmap_compose. split_and!; [done..|]. exists (tables s). rw Hs in Hstep. rw Hs2.
    split; [left|by apply rtc_once]. simpl. apply snapshot_reads in Es as [-> ->]. split_and!; [|done|].
    + destruct (String.eqb_spec (ts_WorkUnitID task) "") as [->|Hne].
      * symmetry. apply filter_everything. by left.
      * apply list_filter_iff. intros a. split; [by right|by intros [?|?]].
    + destruct pending as [e|items]; [right; exists s2, e; by rw Es2|left].
      apply query_ok in Es2 as [-> _]. done.
Qed.

Lemma verifyCompletion_passed final w report w' :
  verifyCompletion l task final w = (Some report, w') → rp_Decision report = DecisionPassed →
  ∃ n input t1 t2, report = Verify (verify_now n) (Some (Verifier.New (observer_at n) (lp_plan l))) input
    ∧ (in_TaskID input = ts_ID task ∧ in_Plan input = lp_plan l
       ∧ claims_of input = (λ c, (ev_EvidenceID c, ev_Tool c)) <$> fin_Evidence final)
    ∧ informed input t1 t2 ∧ rtc settling t1 t2 ∧ rtc settling t2 (tables (w_store w')).
Proof.
  intros E Hd. rw /verifyCompletion in E. apply run_bind_inv in E as (input & w1 & Hi & E).
  apply run_bind_inv in E as (report' & w2 & Hv & E). apply run_bind_inv in E as (recorded & w3 & Hrec & E).
  injection E as <- <-. destruct recorded as [e|u]; [done|].
  apply verification_input_informed in Hi as (Hid & Hplan & Hclaims & t1 & Hin & Ht1).
  rw /verify /os /at_call in Hv. destruct (syscall _ _) as [r m] eqn:Hs. injection Hv as -> Hw2. simpl in *.
  rw /syscall in Hs. destruct (crashes _); [done|]. injection Hs as <- _. eexists _, input, t1, (tables (w_store w1)).
  split_and!; [done..|]. rw Hstored in Hrec. apply db_seen in Hrec as (s & Es & Hstep). rw -Hw2 /= in Hstep.
  eapply rtc_l; [exact Hstep|]. apply rtc_once.
  match type of Es with SaveVerificationAttempt ?record s = _ => pose proof (settling_verification record s) as Hr end.
  by rw Es in Hr.
Qed.

Lemma ending_refuse report final missing : ending (refuse_completion l task report final missing).
Proof. rw /refuse_completion /not_grounded. ending_walk. Qed.

Lemma ending_propose final missing : ending (propose_completion l task final missing).
Proof.
  intros w r w' E. rw /propose_completion in E. apply run_bind_inv in E as (report & w1 & Hv & E).
  apply run_bind_inv in E as (u & w2 & Hemit & E). destruct (bool_decide _) eqn:Hd; [|by eapply ending_refuse].
  apply bool_decide_eq_true in Hd.
  destruct (verifyCompletion_passed _ _ _ _ Hv Hd) as (n & input & t1 & t2 & -> & (Hid & Hplan & Hclaims) & Hin & Ht1 & Ht2).
  assert (w_store w2 = w_store w1) as Hw by (by injection Hemit as _ <-). rw -Hw in Ht2.
  revert E. apply ends_told_at; [done|]. intros _ s w3 Hw3. exists n, final, input, t1, t2. split_and!; try done.
  by etrans.
Qed.
#[local] Hint Resolve ending_propose : core.

Lemma ending_final final : ending (handleFinal l task final).
Proof. rw /handleFinal /not_grounded. ending_walk. Qed.

Lemma ending_attempt_failed execution err deadline : ending (attempt_failed l task execution err deadline).
Proof. rw /attempt_failed /stopOutcomeForContext. ending_walk. Qed.

Lemma ending_admission admission pressure : ending (classifyAdmission l task admission pressure).
Proof. rw /classifyAdmission /ends_plainly. destruct (GovTypes.Code admission); try destruct pressure; ending_walk. Qed.
#[local] Hint Resolve ending_action ending_final ending_attempt_failed ending_admission : core.

Lemma ending_turn deadline : ending (modelTurn l task deadline).
Proof. rw /modelTurn /handle_response. ending_walk. Qed.

Lemma ending_before deadline : ending (before_turn l task deadline).
Proof. rw /before_turn /ends_plainly. ending_walk. Qed.

Lemma ending_loop fuel deadline : ending (run_loop l task fuel deadline).
Proof.
  induction fuel as [|fuel IH]; [by intros w r w' [=]|]. intros w r w' E. simpl in E.
  apply run_bind_inv in E as (stopped & w1 & Hb & E). destruct stopped as [r0|].
  { injection E as -> ->. by eapply ending_before. }
  apply run_bind_inv in E as (turn & w2 & Ht & E). destruct turn as [r0|]; [|by eapply IH].
  injection E as -> ->. by eapply ending_turn.
Qed.

Lemma ending_run : ending (RunTask l task).
Proof.
  rw /RunTask /run_with. apply ending_bind. intros startedAt. apply ending_bind. intros [message|]; [|apply ending_loop].
  intros w r w' [= <- <-]. by left.
Qed.
End reports.

(** C2: what a run with a store tells.  Whatever happens around it: a run returns a
    failure of persistence, or a result that is on record.  The row of the task, unless
    the task is a unit that leaves its final outcome to others, says the same as the
    result: it is still running after a pause, with the reason that waits for the
    operator or for recovery, and otherwise it has the final status, the outcome, the
    reason and the summary of the result; a task that says completion has no open unit,
    no pending approval and a last verification that passed.  And whenever the result
    is completion, the verifier has passed exactly the proposal that the result cites,
    on the plan of the task and on the attempts, the evidence and the pending approvals
    that the store then held (unless reading them failed), and between that and the end of the run only the
    verification and the end of the task have been recorded. *)
Theorem RunTask_told `{Environment, Hash, Reads, !Commands} `{Disk} `{Codec} `{WallClock} `{LenientParse} `{Sorter}
    `{Decoder} `{Prose} `{MapOrder} `{LoopClock} `{AttemptRunner} `{Colleagues} `{Surveys} `{Texts}
    (l : Loop) (task : Task) w r w' :
  lp_persistent l = true → RunTask l task w = (Some (Some r), w') →
  lr_Outcome r = OutcomePersistenceFailure ∨
  (on_record task r → ∃ row, tbl_tasks (tables (w_store w')) !! ts_ID task = Some row ∧ row_told r row
     ∧ (lr_Outcome r = OutcomeCompleted → gated (tables (w_store w')) (ts_ID task)))
  ∧ (lr_Outcome r = OutcomeCompleted → verified l task r w').
Proof. intros Hstored. by apply ending_run. Qed.
