(* ===== verification/LoopBudgets.v ===== *)
(** * The budgets of a run

    A run ends: it takes no more turns than its limits, or what it was resumed
    with, allow; each turn makes one provider attempt; and corrections stay within
    their allowance. *)

From S2P Require Import Prelude GoTime Policy Verifier Provider Receipts GovTypes Ledger GovState Persist Execute.
From S2P Require Import Text Json TimeText Database WorkUnits Protocol Recipe Observations Workspace ToolArguments Writing.
From S2P Require Import Reading Search Tools Encode Actions ProviderStore RecoveryStore Outcomes LoopTypes Loop LoopLaws.

Local Open Scope runstead_scope.

Create HintDb steady discriminated.

Section budgets.
Context `{Environment, Hash, Reads, !Commands} `{Disk} `{Codec} `{WallClock} `{LenientParse} `{Sorter} `{Decoder}
  `{Prose} `{MapOrder} `{LoopClock} `{AttemptRunner} `{Colleagues} `{Surveys} `{Texts}.
Variables (l : Loop) (task : Task).

(** The provider attempts that the trace shows. *)
Definition attempts_traced (w : World) : nat :=
  length (filter (λ line, tl_Kind line = TraceAttempt) (w_trace w)).

(** What a sequence of provider attempts returns, and what it makes of the runner. *)
Inductive asked : list ExecutionResult → runner → runner → Prop :=
  | asked_nothing r : asked [] r r
  | asked_once request n r s e r1 s1 es r' :
      execute_attempt request n r s = (Some e, r1, s1) → asked es r1 r' → asked (e :: es) r r'.

(** An answer that is no envelope the protocol accepts. *)
Definition malformed (e : ExecutionResult) : bool :=
  let text := match ex_Response e with Some response => resp_Text response | None => "" end%string in
  Admitted_ (ex_Admission e) && negb (bool_decide (is_Some (ex_Err e))) && negb (String.eqb (TrimSpace text) "")
  && bool_decide (is_Some (res_Failure (Parse (Some (registry_catalog (lp_registry l))) text))).

(** ** Within a turn *)

(** Nothing is charged, no attempt is made, and corrections are counted within
    their allowance. *)
Definition steady (w w' : World) : Prop :=
  lo_turns (w_locals w') = lo_turns (w_locals w) ∧ lo_attempts (w_locals w') = lo_attempts (w_locals w)
  ∧ (attempts_traced w' = attempts_traced w ∧ w_runner w' = w_runner w
     ∧ (lo_corrections (w_locals w) ≤ lo_corrections (w_locals w'))%Z)
  ∧ (lo_corrections (w_locals w) ≤ MaxCorrections (lp_limits l) →
     lo_corrections (w_locals w') ≤ MaxCorrections (lp_limits l))%Z.

#[local] Instance steady_preorder : PreOrder steady.
Proof. split; [done|]. intros w1 w2 w3 (? & ? & (? & ? & ?) & ?) (? & ? & (? & ? & ?) & ?). split_and!; solve [congruence|lia|auto]. Qed.

Lemma steady_set_local f :
  (∀ s, lo_turns (f s) = lo_turns s ∧ lo_attempts (f s) = lo_attempts s ∧ lo_corrections (f s) = lo_corrections s) →
  moves steady (set_local f).
Proof.
  intros Hf w. destruct (Hf (w_locals w)) as (? & ? & E). split_and!; [done..|by rw /= E|by rw /= E].
Qed.

Lemma steady_locals {A} (c : Run A) :
  (∀ w, w_locals (c w).2 = w_locals w ∧ w_trace (c w).2 = w_trace w ∧ w_runner (c w).2 = w_runner w) → moves steady c.
Proof. intros Hc w. destruct (Hc w) as (E1 & E2 & E3). by rw /steady /attempts_traced E1 E2 E3. Qed.

Lemma steady_clock : moves steady clock_now.
Proof. by apply steady_locals. Qed.
Lemma steady_context : moves steady ctx_error.
Proof. by apply steady_locals. Qed.
Lemma steady_os {A} (c : Cmd A) : moves steady (os c).
Proof. by apply steady_locals. Qed.
Lemma steady_elapse : moves steady elapse.
Proof. apply steady_os. Qed.
Lemma steady_on_store {A} (c : Store → A * Store) : moves steady (on_store c).
Proof. rw /on_store. apply moves_bind; [apply _|apply steady_elapse|]. intros _. by apply steady_locals. Qed.
Lemma steady_db {A} (c : DB A) : moves steady (db c).
Proof. apply steady_on_store. Qed.
Lemma steady_say f : moves steady (say f).
Proof. by apply steady_set_local. Qed.

Lemma steady_emit line : tl_Kind line ≠ TraceAttempt → moves steady (emit line).
Proof.
  intros Hl. rw /emit. apply moves_bind; [apply _|by apply steady_set_local|]. intros _.
  apply moves_bind; [apply _|apply moves_local, _|]. intros sequence w. split_and!; try done.
  rw /attempts_traced /= filter_app. by rw filter_cons_False // filter_nil app_nil_r.
Qed.

#[local] Hint Constants Opaque : steady.
#[local] Hint Resolve steady_clock steady_context steady_os steady_elapse steady_on_store steady_db
  steady_say : steady.

Ltac steady_leaf := idtac; match goal with
  | |- moves _ (emit _) => apply steady_emit; let E := fresh in intros E; lazy in E; discriminate E
  | |- moves _ (set_local _) => by apply steady_set_local
  | _ => auto with steady nocore
  end.
Ltac steady_walk := run_walk ltac:(steady_leaf).

(** A result shows what was charged before. *)
Definition charged (w : World) (r : Result) : Prop :=
  lr_Turns r = lo_turns (w_locals w) ∧ lr_Attempts r = lo_attempts (w_locals w)
  ∧ (lo_corrections (w_locals w) ≤ lr_Corrections r)%Z
  ∧ (lo_corrections (w_locals w) ≤ MaxCorrections (lp_limits l) → lr_Corrections r ≤ MaxCorrections (lp_limits l))%Z.

Lemma charged_steady w w' r : steady w w' → charged w' r → charged w r.
Proof.
  intros (E1 & E2 & (_ & _ & E3) & Hc) (R1 & R2 & R3 & R4). split_and!; [congruence..|lia|]. intros Hle. by apply R4, Hc.
Qed.

(** A part of a turn. *)
Definition part_at (c : Run (option Result)) (w : World) : Prop :=
  steady w (c w).2 ∧ ∀ r w', c w = (Some (Some r), w') → charged w r.
Definition part (c : Run (option Result)) : Prop := ∀ w, part_at c w.

Lemma part_bind {A} (c : Run A) k : moves steady c → (∀ a, part (k a)) → part (x ← c; k x).
Proof.
  intros Hc Hk w. specialize (Hc w). rw /part_at /mbind /Run_bind. destruct (c w) as [[a|] w1]; [|done].
  destruct (Hk a w1) as [Hs Hr]. split; [by etrans|]. intros r w' E. by eapply charged_steady, Hr.
Qed.

Lemma part_goes_on : part goes_on.
Proof. by intros w. Qed.

Lemma steady_stop outcome reason extra : moves steady (stop l task outcome reason extra).
Proof. rw /stop. steady_walk. Qed.

Lemma part_ends outcome reason extra :
  (∀ r, lr_Turns (extra r) = lr_Turns r ∧ lr_Attempts (extra r) = lr_Attempts r ∧ lr_Corrections (extra r) = lr_Corrections r) →
  part (ends l task outcome reason extra).
Proof.
  intros Hx w. split.
  - apply (moves_bind steady); [apply steady_stop|]. intros r. by apply moves_ret, _.
  - intros r w' E. apply run_bind_inv in E as (r1 & w1 & E & E1). injection E1 as <- <-.
    apply run_bind_inv in E as (s & w2 & Hs & E). injection Hs as <- <-.
    apply run_bind_inv in E as (recorded & w3 & _ & E). apply run_bind_inv in E as (u & w4 & _ & E).
    injection E as <- _. destruct (Hx (result_of outcome reason (w_locals w))) as (E1 & E2 & E3).
    destruct recorded; rw /charged /= E1 E2 E3; split_and!; done.
Qed.

Lemma part_durably {A} (absent : A) c k : (∀ a, part (k a)) → part (durably l task absent c k).
Proof.
  intros Hk. rw /durably. apply part_bind; [steady_walk|]. intros [e|a]; [by apply part_ends|apply Hk].
Qed.

Ltac part_walk := repeat first
  [ progress intros
  | match goal with
    | |- part goes_on => apply part_goes_on
    | |- part (ends _ _ _ _ _) => apply part_ends; by intros
    | |- part (durably _ _ _ _ _) => apply part_durably
    | |- part (mbind _ _) => apply part_bind; [solve [steady_walk]|]
    end
  | solve [eauto 2]
  | case_match ].

(** One correction is spent. *)
Lemma part_spend k w :
  (lo_corrections (w_locals w) < MaxCorrections (lp_limits l))%Z → part k →
  part_at (_ ← set_local (λ s, s <| lo_corrections ::= Z.succ |>); k) w.
Proof.
  intros Hlt Hk. set (w1 := w <| w_locals ::= λ s, s <| lo_corrections ::= Z.succ |> |>).
  assert (steady w w1) as Hw by (split_and!; try done; simpl; lia).
  destruct (Hk w1) as [Hs Hr]. split; [by etrans|]. intros r w' E. by eapply charged_steady, Hr.
Qed.

Lemma part_correct code message n : part (correct code message n).
Proof. rw /correct. part_walk. Qed.
#[local] Hint Resolve part_correct : core.

Lemma part_local {A} (f : Locals → A) k w : part_at (k (f (w_locals w))) w → part_at (x ← local f; k x) w.
Proof. done. Qed.

Lemma part_policy_correction tool outcome : part (policyCorrection l task tool outcome).
Proof.
  intros w. rw /policyCorrection. apply part_local. destruct (_ <=? _)%Z eqn:E; [by apply part_ends|].
  apply part_spend; [lia|apply part_correct].
Qed.

Lemma part_parse_failure failure : part (handleParseFailure l task failure).
Proof.
  intros w. rw /handleParseFailure. apply part_local. destruct (_ || _) eqn:E; [by apply part_ends|].
  apply orb_false_iff in E as [_ E]. apply part_spend; [lia|]. part_walk.
Qed.

Lemma part_repeated actionID : part (reject_repeated l task actionID).
Proof. rw /reject_repeated /ends_plainly. part_walk. Qed.

Lemma part_settle action signature o : part (settle l task action signature o).
Proof. rw /settle. part_walk. Qed.
#[local] Hint Resolve part_policy_correction part_parse_failure part_repeated part_settle : core.

Lemma steady_execute action : moves steady (execute_action l action).
Proof. by apply steady_locals. Qed.
#[local] Hint Resolve steady_execute : steady.

Lemma part_perform actionID decision reason signature action :
  part (perform_action l task actionID decision reason signature action).
Proof. rw /perform_action /prepare. destruct (lp_persistent l); cbv beta; part_walk. Qed.
#[local] Hint Resolve part_perform : core.

Lemma part_guard actionID decision reason early action :
  part (guard_action l task actionID decision reason early action).
Proof. rw /guard_action /probe. part_walk. Qed.
#[local] Hint Resolve part_guard : core.

Lemma steady_policy actionID action : moves steady (evaluatePolicy l task actionID action).
Proof. rw /evaluatePolicy /consult. destruct (policy_request l task actionID action). steady_walk. Qed.
#[local] Hint Resolve steady_policy : steady.

Lemma part_action action : part (handleAction l task action).
Proof. rw /handleAction /gate_action /probe. part_walk. Qed.

Lemma steady_verify final : moves steady (verifyCompletion l task final).
Proof. rw /verifyCompletion /verification_input /verify. steady_walk. Qed.
#[local] Hint Resolve steady_verify : steady.

Lemma part_final final : part (handleFinal l task final).
Proof. rw /handleFinal /propose_completion /refuse_completion /not_grounded. part_walk. Qed.

Lemma part_attempt_failed execution err deadline : part (attempt_failed l task execution err deadline).
Proof. rw /attempt_failed /stopOutcomeForContext. part_walk. Qed.

Lemma part_admission admission pressure : part (classifyAdmission l task admission pressure).
Proof. rw /classifyAdmission /ends_plainly. destruct (GovTypes.Code admission); try destruct pressure; part_walk. Qed.
#[local] Hint Resolve part_action part_final part_attempt_failed part_admission : core.

Lemma part_response text : part (handle_response l task text).
Proof. rw /handle_response. part_walk. Qed.

(** What a turn makes of the attempt. *)
Lemma part_attempt execution pressure deadline :
  part (if negb (Admitted_ (ex_Admission execution)) then classifyAdmission l task (ex_Admission execution) pressure
    else
      match ex_Err execution with
      | Some err => attempt_failed l task execution err deadline
      | None =>
        let text := match ex_Response execution with Some response => resp_Text response | None => "" end in
        if String.eqb (TrimSpace text) "" then
          ends l task OutcomeProviderFailure "provider failure: empty_response"
            (λ r, r <| lr_Classification := "empty_response"%string |>)
        else handle_response l task text
      end).
Proof.
  destruct (negb _); [apply part_admission|]. destruct (ex_Err execution); [apply part_attempt_failed|].
  simpl. destruct (String.eqb _ _); [by apply part_ends|apply part_response].
Qed.

Lemma part_before deadline : part (before_turn l task deadline).
Proof. rw /before_turn /ends_plainly. part_walk. Qed.

(** ** Turns *)

(** One turn and one attempt are charged, and the attempt is made. *)
Definition turned (e : ExecutionResult) (w w' : World) : Prop :=
  lo_turns (w_locals w') = (lo_turns (w_locals w) + 1)%Z ∧ lo_attempts (w_locals w') = (lo_attempts (w_locals w) + 1)%Z
  ∧ (attempts_traced w' = S (attempts_traced w) ∧ asked [e] (w_runner w) (w_runner w')
     ∧ lo_corrections (w_locals w') = lo_corrections (w_locals w)).

Lemma moves_inv {A} (c : Run A) w a w' : moves steady c → c w = (Some a, w') → steady w w'.
Proof. intros Hc E. specialize (Hc w). by rw E in Hc. Qed.

(** The part of a turn up to its trace line. *)
Lemma attempt_emitted line w u w' :
  tl_Kind line = TraceAttempt → emit line w = (Some u, w') →
  w_locals w' = (w_locals w) <| lo_sequence ::= Z.succ |> ∧ attempts_traced w' = S (attempts_traced w).
Proof.
  intros Hl E. injection E as _ <-. split; [done|]. rw /attempts_traced /= filter_app length_app.
  rw filter_cons_True // filter_nil /=. lia.
Qed.

Lemma attempt_asked request w e w' :
  provider_attempt request w = (Some e, w') →
  asked [e] (w_runner w) (w_runner w') ∧ w_locals w' = w_locals w ∧ attempts_traced w' = attempts_traced w.
Proof.
  intros (u & w1 & Ea & E)%run_bind_inv. injection Ea as _ <-. injection E as E <-. simpl. split; [|done].
  destruct (execute_attempt _ _ _ _) as [[o r1] s1] eqn:Ex. simpl in E |- *. subst o. by econstructor; [exact Ex|constructor].
Qed.

(** What follows an attempt in its turn. *)
Definition follow_up (execution : ExecutionResult) (pressure : bool) (deadline : Time) : Run (option Result) :=
  if negb (Admitted_ (ex_Admission execution)) then classifyAdmission l task (ex_Admission execution) pressure
  else
    match ex_Err execution with
    | Some err => attempt_failed l task execution err deadline
    | None =>
      let text := match ex_Response execution with Some response => resp_Text response | None => "" end in
      if String.eqb (TrimSpace text) "" then
        ends l task OutcomeProviderFailure "provider failure: empty_response"
          (λ r, r <| lr_Classification := "empty_response"%string |>)
      else handle_response l task text
    end.

(** A malformed answer costs a correction, or ends the run. *)
Lemma parse_failure_pays failure w w' :
  handleParseFailure l task failure w = (Some None, w') →
  (lo_corrections (w_locals w) + 1 ≤ lo_corrections (w_locals w'))%Z.
Proof.
  rw /handleParseFailure. intros (c & w1 & Ea & E)%run_bind_inv. injection Ea as <- <-.
  destruct (_ || _); [by apply run_bind_inv in E as (r & w2 & _ & [=])|].
  apply run_bind_inv in E as (u & w2 & Eb & E). injection Eb as _ <-.
  destruct (GenerateCorrectionMessage _ _) as [message|]; [|by apply run_bind_inv in E as (r & w2 & _ & [=])].
  apply moves_inv in E as (_ & _ & (_ & _ & Hc) & _); [|rw /correct /goes_on; steady_walk]. simpl in Hc. lia.
Qed.

Lemma malformed_pays e pressure deadline w w' :
  malformed e = true → follow_up e pressure deadline w = (Some None, w') →
  (lo_corrections (w_locals w) + 1 ≤ lo_corrections (w_locals w'))%Z.
Proof.
  rw /malformed /follow_up. intros [[[Ha He%negb_true_iff%bool_decide_eq_false]%andb_true_iff Ht%negb_true_iff]%andb_true_iff
    Hf%bool_decide_eq_true]%andb_true_iff. rw Ha /=.
  destruct (ex_Err e); [by destruct He|]. rw Ht. rw /handle_response. set (text := match ex_Response e with _ => _ end) in *.
  intros (u & w1 & Ea & E)%run_bind_inv. apply run_bind_inv in E as (u' & w2 & Eb & E).
  apply moves_inv in Ea as (_ & _ & (_ & _ & E1) & _); [|steady_leaf].
  apply moves_inv in Eb as (_ & _ & (_ & _ & E2) & _); [|steady_walk].
  destruct (res_Failure _) as [failure|]; [|by destruct Hf]. apply parse_failure_pays in E. lia.
Qed.

Lemma modelTurn_inv deadline w o w' :
  modelTurn l task deadline w = (Some o, w') →
  ∃ e w1, turned e w w1 ∧ steady w1 w' ∧ (∀ r, o = Some r → charged w1 r)
    ∧ (malformed e = true → o = None → lo_corrections (w_locals w1) + 1 ≤ lo_corrections (w_locals w'))%Z.
Proof.
  intros E. rw /modelTurn in E. apply run_bind_inv in E as (start & w1 & Ea & E).
  apply run_bind_inv in E as (u & w2 & Eb & E). apply run_bind_inv in E as (s & w3 & Ec & E).
  apply run_bind_inv in E as (sampled & w4 & Ed & E). apply run_bind_inv in E as (pressure & w5 & Ee & E).
  apply run_bind_inv in E as (execution & w6 & Ef & E). apply run_bind_inv in E as (finish & w7 & Eg & E).
  apply run_bind_inv in E as (u' & w8 & Eh & E). exists execution, w8. split; [|split; [|split]].
  - injection Ea as _ <-. injection Eb as _ <-. injection Ec as _ <-. injection Ed as _ <-. injection Ee as _ <-.
    apply attempt_asked in Ef as (Hr & Hl & Ht). injection Eg as _ <-. simpl in *.
    assert (w_runner w8 = w_runner w6) as Hw by (by injection Eh as _ <-).
    apply attempt_emitted in Eh as [El Et]; [|done]. rw /turned El Hw /= Hl /=.
    split_and!; [lia|lia|rw Et; f_equal; exact Ht|done..].
  - destruct (part_attempt execution pressure deadline w8) as [Hs _]. simpl in Hs. by rw E in Hs.
  - destruct (part_attempt execution pressure deadline w8) as [_ Hr]. simpl in Hr. rw E in Hr.
    intros r ->. by eapply Hr.
  - intros Hm ->. by eapply malformed_pays.
Qed.

(** ** The loop *)

Lemma before_turn_inv deadline w o w' :
  before_turn l task deadline w = (Some o, w') →
  steady w w' ∧ (∀ r, o = Some r → charged w r)
  ∧ (o = None → lo_turns (w_locals w) < MaxSteps (lp_limits l) ∧ lo_attempts (w_locals w) < ProviderBudget (lp_limits l))%Z.
Proof.
  intros E. destruct (part_before deadline w) as [Hs Hr]. rw E in Hs Hr. split_and!; [done|by intros r -> ; eapply Hr|].
  intros ->. rw /before_turn /ends_plainly /ends in E.
  apply run_bind_inv in E as (err & w1 & Ea & E). injection Ea as _ <-.
  destruct err as [[]|]; try (by apply run_bind_inv in E as (r & w2 & _ & [=])).
  apply run_bind_inv in E as (now & w1 & Ea & E). injection Ea as _ <-.
  destruct (deadlineReached _ _); [by apply run_bind_inv in E as (r & w2 & _ & [=])|].
  apply run_bind_inv in E as (s & w1 & Ea & E). injection Ea as <- <-. simpl in E.
  destruct (_ <=? _)%Z eqn:E1 in E; [by apply run_bind_inv in E as (r & w2 & _ & [=])|].
  destruct (_ <=? _)%Z eqn:E2 in E; [by apply run_bind_inv in E as (r & w2 & _ & [=])|]. lia.
Qed.

(** How many answers are malformed. *)
Definition malformed_among (es : list ExecutionResult) : Z := Z.of_nat (length (filter (λ e, malformed e = true) es)).

Lemma malformed_cons e es :
  malformed_among (e :: es) = ((if malformed e then 1 else 0) + malformed_among es)%Z.
Proof. rw /malformed_among filter_cons. destruct (malformed e); simpl; lia. Qed.

(** The attempts [es] from [w] on, one a turn, and then the result [r] in [w']. *)
Definition spends (es : list ExecutionResult) (w w' : World) (r : Result) : Prop :=
  let n := length es in
  lr_Turns r = (lo_turns (w_locals w) + Z.of_nat n)%Z ∧ lr_Attempts r = (lo_attempts (w_locals w) + Z.of_nat n)%Z
  ∧ (attempts_traced w' = (attempts_traced w + n)%nat ∧ asked es (w_runner w) (w_runner w')
     ∧ (lo_corrections (w_locals w) + malformed_among es ≤ lr_Corrections r + 1)%Z)
  ∧ (n ≠ 0%nat → lr_Turns r ≤ MaxSteps (lp_limits l) ∧ lr_Attempts r ≤ ProviderBudget (lp_limits l))%Z
  ∧ (lo_corrections (w_locals w) ≤ MaxCorrections (lp_limits l) → lr_Corrections r ≤ MaxCorrections (lp_limits l))%Z.

Lemma loop_spends fuel deadline w o w' :
  (MaxSteps (lp_limits l) - lo_turns (w_locals w) < Z.of_nat fuel)%Z → (0 < fuel)%nat →
  run_loop l task fuel deadline w = (Some o, w') → ∃ r es, o = Some r ∧ spends es w w' r.
Proof.
  revert w. induction fuel as [|fuel IH]; [lia|]. intros w Hfuel _ E. simpl in E.
  apply run_bind_inv in E as (stopped & w1 & Eb & E).
  apply before_turn_inv in Eb as ((T1 & T2 & (T3 & T5 & T6) & T4) & Hr & Hn). destruct stopped as [r|].
  { injection E as <- <-. destruct (Hr r eq_refl) as (R1 & R2 & R3 & R4). exists r, []. split; [done|].
    rw /spends R1 R2 T3 T5 /=. split_and!; [lia..|constructor|rw /malformed_among /=; lia|done|done]. }
  destruct (Hn eq_refl) as [Hsteps Hprov]. apply run_bind_inv in E as (turn & w2 & Et & E).
  apply modelTurn_inv in Et as (e & w3 & (U1 & U2 & (U3 & U5 & U6)) & (V1 & V2 & (V3 & V5 & V6) & V4) & Hc & Hpay).
  inversion U5 as [|request k rn s e0 r1 s1 es0 r' Hask Hnil]; subst. inversion Hnil; subst. destruct turn as [r|].
  - injection E as <- <-. destruct (Hc r eq_refl) as (R1 & R2 & R3 & R4). exists r, [e]. split; [done|].
    rw /spends R1 R2 V3 U1 U2 U3 T1 T2 T3 V5 malformed_cons /=. split_and!; [lia..| | |lia|rw U6 in R4; auto].
    + rw -T5. by econstructor; [exact Hask|constructor].
    + rw /malformed_among /=. destruct (malformed e); lia.
  - destruct (decide (fuel = 0%nat)) as [->|]; [lia|].
    apply IH in E as (r & es & -> & R1 & R2 & (R3 & R6 & R7) & R4 & R5); [|rw V1 U1 T1; lia|lia]. exists r, (e :: es). split; [done|].
    rw /spends malformed_cons /=. split_and!; [lia|lia|lia| | | |].
    + rw -T5. econstructor; [exact Hask|]. by rw -V5.
    + specialize (Hpay). destruct (malformed e); [specialize (Hpay eq_refl eq_refl)|]; lia.
    + intros _. destruct es; [simpl in *; lia|by apply R4].
    + rw U6 in V4. auto.
Qed.

Definition resumed (field : RecoverySeed → Z) : Z :=
  match lp_recovery l with None => 0 | Some seed => Z.max (field seed) 0 end.

Lemma steady_bootstrap : moves steady (BootstrapTask l task).
Proof. rw /BootstrapTask /bootstrap_step. steady_walk. Qed.

(** The locals at the first turn. *)
Lemma begin_run_inv w o w' :
  begin_run l task w = (Some o, w') →
  lo_turns (w_locals w') = resumed sd_Turns ∧ lo_attempts (w_locals w') = resumed sd_Attempts
  ∧ (attempts_traced w' = attempts_traced w ∧ w_runner w' = w_runner w ∧ (0 ≤ lo_corrections (w_locals w'))%Z)
  ∧ (0 ≤ MaxCorrections (lp_limits l) → lo_corrections (w_locals w') ≤ MaxCorrections (lp_limits l))%Z
  ∧ (o ≠ None → lp_recovery l = None).
Proof.
  intros E. rw /begin_run in E. apply run_bind_inv in E as (u & w1 & Ea & E). injection Ea as _ <-. rw /resumed.
  destruct (lp_recovery l) as [seed|].
  - apply run_bind_inv in E as (u1 & w2 & Eb & E). injection Eb as _ <-.
    apply run_bind_inv in E as (u2 & w3 & Ec & E). injection E as <- <-.
    apply moves_inv in Ec as (T1 & T2 & T3 & T4); [|steady_leaf]. simpl in *. by rw T1 T2.
  - destruct (lp_persistent l); [|by injection E as <- <-].
    apply moves_inv in E as (T1 & T2 & T3 & T4); [|apply steady_bootstrap]. simpl in *. by rw T1 T2.
Qed.

Lemma run_spends w o w' :
  (0 ≤ MaxCorrections (lp_limits l))%Z → RunTask l task w = (Some o, w') →
  ∃ r es, let n := length es in o = Some r ∧ asked es (w_runner w) (w_runner w') ∧ attempts_traced w' = (attempts_traced w + n)%nat
    ∧ lr_Turns r = (resumed sd_Turns + Z.of_nat n)%Z ∧ lr_Attempts r = (resumed sd_Attempts + Z.of_nat n)%Z
    ∧ (n ≠ 0%nat → lr_Turns r ≤ MaxSteps (lp_limits l) ∧ lr_Attempts r ≤ ProviderBudget (lp_limits l))%Z
    ∧ (lr_Corrections r ≤ MaxCorrections (lp_limits l) ∧ malformed_among es ≤ lr_Corrections r + 1)%Z.
Proof.
  intros Hmax E. rw /RunTask /run_with in E. apply run_bind_inv in E as (startedAt & w1 & Ea & E). injection Ea as _ <-.
  apply run_bind_inv in E as (failed & w2 & Eb & E). apply begin_run_inv in Eb as (B1 & B2 & (B3 & B6 & B7) & B4 & B5).
  destruct failed as [message|].
  - injection E as <- <-. exists (persistenceFailure message), []. rw /resumed B5 // B3 B6 /malformed_among /=.
    split_and!; try done; first [by constructor|change (attempts_traced w = attempts_traced w + 0)%nat; lia].
  - assert (0 ≤ resumed sd_Turns)%Z by (rw /resumed; destruct (lp_recovery l); lia).
    apply loop_spends in E as (r & es & -> & R1 & R2 & (R3 & R6 & R7) & R4 & R5); [|rw B1; lia|lia].
    exists r, es. rw R1 R2 R3 B1 B2 B3. rw B6 in R6. split_and!; try done; [by rw -B1 -B2 -R1 -R2|auto|lia].
Qed.
End budgets.

