(* ===== verification/LoopScenarios.v ===== *)
(** * Concrete runs of the agent

    A task whose model writes one file and then proposes completion: allowed and
    verified, waiting for the operator, and with a process that dies in the middle.
    The theorems on runs are applied to them. *)

From S2P Require Import Prelude GoTime Policy Verifier Provider Receipts GovTypes Ledger GovState Persist Execute.
From S2P Require Import VerifierScenarios UnitScenarios ProviderScenarios ProtocolLaws ProtocolScenarios ToolScenarios.
From S2P Require Import Text Json TimeText Database WorkUnits Protocol Recipe Observations Workspace ToolArguments Writing.
From S2P Require Import Reading Search Tools Encode Actions ActionLaws WritingLaws ReconcileLaws ProviderStore RecoveryStore PathLaws.
From S2P Require Import Outcomes LoopTypes Loop LoopLaws LoopEffects LoopReports LoopBudgets.

Local Open Scope string_scope.
Local Open Scope runstead_scope.

#[local] Existing Instance flat_system.
#[local] Existing Instance flat_laws.
#[local] Existing Instance length_hash.
#[local] Existing Instance no_commands.
#[local] Existing Instance one_piece.
#[local] Existing Instance sound_disk.
#[local] Existing Instance plain_codec.
#[local] Existing Instance wall_seconds.
#[local] Existing Instance strict_parse.
#[local] Existing Instance merging.
#[local] Existing Instance plain_prose.
#[local] Existing Instance canonical_order.

(** ** Surroundings *)

(** The evidence of the write, whatever its text. *)
#[local] Instance one_document : Decoder := {|
  UnmarshalWrite := λ _, Some (demo_write "a" (HashBytes "newer") "obs-000001");
  UnmarshalProcess := λ _, None |}.

#[local] Instance seconds : LoopClock := {| loop_now := λ n, (Scenarios.day_start + Z.of_nat n * Second)%Z |}.

#[local] Instance alone : Colleagues := {| foreign := λ _ t, t |}.

(** The file that the verifier sees. *)
Definition after_write : Observer := {|
  Verifier.FileSHA256 := λ _ path, if String.eqb path "a" then (HashBytes "newer", true, None) else ("", false, None);
  GitStatusText := ("", false, None); GitDiffText := ("", false, None) |}.

#[local] Instance surveyed : Surveys := {| survey := λ _, []; observer_at := λ _, Some after_write; verify_now := λ _, "" |}.

#[local] Instance short_texts : Texts := {|
  MarshalArguments := λ arguments, write_value (JObject (map_to_list arguments)); MarshalPlan := λ _, "{}";
  MarshalReport := λ _, "{}"; store_message := λ _, "store"; error_message := λ _, "provider" |}.

(** A model that says what was written down for it. *)
Definition answer (text : string) : ExecutionResult := {|
  ex_Admission := {| GovTypes.Code := AdmissionAdmitted; GovTypes.Reason := None; RetryAt := 0; Delay := 0;
    res_Permit := Some {| attached := true; GovTypes.request := {| GovTypes.TaskID := "task"; GovTypes.WorkUnitID := "";
      GovTypes.ClientRequestID := ""; ar_ModelPool := ""; Retry := false;
      ProviderRequest := {| req_Protocol := ""; req_Prompt := ""; req_Model := ""; req_ClientRequestID := "" |} |};
      telemetryHealthy := true; started := true; completed := true; attemptSequence := 1; receiptAware := false;
      startedAt := 0 |};
    Err := None; TelemetryHealthy := true; res_GatewayContractHealth := None |};
  ex_Response := Some {| resp_Text := text; resp_Metadata := zeroMetadata |};
  ex_Completion := None; ex_Err := None |}.

#[local] Instance scripted : AttemptRunner := {|
  runner := list string;
  execute_attempt := λ _ _ script s,
    match script with text :: script' => (Some (answer text), script', s) | [] => (Some (answer ""), [], s) end;
  account_pressure := λ _ _, false |}.

#[local] Instance quiet_neighbours : Considerate.
Proof. split; [by intros|]. intros request n [|text script] s; reflexivity. Defined.

(** ** The task *)

Definition the_plan : Plan := {| Verifier.Version := 1; Verifier.Checks := [file_check "artifact" "a"] |}.

Definition the_loop (mode : string) : Loop := {|
  lp_registry := the_registry; lp_contract := "contract"; lp_limits := DefaultLoopLimits; lp_model := "model";
  lp_identity := {| id_WireContract := ""; id_AccountBinding := ""; id_CredentialBinding := ""; id_BehaviorDigest := "";
    id_ProviderID := "provider"; id_ProtocolFamily := "openai"; id_Model := "model"; id_ConfigIdentity := "config";
    id_ProfileVersion := "1"; id_AdapterVersion := "1" |};
  lp_writePolicy := "write_file=" +:+ mode; lp_recipePolicy := ""; lp_recipeCatalogDigest := "";
  lp_acceptancePlanDigest := ""; lp_persistent := true;
  lp_policy := Some {| Modes := {["write_file" := mode]}; RecipeModes := ∅ |}; lp_approvals := true;
  lp_plan := Some the_plan; lp_contract_json := ""; lp_contract_hash := ""; lp_recovery := None |}.

Definition the_task : Task :=
  {| ts_ID := "task"; ts_Prompt := "replace a"; ts_WorkUnitID := ""; ts_SkipTaskFinalize := false |}.

Definition the_final : FinalResponse := {|
  fin_Version := Current; fin_Status := StatusComplete; fin_Summary := "replaced";
  fin_Evidence := [{| ev_EvidenceID := "obs-000001"; ev_Tool := "write_file" |}] |}.

Definition the_script : list string :=
  [respond nothing_else KindAction (action_json the_write); respond nothing_else KindFinal (final_json the_final)].

Definition no_tables : Tables := (tables empty_store) <| tbl_tasks := ∅ |>.

Definition the_world : World := {|
  w_machine := resting the_files; w_store := {| tables := no_tables; calls := 0 |}; w_runner := the_script;
  w_observations := 0; w_clock := 0; w_trace := []; w_locals := zero_locals |}.

Definition run_in (e : Environment) (mode : string) : option (option Result) * World :=
  RunTask (the_loop mode) the_task the_world.


Definition outcome_of_run (r : option (option Result) * World) : option LoopOutcome := (r.1 ≫= id) ≫= λ r, Some (lr_Outcome r).

Definition task_status (w : World) : option (string * string) :=
  (λ row, (tk_status row, tk_outcome row)) <$> tbl_tasks (tables (w_store w)) !! "task".

(** Allowed, the write takes place and the completion is verified; with an approval
    to wait for, nothing is written and the task stays resumable; a process that dies
    after the write leaves a prepared attempt behind. *)
Example runs_evaluated :
  let allowed := run_in calm "allow" in
  let asked := run_in calm "approval_required" in
  let denied := run_in calm "deny" in
  let died := run_in (dies_at 31) "allow" in
  (outcome_of_run allowed, task_status allowed.2, flat_read "/w/a" (m_fs (w_machine allowed.2)))
  = (Some OutcomeCompleted, Some ("completed", "completed"), inr "newer")
  ∧ (outcome_of_run asked, task_status asked.2, flat_read "/w/a" (m_fs (w_machine asked.2)))
    = (Some OutcomeApprovalRequired, Some ("running", "approval_required"), inr "old")
  ∧ (outcome_of_run denied, task_status denied.2, flat_read "/w/a" (m_fs (w_machine denied.2)))
    = (Some OutcomeProviderFailure, Some ("failed", "provider_failure"), inr "old")
  ∧ (died.1, task_status died.2, flat_read "/w/a" (m_fs (w_machine died.2)),
     ta_status <$> tbl_tool_attempts (tables (w_store died.2)))
    = (None, Some ("running", ""), inr "newer", ["prepared"]).
Proof. by vm_compute. Qed.

(** A model that keeps to itself, and one that keeps asking for the same. *)
Definition chat (answers : list string) : World := {|
  w_machine := resting the_files; w_store := {| tables := no_tables; calls := 0 |}; w_runner := answers;
  w_observations := 0; w_clock := 0; w_trace := []; w_locals := zero_locals |}.

Definition read_a : Action :=
  {| act_Version := Current; act_Tool := "read_file"; act_Arguments := {["path" := JString "a"]} |}.

#[local] Existing Instance calm.

Definition summary_of (r : option (option Result) * World) : option (LoopOutcome * (Z * Z * Z)) :=
  (r.1 ≫= id) ≫= λ r, Some (lr_Outcome r, (lr_Turns r, lr_Corrections r, lr_Repeated r)).

Example budgets_evaluated :
  summary_of (RunTask (the_loop "allow") the_task (chat (replicate 9 "no envelope")))
  = Some (OutcomeCorrectionsExhausted, (3, 2, 0)%Z)
  ∧ summary_of (RunTask (the_loop "allow") the_task
      (chat (replicate 9 (respond nothing_else KindAction (action_json read_a)))))
    = Some (OutcomeRepeatedAction, (4, 0, 3)%Z).
Proof. by vm_compute. Qed.

(** ** Witnesses *)

Definition the_run : option (option Result) * World := RunTask (the_loop "allow") the_task the_world.

Lemma RunTask_writes_witness :
  ∃ rn, rn ∈ m_renames (w_machine the_run.2) ∧ authorised (the_loop "allow") the_task (tables (w_store the_world)) (tables (w_store the_run.2)) rn.
Proof.
  assert (length (m_renames (w_machine the_run.2)) = 1) as Hlen by (by vm_compute).
  destruct (m_renames (w_machine the_run.2)) as [|rn l] eqn:E; [done|].
  assert (rn ∈ m_renames (w_machine the_run.2)) as Hin by (rw E; apply list_elem_of_here).
  exists rn. split; [by rw -E|]. clear Hlen E.
  destruct (RunTask_writes (the_loop "allow") the_task the_world rn the_root_rooted eq_refl Hin) as [Hold|Ha]; [|exact Ha].
  exfalso. by apply elem_of_nil in Hold.
Defined.

Definition the_result : Result := default (persistenceFailure "") (the_run.1 ≫= id).

Lemma the_run_returns :
  RunTask (the_loop "allow") the_task the_world = (Some (Some the_result), the_run.2).
Proof.
  assert (the_run.1 = Some (Some the_result)) as E by (by vm_compute). change (the_run = (Some (Some the_result), the_run.2)).
  by rewrite <- E; destruct the_run.
Qed.

Lemma RunTask_told_witness :
  lr_Outcome the_result = OutcomeCompleted ∧ gated (tables (w_store the_run.2)) "task"
  ∧ LoopReports.verified (the_loop "allow") the_task the_result the_run.2.
Proof.
  assert (lr_Outcome the_result = OutcomeCompleted) as Ho by (by vm_compute). split; [exact Ho|].
  destruct (RunTask_told (the_loop "allow") the_task the_world the_result (the_run.2) eq_refl the_run_returns)
    as [Hf|[Hrow Hv]]; [rw Ho in Hf; discriminate Hf|]. split; [|exact (Hv Ho)].
  destruct (Hrow (or_introl eq_refl)) as (row & _ & _ & Hg). exact (Hg Ho).
Defined.

