(* ===== verification/Context.v ===== *)
(** * The context of a resumed task (internal/context, recovery/context.go)

    The strict decoder of acceptance plans (verifier/plan.go, ParsePlan), which the
    context uses; the projection of a snapshot into a text for the model, where every
    section has pinned lines, which must fit the budget or the compilation fails, and
    degradable lines, which are taken as long as the pinned lines that follow still
    fit; and what such a text says. *)

From stdpp Require Import pretty.
From S2P Require Import Prelude GoTime Provider Text Database Actions Verifier Json JsonLaws Protocol Recipe TimeText Encode RecoveryStore.
From S2P Require Import Outcomes LoopTypes.
From S2P Require Import Verifier.

Local Open Scope string_scope.
Local Open Scope runstead_scope.

(** The nesting that [scanJSONValue] admits. *)
Definition maxPlanJSONDepth : nat := 64.

Definition zero_check : Verifier.Check := {|
  ck_ID := ""; ck_Type := ""; ck_Path := ""; ck_SHA256 := ""; ck_Recipe := ""; ck_RequireUntruncated := false |}.

#[export] Instance Check_settable : Settable Verifier.Check := λ c,
  Build_Check (ck_ID c) (ck_Type c) (ck_Path c) (ck_SHA256 c) (ck_Recipe c) (ck_RequireUntruncated c).

Definition check_fields : list string := ["id"; "type"; "path"; "sha256"; "recipe"; "require_untruncated"].

Definition decode_check (v : json) (old : Verifier.Check) : option Verifier.Check :=
  decode_struct true check_fields
    (λ name v c,
      if String.eqb name "id" then s ← as_string v (ck_ID c); Some (c <| ck_ID := s |>)
      else if String.eqb name "type" then s ← as_string v (ck_Type c); Some (c <| ck_Type := s |>)
      else if String.eqb name "path" then s ← as_string v (ck_Path c); Some (c <| ck_Path := s |>)
      else if String.eqb name "sha256" then s ← as_string v (ck_SHA256 c); Some (c <| ck_SHA256 := s |>)
      else if String.eqb name "recipe" then s ← as_string v (ck_Recipe c); Some (c <| ck_Recipe := s |>)
      else b ← as_bool v (ck_RequireUntruncated c); Some (c <| ck_RequireUntruncated := b |>))
    old v.

(** An array is decoded over the elements that a slice has already; null clears it. *)
Definition decode_checks (v : json) (old : list Verifier.Check) : option (list Verifier.Check) :=
  match v with
  | JArray values => mapM id (imap (λ i value, decode_check value (default zero_check (old !! i))) values)
  | JNull => Some []
  | _ => None
  end.

Definition decode_plan (v : json) : option Plan :=
  decode_struct true ["version"; "checks"]
    (λ name v plan,
      if String.eqb name "version"
      then n ← as_int64 v (Version plan); Some {| Version := n; Checks := Checks plan |}
      else checks ← decode_checks v (Checks plan); Some {| Version := Version plan; Checks := checks |})
    {| Version := 0; Checks := [] |} v.

Definition ParsePlan (data : string) : string + Plan :=
  match (v ← parse data; if strict maxPlanJSONDepth 0 v then decode_plan v else None) with
  | None => inl "decode acceptance plan"
  | Some plan => accept_plan plan
  end.

(** [json.Marshal] of a plan; without checks the slice is nil. *)
Definition plan_json (plan : Plan) : json :=
  JObject [("version", int_json (Version plan));
           ("checks", match Checks plan with [] => JNull | checks => JArray (check_json <$> checks) end)].

(** ** Reading back *)

(** The texts of a check need no escape for their runes. *)
Definition ascii_check (c : Verifier.Check) : bool :=
  ascii_text (ck_ID c) && ascii_text (ck_Type c) && ascii_text (ck_Path c) && ascii_text (ck_SHA256 c)
  && ascii_text (ck_Recipe c).

Lemma check_written c :
  ascii_check c = true → plain (check_json c) = true ∧ strict maxPlanJSONDepth 2 (check_json c) = true.
Proof.
  rw /ascii_check !andb_true_iff => -[[[[Hi Ht] Hp] Hs] Hr].
  rw /check_json /omit_string /omit_bool. split.
  - destruct (String.eqb (ck_Path c) ""), (String.eqb (ck_SHA256 c) ""), (String.eqb (ck_Recipe c) ""),
      (ck_RequireUntruncated c); simpl; by rw ?Hi ?Ht ?Hp ?Hs ?Hr.
  - by destruct (String.eqb (ck_Path c) ""), (String.eqb (ck_SHA256 c) ""), (String.eqb (ck_Recipe c) ""),
      (ck_RequireUntruncated c).
Qed.

Lemma check_decoded c : decode_check (check_json c) zero_check = Some c.
Proof.
  destruct c as [i t p s r b]. rw /check_json /omit_string /omit_bool. simpl.
  destruct (String.eqb_spec p ""), (String.eqb_spec s ""), (String.eqb_spec r ""), b; by subst.
Qed.

Lemma checks_decoded checks :
  decode_checks (JArray (check_json <$> checks)) [] = Some checks.
Proof.
  rw /decode_checks. erewrite (imap_ext _ (λ _ v, decode_check v zero_check)); [|intros i v _; by rw lookup_nil].
  rw imap_const. induction checks as [|c checks IH]; [done|]. cbn [fmap list_fmap mapM] in IH |- *.
  rw check_decoded. cbn. by rw IH.
Qed.

(** A plan that verification accepts is read back from its text. *)
Theorem ParsePlan_roundtrip (plan : Plan) :
  accept_plan plan = inr plan → forallb ascii_check (Checks plan) = true →
  ParsePlan (write_value (plan_json plan)) = inr plan.
Proof.
  intros Ha Hascii. assert (Version plan = PlanVersion) as Hv.
  { move: Ha. rw /accept_plan. by destruct (Z.eqb_spec (Version plan) PlanVersion). }
  destruct plan as [version checks]. simpl in Hv, Hascii. subst version.
  assert (∀ c, In c checks → plain (check_json c) = true ∧ strict maxPlanJSONDepth 2 (check_json c) = true) as Hc.
  { intros c Hin. apply check_written. rw forallb_forall in Hascii. by apply Hascii. }
  rw /ParsePlan parse_write.
  - destruct checks as [|c checks]; [done|]. cbn [plain plan_json Checks forallb]. rw andb_true_r.
    apply forallb_forall. intros v [d [<- Hd]]%in_map_iff. by apply Hc.
  - cbn [mbind option_bind]. assert (strict maxPlanJSONDepth 0 (plan_json {| Version := PlanVersion; Checks := checks |}) = true) as ->.
    { destruct checks as [|c checks]; [done|]. cbn -[check_json]. rw andb_true_r.
      change (strict maxPlanJSONDepth 1 (JArray (check_json <$> c :: checks)) = true).
      cbn [strict]. rw (_ : (maxPlanJSONDepth <=? 1)%nat = false) //. cbn [negb andb].
      revert Hc. generalize (c :: checks) as l. induction l as [|d l IH]; intros Hc; [done|]. cbn [fmap list_fmap].
      rw (proj2 (Hc d (or_introl eq_refl))) /=. apply IH. intros c' Hin. by apply Hc; right. }
    assert (decode_plan (plan_json {| Version := PlanVersion; Checks := checks |})
      = Some {| Version := PlanVersion; Checks := checks |}) as ->; [|exact Ha].
    destruct checks as [|c checks]; [done|]. pose proof (checks_decoded (c :: checks)) as Hd.
    rw /decode_plan /plan_json. cbn -[decode_checks check_json]. cbn -[decode_checks check_json] in Hd. change (read_int64 (pretty 1%positive)) with (Some 1%Z). cbn -[decode_checks check_json]. by rw Hd.
Qed.

(** ** The budget (budget.go) *)

Record Budget := {
  MaxContextBytes : Z;
  MaxObservationCount : Z;
  MaxObservationChars : Z;
  MaxFailureLines : Z;
  MaxUncertainLines : Z;
  MaxApprovalLines : Z;
  MaxVerificationLines : Z
}.

Definition DefaultBudget : Budget := {|
  MaxContextBytes := 32 * 1024; MaxObservationCount := 8; MaxObservationChars := 4 * 1024; MaxFailureLines := 32;
  MaxUncertainLines := 16; MaxApprovalLines := 16; MaxVerificationLines := 8 |}.

Definition CompilerVersion : string := "context-compiler-v0.1".

Inductive CompileError :=
  | ErrSnapshotRequired
  | errNegativeBudget
  | ErrBudgetExhausted (reason : string).

Definition Budget_Validate (b : Budget) : option CompileError :=
  if (MaxContextBytes b <? 0)%Z then Some errNegativeBudget else None.

(** ** Input and output (types.go) *)

Record Input := {
  ci_Snapshot : option RecoverySnapshot;
  ci_PendingApprovals : list PendingApproval;
  ci_CurrentWorkspaceSignature : string;
  ci_WorkUnits : list RecoveryWorkUnit;
  ci_NonAuthoritativeNotes : list string;
  ci_Budget : Budget
}.

Inductive FactKind :=
  | FactObjective | FactStatus | FactConstraint | FactAction | FactAttempt | FactEvidence | FactFailure
  | FactUncertainEffect | FactApproval | FactAcceptanceCheck | FactVerification | FactWorkspace | FactWorkUnit.

#[export] Instance FactKind_eq_dec : EqDecision FactKind.
Proof. solve_decision. Defined.

Definition FactKind_String (k : FactKind) : string :=
  match k with
  | FactObjective => "objective"
  | FactStatus => "task_status"
  | FactConstraint => "constraint"
  | FactAction => "action"
  | FactAttempt => "attempt"
  | FactEvidence => "evidence"
  | FactFailure => "failure"
  | FactUncertainEffect => "uncertain_effect"
  | FactApproval => "pending_approval"
  | FactAcceptanceCheck => "acceptance_check"
  | FactVerification => "verification_result"
  | FactWorkspace => "workspace_fact"
  | FactWorkUnit => "work_unit"
  end.

Definition sortedFactKinds : list FactKind :=
  [FactObjective; FactStatus; FactConstraint; FactAction; FactAttempt; FactEvidence; FactFailure; FactUncertainEffect;
   FactApproval; FactAcceptanceCheck; FactVerification; FactWorkspace; FactWorkUnit].

Inductive Freshness := FreshnessUnset | FreshnessCurrent | FreshnessNeedsRefresh | FreshnessUnverifiedCurrent.

Definition Freshness_String (f : Freshness) : string :=
  match f with
  | FreshnessUnset => ""
  | FreshnessCurrent => "current"
  | FreshnessNeedsRefresh => "needs_refresh"
  | FreshnessUnverifiedCurrent => "unverified_current"
  end.

Record Fact := {
  fc_Kind : FactKind;
  fc_Origin : string;
  fc_Value : string;
  fc_Signature : string;
  fc_Freshness : Freshness
}.

(** A fact that is not derived from the workspace. *)
Definition fact (kind : FactKind) (origin value : string) : Fact := {|
  fc_Kind := kind; fc_Origin := origin; fc_Value := value; fc_Signature := ""; fc_Freshness := FreshnessUnset |}.

Record OmittedItem := { om_Kind : FactKind; om_ID : string }.

Record Diagnostics := {
  dg_CompilerVersion : string;
  dg_Budget : Budget;
  dg_Counts : gmap string Z;
  dg_Omitted : list OmittedItem;
  dg_ExhaustionReason : string
}.

(** A note is its text. *)
Record Compiled := {
  cp_Authoritative : list Fact;
  cp_NonAuthoritative : list string;
  cp_Diagnostics : Diagnostics;
  cp_render : string;
  cp_evidenceIDs : list string
}.

Definition zero_budget : Budget := {|
  MaxContextBytes := 0; MaxObservationCount := 0; MaxObservationChars := 0; MaxFailureLines := 0;
  MaxUncertainLines := 0; MaxApprovalLines := 0; MaxVerificationLines := 0 |}.

Definition no_diagnostics : Diagnostics := {|
  dg_CompilerVersion := ""; dg_Budget := zero_budget; dg_Counts := ∅; dg_Omitted := []; dg_ExhaustionReason := "" |}.

Definition no_compiled : Compiled := {|
  cp_Authoritative := []; cp_NonAuthoritative := []; cp_Diagnostics := no_diagnostics; cp_render := "";
  cp_evidenceIDs := [] |}.

Definition RenderDiagnostics (c : Compiled) : string :=
  let d := cp_Diagnostics c in
  let count (kind : FactKind) := default 0%Z (dg_Counts d !! FactKind_String kind) in
  let counts := (λ kind, FactKind_String kind +:+ "=" +:+ pretty (count kind))
    <$> filter (λ kind, 0 < count kind)%Z sortedFactKinds in
  "version=" +:+ dg_CompilerVersion d +:+ " budget_bytes=" +:+ pretty (MaxContextBytes (dg_Budget d))
  +:+ " omitted=" +:+ pretty (Z.of_nat (length (dg_Omitted d))) +:+ " counts=" +:+ String.concat "," counts.

(** ** Sections and their rendering (compiler.go) *)

(** A line with the identifier that is recorded when it is left out. *)
Record degradableLine := { dl_text : string; dl_id : string }.

Record section := { sc_kind : FactKind; sc_pinned : list string; sc_degradable : list degradableLine }.

(** The bytes of a line with its newline. *)
Definition line_bytes (line : string) : Z := Z.of_nat (String.length line) + 1.

Definition pinned_bytes (lines : list string) : Z := foldr (λ line n, (line_bytes line + n)%Z) 0%Z lines.

Definition pinnedBytes (sections : list section) : Z := pinned_bytes (flat_map sc_pinned sections).

(** [deterministicBuilder], with the bytes reserved for later sections and what
    has been left out. *)
Record Builder := { bd_buf : string; bd_remaining : Z; bd_futurePinned : Z; bd_omitted : list OmittedItem }.

#[export] Instance eta_Builder : Settable Builder := λ b,
  Build_Builder (bd_buf b) (bd_remaining b) (bd_futurePinned b) (bd_omitted b).

Definition newDeterministicBuilder (remaining required : Z) : Builder := {|
  bd_buf := ""; bd_remaining := remaining; bd_futurePinned := required; bd_omitted := [] |}.

Definition write (line : string) (b : Builder) : Builder :=
  b <| bd_buf := bd_buf b +:+ line +:+ newline |> <| bd_remaining := (bd_remaining b - line_bytes line)%Z |>.

Definition write_pinned (b : Builder) (line : string) : Builder :=
  (write line b) <| bd_futurePinned ::= λ n, (n - line_bytes line)%Z |>.

Definition write_degradable (kind : FactKind) (b : Builder) (line : degradableLine) : Builder :=
  if (bd_remaining b - bd_futurePinned b <? line_bytes (dl_text line))%Z
  then if String.eqb (dl_id line) "" then b
       else b <| bd_omitted ::= λ l, (l ++ [{| om_Kind := kind; om_ID := dl_id line |}])%list |>
  else write (dl_text line) b.

Definition write_section (b : Builder) (s : section) : Builder :=
  foldl (write_degradable (sc_kind s)) (foldl write_pinned b (sc_pinned s)) (sc_degradable s).

(** The left side is the reason of the failure. *)
Definition renderCompiled (sections : list section) (budget : Budget) : string + string * list OmittedItem :=
  let required := pinnedBytes sections in
  if (MaxContextBytes budget <? required)%Z
  then inl ("mandatory content requires " +:+ pretty required +:+ " bytes, budget is "
            +:+ pretty (MaxContextBytes budget))
  else
    let b := foldl write_section (newDeterministicBuilder (MaxContextBytes budget) required) sections in
    inr (bd_buf b, bd_omitted b).

(** ** Lines (evidence.go) *)

(** [WriteRune]: what is not UTF-8 is replaced. *)
Definition write_rune (c : Z * string) : string :=
  if (c.1 =? RuneError)%Z then encode_rune RuneError else c.2.

(** After an escape, outside of strings, and what has been written. *)
Definition compact_rune (st : bool * bool * string) (c : Z * string) : bool * bool * string :=
  let '(escaped, compact, out) := st in
  (if escaped then (false, compact, out +:+ write_rune c)
   else if (c.1 =? 92)%Z then (true, compact, out +:+ write_rune c)
   else if (c.1 =? 34)%Z then (false, negb compact, out +:+ write_rune c)
   else if compact && ((c.1 =? 32)%Z || (c.1 =? 9)%Z || (c.1 =? 10)%Z || (c.1 =? 13)%Z) then st
   else (false, compact, out +:+ write_rune c)).

Definition compactJSON (value : string) : string :=
  if String.eqb (TrimSpace value) "" then ""
  else (foldl compact_rune (false, true, "") (rune_texts (runes value) value)).2.

Definition capLimit (length maximum : Z) : Z :=
  if (maximum <=? 0)%Z then 0%Z else if (length <=? maximum)%Z then length else maximum.

Definition capChars (value : string) (max : Z) : string :=
  if ((max <=? 0)%Z || (Z.of_nat (String.length value) <=? max)%Z)%bool then value
  else if (max <=? 3)%Z then take_bytes (Z.to_nat max) value
  else take_bytes (Z.to_nat (max - 3)) value +:+ "...".

Definition joinIDs (ids : list string) : string :=
  match ids with [] => "-" | _ => String.concat "," (sort_Strings ids) end.

Definition count_text {A} (l : list A) : string := pretty (Z.of_nat (length l)).

(** A section with its facts and what its caps leave out. *)
Record Part := { pt_facts : list Fact; pt_section : section; pt_omitted : list OmittedItem }.

(** A section that consists of one pinned line. *)
Definition pinned_part (facts : list Fact) (kind : FactKind) (lines : list string) : Part := {|
  pt_facts := facts; pt_section := {| sc_kind := kind; sc_pinned := lines; sc_degradable := [] |}; pt_omitted := [] |}.

(** Details up to a cap; the rest is recorded. *)
Definition capped (facts : list Fact) (kind : FactKind) (pinned : string) (detail : list degradableLine) (maximum : Z)
    : Part :=
  let n := Z.to_nat (capLimit (Z.of_nat (length detail)) maximum) in {|
  pt_facts := facts;
  pt_section := {| sc_kind := kind; sc_pinned := [pinned]; sc_degradable := take n detail |};
  pt_omitted := (λ line, {| om_Kind := kind; om_ID := dl_id line |}) <$> drop n detail |}.

(** The list of identifiers, or what stands for none. *)
Definition ids_line (title none : string) (ids : list string) : string :=
  match ids with [] => title +:+ none | _ => title +:+ String.concat ", " ids end.

(** ** Evidence *)

Definition by_evidence_id (evidence : list RecoveryEvidence) : gmap string RecoveryEvidence :=
  foldl (λ m e, <[re_EvidenceID e := e]> m) ∅ evidence.

Definition citable (attempt : RecoveryToolAttempt) : bool :=
  negb (String.eqb (ra_EvidenceID attempt) "")
  && (String.eqb (ra_Status attempt) "completed"
      || (String.eqb (ra_Status attempt) "reconciled" && String.eqb (ra_RecoveryReason attempt) "write_effect_completed")).

(** All citable identifiers, the newest first. *)
Definition citable_ids (attempts : list RecoveryToolAttempt) : list string :=
  rev (sort_Strings (ra_EvidenceID <$> filter citable attempts)).

Definition evidence_line (budget : Budget) (e : RecoveryEvidence) : string :=
  let line := "evidence " +:+ re_EvidenceID e +:+ ": " +:+ re_Tool e +:+ "(" +:+ compactJSON (re_ArgumentsJSON e) +:+ ")" in
  let data := capChars (compactJSON (re_DataJSON e)) (MaxObservationChars budget) in
  if String.eqb data "" then line else line +:+ " data: " +:+ data.

Definition select_evidence (budget : Budget) (acc : list degradableLine * list OmittedItem) (e : RecoveryEvidence)
    : list degradableLine * list OmittedItem :=
  if (MaxObservationCount budget <=? Z.of_nat (length acc.1))%Z
  then (acc.1, (acc.2 ++ [{| om_Kind := FactEvidence; om_ID := re_EvidenceID e |}])%list)
  else ((acc.1 ++ [{| dl_text := evidence_line budget e; dl_id := re_EvidenceID e |}])%list, acc.2).

Definition selectEvidence (snapshot : RecoverySnapshot) (budget : Budget) : list degradableLine * list OmittedItem :=
  let byID := by_evidence_id (sn_Evidence snapshot) in
  foldl (select_evidence budget) ([], []) (omap (λ id, byID !! id) (citable_ids (sn_ToolAttempts snapshot))).

Definition evidence_part (snapshot : RecoverySnapshot) (budget : Budget) : Part :=
  let ids := citable_ids (sn_ToolAttempts snapshot) in
  let selected := selectEvidence snapshot budget in {|
  pt_facts := (λ id, fact FactEvidence id id) <$> ids;
  pt_section := {| sc_kind := FactEvidence;
    sc_pinned := [ids_line "evidence ids: " "none recorded" (sort_Strings ids)]; sc_degradable := selected.1 |};
  pt_omitted := selected.2 |}.

(** ** Objective, status, constraints, history (facts.go, extract) *)

Definition preamble : Part := pinned_part [] FactObjective
  ["[reconstruction] deterministic projection of durable Runstead state; the original provider conversation was not retained";
   "AUTHORITATIVE facts below trace to persisted state or environment evidence; NON-AUTHORITATIVE notes are marked and can never satisfy checks."].

Definition recorded (text : string) : string :=
  let t := TrimSpace text in if String.eqb t "" then "(not recorded)" else t.

Definition objective_part (snapshot : RecoverySnapshot) : Part :=
  let objective := recorded (rt_Objective (sn_Task snapshot)) in
  pinned_part [fact FactObjective (rt_TaskID (sn_Task snapshot)) objective] FactObjective ["objective: " +:+ objective].

Definition status_part (snapshot : RecoverySnapshot) : Part :=
  let status := recorded (rt_Status (sn_Task snapshot)) in
  let resumed := rt_ResumeCount (sn_Task snapshot) in
  pinned_part [fact FactStatus (rt_TaskID (sn_Task snapshot)) status] FactStatus
    ["task status: " +:+ status +:+ (if (0 <? resumed)%Z then " (resume count " +:+ pretty resumed +:+ ")" else "")].

(** [rejectedCount] of the recovery package, and the count that [extract] makes. *)
Definition rejectedCount (snapshot : RecoverySnapshot) : Z :=
  Z.of_nat (length (filter (λ a, rn_Status a = "rejected") (sn_Actions snapshot))).

Definition constraint_part (snapshot : RecoverySnapshot) : Part :=
  let turns := count_text (sn_ProviderAttempts snapshot) in
  let value := "provider turns " +:+ turns +:+ ", provider attempts " +:+ turns +:+ ", rejected proposals "
    +:+ pretty (rejectedCount snapshot) in
  pinned_part [fact FactConstraint (rt_TaskID (sn_Task snapshot)) value] FactConstraint ["constraints: " +:+ value].

Definition action_part (snapshot : RecoverySnapshot) : Part :=
  let value := "actions " +:+ count_text (sn_Actions snapshot) +:+ ", tool attempts " +:+ count_text (sn_ToolAttempts snapshot)
    +:+ ", provider attempts " +:+ count_text (sn_ProviderAttempts snapshot) in
  let text (a : RecoveryAction) := rn_Tool a +:+ " " +:+ rn_Status a in {|
  pt_facts := fact FactConstraint (rt_TaskID (sn_Task snapshot)) value
    :: ((λ a, fact FactAction (rn_ActionID a) (text a)) <$> sn_Actions snapshot);
  pt_section := {| sc_kind := FactAction; sc_pinned := ["history: " +:+ value];
    sc_degradable := (λ a, {| dl_text := "action " +:+ rn_ActionID a +:+ ": " +:+ text a; dl_id := rn_ActionID a |})
      <$> sn_Actions snapshot |};
  pt_omitted := [] |}.

Definition tool_attempt_text (a : RecoveryToolAttempt) : string :=
  "tool " +:+ ra_Tool a +:+ " action " +:+ ra_ActionID a +:+ " status " +:+ ra_Status a
  +:+ (if String.eqb (ra_EvidenceID a) "" then "" else " evidence " +:+ ra_EvidenceID a).

Definition provider_attempt_text (a : RecoveryProviderAttempt) : string :=
  (if String.eqb (rv_ClientRequestID a) "" then "provider status "
   else "provider request " +:+ rv_ClientRequestID a +:+ " status ")
  +:+ rv_Status a +:+ " outcome " +:+ rv_Outcome a.

Definition attempt_part (snapshot : RecoverySnapshot) : Part :=
  let attempts := (((λ a, (ra_ExecutionID a, tool_attempt_text a)) <$> sn_ToolAttempts snapshot)
    ++ ((λ a, (rv_ExecutionID a, provider_attempt_text a)) <$> sn_ProviderAttempts snapshot))%list in {|
  pt_facts := (λ '(id, text), fact FactAttempt id text) <$> attempts;
  pt_section := {| sc_kind := FactAttempt;
    sc_pinned := ["concrete attempts: " +:+ count_text (sn_ToolAttempts snapshot) +:+ " tool, "
                  +:+ count_text (sn_ProviderAttempts snapshot) +:+ " provider"];
    sc_degradable := (λ '(id, text), {| dl_text := "attempt " +:+ id +:+ ": " +:+ text; dl_id := id |}) <$> attempts |};
  pt_omitted := [] |}.

(** ** Failures and uncertain effects *)

Definition failure_line (a : RecoveryToolAttempt) : degradableLine := {|
  dl_text := "failure " +:+ ra_ExecutionID a +:+ ": " +:+ ra_Tool a +:+ "(" +:+ compactJSON (ra_ArgumentsJSON a) +:+ ") "
             +:+ ra_Classification a;
  dl_id := ra_ExecutionID a |}.

(** [selectFailures]. *)
Definition selectFailures (snapshot : RecoverySnapshot) : list degradableLine :=
  failure_line <$> filter (λ a, ra_Status a = "failed") (sn_ToolAttempts snapshot).

Definition failure_part (snapshot : RecoverySnapshot) (budget : Budget) : Part :=
  let failures := selectFailures snapshot in
  capped ((λ l, fact FactFailure (dl_id l) (dl_text l)) <$> failures) FactFailure
    (ids_line "unresolved failures: " "none" (dl_id <$> failures)) failures (MaxFailureLines budget).

(** An item of the inventory: the identifier that is pinned and the line. *)
Record uncertainItem := { ui_id : string; ui_line : degradableLine }.

Definition interrupted (status : string) : bool :=
  existsb (String.eqb status) ["prepared"; "running"; "observed"; "verified"; "uncertain"; "verification_failed"; "planned"].

Definition replay_safe (a : RecoveryToolAttempt) : bool :=
  if interrupted (ra_Status a) then (ra_RecoveryClass a =? 1)%Z
  else String.eqb (ra_Status a) "reconciled" && String.eqb (ra_RecoveryReason a) "replay_safe_observation".

Definition write_not_started (a : RecoveryToolAttempt) : bool :=
  String.eqb (ra_Status a) "reconciled" && String.eqb (ra_RecoveryReason a) "write_effect_not_started".

Definition unreconciled (a : RecoveryToolAttempt) : bool :=
  if interrupted (ra_Status a) then negb (ra_RecoveryClass a =? 1)%Z
  else String.eqb (ra_Status a) "reconciled" && String.eqb (ra_RecoveryReason a) "write_effect_unreconcilable".

Definition tool_item (a : RecoveryToolAttempt) : uncertainItem := {|
  ui_id := ra_ExecutionID a;
  ui_line := {| dl_text := "tool " +:+ ra_ExecutionID a +:+ " (" +:+ ra_Tool a
    +:+ ") was interrupted and cannot be reconciled safely; human review required"; dl_id := ra_ExecutionID a |} |}.

Definition maybe_upstream (a : RecoveryProviderAttempt) : bool :=
  existsb (String.eqb (rv_Status a)) ["prepared"; "running"; "uncertain"; "planned"]
  || (String.eqb (rv_Status a) "reconciled" && rv_Uncertain a).

Definition provider_item (a : RecoveryProviderAttempt) : uncertainItem := {|
  ui_id := rv_ExecutionID a;
  ui_line := {| dl_text := "provider request " +:+ rv_ClientRequestID a +:+ " (execution " +:+ rv_ExecutionID a
    +:+ ") may have reached upstream; outcome unknown; conservative debit preserved; not retried";
    dl_id := rv_ExecutionID a |} |}.

(** A summary of a number of attempts, when there are any. *)
Definition summary_item {A} (id text : string) (attempts : list A) : list uncertainItem :=
  match attempts with
  | [] => []
  | _ => [{| ui_id := id; ui_line := {| dl_text := count_text attempts +:+ text; dl_id := "" |} |}]
  end.

Definition selectUncertain (snapshot : RecoverySnapshot) : list uncertainItem :=
  ((tool_item <$> filter unreconciled (sn_ToolAttempts snapshot))
   ++ summary_item "replay-safe"
        " prepared observation(s) were reconciled as replay-safe; a re-proposal executes as a new attempt with fresh evidence"
        (filter replay_safe (sn_ToolAttempts snapshot))
   ++ summary_item "write-not-started"
        " write attempt(s) provably never started and were reconciled; a re-proposal executes as a new attempt with a fresh before-hash"
        (filter write_not_started (sn_ToolAttempts snapshot))
   ++ (provider_item <$> filter maybe_upstream (sn_ProviderAttempts snapshot)))%list.

Definition uncertain_part (snapshot : RecoverySnapshot) (budget : Budget) : Part :=
  let items := selectUncertain snapshot in
  capped ((λ i, fact FactUncertainEffect (ui_id i) (dl_text (ui_line i))) <$> items) FactUncertainEffect
    (ids_line "uncertain effects: " "none" (ui_id <$> items)) (ui_line <$> items) (MaxUncertainLines budget).

(** ** Approvals *)

Definition approval_part (approvals : list PendingApproval) (budget : Budget) : Part :=
  capped ((λ a, fact FactApproval (pa_ActionID a) (pa_Tool a +:+ " " +:+ pa_Fingerprint a)) <$> approvals) FactApproval
    (ids_line "pending approvals: " "none recorded" (pa_ActionID <$> approvals))
    ((λ a, {| dl_text := "approval " +:+ pa_ActionID a +:+ ": " +:+ pa_Tool a; dl_id := pa_ActionID a |}) <$> approvals)
    (MaxApprovalLines budget).

(** ** Acceptance checks and verification *)

(** The plan, when there is one that parses, and its digest. *)
Definition acceptance_plan (snapshot : RecoverySnapshot) : option Plan :=
  match sn_AcceptancePlan snapshot with
  | None => None
  | Some (spec, _) =>
    if String.eqb (TrimSpace spec) "" then None else match ParsePlan spec with inl _ => None | inr plan => Some plan end
  end.

Definition acceptance_digest (snapshot : RecoverySnapshot) : string :=
  match sn_AcceptancePlan snapshot with None => "" | Some (_, digest) => digest end.

(** The status of the checks in the attempt that is taken for the latest. *)
Definition passed_checks (snapshot : RecoverySnapshot) : gmap string bool :=
  match sn_VerificationAttempts snapshot with
  | [] => ∅
  | latest :: _ => foldl (λ m c, <[vk_CheckID c := String.eqb (vk_Status c) "passed"]> m) ∅ (vt_Checks latest)
  end.

Definition remaining_checks (snapshot : RecoverySnapshot) (plan : Plan) : list Verifier.Check :=
  filter (λ c, passed_checks snapshot !! ck_ID c ≠ Some true) (Checks plan).

Definition check_detail (c : Verifier.Check) : degradableLine := {|
  dl_text := "check " +:+ ck_ID c +:+ ": " +:+ ck_Type c
    +:+ (if String.eqb (ck_Path c) "" then "" else " path=" +:+ ck_Path c)
    +:+ (if String.eqb (ck_Type c) CheckFileHash then " sha256=" +:+ ck_SHA256 c else "")
    +:+ (if String.eqb (ck_Type c) CheckRecipeExitZero then " recipe=" +:+ ck_Recipe c else "");
  dl_id := ck_ID c |}.

Definition acceptance_part (snapshot : RecoverySnapshot) : Part :=
  match acceptance_plan snapshot with
  | None => pinned_part [] FactAcceptanceCheck
      ["acceptance plan unavailable (digest " +:+ acceptance_digest snapshot +:+ ")"]
  | Some plan =>
    match remaining_checks snapshot plan with
    | [] => pinned_part [] FactAcceptanceCheck ["acceptance checks: none remaining (latest verification passed)"]
    | remaining => {|
        pt_facts := (λ c, fact FactAcceptanceCheck (acceptance_digest snapshot) (ck_ID c +:+ " " +:+ ck_Type c)) <$> remaining;
        pt_section := {| sc_kind := FactAcceptanceCheck;
          sc_pinned := ["remaining acceptance checks: " +:+ String.concat ", " (ck_ID <$> remaining)];
          sc_degradable := check_detail <$> remaining |};
        pt_omitted := [] |}
    end
  end.

Definition verification_line (a : VerificationAttemptRow) : degradableLine := {|
  dl_text := "verification " +:+ vt_AttemptID a +:+ ": " +:+ vt_Decision a +:+ " " +:+ capChars (vt_Summary a) 256;
  dl_id := vt_AttemptID a |}.

Definition verification_part (snapshot : RecoverySnapshot) (budget : Budget) : Part :=
  match sn_VerificationAttempts snapshot with
  | [] => pinned_part [] FactVerification ["verification: no attempt recorded"]
  | latest :: _ =>
    capped [fact FactVerification (vt_AttemptID latest) (vt_Decision latest +:+ " " +:+ vt_Summary latest)]
      FactVerification ("verification: latest decision " +:+ vt_Decision latest)
      (verification_line <$> sn_VerificationAttempts snapshot) (MaxVerificationLines budget)
  end.

(** ** The workspace *)

Definition classifyFreshness (recorded current : string) : Freshness :=
  if String.eqb current "" then FreshnessUnverifiedCurrent
  else if String.eqb recorded current then FreshnessCurrent else FreshnessNeedsRefresh.

Definition signatures (snapshot : RecoverySnapshot) : list string :=
  filter (λ s, s ≠ "") (rn_WorkspaceSignature <$> sn_Actions snapshot).

Definition signature_count (snapshot : RecoverySnapshot) (signature : string) : string :=
  count_text (filter (λ s, s = signature) (signatures snapshot)).

Definition workspace_part (snapshot : RecoverySnapshot) (current : string) : Part :=
  match sort_Strings (remove_dups (signatures snapshot)) with
  | [] => pinned_part [] FactWorkspace ["workspace signatures: none recorded"]
  | distinct =>
    let freshness signature := classifyFreshness signature current in {|
    pt_facts := (λ s, {| fc_Kind := FactWorkspace; fc_Origin := "workspace-signature:" +:+ s;
      fc_Value := signature_count snapshot s +:+ " recorded action(s)"; fc_Signature := s; fc_Freshness := freshness s |})
      <$> distinct;
    pt_section := {| sc_kind := FactWorkspace;
      sc_pinned := ["workspace signatures: " +:+ String.concat ", "
        ((λ s, s +:+ "(" +:+ Freshness_String (freshness s) +:+ ")") <$> distinct)];
      sc_degradable := (λ s, {| dl_text := "signature " +:+ s +:+ ": " +:+ signature_count snapshot s
        +:+ " action(s) recorded under this workspace state"; dl_id := s |}) <$> distinct |};
    pt_omitted := [] |}
  end.

(** ** Work units *)

Definition unit_state (u : RecoveryWorkUnit) : string :=
  ru_Status u +:+ (if negb (String.eqb (ru_BlockingReason u) "") then " (" +:+ ru_BlockingReason u +:+ ")"
                   else if negb (String.eqb (ru_FailureReason u) "") then " (" +:+ ru_FailureReason u +:+ ")" else "").

Definition unit_value (u : RecoveryWorkUnit) : string :=
  ru_Status u +:+ (if String.eqb (ru_BlockingReason u) "" then "" else " blocking " +:+ ru_BlockingReason u)
  +:+ (if String.eqb (ru_FailureReason u) "" then "" else " failure " +:+ ru_FailureReason u).

Definition unit_detail (u : RecoveryWorkUnit) : degradableLine := {|
  dl_text := "work unit " +:+ ru_WorkUnitID u +:+ ": objective=" +:+ capChars (ru_Objective u) 256 +:+ " deps="
    +:+ joinIDs (ru_Dependencies u) +:+ " tools=" +:+ joinIDs (default [] (ru_Tools u)) +:+ " digest=" +:+ ru_AcceptanceDigest u;
  dl_id := ru_WorkUnitID u |}.

Definition unit_part (units : list RecoveryWorkUnit) : Part := {|
  pt_facts := (λ u, fact FactWorkUnit (ru_WorkUnitID u) (unit_value u)) <$> units;
  pt_section := {| sc_kind := FactWorkUnit;
    sc_pinned := [ids_line "work units: " "none"
      (sort_Strings ((λ u, ru_WorkUnitID u +:+ "(" +:+ unit_state u +:+ ")") <$> units))];
    sc_degradable := unit_detail <$> units |};
  pt_omitted := [] |}.

(** ** Notes *)

Definition non_authoritative : string :=
  "NON-AUTHORITATIVE (model-authored summaries/inferences; never facts, never acceptance):".

Definition note_part (notes : list string) : Part := {|
  pt_facts := [];
  pt_section := {| sc_kind := FactObjective;
    sc_pinned := [match notes with [] => non_authoritative +:+ " none present" | _ => non_authoritative end];
    sc_degradable := (λ note, {| dl_text := "- " +:+ note; dl_id := "" |}) <$> notes |};
  pt_omitted := [] |}.

(** ** The compiler *)

(** [extract]: the parts in the order of the text. *)
Definition extract (snapshot : RecoverySnapshot) (input : Input) (budget : Budget) : list Part :=
  [preamble; objective_part snapshot; status_part snapshot; constraint_part snapshot; evidence_part snapshot budget;
   action_part snapshot; attempt_part snapshot; failure_part snapshot budget; uncertain_part snapshot budget;
   approval_part (ci_PendingApprovals input) budget; acceptance_part snapshot; verification_part snapshot budget;
   workspace_part snapshot (ci_CurrentWorkspaceSignature input); unit_part (ci_WorkUnits input);
   note_part (ci_NonAuthoritativeNotes input)].

Definition count_facts (facts : list Fact) : gmap string Z :=
  foldl (λ m f, let k := FactKind_String (fc_Kind f) in <[k := (default 0 (m !! k) + 1)%Z]> m) ∅ facts.

(** [Compile]: an error or none, and what is compiled. *)
Definition Compile `{Codec} (input : Input) : option CompileError * Compiled :=
  match ci_Snapshot input with
  | None => (Some ErrSnapshotRequired, no_compiled)
  | Some snapshot =>
    let budget := if (MaxContextBytes (ci_Budget input) =? 0)%Z then DefaultBudget else ci_Budget input in
    match Budget_Validate budget with
    | Some e => (Some e, no_compiled)
    | None =>
      let parts := extract snapshot input budget in
      let facts := flat_map pt_facts parts in
      let diagnostics omitted reason := {| dg_CompilerVersion := CompilerVersion; dg_Budget := budget;
        dg_Counts := count_facts facts; dg_Omitted := omitted; dg_ExhaustionReason := reason |} in
      let compiled d text ids := {| cp_Authoritative := facts; cp_NonAuthoritative := ci_NonAuthoritativeNotes input;
        cp_Diagnostics := d; cp_render := text; cp_evidenceIDs := ids |} in
      match renderCompiled (pt_section <$> parts) budget with
      | inl reason => (Some (ErrBudgetExhausted reason), compiled (diagnostics [] reason) "" [])
      | inr (text, omitted) =>
        (None, compiled (diagnostics (flat_map pt_omitted parts ++ omitted)%list "") (Redact text)
          (sort_Strings (citable_ids (sn_ToolAttempts snapshot))))
      end
    end
  end.

(** ** The context of a recovery (recovery/context.go) *)

Record Context_ := {
  cx_Text : string;
  cx_EvidenceIDs : list string;
  cx_Chars : Z;
  cx_Err : option CompileError;
  cx_Diagnostics : Diagnostics;
  cx_Compiled : option Compiled
}.

(** [BuildContext]; the options of a call are the approvals, when they are
    loaded, and the signature of the workspace. *)
Definition BuildContext `{Codec} (snapshot : RecoverySnapshot) (budget : Budget) (approvals : list PendingApproval)
    (signature : string) : Context_ :=
  let r := Compile {| ci_Snapshot := Some snapshot; ci_PendingApprovals := approvals;
    ci_CurrentWorkspaceSignature := signature; ci_WorkUnits := sn_WorkUnits snapshot; ci_NonAuthoritativeNotes := [];
    ci_Budget := budget |} in
  match r.1 with
  | Some e => {| cx_Text := ""; cx_EvidenceIDs := []; cx_Chars := 0; cx_Err := Some e;
                 cx_Diagnostics := cp_Diagnostics r.2; cx_Compiled := None |}
  | None => {| cx_Text := cp_render r.2; cx_EvidenceIDs := cp_evidenceIDs r.2;
               cx_Chars := Z.of_nat (String.length (cp_render r.2)); cx_Err := None;
               cx_Diagnostics := cp_Diagnostics r.2; cx_Compiled := Some r.2 |}
  end.

(** ** Texts of lines *)

Definition text (lines : list string) : string := String.concat "" ((λ l, l +:+ newline) <$> lines).

Lemma text_cons l ls : text (l :: ls) = (l +:+ newline) +:+ text ls.
Proof. rw /text /=. by destruct ls; rw /= ?app_empty. Qed.

Lemma text_app a b : text (a ++ b)%list = text a +:+ text b.
Proof. induction a as [|l a IH]; [done|]. cbn [app]. rw !text_cons IH. symmetry. apply app_assoc_text. Qed.

Lemma text_bytes ls : Z.of_nat (String.length (text ls)) = pinned_bytes ls.
Proof.
  induction ls as [|l ls IH]; [done|]. rw text_cons !length_app_text /= /line_bytes -IH. lia.
Qed.

Lemma pinned_bytes_app a b : pinned_bytes (a ++ b)%list = (pinned_bytes a + pinned_bytes b)%Z.
Proof. rw -!text_bytes text_app length_app_text. lia. Qed.

Lemma pinned_bytes_nonneg ls : (0 ≤ pinned_bytes ls)%Z.
Proof. rw -text_bytes. lia. Qed.

(** ** The builder *)

(** What is left for degradable lines. *)
Definition room (b : Builder) : Z := (bd_remaining b - bd_futurePinned b)%Z.

Lemma pinned_fold lines b :
  let b' := foldl write_pinned b lines in
  bd_buf b' = bd_buf b +:+ text lines ∧ room b' = room b ∧ bd_omitted b' = bd_omitted b.
Proof.
  revert b. induction lines as [|l lines IH]; intros b; simpl; [by rw app_empty|].
  destruct (IH (write_pinned b l)) as (-> & -> & ->). rw text_cons /write_pinned /write /room /=.
  split_and!; [by rw !app_assoc_text|lia|done].
Qed.

(** A degradable line that was left out of a text with so much room. *)
Definition left_out (kind : FactKind) (b : Builder) (l : degradableLine) : Prop :=
  (room b < line_bytes (dl_text l))%Z ∧ (dl_id l = "" ∨ {| om_Kind := kind; om_ID := dl_id l |} ∈ bd_omitted b).

(** A later state of the builder: less room, more omissions. *)
Definition fuller (b b' : Builder) : Prop :=
  (0 ≤ room b → 0 ≤ room b' ≤ room b)%Z ∧ ∀ o, o ∈ bd_omitted b → o ∈ bd_omitted b'.

#[local] Instance fuller_preorder : PreOrder fuller.
Proof. split; [by intros b; split|]. intros a b c [H1 H2] [H3 H4]. split; [lia|auto]. Qed.

Lemma left_out_later kind b b' l : (0 ≤ room b)%Z → fuller b b' → left_out kind b l → left_out kind b' l.
Proof. intros Hr [H1 H2] [H3 [H4|H4]]; (split; [lia|]); auto. Qed.

Lemma write_degradable_spec kind b l :
  let b' := write_degradable kind b l in
  (0 ≤ room b)%Z → fuller b b' ∧
  ((bd_buf b' = bd_buf b +:+ text [dl_text l] ∧ room b' = (room b - line_bytes (dl_text l))%Z)
   ∨ (bd_buf b' = bd_buf b ∧ room b' = room b ∧ left_out kind b' l)).
Proof.
  intros b' Hr. subst b'. rw /write_degradable. fold (room b). destruct (Z.ltb_spec (room b) (line_bytes (dl_text l))).
  - destruct (String.eqb_spec (dl_id l) "") as [Hid|Hid].
    + split; [done|]. right. split_and!; [done..|]. by split; [|left].
    + split; [split; [done|]; intros o Ho; set_solver|]. right. split_and!; [done..|]. split; [done|]. right. set_solver.
  - split; [split; [|done]; rw /write /room /=; rw /room /line_bytes in Hr H |- *; lia|]. left.
    rw /write /room /=. split; [by rw text_cons app_empty|lia].
Qed.

Lemma degradable_fold kind lines b :
  let b' := foldl (write_degradable kind) b lines in
  (0 ≤ room b)%Z → ∃ kept, sublist kept lines
    ∧ bd_buf b' = bd_buf b +:+ text (dl_text <$> kept) ∧ room b' = (room b - pinned_bytes (dl_text <$> kept))%Z
    ∧ fuller b b' ∧ ∀ l, l ∈ lines → l ∉ kept → left_out kind b' l.
Proof.
  revert b. induction lines as [|l lines IH]; intros b b' Hr.
  { exists []. rw /b' /= app_empty Z.sub_0_r. split_and!; [constructor|done..|set_solver]. }
  destruct (write_degradable_spec kind b l Hr) as [Hf Hw]. pose proof (proj1 Hf Hr) as [Hr' _].
  destruct (IH _ Hr') as (kept & Hs & Hb & Hm & Hf' & Hl). rw /b' /=.
  destruct Hw as [[Hwb Hwr]|(Hwb & Hwr & Hout)].
  - exists (l :: kept). cbn [fmap list_fmap]. split_and!.
    + by constructor.
    + rw Hb Hwb app_assoc_text -text_app //.
    + rw Hm Hwr /=. lia.
    + by etrans.
    + intros l' [->|Hin]%elem_of_cons Hn; [set_solver|]. apply Hl; set_solver.
  - exists kept. split_and!; [by constructor|by rw Hb Hwb|by rw Hm Hwr|by etrans|].
    intros l' [->|Hin]%elem_of_cons Hn; [|by apply Hl]. by eapply left_out_later.
Qed.

(** The lines of a section with the degradable lines that were chosen. *)
Definition section_lines (s : section) (kept : list degradableLine) : list string :=
  (sc_pinned s ++ (dl_text <$> kept))%list.

Lemma sections_fold sections b :
  let b' := foldl write_section b sections in
  (0 ≤ room b)%Z → ∃ chosen,
    Forall2 (λ s kept, sublist kept (sc_degradable s) ∧
      ∀ l, l ∈ sc_degradable s → l ∉ kept → left_out (sc_kind s) b' l) sections chosen
    ∧ bd_buf b' = bd_buf b +:+ text (concat (zip_with section_lines sections chosen))
    ∧ room b' = (room b + pinned_bytes (flat_map sc_pinned sections)
                 - pinned_bytes (concat (zip_with section_lines sections chosen)))%Z
    ∧ fuller b b'.
Proof.
  revert b. induction sections as [|s sections IH]; intros b b' Hr.
  { exists []. rw /b' /= app_empty. split_and!; [constructor|done|lia|done]. }
  destruct (pinned_fold (sc_pinned s) b) as (Hpb & Hpr & Hpo).
  set (b1 := foldl write_pinned b (sc_pinned s)) in *.
  assert (0 ≤ room b1)%Z as Hr1 by lia.
  destruct (degradable_fold (sc_kind s) (sc_degradable s) b1 Hr1) as (kept & Hs & Hb & Hm & Hf & Hl).
  set (b2 := foldl (write_degradable (sc_kind s)) b1 (sc_degradable s)) in *.
  pose proof (proj1 Hf Hr1) as [Hr2 _].
  destruct (IH b2 Hr2) as (chosen & Hc & Hcb & Hcr & Hcf).
  change b' with (foldl write_section b2 sections).
  exists (kept :: chosen). cbn [zip_with concat flat_map]. split_and!.
  - constructor; [|done]. split; [done|]. intros l Hin Hn. eapply left_out_later; [exact Hr2|exact Hcf|by apply Hl].
  - rw Hcb Hb Hpb /section_lines !text_app !app_assoc_text //.
  - rw Hcr Hm Hpr /section_lines !pinned_bytes_app. lia.
  - etrans; [|exact Hcf]. etrans; [|exact Hf]. split; [lia|]. by rw Hpo.
Qed.

(** ** The text of a compilation *)

Definition effective_budget (input : Input) : Budget :=
  if (MaxContextBytes (ci_Budget input) =? 0)%Z then DefaultBudget else ci_Budget input.

Definition sections_of (snapshot : RecoverySnapshot) (input : Input) : list section :=
  pt_section <$> extract snapshot input (effective_budget input).

(** The result of rendering: all pinned lines, the chosen degradable ones, and
    for each of the others a reason and a record. *)
Definition faithful (budget : Budget) (sections : list section) (rendered : string) (omitted : list OmittedItem) : Prop :=
  ∃ chosen, rendered = text (concat (zip_with section_lines sections chosen))
    ∧ Forall2 (λ s kept, sublist kept (sc_degradable s) ∧
        ∀ l, l ∈ sc_degradable s → l ∉ kept →
          (MaxContextBytes budget < Z.of_nat (String.length rendered) + line_bytes (dl_text l))%Z
          ∧ (dl_id l = "" ∨ {| om_Kind := sc_kind s; om_ID := dl_id l |} ∈ omitted)) sections chosen
    ∧ (Z.of_nat (String.length rendered) ≤ MaxContextBytes budget)%Z.

Lemma renderCompiled_faithful sections budget rendered omitted :
  renderCompiled sections budget = inr (rendered, omitted) → faithful budget sections rendered omitted.
Proof.
  rw /renderCompiled. destruct (Z.ltb_spec (MaxContextBytes budget) (pinnedBytes sections)) as [|Hfit]; [done|].
  set (b := newDeterministicBuilder _ _). intros [= <- <-].
  destruct (sections_fold sections b) as (chosen & Hc & Hb & Hr & Hf); [rw /room /=; lia|].
  set (b' := foldl write_section b sections) in *.
  assert (0 ≤ room b')%Z as Hr' by (apply Hf; rw /room /=; lia).
  change (bd_buf b) with "" in Hb. rw /= in Hb.
  assert (room b' = MaxContextBytes budget - Z.of_nat (String.length (bd_buf b')))%Z as Hroom.
  { rw Hr Hb text_bytes /room /= /pinnedBytes. lia. }
  exists chosen. split_and!; [done| |lia].
  eapply Forall2_impl; [exact Hc|]. intros s kept [Hs Hl]. split; [done|]. intros l Hin Hn.
  destruct (Hl l Hin Hn) as [H1 H2]. split; [lia|done].
Qed.

Lemma Compile_ok `{Codec} input c :
  Compile input = (None, c) → ∃ snapshot rendered omitted, ci_Snapshot input = Some snapshot
    ∧ renderCompiled (sections_of snapshot input) (effective_budget input) = inr (rendered, omitted)
    ∧ cp_render c = Redact rendered
    ∧ cp_evidenceIDs c = sort_Strings (citable_ids (sn_ToolAttempts snapshot))
    ∧ dg_Omitted (cp_Diagnostics c)
      = (flat_map pt_omitted (extract snapshot input (effective_budget input)) ++ omitted)%list.
Proof.
  rw /Compile. destruct (ci_Snapshot input) as [snapshot|]; [|done]. fold (effective_budget input).
  destruct (Budget_Validate _); [done|]. fold (sections_of snapshot input).
  destruct (renderCompiled _ _) as [reason|[rendered omitted]] eqn:E; [done|]. intros [= <-].
  by exists snapshot, rendered, omitted.
Qed.


(** ** What is named *)

Definition names (whole part : string) : Prop := ∃ before after, whole = before +:+ part +:+ after.

Lemma names_refl s : names s s.
Proof. exists "", "". by rw /= app_empty. Qed.

Lemma names_trans a b c : names a b → names b c → names a c.
Proof.
  intros (x & y & ->) (x' & y' & ->). exists (x +:+ x'), (y' +:+ y). by rw !app_assoc_text.
Qed.

Lemma names_prefix pre s : names (pre +:+ s) s.
Proof. exists pre, "". by rw app_empty. Qed.

Lemma names_suffix s post : names (s +:+ post) s.
Proof. by exists "", post. Qed.

Lemma concat_names separator x l : x ∈ l → names (String.concat separator l) x.
Proof.
  induction l as [|y l IH]; [set_solver|]. intros [->|Hin]%elem_of_cons.
  - destruct l; [apply names_refl|apply names_suffix].
  - destruct l as [|z l]; [set_solver|]. eapply names_trans; [|by apply IH].
    change (String.concat separator (y :: z :: l)) with (y +:+ separator +:+ String.concat separator (z :: l)).
    rw -app_assoc_text. apply names_prefix.
Qed.

Lemma ids_line_names title none x l : x ∈ l → names (ids_line title none l) x.
Proof.
  intros Hin. rw /ids_line. destruct l as [|y l]; [set_solver|].
  eapply names_trans; [apply names_prefix|by apply concat_names].
Qed.

Lemma text_names l lines : l ∈ lines → names (text lines) l.
Proof.
  intros Hin. eapply names_trans; [eapply concat_names|apply (names_suffix l newline)].
  apply list_elem_of_fmap. by exists l.
Qed.

Lemma pinned_named budget sections rendered omitted s line :
  faithful budget sections rendered omitted → s ∈ sections → line ∈ sc_pinned s → names rendered line.
Proof.
  intros (chosen & -> & Hc & _) Hs Hl. apply text_names. clear -Hc Hs Hl.
  revert Hs. induction Hc as [|s' kept secs ks _ _ IH]; intros Hs; [by destruct (not_elem_of_nil _ Hs)|].
  cbn [zip_with concat]. apply elem_of_app. apply elem_of_cons in Hs as [->|Hs]; [left|by right; apply IH].
  rw /section_lines. set_solver.
Qed.

(** What a resumed run must not lose sight of. *)
Inductive open_item (snapshot : RecoverySnapshot) (input : Input) : string → Prop :=
  | open_objective : open_item snapshot input (recorded (rt_Objective (sn_Task snapshot)))
  | open_evidence a : a ∈ sn_ToolAttempts snapshot → citable a = true → open_item snapshot input (ra_EvidenceID a)
  | open_failure a : a ∈ sn_ToolAttempts snapshot → ra_Status a = "failed" → open_item snapshot input (ra_ExecutionID a)
  | open_effect a : a ∈ sn_ToolAttempts snapshot → unreconciled a = true → open_item snapshot input (ra_ExecutionID a)
  | open_request a : a ∈ sn_ProviderAttempts snapshot → maybe_upstream a = true → open_item snapshot input (rv_ExecutionID a)
  | open_approval a : a ∈ ci_PendingApprovals input → open_item snapshot input (pa_ActionID a)
  | open_check plan c : acceptance_plan snapshot = Some plan → c ∈ remaining_checks snapshot plan →
      open_item snapshot input (ck_ID c)
  | open_unit u : u ∈ ci_WorkUnits input → open_item snapshot input (ru_WorkUnitID u).

Lemma elem_of_selected {A B} (f : A → B) (p : A → bool) a (l : list A) : a ∈ l → p a = true → f a ∈ f <$> filter p l.
Proof. intros Ha Hp. apply list_elem_of_fmap. exists a. split; [done|]. apply list_elem_of_filter. by rw Hp. Qed.

(** The only pinned line of a part of the text. *)
Ltac pinned_in p :=
  exists p; eexists; split; [rw /extract; set_solver|split; [by apply list_elem_of_singleton|]].

Lemma open_pinned snapshot input id :
  open_item snapshot input id → ∃ s line, s ∈ sections_of snapshot input ∧ line ∈ sc_pinned s ∧ names line id.
Proof.
  intros Hopen.
  assert (∃ p line, p ∈ extract snapshot input (effective_budget input) ∧ line ∈ sc_pinned (pt_section p) ∧ names line id)
    as (p & line & Hp & Hl & Hn).
  { destruct Hopen as [|a Ha Hc|a Ha Hc|a Ha Hc|a Ha Hc|a Ha|plan c Hplan Hc|u Hu].
    - pinned_in (objective_part snapshot). apply names_prefix.
    - pinned_in (evidence_part snapshot (effective_budget input)). apply ids_line_names, elem_of_sort.
      rw /citable_ids list_elem_of_In -in_rev -list_elem_of_In elem_of_sort. by apply elem_of_selected.
    - pinned_in (failure_part snapshot (effective_budget input)). apply ids_line_names. rw /selectFailures.
      apply list_elem_of_fmap. exists (failure_line a). split; [done|]. apply list_elem_of_fmap. exists a.
      split; [done|]. by apply list_elem_of_filter.
    - pinned_in (uncertain_part snapshot (effective_budget input)). apply ids_line_names. rw /selectUncertain.
      apply list_elem_of_fmap. exists (tool_item a). split; [done|]. apply elem_of_app. left. by apply elem_of_selected.
    - pinned_in (uncertain_part snapshot (effective_budget input)). apply ids_line_names. rw /selectUncertain.
      apply list_elem_of_fmap. exists (provider_item a). split; [done|]. apply elem_of_app. right.
      apply elem_of_app. right. apply elem_of_app. right. by apply elem_of_selected.
    - pinned_in (approval_part (ci_PendingApprovals input) (effective_budget input)). apply ids_line_names, list_elem_of_fmap. by exists a.
    - exists (acceptance_part snapshot). rw /acceptance_part Hplan.
      destruct (remaining_checks snapshot plan) as [|c' cs] eqn:E; [by destruct (not_elem_of_nil _ Hc)|].
      eexists. split_and!; [rw /extract /acceptance_part Hplan E; set_solver|by apply list_elem_of_singleton|].
      eapply names_trans; [apply names_prefix|]. apply concat_names, list_elem_of_fmap. by exists c.
    - pinned_in (unit_part (ci_WorkUnits input)).
      eapply names_trans; [eapply ids_line_names, elem_of_sort, list_elem_of_fmap; by exists u|apply names_suffix]. }
  exists (pt_section p), line. split_and!; [|done..]. apply list_elem_of_fmap. by exists p.
Qed.

(** C40: nothing open is lost.  The text that a compilation gives, before redaction,
    names the objective, all evidence that may be cited, every failed attempt, every
    effect and every request that is uncertain, every pending approval, every check
    that has not passed in the verification that the compiler takes for the latest,
    and every work unit, whatever the budget. *)
Theorem Compile_names `{Codec} (input : Input) (c : Compiled) :
  Compile input = (None, c) → ∃ snapshot rendered, ci_Snapshot input = Some snapshot
    ∧ cp_render c = Redact rendered ∧ ∀ id, open_item snapshot input id → names rendered id.
Proof.
  intros E. destruct (Compile_ok _ _ E) as (snapshot & rendered & omitted & Hs & Hr & Hc & _ & _).
  exists snapshot, rendered. split_and!; [done..|]. intros id (s & line & Hin & Hl & Hn)%open_pinned.
  eapply names_trans; [|exact Hn]. by eapply pinned_named; [apply renderCompiled_faithful|..].
Qed.

(** ** Which verification the text calls the latest *)

(** The pinned line of the verification section shows the first of the attempts,
    which the store returns oldest first. *)
Lemma verification_shows_first snapshot budget a rest :
  sn_VerificationAttempts snapshot = a :: rest →
  sc_pinned (pt_section (verification_part snapshot budget)) = ["verification: latest decision " +:+ vt_Decision a].
Proof. intros E. by rw /verification_part E. Qed.
