(* ===== verification/Recovery.v ===== *)
(** * Resuming an interrupted task (internal/recovery/recovery.go)

    The pipeline that classifies and settles what an interruption left behind,
    decides whether the task may go on, and reconstructs what the next run starts
    from.  It is a computation over the same world as a run. *)

From stdpp Require Import pretty.
From S2P Require Import Prelude GoTime Policy Verifier Provider Receipts GovTypes Ledger GovState Persist Execute.
From S2P Require Import Text Json TimeText Database WorkUnits Protocol Recipe Observations Workspace ToolArguments Writing.
From S2P Require Import Reading Search Tools Encode Actions ProviderStore RecoveryStore Outcomes LoopTypes Loop Context.
From S2P Require Import Verifier.

Local Open Scope string_scope.
Local Open Scope runstead_scope.

(** ** Decisions and plans *)

Inductive RecoveryDecision := DecisionContinue | DecisionHumanReview | DecisionGovernorBlocked.

#[export] Instance RecoveryDecision_eq_dec : EqDecision RecoveryDecision.
Proof. solve_decision. Defined.

Definition RecoveryDecision_String (d : RecoveryDecision) : string :=
  match d with
  | DecisionContinue => "continue"
  | DecisionHumanReview => "human_review_required"
  | DecisionGovernorBlocked => "governor_blocked"
  end.

Record TaskInfo := { ti_ID : string; ti_Objective : string; ti_Workspace : string; ti_Model : string; ti_ConfigJSON : string }.

Record RecoveryPlan := {
  rp_Decision_ : RecoveryDecision;
  rp_Reason_ : string;
  rp_ReconciledToolAttempts : Z;
  rp_ReconciledProviderAttempts : Z;
  rp_UncertainProviderAttempts : Z;
  rp_Seed : option RecoverySeed;
  rp_Task : TaskInfo;
  rp_NextEvidenceSequence : Z
}.

Inductive ResumeError :=
  | ErrTaskIDRequired
  | ErrTerminal (taskID status : string)
  | ErrStore (what : string) (e : StoreError)
  | ErrReconstruct (e : CompileError).

(** ** Classification *)

Definition isTerminalTaskStatus (status : string) : bool :=
  negb (String.eqb status "planned" || String.eqb status "running").

Inductive toolClass := toolVerified | toolFailed | toolNoop | toolReplaySafe | toolWriteReconcile | toolHumanReview.

Definition isWriteTool (tool : string) : bool := String.eqb tool ToolWriteFile || String.eqb tool ToolApplyPatch.

Definition classifyToolAttempt (attempt : RecoveryToolAttempt) : toolClass :=
  let status := ra_Status attempt in
  if String.eqb status "completed" then toolVerified
  else if String.eqb status "failed" then toolFailed
  else if String.eqb status "reconciled" || String.eqb status "canceled" then toolNoop
  else if String.eqb status "human_review_required" then toolHumanReview
  else if (ra_RecoveryClass attempt =? 1)%Z then toolReplaySafe
  else if (ra_RecoveryClass attempt =? 2)%Z && isWriteTool (ra_Tool attempt) then toolWriteReconcile
  else toolHumanReview.

Inductive providerClass := providerDone | providerConservative | providerHumanReview.

Definition classifyProviderAttempt (attempt : RecoveryProviderAttempt) : providerClass :=
  let status := rv_Status attempt in
  if existsb (String.eqb status) ["completed"; "failed"; "reconciled"; "canceled"] then providerDone
  else if String.eqb status "human_review_required" then providerHumanReview
  else providerConservative.

(** ** Identifiers of evidence *)

(** The digits of an identifier as a machine integer; 0 when there is another
    character. *)
Fixpoint sequence_digits (acc : Z) (s : string) : Z :=
  match s with
  | EmptyString => acc
  | String c s' => if digit c then sequence_digits (wrap64 (acc * 10 + (byte_of c - 48))) s' else 0%Z
  end.

Definition evidenceSequence (evidenceID : string) : Z :=
  if String.prefix "obs-" evidenceID then sequence_digits 0 (drop_bytes 4 evidenceID) else 0%Z.

Definition maxEvidenceSequence (evidence : list RecoveryEvidence) : Z :=
  foldl (λ max e, Z.max max (evidenceSequence (re_EvidenceID e))) 0%Z evidence.

(** ** Decoding what was stored *)

(** [json.Unmarshal] into a struct, its error ignored: fields of a wrong type keep
    their values. *)
Definition decode_leniently {A} (names : list string) (set : string → json → A → option A) (zero : A) (raw : string) : A :=
  match parse raw with
  | Some (JObject members) =>
    foldl (λ a '(key, value),
      match resolve names key with Some name => default a (set name value a) | None => a end) zero members
  | _ => zero
  end.

Definition decodePlannedEffect (raw : string) : Writing.PlannedEffect :=
  decode_leniently ["diff"; "diff_bytes"; "diff_truncated"]
    (λ name v e,
      if String.eqb name "diff" then s ← as_string v (Writing.pe_Diff e);
        Some {| Writing.pe_Diff := s; Writing.pe_DiffBytes := Writing.pe_DiffBytes e; Writing.pe_DiffTruncated := Writing.pe_DiffTruncated e |}
      else if String.eqb name "diff_bytes" then n ← as_int64 v (Writing.pe_DiffBytes e);
        Some {| Writing.pe_Diff := Writing.pe_Diff e; Writing.pe_DiffBytes := n; Writing.pe_DiffTruncated := Writing.pe_DiffTruncated e |}
      else b ← as_bool v (Writing.pe_DiffTruncated e);
        Some {| Writing.pe_Diff := Writing.pe_Diff e; Writing.pe_DiffBytes := Writing.pe_DiffBytes e; Writing.pe_DiffTruncated := b |})
    no_effect raw.

Definition zero_metadata : Observations.Metadata := (metadata_of "") <| md_ExitCode := 0%Z |>.

(** Data and metadata of an observation, decoded into values of any type. *)
Class Stored := { StoredData : string → Data; StoredMetadata : string → Observations.Metadata }.

Definition decodeAny {A} (decode : string → A) (zero : A) (raw : string) : A :=
  if String.eqb (TrimSpace raw) "" then zero else decode raw.

(** ** What the next run starts from *)

Section seed.
Context `{Decoder} `{Stored}.

(** A failed attempt, or a recipe whose stored evidence has another exit code than 0. *)
Definition toolAttemptCountedAsFailure (byID : gmap string RecoveryEvidence) (attempt : RecoveryToolAttempt) : bool :=
  if String.eqb (ra_Status attempt) "failed" then true
  else if String.eqb (ra_Status attempt) "completed" && String.eqb (ra_Tool attempt) ToolRunRecipe then
    match byID !! ra_EvidenceID attempt with
    | None => false
    | Some item =>
      match UnmarshalProcess (re_DataJSON item) with
      | None => false
      | Some evidence => negb (pe_ExitCode evidence =? 0)%Z
      end
    end
  else false.

(** How many elements at the end of a list have a property. *)
Fixpoint leading {A} (p : A → bool) (l : list A) : Z :=
  match l with a :: l' => if p a then (1 + leading p l')%Z else 0%Z | [] => 0%Z end.

Definition trailing {A} (p : A → bool) (l : list A) : Z := leading p (rev l).

Definition trailingToolFailures (snapshot : RecoverySnapshot) : Z :=
  trailing (toolAttemptCountedAsFailure (by_evidence_id (sn_Evidence snapshot))) (sn_ToolAttempts snapshot).

Definition trailingVerificationFailures (snapshot : RecoverySnapshot) : Z :=
  trailing (λ a, String.eqb (vt_Decision a) "failed") (sn_VerificationAttempts snapshot).

Definition by_execution (attempts : list RecoveryToolAttempt) : gmap string RecoveryToolAttempt :=
  foldl (λ m a, <[ra_ExecutionID a := a]> m) ∅ attempts.

(** The observation that stored evidence gives. *)
Definition reconstructed_observation (attempts : list RecoveryToolAttempt) (e : RecoveryEvidence) : Observations.Observation := {|
  Observations.ob_ID := re_EvidenceID e;
  Observations.ob_Tool := if String.eqb (re_Tool e) ""
             then match by_execution attempts !! re_ExecutionID e with Some a => ra_Tool a | None => "" end
             else re_Tool e;
  Observations.ob_Arguments := ∅;
  Observations.ob_Success := true;
  Observations.ob_Data := decodeAny StoredData NoData (re_DataJSON e);
  Observations.ob_Failure := None;
  Observations.ob_Truncated := false;
  Observations.ob_Metadata := decodeAny StoredMetadata zero_metadata (re_MetadataJSON e) |}.

Definition reconstruct (snapshot : RecoverySnapshot) (acc : list Observations.Observation * gset string)
    (attempt : RecoveryToolAttempt) : list Observations.Observation * gset string :=
  let '(observations, seen) := acc in
  if negb (String.eqb (ra_Status attempt) "completed" || String.eqb (ra_Status attempt) "reconciled") then acc
  else if String.eqb (ra_EvidenceID attempt) "" || bool_decide (ra_EvidenceID attempt ∈ seen) then acc
  else
    match by_evidence_id (sn_Evidence snapshot) !! ra_EvidenceID attempt with
    | None => acc
    | Some e => ((observations ++ [reconstructed_observation (sn_ToolAttempts snapshot) e])%list,
                 {[ra_EvidenceID attempt]} ∪ seen)
    end.

Definition reconstructedObservations (snapshot : RecoverySnapshot) : list Observations.Observation :=
  (foldl (reconstruct snapshot) ([], ∅) (sn_ToolAttempts snapshot)).1.

Definition executed (attempt : RecoveryToolAttempt) : bool :=
  String.eqb (ra_Status attempt) "completed" || String.eqb (ra_Status attempt) "failed"
  || (String.eqb (ra_Status attempt) "reconciled" && String.eqb (ra_RecoveryReason attempt) "write_effect_completed").

Definition by_action (actions : list RecoveryAction) : gmap string RecoveryAction :=
  foldl (λ m a, <[rn_ActionID a := a]> m) ∅ actions.

Definition seed_guard (actions : gmap string RecoveryAction) (guard : gmap string string) (attempt : RecoveryToolAttempt)
    : gmap string string :=
  if negb (executed attempt) then guard
  else
    match actions !! ra_ActionID attempt with
    | None => guard
    | Some action =>
      if String.eqb (rn_Fingerprint action) "" then guard
      else match guard !! rn_Fingerprint action with
           | Some _ => guard
           | None => <[rn_Fingerprint action := rn_WorkspaceSignature action]> guard
           end
    end.

Definition reconstructedGuard (snapshot : RecoverySnapshot) : gmap string string :=
  foldl (seed_guard (by_action (sn_Actions snapshot))) ∅ (sn_ToolAttempts snapshot).

Definition buildSeed (snapshot : RecoverySnapshot) (context : Context_) (traceSequence : Z) : RecoverySeed :=
  let turns := Z.of_nat (length (sn_ProviderAttempts snapshot)) in {|
  sd_Turns := turns;
  sd_Attempts := turns;
  sd_Repeated := rejectedCount snapshot;
  sd_ConsecutiveFailures := trailingToolFailures snapshot;
  sd_VerificationRetries := trailingVerificationFailures snapshot;
  sd_Evidence := reconstructedObservations snapshot;
  sd_Guard := reconstructedGuard snapshot;
  sd_Context := cx_Text context;
  sd_TraceSequence := traceSequence |}.
End seed.

(** ** Protection of the account *)

(** [GovernorBlocks]: the reason why the governor keeps the task waiting, if it
    does.  [now] is the wall clock. *)
Definition circuit_reason (c : CircuitSnapshot) : option string :=
  match cs_State c with
  | CircuitHumanReviewRequired => Some "account circuit requires human acknowledgement"
  | CircuitOpenUntil => Some ("account circuit is open"
      +:+ (if IsZero (cs_OpenUntil c) then "" else " until " +:+ formatTime (cs_OpenUntil c - cs_OpenUntil c mod Second)%Z))
  | _ => if cs_RefreshRequired c then Some "account circuit requires credential refresh" else None
  end.

Definition telemetry_reason (t : TelemetrySummary) : option string :=
  if tsum_RateLimited t || tsum_CapacityExhausted t || bool_decide (tsum_UpstreamCircuit t = UpstreamCircuitOpen)
  then Some "upstream rate or capacity state blocks admission"
  else if tsum_Unsafe t then Some "conservative accounting is unsafe; human review required before continuation"
  else None.

(** A budget with a ceiling that is used up. *)
Definition used_up (used ceiling : Z) : bool := (0 <? ceiling)%Z && (ceiling <=? used)%Z.

Definition budget_reason (b : BudgetSnapshot) (task : option TaskSnapshot) : option string :=
  if used_up (Rolling3hUsed b) (Rolling3hCeiling b) then Some "rolling 3h provider budget exhausted"
  else if used_up (Rolling1hUsed b) (Rolling1hCeiling b) then Some "rolling 1h provider budget exhausted"
  else if used_up (Rolling10mUsed b) (Rolling10mCeiling b) then Some "rolling 10m provider budget exhausted"
  else match task with
       | Some usage => if used_up (tsn_Attempts usage) (TaskCeiling b) then Some "task provider budget exhausted" else None
       | None => None
       end.

Definition snapshot_reason (snapshot : GovernorSnapshot) (now : Time) (taskID : string) : option string :=
  match circuit_reason (sn_Circuit snapshot) with
  | Some reason => Some reason
  | None =>
    if negb (IsZero (sn_CooldownUntil snapshot)) && After (sn_CooldownUntil snapshot) now
    then Some ("account cooldown active until " +:+ formatTime (sn_CooldownUntil snapshot - sn_CooldownUntil snapshot mod Second)%Z)
    else match telemetry_reason (sn_Telemetry snapshot) with
         | Some reason => Some reason
         | None => budget_reason (sn_Budgets snapshot) (sn_Tasks snapshot !! taskID)
         end
  end.

Definition GovernorBlocks `{MapOrder} `{Env} (taskID : string) (now : Time) : State Governor (option string) :=
  snapshot ← Snapshot; mret (snapshot_reason snapshot now taskID).

(** ** The pipeline *)

Section resume.
Context `{Environment, Hash, Reads, !Commands} `{Disk} `{Codec} `{WallClock} `{LenientParse} `{Sorter} `{Decoder}
  `{Prose} `{MapOrder} `{LoopClock} `{AttemptRunner} `{Colleagues} `{Surveys} `{Texts} `{Stored}.

(** [Options]; the callbacks are computations.  Without a callback nothing is asked. *)
Record Options := {
  op_TaskID : string;
  op_Traced : bool;
  op_Budget : Budget;
  op_PendingApprovals : option (string → DB (list PendingApproval));
  op_CurrentWorkspaceSignature : string;
  op_WorkspaceSignature : option (string → Run (option string));
  op_Blocked : option (Run (option string))
}.

Variable options : Options.

(** [traceLines.emit] *)
Definition trace_emit (kind status : string) : Run unit :=
  if op_Traced options then emit (trace_line kind status) else mret tt.

(** A use of the store; its failure ends the pipeline. *)
Definition tried {A B} (what : string) (c : DB A) (k : A → Run (ResumeError + B)) : Run (ResumeError + B) :=
  r ← db c; match r with inl e => mret (inl (ErrStore what e)) | inr a => k a end.

(** What the loops over the attempts have found. *)
Record Progress := {
  pg_tools : Z;
  pg_providers : Z;
  pg_uncertain : Z;
  pg_humanReview : list string;
  pg_nextEvidence : Z
}.

#[export] Instance eta_Progress : Settable Progress := λ p,
  Build_Progress (pg_tools p) (pg_providers p) (pg_uncertain p) (pg_humanReview p) (pg_nextEvidence p).

(** A loop whose body may fail. *)
Fixpoint each {A} (body : Progress → A → Run (ResumeError + Progress)) (l : list A) (p : Progress)
    : Run (ResumeError + Progress) :=
  match l with
  | [] => mret (inr p)
  | a :: l' => r ← body p a; match r with inl e => mret (inl e) | inr p => each body l' p end
  end.

Definition settle_tool_attempt (executionID status reason : string) : DB unit :=
  ReconcileToolAttempt (op_TaskID options) executionID status reason.

(** The transaction that records what has become of an interrupted write, whether
    it asks for a human, and the number of the last evidence.  A write that is found
    completed always comes with evidence. *)
Definition write_settlement (attempt : RecoveryToolAttempt) (result : ReconcileResult) (nextEvidence : Z) : DB unit * bool * Z :=
  let id := ra_ExecutionID attempt in
  match rr_Status result, rr_Evidence result with
  | ReconcileNotStarted, _ => (settle_tool_attempt id "reconciled" "write_effect_not_started", false, nextEvidence)
  | ReconcileCompleted, Some evidence =>
    let n := (nextEvidence + 1)%Z in
    (ReconcileWriteAttempt {| rw_TaskID := op_TaskID options; rw_ExecutionID := id; rw_Status := "reconciled";
       rw_Reason := "write_effect_completed"; rw_EvidenceID := observation_id (Z.to_nat n); rw_Evidence := evidence |}, false, n)
  | _, _ => (settle_tool_attempt id "human_review_required" "write_effect_unreconcilable", true, nextEvidence)
  end.

Definition reconcileWriteAttempt (workspace : string) (p : Progress) (attempt : RecoveryToolAttempt)
    : Run (ResumeError + Progress) :=
  result ← os (ReconcileWrite workspace {| wi_Tool := ra_Tool attempt; wi_Arguments := ra_ArgumentsJSON attempt;
    wi_ExpectedAfterHash := ra_EffectAfterHash attempt;
    wi_PlannedEffect := decodePlannedEffect (ra_PlannedEffectJSON attempt) |});
  let '(transaction, review, next) := write_settlement attempt result (pg_nextEvidence p) in
  tried "reconcile write attempt" transaction (λ _,
  let p := p <| pg_tools ::= Z.succ |> <| pg_nextEvidence := next |> in
  if review then
    _ ← trace_emit TraceRecoveryUncertain ("write attempt " +:+ ra_ExecutionID attempt
      +:+ " requires human review: the filesystem state matches neither the recorded precondition nor the expected after-state");
    mret (inr (p <| pg_humanReview ::= λ l, (l ++ [ra_ExecutionID attempt])%list |>))
  else
    _ ← trace_emit TraceRecoveryReconcile ("write attempt " +:+ ra_ExecutionID attempt +:+ " reconciled from observable filesystem state");
    mret (inr p)).

(** One turn of the loop over tool attempts. *)
Definition recover_tool (workspace : string) (p : Progress) (attempt : RecoveryToolAttempt) : Run (ResumeError + Progress) :=
  let id := ra_ExecutionID attempt in
  match classifyToolAttempt attempt with
  | toolVerified | toolFailed | toolNoop => mret (inr p)
  | toolReplaySafe =>
    tried "reconcile tool attempt" (settle_tool_attempt id "reconciled" "replay_safe_observation") (λ _,
    _ ← trace_emit TraceRecoveryReconcile ("tool attempt " +:+ id +:+ " reconciled as replay_safe_observation");
    mret (inr (p <| pg_tools ::= Z.succ |>)))
  | toolWriteReconcile => reconcileWriteAttempt workspace p attempt
  | toolHumanReview =>
    tried "mark tool attempt human review" (settle_tool_attempt id "human_review_required" "unreconcilable_effect") (λ _,
    _ ← trace_emit TraceRecoveryUncertain ("tool attempt " +:+ id
      +:+ " requires human review: effect may have occurred and cannot be reconciled safely");
    mret (inr (p <| pg_humanReview ::= λ l, (l ++ [id])%list |>)))
  end.

(** The conservative settlement of a request that may have reached upstream. *)
Definition provider_settlement (attempt : RecoveryProviderAttempt) : DB unit :=
  ReconcileProviderAttempt {| rc_TaskID := op_TaskID options; rc_ExecutionID := rv_ExecutionID attempt;
    rc_RequestID := rv_ClientRequestID attempt; rc_Status := "reconciled"; rc_Reason := "upstream_may_have_been_reached";
    rc_Uncertain := true; rc_AttemptDebited := 1; rc_DebitAt := rv_PreparedAt attempt;
    rc_ApplyConservativeDebit := rv_ReceiptAware attempt && negb (String.eqb (rv_Status attempt) "uncertain") |}.

(** One turn of the loop over provider attempts. *)
Definition recover_provider (p : Progress) (attempt : RecoveryProviderAttempt) : Run (ResumeError + Progress) :=
  let id := rv_ExecutionID attempt in
  match classifyProviderAttempt attempt with
  | providerDone => mret (inr p)
  | providerHumanReview =>
    _ ← trace_emit TraceRecoveryUncertain ("provider attempt " +:+ id +:+ " already requires human review");
    mret (inr (p <| pg_humanReview ::= λ l, (l ++ [id])%list |>))
  | providerConservative =>
    tried "reconcile provider attempt" (provider_settlement attempt) (λ _,
    _ ← trace_emit TraceRecoveryUncertain ("provider attempt " +:+ id
      +:+ " may have reached upstream; conservative debit preserved; not retried");
    mret (inr (p <| pg_providers ::= Z.succ |> <| pg_uncertain ::= Z.succ |>)))
  end.

Definition no_progress (evidence : list RecoveryEvidence) : Progress := {|
  pg_tools := 0; pg_providers := 0; pg_uncertain := 0; pg_humanReview := []; pg_nextEvidence := maxEvidenceSequence evidence |}.

(** The plan that a decision gives. *)
Definition plan_of (task : RecoveryTask) (p : Progress) (decision : RecoveryDecision) (reason : string)
    (seed : option RecoverySeed) (nextEvidence : Z) : RecoveryPlan := {|
  rp_Decision_ := decision; rp_Reason_ := reason; rp_ReconciledToolAttempts := pg_tools p;
  rp_ReconciledProviderAttempts := pg_providers p; rp_UncertainProviderAttempts := pg_uncertain p; rp_Seed := seed;
  rp_Task := {| ti_ID := rt_TaskID task; ti_Objective := rt_Objective task; ti_Workspace := rt_Workspace task;
    ti_Model := rt_Model task; ti_ConfigJSON := rt_ConfigJSON task |};
  rp_NextEvidenceSequence := nextEvidence |}.

Definition review_reason (attempts : list string) : string :=
  "automatic continuation stopped: " +:+ count_text attempts +:+ " attempt(s) require human review before any new execution".

(** The end of a pipeline that found effects it cannot settle. *)
Definition await_review (task : RecoveryTask) (p : Progress) : Run (ResumeError + RecoveryPlan) :=
  let reason := review_reason (pg_humanReview p) in
  tried "mark task human review" (MarkHumanReviewRequired (op_TaskID options) reason (Some (pg_humanReview p))) (λ _,
  _ ← trace_emit TraceRecoveryUncertain reason;
  mret (inr (plan_of task p DecisionHumanReview reason None 0))).

(** The end of a pipeline that the protection of the account keeps waiting. *)
Definition await_governor (task : RecoveryTask) (p : Progress) (reason : string) : Run (ResumeError + RecoveryPlan) :=
  tried "persist recovery blocked event" (AppendRecoveryEvent (op_TaskID options) (RecoveryBlocked (Redact reason))) (λ _,
  _ ← trace_emit TraceRecoveryBlocked reason;
  mret (inr (plan_of task p DecisionGovernorBlocked reason None 0))).

(** The signature that is known of the workspace; an empty one is not known. *)
Definition current_signature (workspace : string) : Run string :=
  if String.eqb (op_CurrentWorkspaceSignature options) "" && negb (String.eqb workspace "") then
    match op_WorkspaceSignature options with
    | Some observe => observed ← observe workspace; mret (default "" observed)
    | None => mret ""
    end
  else mret (op_CurrentWorkspaceSignature options).

(** The context, the events at the boundary, and the seed. *)
Definition reconstruct_context (task : RecoveryTask) (p : Progress) (snapshot : RecoverySnapshot)
    (approvals : list PendingApproval) (signature : string) : Run (ResumeError + RecoveryPlan) :=
  let context := BuildContext snapshot (if (MaxContextBytes (op_Budget options) <=? 0)%Z then DefaultBudget else op_Budget options)
    approvals signature in
  match cx_Err context with
  | Some e => mret (inl (ErrReconstruct e))
  | None =>
    tried "persist recovery context event" (AppendRecoveryEvent (op_TaskID options) (RecoveryContextReconstructed
      (cx_EvidenceIDs context) (pg_tools p) (pg_providers p) (pg_uncertain p) (cx_Chars context))) (λ _,
    _ ← trace_emit TraceRecoveryContext ("reconstructed " +:+ pretty (cx_Chars context) +:+ "-byte context with "
      +:+ count_text (cx_EvidenceIDs context) +:+ " evidence ids; compiler " +:+ dg_CompilerVersion (cx_Diagnostics context));
    sequence ← local lo_sequence;
    let seed := buildSeed snapshot context sequence in
    tried "persist recovery boundary event" (AppendRecoveryEvent (op_TaskID options) (RecoveryContinued (sd_Turns seed)
      (sd_Attempts seed) (Z.of_nat (length (sd_Evidence seed))) (cx_Chars context))) (λ _,
    mret (inr (plan_of task p DecisionContinue "" (Some seed) (pg_nextEvidence p)))))
  end.

(** What follows when nothing needs a human: the units that were interrupted are
    ready again, and the context is made of what is then stored. *)
Definition continue_task (task : RecoveryTask) (p : Progress) : Run (ResumeError + RecoveryPlan) :=
  let taskID := op_TaskID options in
  tried "reset interrupted work units" (ResetInterruptedWorkUnits taskID "interrupted; attempts reconciled") (λ _,
  tried "reconcile uncertain work units" (ReconcileUncertainWorkUnits taskID "effects reconciled by recovery") (λ _,
  tried "reload recovery snapshot after work unit reset" (LoadRecoverySnapshot taskID) (λ snapshot,
  signature ← current_signature (rt_Workspace (sn_Task snapshot));
  match op_PendingApprovals options with
  | None => reconstruct_context task p snapshot [] signature
  | Some load => tried "load pending approvals for context projection" (load taskID) (λ approvals,
      reconstruct_context task p snapshot approvals signature)
  end))).

Definition Resume : Run (ResumeError + RecoveryPlan) :=
  let taskID := op_TaskID options in
  if String.eqb taskID "" then mret (inl ErrTaskIDRequired)
  else
    _ ← set_local (λ _, zero_locals);
    tried "load recovery snapshot" (LoadRecoverySnapshot taskID) (λ snapshot,
    let task := sn_Task snapshot in
    if isTerminalTaskStatus (rt_Status task) then mret (inl (ErrTerminal taskID (rt_Status task)))
    else
      tried "mark recovery start" (MarkRecoveryStarted taskID "task interrupted; recovery started") (λ _,
      _ ← trace_emit TraceRecoveryStart "task interrupted; recovery started";
      tools ← each (recover_tool (rt_Workspace task)) (sn_ToolAttempts snapshot) (no_progress (sn_Evidence snapshot));
      match tools with
      | inl e => mret (inl e)
      | inr p =>
        providers ← each recover_provider (sn_ProviderAttempts snapshot) p;
        match providers with
        | inl e => mret (inl e)
        | inr p =>
          if negb (bool_decide (pg_humanReview p = [])) then await_review task p
          else
            tried "reload recovery snapshot after reconciliation" (LoadRecoverySnapshot taskID) (λ _,
            blocked ← match op_Blocked options with Some ask => ask | None => mret None end;
            match blocked with
            | Some reason => await_governor task p reason
            | None => continue_task task p
            end)
        end
      end)).
End resume.
