(* ===== verification/ResumeLaws.v ===== *)
(** * What a resumption guarantees

    What the transactions of a recovery do to the statuses of attempts; and the
    pipeline: it executes nothing, a task goes on only when none of its attempts is
    open, waits for a human otherwise, and continues to count where it stopped. *)

From S2P Require Import Prelude GoTime Policy Verifier Provider Receipts GovTypes Ledger GovState Persist Execute.
From S2P Require Import Text Json TimeText Protocol Recipe Observations Workspace ToolArguments Writing.
From S2P Require Import Reading Search Tools Encode WritingLaws Context Database UnitLaws WorkUnits Actions ActionLaws AttemptLaws ProviderStore ProviderLaws.
From S2P Require Import RecoveryStore Outcomes LoopTypes Loop LoopLaws LoopReports LoopBudgets Recovery.

Local Open Scope runstead_scope.

(** ** Statuses of attempts *)

(** The task, the identity and the status of every attempt. *)
Definition tool_view (t : Tables) : list (string * string * string) :=
  (λ a, (ta_task_id a, ta_execution_id a, ta_status a)) <$> tbl_tool_attempts t.

Definition provider_view (t : Tables) : list (string * string * string) :=
  (λ a, (pv_task_id a, pv_execution_id a, pv_status a)) <$> tbl_provider_attempts t.

(** The open rows of one attempt take a status. *)
Definition settled_view (p : string → bool) (taskID id status : string) (view : list (string * string * string))
    : list (string * string * string) :=
  (λ '(task, execution, old),
    if String.eqb execution id && String.eqb task taskID && p old then (task, execution, status) else (task, execution, old))
  <$> view.

(** Whether one is left to settle. *)
Definition open_in (p : string → bool) (taskID id : string) (view : list (string * string * string)) : Prop :=
  ∃ status, (taskID, id, status) ∈ view ∧ p status = true.

(** A part of the tables that stays the same. *)
Definition same {X} (f : Tables → X) (t t' : Tables) : Prop := f t' = f t.

#[export] Instance same_preorder {X} (f : Tables → X) : PreOrder (same f).
Proof. split; [done|]. intros a b c H1 H2. rw /same in H1 H2 |- *. congruence. Qed.

(** Everything recovery decides on. *)
Definition core (t : Tables) : list (string * string * string) * list (string * string * string) * gmap string TaskRow :=
  (tool_view t, provider_view t, tbl_tasks t).

Section store.
Context `{Disk} `{Codec} `{WallClock} `{LenientParse} `{Hash} `{MapOrder}.

(** ** What the transactions leave alone *)

Lemma same_append {X} (f : Tables → X) taskID payload at_ :
  (∀ t g, f (t <| tbl_events ::= g |>) = f t) → Database.within (same f) (appendEvent taskID payload at_).
Proof. intros Hf. apply (within_append (same f)). intros t event _ _ _. apply Hf. Qed.

Lemma same_statement {X A} (f : Tables → X) (g : Tables → StoreError + (A * Tables)) :
  (∀ t a t', g t = inr (a, t') → f t' = f t) → Database.within (same f) (statement g).
Proof. intros Hg. by apply (within_statement (same f)). Qed.

Lemma same_row {X} (f : Tables → X) table ok g : (∀ t, f (g t) = f t) → Database.within (same f) (insert_row table ok g).
Proof. intros Hg. apply same_statement. intros t [] t'. case_match; [|done]. by intros [= <-]. Qed.

Lemma same_recovery_event taskID payload : Database.within (same core) (AppendRecoveryEvent taskID payload).
Proof. rw /AppendRecoveryEvent. db_walk. by apply same_append. Qed.

Lemma same_update_unit taskID id from f : Database.within (same core) (update_work_unit taskID id from f).
Proof.
  apply same_statement. intros t a t' [= E]. revert E. destruct (unit_row t taskID id); [|by intros [= _ <-]].
  case_match; by intros [= _ <-].
Qed.

Lemma same_reset taskID reason : Database.within (same core) (ResetInterruptedWorkUnits taskID reason).
Proof. rw /ResetInterruptedWorkUnits. db_walk; [apply same_update_unit|by apply same_append]. Qed.

Lemma same_transition taskID id from to reason : Database.within (same core) (TransitionWorkUnit taskID id from to reason).
Proof.
  rw /TransitionWorkUnit /workUnitEvidenceRefsTx. db_walk.
  all: first [apply same_update_unit|by apply same_append|by apply within_return; apply _].
Qed.

Lemma same_uncertain taskID reason : Database.within (same core) (ReconcileUncertainWorkUnits taskID reason).
Proof.
  rw /ReconcileUncertainWorkUnits. apply within_check; [apply _| |].
  - rw /ListWorkUnits /with_dependencies. db_walk.
  - intros units. generalize O as changed. induction units as [|unit units IH]; intros changed; simpl; [by apply within_return; apply _|].
    case_match; [apply IH|]. apply within_check; [apply _|apply within_query; apply _|]. intros n. case_match; [apply IH|].
    apply within_check; [apply _|apply same_transition|by intros _].
Qed.

(** ** What the transactions do *)

Lemma row_frame {X} (f : Tables → X) taskID p g (e : StoreError) payload :
  (∀ t h, f (t <| tbl_events ::= h |>) = f t) → (∀ t h, f (t <| tbl_tasks ::= h |>) = f t) →
  Database.within (same f) (at_ ←? now; transaction (n ←? update_task taskID p (g at_); _ ←? assert_ (negb (Nat.eqb n 0)) e;
    appendEvent taskID payload at_)).
Proof.
  intros He Ht. db_walk; [|by apply same_append]. apply same_statement. intros t a' t' [= E]. revert E.
  destruct (tbl_tasks t !! taskID); [|by intros [= _ <-]]. case_match; intros [= _ <-]; [apply Ht|done].
Qed.

Definition views (t : Tables) : list (string * string * string) * list (string * string * string) :=
  (tool_view t, provider_view t).

Lemma started_ok taskID reason s u s' :
  MarkRecoveryStarted taskID reason s = (inr u, s') →
  views (tables s') = views (tables s) ∧ ∃ row, tbl_tasks (tables s') !! taskID = Some row ∧ tk_status row = "running"%string.
Proof.
  intros E. split.
  - pose proof (row_frame views taskID (λ s, String.eqb s "planned" || String.eqb s "running")
      (λ _ row, row <| tk_status := "running"%string |> <| tk_outcome := ""%string |> <| tk_stop_reason := ""%string |>
        <| tk_resume_count ::= Z.succ |>) ErrNotResumable (RecoveryStarted (Redact reason)) (λ _ _, eq_refl) (λ _ _, eq_refl) s) as Hw.
    rw /MarkRecoveryStarted in E. by rw E in Hw.
  - apply marked_row in E as (row & _ & Hrow). by eexists.
Qed.

Lemma human_review_ok taskID reason ids s u s' :
  MarkHumanReviewRequired taskID reason ids s = (inr u, s') →
  ∃ row, tbl_tasks (tables s') !! taskID = Some row ∧ tk_status row = "human_review_required"%string.
Proof.
  intros (at_ & s1 & s2 & _ & [_ (row & _ & Hrow)]%noted_update & ->)%operation_ok. by eexists.
Qed.

Lemma view_updated f taskID id status :
  (∀ a, ta_task_id (f a) = ta_task_id a ∧ ta_execution_id (f a) = ta_execution_id a ∧ ta_status (f a) = status) →
  ∀ rows, (λ a, (ta_task_id a, ta_execution_id a, ta_status a))
    <$> updated (λ a, is_attempt taskID id a && reconcilable (ta_status a)) f rows
  = settled_view reconcilable taskID id status ((λ a, (ta_task_id a, ta_execution_id a, ta_status a)) <$> rows).
Proof.
  intros Hf rows. rw /updated /settled_view -!list_fmap_compose. apply list_fmap_ext. intros i a _.
  rw /compose /is_attempt. case_match eqn:E; [|done].
  destruct (Hf a) as (-> & -> & ->). apply andb_true_iff in E as [[Hi Ht]%andb_true_iff Hr].
  apply String.eqb_eq in Hi as ->. by apply String.eqb_eq in Ht as ->.
Qed.

(** The provider attempts and the tasks. *)
Definition beside (t : Tables) : list (string * string * string) * gmap string TaskRow := (provider_view t, tbl_tasks t).

Lemma same_update_actions p f : Database.within (same beside) (update_actions p f).
Proof. apply same_statement. by intros t a t' [= _ <-]. Qed.

Lemma same_update_attempts status p f : Database.within (same beside) (update_attempts status p f).
Proof. apply same_statement. intros t a t'. case_match; [|done]. by intros [= _ <-]. Qed.

Lemma settle_tool_ok taskID id status reason s u s' :
  ReconcileToolAttempt taskID id status reason s = (inr u, s') →
  open_in reconcilable taskID id (tool_view (tables s))
  ∧ tool_view (tables s') = settled_view reconcilable taskID id status (tool_view (tables s))
  ∧ beside (tables s') = beside (tables s).
Proof.
  intros E. split_and!.
  - apply reconcile_ok in E as [(a & Ha & [Hi Ht]%andb_true_iff & Hr) _]. exists (ta_status a). split; [|done].
    apply list_elem_of_fmap. exists a. apply String.eqb_eq in Hi as <-. by apply String.eqb_eq in Ht as <-.
  - apply reconcile_ok in E as [_ (at_ & Hrows)]. rw /tool_view Hrows. by apply view_updated.
  - assert (Database.within (same beside) (ReconcileToolAttempt taskID id status reason)) as Hw; [|specialize (Hw s); by rw E in Hw].
    rw /ReconcileToolAttempt. db_walk; [apply same_update_attempts|apply same_update_actions|by apply same_append].
Qed.

(** A statement that moves rows, and what follows it in its transaction. *)
Ltac keeps_after E f := match type of E with ?c ?s = _ =>
  let Hw := fresh in assert (Database.within (same f) c) as Hw; [|specialize (Hw s); rw E /same /= in Hw] end.

Lemma same_result {X} (f : Tables → X) row :
  (∀ t g, f (t <| tbl_tool_results ::= g |>) = f t) → Database.within (same f) (insert_result row).
Proof. intros Hf. by apply same_row. Qed.

Lemma settle_write_ok record s u s' :
  ReconcileWriteAttempt record s = (inr u, s') →
  open_in reconcilable (rw_TaskID record) (rw_ExecutionID record) (tool_view (tables s))
  ∧ tool_view (tables s') = settled_view reconcilable (rw_TaskID record) (rw_ExecutionID record) (rw_Status record)
      (tool_view (tables s))
  ∧ beside (tables s') = beside (tables s).
Proof.
  intros E. assert (beside (tables s') = beside (tables s)) as Hb.
  { assert (Database.within (same beside) (ReconcileWriteAttempt record)) as Hw; [|specialize (Hw s); by rw E in Hw].
    rw /ReconcileWriteAttempt. db_walk.
    all: first [apply same_update_attempts|apply same_update_actions|by apply same_append|by apply same_result]. }
  apply operation_ok in E as (at_ & s1 & s2 & E1 & E & E2). rw E2.
  apply check_ok in E as (n & s3 & (Hn & _ & Hm)%update_attempts_ok & E).
  apply check_ok in E as ([] & s4 & [Hp%negb_true_iff ->]%assert_ok & E).
  rw Hn E1 in Hp. apply selected_pos in Hp as (a & Ha & [[Hi Ht]%andb_true_iff Hr]%andb_true_iff).
  split_and!; [|  |by rw -E2].
  - exists (ta_status a). split; [|done]. apply list_elem_of_fmap. exists a.
    apply String.eqb_eq in Hi as <-. by apply String.eqb_eq in Ht as <-.
  - keeps_after E tool_view.
    + db_walk. all: first [by apply same_result|by apply same_append|by apply same_statement; intros t b t' [= _ <-]].
    + rw (_ : tool_view (tables s2) = tool_view (tables s3)) // Hm E1. by apply view_updated.
Qed.

(** *** Provider attempts *)

Lemma provider_view_updated record at_ rows :
  (λ a, (pv_task_id a, pv_execution_id a, pv_status a))
    <$> updated (λ r, is_provider_attempt (rc_TaskID record) (rc_ExecutionID record) r && reconcilable_provider (pv_status r))
          (settled_provider record at_) rows
  = settled_view reconcilable_provider (rc_TaskID record) (rc_ExecutionID record) (rc_Status record)
      ((λ a, (pv_task_id a, pv_execution_id a, pv_status a)) <$> rows).
Proof.
  rw /updated /settled_view -!list_fmap_compose. apply list_fmap_ext. intros i a _.
  rw /compose /is_provider_attempt. case_match eqn:E; [|done]. apply andb_true_iff in E as [[Hi Ht]%andb_true_iff Hr].
  rw /settled_provider /=. apply String.eqb_eq in Hi as ->. by apply String.eqb_eq in Ht as ->.
Qed.

(** The tool attempts and the tasks. *)
Definition apart (t : Tables) : list (string * string * string) * gmap string TaskRow := (tool_view t, tbl_tasks t).

Lemma update_provider_ok status p f s n s' :
  update_provider_status status p f s = (inr n, s') →
  n = selected p (tbl_provider_attempts (tables s))
  ∧ tables s' = (tables s) <| tbl_provider_attempts ::= updated p f |>.
Proof. intros E%statement_ok. destruct (_ || _); [|done]. by injection E as <- <-. Qed.

(** The entries of a ledger as they are written again. *)
Definition entries_again (g : GovernorTables) : list (string * string) :=
  match tbl_governor_state g with
  | None => []
  | Some _ => (λ '(at_, taskID), (formatTime (parseTime at_), taskID)) <$> tbl_governor_ledger g
  end.

(** The protection state is charged for one attempt that may have happened at the
    time of its preparation: the ledger has one entry more, and accounting is unsafe. *)
Definition debited (record : ReconcileProvider) (g g' : GovernorTables) : Prop :=
  ∃ at_ row, (rc_DebitAt record ≠ zeroTime → at_ = rc_DebitAt record)
    ∧ tbl_governor_ledger g' = entries_again g ++ [(formatTime at_, rc_TaskID record)]
    ∧ tbl_governor_state g' = Some row ∧ gr_telemetry_unsafe row = true.

Lemma debit_ok record s u s' :
  applyConservativeGovernorDebit (rc_TaskID record) (rc_DebitAt record) s = (inr u, s') →
  ∃ g', tables s' = (tables s) <| tbl_governor := g' |> ∧ debited record (tbl_governor (tables s)) g'.
Proof.
  rw /applyConservativeGovernorDebit. intros (loaded & s1 & [Hl Hs1]%loadGovernorState_ok & E)%check_ok.
  apply check_ok in E as (clock & s2 & Hclock & E).
  assert (tables s2 = tables s1 ∧ (rc_DebitAt record ≠ zeroTime → clock = rc_DebitAt record)) as [Hs2 Hz].
  { destruct (IsZero (rc_DebitAt record)) eqn:Hzero.
    - apply wall_ok in Hclock. split; [done|]. by apply IsZero_spec in Hzero.
    - by injection Hclock as <- <-. }
  apply check_ok in E as (at_ & s3 & Hnow%now_ok & E%save_ok). rw Hnow Hs2 Hs1 in E.
  eexists. split; [exact E|]. exists clock. eexists. split; [done|]. split; [|split; [done|done]].
  rw /governor_tables /charge /= fmap_app /entries_again Hl. f_equal. destruct (tbl_governor_state _); [|done].
  simpl. rw -list_fmap_compose. apply list_fmap_ext. by intros i [a b] _.
Qed.

Lemma settle_provider_ok record s u s' :
  ReconcileProviderAttempt record s = (inr u, s') →
  open_in reconcilable_provider (rc_TaskID record) (rc_ExecutionID record) (provider_view (tables s))
  ∧ provider_view (tables s') = settled_view reconcilable_provider (rc_TaskID record) (rc_ExecutionID record)
      (rc_Status record) (provider_view (tables s))
  ∧ apart (tables s') = apart (tables s)
  ∧ (if rc_ApplyConservativeDebit record then debited record (tbl_governor (tables s)) (tbl_governor (tables s'))
     else tbl_governor (tables s') = tbl_governor (tables s)).
Proof.
  intros E. apply operation_ok in E as (at_ & s1 & s2 & E1 & E & E2). rw E2.
  apply check_ok in E as (n & s3 & [Hn Hm]%update_provider_ok & E).
  apply check_ok in E as ([] & s4 & [Hp%negb_true_iff ->]%assert_ok & E).
  rw Hn E1 in Hp. apply selected_pos in Hp as (a & Ha & [[Hi Ht]%andb_true_iff Hr]%andb_true_iff).
  apply check_ok in E as ([] & s5 & Hd & [event Happ]%append_with).
  split; [|assert (∃ g', tables s5 = (tables s) <| tbl_provider_attempts ::= updated (λ r, is_provider_attempt (rc_TaskID record) (rc_ExecutionID record) r
      && reconcilable_provider (pv_status r)) (settled_provider record at_) |> <| tbl_governor := g' |>
    ∧ if rc_ApplyConservativeDebit record then debited record (tbl_governor (tables s)) g' else g' = tbl_governor (tables s))
    as (g' & Hs5 & Hg')].
  - exists (pv_status a). split; [|done]. apply list_elem_of_fmap. exists a.
    apply String.eqb_eq in Hi as <-. by apply String.eqb_eq in Ht as <-.
  - destruct (rc_ApplyConservativeDebit record).
    + apply debit_ok in Hd as (g' & Hs5 & Hdeb). rw Hm E1 in Hs5 Hdeb. by exists g'.
    + injection Hd as <-. exists (tbl_governor (tables s)). split; [|done]. rw Hm E1. by destruct (tables s).
  - rw Happ Hs5. split_and!; [apply provider_view_updated|done|].
    rw /=. by destruct (rc_ApplyConservativeDebit record).
Qed.

(** No row that is moved to a closed status is open. *)
Lemma settled_closed p taskID id status view :
  p status = false → ¬ open_in p taskID id (settled_view p taskID id status view).
Proof.
  intros Hp (old & Hin & Ho). apply list_elem_of_fmap in Hin as ([[task execution] st] & Heq & _).
  case_match eqn:E; injection Heq as -> -> ->; [congruence|]. by rw !String.eqb_refl Ho in E.
Qed.

(** The settlement of a provider call that was interrupted: it changes nothing when
    it fails; when it succeeds, the call was open, its rows and no others take the
    status, the account is charged once when the record says so and the
    protection state is untouched otherwise; and the same call cannot be settled, nor
    charged, a second time. *)
Theorem ReconcileProviderAttempt_spec record s r s' :
  ReconcileProviderAttempt record s = (r, s') →
  match r with
  | inl _ => tables s' = tables s
  | inr _ =>
    open_in reconcilable_provider (rc_TaskID record) (rc_ExecutionID record) (provider_view (tables s))
    ∧ provider_view (tables s') = settled_view reconcilable_provider (rc_TaskID record) (rc_ExecutionID record)
        (rc_Status record) (provider_view (tables s))
    ∧ (if rc_ApplyConservativeDebit record then debited record (tbl_governor (tables s)) (tbl_governor (tables s'))
       else tbl_governor (tables s') = tbl_governor (tables s))
    ∧ (reconcilable_provider (rc_Status record) = false → ∀ again s1, tables s1 = tables s' →
        rc_TaskID again = rc_TaskID record → rc_ExecutionID again = rc_ExecutionID record →
        ∃ e s2, ReconcileProviderAttempt again s1 = (inl e, s2) ∧ tables s2 = tables s')
  end.
Proof.
  intros E. destruct r as [e|u]; [by apply aborts_operation in E|].
  apply settle_provider_ok in E as (Ho & Hv & _ & Hg). split_and!; [done..|].
  intros Hc again s1 Hs1 Ht Hi. destruct (ReconcileProviderAttempt again s1) as [[e|u'] s2] eqn:E.
  - exists e, s2. split; [done|]. apply aborts_operation in E. congruence.
  - apply settle_provider_ok in E as [Ho' _]. rw Hs1 Hv Ht Hi in Ho'. by apply settled_closed in Ho'.
Qed.

(** ** What a snapshot shows *)

Lemma snapshot_ok taskID s snapshot s' :
  LoadRecoverySnapshot taskID s = (inr snapshot, s') →
  tables s' = tables s
  ∧ sn_ToolAttempts snapshot = recovery_tool_attempts (tables s) taskID
  ∧ recovery_provider_attempts (tables s) taskID = Some (sn_ProviderAttempts snapshot)
  ∧ ∃ row, tbl_tasks (tables s) !! taskID = Some row ∧ rt_Status (sn_Task snapshot) = tk_status row.
Proof.
  intros E. assert (tables s' = tables s) as Ht.
  { assert (Database.within (same id) (LoadRecoverySnapshot taskID)) as Hw; [|specialize (Hw s); by rw E in Hw].
    rw /LoadRecoverySnapshot /loadRecoveryTask /loadRecoveryProviderAttempts /AcceptancePlan /WorkspaceBaseline
      /VerificationAttempts /loadVerificationChecks /loadRecoveryWorkUnits /workUnitDependencies. db_walk. }
  split; [done|]. rw /LoadRecoverySnapshot in E.
  apply check_ok in E as (task & s1 & Htask & E).
  apply check_ok in E as (actions & s2 & [-> Es2]%query_ok & E).
  apply check_ok in E as (attempts & s3 & [-> Es3]%query_ok & E).
  apply check_ok in E as (providers & s4 & Hproviders & E).
  do 5 apply check_ok in E as (? & ? & _ & E). injection E as <- _. simpl.
  rw /loadRecoveryTask in Htask. apply check_ok in Htask as (row & s0 & [-> Es0]%query_ok & Htask).
  destruct (tbl_tasks (tables s) !! taskID) as [row|] eqn:Hrow; [|done].
  destruct (validateExecutionContractPair _ _); [done|]. injection Htask as <- <-.
  rw /loadRecoveryProviderAttempts in Hproviders. apply check_ok in Hproviders as (found & s5 & [-> Es5]%query_ok & Hp).
  rw Es3 Es2 Es0 in Hp. destruct (recovery_provider_attempts (tables s) taskID); [|done]. injection Hp as <- _.
  rw Es2 Es0. split_and!; [done..|]. by exists row.
Qed.
End store.

(** ** What is still to be settled *)

Definition review : string := "human_review_required".

(** Every open row is among the attempts to come, and a row that waits for a human
    is as well unless one has been found already. *)
Definition awaited (p : string → bool) (taskID : string) (view : list (string * string * string))
    (rest : list (string * string)) (reviewed : list string) : Prop :=
  (∀ id st, (taskID, id, st) ∈ view → p st = true → ∃ st', (id, st') ∈ rest ∧ p st' = true)
  ∧ ∀ id, (taskID, id, review) ∈ view → reviewed ≠ [] ∨ (id, review) ∈ rest.

Lemma awaited_skip p taskID view id st rest reviewed reviewed' :
  p st = false → (st = review → reviewed' ≠ []) → (reviewed ≠ [] → reviewed' ≠ []) →
  awaited p taskID view ((id, st) :: rest) reviewed → awaited p taskID view rest reviewed'.
Proof.
  intros Hp Hst Hr [H1 H2]. split.
  - intros id' st' Hin Ho. destruct (H1 id' st' Hin Ho) as (st1 & [[= -> ->]|Hin1]%elem_of_cons & Ho1); [congruence|by exists st1].
  - intros id' Hin. destruct (H2 id' Hin) as [Hn|[[= -> <-]|Hin1]%elem_of_cons]; auto.
Qed.

Lemma awaited_settle p taskID view id st rest reviewed reviewed' status :
  p status = false → (status = review → reviewed' ≠ []) → (st = review → reviewed' ≠ []) → (reviewed ≠ [] → reviewed' ≠ []) →
  awaited p taskID view ((id, st) :: rest) reviewed →
  awaited p taskID (settled_view p taskID id status view) rest reviewed'.
Proof.
  intros Hp Hs Hst Hr [H1 H2]. split.
  - intros id' st' Hin Ho. apply list_elem_of_fmap in Hin as ([[task execution] old] & Heq & Hin).
    case_match eqn:E; injection Heq as -> -> ->; [congruence|].
    destruct (H1 execution old Hin Ho) as (st1 & [[= -> ->]|Hin1]%elem_of_cons & Ho1); [|by exists st1].
    by rw !String.eqb_refl Ho in E.
  - intros id' Hin. apply list_elem_of_fmap in Hin as ([[task execution] old] & Heq & Hin).
    case_match eqn:E; injection Heq as -> -> <-; [by left; apply Hs|].
    destruct (H2 execution Hin) as [Hn|[[= -> <-]|Hin1]%elem_of_cons]; auto.
Qed.

(** Nothing of a task is open or waits for a human. *)
Definition settled_in (p : string → bool) (taskID : string) (view : list (string * string * string)) : Prop :=
  ∀ id st, (taskID, id, st) ∈ view → p st = false ∧ st ≠ review.

Lemma awaited_none p taskID view : awaited p taskID view [] [] → settled_in p taskID view.
Proof.
  intros [H1 H2] id st Hin. split.
  - destruct (p st) eqn:Ho; [|done]. destruct (H1 id st Hin Ho) as (st' & Hn & _). by apply not_elem_of_nil in Hn.
  - intros ->. destruct (H2 id Hin) as [Hn|Hn]; [done|by apply not_elem_of_nil in Hn].
Qed.

Definition all_settled (taskID : string) (t : Tables) : Prop :=
  settled_in reconcilable taskID (tool_view t) ∧ settled_in reconcilable_provider taskID (provider_view t).

Lemma awaited_all p taskID view rest :
  (∀ id st, (taskID, id, st) ∈ view → (id, st) ∈ rest) → awaited p taskID view rest [].
Proof. intros H. split; [|by right; apply H]. intros id st Hin Ho. by exists st; split; [apply H|]. Qed.

Lemma settled_stays p taskID id id' status view :
  p status = false → ¬ open_in p taskID id view → ¬ open_in p taskID id (settled_view p taskID id' status view).
Proof.
  intros Hp Hn (st & Hin & Ho). apply list_elem_of_fmap in Hin as ([[task execution] old] & Heq & Hin).
  case_match; injection Heq as -> -> ->; [congruence|]. apply Hn. by exists old.
Qed.

Section laws.
Context `{Environment, Hash, Reads, !Commands} `{Disk} `{Codec} `{WallClock} `{LenientParse} `{Sorter} `{Decoder}
  `{Prose} `{MapOrder} `{LoopClock} `{AttemptRunner} `{Colleagues} `{Surveys} `{Texts} `{Stored}.
Variable options : Options.

(** ** Uses of the store while nobody else uses it *)

Hypothesis quiet : ∀ n t, foreign n t = t.

Lemma quiet_db {A} (c : DB A) w r w' :
  db c w = (Some r, w') → ∃ s, tables s = tables (w_store w) ∧ c s = (r, w_store w').
Proof.
  intros (u & w1 & E1 & E)%run_bind_inv. rw /run_of in E. injection E as <- <-.
  eexists. split; [|by apply surjective_pairing]. simpl. rw quiet.
  rw /elapse /os in E1. by injection E1 as _ <-.
Qed.

Lemma tried_ok {A B} what (c : DB A) (k : A → Run (ResumeError + B)) w b w' :
  tried what c k w = (Some (inr b), w') →
  ∃ a s w1, tables s = tables (w_store w) ∧ c s = (inr a, w_store w1) ∧ k a w1 = (Some (inr b), w').
Proof.
  intros (r & w1 & (s & Hs & Hc)%quiet_db & E)%run_bind_inv. destruct r as [e|a]; [done|]. by exists a, s, w1.
Qed.

Lemma emit_store line w u w' : emit line w = (Some u, w') → w_store w' = w_store w.
Proof. by intros [= _ <-]. Qed.

Lemma trace_ok {B} kind status (k : unit → Run B) w b w' :
  (x ← trace_emit options kind status; k x) w = (Some b, w') →
  ∃ w1, w_store w1 = w_store w ∧ k tt w1 = (Some b, w').
Proof.
  intros ([] & w1 & E1 & E)%run_bind_inv. exists w1. split; [|done].
  rw /trace_emit in E1. destruct (op_Traced options); [by apply emit_store in E1|by injection E1 as <-].
Qed.

(** ** The loops over the attempts *)

Definition tool_key (a : RecoveryToolAttempt) : string * string := (ra_ExecutionID a, ra_Status a).
Definition provider_key (a : RecoveryProviderAttempt) : string * string := (rv_ExecutionID a, rv_Status a).

Abbreviation taskID := (op_TaskID options).

(** What is still awaited of tool attempts and of provider attempts. *)
Definition tools_left (w : World) (rest : list RecoveryToolAttempt) (reviewed : list string) : Prop :=
  awaited reconcilable taskID (tool_view (tables (w_store w))) (tool_key <$> rest) reviewed.
Definition providers_left (w : World) (rest : list RecoveryProviderAttempt) (reviewed : list string) : Prop :=
  awaited reconcilable_provider taskID (provider_view (tables (w_store w))) (provider_key <$> rest) reviewed.

Lemma settle_left a rest status reason reviewed reviewed' w s u w' :
  tables s = tables (w_store w) →
  ReconcileToolAttempt taskID (ra_ExecutionID a) status reason s = (inr u, w_store w') →
  reconcilable status = false → (status = review → reviewed' ≠ []) → (ra_Status a = review → reviewed' ≠ []) →
  (reviewed ≠ [] → reviewed' ≠ []) → tools_left w (a :: rest) reviewed →
  tools_left w' rest reviewed' ∧ beside (tables (w_store w')) = beside (tables (w_store w)).
Proof.
  intros Hs (_ & Hv & Hb)%settle_tool_ok Hc Hn1 Hn2 Hn3 Hl. rw /tools_left Hv Hb Hs. split; [|done].
  by eapply awaited_settle.
Qed.

Lemma snoc_nonempty {A} (l : list A) x : l ++ [x] ≠ [].
Proof. by destruct l. Qed.

Lemma class_open a :
  classifyToolAttempt a = toolReplaySafe ∨ classifyToolAttempt a = toolWriteReconcile → ra_Status a ≠ review.
Proof. intros Hc Hs. rw /classifyToolAttempt Hs /= in Hc. by destruct Hc. Qed.

Lemma class_closed a :
  classifyToolAttempt a = toolVerified ∨ classifyToolAttempt a = toolFailed ∨ classifyToolAttempt a = toolNoop →
  reconcilable (ra_Status a) = false ∧ ra_Status a ≠ review.
Proof.
  rw /classifyToolAttempt. destruct (String.eqb_spec (ra_Status a) "completed") as [->|]; [done|].
  destruct (String.eqb_spec (ra_Status a) "failed") as [->|]; [done|].
  destruct (String.eqb_spec (ra_Status a) "reconciled") as [->|]; [done|].
  destruct (String.eqb_spec (ra_Status a) "canceled") as [->|]; [done|].
  intros Hc. simpl in Hc. repeat case_match; naive_solver.
Qed.

Lemma write_left a rest p result transaction rev next u s w w' :
  write_settlement options a result (pg_nextEvidence p) = (transaction, rev, next) →
  tables s = tables (w_store w) → transaction s = (inr u, w_store w') → ra_Status a ≠ review →
  tools_left w (a :: rest) (pg_humanReview p) →
  tools_left w' rest (if rev then pg_humanReview p ++ [ra_ExecutionID a] else pg_humanReview p)
  ∧ beside (tables (w_store w')) = beside (tables (w_store w)).
Proof.
  intros Hw Hs E Hst Hl. rw /write_settlement in Hw. destruct (rr_Status result), (rr_Evidence result) as [evidence|].
  all: injection Hw as <- <- <-.
  all: match type of E with
    | ReconcileWriteAttempt _ _ = _ =>
      apply settle_write_ok in E as (_ & Hv & Hb); simpl in *; rw /tools_left Hv Hb Hs; split; [|done];
      by eapply awaited_settle
    | _ => eapply (settle_left a rest _ _ (pg_humanReview p)); [exact Hs|exact E|done|..]; try done; auto using snoc_nonempty
    end.
Qed.

Lemma tool_step workspace p a rest w p' w' :
  recover_tool options workspace p a w = (Some (inr p'), w') →
  tools_left w (a :: rest) (pg_humanReview p) →
  tools_left w' rest (pg_humanReview p') ∧ beside (tables (w_store w')) = beside (tables (w_store w)).
Proof.
  rw /recover_tool. intros E Hl. destruct (classifyToolAttempt a) eqn:Hclass.
  1-3: injection E as <- <-; split; [|done]; destruct (class_closed a) as [Hp Hn]; [by auto|];
    by eapply awaited_skip; [exact Hp| | |exact Hl].
  - apply tried_ok in E as ([] & s & w1 & Hs & Hc & E). apply trace_ok in E as (w2 & E2 & [= <- <-]). simpl.
    rw /tools_left E2. eapply settle_left; [exact Hs|exact Hc|done|done| |done|exact Hl].
    intros Hr. exfalso. revert Hr. by apply class_open; left.
  - apply run_bind_inv in E as (result & w0 & E0 & E).
    assert (w_store w0 = w_store w) as Ew by (rw /os in E0; by injection E0 as _ <-).
    destruct (write_settlement options a result (pg_nextEvidence p)) as [[transaction rev] next] eqn:Hw.
    apply tried_ok in E as ([] & s & w1 & Hs & Hc & E). rw Ew in Hs.
    destruct (write_left a rest p result transaction rev next tt s w w1 Hw Hs Hc) as [Hl1 Hb1];
      [by apply class_open; right|done|].
    destruct rev; apply trace_ok in E as (w2 & E2 & [= <- <-]); by rw /tools_left E2.
  - apply tried_ok in E as ([] & s & w1 & Hs & Hc & E). apply trace_ok in E as (w2 & E2 & [= <- <-]). simpl.
    rw /tools_left E2. eapply settle_left; [exact Hs|exact Hc|done|..|exact Hl]; auto using snoc_nonempty.
Qed.

Lemma provider_class_closed a :
  classifyProviderAttempt a = providerDone → reconcilable_provider (rv_Status a) = false ∧ rv_Status a ≠ review.
Proof.
  rw /classifyProviderAttempt. intros Hc. destruct (existsb _ _) eqn:Ho.
  - apply existsb_exists in Ho as (x & Hx & ->%String.eqb_eq). simpl in Hx. naive_solver.
  - by case_match.
Qed.

Lemma provider_class_review a : classifyProviderAttempt a = providerHumanReview → reconcilable_provider (rv_Status a) = false.
Proof.
  rw /classifyProviderAttempt. destruct (existsb _ _); [done|].
  by destruct (String.eqb_spec (rv_Status a) "human_review_required") as [->|].
Qed.

Lemma provider_class_open a : classifyProviderAttempt a = providerConservative → rv_Status a ≠ review.
Proof. intros Hc Hs. by rw /classifyProviderAttempt Hs in Hc. Qed.

Lemma provider_step p a rest w p' w' :
  recover_provider options p a w = (Some (inr p'), w') →
  providers_left w (a :: rest) (pg_humanReview p) →
  providers_left w' rest (pg_humanReview p') ∧ apart (tables (w_store w')) = apart (tables (w_store w))
  ∧ (pg_humanReview p ≠ [] → pg_humanReview p' ≠ []).
Proof.
  rw /recover_provider. intros E Hl. destruct (classifyProviderAttempt a) eqn:Hclass.
  - injection E as <- <-. destruct (provider_class_closed a Hclass). split_and!; [|done..].
    by eapply awaited_skip; [..|exact Hl].
  - apply tried_ok in E as ([] & s & w1 & Hs & Hc & E). apply trace_ok in E as (w2 & E2 & [= <- <-]). simpl.
    apply settle_provider_ok in Hc as (_ & Hv & Hb & _). rw /providers_left E2 Hv Hb Hs. split_and!; [|done..].
    eapply awaited_settle; [done|done| |done|exact Hl]. intros Hr. by destruct (provider_class_open a Hclass).
  - apply trace_ok in E as (w2 & E2 & [= <- <-]). simpl. rw /providers_left E2. split_and!; [|done|auto using snoc_nonempty].
    eapply awaited_skip; [by apply provider_class_review| |auto using snoc_nonempty|exact Hl]. auto using snoc_nonempty.
Qed.

(** Both loops. *)
Lemma tools_loop workspace l p w p' w' :
  each (recover_tool options workspace) l p w = (Some (inr p'), w') → tools_left w l (pg_humanReview p) →
  tools_left w' [] (pg_humanReview p') ∧ beside (tables (w_store w')) = beside (tables (w_store w)).
Proof.
  revert p w. induction l as [|a l IH]; intros p w E Hl; [by injection E as <- <-|].
  apply run_bind_inv in E as ([e|p1] & w1 & E1 & E); [done|].
  apply (tool_step _ _ _ l) in E1 as [Hl1 Hb1]; [|done]. apply IH in E as [Hl2 Hb2]; [|done]. split; [done|congruence].
Qed.

Lemma providers_loop l p w p' w' :
  each (recover_provider options) l p w = (Some (inr p'), w') → providers_left w l (pg_humanReview p) →
  providers_left w' [] (pg_humanReview p') ∧ apart (tables (w_store w')) = apart (tables (w_store w))
  ∧ (pg_humanReview p ≠ [] → pg_humanReview p' ≠ []).
Proof.
  revert p w. induction l as [|a l IH]; intros p w E Hl; [by injection E as <- <-|].
  apply run_bind_inv in E as ([e|p1] & w1 & E1 & E); [done|].
  apply (provider_step _ _ l) in E1 as (Hl1 & Hb1 & Hn1); [|done]. apply IH in E as (Hl2 & Hb2 & Hn2); [|done].
  split_and!; [done|congruence|auto].
Qed.

(** ** A snapshot is where the loops begin *)

Lemma tools_from_snapshot w reviewed : 
  tools_left w (recovery_tool_attempts (tables (w_store w)) taskID) reviewed.
Proof.
  assert (∀ id st, (taskID, id, st) ∈ tool_view (tables (w_store w)) →
    (id, st) ∈ tool_key <$> recovery_tool_attempts (tables (w_store w)) taskID) as Hin.
  { intros id st (a & [= Ht -> ->] & Ha)%list_elem_of_fmap. rw /recovery_tool_attempts -list_fmap_compose.
    apply list_elem_of_fmap. exists a. split; [done|]. rw /order_by2 merge_sort_Permutation.
    by apply list_elem_of_filter. }
  split; [intros id st Hi Ho; exists st; split; [by apply Hin|done]|by right; apply Hin].
Qed.

Lemma providers_from_snapshot w l reviewed :
  recovery_provider_attempts (tables (w_store w)) taskID = Some l → providers_left w l reviewed.
Proof.
  intros Hl%mapM_Some. assert (∀ id st, (taskID, id, st) ∈ provider_view (tables (w_store w)) → (id, st) ∈ provider_key <$> l) as Hin.
  { intros id st (a & [= Ht -> ->] & Ha)%list_elem_of_fmap.
    assert (a ∈ order_by2 pv_created_at pv_execution_id
      (filter (λ a, pv_task_id a = taskID) (tbl_provider_attempts (tables (w_store w))))) as [i Hi]%list_elem_of_lookup_1.
    { rw /order_by2 merge_sort_Permutation. by apply list_elem_of_filter. }
    destruct (Forall2_lookup_l _ _ _ _ _ Hl Hi) as (b & Hb & Hr). apply list_elem_of_fmap. exists b.
    split; [|by eapply list_elem_of_lookup_2]. rw /read_provider_attempt in Hr.
    destruct (parsePersistedDeliveryState (pv_delivery_state a)); [|done]. by injection Hr as <-. }
  split; [intros id st Hi Ho; exists st; split; [by apply Hin|done]|by right; apply Hin].
Qed.

(** ** The end of the pipeline *)

Lemma quiet_core {A B} what (c : DB A) (k : A → Run (ResumeError + B)) w b w' :
  Database.within (same core) c → tried what c k w = (Some (inr b), w') →
  ∃ a w1, core (tables (w_store w1)) = core (tables (w_store w)) ∧ k a w1 = (Some (inr b), w').
Proof.
  intros Hc (a & s & w1 & Hs & E & Hk)%tried_ok. exists a, w1. split; [|done].
  specialize (Hc s). rw E /same /= Hs in Hc. done.
Qed.

(** The callbacks look and do not touch: the signature of the workspace, and the
    question whether the governor blocks. *)
Definition still (w w' : World) : Prop :=
  m_renames (w_machine w') = m_renames (w_machine w) ∧ w_runner w' = w_runner w ∧ tables (w_store w') = tables (w_store w).

Definition callbacks_look : Prop :=
  (∀ f workspace, op_WorkspaceSignature options = Some f → moves still (f workspace))
  ∧ (∀ ask, op_Blocked options = Some ask → moves still ask)
  ∧ ∀ load, op_PendingApprovals options = Some load → Database.within (same id) (load taskID).

Hypothesis look : callbacks_look.

Lemma signature_still workspace w s w' :
  current_signature options workspace w = (Some s, w') → tables (w_store w') = tables (w_store w).
Proof.
  rw /current_signature. case_match; [|by intros [= _ <-]].
  destruct (op_WorkspaceSignature options) as [f|] eqn:Ef; [|by intros [= _ <-]].
  intros (o & w1 & E1 & [= _ <-])%run_bind_inv. destruct look as [Hl _]. specialize (Hl f workspace Ef w). rw E1 in Hl. apply Hl.
Qed.

(** The number of provider attempts that the task has made. *)
Definition attempts_made (t : Tables) : nat := length (filter (λ v, v.1.1 = taskID) (provider_view t)).

Lemma snapshot_attempts t l : recovery_provider_attempts t taskID = Some l → length l = attempts_made t.
Proof.
  intros Hl%mapM_Some. apply Forall2_length in Hl. rw -Hl /order_by2 merge_sort_Permutation /attempts_made /provider_view.
  generalize (tbl_provider_attempts t) as rows. induction rows as [|r rows IH]; [done|]. cbn [fmap list_fmap].
  rw !filter_cons /=. by destruct (decide (pv_task_id r = taskID)); simpl; rw IH.
Qed.

(** What a plan says of the tables. *)
Definition plan_holds (plan : RecoveryPlan) (t : Tables) : Prop :=
  let status := tk_status <$> tbl_tasks t !! taskID in
  match rp_Decision_ plan with
  | DecisionHumanReview => status = Some review ∧ rp_Seed plan = None
  | DecisionGovernorBlocked => status = Some "running"%string ∧ all_settled taskID t ∧ rp_Seed plan = None
  | DecisionContinue => status = Some "running"%string ∧ all_settled taskID t
      ∧ ∃ seed, rp_Seed plan = Some seed ∧ sd_Turns seed = Z.of_nat (attempts_made t) ∧ sd_Attempts seed = sd_Turns seed
  end.

(** A task that runs and has nothing left to settle. *)
Definition ready (t : Tables) : Prop :=
  tk_status <$> tbl_tasks t !! taskID = Some "running"%string ∧ all_settled taskID t.

Lemma ready_core t t' : core t' = core t → ready t → ready t'.
Proof. rw /core /ready /all_settled. intros [= -> -> ->]. done. Qed.

Lemma attempts_core t t' : core t' = core t → attempts_made t' = attempts_made t.
Proof. rw /core /attempts_made. by intros [= _ -> _]. Qed.

Lemma reconstruct_holds task p snapshot approvals signature w plan w' :
  ready (tables (w_store w)) → length (sn_ProviderAttempts snapshot) = attempts_made (tables (w_store w)) →
  reconstruct_context options task p snapshot approvals signature w = (Some (inr plan), w') →
  plan_holds plan (tables (w_store w')).
Proof.
  intros Hr Hn. rw /reconstruct_context. destruct (cx_Err _); [done|].
  intros (a1 & w1 & Hc1 & E)%quiet_core; [|apply same_recovery_event].
  apply trace_ok in E as (w2 & E2 & E). apply run_bind_inv in E as (sequence & w3 & [= _ <-] & E).
  apply quiet_core in E as (a3 & w4 & Hc4 & E); [|apply same_recovery_event]. injection E as <- <-.
  rw E2 in Hc4. rw Hc1 in Hc4. destruct (ready_core _ _ Hc4 Hr) as [Hs Ha]. split_and!; [done|done|].
  eexists. split; [done|]. rw (attempts_core _ _ Hc4) -Hn. done.
Qed.

Lemma continue_holds task p w plan w' :
  ready (tables (w_store w)) → continue_task options task p w = (Some (inr plan), w') →
  plan_holds plan (tables (w_store w')).
Proof.
  intros Hr. rw /continue_task. intros (a1 & w1 & Hc1 & E)%quiet_core; [|apply same_reset].
  apply quiet_core in E as (a2 & w2 & Hc2 & E); [|apply same_uncertain].
  apply tried_ok in E as (snapshot & s & w3 & Hs & (Ht & _ & Hp & _)%snapshot_ok & E).
  apply run_bind_inv in E as (signature & w4 & Hsig%signature_still & E).
  rw Hs in Ht Hp. rw Hc1 in Hc2. pose proof (ready_core _ _ Hc2 Hr) as Hr2. apply snapshot_attempts in Hp.
  destruct (op_PendingApprovals options) as [load|] eqn:Hload.
  - apply tried_ok in E as (approvals & s' & w5 & Hs' & Hl & E).
    destruct look as (_ & _ & Hlook). specialize (Hlook load Hload s'). rw Hl /same /= Hs' Hsig Ht in Hlook.
    eapply reconstruct_holds; [| |exact E]; by rw Hlook.
  - eapply reconstruct_holds; [| |exact E]; by rw Hsig Ht.
Qed.

Lemma decide_holds task p w plan w' :
  tools_left w [] (pg_humanReview p) → providers_left w [] (pg_humanReview p) →
  tk_status <$> tbl_tasks (tables (w_store w)) !! taskID = Some "running"%string →
  (if negb (bool_decide (pg_humanReview p = [])) then await_review options task p
   else tried "reload recovery snapshot after reconciliation" (LoadRecoverySnapshot taskID) (λ _,
     blocked ← match op_Blocked options with Some ask => ask | None => mret None end;
     match blocked with
     | Some reason => await_governor options task p reason
     | None => continue_task options task p
     end)) w = (Some (inr plan), w') →
  plan_holds plan (tables (w_store w')).
Proof.
  intros Htools Hproviders Hrun. case_bool_decide as Hreview; simpl.
  - intros (a & s & w1 & Hs & [Ht _]%snapshot_ok & E)%tried_ok. rw Hs in Ht.
    assert (ready (tables (w_store w1))) as Hready.
    { rw /ready Ht. split; [done|]. rw /tools_left /providers_left Hreview in Htools Hproviders.
      by split; apply awaited_none. }
    apply run_bind_inv in E as (blocked & w2 & E2 & E).
    assert (tables (w_store w2) = tables (w_store w1)) as Ht2.
    { destruct (op_Blocked options) as [ask|] eqn:Hask; [|by injection E2 as _ <-].
      destruct look as (_ & Hl & _). specialize (Hl ask Hask w1). rw E2 in Hl. apply Hl. }
    rw -Ht2 in Hready. destruct blocked as [reason|]; [|by eapply continue_holds].
    apply quiet_core in E as (a3 & w3 & Hc3 & E); [|apply same_recovery_event].
    apply trace_ok in E as (w4 & E4 & [= <- <-]). destruct (ready_core _ _ Hc3 Hready) as [Hst Hset].
    rw E4. by split_and!.
  - intros (a & s & w1 & Hs & (row & Hrow & Hst)%human_review_ok & E)%tried_ok.
    apply trace_ok in E as (w2 & E2 & [= <- <-]). rw /plan_holds /= E2 Hrow /= Hst. done.
Qed.

Lemma Resume_holds w plan w' : Resume options w = (Some (inr plan), w') → plan_holds plan (tables (w_store w')).
Proof.
  rw /Resume. case_match; [done|].
  intros ([] & w0 & [= <-] & E)%run_bind_inv.
  apply tried_ok in E as (snapshot & s1 & w1 & Hs1 & (Ht1 & Hta & Hpa & row & Hrow & Hstatus)%snapshot_ok & E).
  case_match; [done|]. apply tried_ok in E as ([] & s2 & w2 & Hs2 & [Hv2 Hrun]%started_ok & E).
  apply trace_ok in E as (w3 & E3 & E). apply run_bind_inv in E as ([e|p1] & w4 & Etools & E); [done|].
  apply run_bind_inv in E as ([e|p2] & w5 & Eproviders & E); [done|].
  rw Hs2 Ht1 in Hv2. injection Hv2 as Hvt Hvp. destruct Hrun as (row' & Hrow' & Hrunning).
  apply tools_loop in Etools as [Htools Hb].
  2: { rw /tools_left E3 Hvt Hta Hs1. apply (tools_from_snapshot w). }
  injection Hb as Hbp Hbt. apply providers_loop in Eproviders as (Hproviders & Ha & Hn).
  2: { rw /providers_left Hbp E3 Hvp Hs1. apply (providers_from_snapshot w). by rw -Hs1. }
  injection Ha as Hat Hak. eapply decide_holds; [| | |exact E].
  - rw /tools_left Hat. destruct Htools as [Hopen Hwait]. split; [done|]. intros id Hin.
    destruct (Hwait id Hin) as [Hne|Hnil]; [by left; apply Hn|by apply not_elem_of_nil in Hnil].
  - done.
  - by rw Hak Hbt E3 Hrow' /= Hrunning.
Qed.

(** ** Recovery executes nothing *)

(** No file is put in place and no provider attempt is made. *)
Definition idle (w w' : World) : Prop :=
  m_renames (w_machine w') = m_renames (w_machine w) ∧ w_runner w' = w_runner w.

#[local] Instance idle_preorder : PreOrder idle.
Proof. split; [by intros w|]. intros a b c [E1 E2] [E3 E4]. split; congruence. Qed.

Lemma idle_os {A} (c : Cmd A) : silent c → moves idle (os c).
Proof. intros Hc w. split; [apply Hc|done]. Qed.

Lemma idle_db {A} (c : DB A) : moves idle (db c).
Proof. rw /db /on_store. apply moves_bind; [apply _|apply idle_os, silent_syscall|]. by intros _ w. Qed.

Lemma idle_emit line : moves idle (emit line).
Proof. by intros w. Qed.

Lemma idle_still {A} (c : Run A) : moves still c → moves idle c.
Proof. intros Hc w. destruct (Hc w) as (E1 & E2 & _). by split. Qed.

Lemma idle_trace kind status : moves idle (trace_emit options kind status).
Proof. rw /trace_emit. case_match; [apply idle_emit|by intros w]. Qed.

Lemma idle_set_local f : moves idle (set_local f).
Proof. by intros w. Qed.

Create HintDb idle.
#[local] Hint Resolve idle_db idle_trace idle_emit idle_set_local : idle.
Ltac idle_walk := run_walk ltac:(auto with idle nocore).

Lemma idle_tried {A B} what (c : DB A) (k : A → Run (ResumeError + B)) :
  (∀ a, moves idle (k a)) → moves idle (tried what c k).
Proof. intros Hk. rw /tried. idle_walk. Qed.

Lemma silent_reconcile root intent : silent (ReconcileWrite root intent).
Proof.
  rw /ReconcileWrite. case_match; [done|]. case_match.
  apply silent_bind; [apply silent_resolveWrite|]. intros [failure|target]; [done|].
  apply silent_bind; [apply silent_before_state|]. intros [failure|before]; [done|].
  apply silent_bind; [case_match; [apply silent_fileSize|done]|done].
Qed.

Lemma idle_each {A} (body : Progress → A → Run (ResumeError + Progress)) l p :
  (∀ p a, moves idle (body p a)) → moves idle (each body l p).
Proof. intros Hb. revert p. induction l as [|a l IH]; intros p; simpl; idle_walk. Qed.

Lemma idle_tool workspace p a : moves idle (recover_tool options workspace p a).
Proof.
  rw /recover_tool. case_match; try (by intros w); try (apply idle_tried; intros; idle_walk).
  rw /reconcileWriteAttempt. apply moves_bind; [apply _|apply idle_os, silent_reconcile|]. intros result.
  case_match. case_match. apply idle_tried. idle_walk.
Qed.

Lemma idle_provider p a : moves idle (recover_provider options p a).
Proof. rw /recover_provider. case_match; idle_walk. apply idle_tried. idle_walk. Qed.

Lemma idle_continue task p : moves idle (continue_task options task p).
Proof.
  assert (∀ snapshot approvals signature, moves idle (reconstruct_context options task p snapshot approvals signature)) as Hc.
  { intros. rw /reconstruct_context. case_match; [by intros w|]. apply idle_tried. idle_walk; apply idle_tried; idle_walk. }
  rw /continue_task. do 3 (apply idle_tried; intros ?). apply moves_bind; [apply _| |].
  - rw /current_signature. case_match; [|by intros w]. destruct (op_WorkspaceSignature options) as [f|] eqn:Hf; [|by intros w].
    idle_walk. apply idle_still. destruct look as [Hl _]. by apply Hl.
  - intros signature. case_match; [apply idle_tried; intros|]; apply Hc.
Qed.

Lemma idle_Resume : moves idle (Resume options).
Proof.
  rw /Resume. case_match; [by intros w|]. apply moves_bind; [apply _|apply idle_set_local|]. intros _.
  apply idle_tried. intros snapshot. case_match; [by intros w|]. apply idle_tried. intros _.
  apply moves_bind; [apply _|apply idle_trace|]. intros _.
  apply moves_bind; [apply _|apply idle_each, idle_tool|]. intros [e|p1]; [by intros w|].
  apply moves_bind; [apply _|apply idle_each, idle_provider|]. intros [e|p2]; [by intros w|]. case_match.
  - apply idle_tried. idle_walk.
  - apply idle_tried. intros _. apply moves_bind; [apply _| |].
    + destruct (op_Blocked options) as [ask|] eqn:Hask; [|by intros w]. apply idle_still. destruct look as (_ & Hl & _). by apply Hl.
    + intros [reason|]; [apply idle_tried; idle_walk|apply idle_continue].
Qed.

(** ** Attempts that nothing can settle *)

(** What one turn does to the statuses, and that a human review takes an open attempt. *)
Lemma tool_step_view workspace p a w p' w' id :
  recover_tool options workspace p a w = (Some (inr p'), w') →
  ¬ open_in reconcilable taskID id (tool_view (tables (w_store w))) →
  ¬ open_in reconcilable taskID id (tool_view (tables (w_store w'))) ∧ (ra_ExecutionID a = id → ra_Status a ≠ review).
Proof.
  rw /recover_tool. intros E Hn. destruct (classifyToolAttempt a) eqn:Hclass.
  1-3: injection E as <- <-; split; [done|]; intros _; by apply class_closed; auto.
  - apply tried_ok in E as ([] & s & w1 & Hs & (_ & Hv & _)%settle_tool_ok & E).
    apply trace_ok in E as (w2 & E2 & [= <- <-]). rw E2 Hv Hs. split; [by apply settled_stays|].
    intros _. apply class_open. by left.
  - split; [|intros _; apply class_open; by right].
    apply run_bind_inv in E as (result & w0 & E0 & E).
    assert (w_store w0 = w_store w) as Ew by (rw /os in E0; by injection E0 as _ <-).
    destruct (write_settlement options a result (pg_nextEvidence p)) as [[transaction rev] next] eqn:Hw.
    apply tried_ok in E as ([] & s & w1 & Hs & Hc & E). rw -Ew -Hs in Hn.
    assert (¬ open_in reconcilable taskID id (tool_view (tables (w_store w1)))) as Hn1.
    { rw /write_settlement in Hw. destruct (rr_Status result), (rr_Evidence result); injection Hw as <- _ _.
      all: match type of Hc with
        | ReconcileWriteAttempt _ _ = _ => apply settle_write_ok in Hc as (_ & -> & _)
        | _ => apply settle_tool_ok in Hc as (_ & -> & _)
        end; by apply settled_stays. }
    destruct rev; apply trace_ok in E as (w2 & E2 & [= <- <-]); by rw E2.
  - apply tried_ok in E as ([] & s & w1 & Hs & (Ho & Hv & _)%settle_tool_ok & E).
    apply trace_ok in E as (w2 & E2 & [= <- <-]). rw E2 Hv Hs. rw Hs in Ho. split; [by apply settled_stays|].
    by intros <-.
Qed.

Lemma tools_loop_view workspace l p w p' w' id :
  each (recover_tool options workspace) l p w = (Some (inr p'), w') →
  ¬ open_in reconcilable taskID id (tool_view (tables (w_store w))) →
  ∀ a, a ∈ l → ra_ExecutionID a = id → ra_Status a ≠ review.
Proof.
  revert p w. induction l as [|b l IH]; intros p w E Hn a Ha; [by apply not_elem_of_nil in Ha|].
  apply run_bind_inv in E as ([e|p1] & w1 & E1 & E); [done|].
  apply (tool_step_view _ _ _ _ _ _ id) in E1 as [Hn1 Hb]; [|done].
  apply elem_of_cons in Ha as [->|Ha]; [done|by eapply IH].
Qed.
End laws.

(** A recovery that stopped half way cannot be repeated.  When an attempt of a task
    is marked for a human review, as the transaction of one recovery leaves it when
    the process dies before the task itself is marked, then no later resumption of
    the task gets to a plan while no other process uses the database: the task can
    neither continue nor be marked for the review. *)
Theorem Resume_stuck `{Environment, Hash, Reads, !Commands} `{Disk} `{Codec} `{WallClock} `{LenientParse} `{Sorter}
    `{Decoder} `{Prose} `{MapOrder} `{LoopClock} `{AttemptRunner} `{Colleagues} `{Surveys} `{Texts} `{Stored}
    (options : Options) (id : string) (w : World) :
  (∀ n t, foreign n t = t) →
  let view := tool_view (tables (w_store w)) in
  (op_TaskID options, id, review) ∈ view → ¬ open_in reconcilable (op_TaskID options) id view →
  ∀ plan, (Resume options w).1 ≠ Some (inr plan).
Proof.
  intros quiet view Hin Hn plan E. destruct (Resume options w) as [r w'] eqn:ER. simpl in E. subst r.
  rw /Resume in ER. destruct (String.eqb _ _); [done|]. apply run_bind_inv in ER as ([] & w0 & [= <-] & E).
  apply (tried_ok quiet) in E as (snapshot & s1 & w1 & Hs1 & (Ht1 & Hta & _)%snapshot_ok & E).
  destruct (isTerminalTaskStatus _); [done|].
  apply (tried_ok quiet) in E as ([] & s2 & w2 & Hs2 & [Hv2 _]%started_ok & E).
  apply trace_ok in E as (w3 & E3 & E). apply run_bind_inv in E as ([e|p1] & w4 & Etools & E); [done|].
  rw Hs2 Ht1 Hs1 in Hv2. injection Hv2 as Hvt _.
  assert (∀ a, a ∈ sn_ToolAttempts snapshot → ra_ExecutionID a = id → ra_Status a ≠ review) as Hno
    by (eapply tools_loop_view; [exact quiet|exact Etools|by rw E3 Hvt]).
  assert ((id, review) ∈ tool_key <$> sn_ToolAttempts snapshot) as (a & [= Hi Hr] & Ha)%list_elem_of_fmap.
  { rw Hta Hs1. destruct (tools_from_snapshot options w []) as [_ Hl]. by destruct (Hl id Hin). }
  by apply (Hno a Ha).
Qed.

(** C4: what a resumption may do and what its plan means, when the callbacks only look.
    Whatever happens around it and however it ends, it puts no file in place and asks
    the provider for nothing.  While no other process uses the database: with a plan
    that waits for a human the task is marked for the review; with any other plan the
    task is running and none of its attempts, of a tool or of the provider, is open or
    waits for a human; and a plan to continue counts on from the provider attempts
    that the task has on record. *)
Theorem Resume_settles `{Environment, Hash, Reads, !Commands} `{Disk} `{Codec} `{WallClock} `{LenientParse} `{Sorter}
    `{Decoder} `{Prose} `{MapOrder} `{LoopClock} `{AttemptRunner} `{Colleagues} `{Surveys} `{Texts} `{Stored}
    (options : Options) (w : World) :
  callbacks_look options →
  let r := Resume options w in
  idle w r.2
  ∧ ((∀ n t, foreign n t = t) → ∀ plan, r.1 = Some (inr plan) → plan_holds options plan (tables (w_store r.2))).
Proof.
  intros look r. split; [by apply idle_Resume|]. intros quiet plan E. subst r.
  destruct (Resume options w) as [r w'] eqn:ER. simpl in *. subst r. by eapply Resume_holds.
Qed.

(** C5: the budget of provider calls outlives an interruption.  While no other process
    uses the database during the resumption and its callbacks only look: a run that starts from
    the seed of a resumption counts the provider attempts that the database held of
    the task at the end of the resumption, adds one for every call it makes of the
    provider itself ([asked]), and makes no call that would take the sum over the
    budget of provider attempts. *)
Theorem Resumed_run_budget `{Environment, Hash, Reads, !Commands} `{Disk} `{Codec} `{WallClock} `{LenientParse} `{Sorter}
    `{Decoder} `{Prose} `{MapOrder} `{LoopClock} `{AttemptRunner} `{Colleagues} `{Surveys} `{Texts} `{Stored}
    (options : Options) (plan : RecoveryPlan) (seed : RecoverySeed) (l : Loop) (task : Task) (w w1 w2 w3 : World)
    (o : option Result) :
  (∀ n t, foreign n t = t) → callbacks_look options →
  Resume options w = (Some (inr plan), w1) → rp_Seed plan = Some seed →
  lp_recovery l = Some seed → (0 ≤ MaxCorrections (lp_limits l))%Z → RunTask l task w2 = (Some o, w3) →
  let before := attempts_made options (tables (w_store w1)) in
  ∃ r es, let n := length es in o = Some r ∧ asked es (w_runner w2) (w_runner w3)
    ∧ lr_Attempts r = Z.of_nat (before + n)
    ∧ (n ≠ 0%nat → (Z.of_nat (before + n) ≤ ProviderBudget (lp_limits l))%Z).
Proof.
  intros quiet look E Hseed Hl Hmax Erun before.
  assert (sd_Attempts seed = Z.of_nat before) as Hs.
  { apply Resume_holds in E; [|done..]. rw /plan_holds Hseed in E. destruct (rp_Decision_ plan).
    - destruct E as (_ & _ & seed' & [= <-] & Ht & Ha). by rw Ha Ht.
    - by destruct E.
    - by destruct E as (_ & _ & ?). }
  apply run_spends in Erun as (r & es & -> & Hasked & _ & _ & Ha & Hb & _); [|done]. exists r, es.
  rw /resumed Hl /= Hs (Z.max_l _ _ (Nat2Z.is_nonneg before)) in Ha. simpl.
  rw Nat2Z.inj_add -Ha. split_and!; [done..|]. intros Hn. by apply Hb.
Qed.
