(* ===== verification/RecoveryScenarios.v ===== *)
(** * Concrete recoveries

    A run that died after its write is resumed and completes; a recovery that died
    half way is not resumable.  The theorems on context and recovery are applied. *)

From S2P Require Import Prelude GoTime Policy Verifier Provider Receipts GovTypes Ledger GovState Persist Execute.
From S2P Require Import VerifierScenarios UnitScenarios ProviderScenarios ProtocolLaws ProtocolScenarios ToolScenarios.
From S2P Require Import Text Json TimeText Database WorkUnits Protocol Recipe Observations Workspace ToolArguments Writing.
From S2P Require Import Reading Search Tools Encode Actions ActionLaws AttemptLaws WritingLaws ReconcileLaws ProviderStore RecoveryStore PathLaws.
From S2P Require Import Outcomes LoopTypes Loop LoopLaws LoopEffects LoopReports LoopBudgets LoopScenarios.
From S2P Require Import Context Recovery ResumeLaws.

Local Open Scope string_scope.
Local Open Scope runstead_scope.

#[local] Existing Instance flat_system.
#[local] Existing Instance flat_laws.
#[local] Existing Instance length_hash.
#[local] Existing Instance no_commands.
#[local] Existing Instance one_piece.
#[local] Existing Instance sound_disk.
#[local] Existing Instance plain_codec.
#[local] Existing Instance wall_seconds.
#[local] Existing Instance strict_parse.
#[local] Existing Instance merging.
#[local] Existing Instance plain_prose.
#[local] Existing Instance canonical_order.
#[local] Existing Instance one_document.
#[local] Existing Instance seconds.
#[local] Existing Instance alone.
#[local] Existing Instance surveyed.
#[local] Existing Instance short_texts.
#[local] Instance forgetful : Stored := {| StoredData := λ _, NoData; StoredMetadata := λ _, zero_metadata |}.

(** ** A run that died, resumed *)

(** The row of a provider attempt, in a given state. *)
Definition attempt_row (id status : string) : ProviderAttemptRow := {|
  pv_execution_id := id; pv_task_id := "task"; pv_work_unit_id := ""; pv_client_request_id := id;
  pv_provider := "provider"; pv_model_pool := ""; pv_model := "model"; pv_attempt_sequence := 1; pv_receipt_aware := true;
  pv_protocol_family := "openai"; pv_config_identity := "config"; pv_status := status; pv_outcome := "";
  pv_upstream_reached := true; pv_uncertain := false; pv_attempt_debited := 0; pv_selected_backoff_ns := 0;
  pv_error_class := ""; pv_provider_failure_class := ""; pv_delivery_state := "completed"; pv_request_id := "";
  pv_created_at := ""; pv_prepared_at := formatTime Scenarios.day_start; pv_completed_at := ""; pv_recovery_reason := "";
  pv_status_code := None; pv_observed_reset_at := None; pv_observed_retry_after_ns := None; pv_limit_requests := None;
  pv_remaining_requests := None; pv_reset_requests_ns := None; pv_limit_tokens := None; pv_remaining_tokens := None;
  pv_reset_tokens_ns := None |}.

(** A scripted model whose calls are recorded under the names that the script gives. *)
#[local] Instance recording : AttemptRunner := {|
  runner := list (string * string);
  execute_attempt := λ _ _ script s,
    match script with
    | (id, text) :: script' =>
      (Some (answer text), script',
       {| tables := (tables s) <| tbl_provider_attempts ::= λ l, (l ++ [attempt_row id "completed"])%list |>; calls := calls s |})
    | [] => (Some (answer ""), [], s)
    end;
  account_pressure := λ _ _, false |}.

Definition first_script : list (string * string) := zip ["call-1"; "call-2"] the_script.

Definition start : World := {|
  w_machine := resting the_files; w_store := {| tables := no_tables; calls := 0 |}; w_runner := first_script;
  w_observations := 0; w_clock := 0; w_trace := []; w_locals := zero_locals |}.

(** The process dies after its write took place and before that is recorded. *)
Definition died : World :=
  (let e : Environment := dies_at 31 in RunTask (the_loop "allow") the_task start).2.

#[local] Existing Instance calm.

Definition the_options : Options := {|
  op_TaskID := "task"; op_Traced := true; op_Budget := DefaultBudget; op_PendingApprovals := None;
  op_CurrentWorkspaceSignature := ""; op_WorkspaceSignature := None; op_Blocked := None |}.

Definition resumed_run : option (ResumeError + RecoveryPlan) * World := Resume the_options died.

Definition plan_in (r : option (ResumeError + RecoveryPlan) * World) : option RecoveryPlan :=
  match r.1 with Some (inr plan) => Some plan | _ => None end.

Lemma plan_in_inv r plan : plan_in r = Some plan → r = (Some (inr plan), r.2).
Proof. destruct r as [[[e|p]|] w]; [done| |done]. by intros [= ->]. Qed.

Definition resumed_plan : option RecoveryPlan := plan_in resumed_run.

Definition the_seed : option RecoverySeed := resumed_plan ≫= rp_Seed.

(** The loop of a run that starts from a seed. *)
Definition from_seed (l : Loop) (seed : option RecoverySeed) : Loop := {|
  lp_registry := lp_registry l; lp_contract := lp_contract l; lp_limits := lp_limits l; lp_model := lp_model l;
  lp_identity := lp_identity l; lp_writePolicy := lp_writePolicy l; lp_recipePolicy := lp_recipePolicy l;
  lp_recipeCatalogDigest := lp_recipeCatalogDigest l; lp_acceptancePlanDigest := lp_acceptancePlanDigest l;
  lp_persistent := lp_persistent l; lp_policy := lp_policy l; lp_approvals := lp_approvals l; lp_plan := lp_plan l;
  lp_contract_json := lp_contract_json l; lp_contract_hash := lp_contract_hash l; lp_recovery := seed |}.

Definition the_second_loop : Loop := from_seed (the_loop "allow") the_seed.

Definition the_second_run : option (option Result) * World := RunTask the_second_loop the_task resumed_run.2.

Definition attempts_of (w : World) : list (string * string) :=
  (λ r, (ta_status r, ta_evidence_id r)) <$> tbl_tool_attempts (tables (w_store w)).

Definition status_of (w : World) : option string := tk_status <$> tbl_tasks (tables (w_store w)) !! "task".

(** The interrupted write is found completed and settled with evidence, and the task
    goes on from the one call it has made. *)
Example recovery_evaluated :
  (rp_Decision_ <$> resumed_plan, attempts_of died, attempts_of resumed_run.2,
   (λ s, (sd_Turns s, sd_Attempts s, length (sd_Evidence s))) <$> the_seed)
  = (Some DecisionContinue, [("prepared", "")], [("reconciled", "obs-000001")], Some (1%Z, 1%Z, 1%nat)).
Proof. vm_compute. reflexivity. Qed.

(** The second run completes the task: the write took place once, and the calls of
    both runs are counted. *)
Definition summary_after (r : option (option Result) * World) : option (LoopOutcome * (Z * Z * Z)) :=
  (r.1 ≫= id) ≫= λ r, Some (lr_Outcome r, (lr_Turns r, lr_Attempts r, lr_Repeated r)).

Example second_run_evaluated :
  (summary_after the_second_run, length (m_renames (w_machine died)), length (m_renames (w_machine the_second_run.2)))
  = (Some (OutcomeCompleted, (2, 2, 0)%Z), 1, 1)%nat.
Proof. vm_compute. reflexivity. Qed.

(** ** A recovery that died *)

(** The store after the transaction that marks the attempt, and before the one that
    would mark the task. *)
Definition half_way : World :=
  let s := w_store died in
  match tbl_tool_attempts (tables s) with
  | row :: _ => {|
      w_machine := w_machine died;
      w_store := (settle_tool_attempt the_options (ta_execution_id row) "human_review_required" "unreconcilable_effect" s).2;
      w_runner := w_runner died; w_observations := w_observations died; w_clock := w_clock died; w_trace := w_trace died;
      w_locals := w_locals died |}
  | [] => died
  end.

Definition stuck_id : string := default "" (ta_execution_id <$> hd_error (tbl_tool_attempts (tables (w_store died)))).

Example half_way_evaluated :
  (attempts_of half_way, status_of half_way) = ([("human_review_required", "")], Some "running")
  ∧ ∃ e, (Resume the_options half_way).1 = Some (inl (ErrStore "mark tool attempt human review" e)).
Proof. split; [by vm_compute|]. eexists. vm_compute. reflexivity. Qed.

(** ** Witnesses *)

Lemma nobody_else n t : foreign n t = t.
Proof. done. Qed.

Lemma options_look : callbacks_look the_options.
Proof. done. Qed.

Lemma seed_in_inv r seed :
  plan_in r ≫= rp_Seed = Some seed → ∃ plan, r = (Some (inr plan), r.2) ∧ rp_Seed plan = Some seed.
Proof. intros (plan & Hp & Hs)%bind_Some. exists plan. by split; [apply plan_in_inv|]. Qed.

Lemma summary_inv r outcome turns attempts repeated :
  summary_after r = Some (outcome, (turns, attempts, repeated)) →
  ∃ res, r = (Some (Some res), r.2) ∧ lr_Attempts res = attempts.
Proof. destruct r as [[[res|]|] w]; [|done..]. intros [= _ _ <- _]. by exists res. Qed.

Lemma Resume_settles_witness :
  idle died resumed_run.2
  ∧ ∃ plan, resumed_plan = Some plan ∧ plan_holds the_options plan (tables (w_store resumed_run.2)).
Proof.
  destruct (Resume_settles the_options died options_look) as [Hi Hp]. split; [exact Hi|].
  assert (is_Some resumed_plan) as [plan E] by (vm_compute; by eexists). exists plan. split; [exact E|].
  apply (Hp nobody_else). apply plan_in_inv in E. exact (f_equal fst E).
Defined.

Lemma Resume_stuck_witness : ∀ plan, (Resume the_options half_way).1 ≠ Some (inr plan).
Proof.
  apply (Resume_stuck the_options stuck_id half_way nobody_else).
  - vm_compute. apply list_elem_of_here.
  - intros (st & Hin & Ho). revert Hin Ho. vm_compute. intros Hin.
    apply list_elem_of_singleton in Hin as [= ->]. discriminate.
Defined.

Lemma Resumed_run_budget_witness :
  ∃ seed r, the_seed = Some seed ∧ the_second_run.1 = Some (Some r) ∧ lr_Attempts r = 2%Z.
Proof.
  assert (is_Some the_seed) as [seed Hseed] by (vm_compute; by eexists).
  destruct (seed_in_inv resumed_run seed Hseed) as (plan & E1 & Hs).
  destruct (summary_inv the_second_run OutcomeCompleted 2 2 0 ltac:(by vm_compute)) as (res & E3 & Hr).
  destruct (Resumed_run_budget the_options plan seed the_second_loop the_task died resumed_run.2 resumed_run.2
    the_second_run.2 (Some res) nobody_else options_look E1 Hs Hseed ltac:(by vm_compute) E3) as (r & es & Hres & _).
  exists seed, r. split; [exact Hseed|]. rw -Hres. split; [exact (f_equal fst E3)|].
  injection Hres as <-. exact Hr.
Defined.

(** A settlement that the store accepts, and that charges the account. *)
Definition interrupted_call : ReconcileProvider := {|
  rc_TaskID := "task"; rc_ExecutionID := "call-9"; rc_RequestID := "call-9"; rc_Status := "reconciled";
  rc_Reason := "upstream_may_have_been_reached"; rc_Uncertain := true; rc_AttemptDebited := 1;
  rc_DebitAt := Scenarios.day_start; rc_ApplyConservativeDebit := true |}.

Definition calling : Store :=
  {| tables := (tables (w_store died)) <| tbl_provider_attempts := [attempt_row "call-9" "running"] |>; calls := 0 |}.

Example settlement_evaluated :
  (pv_status <$> tbl_provider_attempts (tables (ReconcileProviderAttempt interrupted_call calling).2)) = ["reconciled"].
Proof. by vm_compute. Qed.

Lemma ReconcileProviderAttempt_spec_witness :
  debited interrupted_call (tbl_governor (tables calling))
    (tbl_governor (tables (ReconcileProviderAttempt interrupted_call calling).2)).
Proof.
  destruct (ReconcileProviderAttempt interrupted_call calling) as [r s'] eqn:E.
  pose proof (ReconcileProviderAttempt_spec interrupted_call calling r s' E) as Hs.
  assert ((ReconcileProviderAttempt interrupted_call calling).1 = inr tt) as Hr by (by vm_compute).
  rw E /= in Hr. subst r. apply Hs.
Defined.

(** ** Plans and contexts *)

Lemma ParsePlan_roundtrip_witness : ParsePlan (write_value (plan_json the_plan)) = inr the_plan.
Proof. exact (ParsePlan_roundtrip the_plan eq_refl eq_refl). Defined.

#[local] Instance eta_Budget : Settable Budget := λ b,
  Build_Budget (MaxContextBytes b) (MaxObservationCount b) (MaxObservationChars b) (MaxFailureLines b)
    (MaxUncertainLines b) (MaxApprovalLines b) (MaxVerificationLines b).

(** What the database shows of the task whose run died. *)
Definition died_snapshot : option RecoverySnapshot :=
  match (LoadRecoverySnapshot "task" (w_store died)).1 with inr snapshot => Some snapshot | inl _ => None end.

Definition seen (budget : Z) : Input := {|
  ci_Snapshot := died_snapshot; ci_PendingApprovals := []; ci_CurrentWorkspaceSignature := ""; ci_WorkUnits := [];
  ci_NonAuthoritativeNotes := []; ci_Budget := DefaultBudget <| MaxContextBytes := budget |> |}.


Definition compiled (budget : Z) : option (option CompileError * Z * nat) :=
  let '(e, c) := Compile (seen budget) in
  Some (e, Z.of_nat (String.length (cp_render c)), length (dg_Omitted (cp_Diagnostics c))).

(** The whole text; one whose budget is a byte short of it, and one with no room but
    for the pinned lines; and no text. *)
Example contexts_evaluated :
  (compiled 0, compiled 1357, compiled 951, (λ r, r.1.1) <$> compiled 950)
  = (Some (None, 1358, 0%nat), Some (None, 1234, 1%nat), Some (None, 951, 5%nat),
     Some (Some (ErrBudgetExhausted "mandatory content requires 951 bytes, budget is 950")))%Z.
Proof. by vm_compute. Qed.


(** A compilation without an error, as a pair. *)
Lemma Compile_pair input : (Compile input).1 = None → Compile input = (None, (Compile input).2).
Proof. intros <-. apply surjective_pairing. Qed.

Lemma Compile_names_witness :
  ∃ snapshot rendered, ci_Snapshot (seen 951) = Some snapshot
    ∧ cp_render (Compile (seen 951)).2 = Redact rendered
    ∧ names rendered (recorded (rt_Objective (sn_Task snapshot))).
Proof.
  assert ((Compile (seen 951)).1 = None) as E by (vm_compute; reflexivity).
  destruct (Compile_names (seen 951) (Compile (seen 951)).2 (Compile_pair (seen 951) E)) as (snapshot & rendered & Hs & Hr & Hn).
  exists snapshot, rendered. split; [exact Hs|]. split; [exact Hr|].
  exact (Hn _ (open_objective snapshot (seen 951))).
Defined.
